(* ===== verification/_CoqProject ===== *)
-Q . S2P
Prelude.v
CMonad.v
Words.v
Memory.v
StrScan.v
StrCmp.v
MemCopy.v
StrCopy.v
StrTok.v
Compare.v
Qsort.v
QsortSpec.v
Heap.v
Tree.v
TreeSpec.v
Hash.v
HashSpec.v
Exit.v
ExitSpec.v
Stdio.v
StdioSpec.v
StdioOpen.v
StdioIn.v
StdioInSpec.v
StdioRead.v
StdioExit.v
Iconv.v
Utf8.v
IconvSpec.v
IconvText.v
Ctype.v
TwoWay.v
StrStr.v
StrStrSpec.v
StrSearch.v
Strtol.v
Random.v
Base64.v
Time.v
Concrete.v
Blocks.v
Mprec.v
MprecSpec.v
MprecMult.v
MprecDiff.v
MprecQuot.v
MprecBits.v
Bump.v
MprecTheorems.v
SearchTheorems.v
TreeTheorems.v
HashTheorems.v
ExitTheorems.v
StdioTheorems.v
StdioInTheorems.v
IconvTheorems.v
StringTheorems.v
SubstringTheorems.v
NumberTheorems.v
TimeTheorems.v
Findings.v
