(* ===== verification/Prelude.v ===== *)
(** * The C library of LLXVM: a verification library

    LLXVM runs programs compiled to LLVM bitcode on the Java and .NET virtual
    machines.  Its C library, src/runtime/libc/, is newlib, compiled with
    [clang -m32 -O0] and translated like the programs.  This library embeds a
    part of that C code in Rocq and proves it correct.  Paths below are relative
    to src/runtime/libc/.

    ** The model of C

    - Prelude (this file): 32-bit two's complement integers as [Z] with the
      wrap-around written out ([u32], [i32], [s8], ..), and tactics.
    - CMonad: the monad [C] of state, fault and loop budget in which every
      function is written, with its weakest precondition [wp] and the tactics
      that run code symbolically.  The state [world] is the flat memory, the
      reentrancy structure (include/sys/reent.h), the time zone data
      (include/time.h, time/tzvars.c) and the open files.
    - Words, Memory: little-endian words, the null tests of the word loops, loads
      and stores, the predicates [bytes] and [cstr] and the invariant [mem_ok] of
      the memory of the runtime (32-bit addresses below 1 GiB, mapped by pages).

    C pointers are addresses in one shared memory, so aliasing and overlap are
    the code's.  An access outside mapped memory is a fault; a [wp] excludes it.
    Every [while] loop takes one budget [n]; the theorems say how large it must
    be (above the length of the data, in most cases), and are total: they give
    termination, the absence of faults and the result.  [-O0] and the undefined
    macros select the speed variants of string/; both variants are modelled, as
    the class [build], and the theorems hold for both.  [_MB_CAPABLE],
    [_REENT_SMALL], [__SCLE] and [HAVE_FCNTL] are undefined in this build.

    ** Components

    - string/: StrScan (strlen, strchr, memchr, strspn, ..), StrCmp (memcmp,
      strcmp, ..), MemCopy (memcpy, memmove, memset, memccpy, swab, ..), StrCopy
      (strcpy, strncpy, strcat, strlcat, ..), StrTok (strtok_r, strtok, strsep), StrStr
      (str-two-way.h, memmem, strstr, strcasestr) over the words of TwoWay (periods,
      maximal suffixes, the critical factorization), StrStrSpec and StrSearch.
    - ctype/: Ctype, the table, the classes and the case-insensitive comparisons.
    - stdlib/: Strtol (the eight integer parsers as one body over the interface
      [charsrc] of the characters and the limits of the result), Random (div, rand,
      rand48), Base64 (a64l, l64a), Mprec (mprec.c, and quorem of dtoa.c: the big
      integers under strtod and printf, with their free lists); Blocks, MprecSpec,
      MprecMult, MprecDiff, MprecQuot and MprecBits hold their specifications.  Exit
      (the exit handlers: __atexit.c, __call_atexit.c, exit.c, ..), ExitSpec.
    - time/: Time (gmtime_r, localtime_r, mktime, the daylight saving limits).
    - search/: Qsort (bsearch, qsort), Tree (tsearch, tfind, tdelete, twalk,
      tdestroy), Hash (hcreate_r.c, hcreate.c, hash_func.c); QsortSpec, TreeSpec and
      HashSpec hold their specifications and proofs.
    - iconv/: Iconv (the loop of lib/ucsconv.c, lib/nullconv.c and the converters of
      seven encodings), Utf8, IconvSpec and IconvText.
    - stdio/: Stdio (the output side of streams: findfp.c, stdio.c, fflush.c,
      makebuf.c, wsetup.c, wbuf.c, setvbuf.c, fvwrite.c, putc.c, fwrite.c, fputs.c,
      puts.c), StdioSpec and StdioOpen; StdioIn (the input side, closing and the end
      of the program: refill.c, rget.c, getc.c, fgetc.c, ungetc.c, fread.c, fgets.c,
      fclose.c, fwalk.c, flags.c, feof.c, ferror.c, clearerr.c), StdioInSpec,
      StdioRead and StdioExit.

    A definition has the name of the C function it translates; a loop body, a
    macro or a branch that has a definition of its own is named after what it does.
    Structures are records ([FILE], [tm], [reent]); a structure passed by pointer
    to one function at a time is passed and returned, the ones the data structures
    link (tree nodes) are words of the memory.

    ** Interfaces

    Components meet in type classes; the clients are proved against the class
    and the instances discharge its laws.
    - Compare: [comparator], the comparison callback of qsort, bsearch and the
      trees: a total preorder that changes nothing.
    - Heap: [allocator], what trees and streams rely on of malloc and free: blocks
      apart from each other and from the memory of the client.  Bump is an
      instance.  Blocks: [zeroing], what big integers rely on of calloc, with the
      room that is left, so that failure is a case of its own.
    - IconvSpec: [decoder] and [encoder], what the conversion loop relies on of the
      two converters it composes; IconvText: [codec], a decoder and an encoder of
      one encoding, inverse to each other.  The converters are the instances.
    - StdioSpec: [writer], the function through which a stream writes its file: it
      takes some of the bytes or fails and takes none; [descriptors], the system
      calls under [__swrite], which is the instance.  StdioOpen: [file_status],
      fstat and isatty.  StdioInSpec: [reader], the function through which a stream
      reads, and [source], the system call under [__sread]; [channel], that a call
      reaches the file of its own stream only.
    - StrStr: [macros], the macros the including file gives to str-two-way.h;
      StrStrSpec: [matching], what the search relies on of them.
    - ExitSpec: [handler_law], what the end of a program relies on of its handlers;
      TreeSpec: [client_law], what tdestroy relies on of the function of its caller,
      which may free or change what the caller owns.
    - StrScan: [build]; Strtol: [charsrc] (narrow and wide characters).

    ** Theorems

    The properties are the theorems with a number (C1, C2, ..) in the files
    *Theorems.v; each is applied to a concrete input by the lemma with the same
    name and the suffix _witness, with the sample memories, callbacks, allocators
    and files of Concrete, Bump and StdioTheorems.
    - StdioTheorems: a stream refines its file: in each mode of buffering, and for
      every file that takes some bytes or fails, the calls of a program followed by
      fflush write what the calls say, in order, or a prefix and the error flag;
      a line buffered stream keeps no complete line; the count of fwrite on an
      error, exact when unbuffered and otherwise up to a buffer; the buffer of the first write and of setvbuf; the bound of snprintf.
    - StdioInTheorems: what a program reads is the text of the file, in order and once
      ([reading]: what is at hand, what was put aside by ungetc, what remains of the
      file); where the text ends or fails; characters pushed back; the flush, at the
      point where a terminal is read, and the end of the program.
    - MprecTheorems: the functions of mprec.c compute on the numbers that the words of
      a block stand for, keep the free lists (a block that was freed is given out
      again), and fail as malloc does.
    - SearchTheorems, TreeTheorems: qsort returns a sorted permutation and bsearch
      finds; the tree functions keep a search tree in memory (order, separation of
      the nodes, allocated blocks), insert and delete one entry (the result of
      tdelete is the parent), free all nodes after the caller's function has had their
      keys, and visit in the documented order.
    - HashTheorems: a sequence of calls of hsearch is a sequence of operations on a
      finite map; the creation and the end of a table.
    - ExitTheorems: the order of the calls of exit handlers, also of those that are
      registered meanwhile and of those of one object; registrations.
    - SubstringTheorems: the preparation of the two-way search is a critical
      factorization; memmem, strstr and strcasestr return the first occurrence.
    - IconvTheorems: the loop is the documented composition of the two converters,
      where no substitute is lost; where and why it stops; conversion of whole texts between the encodings; UTF-8.
    - StringTheorems: the value and the memory of each function, for all contents,
      alignments and overlaps, and the bounds of the l- and n- functions.
    - NumberTheorems: the parsers against the grammar of their documentation with
      saturation, the generators as linear congruences, radix-64 round trips.
    - TimeTheorems: the calendar functions against the Gregorian calendar.
    - Findings: evaluations of the code where it departs from its documentation or
      from what it means to do; the other theorems exclude these inputs, or say what
      happens (fwrite_correct, conversion_stops).

    ** Not modelled

    - stdio/: opening, seeking and wide characters; the formatted functions, which
      need the floating point conversions.  Streams are used by one thread.  stdlib/:
      the allocator (it is an interface), floating point (strtod, dtoa, and ratio and
      _mprec_log10 of mprec.c), multibyte characters, the environment and getopt.
      string/: the wide strings.  search/: the file-backed tables of hash.c.  argz/.
      time/: strftime, strptime and tzset, which are text formatting and parsing over
      the locale.  iconv/: descriptors, aliases and the table driven encodings, whose
      tables (ccs/) are generated.  locale/, misc/, signal/, errno/, reent/: wrappers
      of system calls and static tables.
    - Other targets (machine/, sys/, posix/, unix/, syscalls/), which this build does
      not compile; llxvm-cc (C++) and the runtimes (Java, C#). *)

From Stdlib Require Export ZArith Lia.
From stdpp Require Export base list gmap.
#[global] Open Scope Z_scope.

(** ** Machine integers

    The library is compiled with [-m32]: [int], [long], pointers and [size_t]
    have 32 bits, [long long] has 64, [short] 16, and [char] is signed. *)

Definition u8 (z : Z) : Z := z mod 256.
Definition u16 (z : Z) : Z := z mod 65536.
Definition u32 (z : Z) : Z := z mod 4294967296.
Definition u64 (z : Z) : Z := z mod 18446744073709551616.
Definition s8 (z : Z) : Z := (z + 128) mod 256 - 128.
Definition i32 (z : Z) : Z := (z + 2147483648) mod 4294967296 - 2147483648.
Definition i64 (z : Z) : Z :=
  (z + 9223372036854775808) mod 18446744073709551616 - 9223372036854775808.

Abbreviation is_byte b := (0 <= b < 256) (only parsing).
Abbreviation zlen l := (Z.of_nat (length l)).

Create HintDb cint.

(** Arithmetic stays folded under [simpl]. *)
#[global] Arguments Z.of_nat : simpl never.
#[global] Arguments Z.add : simpl never.
#[global] Arguments Z.sub : simpl never.
#[global] Arguments Z.mul : simpl never.
#[global] Arguments Z.modulo : simpl never.
#[global] Arguments Z.div : simpl never.
#[global] Arguments Z.pow : simpl never.
#[global] Arguments Z.eqb : simpl never.
#[global] Arguments Z.ltb : simpl never.
#[global] Arguments Z.leb : simpl never.
#[global] Arguments Z.land : simpl never.
#[global] Arguments Z.lor : simpl never.
#[global] Arguments Z.lxor : simpl never.
#[global] Arguments Z.shiftl : simpl never.
#[global] Arguments Z.shiftr : simpl never.
#[global] Arguments Z.lnot : simpl never.

Ltac Zify.zify_post_hook ::= Z.div_mod_to_equations.

Lemma u8_small z : 0 <= z < 256 -> u8 z = z.
Proof. intros; unfold u8; lia. Qed.
Lemma u16_small z : 0 <= z < 65536 -> u16 z = z.
Proof. intros; unfold u16; lia. Qed.
Lemma u32_small z : 0 <= z < 4294967296 -> u32 z = z.
Proof. intros; unfold u32; lia. Qed.
Lemma u64_small z : 0 <= z < 18446744073709551616 -> u64 z = z.
Proof. intros; unfold u64; lia. Qed.
Lemma i32_small z : -2147483648 <= z < 2147483648 -> i32 z = z.
Proof. intros; unfold i32; lia. Qed.
Lemma i64_small z :
  -9223372036854775808 <= z < 9223372036854775808 -> i64 z = z.
Proof. intros; unfold i64; lia. Qed.

Lemma u32_range z : 0 <= u32 z < 4294967296.
Proof. unfold u32; lia. Qed.
Lemma u8_range z : 0 <= u8 z < 256.
Proof. unfold u8; lia. Qed.
Lemma i32_range z : -2147483648 <= i32 z < 2147483648.
Proof. unfold i32; lia. Qed.

Lemma u32_pred_len {A} (b : A) l :
  zlen (b :: l) < 4294967296 -> u32 (zlen (b :: l) - 1) = zlen l.
Proof. simpl. intros. rewrite u32_small; lia. Qed.

(** Conversion to [signed char] is injective on bytes. *)
Lemma s8_eq a b : is_byte a -> is_byte b -> s8 a = s8 b <-> a = b.
Proof. intros; unfold s8; lia. Qed.

Lemma s8_eqb a b : is_byte a -> is_byte b -> (s8 a =? s8 b) = (a =? b).
Proof. intros; unfold s8; lia. Qed.

Lemma s8_eqb0 a : is_byte a -> (s8 a =? 0) = (a =? 0).
Proof. intros; unfold s8; lia. Qed.

(** A number above [k] bits, with [k] bits. *)
Lemma lor_disjoint x y k : 0 <= k -> 0 <= y < 2 ^ k -> Z.lor (x * 2 ^ k) y = x * 2 ^ k + y.
Proof.
  intros Hk Hy. rewrite <-Z.shiftl_mul_pow2 by done.
  rewrite <-Z.lxor_lor, <-Z.add_nocarry_lxor; [done|..]; apply Z.bits_inj'; intros i Hi;
    rewrite Z.land_spec, Z.bits_0; destruct (Z.lt_ge_cases i k).
  1, 3: by rewrite Z.shiftl_spec_low.
  all: apply andb_false_iff; right;
    rewrite <-(Z.mod_small y (2 ^ k)) by done; by apply Z.mod_pow2_bits_high.
Qed.

Lemma u8_s8 a : is_byte a -> u8 (s8 a) = a.
Proof. intros; unfold u8, s8; lia. Qed.

(** A boolean property of bytes is checked by enumeration. *)
Lemma byte_enum (P : Z -> bool) c :
  forallb (fun k => P (Z.of_nat k)) (seq 0 256) = true -> is_byte c -> P c = true.
Proof.
  intros H Hc. rewrite forallb_forall in H. specialize (H (Z.to_nat c)).
  rewrite Z2Nat.id in H by lia. apply H, in_seq. lia.
Qed.

(** ** Tactics *)

(** [b2p] turns the boolean comparisons of the context into propositions. *)
Ltac b2p :=
  repeat match goal with
  | H : (_ =? _) = true |- _ => apply Z.eqb_eq in H
  | H : (_ =? _) = false |- _ => apply Z.eqb_neq in H
  | H : (_ <? _) = true |- _ => apply Z.ltb_lt in H
  | H : (_ <? _) = false |- _ => apply Z.ltb_ge in H
  | H : (_ <=? _) = true |- _ => apply Z.leb_le in H
  | H : (_ <=? _) = false |- _ => apply Z.leb_gt in H
  | H : negb _ = true |- _ => apply negb_true_iff in H
  | H : negb _ = false |- _ => apply negb_false_iff in H
  | H : _ && _ = true |- _ => apply andb_true_iff in H as [? ?]
  | H : _ || _ = false |- _ => apply orb_false_iff in H as [? ?]
  | H : _ && _ = false |- _ => apply andb_false_iff in H
  | H : _ || _ = true |- _ => apply orb_true_iff in H
  end.
Ltac blia := b2p; cbn [length] in *; lia.

(** [eqapply H] closes a goal [P x1 .. w] with [H : P y1 .. w] when the
    arguments are equal up to an equation left to the user. *)
Ltac eqapply H :=
  lazymatch type of H with
  | ?P ?x ?w =>
      lazymatch goal with
      | |- P x w => exact H
      | |- P ?y w => replace y with x; [exact H|..]
      | |- P x ?w' => replace w' with w; [exact H|..]
      | |- P ?y ?w' =>
          replace y with x; [replace w' with w; [exact H|try reflexivity..]|..]
      end
  end.

(** [flia] closes an equation of constructor terms whose leaves are equal
    integers. *)
Ltac flia := first [reflexivity | lia | progress f_equal; flia].
