(* ===== verification/CMonad.v ===== *)
(** * The C execution monad

    C code is embedded as functions in a state, error and fuel monad: [C A] is
    a computation that reads a loop budget, transforms the machine state
    ([world]: the flat memory, the reentrancy structure, the time zone data and
    the open files) and ends in a value, in a fault (an access outside mapped
    memory) or out of fuel.  Every [while] loop of the source is a [loop]; one
    budget bounds every loop.  The weakest precondition [wp] is total: it excludes
    faults and exhaustion. *)

From S2P Require Import Prelude.

(** ** The machine state *)

(** Memory is byte addressed; an absent address is unmapped. *)
Abbreviation mem := (gmap Z Z).

(** [struct _rand48] (include/sys/reent.h); an [unsigned short[3]] is a triple. *)
Definition ushort3 : Type := Z * Z * Z.
Record rand48 := Rand48 { _seed : ushort3; _mult : ushort3; _add : Z }.

(** The fields of [struct _reent] (include/sys/reent.h) the modelled functions
    use.  [_strtok_last] and [_l64a_buf] are the addresses of the fields of
    these names, since the functions take pointers to them. *)
Record reent := Reent {
  _errno : Z;
  _strtok_last : Z;
  _l64a_buf : Z;
  _rand_next : Z;
  _r48 : rand48;
}.

(** [__tzrule_type] and [__tzinfo_type] (include/time.h), with the global
    [_daylight] (time/tzvars.c). *)
Record tzrule := TzRule {
  tz_ch : Z; tz_m : Z; tz_n : Z; tz_d : Z; tz_s : Z; tz_change : Z; tz_offset : Z;
}.
Record tzinfo := TzInfo {
  _daylight : Z;
  __tznorth : Z;
  __tzyear : Z;
  __tzrule0 : tzrule;
  __tzrule1 : tzrule;
}.

(** What the system holds for the program: the contents of the files it has
    open for writing, what is left of those it reads, by descriptor. *)
Abbreviation io := (gmap Z (list Z)).

Record world := World { w_mem : mem; w_reent : reent; w_tz : tzinfo; w_io : io }.

Definition set_mem (m : mem) (w : world) : world := World m (w_reent w) (w_tz w) (w_io w).
Definition set_reent (r : reent) (w : world) : world := World (w_mem w) r (w_tz w) (w_io w).
Definition set_tz (t : tzinfo) (w : world) : world := World (w_mem w) (w_reent w) t (w_io w).
Definition set_io (i : io) (w : world) : world := World (w_mem w) (w_reent w) (w_tz w) i.
Definition set_errno (e : Z) (r : reent) : reent :=
  Reent e (_strtok_last r) (_l64a_buf r) (_rand_next r) (_r48 r).
Definition set_rand_next (x : Z) (r : reent) : reent :=
  Reent (_errno r) (_strtok_last r) (_l64a_buf r) x (_r48 r).
Definition set_r48 (x : rand48) (r : reent) : reent :=
  Reent (_errno r) (_strtok_last r) (_l64a_buf r) (_rand_next r) x.

(** ** Computations *)

Inductive outcome (A : Type) : Type :=
| Done (a : A) (w : world)
| Fault
| NoFuel.
Arguments Done {A} a w.
Arguments Fault {A}.
Arguments NoFuel {A}.

Definition C (A : Type) : Type := nat -> world -> outcome A.

#[export] Instance C_ret : MRet C := fun A a _ w => Done a w.
#[export] Instance C_bind : MBind C := fun A B f c n w =>
  match c n w with
  | Done a w' => f a n w'
  | Fault => Fault
  | NoFuel => NoFuel
  end.

Definition fault {A} : C A := fun _ _ => Fault.
Definition get_world : C world := fun _ w => Done w w.
Definition get_mem : C mem := fun _ w => Done (w_mem w) w.
Definition put_mem (m : mem) : C unit := fun _ w => Done tt (set_mem m w).
Definition get_reent : C reent := fun _ w => Done (w_reent w) w.
Definition put_reent (r : reent) : C unit :=
  fun _ w => Done tt (set_reent r w).
Definition get_tz : C tzinfo := fun _ w => Done (w_tz w) w.
Definition put_tz (t : tzinfo) : C unit := fun _ w => Done tt (set_tz t w).

(** [rptr->_errno = e] *)
Definition put_errno (e : Z) : C unit :=
  r ← get_reent; put_reent (set_errno e r).

(** *** Loops

    [loop body s] runs [body] on the loop's local variables [s] until it
    leaves the loop: [next] is the end of an iteration and [brk] leaves. *)
Definition next {S R} (s : S) : C (S + R) := mret (inl s).
Definition brk {S R} (r : R) : C (S + R) := mret (inr r).

Fixpoint loop_k {S R} (k : nat) (body : S -> C (S + R)) (s : S) : C R :=
  match k with
  | O => fun _ _ => NoFuel
  | Datatypes.S k' =>
      x ← body s;
      match x with
      | inl s' => loop_k k' body s'
      | inr r => mret r
      end
  end.

Definition loop {S R} (body : S -> C (S + R)) (s : S) : C R :=
  fun n => loop_k n body s n.

#[global] Arguments loop_k {S R} k body s : simpl never.

(** *** Early returns

    A statement that may contain [return] yields [Return r] when the function
    returns, and [Fall b] when control falls through with locals [b]. *)
Inductive flow (B R : Type) : Type :=
| Fall (b : B)
| Return (r : R).
Arguments Fall {B R} b.
Arguments Return {B R} r.

Definition flow_bind {B R} (c : C (flow B R)) (k : B -> C R) : C R :=
  x ← c; match x with Fall b => k b | Return r => mret r end.

(** The same inside a statement that is itself a block. *)
Definition flow_seq {B B' R} (c : C (flow B R)) (k : B -> C (flow B' R))
  : C (flow B' R) :=
  x ← c; match x with Fall b => k b | Return r => mret (Return r) end.

Notation "x ⇐ c ; k" := (flow_bind c (fun x => k))
  (at level 20, c at level 100, k at level 200, only parsing).
Notation "' x ⇐ c ; k" := (flow_bind c (fun x => k))
  (at level 20, x pattern, c at level 100, k at level 200, only parsing).

Notation "x ⟸ c ; k" := (flow_seq c (fun x => k))
  (at level 20, c at level 100, k at level 200, only parsing).
Notation "' x ⟸ c ; k" := (flow_seq c (fun x => k))
  (at level 20, x pattern, c at level 100, k at level 200, only parsing).

Definition fall {B R} (b : B) : C (flow B R) := mret (Fall b).
Definition return_ {B R} (r : R) : C (flow B R) := mret (Return r).

(** ** Weakest preconditions *)

Definition wp {A} (n : nat) (c : C A) (w : world) (Q : A -> world -> Prop)
  : Prop :=
  match c n w with
  | Done a w' => Q a w'
  | Fault | NoFuel => False
  end.

Section wp_rules.
Context {A B : Type}.
Implicit Types (n : nat) (w : world).

Lemma wp_ret n (a : A) w (Q : A -> world -> Prop) :
  Q a w -> wp n (mret a) w Q.
Proof. done. Qed.

Lemma wp_bind n (c : C A) (f : A -> C B) w Q :
  wp n c w (fun a w' => wp n (f a) w' Q) -> wp n (c ≫= f) w Q.
Proof. unfold wp, mbind, C_bind. by destruct (c n w). Qed.

Lemma wp_bind_assoc {D} n (c : C A) (f : A -> C B) (g : B -> C D) w Q :
  wp n ((c ≫= f) ≫= g) w Q -> wp n (c ≫= fun a => f a ≫= g) w Q.
Proof. unfold wp, mbind, C_bind. by destruct (c n w). Qed.

Lemma wp_mono n (c : C A) w (P Q : A -> world -> Prop) :
  wp n c w P -> (forall a w', P a w' -> Q a w') -> wp n c w Q.
Proof. unfold wp. destruct (c n w); auto. Qed.

(** A triple that holds for every postcondition determines the outcome. *)
Lemma wp_run n (c : C A) w a w' :
  (forall Q : A -> world -> Prop, Q a w' -> wp n c w Q) -> c n w = Done a w'.
Proof.
  intros H. specialize (H (fun x y => x = a /\ y = w') (conj eq_refl eq_refl)).
  unfold wp in H. destruct (c n w); [by destruct H as [-> ->]|done..].
Qed.

Lemma wp_exists n (c : C A) w (Q : A -> world -> Prop) :
  wp n c w Q <-> exists a w', c n w = Done a w' /\ Q a w'.
Proof.
  unfold wp. split.
  - destruct (c n w); intros ?; [eauto|done..].
  - by intros (a & w' & -> & ?).
Qed.
End wp_rules.

Section wp_control.
Context {S B R : Type}.
Implicit Types (n k : nat) (w : world).

Lemma wp_loop_S k n (body : S -> C (S + R)) s w Q :
  wp n (body s) w (fun x w' =>
    match x with
    | inl s' => wp n (loop_k k body s') w' Q
    | inr r => Q r w'
    end) ->
  wp n (loop_k (Datatypes.S k) body s) w Q.
Proof.
  intros H. apply wp_bind. eapply wp_mono; [exact H|].
  intros [s'|r] w'; auto.
Qed.

(** The same rule with the budget given by a bound: an iteration needs one
    unit, and leaves at least [k] for the rest. *)
Lemma wp_loop_step k k' n (body : S -> C (S + R)) s w Q :
  (k < k')%nat ->
  (forall k'', (k <= k'')%nat ->
    wp n (body s) w (fun x w' =>
    match x with
    | inl s' => wp n (loop_k k'' body s') w' Q
    | inr r => Q r w'
    end)) ->
  wp n (loop_k k' body s) w Q.
Proof. intros Hk H. destruct k' as [|k']; [lia|]. apply wp_loop_S, H. lia. Qed.

(** Total correctness of a loop: an invariant [I k s w] that bounds the
    number of remaining iterations by [k]. *)
Lemma wp_loop_inv (I : nat -> S -> world -> Prop) n k
    (body : S -> C (S + R)) s w Q :
  I k s w -> (k < n)%nat ->
  (forall k s w, I k s w ->
     wp n (body s) w (fun x w' =>
       match x with
       | inl s' => exists k', (k' < k)%nat /\ I k' s' w'
       | inr r => Q r w'
       end)) ->
  wp n (loop body s) w Q.
Proof.
  intros HI Hk Hbody. unfold loop, wp. fold (wp n (loop_k n body s) w Q).
  assert (forall j, (k < j)%nat -> wp n (loop_k j body s) w Q) as Hj; [|by apply Hj].
  revert s w HI. clear Hk.
  induction k as [k IH] using lt_wf_ind. intros s w HI [|j] Hkj; [lia|].
  apply wp_loop_S. eapply wp_mono; [by apply Hbody|].
  intros [s'|r] w'; [|done]. intros (k' & Hk' & HI'). apply (IH k'); auto. lia.
Qed.

Lemma wp_flow n (c : C (flow B R)) (k : B -> C R) w Q :
  wp n c w (fun x w' =>
    match x with Fall b => wp n (k b) w' Q | Return r => Q r w' end) ->
  wp n (flow_bind c k) w Q.
Proof.
  intros H. apply wp_bind. eapply wp_mono; [exact H|]. by intros [b|r] w'.
Qed.

Lemma wp_flow_seq {B'} n (c : C (flow B R)) (k : B -> C (flow B' R)) w Q :
  wp n c w (fun x w' =>
    match x with
    | Fall b => wp n (k b) w' Q
    | Return r => Q (Return r) w'
    end) ->
  wp n (flow_seq c k) w Q.
Proof.
  intros H. apply wp_bind. eapply wp_mono; [exact H|]. by intros [b|r] w'.
Qed.

Lemma wp_next n (s : S) w (Q : S + R -> world -> Prop) :
  Q (inl s) w -> wp n (next s) w Q.
Proof. done. Qed.
Lemma wp_brk n (r : R) w (Q : S + R -> world -> Prop) :
  Q (inr r) w -> wp n (brk r) w Q.
Proof. done. Qed.
Lemma wp_fall n (b : B) w (Q : flow B R -> world -> Prop) :
  Q (Fall b) w -> wp n (fall b) w Q.
Proof. done. Qed.
Lemma wp_return n (r : R) w (Q : flow B R -> world -> Prop) :
  Q (Return r) w -> wp n (return_ r) w Q.
Proof. done. Qed.
End wp_control.

Lemma wp_get_mem n w Q : Q (w_mem w) w -> wp n get_mem w Q.
Proof. done. Qed.
Lemma wp_put_mem n m w Q : Q tt (set_mem m w) -> wp n (put_mem m) w Q.
Proof. done. Qed.
Lemma wp_get_reent n w Q : Q (w_reent w) w -> wp n get_reent w Q.
Proof. done. Qed.
Lemma wp_put_reent n r w Q :
  Q tt (set_reent r w) -> wp n (put_reent r) w Q.
Proof. done. Qed.
Lemma wp_put_errno n e w Q :
  Q tt (set_reent (set_errno e (w_reent w)) w) -> wp n (put_errno e) w Q.
Proof. done. Qed.
Lemma wp_get_tz n w Q : Q (w_tz w) w -> wp n get_tz w Q.
Proof. done. Qed.
Lemma wp_put_tz n t w Q : Q tt (set_tz t w) -> wp n (put_tz t) w Q.
Proof. done. Qed.

Lemma wp_loop_k {S R} n (body : S -> C (S + R)) s w Q :
  wp n (loop_k n body s) w Q -> wp n (loop body s) w Q.
Proof. done. Qed.

#[global] Opaque wp.
Create HintDb cwp.
#[export] Hint Resolve wp_ret wp_next wp_brk wp_fall wp_return : cwp.

Lemma set_mem_mem m w : w_mem (set_mem m w) = m.
Proof. done. Qed.
Lemma set_mem_set_mem m m' w : set_mem m (set_mem m' w) = set_mem m w.
Proof. done. Qed.
Lemma set_mem_id w : set_mem (w_mem w) w = w.
Proof. by destruct w. Qed.
Lemma set_mem_reent m w : w_reent (set_mem m w) = w_reent w.
Proof. done. Qed.

(** ** Symbolic execution

    [wp_step] runs one instruction of the monad; [wp_steps] runs until a
    conditional, a loop or a call stops it.  [wp_if] cases on a conditional
    and discharges the arithmetically impossible branch. *)
Ltac wp_step :=
  lazymatch goal with
  | |- wp _ (mbind _ _) _ _ => apply wp_bind
  | |- wp _ (flow_bind _ _) _ _ => apply wp_flow
  | |- wp _ (flow_seq _ _) _ _ => apply wp_flow_seq
  | |- wp _ (mret _) _ _ => apply wp_ret
  | |- wp _ (next _) _ _ => apply wp_next
  | |- wp _ (brk _) _ _ => apply wp_brk
  | |- wp _ (fall _) _ _ => apply wp_fall
  | |- wp _ (return_ _) _ _ => apply wp_return
  | |- wp _ get_mem _ _ => apply wp_get_mem
  | |- wp _ (put_mem _) _ _ => apply wp_put_mem
  | |- wp _ get_reent _ _ => apply wp_get_reent
  | |- wp _ (put_reent _) _ _ => apply wp_put_reent
  | |- wp _ (put_errno _) _ _ => apply wp_put_errno
  | |- wp _ get_tz _ _ => apply wp_get_tz
  | |- wp _ (put_tz _) _ _ => apply wp_put_tz
  end; cbn beta iota zeta delta [negb andb orb].
Ltac wp_steps := cbn beta iota zeta delta [negb andb orb]; repeat wp_step.

(** One iteration of a loop whose budget is a successor. *)
Ltac wp_loop := apply wp_loop_S; cbn beta iota zeta delta [negb andb orb].

Ltac wp_if :=
  lazymatch goal with
  | |- wp _ (if ?b then _ else _) _ _ =>
      let E := fresh "E" in destruct b eqn:E; try (exfalso; blia)
  end.

(** [by_wp L] turns the triple [L] of the library into a statement on the run. *)
Ltac by_wp L := apply wp_run; intros Q HQ; eapply L; eauto.
