(* ===== verification/Words.v ===== *)
(** * Word-level byte tricks

    The string functions process four bytes at a time.  This file holds the
    little-endian view of a 32-bit word, the DETECTNULL and DETECTCHAR macros
    and the mask constructions, with the lemmas that reduce them to bytes. *)

From S2P Require Import Prelude.

(** Little-endian composition of a word, and its bytes. *)
Definition le32 (a b c d : Z) : Z := a + 256 * (b + 256 * (c + 256 * d)).
Definition byte_of (k x : Z) : Z := x / 256 ^ k mod 256.

(** [#define DETECTNULL(X) (((X) - 0x01010101) & ~(X) & 0x80808080)] *)
Definition DETECTNULL (x : Z) : Z :=
  Z.land (Z.land (u32 (x - 0x01010101)) (u32 (Z.lnot x))) 0x80808080.

(** [#define DETECTCHAR(X,MASK) (DETECTNULL(X ^ MASK))] *)
Definition DETECTCHAR (x mask : Z) : Z := DETECTNULL (Z.lxor x mask).

(** [#define UNALIGNED(X) ((long)X & (sizeof (long) - 1))], and the
    two-pointer variant. *)
Definition UNALIGNED (x : Z) : bool := negb (Z.land x 3 =? 0).
Definition UNALIGNED2 (x y : Z) : bool :=
  negb (Z.lor (Z.land x 3) (Z.land y 3) =? 0).

(** ** Bits of byte sequences *)

Lemma testbit_byte_cons a x i :
  is_byte a -> 0 <= i ->
  Z.testbit (a + 256 * x) i =
  if i <? 8 then Z.testbit a i else Z.testbit x (i - 8).
Proof.
  intros Ha Hi. destruct (Z.ltb_spec i 8).
  - rewrite <-(Z.mod_pow2_bits_low _ 8) by lia. f_equal.
    change (2 ^ 8) with 256. lia.
  - replace i with (i - 8 + 8) at 1 by lia. rewrite <-Z.div_pow2_bits by lia.
    f_equal. change (2 ^ 8) with 256. lia.
Qed.

Section bitwise.
Context (f : Z -> Z -> Z) (g : bool -> bool -> bool).
Hypothesis f_spec : forall x y i,
  0 <= i -> Z.testbit (f x y) i = g (Z.testbit x i) (Z.testbit y i).
Hypothesis f_byte : forall a b, is_byte a -> is_byte b -> is_byte (f a b).

Lemma bitwise_byte_cons a b x y :
  is_byte a -> is_byte b ->
  f (a + 256 * x) (b + 256 * y) = f a b + 256 * f x y.
Proof.
  intros Ha Hb. apply Z.bits_inj'. intros i Hi.
  rewrite f_spec, !testbit_byte_cons by auto.
  destruct (Z.ltb_spec i 8); by rewrite f_spec by lia.
Qed.

Lemma bitwise_le32 a b c d a' b' c' d' :
  is_byte a -> is_byte b -> is_byte c ->
  is_byte a' -> is_byte b' -> is_byte c' ->
  f (le32 a b c d) (le32 a' b' c' d') =
  le32 (f a a') (f b b') (f c c') (f d d').
Proof. intros. unfold le32. by rewrite !bitwise_byte_cons. Qed.
End bitwise.

(** A bound on results follows from the bits above the eighth. *)
Lemma byte_of_bits x :
  0 <= x -> (forall i, 8 <= i -> Z.testbit x i = false) -> is_byte x.
Proof.
  intros Hx H. split; [done|]. destruct (Z.lt_ge_cases x 256); [done|].
  exfalso. assert (Hl : 8 <= Z.log2 x) by (apply Z.log2_le_pow2; lia).
  specialize (H _ Hl). by rewrite Z.bit_log2 in H by lia.
Qed.

Lemma byte_high_bit a i : is_byte a -> 8 <= i -> Z.testbit a i = false.
Proof.
  intros Ha Hi. destruct (decide (a = 0)) as [->|]; [apply Z.testbit_0_l|].
  apply Z.bits_above_log2; [lia|].
  assert (Z.log2 a < 8) by (apply Z.log2_lt_pow2; lia). lia.
Qed.

Lemma land_byte a b : is_byte a -> is_byte b -> is_byte (Z.land a b).
Proof.
  intros Ha Hb. apply byte_of_bits; [apply Z.land_nonneg; lia|].
  intros i Hi. by rewrite Z.land_spec, byte_high_bit.
Qed.
Lemma lxor_byte a b : is_byte a -> is_byte b -> is_byte (Z.lxor a b).
Proof.
  intros Ha Hb. apply byte_of_bits; [apply Z.lxor_nonneg; lia|].
  intros i Hi. by rewrite Z.lxor_spec, !byte_high_bit.
Qed.
Lemma lor_byte a b : is_byte a -> is_byte b -> is_byte (Z.lor a b).
Proof.
  intros Ha Hb. apply byte_of_bits; [apply Z.lor_nonneg; lia|].
  intros i Hi. by rewrite Z.lor_spec, !byte_high_bit.
Qed.

Definition land_le32 := bitwise_le32 Z.land andb (fun x y i _ => Z.land_spec x y i)
    land_byte.
Definition lxor_le32 := bitwise_le32 Z.lxor xorb (fun x y i _ => Z.lxor_spec x y i)
    lxor_byte.

Lemma lxor_0_iff a b : Z.lxor a b = 0 <-> a = b.
Proof. apply Z.lxor_eq_0_iff. Qed.

(** ** DETECTNULL *)

(** One byte of DETECTNULL, with the borrow [k] from the byte below. *)
Definition detect_byte (k a : Z) : Z :=
  Z.land (Z.land ((a - 1 - k) mod 256) (255 - a)) 128.

Lemma detect_byte_nonnull a : 0 < a < 256 -> detect_byte 0 a = 0.
Proof.
  intros Ha.
  assert (H := byte_enum (fun a => (a =? 0) || (detect_byte 0 a =? 0)) a eq_refl). lia.
Qed.

Lemma detect_byte_nonneg k a : is_byte a -> 0 <= detect_byte k a.
Proof. intros. apply Z.land_nonneg. lia. Qed.

Definition borrow (k a : Z) : Z := if a <? 1 + k then 1 else 0.

Lemma u32_sub_ones a b c d :
  is_byte a -> is_byte b -> is_byte c -> is_byte d ->
  u32 (le32 a b c d - 0x01010101) =
  le32 ((a - 1 - 0) mod 256) ((b - 1 - borrow 0 a) mod 256)
       ((c - 1 - borrow (borrow 0 a) b) mod 256)
       ((d - 1 - borrow (borrow (borrow 0 a) b) c) mod 256).
Proof.
  intros. unfold u32, le32.
  remember (borrow 0 a) as k1. remember (borrow k1 b) as k2.
  remember (borrow k2 c) as k3.
  assert ((a - 1 - 0) mod 256 = a - 1 + 256 * k1 /\ 0 <= k1 <= 1)
    by (subst k1; unfold borrow; case_match; lia).
  assert ((b - 1 - k1) mod 256 = b - 1 - k1 + 256 * k2 /\ 0 <= k2 <= 1)
    by (subst k2; unfold borrow; case_match; lia).
  assert ((c - 1 - k2) mod 256 = c - 1 - k2 + 256 * k3 /\ 0 <= k3 <= 1)
    by (subst k3; unfold borrow; case_match; lia).
  lia.
Qed.

Lemma u32_lnot a b c d :
  is_byte a -> is_byte b -> is_byte c -> is_byte d ->
  u32 (Z.lnot (le32 a b c d)) = le32 (255 - a) (255 - b) (255 - c) (255 - d).
Proof. intros. unfold u32, Z.lnot, le32. lia. Qed.

Lemma DETECTNULL_bytes a b c d :
  is_byte a -> is_byte b -> is_byte c -> is_byte d ->
  DETECTNULL (le32 a b c d) =
  le32 (detect_byte 0 a) (detect_byte (borrow 0 a) b)
       (detect_byte (borrow (borrow 0 a) b) c)
       (detect_byte (borrow (borrow (borrow 0 a) b) c) d).
Proof.
  intros. unfold DETECTNULL. rewrite u32_sub_ones, u32_lnot by done.
  change 0x80808080 with (le32 128 128 128 128).
  assert (Hm : forall x, is_byte (x mod 256)) by (intros; lia).
  rewrite land_le32 by (try apply Hm; lia).
  rewrite land_le32 by (first [lia | apply land_byte; [apply Hm|lia]]). done.
Qed.

(** DETECTNULL is nonzero exactly when some byte of the word is null. *)
Lemma DETECTNULL_spec a b c d :
  is_byte a -> is_byte b -> is_byte c -> is_byte d ->
  DETECTNULL (le32 a b c d) = 0 <-> a <> 0 /\ b <> 0 /\ c <> 0 /\ d <> 0.
Proof.
  intros Ha Hb Hc Hd. rewrite DETECTNULL_bytes by done.
  pose proof (detect_byte_nonneg 0 a Ha).
  pose proof (detect_byte_nonneg (borrow 0 a) b Hb).
  pose proof (detect_byte_nonneg (borrow (borrow 0 a) b) c Hc).
  pose proof (detect_byte_nonneg (borrow (borrow (borrow 0 a) b) c) d Hd).
  assert (Hz : detect_byte 0 0 = 128) by reflexivity.
  assert (Hbr : forall x, 0 < x -> borrow 0 x = 0)
    by (intros; unfold borrow; case_match; lia).
  unfold le32. split.
  - intros E. destruct (decide (a = 0)) as [->|Na]; [rewrite Hz in *; lia|].
    rewrite (Hbr a) in * by lia.
    destruct (decide (b = 0)) as [->|Nb]; [rewrite Hz in *; lia|].
    rewrite (Hbr b) in * by lia.
    destruct (decide (c = 0)) as [->|Nc]; [rewrite Hz in *; lia|].
    rewrite (Hbr c) in * by lia.
    destruct (decide (d = 0)) as [->|Nd]; [rewrite Hz in *; lia|]. done.
  - intros (Na & Nb & Nc & Nd).
    rewrite !(Hbr a), !(Hbr b), !(Hbr c), !detect_byte_nonnull by lia. lia.
Qed.

Lemma DETECTCHAR_spec a b c d k :
  is_byte a -> is_byte b -> is_byte c -> is_byte d -> is_byte k ->
  DETECTCHAR (le32 a b c d) (le32 k k k k) = 0 <->
  a <> k /\ b <> k /\ c <> k /\ d <> k.
Proof.
  intros. unfold DETECTCHAR.
  rewrite lxor_le32, DETECTNULL_spec, !lxor_0_iff by auto using lxor_byte. done.
Qed.

(** The masks the functions build by shifting. *)
Lemma mask_le32 c :
  is_byte c ->
  Z.lor (u32 (Z.shiftl (Z.lor (u32 (Z.shiftl c 8)) c) 16))
    (Z.lor (u32 (Z.shiftl c 8)) c) = le32 c c c c /\
  u32 (Z.shiftl c 8) = Z.shiftl c 8.
Proof.
  intros Hc. assert (H := byte_enum (fun c =>
    (Z.lor (u32 (Z.shiftl (Z.lor (u32 (Z.shiftl c 8)) c) 16))
      (Z.lor (u32 (Z.shiftl c 8)) c) =? le32 c c c c) &&
    (u32 (Z.shiftl c 8) =? Z.shiftl c 8)) c eq_refl Hc).
  cbn beta in H. lia.
Qed.

(** ** Words and bytes *)

Lemma le32_inj a b c d a' b' c' d' :
  is_byte a -> is_byte b -> is_byte c -> is_byte d ->
  is_byte a' -> is_byte b' -> is_byte c' -> is_byte d' ->
  le32 a b c d = le32 a' b' c' d' <-> a = a' /\ b = b' /\ c = c' /\ d = d'.
Proof. intros. unfold le32. lia. Qed.

Lemma le32_range a b c d :
  is_byte a -> is_byte b -> is_byte c -> is_byte d ->
  0 <= le32 a b c d < 4294967296.
Proof. intros. unfold le32. lia. Qed.

Lemma byte_of_le32 a b c d :
  is_byte a -> is_byte b -> is_byte c -> is_byte d ->
  byte_of 0 (le32 a b c d) = a /\ byte_of 1 (le32 a b c d) = b /\
  byte_of 2 (le32 a b c d) = c /\ byte_of 3 (le32 a b c d) = d.
Proof.
  intros. unfold byte_of, le32.
  change (256 ^ 0) with 1; change (256 ^ 1) with 256;
    change (256 ^ 2) with 65536; change (256 ^ 3) with 16777216. lia.
Qed.

Lemma byte_of_range k x : is_byte (byte_of k x).
Proof. unfold byte_of. lia. Qed.

Lemma le32_byte_of x :
  0 <= x < 4294967296 ->
  le32 (byte_of 0 x) (byte_of 1 x) (byte_of 2 x) (byte_of 3 x) = x.
Proof.
  intros. unfold byte_of, le32.
  change (256 ^ 0) with 1; change (256 ^ 1) with 256;
    change (256 ^ 2) with 65536; change (256 ^ 3) with 16777216. lia.
Qed.

(** ** Alignment *)

Lemma land_3 x : Z.land x 3 = x mod 4.
Proof. apply (Z.land_ones x 2). lia. Qed.

Lemma UNALIGNED_spec x : UNALIGNED x = negb (x mod 4 =? 0).
Proof. unfold UNALIGNED. by rewrite land_3. Qed.

Lemma UNALIGNED2_spec x y :
  UNALIGNED2 x y = false <-> x mod 4 = 0 /\ y mod 4 = 0.
Proof.
  unfold UNALIGNED2. rewrite !land_3.
  rewrite negb_false_iff, Z.eqb_eq, Z.lor_eq_0_iff. done.
Qed.
