(* ===== verification/Memory.v ===== *)
(** * The flat memory of the C library

    Byte, word and pointer accesses, the array predicate [bytes], the C-string
    predicate [cstr], the array update [store_bytes], and the machine
    invariant [mem_ok] the JVM runtime maintains: mapped bytes are bytes,
    mapped addresses are non-null and below the 1 GiB of the runtime memory
    (runtime/java/src/llxvm/runtime/Memory.java), and mapping is coarser than
    an aligned word (the runtime maps 64 KiB pages). *)

From S2P Require Import Prelude CMonad Words.

(** ** Accesses *)

(** [*(unsigned char * )p] *)
Definition load8 (p : Z) : C Z :=
  m ← get_mem;
  match m !! p with Some b => mret b | None => fault end.

(** [*(char * )p], sign extended. *)
Definition load8s (p : Z) : C Z := b ← load8 p; mret (s8 b).

(** [*(char * )p = c]; the value is truncated. *)
Definition store8 (p c : Z) : C unit :=
  m ← get_mem;
  match m !! p with Some _ => put_mem (<[p := u8 c]> m) | None => fault end.

(** [*(unsigned long * )p]: the word path of the string functions only
    dereferences aligned pointers, but the machine does not require it. *)
Definition load32 (p : Z) : C Z :=
  a ← load8 p; b ← load8 (p + 1); c ← load8 (p + 2); d ← load8 (p + 3);
  mret (le32 a b c d).

Definition store32 (p x : Z) : C unit :=
  store8 p (byte_of 0 x) ;; store8 (p + 1) (byte_of 1 x) ;;
  store8 (p + 2) (byte_of 2 x) ;; store8 (p + 3) (byte_of 3 x).

(** ** Arrays in memory *)

Fixpoint bytes (m : mem) (p : Z) (l : list Z) : Prop :=
  match l with
  | [] => True
  | b :: l' => m !! p = Some b /\ bytes m (p + 1) l'
  end.

(** [mapped m p n]: [n] bytes are mapped at [p]. *)
Definition mapped (m : mem) (p n : Z) : Prop :=
  forall a, p <= a < p + n -> is_Some (m !! a).

(** A C string: non-null bytes followed by a null. *)
Definition cstr (m : mem) (p : Z) (s : list Z) : Prop :=
  bytes m p (s ++ [0]) /\ Forall (fun b => 0 < b < 256) s.

(** The bytes of a 32-bit value in memory. *)
Definition le_bytes (x : Z) : list Z :=
  [byte_of 0 x; byte_of 1 x; byte_of 2 x; byte_of 3 x].

Fixpoint store_bytes (p : Z) (l : list Z) (m : mem) : mem :=
  match l with
  | [] => m
  | b :: l' => store_bytes (p + 1) l' (<[p := b]> m)
  end.

(** The machine invariant. *)
Definition ok_cell (m : mem) (a b : Z) : Prop :=
  0 <= b < 256 /\ 0 < a < 1073741824 /\
  Forall (fun k => is_Some (m !! (a - a mod 4 + k))) [0; 1; 2; 3].
Definition mem_ok (m : mem) : Prop := map_Forall (ok_cell m) m.

#[export] Instance ok_cell_dec m a b : Decision (ok_cell m a b).
Proof. unfold ok_cell. apply _. Defined.
#[export] Instance mem_ok_dec m : Decision (mem_ok m).
Proof. unfold mem_ok. apply _. Defined.

(** Two ranges do not overlap. *)
Definition disjoint_ranges (p n q k : Z) : Prop := p + n <= q \/ q + k <= p.

Section facts.
Implicit Types (m : mem) (p q : Z) (l : list Z).

Lemma bytes_app m p l1 l2 :
  bytes m p (l1 ++ l2) <-> bytes m p l1 /\ bytes m (p + zlen l1) l2.
Proof.
  revert p. induction l1 as [|b l1 IH]; intros p; simpl.
  - replace (p + Z.of_nat 0) with p by lia. tauto.
  - rewrite IH. replace (p + Z.of_nat (S (length l1))) with (p + 1 + zlen l1)
      by lia. tauto.
Qed.

Lemma bytes_lookup m p l i b :
  bytes m p l -> l !! i = Some b -> m !! (p + Z.of_nat i) = Some b.
Proof.
  revert p i. induction l as [|c l IH]; intros p i Hb Hi; [done|].
  destruct Hb as [Hc Hb]. destruct i as [|i]; simplify_eq/=.
  - by rewrite Z.add_0_r.
  - replace (p + Z.of_nat (S i)) with (p + 1 + Z.of_nat i) by lia. eauto.
Qed.

Lemma bytes_lookup_iff m p l :
  bytes m p l <->
  forall i b, l !! i = Some b -> m !! (p + Z.of_nat i) = Some b.
Proof.
  split; [by eauto using bytes_lookup|].
  revert p. induction l as [|c l IH]; intros p H; [done|]. split.
  - specialize (H 0%nat c eq_refl). by rewrite Z.add_0_r in H.
  - apply IH. intros i b Hi. specialize (H (S i) b Hi).
    by replace (p + Z.of_nat (S i)) with (p + 1 + Z.of_nat i) in H by lia.
Qed.

Lemma bytes_mapped m p l : bytes m p l -> mapped m p (zlen l).
Proof.
  intros H a Ha.
  destruct (lookup_lt_is_Some_2 l (Z.to_nat (a - p))) as [b Hb]; [lia|].
  apply (bytes_lookup _ _ _ _ _ H) in Hb. exists b. rewrite <-Hb. f_equal. lia.
Qed.

Lemma bytes_eq m p l1 l2 :
  bytes m p l1 -> bytes m p l2 -> length l1 = length l2 -> l1 = l2.
Proof.
  revert p l2. induction l1 as [|a l1 IH]; intros p [|b l2] H1 H2 Hl;
    simplify_eq/=; [done|].
  destruct H1 as [Ha H1], H2 as [Hb H2]. f_equal; [congruence|eauto].
Qed.

Lemma mapped_bytes m p n :
  0 <= n -> mapped m p n -> exists l, zlen l = n /\ bytes m p l.
Proof.
  intros Hn. rewrite <-(Z2Nat.id n) by done. clear Hn.
  generalize (Z.to_nat n) as k. clear n. intros k.
  revert p. induction k as [|k IH]; intros p H; [by exists []|].
  destruct (H p) as [b Hb]; [lia|].
  destruct (IH (p + 1)) as (l & Hl & Hb').
  { intros a Ha. apply H. lia. }
  exists (b :: l). split; [simpl; lia|done].
Qed.

Lemma mapped_sub m p n q k :
  mapped m p n -> p <= q -> q + k <= p + n -> mapped m q k.
Proof. intros H ?? a ?. apply H. lia. Qed.

(** *** Updates *)

Lemma lookup_store_out m p l a :
  a < p \/ p + zlen l <= a -> store_bytes p l m !! a = m !! a.
Proof.
  revert m p. induction l as [|b l IH]; intros m p H; simpl in *; [done|].
  rewrite IH by lia. apply lookup_insert_ne. lia.
Qed.

Lemma bytes_store_same m p l : bytes (store_bytes p l m) p l.
Proof.
  revert m p. induction l as [|b l IH]; intros m p; simpl; [done|].
  split; [|apply IH]. rewrite lookup_store_out by lia. apply lookup_insert_eq.
Qed.

Lemma bytes_frame m m' p l :
  bytes m p l ->
  (forall a, p <= a < p + zlen l -> m' !! a = m !! a) -> bytes m' p l.
Proof.
  rewrite !bytes_lookup_iff. intros H Hm i b Hi.
  rewrite Hm; [by apply H|]. apply lookup_lt_Some in Hi. lia.
Qed.

Lemma bytes_store_out m p l q l' :
  bytes m q l' -> disjoint_ranges p (zlen l) q (zlen l') ->
  bytes (store_bytes p l m) q l'.
Proof.
  intros Hb Hd. eapply bytes_frame; [exact Hb|]. intros a Ha.
  apply lookup_store_out. unfold disjoint_ranges in Hd. lia.
Qed.

Lemma bytes_insert_out m a b q l :
  bytes m q l -> a < q \/ q + zlen l <= a -> bytes (<[a := b]> m) q l.
Proof.
  intros Hb Ha. eapply bytes_frame; [exact Hb|]. intros c Hc.
  apply lookup_insert_ne. lia.
Qed.

Lemma insert_is_Some m a b c :
  is_Some (m !! c) -> is_Some (<[a := b]> m !! c).
Proof. intros. apply lookup_insert_is_Some'. auto. Qed.

Lemma mapped_insert m a b p n : mapped m p n -> mapped (<[a := b]> m) p n.
Proof. intros H c Hc. apply lookup_insert_is_Some'. eauto. Qed.

Lemma mapped_store m q l p n : mapped m p n -> mapped (store_bytes q l m) p n.
Proof.
  revert m q. induction l as [|b l IH]; intros m q H; simpl; [done|].
  by apply IH, mapped_insert.
Qed.

Lemma store_bytes_app p l1 l2 m :
  store_bytes p (l1 ++ l2) m =
  store_bytes (p + zlen l1) l2 (store_bytes p l1 m).
Proof.
  revert m p. induction l1 as [|b l1 IH]; intros m p; simpl.
  - f_equal. lia.
  - rewrite IH. f_equal. lia.
Qed.

Lemma store_bytes_snoc p l b m :
  store_bytes p (l ++ [b]) m = <[p + zlen l := b]> (store_bytes p l m).
Proof. by rewrite store_bytes_app. Qed.

Lemma insert_store_comm a b p l m :
  a < p \/ p + zlen l <= a ->
  <[a := b]> (store_bytes p l m) = store_bytes p l (<[a := b]> m).
Proof.
  revert m p. induction l as [|c l IH]; intros m p H; simpl in *; [done|].
  rewrite IH by lia. f_equal. apply insert_insert_ne. lia.
Qed.

(** Storing what is there changes nothing. *)
Lemma store_bytes_id p l m : bytes m p l -> store_bytes p l m = m.
Proof.
  revert m p. induction l as [|b l IH]; intros m p; simpl; [done|].
  intros [Hb Hl]. by rewrite insert_id, IH.
Qed.

Lemma lookup_store_in m p l i b :
  l !! i = Some b -> store_bytes p l m !! (p + Z.of_nat i) = Some b.
Proof. apply bytes_lookup, bytes_store_same. Qed.

(** Writes to disjoint ranges commute. *)
Lemma store_bytes_comm p1 l1 p2 l2 m :
  disjoint_ranges p1 (zlen l1) p2 (zlen l2) ->
  store_bytes p1 l1 (store_bytes p2 l2 m) = store_bytes p2 l2 (store_bytes p1 l1 m).
Proof.
  unfold disjoint_ranges. revert p1 m. induction l1 as [|b l1 IH]; intros p1 m Hd; [done|].
  cbn [store_bytes length] in *. rewrite insert_store_comm by lia. apply IH. lia.
Qed.

(** Two arrays written at the same place: the second wins. *)
Lemma store_bytes_over p l1 l2 m :
  length l1 = length l2 ->
  store_bytes p l2 (store_bytes p l1 m) = store_bytes p l2 m.
Proof.
  intros Hl. apply map_eq. intros a.
  destruct (decide (p <= a < p + zlen l2)) as [Hin|Hout].
  - destruct (lookup_lt_is_Some_2 l2 (Z.to_nat (a - p))) as [b Hb]; [lia|].
    replace a with (p + Z.of_nat (Z.to_nat (a - p))) by lia.
    by rewrite !(lookup_store_in _ _ _ _ _ Hb).
  - by rewrite !lookup_store_out by lia.
Qed.
End facts.

(** ** The machine invariant *)

Section invariant.
Implicit Types (m : mem) (p q : Z) (l : list Z).

Lemma mem_ok_cell m a b :
  mem_ok m -> m !! a = Some b -> is_byte b /\ 0 < a < 1073741824.
Proof. intros H Ha. apply H in Ha as (?&?&_). done. Qed.

Lemma mem_ok_bytes m p l : mem_ok m -> bytes m p l -> Forall (fun b => is_byte b) l.
Proof.
  intros Hm. revert p. induction l as [|b l IH]; intros p; [constructor|].
  intros [Hb Hl]. constructor; [|eauto]. by eapply mem_ok_cell.
Qed.

Lemma mem_ok_range m p l :
  mem_ok m -> bytes m p l -> l <> [] -> 0 < p /\ p + zlen l <= 1073741824.
Proof.
  intros Hm Hl Hne. pose proof (bytes_mapped _ _ _ Hl) as Hmap.
  assert (0 < zlen l) by (destruct l; [done|simpl; lia]).
  destruct (Hmap p) as [b Hb]; [lia|].
  destruct (Hmap (p + zlen l - 1)) as [b' Hb']; [lia|].
  apply (mem_ok_cell _ _ _ Hm) in Hb, Hb'. lia.
Qed.

(** An aligned word with one mapped byte can be read whole. *)
Lemma mem_ok_word m p q :
  mem_ok m -> p mod 4 = 0 -> p <= q < p + 4 -> is_Some (m !! q) ->
  exists a b c d, bytes m p [a; b; c; d] /\
    is_byte a /\ is_byte b /\ is_byte c /\ is_byte d.
Proof.
  intros Hm Hp Hq [x Hx]. pose proof (Hm _ _ Hx) as (_ & _ & Hw).
  replace (q - q mod 4) with p in Hw by lia.
  rewrite !Forall_cons in Hw. destruct Hw as ([a Ha] & [b Hb] & [c Hc] & [d Hd] & _).
  rewrite Z.add_0_r in Ha. exists a, b, c, d.
  assert (bytes m p [a; b; c; d]) as Hl.
  { simpl. by rewrite <-!Z.add_assoc. }
  split; [done|]. apply mem_ok_bytes in Hl; [|done].
  by rewrite !Forall_cons in Hl; destruct_and!.
Qed.

Lemma mem_ok_insert m a b :
  mem_ok m -> is_Some (m !! a) -> is_byte b -> mem_ok (<[a := b]> m).
Proof.
  intros Hm [x Hx] Hb c y. destruct (decide (a = c)) as [->|Hne].
  - rewrite lookup_insert_eq. intros [= <-].
    destruct (Hm _ _ Hx) as (_ & ? & Hw). split_and!; [lia..|].
    eapply Forall_impl; [exact Hw|]. intros k Hk.
    apply lookup_insert_is_Some'. auto.
  - rewrite lookup_insert_ne by done. intros Hy.
    destruct (Hm _ _ Hy) as (? & ? & Hw). split_and!; [lia..|].
    eapply Forall_impl; [exact Hw|]. intros k Hk.
    apply lookup_insert_is_Some'. auto.
Qed.

Lemma mem_ok_store m p l :
  mem_ok m -> mapped m p (zlen l) -> Forall (fun b => is_byte b) l ->
  mem_ok (store_bytes p l m).
Proof.
  revert m p. induction l as [|b l IH]; intros m p Hm Hp Hl; simpl in *; [done|].
  apply Forall_cons in Hl as [Hb Hl]. apply IH; [|..|done].
  - apply mem_ok_insert; [done| |done]. apply Hp. lia.
  - apply mapped_insert. eapply mapped_sub; [done|lia..].
Qed.
End invariant.

(** ** C strings *)

Section cstr.
Implicit Types (m : mem) (p : Z) (s : list Z).

Lemma cstr_nil m p : cstr m p [] <-> m !! p = Some 0.
Proof. unfold cstr; simpl. rewrite Forall_nil. tauto. Qed.

Lemma cstr_cons m p b s :
  cstr m p (b :: s) <-> m !! p = Some b /\ 0 < b < 256 /\ cstr m (p + 1) s.
Proof. unfold cstr; simpl. rewrite Forall_cons. tauto. Qed.

Lemma cstr_app m p s1 s2 :
  cstr m p (s1 ++ s2) <->
  bytes m p s1 /\ Forall (fun b => 0 < b < 256) s1 /\ cstr m (p + zlen s1) s2.
Proof. unfold cstr. rewrite <-app_assoc, bytes_app, Forall_app. tauto. Qed.

Lemma cstr_drop m p s k :
  (k <= length s)%nat -> cstr m p s -> cstr m (p + Z.of_nat k) (drop k s).
Proof.
  intros Hk Hs. rewrite <-(take_drop k s), cstr_app in Hs.
  rewrite length_take_le in Hs by done. tauto.
Qed.

Lemma cstr_bytes m p s : cstr m p s -> bytes m p (s ++ [0]).
Proof. by intros []. Qed.

Lemma cstr_body m p s : cstr m p s -> bytes m p s.
Proof. intros [H _]. by apply bytes_app in H as [? _]. Qed.

Lemma cstr_nonnull m p s b : cstr m p s -> b ∈ s -> 0 < b < 256.
Proof. intros [_ H] Hb. rewrite Forall_forall in H. auto. Qed.

Lemma cstr_end m p s : cstr m p s -> m !! (p + zlen s) = Some 0.
Proof. intros [H _]. apply bytes_app in H as [_ [H _]]. done. Qed.

Lemma cstr_inj m p s1 s2 : cstr m p s1 -> cstr m p s2 -> s1 = s2.
Proof.
  revert p s2. induction s1 as [|b s1 IH]; intros p [|c s2];
    rewrite ?cstr_nil, ?cstr_cons; intros H1 H2; destruct_and?;
    [done|simplify_eq; lia..|].
  f_equal; [congruence|eauto].
Qed.

Lemma cstr_frame m m' p s :
  cstr m p s -> (forall a, p <= a <= p + zlen s -> m' !! a = m !! a) ->
  cstr m' p s.
Proof.
  intros [Hb Hs] Hm. split; [|done]. eapply bytes_frame; [exact Hb|].
  intros a Ha. apply Hm. rewrite length_app in Ha; simpl in Ha. lia.
Qed.

(** The word at an aligned pointer into a string: either it lies inside
    the string, or DETECTNULL finds the terminator. *)
Lemma cstr_word m p s :
  mem_ok m -> cstr m p s -> p mod 4 = 0 ->
  exists a b c d, bytes m p [a; b; c; d] /\
    is_byte a /\ is_byte b /\ is_byte c /\ is_byte d /\
    ((DETECTNULL (le32 a b c d) = 0 /\
      exists s', s = a :: b :: c :: d :: s' /\ cstr m (p + 4) s') \/
     (DETECTNULL (le32 a b c d) <> 0 /\ (length s < 4)%nat)).
Proof.
  intros Hm Hs Hp.
  destruct (mem_ok_word m p p) as (a & b & c & d & Hw & Ha & Hb & Hc & Hd);
    [done..|lia| |].
  { destruct s as [|x s]; [apply cstr_nil in Hs|apply cstr_cons in Hs as [Hs _]];
      by rewrite Hs. }
  exists a, b, c, d. do 5 (split; [done|]).
  destruct Hw as (Hpa & Hpb & Hpc & Hpd & _).
  destruct (decide (DETECTNULL (le32 a b c d) = 0)) as [E|E]; [left|right];
    (split; [exact E|]).
  - apply DETECTNULL_spec in E as (Na & Nb & Nc & Nd); [|done..].
    do 4 (destruct s as [|? s];
      [apply cstr_nil in Hs; simplify_eq; lia
      |apply cstr_cons in Hs as (? & _ & Hs); simplify_eq]).
    exists s. split; [done|]. by replace (p + 4) with (p + 1 + 1 + 1 + 1) by lia.
  - rewrite DETECTNULL_spec in E by done.
    do 4 (destruct s as [|? s]; [simpl; lia|];
      apply cstr_cons in Hs as (? & ? & Hs)). simplify_eq. exfalso. lia.
Qed.
End cstr.

(** ** Weakest preconditions of the accesses *)

Section wp_mem.
Implicit Types (n : nat) (w : world).

Lemma wp_load8 n p b w (Q : Z -> world -> Prop) :
  w_mem w !! p = Some b -> Q b w -> wp n (load8 p) w Q.
Proof. intros Hb HQ. apply wp_bind, wp_get_mem. rewrite Hb. by apply wp_ret. Qed.

Lemma wp_load8s n p b w (Q : Z -> world -> Prop) :
  w_mem w !! p = Some b -> Q (s8 b) w -> wp n (load8s p) w Q.
Proof.
  intros Hb HQ. eapply wp_bind, wp_load8; [exact Hb|]. by apply wp_ret.
Qed.

Lemma wp_store8 n p c w (Q : unit -> world -> Prop) :
  is_Some (w_mem w !! p) -> Q tt (set_mem (<[p := u8 c]> (w_mem w)) w) ->
  wp n (store8 p c) w Q.
Proof.
  intros [b Hb] HQ. apply wp_bind, wp_get_mem. rewrite Hb. by apply wp_put_mem.
Qed.

Lemma wp_load32 n p a b c d w (Q : Z -> world -> Prop) :
  bytes (w_mem w) p [a; b; c; d] -> Q (le32 a b c d) w -> wp n (load32 p) w Q.
Proof.
  intros (Ha & Hb & Hc & Hd & _) HQ.
  replace (p + 1 + 1) with (p + 2) in * by lia.
  replace (p + 2 + 1) with (p + 3) in * by lia.
  eapply wp_bind, wp_load8; [exact Ha|]. eapply wp_bind, wp_load8; [exact Hb|].
  eapply wp_bind, wp_load8; [exact Hc|]. eapply wp_bind, wp_load8; [exact Hd|].
  by apply wp_ret.
Qed.

Lemma wp_store32 n p a b c d w (Q : unit -> world -> Prop) :
  mapped (w_mem w) p 4 ->
  is_byte a -> is_byte b -> is_byte c -> is_byte d ->
  Q tt (set_mem (store_bytes p [a; b; c; d] (w_mem w)) w) ->
  wp n (store32 p (le32 a b c d)) w Q.
Proof.
  intros Hm Ha Hb Hc Hd HQ.
  destruct (byte_of_le32 a b c d) as (Ea & Eb & Ec & Ed); [done..|].
  unfold store32. rewrite Ea, Eb, Ec, Ed.
  simpl in HQ. replace (p + 1 + 1) with (p + 2) in * by lia.
  replace (p + 2 + 1) with (p + 3) in * by lia.
  do 3 (apply wp_bind, wp_store8;
    [simpl; repeat apply insert_is_Some; apply Hm; lia|];
    rewrite u8_small by done).
  apply wp_store8; [simpl; repeat apply insert_is_Some; apply Hm; lia|].
  rewrite u8_small by done. exact HQ.
Qed.

(** Any 32-bit value. *)
Lemma wp_store32_le n p x w (Q : unit -> world -> Prop) :
  mapped (w_mem w) p 4 -> 0 <= x < 4294967296 ->
  Q tt (set_mem (store_bytes p (le_bytes x) (w_mem w)) w) ->
  wp n (store32 p x) w Q.
Proof.
  intros Hm Hx HQ. rewrite <-(le32_byte_of x Hx).
  apply wp_store32; [done|apply byte_of_range..|done].
Qed.

(** A pointer stored as four bytes reads back. *)
Lemma wp_load32_le n p x w (Q : Z -> world -> Prop) :
  bytes (w_mem w) p (le_bytes x) -> 0 <= x < 4294967296 -> Q x w ->
  wp n (load32 p) w Q.
Proof.
  intros Hb Hx HQ. eapply wp_load32; [exact Hb|]. by rewrite le32_byte_of.
Qed.
End wp_mem.

(** Symbolic execution of accesses whose cell is in the context. *)
Ltac wp_mem :=
  cbn beta iota zeta delta [negb andb orb]; repeat first
  [ wp_step
  | lazymatch goal with
    | |- wp _ (load8 _) _ _ => eapply wp_load8; [eassumption|]
    | |- wp _ (load8s _) _ _ => eapply wp_load8s; [eassumption|]
    | |- wp _ (load32 _) _ _ => eapply wp_load32; [eassumption|]
    end; cbn beta iota zeta delta [negb andb orb] ].
