(* ===== verification/StrScan.v ===== *)
(** * Scanning functions of string/: length, search and comparison

    The read-only functions of the string directory.  Each definition follows
    the source function in both its configurations: the build class carries
    the preprocessor condition
    [defined(PREFER_SIZE_OVER_SPEED) || defined(__OPTIMIZE_SIZE__)]. *)

From S2P Require Import Prelude CMonad Words Memory.

Class build := { PREFER_SIZE_OVER_SPEED : bool }.

Section code.
Context `{build}.

(** string/strlen.c *)
Definition strlen (str : Z) : C Z :=
  let start := str in
  str ⇐ (if PREFER_SIZE_OVER_SPEED then fall str else
    str ⟸ loop (fun str =>
        if UNALIGNED str then
          c ← load8s str;
          if c =? 0 then brk (Return (u32 (str - start))) else next (str + 1)
        else brk (Fall str)) str;
    aligned_addr ← loop (fun aligned_addr =>
        x ← load32 aligned_addr;
        if DETECTNULL x =? 0 then next (aligned_addr + 4)
        else brk aligned_addr) str;
    fall aligned_addr);
  str ← loop (fun str =>
    c ← load8s str; if c =? 0 then brk str else next (str + 1)) str;
  mret (u32 (str - start)).

(** string/strnlen.c *)
Definition strnlen (str n : Z) : C Z :=
  let start := str in
  str ← loop (fun '(str, n) =>
    let n' := u32 (n - 1) in
    if 0 <? n then
      c ← load8s str; if c =? 0 then brk str else next (str + 1, n')
    else brk str) (str, n);
  mret (u32 (str - start)).

(** string/strchr.c *)
Definition strchr (s1 i : Z) : C Z :=
  let s := s1 in
  let c := u8 i in
  s ⇐ (if PREFER_SIZE_OVER_SPEED then fall s else
    if c =? 0 then
      s ⟸ loop (fun s =>
        if UNALIGNED s then
          x ← load8 s;
          if x =? 0 then brk (Return s) else next (s + 1)
        else brk (Fall s)) s;
      aligned_addr ← loop (fun aligned_addr =>
        x ← load32 aligned_addr;
        if DETECTNULL x =? 0 then next (aligned_addr + 4)
        else brk aligned_addr) s;
      s ← loop (fun s =>
        x ← load8 s; if x =? 0 then brk s else next (s + 1)) aligned_addr;
      return_ s
    else
      s ⟸ loop (fun s =>
        if UNALIGNED s then
          x ← load8 s;
          if x =? 0 then brk (Return 0) else
          if x =? c then brk (Return s) else next (s + 1)
        else brk (Fall s)) s;
      mask ← loop (fun '(mask, j) =>
        if j <? 4 * 8 then
          next (Z.lor (u32 (Z.shiftl mask j)) mask, u32 (Z.shiftl j 1))
        else brk mask) (c, 8);
      aligned_addr ← loop (fun aligned_addr =>
        x ← load32 aligned_addr;
        if (DETECTNULL x =? 0) && (DETECTCHAR x mask =? 0)
        then next (aligned_addr + 4)
        else brk aligned_addr) s;
      fall aligned_addr);
  s ← loop (fun s =>
    x ← load8 s;
    if negb (x =? 0) && negb (x =? c) then next (s + 1) else brk s) s;
  x ← load8 s;
  if x =? c then mret s else mret 0.

(** string/strrchr.c *)
Definition strrchr (s i : Z) : C Z :=
  let last := 0 in
  if negb (i =? 0) then
    loop (fun '(s, last) =>
      s ← strchr s i;
      if s =? 0 then brk last else next (s + 1, s)) (s, last)
  else strchr s i.

(** string/index.c, string/rindex.c *)
Definition index (s c : Z) : C Z := strchr s c.
Definition rindex (s c : Z) : C Z := strrchr s c.

(** string/memchr.c *)
Definition memchr (src_void c length : Z) : C Z :=
  let src := src_void in
  let d := u8 c in
  '(src, length) ⇐ (if PREFER_SIZE_OVER_SPEED then fall (src, length) else
    '(src, length) ⟸ loop (fun '(src, length) =>
      if UNALIGNED src then
        let length' := u32 (length - 1) in
        if length =? 0 then brk (Return 0) else
        x ← load8 src;
        if x =? d then brk (Return src) else next (src + 1, length')
      else brk (Fall (src, length))) (src, length);
    if length <? 4 then fall (src, length) else
    let mask := Z.lor (Z.shiftl d 8) d in
    let mask := Z.lor (u32 (Z.shiftl mask 16)) mask in
    mask ← loop (fun '(mask, i) =>
      if i <? 4 * 8 then
        next (Z.lor (u32 (Z.shiftl mask i)) mask, i32 (Z.shiftl i 1))
      else brk mask) (mask, 32);
    '(asrc, length) ← loop (fun '(asrc, length) =>
      if 4 <=? length then
        x ← load32 asrc;
        if negb (DETECTCHAR x mask =? 0) then brk (asrc, length) else
        next (asrc + 4, u32 (length - 4))
      else brk (asrc, length)) (src, length);
    fall (asrc, length));
  loop (fun '(src, length) =>
    let length' := u32 (length - 1) in
    if length =? 0 then brk 0 else
    x ← load8 src;
    if x =? d then brk src else next (src + 1, length')) (src, length).

(** The inner loop of strspn.c, strcspn.c and strpbrk.c:
    [for (c = s2; *c; c++) if ( *s1 == *c) break;] *)
Definition scan_set (s1 s2 : Z) : C Z :=
  loop (fun c =>
    y ← load8s c;
    if y =? 0 then brk c else
    x ← load8s s1;
    if x =? y then brk c else next (c + 1)) s2.

(** string/strspn.c *)
Definition strspn (s1 s2 : Z) : C Z :=
  let s := s1 in
  s1 ← loop (fun s1 =>
    x ← load8s s1;
    if x =? 0 then brk s1 else
    c ← scan_set s1 s2;
    y ← load8s c;
    if y =? 0 then brk s1 else next (s1 + 1)) s1;
  mret (u32 (s1 - s)).

(** string/strcspn.c *)
Definition strcspn (s1 s2 : Z) : C Z :=
  let s := s1 in
  s1 ← loop (fun s1 =>
    x ← load8s s1;
    if x =? 0 then brk s1 else
    c ← scan_set s1 s2;
    y ← load8s c;
    if negb (y =? 0) then brk s1 else next (s1 + 1)) s1;
  mret (u32 (s1 - s)).

(** string/strpbrk.c *)
Definition strpbrk (s1 s2 : Z) : C Z :=
  let c := s2 in
  x ← load8s s1;
  if x =? 0 then mret 0 else
  '(s1, c) ← loop (fun '(s1, c) =>
    x ← load8s s1;
    if x =? 0 then brk (s1, c) else
    c ← scan_set s1 s2;
    y ← load8s c;
    if negb (y =? 0) then brk (s1, c) else next (s1 + 1, c)) (s1, c);
  y ← load8s c;
  mret (if y =? 0 then 0 else s1).
End code.

(** ** Specifications *)

(** Index of the first element satisfying a test. *)
Fixpoint find_idx (P : Z -> bool) (l : list Z) : option nat :=
  match l with
  | [] => None
  | b :: l' => if P b then Some O else S <$> find_idx P l'
  end.

(** Length of the longest prefix satisfying a test. *)
Fixpoint span_len (P : Z -> bool) (l : list Z) : nat :=
  match l with
  | [] => O
  | b :: l' => if P b then S (span_len P l') else O
  end.

(** The pointer a search returns: to the element found, or null. *)
Definition find_ptr (p : Z) (P : Z -> bool) (l : list Z) : Z :=
  match find_idx P l with Some k => p + Z.of_nat k | None => 0 end.

Lemma find_ptr_hit p P b l : P b = true -> find_ptr p P (b :: l) = p.
Proof. intros Hb. unfold find_ptr; simpl. rewrite Hb. lia. Qed.

Lemma find_ptr_miss p P b l :
  P b = false -> find_ptr p P (b :: l) = find_ptr (p + 1) P l.
Proof.
  intros Hb. unfold find_ptr; simpl. rewrite Hb.
  destruct (find_idx P l); simpl; lia.
Qed.

Lemma find_idx_Some P l k :
  find_idx P l = Some k <->
  (exists b, l !! k = Some b /\ P b = true) /\
  (forall j b, (j < k)%nat -> l !! j = Some b -> P b = false).
Proof.
  revert k. induction l as [|b l IH]; intros k; simpl.
  { split; [done|]. by intros [(? & ? & _) _]. }
  destruct (P b) eqn:Pb.
  - split.
    + intros [= <-]. split; [by exists b|]. intros; lia.
    + intros [_ H]. destruct k as [|k]; [done|].
      specialize (H O b ltac:(lia) eq_refl). congruence.
  - destruct k as [|k].
    + split; [by destruct (find_idx P l)|]. intros [(? & [= <-] & ?) _]. congruence.
    + transitivity (find_idx P l = Some k); [destruct (find_idx P l); naive_solver|].
      rewrite IH. simpl. split; intros [H1 H2]; (split; [done|]).
      * intros [|j] c Hj; simpl; [naive_solver|]. apply H2. lia.
      * intros j c Hj. apply (H2 (S j)). lia.
Qed.

Lemma find_idx_None P l : find_idx P l = None <-> Forall (fun b => P b = false) l.
Proof.
  induction l as [|b l IH]; simpl; [by split|]. rewrite Forall_cons, <-IH.
  destruct (P b), (find_idx P l); naive_solver.
Qed.

(** ** Scanning loops *)

(** [rest w p s p' s']: the string [s'] at [p'] is what remains of [s] at [p]. *)
Definition rest (w : world) (p : Z) (s : list Z) (p' : Z) (s' : list Z) : Prop :=
  cstr (w_mem w) p' s' /\ (length s' <= length s)%nat /\ p' + zlen s' = p + zlen s.

Lemma rest_refl w p s : cstr (w_mem w) p s -> rest w p s p s.
Proof. intros. by split_and!. Qed.
Lemma rest_cons w p b s p' s' :
  rest w (p + 1) s p' s' -> rest w p (b :: s) p' s'.
Proof. intros (? & ? & ?). split_and!; [done|simpl; lia..]. Qed.
Lemma rest_word w p a b c d s p' s' :
  rest w (p + 4) s p' s' -> rest w p (a :: b :: c :: d :: s) p' s'.
Proof. intros (? & ? & ?). split_and!; [done|simpl; lia..]. Qed.
Lemma rest_trans w p s p1 s1 p2 s2 :
  rest w p s p1 s1 -> rest w p1 s1 p2 s2 -> rest w p s p2 s2.
Proof. intros (_ & ? & ?) (? & ? & ?). split_and!; [done|lia..]. Qed.
Lemma rest_length w p s p' s' k :
  rest w p s p' s' -> (length s < k)%nat -> (length s' < k)%nat.
Proof. intros (_ & ? & _) ?. lia. Qed.
Lemma rest_cstr w p s p' s' : rest w p s p' s' -> cstr (w_mem w) p' s'.
Proof. by intros []. Qed.
Create HintDb crest.
#[local] Hint Resolve rest_refl rest_cons rest_word rest_trans rest_length rest_cstr : crest.

(** The two ways to read a character, for a test against null. *)
Definition reads_char (ld : Z -> C Z) : Prop :=
  forall n p b w (Q : Z -> world -> Prop),
  w_mem w !! p = Some b -> is_byte b ->
  (forall v, (v =? 0) = (b =? 0) -> Q v w) -> wp n (ld p) w Q.

Lemma load8_reads_char : reads_char load8.
Proof. intros n p b w Q Hb Hr HQ. eapply wp_load8; eauto. Qed.
Lemma load8s_reads_char : reads_char load8s.
Proof. intros n p b w Q Hb Hr HQ. eapply wp_load8s; [done|]. by apply HQ, s8_eqb0. Qed.

Section scan.
Implicit Types (n k : nat) (w : world) (p : Z) (s : list Z).

Lemma wp_scan_null ld n k p s w (Q : Z -> world -> Prop) :
  reads_char ld ->
  cstr (w_mem w) p s -> (length s < k)%nat -> Q (p + zlen s) w ->
  wp n (loop_k k (fun str =>
    c ← ld str; if c =? 0 then brk str else next (str + 1)) p) w Q.
Proof.
  intros Hld. revert k p.
  induction s as [|b s IH]; intros [|k] p Hs Hk HQ; simpl in *; try lia.
  - apply cstr_nil in Hs. wp_loop. wp_step. eapply Hld; [done|lia|].
    intros v ->. wp_if. wp_steps. eqapply HQ. lia.
  - apply cstr_cons in Hs as (Hb & Hr & Hs). wp_loop. wp_step.
    eapply Hld; [done|lia|]. intros v ->. wp_if. wp_steps. apply IH; [done|lia|].
    eqapply HQ. lia.
Qed.

(** Byte steps up to alignment. *)
Lemma wp_scan_align {R} ld n k (f : Z -> R) p s w (Q : flow Z R -> world -> Prop) :
  reads_char ld ->
  cstr (w_mem w) p s -> (length s < k)%nat ->
  Q (Return (f (p + zlen s))) w ->
  (forall p' s', rest w p s p' s' -> p' mod 4 = 0 -> Q (Fall p') w) ->
  wp n (loop_k k (fun str =>
    if UNALIGNED str then
      c ← ld str;
      if c =? 0 then brk (Return (f str)) else next (str + 1)
    else brk (Fall str)) p) w Q.
Proof.
  intros Hld. revert k p.
  induction s as [|b s IH]; intros [|k] p Hs Hk HR HF; simpl in *; try lia;
    wp_loop; rewrite UNALIGNED_spec; destruct (Z.eqb_spec (p mod 4) 0); simpl.
  1, 3: wp_steps; eapply HF; [by apply rest_refl|done].
  - apply cstr_nil in Hs. wp_step. eapply Hld; [done|lia|].
    intros v ->. wp_if. wp_steps. eqapply HR. do 2 f_equal. lia.
  - apply cstr_cons in Hs as (Hb & Hr & Hs). wp_step. eapply Hld; [done|lia|].
    intros v ->. wp_if. wp_steps. apply IH; [done|lia|..].
    + eqapply HR. do 2 f_equal. lia.
    + intros p' s' ? ?. eapply HF; [by apply rest_cons|done].
Qed.

(** Word steps while DETECTNULL finds nothing. *)
Lemma wp_scan_word n k p s w (Q : Z -> world -> Prop) :
  mem_ok (w_mem w) -> cstr (w_mem w) p s -> p mod 4 = 0 -> (length s < k)%nat ->
  (forall p' s', rest w p s p' s' -> Q p' w) ->
  wp n (loop_k k (fun aligned_addr =>
    x ← load32 aligned_addr;
    if DETECTNULL x =? 0 then next (aligned_addr + 4)
    else brk aligned_addr) p) w Q.
Proof.
  intros Hm. revert p s. induction k as [|k IH]; intros p s Hs Hp Hk HQ; [lia|].
  destruct (cstr_word _ _ _ Hm Hs Hp) as (a & b & c & d & Hw & Ha & Hb & Hc & Hd & Hcase).
  wp_loop. wp_mem. destruct Hcase as [[-> (s' & -> & Hs')]|[E Hlen]].
  - wp_if. wp_steps. eapply IH; [done|lia|simpl in Hk; lia|].
    intros p' s'' H. by eapply HQ, rest_word.
  - wp_if. wp_steps. by eapply HQ, rest_refl.
Qed.
End scan.

(** ** strlen *)

Section correctness.
Context {cfg : build}.
Implicit Types (n k : nat) (w : world) (p : Z) (s : list Z).

Lemma strlen_u32 m p s :
  mem_ok m -> cstr m p s -> u32 (p + zlen s - p) = zlen s.
Proof.
  intros Hm Hs. apply cstr_bytes, mem_ok_range in Hs; [|done|by destruct s].
  rewrite length_app in Hs; simpl in Hs. rewrite u32_small; lia.
Qed.

Lemma wp_strlen n p s w (Q : Z -> world -> Prop) :
  mem_ok (w_mem w) -> cstr (w_mem w) p s -> (length s < n)%nat ->
  Q (zlen s) w -> wp n (strlen p) w Q.
Proof.
  intros Hm Hs Hn HQ. unfold strlen.
  assert (Hlast : forall p' s', rest w p s p' s' ->
    wp n (loop (fun str =>
      c ← load8s str; if c =? 0 then brk str else next (str + 1)) p') w
      (fun str w' => wp n (mret (u32 (str - p))) w' Q)).
  { intros p' s' (Hs' & Hl & E). apply wp_loop_k.
    eapply wp_scan_null; [apply load8s_reads_char|done|lia|]. wp_steps. rewrite E.
    by rewrite (strlen_u32 _ _ _ Hm Hs). }
  wp_steps. destruct PREFER_SIZE_OVER_SPEED.
  - wp_steps. by eapply Hlast, rest_refl.
  - wp_steps. apply wp_loop_k, (wp_scan_align _ _ _ (fun q => u32 (q - p)) _ s);
      [apply load8s_reads_char|done..| |].
    + by rewrite (strlen_u32 _ _ _ Hm Hs).
    + intros p1 s1 H1 Hp1. wp_steps. apply wp_loop_k.
      eapply wp_scan_word; [done|by eapply rest_cstr|done|by eapply rest_length|].
      intros p2 s2 H2. wp_steps. eapply Hlast. by eapply rest_trans.
Qed.

(** ** strnlen *)

Abbreviation nonnull := (fun b : Z => negb (b =? 0)).

Lemma wp_strnlen_loop n k p l len w (Q : Z -> world -> Prop) :
  mem_ok (w_mem w) -> bytes (w_mem w) p l -> 0 <= len < 4294967296 ->
  len <= zlen l \/ 0 ∈ l -> (length l < k)%nat ->
  Q (p + Z.min len (Z.of_nat (span_len nonnull l))) w ->
  wp n (loop_k k (fun '(str, n) =>
    let n' := u32 (n - 1) in
    if 0 <? n then
      c ← load8s str; if c =? 0 then brk str else next (str + 1, n')
    else brk str) (p, len)) w Q.
Proof.
  intros Hm. revert k p len.
  induction l as [|b l IH]; intros [|k] p len Hl Hlen Hcase Hk HQ;
    simpl in Hk; try lia; wp_loop; wp_if.
  - exfalso. destruct Hcase as [?|Hin]; [simpl in *; lia|by apply not_elem_of_nil in Hin].
  - wp_steps. eqapply HQ. simpl; lia.
  - destruct Hl as [Hb Hl]. wp_mem.
    assert (is_byte b) by (eapply mem_ok_cell; eauto).
    rewrite s8_eqb0 by done. simpl in HQ. wp_if; wp_steps.
    + eqapply HQ. simpl; lia.
    + rewrite u32_small by lia. apply IH; [done|lia| |lia|].
      * destruct Hcase as [?|Hin]; [left; simpl in *; lia|right].
        apply elem_of_cons in Hin as [?|?]; [lia|done].
      * eqapply HQ. simpl; lia.
  - wp_steps. eqapply HQ. lia.
Qed.

Lemma wp_strnlen n p l len w (Q : Z -> world -> Prop) :
  mem_ok (w_mem w) -> bytes (w_mem w) p l -> 0 <= len < 4294967296 ->
  len <= zlen l \/ 0 ∈ l -> (length l < n)%nat ->
  Q (Z.min len (Z.of_nat (span_len nonnull l))) w ->
  wp n (strnlen p len) w Q.
Proof.
  intros Hm Hl Hlen Hcase Hn HQ. unfold strnlen. wp_steps. apply wp_loop_k.
  eapply wp_strnlen_loop; [done..|]. wp_steps. eqapply HQ.
  rewrite u32_small; lia.
Qed.

(** ** strchr *)

Section search.
Context (c : Z) (Hc : is_byte c).
Abbreviation is_c := (fun b : Z => b =? c).

(** What the rest of a search must find. *)
Abbreviation same_find p s p' s' :=
  (find_ptr p' is_c (s' ++ [0]) = find_ptr p is_c (s ++ [0])).

(** Final byte loop. *)
Lemma wp_find_loop n k p s w (Q : Z -> world -> Prop) :
  cstr (w_mem w) p s -> (length s < k)%nat ->
  (forall q x, w_mem w !! q = Some x ->
     (if x =? c then q else 0) = find_ptr p is_c (s ++ [0]) -> Q q w) ->
  wp n (loop_k k (fun q =>
    x ← load8 q;
    if negb (x =? 0) && negb (x =? c) then next (q + 1) else brk q) p) w Q.
Proof.
  revert k p. induction s as [|b s IH]; intros [|k] p Hs Hk HQ; simpl in Hk; try lia.
  - apply cstr_nil in Hs. wp_loop. wp_mem. wp_if. wp_steps.
    eapply HQ; [done|]. unfold find_ptr; simpl. destruct (0 =? c); lia.
  - apply cstr_cons in Hs as (Hb & Hr & Hs). wp_loop. wp_mem. simpl in HQ.
    wp_if; wp_steps.
    + apply IH; [done|lia|]. intros q x Hq E'. eapply HQ; [done|].
      rewrite E'. symmetry. apply find_ptr_miss. lia.
    + eapply HQ; [done|]. replace (b =? c) with true by lia.
      symmetry. apply find_ptr_hit. lia.
Qed.

(** Byte steps up to alignment, for a non-null character. *)
Lemma wp_find_align n k p s w (Q : flow Z Z -> world -> Prop) :
  c <> 0 -> cstr (w_mem w) p s -> (length s < k)%nat ->
  Q (Return (find_ptr p is_c (s ++ [0]))) w ->
  (forall p' s', rest w p s p' s' -> p' mod 4 = 0 -> same_find p s p' s' ->
     Q (Fall p') w) ->
  wp n (loop_k k (fun q =>
    if UNALIGNED q then
      x ← load8 q;
      if x =? 0 then brk (Return 0) else
      if x =? c then brk (Return q) else next (q + 1)
    else brk (Fall q)) p) w Q.
Proof.
  intros Hc0. revert k p.
  induction s as [|b s IH]; intros [|k] p Hs Hk HR HF; simpl in Hk; try lia;
    wp_loop; rewrite UNALIGNED_spec; destruct (Z.eqb_spec (p mod 4) 0); simpl.
  1, 3: wp_steps; eapply HF; [by apply rest_refl|done..].
  - apply cstr_nil in Hs. wp_mem. wp_if. wp_steps. eqapply HR.
    unfold find_ptr; simpl. by replace (0 =? c) with false by lia.
  - apply cstr_cons in Hs as (Hb & Hr & Hs). wp_mem. wp_if. wp_if; wp_steps.
    + eqapply HR. f_equal. apply find_ptr_hit. lia.
    + assert (Hmiss : same_find p (b :: s) (p + 1) s).
      { symmetry. apply find_ptr_miss. lia. }
      apply IH; [done|lia|by rewrite Hmiss|].
      intros p' s' ?? E'. apply (HF p' s'); [by apply rest_cons|done|by rewrite E', Hmiss].
Qed.

(** Word steps while neither a null nor the character is detected. *)
Lemma wp_find_word n k p s w (Q : Z -> world -> Prop) :
  mem_ok (w_mem w) -> cstr (w_mem w) p s -> p mod 4 = 0 -> (length s < k)%nat ->
  (forall p' s', rest w p s p' s' -> same_find p s p' s' -> Q p' w) ->
  wp n (loop_k k (fun aligned_addr =>
    x ← load32 aligned_addr;
    if (DETECTNULL x =? 0) && (DETECTCHAR x (le32 c c c c) =? 0)
    then next (aligned_addr + 4)
    else brk aligned_addr) p) w Q.
Proof.
  intros Hm. revert p s. induction k as [|k IH]; intros p s Hs Hp Hk HQ; [lia|].
  destruct (cstr_word _ _ _ Hm Hs Hp) as (x & y & z & t & Hw & ? & ? & ? & ? & Hcase).
  wp_loop. wp_mem. destruct Hcase as [[-> (s' & -> & Hs')]|[E Hlen]].
  - destruct (decide (DETECTCHAR (le32 x y z t) (le32 c c c c) = 0)) as [E|E].
    + rewrite E. wp_if. wp_steps.
      apply DETECTCHAR_spec in E as (? & ? & ? & ?); [|done..].
      assert (Hmiss : same_find p (x :: y :: z :: t :: s') (p + 4) s').
      { simpl. rewrite !find_ptr_miss by lia. f_equal. lia. }
      eapply IH; [done|lia|simpl in Hk; lia|].
      intros p' s'' Hr E'. apply (HQ p' s''); [by apply rest_word|by rewrite E', Hmiss].
    + wp_if. wp_steps. eapply HQ; [by apply rest_refl|done].
  - wp_if. wp_steps. eapply HQ; [by apply rest_refl|done].
Qed.
End search.

(** The mask built by [for (j = 8; j < 32; j <<= 1) mask |= mask << j]. *)
Lemma wp_strchr_mask n c w (Q : Z -> world -> Prop) :
  is_byte c -> (3 < n)%nat -> Q (le32 c c c c) w ->
  wp n (loop (fun '(mask, j) =>
    if j <? 4 * 8 then
      next (Z.lor (u32 (Z.shiftl mask j)) mask, u32 (Z.shiftl j 1))
    else brk mask) (c, 8)) w Q.
Proof.
  intros Hc Hn HQ. apply wp_loop_k. destruct n as [|[|[|n]]]; [lia..|].
  assert (E := proj1 (mask_le32 c Hc)).
  wp_loop. wp_if. wp_steps. change (u32 (Z.shiftl 8 1)) with 16.
  wp_loop. wp_if. wp_steps. change (u32 (Z.shiftl 16 1)) with 32.
  wp_loop. wp_if. wp_steps. by rewrite E.
Qed.

Lemma find_ptr_null p s :
  Forall (fun b => 0 < b < 256) s -> find_ptr p (fun b => b =? 0) (s ++ [0]) = p + zlen s.
Proof.
  revert p. induction s as [|b s IH]; intros p Hs; simpl.
  - unfold find_ptr; simpl. done.
  - apply Forall_cons in Hs as [? Hs]. rewrite find_ptr_miss, IH by (done || lia). lia.
Qed.

Lemma wp_strchr n p s i w (Q : Z -> world -> Prop) :
  mem_ok (w_mem w) -> cstr (w_mem w) p s -> (length s + 4 < n)%nat ->
  Q (find_ptr p (fun b => b =? u8 i) (s ++ [0])) w ->
  wp n (strchr p i) w Q.
Proof.
  intros Hm Hs Hn HQ. unfold strchr.
  assert (Hc : is_byte (u8 i)) by apply u8_range.
  revert Hc HQ. generalize (u8 i) as c. intros c Hc HQ.
  assert (Hlast : forall p' s', rest w p s p' s' ->
    find_ptr p' (fun b => b =? c) (s' ++ [0]) =
      find_ptr p (fun b => b =? c) (s ++ [0]) ->
    wp n (loop (fun q => x ← load8 q;
      if negb (x =? 0) && negb (x =? c) then next (q + 1) else brk q) p') w
      (fun q w' => wp n (x ← load8 q; if x =? c then mret q else mret 0) w' Q)).
  { intros p' s' (Hs' & Hl & _) E. apply wp_loop_k.
    eapply wp_find_loop; [done..|lia|]. intros q x Hq Hx. wp_mem.
    rewrite E in Hx. rewrite <-Hx in HQ. destruct (x =? c); by wp_steps. }
  wp_steps. destruct PREFER_SIZE_OVER_SPEED.
  { wp_steps. eapply Hlast; [by apply rest_refl|done]. }
  wp_if.
  - assert (c = 0) as -> by lia. rewrite find_ptr_null in HQ by apply Hs.
    wp_steps. apply wp_loop_k, (wp_scan_align _ _ _ (fun q => q) _ s);
      [apply load8_reads_char|done|lia|by wp_steps|].
    intros p1 s1 H1 Hp1. wp_steps. apply wp_loop_k.
    eapply wp_scan_word;
      [done|by eapply rest_cstr|done|eapply rest_length; [done|lia]|].
    intros p2 s2 H2. assert (H3 := rest_trans _ _ _ _ _ _ _ H1 H2).
    wp_steps. apply wp_loop_k. eapply wp_scan_null;
      [apply load8_reads_char|by eapply rest_cstr|eapply rest_length; [done|lia]|].
    wp_steps. destruct H3 as (_ & _ & ->). exact HQ.
  - wp_steps. apply wp_loop_k.
    eapply (wp_find_align c Hc); [lia|done|lia|by wp_steps|].
    intros p1 s1 Hr1 Hp1 E1. wp_steps. apply wp_strchr_mask; [done|lia|].
    wp_steps. apply wp_loop_k. eapply (wp_find_word c Hc);
      [done|by eapply rest_cstr|done|eapply rest_length; [done|lia]|].
    intros p2 s2 Hr2 E2. wp_steps.
    eapply Hlast; [by eapply rest_trans|by rewrite E2, E1].
Qed.

(** ** strrchr *)

(** Pointer to the last element satisfying a test, or [last]. *)
Fixpoint rfind_ptr (last p : Z) (P : Z -> bool) (l : list Z) : Z :=
  match l with
  | [] => last
  | b :: l' => rfind_ptr (if P b then p else last) (p + 1) P l'
  end.

Lemma rfind_ptr_find last p P l :
  rfind_ptr last p P l =
  match find_idx P l with
  | Some k => rfind_ptr (p + Z.of_nat k) (p + Z.of_nat k + 1) P (drop (S k) l)
  | None => last
  end.
Proof.
  revert last p. induction l as [|b l IH]; intros last p; simpl; [done|].
  destruct (P b) eqn:Pb; simpl.
  - by replace (p + Z.of_nat 0) with p by lia.
  - rewrite IH. destruct (find_idx P l) as [k|]; simpl; [|done].
    by replace (p + Z.of_nat (S k)) with (p + 1 + Z.of_nat k) by lia.
Qed.

Lemma rfind_ptr_snoc last p P l b :
  rfind_ptr last p P (l ++ [b]) =
  if P b then p + zlen l else rfind_ptr last p P l.
Proof.
  revert last p. induction l as [|c l IH]; intros last p; simpl.
  - destruct (P b); [lia|done].
  - rewrite IH. destruct (P b); [lia|done].
Qed.

Lemma find_idx_app_l P l1 l2 k :
  find_idx P (l1 ++ l2) = Some k -> Forall (fun b => P b = false) l2 ->
  (k < length l1)%nat /\ find_idx P l1 = Some k.
Proof.
  intros Hk H2. assert (Hk' := Hk). apply find_idx_Some in Hk' as [(b & Hb & Pb) _].
  assert (Hlt : (k < length l1)%nat).
  { apply not_ge. intros Hge. rewrite lookup_app_r in Hb by lia.
    rewrite Forall_lookup in H2. apply H2 in Hb. congruence. }
  split; [done|]. rewrite find_idx_Some in Hk |- *.
  destruct Hk as [_ Hj]. split.
  - exists b. by rewrite lookup_app_l in Hb.
  - intros j c Hjk Hc. apply (Hj j c Hjk). by rewrite lookup_app_l by lia.
Qed.

Lemma wp_strrchr_loop n k p s c i last w (Q : Z -> world -> Prop) :
  mem_ok (w_mem w) -> cstr (w_mem w) p s -> c = u8 i -> c <> 0 ->
  (length s + 4 < n)%nat -> (length s < k)%nat ->
  Q (rfind_ptr last p (fun b => b =? c) s) w ->
  wp n (loop_k k (fun '(q, last) =>
    q ← strchr q i;
    if q =? 0 then brk last else next (q + 1, q)) (p, last)) w Q.
Proof.
  intros Hm Hs Hc Hc0 Hn. revert p s last Hs Hn.
  induction k as [|k IH]; intros p s last Hs Hn Hk HQ; [lia|].
  wp_loop. wp_step. eapply wp_strchr; [done..|]. rewrite <-Hc.
  rewrite rfind_ptr_find in HQ. unfold find_ptr.
  destruct (find_idx (fun b => b =? c) (s ++ [0])) as [j|] eqn:E.
  - apply find_idx_app_l in E as [Hj E]; [|by constructor; [cbn; lia|]].
    rewrite E in HQ.
    assert (0 < p).
    { eapply mem_ok_range; [exact Hm|by apply cstr_bytes|by destruct s]. }
    wp_if. wp_steps. apply (IH _ (drop (S j) s)); [|rewrite length_drop; lia..|exact HQ].
    replace (p + Z.of_nat j + 1) with (p + Z.of_nat (S j)) by lia.
    apply cstr_drop; [lia|done].
  - wp_if. wp_steps. apply find_idx_None in E. apply Forall_app in E as [E _].
    apply find_idx_None in E. by rewrite E in HQ.
Qed.

Lemma wp_strrchr n p s i w (Q : Z -> world -> Prop) :
  mem_ok (w_mem w) -> cstr (w_mem w) p s -> (length s + 4 < n)%nat ->
  i = 0 \/ u8 i <> 0 ->
  Q (rfind_ptr 0 p (fun b => b =? u8 i) (s ++ [0])) w ->
  wp n (strrchr p i) w Q.
Proof.
  intros Hm Hs Hn Hi HQ. unfold strrchr. wp_steps.
  rewrite rfind_ptr_snoc in HQ. wp_if.
  - apply wp_loop_k. eapply wp_strrchr_loop; [done..|lia|lia|lia|].
    by replace (0 =? u8 i) with false in HQ by lia.
  - assert (i = 0) as -> by lia. change (u8 0) with 0 in HQ.
    eapply wp_strchr; [done..|]. change (u8 0) with 0.
    rewrite find_ptr_null by apply Hs. exact HQ.
Qed.

(** ** memchr *)

(** The array is as long as the search, or holds the byte. *)
Definition reach (d : Z) (l : list Z) (len : Z) : Prop :=
  0 <= len < 4294967296 /\ (len = zlen l \/ (d ∈ l /\ zlen l <= len)).

Lemma reach_miss d b l len : b <> d -> reach d (b :: l) len -> reach d l (len - 1).
Proof.
  intros Hne [Hb [->|[Hd Hl]]]; simpl in *; (split; [lia|]).
  - left. lia.
  - right. apply elem_of_cons in Hd as [|Hd]; [congruence|]. split; [done|lia].
Qed.

Lemma reach_empty d l : reach d l 0 -> l = [].
Proof. destruct l; [done|]. simpl. intros [_ [H|[_ H]]]; simpl in H; lia. Qed.

Lemma reach_nil d len : reach d [] len -> len = 0.
Proof. intros [_ [?|[?%elem_of_nil _]]]; [simpl in *; lia|done]. Qed.

Lemma wp_memchr_loop n k d p l len w (Q : Z -> world -> Prop) :
  bytes (w_mem w) p l -> (length l < k)%nat -> reach d l len ->
  Q (find_ptr p (fun b => b =? d) l) w ->
  wp n (loop_k k (fun '(src, length) =>
    let length' := u32 (length - 1) in
    if length =? 0 then brk 0 else
    x ← load8 src;
    if x =? d then brk src else next (src + 1, length')) (p, len)) w Q.
Proof.
  revert k p len.
  induction l as [|b l IH]; intros [|k] p len Hl Hk Hr HQ; simpl in Hk; try lia; wp_loop.
  - apply reach_nil in Hr as ->. by wp_steps.
  - wp_if; [apply Z.eqb_eq in E as ->; by apply reach_empty in Hr|].
    destruct Hl as [Hb Hl]. wp_mem. wp_if; wp_steps.
    + by rewrite find_ptr_hit in HQ.
    + rewrite find_ptr_miss in HQ by done. apply Z.eqb_neq in E0.
      apply (reach_miss d) in Hr; [|done]. rewrite u32_small by apply Hr. apply IH; [done|lia|done|done].
Qed.

Lemma wp_memchr_align n k d p l len w (Q : flow (Z * Z) Z -> world -> Prop) :
  bytes (w_mem w) p l -> (length l < k)%nat -> reach d l len ->
  Q (Return (find_ptr p (fun b => b =? d) l)) w ->
  (forall p' l' len', bytes (w_mem w) p' l' -> (length l' <= length l)%nat ->
     p' mod 4 = 0 -> reach d l' len' ->
     find_ptr p' (fun b => b =? d) l' = find_ptr p (fun b => b =? d) l ->
     Q (Fall (p', len')) w) ->
  wp n (loop_k k (fun '(src, length) =>
    if UNALIGNED src then
      let length' := u32 (length - 1) in
      if length =? 0 then brk (Return 0) else
      x ← load8 src;
      if x =? d then brk (Return src) else next (src + 1, length')
    else brk (Fall (src, length))) (p, len)) w Q.
Proof.
  revert k p len. induction l as [|b l IH]; intros [|k] p len Hl Hk Hr HR HF; simpl in Hk;
    try lia; wp_loop; rewrite UNALIGNED_spec; destruct (Z.eqb_spec (p mod 4) 0);
    cbn [negb].
  1, 3: wp_steps; eapply HF; [exact Hl|done|done|exact Hr|done].
  - apply reach_nil in Hr as ->. by wp_steps.
  - cbn beta iota zeta. wp_if; [apply Z.eqb_eq in E as ->; by apply reach_empty in Hr|].
    destruct Hl as [Hb Hl]. wp_mem. wp_if; wp_steps.
    + by rewrite find_ptr_hit in HR.
    + rewrite find_ptr_miss in HR, HF by done. apply Z.eqb_neq in E0.
      apply (reach_miss d) in Hr; [|done]. rewrite u32_small by apply Hr.
      apply IH; [done|lia|done|done|].
      intros p' l' len' ? ? ? ? ?. apply (HF _ l'); [done|simpl; lia|done..].
Qed.

(** The word at an aligned pointer, with the array from there on. *)
Lemma aligned_word m p l : mem_ok m -> bytes m p l -> l <> [] -> p mod 4 = 0 ->
  exists a b c e, bytes m p [a; b; c; e] /\ is_byte a /\ is_byte b /\ is_byte c /\ is_byte e /\
    ((length l < 4)%nat /\ l `prefix_of` [a; b; c; e] \/ exists l', l = a :: b :: c :: e :: l' /\ bytes m (p + 4) l').
Proof.
  intros Hm Hl Hne Hp. destruct (mem_ok_word m p p Hm Hp) as (a & b & c & e & Hw & Hr); [lia| |].
  { destruct l as [|x l]; [done|]. destruct Hl as [Hx _]. by exists x. }
  exists a, b, c, e. split; [done|]. destruct Hr as (? & ? & ? & ?). do 4 (split; [done|]).
  destruct (decide (length l < 4)%nat) as [Hle|Hgt].
  - left. split; [done|]. exists (drop (length l) [a; b; c; e]).
    rewrite <-(take_drop (length l) [a; b; c; e]) at 1. f_equal.
    rewrite <-(take_drop (length l) [a; b; c; e]) in Hw. apply bytes_app in Hw as [Hw _].
    eapply bytes_eq; [exact Hw|exact Hl|]. rewrite length_take. cbn [length]. lia.
  - right. rewrite <-(take_drop 4 l) in Hl. apply bytes_app in Hl as [Hl Hl'].
    assert (E : take 4 l = [a; b; c; e]).
    { eapply bytes_eq; [exact Hl|exact Hw|]. rewrite length_take. cbn [length]. lia. }
    exists (drop 4 l). rewrite E in Hl'. split; [|done].
    rewrite <-(take_drop 4 l) at 1. by rewrite E.
Qed.

Lemma wp_memchr_word n k d p l len w (Q : Z * Z -> world -> Prop) :
  mem_ok (w_mem w) -> is_byte d -> p mod 4 = 0 ->
  bytes (w_mem w) p l -> (length l < k)%nat -> reach d l len ->
  (forall p' l' len', bytes (w_mem w) p' l' -> (length l' <= length l)%nat -> reach d l' len' ->
     find_ptr p' (fun b => b =? d) l' = find_ptr p (fun b => b =? d) l ->
     Q (p', len') w) ->
  wp n (loop_k k (fun '(asrc, length) =>
    if 4 <=? length then
      x ← load32 asrc;
      if negb (DETECTCHAR x (le32 d d d d) =? 0) then brk (asrc, length) else
      next (asrc + 4, u32 (length - 4))
    else brk (asrc, length)) (p, len)) w Q.
Proof.
  intros Hm Hd. revert p l len. induction k as [|k IH]; intros p l len Hp Hl Hk Hr HQ; [lia|].
  wp_loop. wp_if; [|by wp_steps; apply (HQ _ l)].
  assert (Hne : l <> []) by (intros ->; apply reach_nil in Hr; blia).
  destruct (aligned_word _ _ _ Hm Hl Hne Hp) as (a & b & c & e & Hw & ? & ? & ? & ? & Hcase).
  wp_mem. wp_if; [by wp_steps; apply (HQ _ l)|].
  assert (Hz : DETECTCHAR (le32 a b c e) (le32 d d d d) = 0) by lia.
  apply DETECTCHAR_spec in Hz as (Ha & Hb & Hc & He); [|done..].
  destruct Hcase as [[Hlt [t Et]]|(l' & -> & Hl')].
  - exfalso. destruct Hr as [_ [Hr|[Hin _]]]; [blia|].
    assert (Hin' : d ∈ [a; b; c; e]) by (rewrite Et; apply elem_of_app; by left).
    rewrite !elem_of_cons, elem_of_nil in Hin'. intuition congruence.
  - wp_steps. simpl in Hk. assert (Hr' : reach d l' (len - 4)).
    { replace (len - 4) with (len - 1 - 1 - 1 - 1) by lia.
      by apply (reach_miss d e), (reach_miss d c), (reach_miss d b), (reach_miss d a). }
    rewrite u32_small by apply Hr'. apply (IH _ l'); [lia|done|lia|done|].
    intros p' l2 len' ? ? ? E'. apply (HQ _ l2); [done|simpl; lia|done|].
    rewrite E', !find_ptr_miss by lia. f_equal. lia.
Qed.

(** The search may name a length beyond the array, when the byte is found
    before its end. *)
Lemma wp_memchr_within n p l c len w (Q : Z -> world -> Prop) :
  mem_ok (w_mem w) -> bytes (w_mem w) p l -> (length l + 1 < n)%nat -> reach (u8 c) l len ->
  Q (find_ptr p (fun b => b =? u8 c) l) w ->
  wp n (memchr p c len) w Q.
Proof.
  intros Hm Hl Hn Hr HQ. unfold memchr.
  assert (Hc : is_byte (u8 c)) by apply u8_range.
  revert Hc Hr HQ. generalize (u8 c) as d. intros d Hd Hr HQ.
  wp_steps. destruct PREFER_SIZE_OVER_SPEED.
  { wp_steps. apply wp_loop_k, (wp_memchr_loop _ _ _ _ l); [done|lia|done..]. }
  wp_steps. apply wp_loop_k, (wp_memchr_align _ _ _ _ l); [done|lia|done|by wp_steps|].
  intros p1 l1 len1 Hl1 Hlt1 Hp1 Hr1 E1. wp_steps. wp_if; wp_steps.
  { apply wp_loop_k, (wp_memchr_loop _ _ _ _ l1); [done|lia|done|by rewrite E1]. }
  apply wp_loop_k. destruct n as [|n]; [lia|]. wp_loop. wp_if. wp_steps.
  destruct (mask_le32 d Hd) as [E2 E3]. rewrite E3 in E2. rewrite E2.
  apply wp_loop_k, (wp_memchr_word _ _ _ _ l1); [done..|lia|done|].
  intros p2 l2 len2 Hl2 Hlt2 Hr2 E4. wp_steps.
  apply wp_loop_k, (wp_memchr_loop _ _ _ _ l2); [done|lia|done|by rewrite E4, E1].
Qed.

Lemma wp_memchr n p l c w (Q : Z -> world -> Prop) :
  mem_ok (w_mem w) -> bytes (w_mem w) p l -> (length l + 1 < n)%nat ->
  Q (find_ptr p (fun b => b =? u8 c) l) w ->
  wp n (memchr p c (zlen l)) w Q.
Proof.
  intros Hm Hl Hn HQ. apply (wp_memchr_within _ _ l); [done..| |done]. split; [|by left].
  destruct l as [|b l']; [simpl; lia|]. apply mem_ok_range in Hl; [simpl in *; lia|done..].
Qed.

(** ** strspn, strcspn, strpbrk *)

Definition in_set (set : list Z) (x : Z) : bool := existsb (Z.eqb x) set.

Lemma wp_scan_set_loop n k p q x set w (Q : Z -> world -> Prop) :
  w_mem w !! p = Some x -> is_byte x -> cstr (w_mem w) q set ->
  (length set < k)%nat ->
  (forall c y, w_mem w !! c = Some y -> is_byte y ->
     (y =? 0) = negb (in_set set x) -> Q c w) ->
  wp n (loop_k k (fun c =>
    y ← load8s c;
    if y =? 0 then brk c else
    x ← load8s p;
    if x =? y then brk c else next (c + 1)) q) w Q.
Proof.
  intros Hx Hxr. revert k q. induction set as [|y set IH]; intros [|k] q Hs Hk HQ;
    simpl in Hk; try lia; wp_loop.
  - apply cstr_nil in Hs. eapply wp_bind, wp_load8s; [done|]. change (s8 0) with 0.
    wp_if. wp_steps. by eapply HQ.
  - apply cstr_cons in Hs as (Hy & Hyr & Hs).
    eapply wp_bind, wp_load8s; [exact Hy|]. rewrite s8_eqb0 by lia. wp_if.
    eapply wp_bind, wp_load8s; [exact Hx|]. rewrite s8_eqb by lia.
    wp_if; wp_steps.
    + eapply HQ; [done|lia|]. simpl. by rewrite E0, E.
    + apply IH; [done|lia|]. intros c z Hc Hz Ez. eapply HQ; [done..|].
      simpl. by rewrite E0, Ez.
Qed.

Lemma wp_scan_set n p q x set w (Q : Z -> world -> Prop) :
  w_mem w !! p = Some x -> is_byte x -> cstr (w_mem w) q set ->
  (length set < n)%nat ->
  (forall c y, w_mem w !! c = Some y -> is_byte y ->
     (y =? 0) = negb (in_set set x) -> Q c w) ->
  wp n (scan_set p q) w Q.
Proof. intros. by eapply wp_loop_k, wp_scan_set_loop. Qed.

(** The outer loop of strspn and strcspn; [stop] is the exit test. *)
Lemma wp_span_loop n k (stop keep : Z -> bool) p q s set w (Q : Z -> world -> Prop) :
  (forall x y, is_byte y -> (y =? 0) = negb (in_set set x) ->
     stop (s8 y) = negb (keep x)) ->
  cstr (w_mem w) p s -> cstr (w_mem w) q set ->
  (length set < n)%nat -> (length s < k)%nat ->
  Q (p + Z.of_nat (span_len keep s)) w ->
  wp n (loop_k k (fun r =>
    x ← load8s r;
    if x =? 0 then brk r else
    c ← scan_set r q;
    y ← load8s c;
    if stop y then brk r else next (r + 1)) p) w Q.
Proof.
  intros Hstop Hs Hq Hn. revert k p Hs.
  induction s as [|b s IH]; intros [|k] p Hs Hk HQ; simpl in Hk; try lia; wp_loop.
  - apply cstr_nil in Hs. wp_mem. change (s8 0) with 0. wp_if. wp_steps.
    eqapply HQ. simpl. lia.
  - apply cstr_cons in Hs as (Hb & Hr & Hs). wp_mem. rewrite s8_eqb0 by lia. wp_if.
    wp_steps. eapply wp_scan_set; [done|lia|done..|]. intros c y Hc Hy Ey. wp_mem.
    rewrite (Hstop b y Hy Ey). simpl in HQ.
    destruct (keep b); simpl; wp_steps.
    + apply IH; [done|lia|]. eqapply HQ. lia.
    + eqapply HQ. lia.
Qed.

Lemma span_len_le P s : (span_len P s <= length s)%nat.
Proof. induction s as [|b s IH]; simpl; [lia|]. destruct (P b); lia. Qed.

Lemma u32_span m P p s :
  mem_ok m -> cstr m p s ->
  u32 (p + Z.of_nat (span_len P s) - p) = Z.of_nat (span_len P s).
Proof.
  intros Hm Hs. apply cstr_bytes, mem_ok_range in Hs; [|done|by destruct s].
  rewrite length_app in Hs; simpl in Hs. pose proof (span_len_le P s).
  rewrite u32_small; lia.
Qed.

Lemma wp_strspn n p q s set w (Q : Z -> world -> Prop) :
  mem_ok (w_mem w) -> cstr (w_mem w) p s -> cstr (w_mem w) q set ->
  (length s < n)%nat -> (length set < n)%nat ->
  Q (Z.of_nat (span_len (in_set set) s)) w -> wp n (strspn p q) w Q.
Proof.
  intros Hm Hs Hq Hn1 Hn2 HQ. unfold strspn. wp_steps.
  apply wp_loop_k, (wp_span_loop _ _ (fun y => y =? 0) (in_set set) _ _ s set);
    [|done..|].
  - intros x y Hy Ey. by rewrite s8_eqb0.
  - wp_steps. by rewrite (u32_span _ _ _ _ Hm Hs).
Qed.

Lemma wp_strcspn n p q s set w (Q : Z -> world -> Prop) :
  mem_ok (w_mem w) -> cstr (w_mem w) p s -> cstr (w_mem w) q set ->
  (length s < n)%nat -> (length set < n)%nat ->
  Q (Z.of_nat (span_len (fun x => negb (in_set set x)) s)) w ->
  wp n (strcspn p q) w Q.
Proof.
  intros Hm Hs Hq Hn1 Hn2 HQ. unfold strcspn. wp_steps.
  apply wp_loop_k, (wp_span_loop _ _ (fun y => negb (y =? 0))
    (fun x => negb (in_set set x)) _ _ s set); [|done..|].
  - intros x y Hy Ey. by rewrite s8_eqb0, Ey by done.
  - wp_steps. by rewrite (u32_span _ _ _ _ Hm Hs).
Qed.

Lemma wp_strpbrk_loop n k p q c0 y0 s set w (Q : Z * Z -> world -> Prop) :
  cstr (w_mem w) p s -> cstr (w_mem w) q set ->
  (length set < n)%nat -> (length s < k)%nat ->
  w_mem w !! c0 = Some y0 -> is_byte y0 -> s <> [] \/ y0 = 0 ->
  (forall p' c y, w_mem w !! c = Some y -> is_byte y ->
     (if y =? 0 then 0 else p') = find_ptr p (in_set set) s -> Q (p', c) w) ->
  wp n (loop_k k (fun '(r, c) =>
    x ← load8s r;
    if x =? 0 then brk (r, c) else
    c ← scan_set r q;
    y ← load8s c;
    if negb (y =? 0) then brk (r, c) else next (r + 1, c)) (p, c0)) w Q.
Proof.
  intros Hs Hq Hn. revert k p c0 y0 Hs.
  induction s as [|b s IH]; intros [|k] p c0 y0 Hs Hk Hc0 Hy0 Hne HQ;
    simpl in Hk; try lia; wp_loop.
  - apply cstr_nil in Hs. wp_mem. change (s8 0) with 0. wp_if. wp_steps.
    destruct Hne as [?| ->]; [done|]. by eapply HQ.
  - apply cstr_cons in Hs as (Hb & Hr & Hs). eapply wp_bind, wp_load8s; [exact Hb|].
    rewrite s8_eqb0 by lia. wp_if. wp_step.
    eapply wp_scan_set; [done|lia|done..|]. intros c y Hc Hy Ey.
    eapply wp_bind, wp_load8s; [exact Hc|]. rewrite s8_eqb0, Ey by done.
    destruct (in_set set b) eqn:Eb; simpl; wp_steps.
    + eapply HQ; [done..|]. rewrite Ey. simpl. by rewrite find_ptr_hit.
    + eapply IH; [done|lia|done|done|right; simpl in Ey; lia|].
      intros p' c' y' ? ? E'. eapply HQ; [done..|]. by rewrite find_ptr_miss.
Qed.

Lemma wp_strpbrk n p q s set w (Q : Z -> world -> Prop) :
  mem_ok (w_mem w) -> cstr (w_mem w) p s -> cstr (w_mem w) q set ->
  (length s < n)%nat -> (length set < n)%nat ->
  Q (find_ptr p (in_set set) s) w -> wp n (strpbrk p q) w Q.
Proof.
  intros Hm Hs Hq Hn1 Hn2 HQ. unfold strpbrk. wp_steps.
  destruct s as [|b s].
  { apply cstr_nil in Hs. wp_mem. change (s8 0) with 0. by wp_if; wp_steps. }
  assert (Hs' := Hs). apply cstr_cons in Hs' as (Hb & Hr & _).
  eapply wp_load8s; [done|]. rewrite s8_eqb0 by lia. wp_if. wp_step.
  assert (exists y0, w_mem w !! q = Some y0 /\ is_byte y0) as (y0 & Hy0 & ?).
  { destruct set as [|y set];
      [apply cstr_nil in Hq|apply cstr_cons in Hq as (Hq & ? & _)]; eexists; split; try done; lia. }
  eapply wp_loop_k, wp_strpbrk_loop; [done..|by left|].
  intros p' c y Hc Hy E'. wp_mem. rewrite s8_eqb0 by done. by rewrite E'.
Qed.
End correctness.
