(* ===== verification/StrCmp.v ===== *)
(** * Comparison functions of string/

    memcmp, bcmp, strcmp, strncmp and strcoll, in both build configurations:
    the word-at-a-time comparison returns the difference of the first unequal
    bytes, like the byte loop. *)

From S2P Require Import Prelude CMonad Words Memory StrScan.

Section code.
Context `{build}.

(** string/strcmp.c *)
Definition strcmp (s1 s2 : Z) : C Z :=
  '(s1, s2) ⇐ (if PREFER_SIZE_OVER_SPEED then fall (s1, s2) else
    if UNALIGNED2 s1 s2 then fall (s1, s2) else
    loop (fun '(a1, a2) =>
      x1 ← load32 a1; x2 ← load32 a2;
      if x1 =? x2 then
        if negb (DETECTNULL x1 =? 0) then brk (Return 0) else
        next (a1 + 4, a2 + 4)
      else brk (Fall (a1, a2))) (s1, s2));
  '(s1, s2) ← loop (fun '(s1, s2) =>
    c1 ← load8s s1;
    if c1 =? 0 then brk (s1, s2) else
    c2 ← load8s s2;
    if c1 =? c2 then next (s1 + 1, s2 + 1) else brk (s1, s2)) (s1, s2);
  u1 ← load8 s1; u2 ← load8 s2;
  mret (u1 - u2).

(** string/strncmp.c *)
Definition strncmp (s1 s2 n : Z) : C Z :=
  if n =? 0 then mret 0 else
  '(s1, s2) ⇐ (if PREFER_SIZE_OVER_SPEED then
    r ← loop (fun '(s1, s2, n) =>
      let n' := u32 (n - 1) in
      if negb (n =? 0) then
        c1 ← load8s s1; c2 ← load8s s2;
        if c1 =? c2 then
          if (n' =? 0) || (c1 =? 0) then brk (s1, s2) else
          next (s1 + 1, s2 + 1, n')
        else brk (s1, s2)
      else brk (s1, s2)) (s1, s2, n);
    fall r
  else
    '(s1, s2, n) ⟸ (if UNALIGNED2 s1 s2 then fall (s1, s2, n) else
      loop (fun '(a1, a2, n) =>
        if 4 <=? n then
          x1 ← load32 a1; x2 ← load32 a2;
          if x1 =? x2 then
            let n := u32 (n - 4) in
            if (n =? 0) || negb (DETECTNULL x1 =? 0) then brk (Return 0) else
            next (a1 + 4, a2 + 4, n)
          else brk (Fall (a1, a2, n))
        else brk (Fall (a1, a2, n))) (s1, s2, n));
    loop (fun '(s1, s2, n) =>
      let n' := u32 (n - 1) in
      if 0 <? n then
        c1 ← load8s s1; c2 ← load8s s2;
        if c1 =? c2 then
          if (n' =? 0) || (c1 =? 0) then brk (Return 0) else
          next (s1 + 1, s2 + 1, n')
        else brk (Fall (s1, s2))
      else brk (Fall (s1, s2))) (s1, s2, n));
  u1 ← load8 s1; u2 ← load8 s2;
  mret (u1 - u2).

(** string/memcmp.c *)
Definition memcmp (m1 m2 n : Z) : C Z :=
  '(s1, s2, n) ← (if PREFER_SIZE_OVER_SPEED then mret (m1, m2, n) else
    if negb (n <? 4) && negb (UNALIGNED2 m1 m2) then
      loop (fun '(a1, a2, n) =>
        if 4 <=? n then
          x1 ← load32 a1; x2 ← load32 a2;
          if negb (x1 =? x2) then brk (a1, a2, n) else
          next (a1 + 4, a2 + 4, u32 (n - 4))
        else brk (a1, a2, n)) (m1, m2, n)
    else mret (m1, m2, n));
  loop (fun '(s1, s2, n) =>
    let n' := u32 (n - 1) in
    if n =? 0 then brk 0 else
    c1 ← load8 s1; c2 ← load8 s2;
    if negb (c1 =? c2) then brk (c1 - c2) else next (s1 + 1, s2 + 1, n'))
    (s1, s2, n).

(** string/bcmp.c *)
Definition bcmp (m1 m2 n : Z) : C Z := memcmp m1 m2 n.
(** string/strcoll.c *)
Definition strcoll (a b : Z) : C Z := strcmp a b.
End code.

(** Difference of the first unequal elements. *)
Fixpoint lex_diff (l1 l2 : list Z) : Z :=
  match l1, l2 with
  | a :: l1', b :: l2' => if a =? b then lex_diff l1' l2' else a - b
  | _, _ => 0
  end.

Section correctness.
Context {cfg : build}.
Implicit Types (n k : nat) (w : world) (p : Z) (s : list Z).

(** ** memcmp *)

Lemma lex_diff_eq a l1 l2 : lex_diff (a :: l1) (a :: l2) = lex_diff l1 l2.
Proof. simpl. by rewrite Z.eqb_refl. Qed.
Lemma lex_diff_ne a b l1 l2 : a <> b -> lex_diff (a :: l1) (b :: l2) = a - b.
Proof. intros. simpl. by replace (a =? b) with false by lia. Qed.
Lemma lex_diff_refl l : lex_diff l l = 0.
Proof. induction l as [|a l IH]; [done|by rewrite lex_diff_eq]. Qed.

(** The comparison of strings is zero on equal ones. *)
Lemma lex_diff_0 s1 s2 :
  Forall (fun b => 0 < b < 256) s1 -> Forall (fun b => 0 < b < 256) s2 ->
  lex_diff (s1 ++ [0]) (s2 ++ [0]) = 0 <-> s1 = s2.
Proof.
  intros H1. revert s2. induction H1 as [|a s1 Ha _ IH]; intros ? [|b s2 Hb H2]; simpl.
  - done.
  - rewrite (proj2 (Z.eqb_neq 0 b)) by lia. split; [lia|done].
  - rewrite (proj2 (Z.eqb_neq a 0)) by lia. split; [lia|done].
  - destruct (Z.eqb_spec a b) as [->|]; [|split; [lia|congruence]].
    rewrite IH by done. split; [by intros ->|by intros [= ->]].
Qed.

Lemma wp_memcmp_loop n k p q l1 l2 w (Q : Z -> world -> Prop) :
  bytes (w_mem w) p l1 -> bytes (w_mem w) q l2 -> length l1 = length l2 ->
  (length l1 < k)%nat -> zlen l1 < 4294967296 ->
  Q (lex_diff l1 l2) w ->
  wp n (loop_k k (fun '(s1, s2, n) =>
    let n' := u32 (n - 1) in
    if n =? 0 then brk 0 else
    c1 ← load8 s1; c2 ← load8 s2;
    if negb (c1 =? c2) then brk (c1 - c2) else next (s1 + 1, s2 + 1, n'))
    (p, q, zlen l1)) w Q.
Proof.
  revert k p q l2.
  induction l1 as [|a l1 IH]; intros [|k] p q [|b l2] H1 H2 Hlen Hk Hb HQ;
    try (simpl in *; lia); wp_loop; wp_if; [by wp_steps|].
  destruct H1 as [Ha H1], H2 as [Hb2 H2]. wp_mem. wp_if; wp_steps.
  - by rewrite lex_diff_ne in HQ by blia.
  - assert (a = b) as <- by blia. rewrite lex_diff_eq in HQ.
    rewrite u32_pred_len by done. simpl in Hlen, Hk, Hb.
    eapply IH; [done|done|lia..|done].
Qed.

Lemma wp_memcmp_word n k p q l1 l2 w (Q : Z * Z * Z -> world -> Prop) :
  mem_ok (w_mem w) ->
  bytes (w_mem w) p l1 -> bytes (w_mem w) q l2 -> length l1 = length l2 ->
  (length l1 < k)%nat -> zlen l1 < 4294967296 ->
  (forall p' q' l1' l2', bytes (w_mem w) p' l1' -> bytes (w_mem w) q' l2' ->
     length l1' = length l2' -> (length l1' <= length l1)%nat ->
     lex_diff l1' l2' = lex_diff l1 l2 -> Q (p', q', zlen l1') w) ->
  wp n (loop_k k (fun '(a1, a2, n) =>
    if 4 <=? n then
      x1 ← load32 a1; x2 ← load32 a2;
      if negb (x1 =? x2) then brk (a1, a2, n) else
      next (a1 + 4, a2 + 4, u32 (n - 4))
    else brk (a1, a2, n)) (p, q, zlen l1)) w Q.
Proof.
  intros Hm. revert p q l1 l2.
  induction k as [|k IH]; intros p q l1 l2 H1 H2 Hlen Hk Hb HQ; [lia|].
  wp_loop. wp_if; [|wp_steps; by apply (HQ _ _ _ _ H1 H2)].
  destruct l1 as [|a [|b [|c [|d l1]]]]; try (exfalso; blia).
  destruct l2 as [|a' [|b' [|c' [|d' l2]]]]; try (exfalso; simpl in Hlen; lia).
  assert (Hr1 := mem_ok_bytes _ _ _ Hm H1). assert (Hr2 := mem_ok_bytes _ _ _ Hm H2).
  rewrite !Forall_cons in Hr1, Hr2. destruct_and!.
  assert (H1' := H1). assert (H2' := H2).
  apply (bytes_app _ _ [a; b; c; d]) in H1' as [Hw1 Ht1].
  apply (bytes_app _ _ [a'; b'; c'; d']) in H2' as [Hw2 Ht2].
  wp_mem. wp_if; wp_steps; [by apply (HQ _ _ _ _ H1 H2)|].
  assert (E' : le32 a b c d = le32 a' b' c' d') by blia.
  apply le32_inj in E' as (<- & <- & <- & <-); [|done..].
  replace (u32 (zlen (a :: b :: c :: d :: l1) - 4)) with (zlen l1)
    by (simpl in *; rewrite u32_small; lia).
  simpl in Hlen, Hk, Hb. eapply (IH _ _ l1 l2); [exact Ht1|exact Ht2|lia..|].
  intros p' q' l1' l2' ? ? ? ? El. apply (HQ _ _ l1' l2'); [done..|simpl; lia|].
  by rewrite !lex_diff_eq.
Qed.

Lemma wp_memcmp n p q l1 l2 w (Q : Z -> world -> Prop) :
  mem_ok (w_mem w) -> bytes (w_mem w) p l1 -> bytes (w_mem w) q l2 ->
  length l1 = length l2 -> (length l1 < n)%nat ->
  Q (lex_diff l1 l2) w ->
  wp n (memcmp p q (zlen l1)) w Q.
Proof.
  intros Hm H1 H2 Hlen Hn HQ. unfold memcmp.
  assert (Hb : zlen l1 < 4294967296).
  { destruct l1 as [|b l']; [simpl; lia|].
    apply mem_ok_range in H1; [simpl in *; lia|done..]. }
  wp_steps. destruct PREFER_SIZE_OVER_SPEED; [|wp_if]; wp_steps;
    try (by apply wp_loop_k, (wp_memcmp_loop _ _ _ _ _ l2)).
  apply wp_loop_k, (wp_memcmp_word _ _ _ _ _ l2); [done..|].
  intros p' q' l1' l2' ? ? ? ? E2. wp_steps.
  apply wp_loop_k, (wp_memcmp_loop _ _ _ _ _ l2'); [done..|lia|lia|by rewrite E2].
Qed.

(** ** strcmp *)

(** Two strings that share a window with a null are equal. *)
Lemma cstr_window_eq m p q s1 s2 l :
  cstr m p s1 -> cstr m q s2 -> bytes m p l -> bytes m q l -> 0 ∈ l -> s1 = s2.
Proof.
  revert p q s1 s2. induction l as [|x l IH]; intros p q s1 s2 H1 H2 Hp Hq H0;
    [by apply not_elem_of_nil in H0|].
  destruct Hp as [Hxp Hp], Hq as [Hxq Hq].
  destruct s1 as [|a s1]; [apply cstr_nil in H1|apply cstr_cons in H1 as (Ha & ? & H1)];
    (destruct s2 as [|b s2]; [apply cstr_nil in H2|apply cstr_cons in H2 as (Hb & ? & H2)]);
    simplify_eq; [done|lia|lia|].
  f_equal. eapply IH; try done. apply elem_of_cons in H0 as [?|?]; [lia|done].
Qed.

Lemma DETECTNULL_in a b c d :
  is_byte a -> is_byte b -> is_byte c -> is_byte d ->
  DETECTNULL (le32 a b c d) <> 0 -> 0 ∈ [a; b; c; d].
Proof.
  intros. destruct (decide (0 ∈ [a; b; c; d])) as [|Hn]; [done|].
  exfalso. rewrite !not_elem_of_cons in Hn. destruct_and!.
  revert select (DETECTNULL _ <> 0). rewrite DETECTNULL_spec; auto.
Qed.

Lemma wp_strcmp_loop n k p q s1 s2 w (Q : Z * Z -> world -> Prop) :
  cstr (w_mem w) p s1 -> cstr (w_mem w) q s2 -> (length s1 < k)%nat ->
  (forall p' q' x y, w_mem w !! p' = Some x -> w_mem w !! q' = Some y ->
     x - y = lex_diff (s1 ++ [0]) (s2 ++ [0]) -> Q (p', q') w) ->
  wp n (loop_k k (fun '(s1, s2) =>
    c1 ← load8s s1;
    if c1 =? 0 then brk (s1, s2) else
    c2 ← load8s s2;
    if c1 =? c2 then next (s1 + 1, s2 + 1) else brk (s1, s2)) (p, q)) w Q.
Proof.
  revert k p q s2. induction s1 as [|a s1 IH]; intros [|k] p q s2 H1 H2 Hk HQ;
    simpl in Hk; try lia; wp_loop.
  - apply cstr_nil in H1. wp_mem. change (s8 0) with 0. wp_if. wp_steps.
    destruct s2 as [|b s2]; [apply cstr_nil in H2|apply cstr_cons in H2 as (H2 & ? & _)];
      eapply HQ; try done. simpl. by destruct b.
  - apply cstr_cons in H1 as (H1 & Ha & Ht1). wp_mem. rewrite s8_eqb0 by lia. wp_if.
    destruct s2 as [|b s2]; [apply cstr_nil in H2|apply cstr_cons in H2 as (H2 & ? & Ht2)];
      wp_mem; rewrite s8_eqb by lia; wp_if; wp_steps.
    + eapply HQ; [done..|]. cbn [app]. rewrite lex_diff_ne; [done|lia].
    + assert (a = b) as <- by blia. eapply IH; [done..|lia|].
      intros p' q' x y ? ? E'. eapply HQ; [done..|].
      cbn [app]. by rewrite lex_diff_eq.
    + eapply HQ; [done..|]. cbn [app]. rewrite lex_diff_ne; [done|blia].
Qed.

(** The word loop of strcmp and strncmp on equal words. *)
Lemma words_eq m p q s1 s2 a b c d a' b' c' d' :
  mem_ok m -> cstr m p s1 -> cstr m q s2 ->
  bytes m p [a; b; c; d] -> bytes m q [a'; b'; c'; d'] ->
  le32 a b c d = le32 a' b' c' d' ->
  (DETECTNULL (le32 a b c d) <> 0 /\ s1 = s2) \/
  exists t1 t2, DETECTNULL (le32 a b c d) = 0 /\
    s1 = a :: b :: c :: d :: t1 /\ s2 = a :: b :: c :: d :: t2 /\
    cstr m (p + 4) t1 /\ cstr m (q + 4) t2.
Proof.
  intros Hm H1 H2 Hw1 Hw2 E.
  assert (Hr1 := mem_ok_bytes _ _ _ Hm Hw1). assert (Hr2 := mem_ok_bytes _ _ _ Hm Hw2).
  rewrite !Forall_cons in Hr1, Hr2.
  destruct Hr1 as (?&?&?&?&_), Hr2 as (?&?&?&?&_).
  apply le32_inj in E as (<- & <- & <- & <-); [|done..].
  destruct (decide (DETECTNULL (le32 a b c d) = 0)) as [E|E]; [right|left].
  - assert (Hd := E). apply DETECTNULL_spec in Hd as (?&?&?&?); [|done..].
    assert (Hsplit : forall r t, cstr m r t -> bytes m r [a; b; c; d] ->
      exists t', t = a :: b :: c :: d :: t' /\ cstr m (r + 4) t').
    { intros r t Ht (Hpa & Hpb & Hpc & Hpd & _).
      do 4 (destruct t as [|? t];
        [apply cstr_nil in Ht; simplify_eq; lia
        |apply cstr_cons in Ht as (? & _ & Ht); simplify_eq]).
      exists t. split; [done|]. by replace (r + 4) with (r + 1 + 1 + 1 + 1) by lia. }
    destruct (Hsplit _ _ H1 Hw1) as (t1 & -> & ?).
    destruct (Hsplit _ _ H2 Hw2) as (t2 & -> & ?). by exists t1, t2.
  - split; [done|]. eapply cstr_window_eq; [done..|]. by apply DETECTNULL_in.
Qed.

Lemma wp_strcmp_word n k p q s1 s2 w (Q : flow (Z * Z) Z -> world -> Prop) :
  mem_ok (w_mem w) -> p mod 4 = 0 -> q mod 4 = 0 ->
  cstr (w_mem w) p s1 -> cstr (w_mem w) q s2 -> (length s1 < k)%nat ->
  (s1 = s2 -> Q (Return 0) w) ->
  (forall p' q' t1 t2, rest w p s1 p' t1 -> cstr (w_mem w) q' t2 ->
     lex_diff (t1 ++ [0]) (t2 ++ [0]) = lex_diff (s1 ++ [0]) (s2 ++ [0]) ->
     Q (Fall (p', q')) w) ->
  wp n (loop_k k (fun '(a1, a2) =>
    x1 ← load32 a1; x2 ← load32 a2;
    if x1 =? x2 then
      if negb (DETECTNULL x1 =? 0) then brk (Return 0) else
      next (a1 + 4, a2 + 4)
    else brk (Fall (a1, a2))) (p, q)) w Q.
Proof.
  intros Hm. revert p q s1 s2.
  induction k as [|k IH]; intros p q s1 s2 Hp Hq H1 H2 Hk HR HF; [lia|].
  destruct (cstr_word _ _ _ Hm H1 Hp) as (a & b & c & d & Hw1 & _).
  destruct (cstr_word _ _ _ Hm H2 Hq) as (a' & b' & c' & d' & Hw2 & _).
  wp_loop. wp_mem. wp_if.
  - apply Z.eqb_eq in E. destruct (words_eq _ _ _ _ _ _ _ _ _ _ _ _ _ Hm H1 H2 Hw1 Hw2 E)
      as [[E' ->]|(t1 & t2 & E' & -> & -> & Ht1 & Ht2)]; wp_if; wp_steps; [by apply HR|].
    apply (IH _ _ t1 t2); [lia..|done|done|simpl in Hk; lia| |].
    + intros ->. by apply HR.
    + intros p' q' t1' t2' ? ? El. eapply HF; [by apply rest_word|done|].
      cbn [app]. by rewrite !lex_diff_eq.
  - wp_steps. eapply HF; [by apply rest_refl|done..].
Qed.

Lemma wp_strcmp n p q s1 s2 w (Q : Z -> world -> Prop) :
  mem_ok (w_mem w) -> cstr (w_mem w) p s1 -> cstr (w_mem w) q s2 ->
  (length s1 < n)%nat ->
  Q (lex_diff (s1 ++ [0]) (s2 ++ [0])) w ->
  wp n (strcmp p q) w Q.
Proof.
  intros Hm H1 H2 Hn HQ. unfold strcmp.
  assert (Hlast : forall p' q' t1 t2, rest w p s1 p' t1 -> cstr (w_mem w) q' t2 ->
    lex_diff (t1 ++ [0]) (t2 ++ [0]) = lex_diff (s1 ++ [0]) (s2 ++ [0]) ->
    wp n (loop (fun '(s1, s2) =>
      c1 ← load8s s1;
      if c1 =? 0 then brk (s1, s2) else
      c2 ← load8s s2;
      if c1 =? c2 then next (s1 + 1, s2 + 1) else brk (s1, s2)) (p', q')) w
      (fun a w' => wp n (let '(s1, s2) := a in
        u1 ← load8 s1; u2 ← load8 s2; mret (u1 - u2)) w' Q)).
  { intros p' q' t1 t2 Hr Hq' E. apply wp_loop_k.
    eapply wp_strcmp_loop; [by eapply rest_cstr|done|by eapply rest_length|].
    intros p2 q2 x y ? ? E2. wp_mem. by rewrite E2, E. }
  assert (Hall := Hlast _ _ _ _ (rest_refl _ _ _ H1) H2 eq_refl).
  wp_steps. destruct PREFER_SIZE_OVER_SPEED; [|destruct (UNALIGNED2 p q) eqn:Eu];
    wp_steps; [exact Hall|exact Hall|].
  apply UNALIGNED2_spec in Eu as [Hp Hq].
  apply wp_loop_k, (wp_strcmp_word _ _ _ _ s1 s2); [done..| |].
  - intros ->. by rewrite lex_diff_refl in HQ.
  - intros p' q' t1 t2 Hr Hq' E. wp_steps. by eapply Hlast.
Qed.

(** ** strncmp *)

(** The comparison strncmp makes: at most [len] characters, up to the
    first null. *)
Definition lex_diff_n (len : Z) (s1 s2 : list Z) : Z :=
  lex_diff (take (Z.to_nat len) (s1 ++ [0])) (take (Z.to_nat len) (s2 ++ [0])).

Lemma lex_diff_n_cons len a s1 s2 :
  1 < len -> lex_diff_n len (a :: s1) (a :: s2) = lex_diff_n (len - 1) s1 s2.
Proof.
  intros. unfold lex_diff_n. replace (Z.to_nat len) with (S (Z.to_nat (len - 1))) by lia.
  cbn [app take]. by rewrite lex_diff_eq.
Qed.
Lemma lex_diff_n_1 a s1 s2 : lex_diff_n 1 (a :: s1) (a :: s2) = 0.
Proof. unfold lex_diff_n. simpl. by rewrite Z.eqb_refl. Qed.
Lemma lex_diff_n_nil len : lex_diff_n len [] [] = 0.
Proof. apply lex_diff_refl. Qed.
(** The strings differ at the first character. *)
Lemma lex_diff_n_head len a s1 b s2 t1 t2 :
  1 <= len -> s1 ++ [0] = a :: t1 -> s2 ++ [0] = b :: t2 -> a <> b ->
  lex_diff_n len s1 s2 = a - b.
Proof.
  intros ? E1 E2 ?. unfold lex_diff_n. rewrite E1, E2.
  replace (Z.to_nat len) with (S (Z.to_nat (len - 1))) by lia.
  cbn [take]. by apply lex_diff_ne.
Qed.

(** One step of either byte loop: the strings' first characters. *)
Lemma cstr_head m p s :
  cstr m p s -> exists a t, s ++ [0] = a :: t /\ m !! p = Some a /\ is_byte a /\
    ((a = 0 /\ s = []) \/ exists s', s = a :: s' /\ 0 < a /\ cstr m (p + 1) s').
Proof.
  destruct s as [|a s]; [intros H%cstr_nil|intros (? & ? & ?)%cstr_cons].
  - exists 0, []. split_and!; try done. by left.
  - exists a, (s ++ [0]). split_and!; [done..|lia|lia|right]. exists s. split_and!; [done|lia|done].
Qed.

Lemma wp_strncmp_loop n k p q len s1 s2 w (Q : flow (Z * Z) Z -> world -> Prop) :
  cstr (w_mem w) p s1 -> cstr (w_mem w) q s2 -> (length s1 < k)%nat ->
  1 <= len < 4294967296 ->
  (lex_diff_n len s1 s2 = 0 -> Q (Return 0) w) ->
  (forall p' q' x y, w_mem w !! p' = Some x -> w_mem w !! q' = Some y ->
     x - y = lex_diff_n len s1 s2 -> Q (Fall (p', q')) w) ->
  wp n (loop_k k (fun '(s1, s2, n) =>
    let n' := u32 (n - 1) in
    if 0 <? n then
      c1 ← load8s s1; c2 ← load8s s2;
      if c1 =? c2 then
        if (n' =? 0) || (c1 =? 0) then brk (Return 0) else
        next (s1 + 1, s2 + 1, n')
      else brk (Fall (s1, s2))
    else brk (Fall (s1, s2))) (p, q, len)) w Q.
Proof.
  revert p q len s1 s2.
  induction k as [|k IH]; intros p q len s1 s2 H1 H2 Hk Hlen HR HF; [lia|].
  destruct (cstr_head _ _ _ H1) as (x & t1 & E1 & Hx & Hxr & Hc1).
  destruct (cstr_head _ _ _ H2) as (y & t2 & E2 & Hy & Hyr & Hc2).
  wp_loop. wp_if. wp_mem. rewrite s8_eqb by done. wp_if.
  - assert (x = y) as <- by blia. rewrite s8_eqb0, u32_small by lia. wp_if; wp_steps.
    + apply HR. destruct Hc1 as [[-> ->]|(s1' & -> & ? & _)],
        Hc2 as [[? ->]|(s2' & -> & ? & _)]; try lia; [apply lex_diff_n_nil|].
      cbn [app] in E1, E2. simplify_eq.
      assert (len = 1) as -> by blia. apply lex_diff_n_1.
    + destruct Hc1 as [[-> ->]|(s1' & -> & ? & Ht1)]; [blia|].
      destruct Hc2 as [[? ->]|(s2' & -> & ? & Ht2)]; [blia|].
      cbn [app] in E1, E2. simplify_eq.
      assert (1 < len) by blia. rewrite lex_diff_n_cons in HR, HF by done.
      by apply (IH _ _ _ s1' s2'); [..|simpl in Hk; lia|lia| |].
  - wp_steps. eapply HF; [done..|].
    by rewrite (lex_diff_n_head _ _ _ _ _ _ _ (proj1 Hlen) E1 E2) by blia.
Qed.

(** The byte loop of the size-optimised configuration. *)
Lemma wp_strncmp_small n k p q len s1 s2 w (Q : Z * Z -> world -> Prop) :
  cstr (w_mem w) p s1 -> cstr (w_mem w) q s2 -> (length s1 < k)%nat ->
  1 <= len < 4294967296 ->
  (forall p' q' x y, w_mem w !! p' = Some x -> w_mem w !! q' = Some y ->
     x - y = lex_diff_n len s1 s2 -> Q (p', q') w) ->
  wp n (loop_k k (fun '(s1, s2, n) =>
    let n' := u32 (n - 1) in
    if negb (n =? 0) then
      c1 ← load8s s1; c2 ← load8s s2;
      if c1 =? c2 then
        if (n' =? 0) || (c1 =? 0) then brk (s1, s2) else
        next (s1 + 1, s2 + 1, n')
      else brk (s1, s2)
    else brk (s1, s2)) (p, q, len)) w Q.
Proof.
  revert p q len s1 s2.
  induction k as [|k IH]; intros p q len s1 s2 H1 H2 Hk Hlen HF; [lia|].
  destruct (cstr_head _ _ _ H1) as (x & t1 & E1 & Hx & Hxr & Hc1).
  destruct (cstr_head _ _ _ H2) as (y & t2 & E2 & Hy & Hyr & Hc2).
  wp_loop. wp_if. wp_mem. rewrite s8_eqb by done. wp_if.
  - assert (x = y) as <- by blia. rewrite s8_eqb0, u32_small by lia. wp_if; wp_steps.
    + eapply HF; [done..|]. rewrite Z.sub_diag. symmetry.
      destruct Hc1 as [[-> ->]|(s1' & -> & ? & _)],
        Hc2 as [[? ->]|(s2' & -> & ? & _)]; try lia; [apply lex_diff_n_nil|].
      cbn [app] in E1, E2. simplify_eq.
      assert (len = 1) as -> by blia. apply lex_diff_n_1.
    + destruct Hc1 as [[-> ->]|(s1' & -> & ? & Ht1)]; [blia|].
      destruct Hc2 as [[? ->]|(s2' & -> & ? & Ht2)]; [blia|].
      cbn [app] in E1, E2. simplify_eq.
      assert (1 < len) by blia. rewrite lex_diff_n_cons in HF by done.
      by apply (IH _ _ _ s1' s2'); [..|simpl in Hk; lia|lia|].
  - wp_steps. eapply HF; [done..|].
    by rewrite (lex_diff_n_head _ _ _ _ _ _ _ (proj1 Hlen) E1 E2) by blia.
Qed.

Lemma wp_strncmp_word n k p q len s1 s2 w (Q : flow (Z * Z * Z) Z -> world -> Prop) :
  mem_ok (w_mem w) -> p mod 4 = 0 -> q mod 4 = 0 ->
  cstr (w_mem w) p s1 -> cstr (w_mem w) q s2 -> (length s1 < k)%nat ->
  1 <= len < 4294967296 ->
  (lex_diff_n len s1 s2 = 0 -> Q (Return 0) w) ->
  (forall p' q' len' t1 t2, rest w p s1 p' t1 -> cstr (w_mem w) q' t2 ->
     1 <= len' < 4294967296 ->
     lex_diff_n len' t1 t2 = lex_diff_n len s1 s2 ->
     Q (Fall (p', q', len')) w) ->
  wp n (loop_k k (fun '(a1, a2, n) =>
    if 4 <=? n then
      x1 ← load32 a1; x2 ← load32 a2;
      if x1 =? x2 then
        let n := u32 (n - 4) in
        if (n =? 0) || negb (DETECTNULL x1 =? 0) then brk (Return 0) else
        next (a1 + 4, a2 + 4, n)
      else brk (Fall (a1, a2, n))
    else brk (Fall (a1, a2, n))) (p, q, len)) w Q.
Proof.
  intros Hm. revert p q len s1 s2.
  induction k as [|k IH]; intros p q len s1 s2 Hp Hq H1 H2 Hk Hlen HR HF; [lia|].
  destruct (cstr_word _ _ _ Hm H1 Hp) as (a & b & c & d & Hw1 & _).
  destruct (cstr_word _ _ _ Hm H2 Hq) as (a' & b' & c' & d' & Hw2 & _).
  wp_loop. wp_if; [|wp_steps; eapply HF; [by apply rest_refl|done..]].
  wp_mem. wp_if; [|wp_steps; eapply HF; [by apply rest_refl|done..]].
  apply Z.eqb_eq in E0. rewrite u32_small by blia.
  destruct (words_eq _ _ _ _ _ _ _ _ _ _ _ _ _ Hm H1 H2 Hw1 Hw2 E0)
    as [[E' ->]|(t1 & t2 & E' & -> & -> & Ht1 & Ht2)]; wp_if; wp_steps.
  - apply HR, lex_diff_refl.
  - apply HR. assert (len = 4) as -> by blia. unfold lex_diff_n. simpl.
    by rewrite !Z.eqb_refl.
  - assert (4 < len) by blia.
    assert (El : lex_diff_n (len - 4) t1 t2 =
      lex_diff_n len (a :: b :: c :: d :: t1) (a :: b :: c :: d :: t2)).
    { rewrite !lex_diff_n_cons by lia. f_equal. lia. }
    apply (IH _ _ _ t1 t2); [lia..|done|done|simpl in Hk; lia|lia| |].
    + intros E2. apply HR. by rewrite <-El.
    + intros p' q' len' t1' t2' ? ? ? El'. eapply HF; [by apply rest_word|done..|].
      by rewrite El'.
Qed.

Lemma wp_strncmp n p q len s1 s2 w (Q : Z -> world -> Prop) :
  mem_ok (w_mem w) -> cstr (w_mem w) p s1 -> cstr (w_mem w) q s2 ->
  (length s1 < n)%nat -> 0 <= len < 4294967296 ->
  Q (lex_diff_n len s1 s2) w ->
  wp n (strncmp p q len) w Q.
Proof.
  intros Hm H1 H2 Hn Hlen HQ. unfold strncmp.
  wp_if; wp_steps; [by replace len with 0 in HQ by blia|].
  assert (Hl1 : 1 <= len < 4294967296) by blia.
  assert (Hlast : forall p' q' len' t1 t2, rest w p s1 p' t1 -> cstr (w_mem w) q' t2 ->
    1 <= len' < 4294967296 -> lex_diff_n len' t1 t2 = lex_diff_n len s1 s2 ->
    wp n (loop (fun '(s1, s2, n) =>
      let n' := u32 (n - 1) in
      if 0 <? n then
        c1 ← load8s s1; c2 ← load8s s2;
        if c1 =? c2 then
          if (n' =? 0) || (c1 =? 0) then brk (Return 0) else
          next (s1 + 1, s2 + 1, n')
        else brk (Fall (s1, s2))
      else brk (Fall (s1, s2))) (p', q', len')) w
      (fun x w' => match x with
        | Fall (s1, s2) => wp n (u1 ← load8 s1; u2 ← load8 s2; mret (u1 - u2)) w' Q
        | Return r => Q r w' end)).
  { intros p' q' len' t1 t2 Hr Hq' Hl' E2. apply wp_loop_k.
    eapply wp_strncmp_loop; [by eapply rest_cstr|done|by eapply rest_length|done| |].
    - intros E3. by rewrite <-E2, E3 in HQ.
    - intros p2 q2 x y ? ? E3. wp_mem. by rewrite E3, E2. }
  assert (Hall := Hlast _ _ _ _ _ (rest_refl _ _ _ H1) H2 Hl1 eq_refl).
  destruct PREFER_SIZE_OVER_SPEED; [|destruct (UNALIGNED2 p q) eqn:Eu]; wp_steps.
  - apply wp_loop_k. eapply wp_strncmp_small; [done..|].
    intros p' q' x y ? ? E2. wp_mem. by rewrite E2.
  - eapply wp_mono; [exact Hall|]. by intros [[]|].
  - apply UNALIGNED2_spec in Eu as [Hp Hq].
    apply wp_loop_k, (wp_strncmp_word _ _ _ _ _ s1 s2); [done..| |].
    + intros E2. wp_steps. by rewrite E2 in HQ.
    + intros p' q' len' t1 t2 Hr Hq' Hl' E2. wp_steps.
      eapply wp_mono; [by eapply Hlast|]. by intros [[]|].
Qed.
End correctness.
