(* ===== verification/MemCopy.v ===== *)
(** * Copying and filling memory: string/mem*.c, bcopy.c, bzero.c, swab.c

    memcpy, mempcpy, memmove, bcopy, memset, bzero, memccpy and swab, with the
    word loops and the 32-bit counters of the source. *)

From S2P Require Import Prelude CMonad Words Memory StrScan.

Section code.
Context `{build}.

(** [*dst = *src], through [char] and [long] lvalues. *)
Definition copy8 (dst src : Z) : C unit := c ← load8s src; store8 dst c.
Definition copy32 (dst src : Z) : C unit := x ← load32 src; store32 dst x.

(** The loops memcpy.c, mempcpy.c and memmove.c share: four words at a
    time, one word at a time, and bytes.  [len] is an [int], the block sizes
    have type [size_t]. *)
Definition copy_blocks (dst src len : Z) : C (Z * Z * Z) :=
  loop (fun '(aligned_dst, aligned_src, len) =>
    if 16 <=? u32 len then
      copy32 aligned_dst aligned_src ;;
      copy32 (aligned_dst + 4) (aligned_src + 4) ;;
      copy32 (aligned_dst + 8) (aligned_src + 8) ;;
      copy32 (aligned_dst + 12) (aligned_src + 12) ;;
      next (aligned_dst + 16, aligned_src + 16, i32 (len - 16))
    else brk (aligned_dst, aligned_src, len)) (dst, src, len).

Definition copy_words (dst src len : Z) : C (Z * Z * Z) :=
  loop (fun '(aligned_dst, aligned_src, len) =>
    if 4 <=? u32 len then
      copy32 aligned_dst aligned_src ;;
      next (aligned_dst + 4, aligned_src + 4, i32 (len - 4))
    else brk (aligned_dst, aligned_src, len)) (dst, src, len).

Definition copy_bytes (dst src len : Z) : C (Z * Z) :=
  loop (fun '(dst, src, len) =>
    let len' := i32 (len - 1) in
    if len =? 0 then brk (dst, src) else
    copy8 dst src ;; next (dst + 1, src + 1, len')) (dst, src, len).

(** The same loop with a [size_t] counter, of the size-optimised bodies. *)
Definition copy_bytes_u (dst src len : Z) : C (Z * Z) :=
  loop (fun '(dst, src, len) =>
    let len' := u32 (len - 1) in
    if len =? 0 then brk (dst, src) else
    copy8 dst src ;; next (dst + 1, src + 1, len')) (dst, src, len).

(** The forward copy of the three functions. *)
Definition copy_forward (dst src len : Z) : C (Z * Z) :=
  '(dst, src, len) ←
    (if negb (u32 len <? 16) && negb (UNALIGNED2 src dst) then
      '(dst, src, len) ← copy_blocks dst src len;
      copy_words dst src len
    else mret (dst, src, len));
  copy_bytes dst src len.

(** string/memcpy.c *)
Definition memcpy (dst0 src0 len0 : Z) : C Z :=
  if PREFER_SIZE_OVER_SPEED then
    copy_bytes_u dst0 src0 len0 ;; mret dst0
  else
    let len := i32 len0 in
    copy_forward dst0 src0 len ;; mret dst0.

(** string/mempcpy.c *)
Definition mempcpy (dst0 src0 len0 : Z) : C Z :=
  if PREFER_SIZE_OVER_SPEED then
    '(dst, _) ← copy_bytes_u dst0 src0 len0; mret dst
  else
    let len := i32 len0 in
    '(dst, _) ← copy_forward dst0 src0 len; mret dst.

(** string/memmove.c *)
Definition memmove (dst_void src_void length : Z) : C Z :=
  let dst := dst_void in
  let src := src_void in
  if PREFER_SIZE_OVER_SPEED then
    if (src <? dst) && (dst <? src + length) then
      loop (fun '(dst, src, length) =>
        let length' := u32 (length - 1) in
        if length =? 0 then brk tt else
        let dst := dst - 1 in
        let src := src - 1 in
        copy8 dst src ;; next (dst, src, length'))
        (dst + length, src + length, length) ;;
      mret dst_void
    else
      copy_bytes_u dst src length ;; mret dst_void
  else
    let len := i32 length in
    if (src <? dst) && (dst <? src + len) then
      loop (fun '(dst, src, len) =>
        let len' := i32 (len - 1) in
        if len =? 0 then brk tt else
        let dst := dst - 1 in
        let src := src - 1 in
        copy8 dst src ;; next (dst, src, len'))
        (dst + len, src + len, len) ;;
      mret dst_void
    else
      copy_forward dst src len ;; mret dst_void.

(** string/bcopy.c *)
Definition bcopy (b1 b2 length : Z) : C unit := memmove b2 b1 length ;; mret tt.

(** string/memset.c *)
Definition memset (m c n : Z) : C Z :=
  let s := m in
  '(s, n) ⇐ (if PREFER_SIZE_OVER_SPEED then fall (s, n) else
    let d := Z.land c 0xff in
    '(s, n) ⟸ loop (fun '(s, n) =>
      if UNALIGNED s then
        let n' := u32 (n - 1) in
        if negb (n =? 0) then store8 s c ;; next (s + 1, n')
        else brk (Return m)
      else brk (Fall (s, n))) (s, n);
    if n <? 4 then fall (s, n) else
    let buffer := Z.lor (u32 (Z.shiftl d 8)) d in
    let buffer := Z.lor buffer (u32 (Z.shiftl buffer 16)) in
    buffer ← loop (fun '(buffer, i) =>
      if i <? 4 * 8 then
        next (Z.lor (u32 (Z.shiftl buffer i)) buffer, i32 (Z.shiftl i 1))
      else brk buffer) (buffer, 32);
    '(aligned_addr, n) ← loop (fun '(aligned_addr, n) =>
      if 16 <=? n then
        store32 aligned_addr buffer ;;
        store32 (aligned_addr + 4) buffer ;;
        store32 (aligned_addr + 8) buffer ;;
        store32 (aligned_addr + 12) buffer ;;
        next (aligned_addr + 16, u32 (n - 16))
      else brk (aligned_addr, n)) (s, n);
    '(aligned_addr, n) ← loop (fun '(aligned_addr, n) =>
      if 4 <=? n then
        store32 aligned_addr buffer ;; next (aligned_addr + 4, u32 (n - 4))
      else brk (aligned_addr, n)) (aligned_addr, n);
    fall (aligned_addr, n));
  loop (fun '(s, n) =>
    let n' := u32 (n - 1) in
    if n =? 0 then brk tt else
    store8 s c ;; next (s + 1, n')) (s, n) ;;
  mret m.

(** string/bzero.c *)
Definition bzero (b length : Z) : C unit :=
  loop (fun '(ptr, length) =>
    let length' := u32 (length - 1) in
    if length =? 0 then brk tt else
    store8 ptr 0 ;; next (ptr + 1, length')) (b, length).

(** string/memccpy.c: the byte loop of both configurations *)
Definition memccpy_bytes (wrap : Z -> Z) (endchar dst src len : Z) : C Z :=
  loop (fun '(dst, src, len) =>
    let len' := wrap (len - 1) in
    if len =? 0 then brk 0 else
    c ← load8s src;
    store8 dst c ;;
    if c =? endchar then brk (dst + 1) else next (dst + 1, src + 1, len'))
    (dst, src, len).

(** string/memccpy.c *)
Definition memccpy (dst0 src0 endchar0 len0 : Z) : C Z :=
  let endchar := s8 (Z.land endchar0 0xff) in
  if PREFER_SIZE_OVER_SPEED then memccpy_bytes u32 endchar dst0 src0 len0
  else
    let len := i32 len0 in
    '(dst, src, len) ←
      (if negb (u32 len <? 4) && negb (UNALIGNED2 src0 dst0) then
        mask ← loop (fun '(mask, i) =>
          if i <? 4 then next (u32 (u32 (Z.shiftl mask 8) + endchar), i + 1)
          else brk mask) (0, 0);
        loop (fun '(aligned_dst, aligned_src, len) =>
          if 4 <=? u32 len then
            x ← load32 aligned_src;
            let buffer := Z.lxor x mask in
            if negb (DETECTNULL buffer =? 0)
            then brk (aligned_dst, aligned_src, len) else
            copy32 aligned_dst aligned_src ;;
            next (aligned_dst + 4, aligned_src + 4, i32 (len - 4))
          else brk (aligned_dst, aligned_src, len)) (dst0, src0, len)
      else mret (dst0, src0, len));
    memccpy_bytes i32 endchar dst src len.

(** string/swab.c *)
Definition swab (b1 b2 length : Z) : C unit :=
  ptr ← loop (fun ptr =>
    if ptr <? length then
      p ← load8s (b1 + ptr);
      q ← load8s (b1 + (ptr - 1));
      store8 (b2 + (ptr - 1)) p ;;
      store8 (b2 + ptr) q ;;
      next (i32 (ptr + 2))
    else brk ptr) 1;
  if ptr =? length then store8 (b2 + (ptr - 1)) 0 else mret tt.
End code.

Section correctness.
Context {cfg : build}.
Implicit Types (n k : nat) (w : world) (p dst src : Z) (l : list Z).

(** A forward copy of [l] from [src] to [dst] may proceed: either the ranges
    are disjoint or the destination starts first. *)
Definition forward (dst src len : Z) : Prop := dst <= src \/ src + len <= dst.

Record copying (w : world) (dst src : Z) (l : list Z) : Prop := {
  copying_ok : mem_ok (w_mem w);
  copying_src : bytes (w_mem w) src l;
  copying_dst : mapped (w_mem w) dst (zlen l);
  copying_fwd : forward dst src (zlen l);
}.

(** The world after [l] has been written at [dst]. *)
Definition written (dst : Z) (l : list Z) (w : world) : world :=
  set_mem (store_bytes dst l (w_mem w)) w.

Lemma written_app dst l1 l2 w :
  written (dst + zlen l1) l2 (written dst l1 w) = written dst (l1 ++ l2) w.
Proof. unfold written. by rewrite store_bytes_app. Qed.
(** Writing what is there changes nothing. *)
Lemma written_id dst l w : bytes (w_mem w) dst l -> written dst l w = w.
Proof. intros H. unfold written. rewrite store_bytes_id by done. by destruct w. Qed.
(** Writes to disjoint ranges commute; the second of two at one place wins. *)
Lemma written_comm p l q l' w : disjoint_ranges p (zlen l) q (zlen l') ->
  written p l (written q l' w) = written q l' (written p l w).
Proof. intros H. unfold written. cbn [set_mem w_mem]. by rewrite store_bytes_comm. Qed.
Lemma written_over p l l' w : length l = length l' ->
  written p l' (written p l w) = written p l' w.
Proof. intros H. unfold written. cbn [set_mem w_mem]. by rewrite store_bytes_over. Qed.
Lemma written_nil dst w : written dst [] w = w.
Proof. apply set_mem_id. Qed.

(** The rest of a copy after its first bytes were overwritten by [l1']. *)
Lemma copying_store w dst src l1 l1' l2 :
  copying w dst src (l1 ++ l2) -> length l1' = length l1 ->
  Forall (fun b => is_byte b) l1' ->
  copying (written dst l1' w) (dst + zlen l1) (src + zlen l1) l2.
Proof.
  intros [Hm Hs Hd Hf] Hl Hb. rewrite length_app in Hd, Hf.
  apply bytes_app in Hs as [Hs1 Hs2]. unfold forward in *.
  split; simpl.
  - apply mem_ok_store; [done|eapply mapped_sub; [done|lia..]|done].
  - apply bytes_store_out; [done|]. unfold disjoint_ranges. lia.
  - apply mapped_store. eapply mapped_sub; [done|lia..].
  - unfold forward. lia.
Qed.

Lemma copying_step w dst src l1 l2 :
  copying w dst src (l1 ++ l2) ->
  copying (written dst l1 w) (dst + zlen l1) (src + zlen l1) l2.
Proof.
  intros Hc. eapply copying_store; [done..|]. destruct Hc as [Hm Hs _ _].
  apply bytes_app in Hs as [Hs _]. by eapply mem_ok_bytes.
Qed.

Lemma wp_copy8 n dst src b w (Q : unit -> world -> Prop) :
  w_mem w !! src = Some b -> is_byte b -> is_Some (w_mem w !! dst) ->
  Q tt (written dst [b] w) -> wp n (copy8 dst src) w Q.
Proof.
  intros Hs Hb Hd HQ. unfold copy8. wp_mem. apply wp_store8; [done|].
  by rewrite u8_s8.
Qed.

Lemma wp_copy32 n dst src a b c d w (Q : unit -> world -> Prop) :
  mem_ok (w_mem w) -> bytes (w_mem w) src [a; b; c; d] -> mapped (w_mem w) dst 4 ->
  Q tt (written dst [a; b; c; d] w) -> wp n (copy32 dst src) w Q.
Proof.
  intros Hm Hs Hd HQ. assert (Hr := mem_ok_bytes _ _ _ Hm Hs).
  rewrite !Forall_cons in Hr. destruct Hr as (?&?&?&?&_).
  unfold copy32. wp_mem. by apply wp_store32.
Qed.

(** *** The copy loops *)

Lemma copying_range w dst src l : copying w dst src l -> zlen l < 1073741824.
Proof.
  intros [Hm Hs _ _]. destruct l as [|b l]; [simpl; lia|].
  apply mem_ok_range in Hs; [simpl in *; lia|done..].
Qed.

Lemma copying_head w dst src b l :
  copying w dst src (b :: l) ->
  w_mem w !! src = Some b /\ is_byte b /\ is_Some (w_mem w !! dst) /\
  copying (written dst [b] w) (dst + 1) (src + 1) l.
Proof.
  intros Hc. assert (Hs := copying_step w dst src [b] l Hc).
  destruct Hc as [Hm [Hb _] Hd _]. split_and!; try done.
  - by eapply mem_ok_cell.
  - by eapply mem_ok_cell.
  - apply Hd. simpl. lia.
Qed.

Lemma copying_word w dst src a b c d l :
  copying w dst src (a :: b :: c :: d :: l) ->
  mem_ok (w_mem w) /\ bytes (w_mem w) src [a; b; c; d] /\ mapped (w_mem w) dst 4 /\
  copying (written dst [a; b; c; d] w) (dst + 4) (src + 4) l.
Proof.
  intros Hc. assert (Hs := copying_step w dst src [a; b; c; d] l Hc).
  destruct Hc as [Hm Hsrc Hd _].
  apply (bytes_app _ _ [a; b; c; d]) in Hsrc as [Hw _]. split_and!; try done.
  eapply mapped_sub; [done|lia|simpl; lia].
Qed.

Section bytes_loop.
(** The two counters of the byte loops. *)
Context (wrap : Z -> Z).
Hypothesis wrap_small : forall z, 0 <= z < 1073741824 -> wrap z = z.

Lemma wp_copy_bytes_gen n k dst src l w (Q : Z * Z -> world -> Prop) :
  copying w dst src l -> (length l < k)%nat ->
  Q (dst + zlen l, src + zlen l) (written dst l w) ->
  wp n (loop_k k (fun '(dst, src, len) =>
    let len' := wrap (len - 1) in
    if len =? 0 then brk (dst, src) else
    copy8 dst src ;; next (dst + 1, src + 1, len')) (dst, src, zlen l)) w Q.
Proof.
  revert k dst src w. induction l as [|b l IH]; intros [|k] dst src w Hc Hk HQ;
    simpl in Hk; try lia; wp_loop; wp_if.
  - wp_steps. rewrite written_nil in HQ. simpl in HQ. by rewrite !Z.add_0_r in HQ.
  - assert (Hlen := copying_range _ _ _ _ Hc).
    apply copying_head in Hc as (Hb & Hr & Hd & Hc).
    wp_step. eapply wp_copy8; [done..|]. wp_steps.
    rewrite wrap_small by (simpl in *; lia).
    replace (zlen (b :: l) - 1) with (zlen l) by (simpl; lia).
    apply IH; [done|lia|].
    replace (dst + 1 + zlen l) with (dst + zlen (b :: l)) by (simpl; lia).
    replace (src + 1 + zlen l) with (src + zlen (b :: l)) by (simpl; lia).
    by rewrite (written_app dst [b] l).
Qed.
End bytes_loop.

Lemma wp_copy_bytes n dst src l w (Q : Z * Z -> world -> Prop) :
  copying w dst src l -> (length l < n)%nat ->
  Q (dst + zlen l, src + zlen l) (written dst l w) ->
  wp n (copy_bytes dst src (zlen l)) w Q.
Proof. intros. apply wp_loop_k, wp_copy_bytes_gen; [|done..]. intros; apply i32_small; lia. Qed.

Lemma wp_copy_bytes_u n dst src l w (Q : Z * Z -> world -> Prop) :
  copying w dst src l -> (length l < n)%nat ->
  Q (dst + zlen l, src + zlen l) (written dst l w) ->
  wp n (copy_bytes_u dst src (zlen l)) w Q.
Proof. intros. apply wp_loop_k, wp_copy_bytes_gen; [|done..]. intros; apply u32_small; lia. Qed.

(** A word loop stops at some split of the data. *)
Lemma wp_copy_words_k n k dst src l w (Q : Z * Z * Z -> world -> Prop) :
  copying w dst src l -> (length l < k)%nat ->
  (forall l1 l2, l = l1 ++ l2 ->
     Q (dst + zlen l1, src + zlen l1, zlen l2) (written dst l1 w)) ->
  wp n (loop_k k (fun '(aligned_dst, aligned_src, len) =>
    if 4 <=? u32 len then
      copy32 aligned_dst aligned_src ;;
      next (aligned_dst + 4, aligned_src + 4, i32 (len - 4))
    else brk (aligned_dst, aligned_src, len)) (dst, src, zlen l)) w Q.
Proof.
  revert dst src l w. induction k as [|k IH]; intros dst src l w Hc Hk HQ; [lia|].
  assert (Hlen := copying_range _ _ _ _ Hc).
  wp_loop. rewrite u32_small by lia. wp_if.
  - destruct l as [|a [|b [|c [|d l]]]]; try (exfalso; blia).
    apply copying_word in Hc as (Hm & Hw & Hd & Hc).
    wp_step. eapply wp_copy32; [done..|]. wp_steps.
    rewrite i32_small by (simpl in *; lia).
    replace (zlen (a :: b :: c :: d :: l) - 4) with (zlen l) by (simpl; lia).
    apply IH; [done|simpl in Hk; lia|]. intros l1 l2 ->.
    specialize (HQ (a :: b :: c :: d :: l1) l2 eq_refl).
    rewrite <-(written_app dst [a; b; c; d] l1) in HQ. eqapply HQ.
    do 2 f_equal; simpl; lia.
  - wp_steps. specialize (HQ [] l eq_refl). rewrite written_nil in HQ.
    eqapply HQ. do 2 f_equal; simpl; lia.
Qed.

Lemma wp_copy_words n dst src l w (Q : Z * Z * Z -> world -> Prop) :
  copying w dst src l -> (length l < n)%nat ->
  (forall l1 l2, l = l1 ++ l2 ->
     Q (dst + zlen l1, src + zlen l1, zlen l2) (written dst l1 w)) ->
  wp n (copy_words dst src (zlen l)) w Q.
Proof. intros. by apply wp_loop_k, wp_copy_words_k. Qed.

(** Sixteen bytes off the front of a copy. *)
Lemma wp_copy_block {A} n dst src l (c : C A) w (Q : A -> world -> Prop) :
  copying w dst src l -> 16 <= zlen l ->
  (forall l1 l2, l = l1 ++ l2 -> zlen l1 = 16 -> wp n c (written dst l1 w) Q) ->
  wp n (copy32 dst src ;; copy32 (dst + 4) (src + 4) ;;
        copy32 (dst + 8) (src + 8) ;; copy32 (dst + 12) (src + 12) ;; c) w Q.
Proof.
  intros Hc Hlen HQ.
  do 16 (destruct l as [|? l]; [simpl in Hlen; lia|]).
  apply copying_word in Hc as (Hm & Hw & Hd & Hc).
  wp_step. eapply wp_copy32; [done..|]. clear Hm Hw Hd.
  apply copying_word in Hc as (Hm & Hw & Hd & Hc).
  wp_step. eapply wp_copy32; [done..|]. clear Hm Hw Hd.
  apply copying_word in Hc as (Hm & Hw & Hd & Hc).
  replace (dst + 4 + 4) with (dst + 8) in * by lia.
  replace (src + 4 + 4) with (src + 8) in * by lia.
  wp_step. eapply wp_copy32; [done..|]. clear Hm Hw Hd.
  apply copying_word in Hc as (Hm & Hw & Hd & Hc).
  replace (dst + 8 + 4) with (dst + 12) in * by lia.
  replace (src + 8 + 4) with (src + 12) in * by lia.
  wp_step. eapply wp_copy32; [done..|].
  match goal with |- wp n c (written _ [?a; ?b; ?c; ?d] (written _ [?e; ?f; ?g; ?h]
    (written _ [?i; ?j; ?k; ?o] (written _ [?x; ?y; ?z; ?t] w)))) Q =>
    specialize (HQ [x; y; z; t; i; j; k; o; e; f; g; h; a; b; c; d] l eq_refl eq_refl);
    rewrite <-(written_app dst [x; y; z; t; i; j; k; o; e; f; g; h] [a; b; c; d]) in HQ;
    rewrite <-(written_app dst [x; y; z; t; i; j; k; o] [e; f; g; h]) in HQ;
    rewrite <-(written_app dst [x; y; z; t] [i; j; k; o]) in HQ
  end. exact HQ.
Qed.

Lemma wp_copy_blocks_k n k dst src l w (Q : Z * Z * Z -> world -> Prop) :
  copying w dst src l -> (length l < k)%nat ->
  (forall l1 l2, l = l1 ++ l2 ->
     Q (dst + zlen l1, src + zlen l1, zlen l2) (written dst l1 w)) ->
  wp n (loop_k k (fun '(aligned_dst, aligned_src, len) =>
    if 16 <=? u32 len then
      copy32 aligned_dst aligned_src ;;
      copy32 (aligned_dst + 4) (aligned_src + 4) ;;
      copy32 (aligned_dst + 8) (aligned_src + 8) ;;
      copy32 (aligned_dst + 12) (aligned_src + 12) ;;
      next (aligned_dst + 16, aligned_src + 16, i32 (len - 16))
    else brk (aligned_dst, aligned_src, len)) (dst, src, zlen l)) w Q.
Proof.
  revert dst src l w. induction k as [|k IH]; intros dst src l w Hc Hk HQ; [lia|].
  assert (Hlen := copying_range _ _ _ _ Hc).
  wp_loop. rewrite u32_small by lia. wp_if.
  - eapply wp_copy_block; [done|blia|]. intros l1 l2 -> Hl1.
    apply copying_step in Hc. rewrite Hl1 in Hc. wp_steps.
    rewrite i32_small by blia. rewrite length_app in Hk, Hlen |- *.
    replace (Z.of_nat (length l1 + length l2) - 16) with (zlen l2) by lia.
    apply IH; [done|lia|]. intros l3 l4 ->.
    specialize (HQ (l1 ++ l3) l4 (app_assoc _ _ _)).
    rewrite <-written_app, length_app, Hl1 in HQ. eqapply HQ.
    do 2 f_equal; lia.
  - wp_steps. specialize (HQ [] l eq_refl). rewrite written_nil in HQ.
    eqapply HQ. do 2 f_equal; simpl; lia.
Qed.

Lemma wp_copy_forward n dst src l w (Q : Z * Z -> world -> Prop) :
  copying w dst src l -> (length l < n)%nat ->
  Q (dst + zlen l, src + zlen l) (written dst l w) ->
  wp n (copy_forward dst src (zlen l)) w Q.
Proof.
  intros Hc Hn HQ. unfold copy_forward. wp_steps. wp_if; wp_steps.
  - apply wp_loop_k, wp_copy_blocks_k; [done..|]. intros l1 l2 ->.
    wp_steps. rewrite length_app in Hn. apply copying_step in Hc.
    apply wp_copy_words; [done|lia|]. intros l3 l4 ->. rewrite length_app in Hn.
    wp_steps. apply copying_step in Hc.
    apply wp_copy_bytes; [done|lia|].
    eqapply HQ; [|rewrite !length_app; f_equal; lia].
    by rewrite <-!written_app.
  - by apply wp_copy_bytes.
Qed.

(** ** memcpy, mempcpy, memmove *)

Lemma wp_memcpy n dst src l w (Q : Z -> world -> Prop) :
  copying w dst src l -> (length l < n)%nat ->
  Q dst (written dst l w) -> wp n (memcpy dst src (zlen l)) w Q.
Proof.
  intros Hc Hn HQ. unfold memcpy. assert (Hlen := copying_range _ _ _ _ Hc).
  rewrite i32_small by lia. destruct PREFER_SIZE_OVER_SPEED; wp_steps.
  - apply wp_copy_bytes_u; [done..|by wp_steps].
  - apply wp_copy_forward; [done..|by wp_steps].
Qed.

Lemma wp_mempcpy n dst src l w (Q : Z -> world -> Prop) :
  copying w dst src l -> (length l < n)%nat ->
  Q (dst + zlen l) (written dst l w) -> wp n (mempcpy dst src (zlen l)) w Q.
Proof.
  intros Hc Hn HQ. unfold mempcpy. assert (Hlen := copying_range _ _ _ _ Hc).
  rewrite i32_small by lia. destruct PREFER_SIZE_OVER_SPEED; wp_steps.
  - apply wp_copy_bytes_u; [done..|by wp_steps].
  - apply wp_copy_forward; [done..|by wp_steps].
Qed.

Section backward.
Context (wrap : Z -> Z).
Hypothesis wrap_small : forall z, 0 <= z < 1073741824 -> wrap z = z.

Lemma wp_copy_backward n k dst src l w (Q : unit -> world -> Prop) :
  mem_ok (w_mem w) -> bytes (w_mem w) src l -> mapped (w_mem w) dst (zlen l) ->
  src <= dst -> (length l < k)%nat -> Q tt (written dst l w) ->
  wp n (loop_k k (fun '(dst, src, len) =>
    let len' := wrap (len - 1) in
    if len =? 0 then brk tt else
    let dst := dst - 1 in
    let src := src - 1 in
    copy8 dst src ;; next (dst, src, len'))
    (dst + zlen l, src + zlen l, zlen l)) w Q.
Proof.
  revert k w. induction l as [|b l IH] using rev_ind;
    intros [|k] w Hm Hs Hd Hle Hk HQ; try (rewrite ?length_app in Hk; simpl in Hk; lia);
    wp_loop.
  - wp_if. wp_steps. by rewrite written_nil in HQ.
  - assert (Hr := mem_ok_range _ _ _ Hm Hs ltac:(by destruct l)).
    assert (Hb := mem_ok_bytes _ _ _ Hm Hs). apply Forall_app in Hb as [Hb1 Hb2].
    apply Forall_cons in Hb2 as [Hb2 _].
    apply bytes_app in Hs as [Hs1 [Hs2 _]].
    rewrite length_app in *. cbn [length] in *.
    replace (dst + Z.of_nat (length l + 1) - 1) with (dst + zlen l) by lia.
    replace (src + Z.of_nat (length l + 1) - 1) with (src + zlen l) by lia.
    wp_if. rewrite wrap_small by lia.
    replace (Z.of_nat (length l + 1) - 1) with (zlen l) by lia.
    wp_step. eapply wp_copy8; [done|done|apply Hd; lia|]. wp_steps.
    apply IH; simpl.
    + apply mem_ok_insert; [done|apply Hd; lia|done].
    + apply bytes_insert_out; [done|lia].
    + apply mapped_insert. eapply mapped_sub; [done|lia..].
    + done.
    + lia.
    + eqapply HQ. unfold written; simpl. rewrite store_bytes_snoc.
      rewrite insert_store_comm by lia. by rewrite set_mem_set_mem.
Qed.
End backward.

(** memmove copies correctly whatever the overlap. *)
Lemma wp_memmove n dst src l w (Q : Z -> world -> Prop) :
  mem_ok (w_mem w) -> bytes (w_mem w) src l -> mapped (w_mem w) dst (zlen l) ->
  (length l < n)%nat -> Q dst (written dst l w) ->
  wp n (memmove dst src (zlen l)) w Q.
Proof.
  intros Hm Hs Hd Hn HQ. unfold memmove.
  assert (Hlen : zlen l < 1073741824).
  { destruct l as [|b l']; [simpl; lia|].
    apply mem_ok_range in Hs; [simpl in *; lia|done..]. }
  rewrite i32_small by lia.
  assert (Hfw : (src <? dst) && (dst <? src + zlen l) = false -> copying w dst src l).
  { intros E. split; [done..|]. unfold forward. b2p. lia. }
  destruct PREFER_SIZE_OVER_SPEED;
    destruct ((src <? dst) && (dst <? src + zlen l)) eqn:E; wp_steps.
  - apply wp_loop_k, (wp_copy_backward u32); [|done..|blia|done|by wp_steps].
    intros; apply u32_small; lia.
  - apply wp_copy_bytes_u; [auto|done|by wp_steps].
  - apply wp_loop_k, (wp_copy_backward i32); [|done..|blia|done|by wp_steps].
    intros; apply i32_small; lia.
  - apply wp_copy_forward; [auto|done|by wp_steps].
Qed.
(** ** memset, bzero *)

(** A fill of [dst] with [l], whose elements are all [b], may proceed. *)
Record filling (w : world) (dst b : Z) (l : list Z) : Prop := {
  filling_ok : mem_ok (w_mem w);
  filling_byte : is_byte b;
  filling_all : Forall (eq b) l;
  filling_dst : mapped (w_mem w) dst (zlen l);
}.

Lemma filling_step w dst b l1 l2 :
  filling w dst b (l1 ++ l2) -> filling (written dst l1 w) (dst + zlen l1) b l2.
Proof.
  intros [Hm Hb Ha Hd]. rewrite length_app in Hd. apply Forall_app in Ha as [Ha1 Ha2].
  split; simpl; [|done..|].
  - apply mem_ok_store; [done|eapply mapped_sub; [done|lia..]|].
    eapply Forall_impl; [exact Ha1|]. by intros ? <-.
  - apply mapped_store. eapply mapped_sub; [done|lia..].
Qed.

Lemma filling_range w dst b l : filling w dst b l -> zlen l < 1073741824.
Proof.
  intros [Hm _ _ Hd]. destruct l as [|x l]; [simpl; lia|].
  destruct (mapped_bytes _ _ _ (Nat2Z.is_nonneg _) Hd) as (l' & Hl' & Hb).
  apply mem_ok_range in Hb; [lia|done|]. by destruct l'.
Qed.

(** Words: a store of four equal bytes. *)
Lemma wp_fill_word {A} n dst b l (c : C A) w (Q : A -> world -> Prop) :
  filling w dst b l -> 4 <= zlen l ->
  (forall l1 l2, l = l1 ++ l2 -> zlen l1 = 4 ->
     filling (written dst l1 w) (dst + 4) b l2 -> wp n c (written dst l1 w) Q) ->
  wp n (store32 dst (le32 b b b b) ;; c) w Q.
Proof.
  intros Hf Hlen HQ. destruct l as [|x [|y [|z [|t l]]]]; try (simpl in Hlen; lia).
  assert (Hf' := filling_step _ _ _ [x; y; z; t] l Hf).
  destruct Hf as [Hm Hb Ha Hd]. rewrite !Forall_cons in Ha.
  destruct Ha as (<- & <- & <- & <- & _). wp_step.
  apply wp_store32; [eapply mapped_sub; [done|lia|simpl; lia]|done..|].
  by apply (HQ [b; b; b; b] l).
Qed.

(** The byte loop. *)
Lemma wp_fill_bytes n k dst c l w (Q : unit -> world -> Prop) :
  filling w dst (u8 c) l -> (length l < k)%nat -> Q tt (written dst l w) ->
  wp n (loop_k k (fun '(s, n) =>
    let n' := u32 (n - 1) in
    if n =? 0 then brk tt else
    store8 s c ;; next (s + 1, n')) (dst, zlen l)) w Q.
Proof.
  revert k dst w. induction l as [|b l IH]; intros [|k] dst w Hf Hk HQ;
    simpl in Hk; try lia; wp_loop; wp_if; wp_steps.
  - by rewrite written_nil in HQ.
  - assert (Hlen := filling_range _ _ _ _ Hf).
    assert (Hf' := filling_step _ _ _ [b] l Hf).
    destruct Hf as [Hm Hb Ha Hd]. apply Forall_cons in Ha as [<- Ha].
    apply wp_store8; [apply Hd; simpl; lia|]. wp_steps.
    rewrite u32_pred_len by lia. apply IH; [exact Hf'|lia|].
    by rewrite <-(written_app dst [u8 c] l) in HQ.
Qed.

(** The byte steps up to alignment. *)
Lemma wp_fill_align n k m dst c l w (Q : flow (Z * Z) Z -> world -> Prop) :
  filling w dst (u8 c) l -> (length l < k)%nat ->
  Q (Return m) (written dst l w) ->
  (forall l1 l2, l = l1 ++ l2 -> Q (Fall (dst + zlen l1, zlen l2)) (written dst l1 w)) ->
  wp n (loop_k k (fun '(s, n) =>
    if UNALIGNED s then
      let n' := u32 (n - 1) in
      if negb (n =? 0) then store8 s c ;; next (s + 1, n')
      else brk (Return m)
    else brk (Fall (s, n))) (dst, zlen l)) w Q.
Proof.
  revert k dst w. induction l as [|b l IH]; intros [|k] dst w Hf Hk HR HF;
    simpl in Hk; try lia; wp_loop; destruct (UNALIGNED dst).
  - wp_if. wp_steps. by rewrite written_nil in HR.
  - wp_steps. specialize (HF [] [] eq_refl). rewrite written_nil in HF.
    eqapply HF. do 2 f_equal. simpl; lia.
  - wp_if. assert (Hlen := filling_range _ _ _ _ Hf).
    assert (Hf' := filling_step _ _ _ [b] l Hf).
    destruct Hf as [Hm Hb Ha Hd]. apply Forall_cons in Ha as [<- Ha]. wp_steps.
    apply wp_store8; [apply Hd; simpl; lia|]. wp_steps.
    rewrite u32_pred_len by lia. apply IH; [exact Hf'|lia|..].
    + by rewrite <-(written_app dst [u8 c] l) in HR.
    + intros l1 l2 ->. specialize (HF (u8 c :: l1) l2 eq_refl).
      rewrite <-(written_app dst [u8 c] l1) in HF. eqapply HF.
      do 2 f_equal. simpl; lia.
  - wp_steps. specialize (HF [] (b :: l) eq_refl). rewrite written_nil in HF.
    eqapply HF. do 2 f_equal. simpl; lia.
Qed.

Lemma wp_fill_words n k dst b l w (Q : Z * Z -> world -> Prop) :
  filling w dst b l -> (length l < k)%nat ->
  (forall l1 l2, l = l1 ++ l2 -> Q (dst + zlen l1, zlen l2) (written dst l1 w)) ->
  wp n (loop_k k (fun '(aligned_addr, n) =>
    if 4 <=? n then
      store32 aligned_addr (le32 b b b b) ;; next (aligned_addr + 4, u32 (n - 4))
    else brk (aligned_addr, n)) (dst, zlen l)) w Q.
Proof.
  revert dst l w. induction k as [|k IH]; intros dst l w Hf Hk HQ; [lia|].
  assert (Hlen := filling_range _ _ _ _ Hf). wp_loop. wp_if.
  - apply (wp_fill_word _ _ _ l); [done|blia|]. intros l1 l2 -> Hl1 Hf'. wp_steps.
    rewrite length_app in Hk, Hlen |- *. rewrite u32_small by blia.
    replace (Z.of_nat (length l1 + length l2) - 4) with (zlen l2) by lia.
    apply IH; [done|lia|]. intros l3 l4 ->.
    specialize (HQ (l1 ++ l3) l4 (app_assoc _ _ _)).
    rewrite <-written_app, length_app, Hl1 in HQ. eqapply HQ. f_equal; lia.
  - wp_steps. specialize (HQ [] l eq_refl). rewrite written_nil in HQ.
    eqapply HQ. f_equal; simpl; lia.
Qed.

Lemma wp_fill_blocks n k dst b l w (Q : Z * Z -> world -> Prop) :
  filling w dst b l -> (length l < k)%nat ->
  (forall l1 l2, l = l1 ++ l2 -> Q (dst + zlen l1, zlen l2) (written dst l1 w)) ->
  wp n (loop_k k (fun '(aligned_addr, n) =>
    if 16 <=? n then
      store32 aligned_addr (le32 b b b b) ;;
      store32 (aligned_addr + 4) (le32 b b b b) ;;
      store32 (aligned_addr + 8) (le32 b b b b) ;;
      store32 (aligned_addr + 12) (le32 b b b b) ;;
      next (aligned_addr + 16, u32 (n - 16))
    else brk (aligned_addr, n)) (dst, zlen l)) w Q.
Proof.
  revert dst l w. induction k as [|k IH]; intros dst l w Hf Hk HQ; [lia|].
  assert (Hlen := filling_range _ _ _ _ Hf). wp_loop. wp_if.
  - apply (wp_fill_word _ _ _ l); [done|blia|]. intros l1 r1 -> Hl1 Hf1.
    rewrite length_app in Hk, Hlen, E |- *.
    apply (wp_fill_word _ _ _ r1); [done|blia|]. intros l2 r2 -> Hl2 Hf2.
    rewrite length_app in Hk, Hlen, E |- *.
    replace (dst + 4 + 4) with (dst + 8) in * by lia.
    apply (wp_fill_word _ _ _ r2); [done|blia|]. intros l3 r3 -> Hl3 Hf3.
    rewrite length_app in Hk, Hlen, E |- *.
    replace (dst + 8 + 4) with (dst + 12) in * by lia.
    apply (wp_fill_word _ _ _ r3); [done|blia|]. intros l4 r4 -> Hl4 Hf4.
    rewrite length_app in Hk, Hlen, E |- *.
    replace (dst + 12 + 4) with (dst + 16) in * by lia. wp_steps.
    rewrite u32_small by blia.
    match goal with |- context [loop_k _ _ (_, ?x)] => replace x with (zlen r4) by lia end.
    apply IH; [done|lia|]. intros l5 l6 ->.
    assert (E' : written dst (l1 ++ l2 ++ l3 ++ l4 ++ l5) w =
      written (dst + 16) l5 (written (dst + 12) l4 (written (dst + 8) l3
        (written (dst + 4) l2 (written dst l1 w))))).
    { rewrite <-!written_app, Hl1, Hl2, Hl3, Hl4, <-!Z.add_assoc. done. }
    specialize (HQ (l1 ++ l2 ++ l3 ++ l4 ++ l5) l6).
    rewrite E', !length_app, <-!app_assoc in HQ. eqapply (HQ eq_refl). f_equal; lia.
  - wp_steps. specialize (HQ [] l eq_refl). rewrite written_nil in HQ.
    eqapply HQ. f_equal; simpl; lia.
Qed.

(** The replicated byte of memset.c. *)
Lemma memset_buffer c :
  let d := Z.land c 0xff in
  let buffer := Z.lor (u32 (Z.shiftl d 8)) d in
  Z.lor buffer (u32 (Z.shiftl buffer 16)) = le32 (u8 c) (u8 c) (u8 c) (u8 c).
Proof.
  cbv zeta. change 0xff with (Z.ones 8). rewrite Z.land_ones by lia.
  change (2 ^ 8) with 256. fold (u8 c). rewrite Z.lor_comm.
  apply mask_le32, u8_range.
Qed.

Lemma wp_memset n dst c k w (Q : Z -> world -> Prop) :
  mem_ok (w_mem w) -> mapped (w_mem w) dst (Z.of_nat k) -> (k < n)%nat -> 
  Q dst (written dst (replicate k (u8 c)) w) ->
  wp n (memset dst c (Z.of_nat k)) w Q.
Proof.
  intros Hm Hd Hk HQ. remember (replicate k (u8 c)) as l eqn:El.
  assert (Hl : length l = k) by (subst l; apply length_replicate).
  rewrite <-Hl in Hk, Hd |- *.
  assert (Hf : filling w dst (u8 c) l).
  { split; [done|apply u8_range| |done]. subst l. by apply Forall_replicate. }
  clear El Hl Hm Hd. unfold memset. wp_step.
  destruct PREFER_SIZE_OVER_SPEED; wp_steps.
  { apply wp_loop_k, wp_fill_bytes; [done..|]. by wp_steps. }
  apply wp_loop_k, wp_fill_align; [done..|]. intros l1 l2 ->.
  rewrite length_app in Hk. apply filling_step in Hf. wp_if; wp_steps.
  { apply wp_loop_k, wp_fill_bytes; [done|lia|]. wp_steps. by rewrite written_app. }
  rewrite memset_buffer.
  apply wp_loop_k. destruct n as [|n]; [lia|]. wp_loop.
  change (32 <? 4 * 8) with false. wp_steps.
  apply wp_loop_k, wp_fill_blocks; [done|lia|]. intros l3 l4 ->. wp_steps.
  rewrite length_app in Hk. apply filling_step in Hf.
  apply wp_loop_k, wp_fill_words; [done|lia|]. intros l5 l6 ->. wp_steps.
  rewrite length_app in Hk. apply filling_step in Hf.
  apply wp_loop_k, wp_fill_bytes; [done|lia|]. wp_steps.
  by rewrite !written_app.
Qed.

Lemma wp_bzero n dst k w (Q : unit -> world -> Prop) :
  mem_ok (w_mem w) -> mapped (w_mem w) dst (Z.of_nat k) -> (k < n)%nat ->
  Q tt (written dst (replicate k 0) w) ->
  wp n (bzero dst (Z.of_nat k)) w Q.
Proof.
  intros Hm Hd Hk HQ. unfold bzero. apply wp_loop_k.
  rewrite <-(length_replicate k 0) in Hd, Hk |- *.
  apply (wp_fill_bytes _ _ _ 0); [|done..].
  split; [done|done| |done]. by apply Forall_replicate.
Qed.

(** ** memccpy *)

(** The bytes memccpy copies: up to and including the first [c]. *)
Fixpoint through (c : Z) (l : list Z) : list Z :=
  match l with
  | [] => []
  | b :: l' => if b =? c then [b] else b :: through c l'
  end.

(** Its result: past the copy of [c], or null. *)
Definition through_end (dst c : Z) (l : list Z) : Z :=
  if existsb (Z.eqb c) l then dst + zlen (through c l) else 0.

Lemma through_app c l1 l2 :
  existsb (Z.eqb c) l1 = false -> through c (l1 ++ l2) = l1 ++ through c l2.
Proof.
  induction l1 as [|b l1 IH]; simpl; intros H; [done|].
  apply orb_false_iff in H as [Hb H]. rewrite Z.eqb_sym, Hb. by rewrite IH.
Qed.

Lemma through_end_app dst c l1 l2 :
  existsb (Z.eqb c) l1 = false ->
  through_end dst c (l1 ++ l2) = through_end (dst + zlen l1) c l2.
Proof.
  intros H. unfold through_end. rewrite existsb_app, H, through_app by done. simpl.
  rewrite length_app. destruct (existsb (Z.eqb c) l2); lia.
Qed.

Lemma through_length c l : (length (through c l) <= length l)%nat.
Proof. induction l as [|b l IH]; simpl; [done|]. destruct (b =? c); simpl; lia. Qed.

Section memccpy_bytes.
Context (wrap : Z -> Z).
Hypothesis wrap_small : forall z, 0 <= z < 1073741824 -> wrap z = z.

Lemma wp_memccpy_bytes n c dst src l w (Q : Z -> world -> Prop) :
  is_byte c -> copying w dst src l -> (length l < n)%nat ->
  Q (through_end dst c l) (written dst (through c l) w) ->
  wp n (memccpy_bytes wrap (s8 c) dst src (zlen l)) w Q.
Proof.
  intros Hcb Hc Hn HQ. unfold memccpy_bytes. apply wp_loop_k. revert Hn.
  generalize n at 1 3. intros k. revert k dst src w Hc HQ.
  induction l as [|b l IH]; intros [|k] dst src w Hc HQ Hk; simpl in Hk; try lia;
    wp_loop; wp_if.
  - wp_steps. by rewrite written_nil in HQ.
  - assert (Hlen := copying_range _ _ _ _ Hc).
    apply copying_head in Hc as (Hb & Hr & Hd & Hc).
    rewrite wrap_small by (simpl in *; lia).
    replace (zlen (b :: l) - 1) with (zlen l) by (simpl; lia).
    unfold through_end in HQ. simpl in HQ. rewrite (Z.eqb_sym c b) in HQ.
    wp_mem. apply wp_store8; [done|]. rewrite u8_s8, s8_eqb by done.
    destruct (b =? c) eqn:Ebc; simpl in HQ; wp_steps; [exact HQ|].
    apply IH; [done| |lia].
    rewrite <-(written_app dst [b] (through c l)) in HQ. eqapply HQ.
    unfold through_end. destruct (existsb (Z.eqb c) l); simpl; lia.
Qed.
End memccpy_bytes.

(** The mask [mask = (mask << 8) + endchar], four times: right when
    [endchar] is not negative. *)
Lemma wp_memccpy_mask n c w (Q : Z -> world -> Prop) :
  0 <= c < 128 -> (4 < n)%nat -> Q (le32 c c c c) w ->
  wp n (loop (fun '(mask, i) =>
    if i <? 4 then next (u32 (u32 (Z.shiftl mask 8) + c), i + 1)
    else brk mask) (0, 0)) w Q.
Proof.
  intros Hc Hn HQ. apply wp_loop_k.
  destruct n as [|[|[|[|[|n]]]]]; [lia..|]. set (N := S _) at 1.
  do 4 (wp_loop; lazymatch goal with |- context [?i <? 4] =>
    let v := eval vm_compute in (i <? 4) in change (i <? 4) with v end; wp_steps).
  wp_loop. change (0 + 1 + 1 + 1 + 1 <? 4) with false. wp_steps. eqapply HQ.
  assert (H := byte_enum (fun c => negb (c <? 128) || (le32 c c c c =?
    u32 (u32 (Z.shiftl (u32 (u32 (Z.shiftl (u32 (u32 (Z.shiftl (u32 (u32
      (Z.shiftl 0 8) + c)) 8) + c)) 8) + c)) 8) + c))) c eq_refl ltac:(lia)).
  apply orb_true_iff in H as [H|H]; blia.
Qed.

Lemma wp_memccpy_words n k c dst src l w (Q : Z * Z * Z -> world -> Prop) :
  is_byte c -> copying w dst src l -> (length l < k)%nat ->
  (forall l1 l2, l = l1 ++ l2 -> existsb (Z.eqb c) l1 = false ->
     Q (dst + zlen l1, src + zlen l1, zlen l2) (written dst l1 w)) ->
  wp n (loop_k k (fun '(aligned_dst, aligned_src, len) =>
    if 4 <=? u32 len then
      x ← load32 aligned_src;
      let buffer := Z.lxor x (le32 c c c c) in
      if negb (DETECTNULL buffer =? 0)
      then brk (aligned_dst, aligned_src, len) else
      copy32 aligned_dst aligned_src ;;
      next (aligned_dst + 4, aligned_src + 4, i32 (len - 4))
    else brk (aligned_dst, aligned_src, len)) (dst, src, zlen l)) w Q.
Proof.
  intros Hcb. revert dst src l w. induction k as [|k IH]; intros dst src l w Hc Hk HQ; [lia|].
  assert (Hlen := copying_range _ _ _ _ Hc).
  assert (Hstop : Q (dst, src, zlen l) w).
  { specialize (HQ [] l eq_refl eq_refl). rewrite written_nil in HQ.
    eqapply HQ. do 2 f_equal; simpl; lia. }
  wp_loop. rewrite u32_small by lia. wp_if; [|by wp_steps].
  destruct l as [|x [|y [|z [|t l]]]]; try (exfalso; blia).
  apply copying_word in Hc as (Hm & Hw & Hd & Hc).
  assert (Hr := mem_ok_bytes _ _ _ Hm Hw). rewrite !Forall_cons in Hr.
  destruct Hr as (?&?&?&?&_).
  wp_mem. change (DETECTNULL (Z.lxor (le32 x y z t) ?m)) with (DETECTCHAR (le32 x y z t) m).
  destruct (DETECTCHAR (le32 x y z t) (le32 c c c c) =? 0) eqn:E'; cbn [negb]; [|by wp_steps].
  apply Z.eqb_eq, DETECTCHAR_spec in E' as (Hx & Hy & Hz & Ht); [|done..].
  wp_step. eapply wp_copy32; [done..|]. wp_steps.
  rewrite i32_small by (simpl in *; lia).
  replace (zlen (x :: y :: z :: t :: l) - 4) with (zlen l) by (simpl; lia).
  apply IH; [done|simpl in Hk; lia|]. intros l1 l2 -> Hl1.
  specialize (HQ (x :: y :: z :: t :: l1) l2 eq_refl).
  rewrite <-(written_app dst [x; y; z; t] l1) in HQ.
  eqapply (HQ ltac:(simpl; rewrite Hl1; lia)). do 2 f_equal; simpl; lia.
Qed.

Lemma wp_memccpy n dst src c l w (Q : Z -> world -> Prop) :
  copying w dst src l -> PREFER_SIZE_OVER_SPEED = true \/ u8 c < 128 ->
  (length l < n)%nat -> (4 < n)%nat ->
  Q (through_end dst (u8 c) l) (written dst (through (u8 c) l) w) ->
  wp n (memccpy dst src c (zlen l)) w Q.
Proof.
  intros Hc Hcfg Hn Hn4 HQ. unfold memccpy. assert (Hlen := copying_range _ _ _ _ Hc).
  change 0xff with (Z.ones 8). rewrite Z.land_ones by lia.
  change (2 ^ 8) with 256. fold (u8 c). assert (Hb := u8_range c).
  rewrite i32_small by lia. destruct PREFER_SIZE_OVER_SPEED.
  { apply wp_memccpy_bytes; [|done..]. intros; apply u32_small; lia. }
  destruct Hcfg as [|Hcfg]; [done|]. wp_steps. wp_if; wp_steps.
  2: { apply wp_memccpy_bytes; [|done..]. intros; apply i32_small; lia. }
  assert (Es : s8 (u8 c) = u8 c) by (unfold s8; lia). rewrite Es.
  apply wp_memccpy_mask; [lia|done|].
  apply wp_loop_k, wp_memccpy_words; [done..|]. intros l1 l2 -> Hl1.
  rewrite length_app in Hn. apply copying_step in Hc.
  assert (Hi : forall z, 0 <= z < 1073741824 -> i32 z = z) by (intros; apply i32_small; lia).
  assert (Hbytes := wp_memccpy_bytes i32 Hi n (u8 c)). rewrite Es in Hbytes.
  apply Hbytes; [done..|lia|].
  by rewrite written_app, <-through_app, <-through_end_app.
Qed.

(** ** swab *)

Fixpoint swapped (l : list Z) : list Z :=
  match l with
  | x :: y :: l' => y :: x :: swapped l'
  | [_] => [0]
  | [] => []
  end.

Lemma wp_swab_loop n k p q o l w (Q : Z -> world -> Prop) :
  (length l < k)%nat -> 0 <= o -> o + zlen l < 1073741824 ->
  copying w (q + o) (p + o) l ->
  (forall l1 l2, l = l1 ++ l2 -> (length l2 < 2)%nat -> swapped l = swapped l1 ++ swapped l2 ->
    length (swapped l1) = length l1 ->
    Q (o + zlen l1 + 1) (written (q + o) (swapped l1) w)) ->
  wp n (loop_k k (fun ptr =>
    if ptr <? o + zlen l then
      x ← load8s (p + ptr);
      y ← load8s (p + (ptr - 1));
      store8 (q + (ptr - 1)) x ;;
      store8 (q + ptr) y ;;
      next (i32 (ptr + 2))
    else brk ptr) (o + 1)) w Q.
Proof.
  revert k o l w. induction k as [|k IH]; intros o l w Hk Ho Hlen Hc HQ; [lia|].
  wp_loop. wp_if.
  - destruct l as [|x [|y l]]; try (exfalso; blia).
    assert (Hs := copying_store _ _ _ [x; y] [y; x] l Hc eq_refl).
    destruct Hc as [Hm (Hx & Hy & _) Hd _].
    assert (is_byte x /\ is_byte y) as [Hbx Hby].
    { split; [apply (mem_ok_cell _ _ _ Hm Hx)|apply (mem_ok_cell _ _ _ Hm Hy)]. }
    rewrite <-Z.add_assoc in Hy.
    specialize (Hs ltac:(by rewrite !Forall_cons)).
    replace (o + 1 - 1) with o by lia.
    wp_mem. apply wp_store8; [apply Hd; simpl; lia|]. wp_mem.
    apply wp_store8; [apply insert_is_Some, Hd; simpl; lia|]. wp_steps.
    rewrite i32_small by (simpl in *; lia). rewrite !u8_s8 by done.
    replace (o + 1 + 2) with (o + 2 + 1) by lia.
    replace (o + zlen (x :: y :: l)) with (o + 2 + zlen l) in * by (simpl; lia).
    unfold written in Hs. simpl in Hs. rewrite <-!Z.add_assoc in Hs.
    apply IH; [simpl in Hk; lia|lia..|exact Hs|].
    intros l1 l2 -> Hl2 Hsw Hl1.
    specialize (HQ (x :: y :: l1) l2 eq_refl Hl2).
    specialize (HQ ltac:(simpl; by rewrite Hsw) ltac:(simpl; by rewrite Hl1)).
    simpl swapped in HQ. rewrite <-(written_app (q + o) [y; x] (swapped l1)) in HQ.
    eqapply HQ; [|simpl; lia]. unfold written. simpl store_bytes.
    replace (q + o + zlen [y; x]) with (q + (o + 2)) by (simpl; lia).
    by rewrite <-!Z.add_assoc.
  - wp_steps. specialize (HQ [] l eq_refl). rewrite written_nil in HQ.
    eqapply (HQ ltac:(blia) eq_refl eq_refl). simpl; lia.
Qed.

(** swab exchanges the bytes of each pair; a last odd byte becomes null. *)
Lemma wp_swab n src dst l w (Q : unit -> world -> Prop) :
  copying w dst src l -> (length l < n)%nat ->
  Q tt (written dst (swapped l) w) -> wp n (swab src dst (zlen l)) w Q.
Proof.
  intros Hc Hn HQ. assert (Hlen := copying_range _ _ _ _ Hc).
  unfold swab. wp_step. apply wp_loop_k.
  apply (wp_swab_loop n n src dst 0 l); [done|lia..| |].
  { by rewrite !Z.add_0_r. }
  intros l1 l2 -> Hl2 Hsw Hl1. rewrite Hsw in HQ. rewrite !length_app, Z.add_0_r.
  destruct l2 as [|b [|]]; simpl in Hl2; try lia; wp_if.
  - wp_steps. by rewrite app_nil_r in HQ.
  - assert (Hd := copying_dst _ _ _ _ Hc).
    replace (dst + (0 + zlen l1 + 1 - 1)) with (dst + zlen l1) by lia.
    apply wp_store8.
    { apply (mapped_store _ _ _ _ _ Hd). rewrite length_app. simpl; lia. }
    rewrite <-written_app, Hl1 in HQ. exact HQ.
Qed.
End correctness.
