(* ===== verification/StrCopy.v ===== *)
(** * Copying strings: string/strcpy.c and its relatives

    strcpy, stpcpy, strncpy, stpncpy, strcat, strncat, strlcpy, strlcat and
    strxfrm. *)

From S2P Require Import Prelude CMonad Words Memory StrScan MemCopy.

Section code.
Context `{build}.

(** The word loop strcpy.c and stpcpy.c share:
    [while (!DETECTNULL( *aligned_src)) *aligned_dst++ = *aligned_src++;] *)
Definition strcpy_words (dst src : Z) : C (Z * Z) :=
  loop (fun '(aligned_dst, aligned_src) =>
    x ← load32 aligned_src;
    if DETECTNULL x =? 0 then
      copy32 aligned_dst aligned_src ;; next (aligned_dst + 4, aligned_src + 4)
    else brk (aligned_dst, aligned_src)) (dst, src).

(** [while ( *dst++ = *src++);], leaving [dst] past the null. *)
Definition strcpy_bytes (dst src : Z) : C Z :=
  loop (fun '(dst, src) =>
    c ← load8s src;
    store8 dst c ;;
    if c =? 0 then brk (dst + 1) else next (dst + 1, src + 1)) (dst, src).

(** string/strcpy.c *)
Definition strcpy (dst0 src0 : Z) : C Z :=
  if PREFER_SIZE_OVER_SPEED then strcpy_bytes dst0 src0 ;; mret dst0
  else
    '(dst, src) ←
      (if negb (UNALIGNED2 src0 dst0) then strcpy_words dst0 src0
       else mret (dst0, src0));
    strcpy_bytes dst src ;; mret dst0.

(** string/stpcpy.c *)
Definition stpcpy (dst src : Z) : C Z :=
  '(dst, src) ←
    (if PREFER_SIZE_OVER_SPEED then mret (dst, src) else
     if negb (UNALIGNED2 src dst) then strcpy_words dst src
     else mret (dst, src));
  dst ← strcpy_bytes dst src;
  mret (dst - 1).

(** The word loop of strncpy.c and stpncpy.c. *)
Definition strncpy_words (dst src count : Z) : C (Z * Z * Z) :=
  loop (fun '(aligned_dst, aligned_src, count) =>
    if 4 <=? count then
      x ← load32 aligned_src;
      if DETECTNULL x =? 0 then
        let count := u32 (count - 4) in
        copy32 aligned_dst aligned_src ;;
        next (aligned_dst + 4, aligned_src + 4, count)
      else brk (aligned_dst, aligned_src, count)
    else brk (aligned_dst, aligned_src, count)) (dst, src, count).

(** The copying loop of strncpy.c and stpncpy.c; [ret] is the address of the
    null copied, if any (the [ret] of stpncpy). *)
Definition strncpy_bytes (dst src count : Z) : C (Z * Z * Z) :=
  loop (fun '(dst, src, count) =>
    if 0 <? count then
      let count := u32 (count - 1) in
      c ← load8s src;
      store8 dst c ;;
      if c =? 0 then brk (dst + 1, count, dst + 1 - 1)
      else next (dst + 1, src + 1, count)
    else brk (dst, count, 0)) (dst, src, count).

(** [while (count-- > 0) *dst++ = '\0';] *)
Definition pad_nulls (dst count : Z) : C Z :=
  loop (fun '(dst, count) =>
    let count' := u32 (count - 1) in
    if 0 <? count then store8 dst 0 ;; next (dst + 1, count')
    else brk dst) (dst, count).

(** string/strncpy.c *)
Definition strncpy (dst0 src0 count : Z) : C Z :=
  '(dst, src, count) ←
    (if PREFER_SIZE_OVER_SPEED then mret (dst0, src0, count) else
     if negb (UNALIGNED2 src0 dst0) && negb (count <? 4)
     then strncpy_words dst0 src0 count else mret (dst0, src0, count));
  '(dst, count, _) ← strncpy_bytes dst src count;
  pad_nulls dst count ;;
  mret dst0.

(** string/stpncpy.c *)
Definition stpncpy (dst src count : Z) : C Z :=
  '(dst, src, count) ←
    (if PREFER_SIZE_OVER_SPEED then mret (dst, src, count) else
     if negb (UNALIGNED2 src dst) && negb (count <? 4)
     then strncpy_words dst src count else mret (dst, src, count));
  '(dst, count, ret) ← strncpy_bytes dst src count;
  dst ← pad_nulls dst count;
  mret (if negb (ret =? 0) then ret else dst).

(** The scan to the end of [s1] in strcat.c and strncat.c. *)
Definition strcat_end (s1 : Z) : C Z :=
  s1 ← (if PREFER_SIZE_OVER_SPEED then mret s1 else
    if Z.land s1 3 =? 0 then
      loop (fun aligned_s1 =>
        x ← load32 aligned_s1;
        if DETECTNULL x =? 0 then next (aligned_s1 + 4)
        else brk aligned_s1) s1
    else mret s1);
  loop (fun s1 =>
    c ← load8s s1; if c =? 0 then brk s1 else next (s1 + 1)) s1.

(** string/strcat.c *)
Definition strcat (s1 s2 : Z) : C Z :=
  let s := s1 in
  s1 ← strcat_end s1;
  (if PREFER_SIZE_OVER_SPEED then strcpy_bytes s1 s2 else strcpy s1 s2) ;;
  mret s.

(** string/strncat.c *)
Definition strncat (s1 s2 n : Z) : C Z :=
  let s := s1 in
  s1 ← strcat_end s1;
  loop (fun '(s1, s2, n) =>
    let n' := u32 (n - 1) in
    if negb (n =? 0) then
      c ← load8s s2;
      store8 s1 c ;;
      if negb (c =? 0) then
        (if n' =? 0 then store8 (s1 + 1) 0 else mret tt) ;;
        next (s1 + 1, s2 + 1, n')
      else brk tt
    else brk tt) (s1, s2, n) ;;
  mret s.

(** string/strlcpy.c *)
Definition strlcpy (dst src siz : Z) : C Z :=
  '(d, s, n) ←
    (if negb (siz =? 0) && negb (u32 (siz - 1) =? 0) then
      loop (fun '(d, s, n) =>
        c ← load8s s;
        store8 d c ;;
        if c =? 0 then brk (d + 1, s + 1, n) else
        let n := u32 (n - 1) in
        if negb (n =? 0) then next (d + 1, s + 1, n)
        else brk (d + 1, s + 1, n)) (dst, src, u32 (siz - 1))
    else mret (dst, src, if negb (siz =? 0) then u32 (siz - 1) else siz));
  s ← (if n =? 0 then
      (if negb (siz =? 0) then store8 d 0 else mret tt) ;;
      loop (fun s =>
        c ← load8s s;
        if c =? 0 then brk (s + 1) else next (s + 1)) s
    else mret s);
  mret (u32 (s - src - 1)).

(** string/strlcat.c *)
Definition strlcat (dst src siz : Z) : C Z :=
  d ← loop (fun '(d, n) =>
    let n' := u32 (n - 1) in
    if negb (n =? 0) then
      c ← load8s d;
      if negb (c =? 0) then next (d + 1, n') else brk d
    else brk d) (dst, siz);
  let dlen := u32 (d - dst) in
  let n := u32 (siz - dlen) in
  if n =? 0 then
    l ← strlen src; mret (u32 (dlen + l))
  else
    '(d, s) ← loop (fun '(d, s, n) =>
      c ← load8s s;
      if negb (c =? 0) then
        if negb (n =? 1) then
          c ← load8s s;
          store8 d c ;; next (d + 1, s + 1, u32 (n - 1))
        else next (d, s + 1, n)
      else brk (d, s)) (d, src, n);
    store8 d 0 ;;
    mret (u32 (dlen + u32 (s - src))).

(** string/strxfrm.c *)
Definition strxfrm (s1 s2 n : Z) : C Z :=
  '(s2, res) ⇐ loop (fun '(s1, s2, n, res) =>
    let n' := u32 (n - 1) in
    if 0 <? n then
      c ← load8s s2;
      store8 s1 c ;;
      if negb (c =? 0) then next (s1 + 1, s2 + 1, n', u32 (res + 1))
      else brk (Return res)
    else brk (Fall (s2, res))) (s1, s2, n, 0);
  loop (fun '(s2, res) =>
    c ← load8s s2;
    if negb (c =? 0) then next (s2 + 1, u32 (res + 1)) else brk res) (s2, res).

End code.

Section correctness.
Context {cfg : build}.
Implicit Types (n k : nat) (w : world) (p dst src : Z) (s l : list Z).

(** ** strcpy and stpcpy *)

(** The string [s] at [src] may be copied to [dst], null included. *)
Record scopying (w : world) (dst src : Z) (s : list Z) : Prop := {
  scopying_copy : copying w dst src (s ++ [0]);
  scopying_nonnull : Forall (fun b => 0 < b < 256) s;
}.

Lemma scopying_cstr w dst src s : scopying w dst src s -> cstr (w_mem w) src s.
Proof. intros [[] ?]. by split. Qed.

Lemma scopying_step w dst src s1 s2 :
  scopying w dst src (s1 ++ s2) ->
  scopying (written dst s1 w) (dst + zlen s1) (src + zlen s1) s2.
Proof.
  intros [Hc Hn]. apply Forall_app in Hn as [_ Hn]. split; [|done].
  apply copying_step. by rewrite app_assoc.
Qed.

Lemma wp_strcpy_bytes n dst src s w (Q : Z -> world -> Prop) :
  scopying w dst src s -> (length s < n)%nat ->
  Q (dst + zlen s + 1) (written dst (s ++ [0]) w) ->
  wp n (strcpy_bytes dst src) w Q.
Proof.
  intros Hc Hn HQ. apply wp_loop_k. revert Hn. generalize n at 1 3. intros k.
  revert k dst src w Hc HQ.
  induction s as [|b s IH]; intros [|k] dst src w Hc HQ Hk; simpl in Hk; try lia; wp_loop.
  - apply scopying_copy, copying_head in Hc as (Hb & Hr & Hd & _).
    wp_mem. apply wp_store8; [done|]. rewrite u8_s8, s8_eqb0 by done. wp_if. wp_steps.
    eqapply HQ. simpl; lia.
  - assert (Hs := scopying_step _ _ _ [b] s Hc). destruct Hc as [Hc Hn'].
    apply Forall_cons in Hn' as [Hb0 _].
    apply copying_head in Hc as (Hb & Hr & Hd & _).
    wp_mem. apply wp_store8; [done|]. rewrite u8_s8, s8_eqb0 by done. wp_if. wp_steps.
    apply IH; [exact Hs| |lia].
    rewrite <-(written_app dst [b] (s ++ [0])) in HQ. eqapply HQ. simpl; lia.
Qed.

(** The words copied are in the string: a split of it. *)
Lemma wp_strcpy_words n dst src s w (Q : Z * Z -> world -> Prop) :
  scopying w dst src s -> dst mod 4 = 0 -> src mod 4 = 0 -> (length s < n)%nat ->
  (forall s1 s2, s = s1 ++ s2 -> Q (dst + zlen s1, src + zlen s1) (written dst s1 w)) ->
  wp n (strcpy_words dst src) w Q.
Proof.
  intros Hc Hd4 Hs4 Hn HQ. apply wp_loop_k. revert Hn. generalize n at 1 3. intros k.
  revert dst src s w Hc Hd4 Hs4 HQ.
  induction k as [|k IH]; intros dst src s w Hc Hd4 Hs4 HQ Hk; [lia|]. wp_loop.
  assert (Hm := copying_ok _ _ _ _ (scopying_copy _ _ _ _ Hc)).
  destruct (cstr_word _ _ _ Hm (scopying_cstr _ _ _ _ Hc) Hs4)
    as (a & b & c & d & Hw & Ha & Hb & Hcc & Hd & Hcase).
  wp_mem. destruct Hcase as [[-> (s' & -> & Hs')]|[E Hlen]].
  - wp_if. assert (Hs := scopying_step _ _ _ [a; b; c; d] s' Hc). wp_step.
    apply scopying_copy, copying_word in Hc as (_ & _ & Hd' & _).
    eapply wp_copy32; [done..|]. wp_steps.
    apply (IH _ _ s'); [exact Hs|lia..| |simpl in Hk; lia].
    intros s1 s2 ->. specialize (HQ (a :: b :: c :: d :: s1) s2 eq_refl).
    rewrite <-(written_app dst [a; b; c; d] s1) in HQ. eqapply HQ. simpl; flia.
  - wp_if. wp_steps. specialize (HQ [] s eq_refl). rewrite written_nil in HQ.
    eqapply HQ. simpl; flia.
Qed.

(** The optional word loop, and what is left for the byte loop. *)
Lemma wp_strcpy_fast n dst src s w (Q : Z * Z -> world -> Prop) (fast : bool) :
  scopying w dst src s -> (length s < n)%nat ->
  (fast = true -> dst mod 4 = 0 /\ src mod 4 = 0) ->
  (forall s1 s2, s = s1 ++ s2 -> scopying (written dst s1 w) (dst + zlen s1) (src + zlen s1) s2 ->
    (length s2 < n)%nat -> Q (dst + zlen s1, src + zlen s1) (written dst s1 w)) ->
  wp n (if fast then strcpy_words dst src else mret (dst, src)) w Q.
Proof.
  intros Hc Hn Hf HQ. destruct fast; wp_steps.
  - destruct Hf as [? ?]; [done|]. eapply wp_strcpy_words; [done..|].
    intros s1 s2 ->. rewrite length_app in Hn. apply scopying_step in Hc.
    eapply HQ; [done..|lia].
  - specialize (HQ [] s eq_refl). rewrite written_nil in HQ. simpl in HQ.
    rewrite !Z.add_0_r in HQ. auto.
Qed.

Lemma wp_strcpy n dst src s w (Q : Z -> world -> Prop) :
  scopying w dst src s -> (length s < n)%nat ->
  Q dst (written dst (s ++ [0]) w) -> wp n (strcpy dst src) w Q.
Proof.
  intros Hc Hn HQ. unfold strcpy. destruct PREFER_SIZE_OVER_SPEED; wp_steps.
  - eapply wp_strcpy_bytes; [done..|]. by wp_steps.
  - eapply wp_strcpy_fast; [done..| |].
    { intros E. apply negb_true_iff, UNALIGNED2_spec in E. tauto. }
    intros s1 s2 -> Hc' Hn'. wp_steps. eapply wp_strcpy_bytes; [done..|]. wp_steps.
    by rewrite written_app, app_assoc.
Qed.

Lemma wp_stpcpy n dst src s w (Q : Z -> world -> Prop) :
  scopying w dst src s -> (length s < n)%nat ->
  Q (dst + zlen s) (written dst (s ++ [0]) w) -> wp n (stpcpy dst src) w Q.
Proof.
  intros Hc Hn HQ. unfold stpcpy. wp_steps. destruct PREFER_SIZE_OVER_SPEED; wp_steps.
  - eapply wp_strcpy_bytes; [done..|]. wp_steps. eqapply HQ. lia.
  - eapply wp_strcpy_fast; [done..| |].
    { intros E. apply negb_true_iff, UNALIGNED2_spec in E. tauto. }
    intros s1 s2 -> Hc' Hn'. wp_steps. eapply wp_strcpy_bytes; [done..|]. wp_steps.
    rewrite written_app, app_assoc. eqapply HQ. rewrite length_app; lia.
Qed.

(** ** strcat *)

Lemma wp_strcat_end n p s w (Q : Z -> world -> Prop) :
  mem_ok (w_mem w) -> cstr (w_mem w) p s -> (length s < n)%nat ->
  Q (p + zlen s) w -> wp n (strcat_end p) w Q.
Proof.
  intros Hm Hs Hn HQ. unfold strcat_end. wp_steps.
  destruct PREFER_SIZE_OVER_SPEED; [|rewrite land_3; wp_if]; wp_steps.
  1, 3: by apply wp_loop_k, (wp_scan_null _ _ _ _ s); [apply load8s_reads_char|..].
  b2p. apply wp_loop_k, (wp_scan_word _ _ _ s); [done..|]. intros p' s' (Hs' & Hl & Hp).
  apply wp_loop_k, (wp_scan_null _ _ _ _ s'); [apply load8s_reads_char|done|lia|].
  by eqapply HQ.
Qed.

Lemma wp_strcat n (s1 s2 : Z) d s w (Q : Z -> world -> Prop) :
  cstr (w_mem w) s1 d -> scopying w (s1 + zlen d) s2 s ->
  (length d < n)%nat -> (length s < n)%nat ->
  Q s1 (written (s1 + zlen d) (s ++ [0]) w) -> wp n (strcat s1 s2) w Q.
Proof.
  intros Hd Hc Hnd Hn HQ. unfold strcat. wp_steps.
  eapply wp_strcat_end; [by destruct Hc as [[]]|done..|].
  destruct PREFER_SIZE_OVER_SPEED; wp_steps.
  - eapply wp_strcpy_bytes; [done..|]. by wp_steps.
  - eapply wp_strcpy; [done..|]. by wp_steps.
Qed.

(** ** strncpy and stpncpy *)

(** [s] is what a copy of at most [k] characters reads at [src]: the whole
    string when it is shorter than [k], its first [k] characters if not. *)
Record ncopying (w : world) (dst src : Z) (s : list Z) (k : nat) : Prop := {
  ncopying_ok : mem_ok (w_mem w);
  ncopying_nonnull : Forall (fun b => 0 < b < 256) s;
  ncopying_len : (length s <= k)%nat;
  ncopying_src : bytes (w_mem w) src s;
  ncopying_end : (length s < k)%nat -> w_mem w !! (src + zlen s) = Some 0;
  ncopying_dst : mapped (w_mem w) dst (Z.of_nat k);
  ncopying_fwd : forward dst src (Z.min (zlen s + 1) (Z.of_nat k));
}.

Lemma ncopying_step w dst src s1 s2 k :
  ncopying w dst src (s1 ++ s2) k ->
  ncopying (written dst s1 w) (dst + zlen s1) (src + zlen s1) s2 (k - length s1).
Proof.
  intros [Hm Hn Hl Hs He Hd Hf]. rewrite length_app in *. apply Forall_app in Hn as [Hn1 Hn2].
  assert (Hs' := proj1 (bytes_app _ _ _ _) Hs). destruct Hs' as [Hs1 Hs2].
  unfold forward in *. split; simpl; [|done|lia|..].
  - apply mem_ok_store; [done|eapply mapped_sub; [done|lia..]|].
    by eapply mem_ok_bytes.
  - apply bytes_store_out; [done|]. unfold disjoint_ranges. lia.
  - intros Hlt. rewrite lookup_store_out by lia. rewrite <-He by lia. f_equal. lia.
  - apply mapped_store. eapply mapped_sub; [done|lia..].
  - unfold forward. lia.
Qed.

Lemma ncopying_range w dst src s k : ncopying w dst src s k -> Z.of_nat k < 1073741824.
Proof.
  intros [Hm _ _ _ _ Hd _]. destruct k as [|k]; [lia|].
  destruct (mapped_bytes _ _ _ (Nat2Z.is_nonneg _) Hd) as (l' & Hl' & Hb).
  apply mem_ok_range in Hb; [lia|done|]. by destruct l'.
Qed.

(** The character read next: a byte of [s], or the null. *)
Lemma ncopying_head w dst src s k :
  ncopying w dst src s (S k) ->
  is_Some (w_mem w !! dst) /\
  match s with
  | [] => w_mem w !! src = Some 0
  | b :: s' => w_mem w !! src = Some b /\ 0 < b < 256 /\
      ncopying (written dst [b] w) (dst + 1) (src + 1) s' k
  end.
Proof.
  intros Hc. split; [apply (ncopying_dst _ _ _ _ _ Hc); lia|]. destruct s as [|b s].
  - rewrite <-(ncopying_end _ _ _ _ _ Hc) by (simpl; lia). f_equal. simpl; lia.
  - assert (Hs := ncopying_step _ _ _ [b] s _ Hc). simpl in Hs. rewrite Nat.sub_0_r in Hs.
    destruct Hc as [_ Hn _ [Hb _] _ _ _]. apply Forall_cons in Hn as [? _]. done.
Qed.

Lemma wp_strncpy_bytes n dst src s k w (Q : Z * Z * Z -> world -> Prop) :
  ncopying w dst src s k -> (k < n)%nat ->
  ((length s < k)%nat ->
    Q (dst + zlen s + 1, Z.of_nat (k - length s - 1), dst + zlen s)
      (written dst (s ++ [0]) w)) ->
  (length s = k -> Q (dst + zlen s, 0, 0) (written dst s w)) ->
  wp n (strncpy_bytes dst src (Z.of_nat k)) w Q.
Proof.
  intros Hc Hn HQ1 HQ2. apply wp_loop_k. revert Hn. generalize n at 1 3. intros j.
  revert j dst src s w Hc HQ1 HQ2.
  induction k as [|k IH]; intros [|j] dst src s w Hc HQ1 HQ2 Hj; try lia; wp_loop; wp_if.
  - destruct s as [|b s]; [|apply ncopying_len in Hc; simpl in Hc; lia].
    wp_steps. eqapply (HQ2 eq_refl); [by rewrite written_nil|]. simpl; flia.
  - assert (Hk := ncopying_range _ _ _ _ _ Hc).
    apply ncopying_head in Hc as [Hd Hc]. rewrite u32_small by lia.
    replace (Z.of_nat (S k) - 1) with (Z.of_nat k) by lia. destruct s as [|b s].
    + wp_mem. apply wp_store8; [done|]. change (s8 0 =? 0) with true. wp_steps.
      eqapply (HQ1 ltac:(simpl; lia)). simpl; flia.
    + destruct Hc as (Hb & Hr & Hc). wp_mem. apply wp_store8; [done|].
      rewrite u8_s8, s8_eqb0 by lia. wp_if. wp_steps.
      eapply IH; [exact Hc|..|lia]; intros Hlen.
      * rewrite <-(written_app dst [b] (s ++ [0])) in HQ1.
        eqapply (HQ1 ltac:(simpl; lia)). simpl; flia.
      * rewrite <-(written_app dst [b] s) in HQ2.
        eqapply (HQ2 ltac:(simpl; lia)). simpl; flia.
Qed.

Lemma wp_pad_nulls n dst k w (Q : Z -> world -> Prop) :
  mapped (w_mem w) dst (Z.of_nat k) -> Z.of_nat k < 4294967296 -> (k < n)%nat ->
  Q (dst + Z.of_nat k) (written dst (replicate k 0) w) ->
  wp n (pad_nulls dst (Z.of_nat k)) w Q.
Proof.
  intros Hd Hr Hn HQ. apply wp_loop_k. revert Hn. generalize n at 1 3. intros j.
  revert j dst w Hd Hr HQ.
  induction k as [|k IH]; intros [|j] dst w Hd Hr HQ Hj; try lia; wp_loop; wp_if; wp_steps.
  - rewrite written_nil in HQ. eqapply HQ. lia.
  - apply wp_store8; [apply Hd; lia|]. wp_steps. rewrite u32_small by lia.
    replace (Z.of_nat (S k) - 1) with (Z.of_nat k) by lia.
    apply IH; [simpl; apply mapped_insert; eapply mapped_sub; [done|lia..]|lia| |lia].
    simpl replicate in HQ. rewrite <-(written_app dst [0] (replicate k 0)) in HQ.
    eqapply HQ. lia.
Qed.

(** A word without a null, when four characters may be read, is part of [s]. *)
Lemma ncopying_word w dst src s k a b c d :
  ncopying w dst src s k -> bytes (w_mem w) src [a; b; c; d] -> (4 <= k)%nat ->
  a <> 0 -> b <> 0 -> c <> 0 -> d <> 0 -> exists s', s = [a; b; c; d] ++ s'.
Proof.
  intros [_ _ _ Hs He _ _] Hw Hk Na Nb Nc Nd.
  destruct s as [|x [|y [|z [|t s']]]].
  5: { apply (bytes_app _ _ [x; y; z; t]) in Hs as [Hs _].
    assert (E := bytes_eq _ _ _ _ Hw Hs eq_refl). simplify_eq. by exists s'. }
  all: specialize (He ltac:(simpl; lia)); simpl length in He;
    first [ rewrite (bytes_lookup _ _ _ 0%nat a Hw eq_refl) in He
          | rewrite (bytes_lookup _ _ _ 1%nat b Hw eq_refl) in He
          | rewrite (bytes_lookup _ _ _ 2%nat c Hw eq_refl) in He
          | rewrite (bytes_lookup _ _ _ 3%nat d Hw eq_refl) in He ]; congruence.
Qed.

Lemma wp_strncpy_words n dst src s k w (Q : Z * Z * Z -> world -> Prop) :
  ncopying w dst src s k -> dst mod 4 = 0 -> src mod 4 = 0 -> (k < n)%nat ->
  (forall s1 s2, s = s1 ++ s2 ->
    Q (dst + zlen s1, src + zlen s1, Z.of_nat (k - length s1)) (written dst s1 w)) ->
  wp n (strncpy_words dst src (Z.of_nat k)) w Q.
Proof.
  intros Hc Hd4 Hs4 Hn HQ. apply wp_loop_k. revert Hn. generalize n at 1 3. intros j.
  revert dst src s k w Hc Hd4 Hs4 HQ.
  induction j as [|j IH]; intros dst src s k w Hc Hd4 Hs4 HQ Hj; [lia|]. wp_loop.
  assert (Hk := ncopying_range _ _ _ _ _ Hc).
  assert (Hstop : Q (dst, src, Z.of_nat k) w).
  { specialize (HQ [] s eq_refl). rewrite written_nil, Nat.sub_0_r in HQ.
    eqapply HQ. simpl; flia. }
  wp_if; [|by wp_steps].
  assert (Hx : is_Some (w_mem w !! src)).
  { destruct k as [|k]; [blia|]. apply ncopying_head in Hc as [_ Hc].
    destruct s; [|destruct Hc as [Hc _]]; by rewrite Hc. }
  assert (Hm := ncopying_ok _ _ _ _ _ Hc).
  destruct (mem_ok_word _ _ src Hm Hs4 ltac:(lia) Hx) as (a&b&c&d&Hw&Ha&Hb&Hcc&Hdd).
  wp_mem. wp_if; [|by wp_steps].
  apply Z.eqb_eq, DETECTNULL_spec in E0 as (Na & Nb & Nc & Nd); [|done..].
  destruct (ncopying_word _ _ _ _ _ _ _ _ _ Hc Hw) as [s' ->]; [blia|done..|]. wp_step.
  assert (Hd' := ncopying_dst _ _ _ _ _ Hc).
  eapply wp_copy32; [done..|eapply mapped_sub; [done|lia|blia]|]. wp_steps.
  apply ncopying_step in Hc. rewrite u32_small by blia.
  replace (Z.of_nat k - 4) with (Z.of_nat (k - 4)) by blia.
  eapply IH; [exact Hc|lia..| |simpl in *; blia].
  intros s1 s2 ->. specialize (HQ ([a; b; c; d] ++ s1) s2 (app_assoc _ _ _)).
  rewrite <-written_app in HQ. eqapply HQ. simpl. do 2 f_equal; lia.
Qed.
(** The optional word loop. *)
Lemma wp_strncpy_fast n dst src s k w (Q : Z * Z * Z -> world -> Prop) (fast : bool) :
  ncopying w dst src s k -> (k < n)%nat ->
  (fast = true -> dst mod 4 = 0 /\ src mod 4 = 0) ->
  (forall s1 s2, s = s1 ++ s2 ->
    ncopying (written dst s1 w) (dst + zlen s1) (src + zlen s1) s2 (k - length s1) ->
    Q (dst + zlen s1, src + zlen s1, Z.of_nat (k - length s1)) (written dst s1 w)) ->
  wp n (if fast then strncpy_words dst src (Z.of_nat k)
        else mret (dst, src, Z.of_nat k)) w Q.
Proof.
  intros Hc Hn Hf HQ. destruct fast; wp_steps.
  - destruct Hf as [? ?]; [done|]. eapply wp_strncpy_words; [done..|].
    intros s1 s2 ->. by eapply HQ, ncopying_step.
  - specialize (HQ [] s eq_refl). rewrite written_nil, Nat.sub_0_r in HQ. simpl in HQ.
    rewrite !Z.add_0_r in HQ. auto.
Qed.

(** The byte loop and the padding. *)
Lemma wp_strncpy_tail n dst src s k w (Q : Z -> Z -> world -> Prop) :
  ncopying w dst src s k -> (k < n)%nat ->
  Q (if decide (length s < k)%nat then dst + zlen s else 0) (dst + Z.of_nat k)
    (written dst (s ++ replicate (k - length s) 0) w) ->
  wp n (strncpy_bytes dst src (Z.of_nat k)) w (fun '(d, count, ret) w' =>
    wp n (pad_nulls d count) w' (Q ret)).
Proof.
  intros Hc Hn HQ. assert (Hk := ncopying_range _ _ _ _ _ Hc).
  assert (Hd := ncopying_dst _ _ _ _ _ Hc).
  eapply wp_strncpy_bytes; [done..| |]; intros Hl.
  - rewrite decide_True in HQ by done. apply wp_pad_nulls; [|lia..|].
    + apply mapped_store. eapply mapped_sub; [done|lia..].
    + replace (dst + zlen s + 1) with (dst + zlen (s ++ [0])) by (rewrite length_app; cbn [length]; lia).
      rewrite written_app, <-app_assoc.
      replace (k - length s)%nat with (S (k - length s - 1)) in HQ by lia.
      eqapply HQ. rewrite length_app; simpl; flia.
  - rewrite decide_False in HQ by lia.
    apply (wp_pad_nulls _ _ 0); [intros a Ha; lia|lia..|].
    rewrite Hl, Nat.sub_diag, app_nil_r in HQ. rewrite written_nil. eqapply HQ. flia.
Qed.

(** Both parts. *)
Lemma wp_strncpy_body n dst src s k w (Q : Z -> Z -> world -> Prop) :
  ncopying w dst src s k -> (k < n)%nat ->
  (forall ret, ret = (if decide (length s < k)%nat then dst + zlen s else 0) ->
   Q ret (dst + Z.of_nat k) (written dst (s ++ replicate (k - length s) 0) w)) ->
  wp n (if PREFER_SIZE_OVER_SPEED then mret (dst, src, Z.of_nat k) else
        if negb (UNALIGNED2 src dst) && negb (Z.of_nat k <? 4)
        then strncpy_words dst src (Z.of_nat k) else mret (dst, src, Z.of_nat k)) w
    (fun '(d, p, count) w' =>
      wp n (strncpy_bytes d p count) w' (fun '(d, count, ret) w' =>
        wp n (pad_nulls d count) w' (Q ret))).
Proof.
  intros Hc Hn HQ.
  set (fast := negb PREFER_SIZE_OVER_SPEED && negb (UNALIGNED2 src dst) &&
    negb (Z.of_nat k <? 4)).
  replace (if PREFER_SIZE_OVER_SPEED then _ else _) with
    (if fast then strncpy_words dst src (Z.of_nat k) else mret (dst, src, Z.of_nat k))
    by (unfold fast; by destruct PREFER_SIZE_OVER_SPEED).
  eapply wp_strncpy_fast; [done..| |].
  { unfold fast. intros [[_ E]%andb_true_iff _]%andb_true_iff.
    apply negb_true_iff, UNALIGNED2_spec in E. tauto. }
  intros s1 s2 -> Hc'.
  eapply wp_strncpy_tail; [done|lia|]. assert (Hl := ncopying_len _ _ _ _ _ Hc).
  rewrite length_app in *. rewrite written_app, app_assoc.
  replace (k - length s1 - length s2)%nat with (k - (length s1 + length s2))%nat by lia.
  replace (dst + zlen s1 + Z.of_nat (k - length s1)) with (dst + Z.of_nat k) by lia.
  apply HQ. do 2 case_decide; lia.
Qed.

Lemma wp_strncpy n dst src s k w (Q : Z -> world -> Prop) :
  ncopying w dst src s k -> (k < n)%nat ->
  Q dst (written dst (s ++ replicate (k - length s) 0) w) ->
  wp n (strncpy dst src (Z.of_nat k)) w Q.
Proof.
  intros Hc Hn HQ. unfold strncpy. wp_steps.
  eapply wp_mono; [by apply (wp_strncpy_body _ _ _ _ _ _ (fun _ _ => Q dst) Hc)|].
  intros [[d p] c] w' Ht. wp_steps. eapply wp_mono; [exact Ht|].
  intros [[d' p'] c'] w'' Ht'. wp_steps.
  eapply wp_mono; [exact Ht'|]. intros. by wp_steps.
Qed.

(** stpncpy returns the address of the first null written, or the end. *)
Lemma wp_stpncpy n dst src s k w (Q : Z -> world -> Prop) :
  ncopying w dst src s k -> (k < n)%nat ->
  Q (dst + zlen s) (written dst (s ++ replicate (k - length s) 0) w) ->
  wp n (stpncpy dst src (Z.of_nat k)) w Q.
Proof.
  intros Hc Hn HQ. unfold stpncpy. wp_steps.
  eapply wp_mono.
  { apply (wp_strncpy_body _ _ _ _ _ _
      (fun ret d => Q (if negb (ret =? 0) then ret else d)) Hc); [done|].
    intros ret ->. eqapply HQ. case_decide as Hl.
    - assert (Hd := ncopying_end _ _ _ _ _ Hc Hl).
      assert (0 < dst); [|by rewrite (proj2 (Z.eqb_neq _ _)) by lia].
      destruct (ncopying_dst _ _ _ _ _ Hc dst ltac:(lia)) as [x Hx].
      apply (mem_ok_cell _ _ _ (ncopying_ok _ _ _ _ _ Hc)) in Hx. lia.
    - apply ncopying_len in Hc. simpl. lia. }
  intros [[d p] c] w' Ht. wp_steps. eapply wp_mono; [exact Ht|].
  intros [[d' p'] c'] w'' Ht'. wp_steps.
  eapply wp_mono; [exact Ht'|]. intros. by wp_steps.
Qed.

(** ** strncat *)

(** [s] is what strncat appends: the first [k] characters at most. *)
Record acopying (w : world) (dst src : Z) (s : list Z) (k : nat) : Prop := {
  acopying_ok : mem_ok (w_mem w);
  acopying_nonnull : Forall (fun b => 0 < b < 256) s;
  acopying_len : (length s <= k)%nat;
  acopying_src : bytes (w_mem w) src s;
  acopying_end : (length s < k)%nat -> w_mem w !! (src + zlen s) = Some 0;
  acopying_dst : mapped (w_mem w) dst (zlen s + 1);
  acopying_fwd : forward dst src (zlen s + 1);
}.

Lemma acopying_step w dst src b s k :
  acopying w dst src (b :: s) (S k) ->
  w_mem w !! src = Some b /\ 0 < b < 256 /\ is_Some (w_mem w !! dst) /\
  is_Some (w_mem w !! (dst + 1)) /\
  acopying (written dst [b] w) (dst + 1) (src + 1) s k.
Proof.
  intros [Hm Hn Hl [Hb Hs] He Hd Hf]. simpl in Hl, Hd, Hf, He.
  apply Forall_cons in Hn as [Hr Hn]. unfold forward in *.
  split_and!; [done|lia..|apply Hd; lia|apply Hd; lia|]. split; simpl; [|done|lia|..].
  - apply mem_ok_insert; [done|apply Hd; lia|lia].
  - apply bytes_insert_out; [done|lia].
  - intros Hlt. rewrite lookup_insert_ne by lia. rewrite <-He by lia. f_equal. lia.
  - apply mapped_insert. eapply mapped_sub; [done|lia..].
  - unfold forward. lia.
Qed.

Lemma wp_strncat_loop n j dst src s k w (Q : unit -> world -> Prop) :
  acopying w dst src s (S k) -> Z.of_nat (S k) < 4294967296 -> (S (length s) < j)%nat ->
  Q tt (written dst (s ++ [0]) w) ->
  wp n (loop_k j (fun '(s1, s2, n) =>
    let n' := u32 (n - 1) in
    if negb (n =? 0) then
      c ← load8s s2;
      store8 s1 c ;;
      if negb (c =? 0) then
        (if n' =? 0 then store8 (s1 + 1) 0 else mret tt) ;;
        next (s1 + 1, s2 + 1, n')
      else brk tt
    else brk tt) (dst, src, Z.of_nat (S k))) w Q.
Proof.
  revert j dst src k w. induction s as [|b s IH]; intros [|j] dst src k w Hc Hk Hj HQ;
    simpl in Hj; try lia; wp_loop; wp_if.
  - assert (He := acopying_end _ _ _ _ _ Hc ltac:(simpl; lia)). simpl in He.
    rewrite Z.add_0_r in He. wp_mem. apply wp_store8.
    { apply (acopying_dst _ _ _ _ _ Hc). simpl; lia. }
    change (s8 0 =? 0) with true. by wp_steps.
  - apply acopying_step in Hc as (Hb & Hr & Hd & Hd' & Hc).
    wp_mem. apply wp_store8; [done|]. rewrite u8_s8, s8_eqb0 by lia. wp_if. wp_steps.
    rewrite u32_small by lia. replace (Z.of_nat (S k) - 1) with (Z.of_nat k) by lia.
    destruct k as [|k].
    + destruct s; [|apply acopying_len in Hc; simpl in Hc; lia].
      apply wp_store8; [by apply insert_is_Some|]. wp_steps.
      destruct j as [|j]; [lia|]. wp_loop. wp_steps. exact HQ.
    + wp_if. wp_steps. apply IH; [exact Hc|lia|lia|].
      by rewrite <-(written_app dst [b] (s ++ [0])) in HQ.
Qed.

Lemma wp_strncat n (s1 s2 : Z) d s k w (Q : Z -> world -> Prop) :
  cstr (w_mem w) s1 d -> acopying w (s1 + zlen d) s2 s k -> Z.of_nat k < 4294967296 ->
  (length d < n)%nat -> (S (length s) < n)%nat ->
  Q s1 (written (s1 + zlen d) (s ++ [0]) w) ->
  wp n (strncat s1 s2 (Z.of_nat k)) w Q.
Proof.
  intros Hd Hc Hk Hnd Hn HQ. unfold strncat. wp_steps.
  eapply wp_strcat_end; [by destruct Hc|done..|]. wp_steps. apply wp_loop_k.
  destruct k as [|k].
  - destruct n as [|n]; [lia|]. wp_loop. wp_steps.
    destruct s; [|apply acopying_len in Hc; simpl in Hc; lia].
    unfold written in HQ. rewrite store_bytes_id in HQ; [by rewrite set_mem_id in HQ|].
    split; [by apply cstr_end|done].
  - eapply wp_strncat_loop; [done..|]. by wp_steps.
Qed.

(** ** strlcpy, strlcat, strxfrm *)

(** The first [k] bytes of the string [s] at [src], null included, may be
    copied to [dst], away from the string. *)
Record lcopying (w : world) (dst src : Z) (s : list Z) (k : nat) : Prop := {
  lcopying_ok : mem_ok (w_mem w);
  lcopying_src : cstr (w_mem w) src s;
  lcopying_dst : mapped (w_mem w) dst (zlen (take k (s ++ [0])));
  lcopying_sep : disjoint_ranges dst (zlen (take k (s ++ [0]))) src (zlen s + 1);
}.

Lemma lcopying_step w dst src b s k :
  lcopying w dst src (b :: s) (S k) ->
  w_mem w !! src = Some b /\ 0 < b < 256 /\ is_Some (w_mem w !! dst) /\
  lcopying (written dst [b] w) (dst + 1) (src + 1) s k.
Proof.
  intros [Hm Hs Hd Hf]. apply cstr_cons in Hs as (Hb & Hr & Hs). simpl in Hd, Hf.
  unfold disjoint_ranges in *. split_and!; [done|lia..|apply Hd; lia|]. split; simpl.
  - apply mem_ok_insert; [done|apply Hd; lia|lia].
  - eapply cstr_frame; [done|]. intros a Ha. apply lookup_insert_ne. lia.
  - apply mapped_insert. eapply mapped_sub; [done|lia..].
  - unfold disjoint_ranges. lia.
Qed.

Lemma lcopying_null w dst src k :
  lcopying w dst src [] (S k) -> w_mem w !! src = Some 0 /\ is_Some (w_mem w !! dst).
Proof.
  intros [Hm Hs Hd Hf]. split; [by apply cstr_nil in Hs|]. apply Hd. simpl; lia.
Qed.

Lemma wp_strlcpy_loop n j dst src s k w (Q : Z * Z * Z -> world -> Prop) :
  lcopying w dst src s (S k) -> Z.of_nat (S k) < 4294967296 -> (length s < j)%nat ->
  (forall n' : Z, (length s < S k)%nat -> n' <> 0%Z ->
     Q (dst + zlen s + 1, src + zlen s + 1, n') (written dst (s ++ [0]) w)) ->
  (forall s1 s2, s = s1 ++ s2 -> length s1 = S k ->
     Q (dst + zlen s1, src + zlen s1, 0) (written dst s1 w)) ->
  wp n (loop_k j (fun '(d, s, n) =>
    c ← load8s s;
    store8 d c ;;
    if c =? 0 then brk (d + 1, s + 1, n) else
    let n := u32 (n - 1) in
    if negb (n =? 0) then next (d + 1, s + 1, n)
    else brk (d + 1, s + 1, n)) (dst, src, Z.of_nat (S k))) w Q.
Proof.
  revert j dst src k w. induction s as [|b s IH]; intros [|j] dst src k w Hc Hk Hj HQ1 HQ2;
    simpl in Hj; try lia; wp_loop.
  - apply lcopying_null in Hc as [Hb Hd]. wp_mem. apply wp_store8; [done|].
    change (s8 0 =? 0) with true. wp_steps.
    eqapply (HQ1 (Z.of_nat (S k)) ltac:(simpl; lia) ltac:(lia)). simpl; flia.
  - apply lcopying_step in Hc as (Hb & Hr & Hd & Hc).
    wp_mem. apply wp_store8; [done|]. rewrite u8_s8, s8_eqb0 by lia. wp_if.
    rewrite u32_small by lia. replace (Z.of_nat (S k) - 1) with (Z.of_nat k) by lia.
    destruct k as [|k]; wp_if; wp_steps.
    + specialize (HQ2 [b] s eq_refl eq_refl). eqapply HQ2. simpl; flia.
    + apply IH; [exact Hc|lia|lia|..].
      * intros n' ??. rewrite <-(written_app dst [b] (s ++ [0])) in HQ1.
        specialize (HQ1 n' ltac:(simpl; lia) ltac:(done)). eqapply HQ1. simpl; flia.
      * intros s1 s2 -> Hl. specialize (HQ2 (b :: s1) s2 eq_refl ltac:(simpl; lia)).
        rewrite <-(written_app dst [b] s1) in HQ2. eqapply HQ2. simpl; flia.
Qed.

(** The scan to the end of [src]. *)
Lemma wp_strlcpy_scan n p s w (Q : Z -> world -> Prop) :
  cstr (w_mem w) p s -> (length s < n)%nat -> Q (p + zlen s + 1) w ->
  wp n (loop (fun q =>
    c ← load8s q; if c =? 0 then brk (q + 1) else next (q + 1)) p) w Q.
Proof.
  intros Hs Hn HQ. apply wp_loop_k. revert Hn. generalize n at 1 3. intros j.
  revert j p Hs HQ.
  induction s as [|b s IH]; intros [|j] p Hs HQ Hj; simpl in *; try lia; wp_loop.
  - apply cstr_nil in Hs. wp_mem. change (s8 0 =? 0) with true. wp_steps.
    eqapply HQ. lia.
  - apply cstr_cons in Hs as (Hb & Hr & Hs). wp_mem. rewrite s8_eqb0 by lia. wp_if.
    wp_steps. apply IH; [done| |lia]. eqapply HQ. lia.
Qed.

Lemma lcopying_weaken w dst src s k j :
  (j <= k)%nat -> lcopying w dst src s k -> lcopying w dst src s j.
Proof.
  intros Hj [Hm Hs Hd Hf]. rewrite length_take in *.
  split; rewrite ?length_take; [done..|eapply mapped_sub; [done|lia..]|].
  unfold disjoint_ranges in *. lia.
Qed.

(** The string survives writes to the destination. *)
Lemma lcopying_frame w dst src s k l :
  lcopying w dst src s k -> zlen l <= zlen (take k (s ++ [0])) ->
  cstr (store_bytes dst l (w_mem w)) src s.
Proof.
  intros [Hm Hs Hd Hf] Hl. eapply cstr_frame; [exact Hs|]. intros a Ha.
  apply lookup_store_out. unfold disjoint_ranges in Hf. lia.
Qed.

Lemma lcopying_u32 w dst src s k :
  lcopying w dst src s k -> zlen s + 1 < 1073741824.
Proof.
  intros [Hm [Hs _] _ _]. apply mem_ok_range in Hs; [|done|by destruct s].
  rewrite length_app in Hs. simpl in Hs. lia.
Qed.

(** [s] is copied up to [siz - 1] characters, always terminated; the result
    is the length of [s]. *)
Lemma wp_strlcpy n dst src s siz w (Q : Z -> world -> Prop) :
  lcopying w dst src s siz -> Z.of_nat siz < 4294967296 -> (length s < n)%nat ->
  Q (zlen s)
    (written dst (match siz with O => [] | S k => take k s ++ [0] end) w) ->
  wp n (strlcpy dst src (Z.of_nat siz)) w Q.
Proof.
  intros Hc Hsz Hn HQ. assert (Hr := lcopying_u32 _ _ _ _ _ Hc). unfold strlcpy.
  assert (Hs := lcopying_src _ _ _ _ _ Hc). assert (Hd := lcopying_dst _ _ _ _ _ Hc).
  assert (Hres : u32 (src + zlen s + 1 - src - 1) = zlen s) by (rewrite u32_small; lia).
  destruct siz as [|[|k]].
  - change (Z.of_nat 0) with 0. change (0 =? 0) with true. cbn [negb andb]. wp_steps.
    change (0 =? 0) with true. wp_steps. eapply wp_strlcpy_scan; [done..|]. wp_steps. rewrite Hres.
    by rewrite written_nil in HQ.
  - change (Z.of_nat 1 =? 0) with false. change (u32 (Z.of_nat 1 - 1) =? 0) with true.
    cbn [negb andb]. wp_steps.
    change (u32 (Z.of_nat 1 - 1) =? 0) with true. wp_steps.
    apply wp_store8; [apply Hd; rewrite length_take, length_app; cbn [length]; lia|].
    eapply wp_strlcpy_scan; [|done|].
    { apply (lcopying_frame _ _ _ _ _ [0] Hc). rewrite length_take, length_app; cbn [length]; lia. }
    wp_steps. by rewrite Hres.
  - rewrite (proj2 (Z.eqb_neq (Z.of_nat (S (S k))) 0)) by lia.
    rewrite u32_small by lia. replace (Z.of_nat (S (S k)) - 1) with (Z.of_nat (S k)) by lia.
    rewrite (proj2 (Z.eqb_neq (Z.of_nat (S k)) 0)) by lia. cbn [negb andb]. wp_steps.
    apply wp_loop_k. eapply wp_strlcpy_loop; [|lia|done|..].
    { eapply lcopying_weaken; [|exact Hc]. lia. }
    + intros n' Hl Hn'. wp_steps. rewrite (proj2 (Z.eqb_neq n' 0)) by done. wp_steps.
      rewrite Hres. by rewrite take_ge in HQ by lia.
    + intros s1 s2 Es Hl. wp_steps. change (0 =? 0) with true. wp_steps. subst s.
      apply wp_store8.
      { apply (mapped_store _ _ _ _ _ Hd). rewrite length_take, !length_app; cbn [length]; lia. }
      eapply wp_strlcpy_scan.
      { assert (Hf := lcopying_frame _ _ _ _ _ (s1 ++ [0]) Hc).
        rewrite store_bytes_snoc in Hf.
        apply (cstr_drop _ _ _ (length s1)) in Hf.
        - by rewrite drop_app_length in Hf.
        - rewrite length_app; lia.
        - rewrite length_take, !length_app; cbn [length]; lia. }
      { rewrite length_app in Hn; lia. }
      wp_steps. rewrite <-Hl, take_app_length in HQ. unfold written in HQ.
      rewrite store_bytes_snoc in HQ. rewrite length_app in *.
      eqapply HQ. rewrite <-Hres. f_equal; lia.
Qed.

(** strlcat appends what fits in a buffer of [siz] bytes. *)
Lemma wp_strlcat_end n j p d k w (Q : Z -> world -> Prop) :
  bytes (w_mem w) p d -> Forall (fun b => 0 < b < 256) d -> (length d <= k)%nat ->
  ((length d < k)%nat -> w_mem w !! (p + zlen d) = Some 0) ->
  Z.of_nat k < 4294967296 -> (length d < j)%nat -> Q (p + zlen d) w ->
  wp n (loop_k j (fun '(d, n) =>
    let n' := u32 (n - 1) in
    if negb (n =? 0) then
      c ← load8s d;
      if negb (c =? 0) then next (d + 1, n') else brk d
    else brk d) (p, Z.of_nat k)) w Q.
Proof.
  revert j p k. induction d as [|b d IH]; intros [|j] p k Hb Hn Hl He Hk Hj HQ;
    simpl in Hj, Hl; try lia; wp_loop; wp_if.
  - simpl in He. rewrite Z.add_0_r in He.
    specialize (He ltac:(blia)). wp_mem. change (s8 0 =? 0) with true. wp_steps.
    eqapply HQ. simpl; lia.
  - wp_steps. eqapply HQ. simpl; lia.
  - destruct Hb as [Hb0 Hb]. apply Forall_cons in Hn as [Hr Hn].
    wp_mem. rewrite s8_eqb0 by lia. wp_if. wp_steps.
    rewrite u32_small by lia. replace (Z.of_nat k - 1) with (Z.of_nat (k - 1)) by lia.
    apply IH; [done..|lia| |lia|lia|].
    + intros Hlt. rewrite <-He by (simpl; lia). f_equal. simpl; lia.
    + eqapply HQ. simpl; lia.
Qed.

(** Once only the null fits, the loop runs to the end of [src]. *)
Lemma wp_strlcat_skip n j dst src s w (Q : Z * Z -> world -> Prop) :
  cstr (w_mem w) src s -> (length s < j)%nat -> Q (dst, src + zlen s) w ->
  wp n (loop_k j (fun '(d, s, n) =>
      c ← load8s s;
      if negb (c =? 0) then
        if negb (n =? 1) then
          c ← load8s s;
          store8 d c ;; next (d + 1, s + 1, u32 (n - 1))
        else next (d, s + 1, n)
      else brk (d, s)) (dst, src, 1)) w Q.
Proof.
  revert j src. induction s as [|b s IH]; intros [|j] src Hs Hj HQ;
    simpl in Hj; try lia; wp_loop.
  - apply cstr_nil in Hs. wp_mem. change (s8 0 =? 0) with true. wp_steps.
    eqapply HQ. simpl; flia.
  - apply cstr_cons in Hs as (Hb & Hr & Hs). wp_mem. rewrite s8_eqb0 by lia. wp_if.
    change (1 =? 1) with true. wp_steps. apply IH; [done|lia|]. eqapply HQ. simpl; flia.
Qed.

Lemma wp_strlcat_loop n j dst src s k w (Q : Z * Z -> world -> Prop) :
  lcopying w dst src s (S k) -> Z.of_nat (S k) < 4294967296 -> (length s < j)%nat ->
  Q (dst + zlen (take k s), src + zlen s) (written dst (take k s) w) ->
  wp n (loop_k j (fun '(d, s, n) =>
      c ← load8s s;
      if negb (c =? 0) then
        if negb (n =? 1) then
          c ← load8s s;
          store8 d c ;; next (d + 1, s + 1, u32 (n - 1))
        else next (d, s + 1, n)
      else brk (d, s)) (dst, src, Z.of_nat (S k))) w Q.
Proof.
  revert j dst src k w. induction s as [|b s IH]; intros j dst src [|k] w Hc Hk Hj HQ.
  1, 3: eapply wp_strlcat_skip; [by destruct Hc|done|];
    rewrite ?take_0, written_nil in HQ; eqapply HQ; simpl; flia.
  all: destruct j as [|j]; simpl in Hj; [lia|]; wp_loop.
  - apply lcopying_null in Hc as [Hb Hd]. wp_mem. change (s8 0 =? 0) with true. wp_steps.
    rewrite take_nil, written_nil in HQ. eqapply HQ. simpl; flia.
  - apply lcopying_step in Hc as (Hb & Hr & Hd & Hc).
    wp_mem. rewrite s8_eqb0 by lia. wp_if. wp_if. wp_mem. apply wp_store8; [done|].
    rewrite u8_s8 by lia. wp_steps. rewrite u32_small by lia.
    replace (Z.of_nat (S (S k)) - 1) with (Z.of_nat (S k)) by lia.
    apply IH; [exact Hc|lia|lia|].
    simpl take in HQ. rewrite <-(written_app dst [b] (take k s)) in HQ.
    eqapply HQ. simpl; flia.
Qed.

(** [d] is what [dst] holds: a string shorter than [siz], or [siz] bytes
    without a null, and then nothing is appended. *)
Lemma wp_strlcat n dst src d s siz w (Q : Z -> world -> Prop) :
  mem_ok (w_mem w) ->
  bytes (w_mem w) dst d -> Forall (fun b => 0 < b < 256) d -> (length d <= siz)%nat ->
  ((length d < siz)%nat -> w_mem w !! (dst + zlen d) = Some 0) ->
  lcopying w (dst + zlen d) src s (siz - length d) ->
  Z.of_nat siz < 1073741824 -> (length d < n)%nat -> (length s < n)%nat ->
  Q (zlen d + zlen s)
    (written (dst + zlen d)
      (match (siz - length d)%nat with O => [] | S k => take k s ++ [0] end) w) ->
  wp n (strlcat dst src (Z.of_nat siz)) w Q.
Proof.
  intros Hm Hb Hnn Hl He Hc Hsz Hnd Hn HQ. unfold strlcat. wp_steps.
  assert (Hr := lcopying_u32 _ _ _ _ _ Hc).
  apply wp_loop_k. eapply wp_strlcat_end; [done..|lia|done|].
  replace (dst + zlen d - dst) with (zlen d) by lia.
  rewrite (u32_small (zlen d)), u32_small by lia. wp_if.
  - wp_steps. replace (siz - length d)%nat with 0%nat in HQ by blia.
    eapply wp_strlen; [by destruct Hc..|done|]. wp_steps. rewrite u32_small by lia.
    by rewrite written_nil in HQ.
  - wp_steps. replace (Z.of_nat siz - zlen d) with (Z.of_nat (siz - length d)) by lia.
    destruct (siz - length d)%nat as [|k] eqn:Ek; [blia|].
    apply wp_loop_k. eapply wp_strlcat_loop; [done|lia|done|]. wp_steps.
    apply wp_store8.
    { apply (mapped_store _ _ _ _ _ (lcopying_dst _ _ _ _ _ Hc)).
      rewrite !length_take, length_app. cbn [length]; lia. }
    wp_steps. rewrite !u32_small by (rewrite ?u32_small; lia).
    unfold written in HQ. rewrite store_bytes_snoc in HQ. eqapply HQ. lia.
Qed.

(** strxfrm copies the null only when it fits. *)
Lemma wp_strxfrm_copy n j dst src s k res w (Q : flow (Z * Z) Z -> world -> Prop) :
  lcopying w dst src s k -> Z.of_nat k < 4294967296 -> 0 <= res ->
  res + zlen s < 4294967296 -> (length s < j)%nat ->
  ((length s < k)%nat -> Q (Return (res + zlen s)) (written dst (s ++ [0]) w)) ->
  (forall s1 s2, s = s1 ++ s2 -> length s1 = k ->
     Q (Fall (src + zlen s1, res + zlen s1)) (written dst s1 w)) ->
  wp n (loop_k j (fun '(s1, s2, n, res) =>
    let n' := u32 (n - 1) in
    if 0 <? n then
      c ← load8s s2;
      store8 s1 c ;;
      if negb (c =? 0) then next (s1 + 1, s2 + 1, n', u32 (res + 1))
      else brk (Return res)
    else brk (Fall (s2, res))) (dst, src, Z.of_nat k, res)) w Q.
Proof.
  revert j dst src k res w.
  induction s as [|b s IH]; intros [|j] dst src [|k] res w Hc Hk Hres0 Hres Hj HQ1 HQ2;
    simpl in Hj; try lia; wp_loop; wp_if.
  1, 3: wp_steps; specialize (HQ2 [] _ eq_refl eq_refl);
    rewrite written_nil in HQ2; eqapply HQ2; simpl; flia.
  - apply lcopying_null in Hc as [Hb Hd]. wp_mem. apply wp_store8; [done|].
    change (s8 0 =? 0) with true. wp_steps. eqapply (HQ1 ltac:(simpl; lia)). simpl; flia.
  - apply lcopying_step in Hc as (Hb & Hr & Hd & Hc).
    wp_mem. apply wp_store8; [done|]. rewrite u8_s8, s8_eqb0 by lia. wp_if. wp_steps.
    rewrite !u32_small by (simpl in *; lia).
    replace (Z.of_nat (S k) - 1) with (Z.of_nat k) by lia.
    apply IH; [exact Hc|lia|lia|simpl in *; lia|lia|..].
    + intros Hl. rewrite <-(written_app dst [b] (s ++ [0])) in HQ1.
      eqapply (HQ1 ltac:(simpl; lia)). simpl; flia.
    + intros s1 s2 -> Hl. specialize (HQ2 (b :: s1) s2 eq_refl ltac:(simpl; lia)).
      rewrite <-(written_app dst [b] s1) in HQ2. eqapply HQ2. simpl; flia.
Qed.

Lemma wp_strxfrm_count n j p s res w (Q : Z -> world -> Prop) :
  cstr (w_mem w) p s -> 0 <= res -> res + zlen s < 4294967296 -> (length s < j)%nat ->
  Q (res + zlen s) w ->
  wp n (loop_k j (fun '(s2, res) =>
    c ← load8s s2;
    if negb (c =? 0) then next (s2 + 1, u32 (res + 1)) else brk res) (p, res)) w Q.
Proof.
  revert j p res. induction s as [|b s IH]; intros [|j] p res Hs H0 H1 Hj HQ;
    simpl in Hj; try lia; wp_loop.
  - apply cstr_nil in Hs. wp_mem. change (s8 0 =? 0) with true. wp_steps.
    eqapply HQ. simpl; lia.
  - apply cstr_cons in Hs as (Hb & Hr & Hs). wp_mem. rewrite s8_eqb0 by lia. wp_if.
    wp_steps. rewrite u32_small by (simpl in *; lia).
    apply IH; [done|lia|simpl in *; lia|lia|]. eqapply HQ. simpl; lia.
Qed.

Lemma wp_strxfrm n dst src s k w (Q : Z -> world -> Prop) :
  lcopying w dst src s k -> Z.of_nat k < 4294967296 -> (length s < n)%nat ->
  Q (zlen s) (written dst (take k (s ++ [0])) w) ->
  wp n (strxfrm dst src (Z.of_nat k)) w Q.
Proof.
  intros Hc Hk Hn HQ. unfold strxfrm. assert (Hr := lcopying_u32 _ _ _ _ _ Hc). wp_steps.
  apply wp_loop_k. eapply wp_strxfrm_copy; [done|done|lia|lia|done|..].
  - intros Hl. rewrite take_ge in HQ by (rewrite length_app; cbn [length]; lia). done.
  - intros s1 s2 -> Hl. rewrite <-app_assoc, <-Hl, take_app_length in HQ.
    rewrite length_app in *. apply wp_loop_k. eapply wp_strxfrm_count.
    + apply (cstr_drop _ _ (s1 ++ s2) (length s1)); [rewrite length_app; lia|].
      apply (lcopying_frame _ _ _ _ _ s1 Hc).
      rewrite length_take, !length_app; cbn [length]; lia.
    + lia.
    + rewrite drop_app_length; lia.
    + rewrite drop_app_length; lia.
    + rewrite drop_app_length. eqapply HQ. lia.
Qed.
End correctness.
