(* ===== verification/StrTok.v ===== *)
(** * Tokens: string/strtok_r.c, strtok.c, strsep.c

    The scanner [__strtok_r] with its [goto cont] as a loop over the leading
    delimiters, and its three clients.  A call is specified by the prefix of
    delimiters and the token that follows; a sequence of calls by the list of
    the tokens of the string. *)

From S2P Require Import Prelude CMonad Words Memory StrScan MemCopy StrCopy.

(** The loop over the delimiters that ends at their null:
    [for (spanp = delim; (sc = *spanp++) != 0;) if (c == sc) ..]. *)
Definition delim_span (c delim : Z) : C bool :=
  loop (fun spanp =>
    sc ← load8s spanp;
    if sc =? 0 then brk false else
    if c =? sc then brk true else next (spanp + 1)) delim.

(** The one that compares their null too:
    [do { if ((sc = *spanp++) == c) ..} while (sc != 0);]. *)
Definition delim_stop (c delim : Z) : C bool :=
  loop (fun spanp =>
    sc ← load8s spanp;
    if sc =? c then brk true else
    if negb (sc =? 0) then next (spanp + 1) else brk false) delim.

Definition __strtok_r (s delim lasts : Z) (skip_leading_delim : bool) : C Z :=
  s ⇐ (if s =? 0 then
         s ← load32 lasts; if s =? 0 then return_ 0 else fall s
       else fall s);
  '(c, s) ⇐ loop (fun s =>
    c ← load8s s;
    let s := s + 1 in
    hit ← delim_span c delim;
    if (hit : bool) then
      if skip_leading_delim then next s
      else store32 lasts s ;; store8 (s - 1) 0 ;; brk (Return (s - 1))
    else brk (Fall (c, s))) s;
  if c =? 0 then store32 lasts 0 ;; mret 0 else
  let tok := s - 1 in
  loop (fun s =>
    c ← load8s s;
    let s := s + 1 in
    hit ← delim_stop c delim;
    if (hit : bool) then
      s ← (if c =? 0 then mret 0 else store8 (s - 1) 0 ;; mret s);
      store32 lasts s ;; brk tok
    else next s) s.

Definition strtok_r (s delim lasts : Z) : C Z := __strtok_r s delim lasts true.

(** string/strtok.c, on the placeholder of the reentrancy structure *)
Definition strtok (s delim : Z) : C Z :=
  r ← get_reent; __strtok_r s delim (_strtok_last r) true.

(** string/strsep.c *)
Definition strsep (source_ptr delim : Z) : C Z :=
  s ← load32 source_ptr; __strtok_r s delim source_ptr false.

(** ** Specification *)

Abbreviation delims D := (in_set D) (only parsing).
Abbreviation others D := (fun x => negb (in_set D x)) (only parsing).

(** A scan of the string [s] at [p] with delimiters [D] at [d], the
    placeholder [lasts] being outside the string. *)
Record scanning (w : world) (p : Z) (s : list Z) (d : Z) (D : list Z) (lasts : Z) : Prop := {
  scan_ok : mem_ok (w_mem w);
  scan_str : cstr (w_mem w) p s;
  scan_delim : cstr (w_mem w) d D;
  scan_lasts : mapped (w_mem w) lasts 4;
  scan_sep : disjoint_ranges lasts 4 p (zlen s + 1);
}.

(** The tokens of a string, in order; [cur] is the token begun. *)
Fixpoint tokens (D cur s : list Z) : list (list Z) :=
  match s with
  | [] => match cur with [] => [] | _ => [cur] end
  | b :: s' =>
      if in_set D b then
        match cur with [] => tokens D [] s' | _ => cur :: tokens D [] s' end
      else tokens D (cur ++ [b]) s'
  end.

(** The state after a call that found a token of length [j] at [q], followed by
    [k] more characters (none: the token ended the string). *)
Definition token_world (q : Z) (j : nat) (last : bool) (lasts : Z) (w : world) : world :=
  if last then written lasts (le_bytes 0) w
  else written lasts (le_bytes (q + Z.of_nat j + 1)) (written (q + Z.of_nat j) [0] w).

(** The result of a call. *)
Definition strtok_spec (p : Z) (s D : list Z) (lasts : Z) (w : world) : Z * world :=
  let k := span_len (delims D) s in
  match drop k s with
  | [] => (0, written lasts (le_bytes 0) w)
  | r =>
      let q := p + Z.of_nat k in
      let j := span_len (others D) r in
      (q, token_world q j (Nat.eqb j (length r)) lasts w)
  end.

Section correctness.
Implicit Types (n k : nat) (w : world).

Lemma in_set_cons y D b : in_set (y :: D) b = (b =? y) || in_set D b.
Proof. done. Qed.
Lemma in_set_nil b : in_set [] b = false.
Proof. done. Qed.

Lemma wp_delim_span n b d D w (Q : bool -> world -> Prop) :
  cstr (w_mem w) d D -> is_byte b -> (length D < n)%nat ->
  Q (in_set D b) w -> wp n (delim_span (s8 b) d) w Q.
Proof.
  intros HD Hb Hn HQ. apply wp_loop_k. revert Hn HQ. generalize n at 1 3. intros k.
  revert k d HD. induction D as [|y D IH]; intros [|k] d HD Hk HQ; cbn [length] in Hk; try lia.
  - wp_loop. apply cstr_nil in HD. wp_mem. change (s8 0 =? 0) with true. by wp_steps.
  - wp_loop. apply cstr_cons in HD as (Hy & Ry & HD). wp_mem. rewrite s8_eqb0 by lia.
    wp_if. rewrite s8_eqb by lia. rewrite in_set_cons in HQ.
    wp_if; wp_steps; [done|].
    apply IH; [done|lia|done].
Qed.

Lemma wp_delim_stop n b d D w (Q : bool -> world -> Prop) :
  cstr (w_mem w) d D -> is_byte b -> (length D < n)%nat ->
  Q (in_set D b || (b =? 0)) w -> wp n (delim_stop (s8 b) d) w Q.
Proof.
  intros HD Hb Hn HQ. apply wp_loop_k. revert Hn HQ. generalize n at 1 3. intros k.
  revert k d HD. induction D as [|y D IH]; intros [|k] d HD Hk HQ; cbn [length] in Hk; try lia.
  - wp_loop. apply cstr_nil in HD. wp_mem. rewrite s8_eqb by lia. rewrite Z.eqb_sym.
    rewrite in_set_nil in HQ. wp_if; wp_steps; [done|]. change (s8 0 =? 0) with true. by wp_steps.
  - wp_loop. apply cstr_cons in HD as (Hy & Ry & HD). wp_mem. rewrite s8_eqb by lia.
    rewrite Z.eqb_sym. rewrite in_set_cons in HQ. wp_if; wp_steps; [done|].
    rewrite s8_eqb0 by lia. wp_if. wp_steps. apply IH; [done|lia|done].
Qed.

Lemma delims_null m d D : cstr m d D -> in_set D 0 = false.
Proof.
  intros HD. apply not_true_iff_false. intros (x & Hx & E)%existsb_exists.
  apply Z.eqb_eq in E as <-. apply list_elem_of_In in Hx.
  pose proof (cstr_nonnull _ _ _ _ HD Hx). lia.
Qed.

(** The loop over the leading delimiters. *)
Lemma wp_skip n k p s d D w (Q : flow (Z * Z) Z -> world -> Prop) :
  cstr (w_mem w) p s -> cstr (w_mem w) d D -> (length D < n)%nat -> (length s < k)%nat ->
  (drop (span_len (delims D) s) s = [] ->
     Q (Fall (0, p + zlen s + 1)) w) ->
  (forall b r, drop (span_len (delims D) s) s = b :: r ->
     Q (Fall (s8 b, p + Z.of_nat (span_len (delims D) s) + 1)) w) ->
  wp n (loop_k k (fun s =>
    c ← load8s s;
    let s := s + 1 in
    hit ← delim_span c d;
    if (hit : bool) then next s
    else brk (Fall (c, s))) p) w Q.
Proof.
  intros Hs HD Hn. revert k p Hs.
  induction s as [|b s IH]; intros [|k] p Hs Hk Hnil Hcons; cbn [length] in Hk; try lia;
    wp_loop.
  - apply cstr_nil in Hs. wp_mem. apply (wp_delim_span _ 0 _ D); [done|lia|done|].
    rewrite (delims_null _ _ _ HD). wp_steps. eqapply (Hnil eq_refl). f_equal. simpl.
    f_equal; lia.
  - apply cstr_cons in Hs as (Hb & Rb & Hs). wp_mem.
    apply (wp_delim_span _ b _ D); [done|lia|done|]. cbn [span_len] in Hnil, Hcons.
    destruct (in_set D b); wp_steps; cbn [drop] in Hnil, Hcons.
    + apply IH; [done|lia| |].
      * intros E. eqapply (Hnil E). f_equal. simpl. f_equal. lia.
      * intros c r E. eqapply (Hcons _ _ E). f_equal. f_equal. lia.
    + eqapply (Hcons b s eq_refl). simpl. f_equal. f_equal. lia.
Qed.

(** The first character after a span does not satisfy its test. *)
Lemma span_len_stop P s b r : drop (span_len P s) s = b :: r -> P b = false.
Proof.
  induction s as [|c s IH]; [done|]. cbn [span_len]. destruct (P c) eqn:E; [exact IH|].
  by intros [= -> ->].
Qed.

(** The loop over the token, from its second character on. *)
Lemma wp_token n k tok q r d D lasts w (Q : Z -> world -> Prop) :
  scanning w q r d D lasts -> (length D < n)%nat -> (length r < k)%nat ->
  (let j := span_len (others D) r in
   Q tok (token_world q j (Nat.eqb j (length r)) lasts w)) ->
  wp n (loop_k k (fun s =>
    c ← load8s s;
    let s := s + 1 in
    hit ← delim_stop c d;
    if (hit : bool) then
      s ← (if c =? 0 then mret 0 else store8 (s - 1) 0 ;; mret s);
      store32 lasts s ;; brk tok
    else next s) q) w Q.
Proof.
  intros [Hm Hs HD Hl Hsep] Hn. revert k q Hs Hsep.
  induction r as [|b r IH]; intros [|k] q Hs Hsep Hk HQ; cbn [length] in Hk; try lia; wp_loop.
  - apply cstr_nil in Hs. wp_mem. apply (wp_delim_stop _ 0 _ D); [done|lia|done|].
    rewrite orb_true_r. change (s8 0 =? 0) with true. wp_steps.
    apply wp_store32_le; [done|lia|]. by wp_steps.
  - assert (Hr := mem_ok_range _ _ _ Hm (cstr_bytes _ _ _ Hs)).
    rewrite length_app in Hr. cbn [app length] in Hr. assert (Hrange := Hr ltac:(done)). clear Hr.
    apply cstr_cons in Hs as (Hb & Rb & Hs). wp_mem.
    apply (wp_delim_stop _ b _ D); [done|lia|done|]. cbv zeta in HQ. cbn [span_len] in HQ.
    replace (b =? 0) with false by lia. rewrite orb_false_r.
    destruct (in_set D b) eqn:E; cbn [negb] in HQ; wp_steps.
    + rewrite s8_eqb0 by lia. wp_if. wp_steps. replace (q + 1 - 1) with q by lia.
      apply wp_store8; [by eexists|]. wp_steps. apply wp_store32_le; [|lia|].
      { by apply mapped_insert. }
      wp_steps. eqapply HQ. unfold token_world, written. cbn [Nat.eqb length store_bytes].
      by replace (q + Z.of_nat 0) with q by lia.
    + apply IH; [done| |lia|].
      { unfold disjoint_ranges in *. cbn [length] in Hsep. lia. }
      cbv zeta. eqapply HQ. unfold token_world. cbn [length Nat.eqb].
      by replace (q + 1 + Z.of_nat (span_len (others D) r)) with
        (q + Z.of_nat (S (span_len (others D) r))) by lia.
Qed.

(** The scan starts at [s0], or at the placeholder when [s0] is null. *)
Definition starts (w : world) (s0 p lasts : Z) : Prop :=
  s0 = p \/ s0 = 0 /\ bytes (w_mem w) lasts (le_bytes p).

Lemma scanning_pos w p s d D lasts :
  scanning w p s d D lasts -> 0 < p /\ p + zlen s + 1 <= 1073741824.
Proof.
  intros [Hm Hs _ _ _]. apply cstr_bytes, (mem_ok_range _ _ _ Hm) in Hs; [|by destruct s].
  rewrite length_app in Hs. cbn [length] in Hs. lia.
Qed.

Lemma scanning_drop w p s d D lasts k :
  (k <= length s)%nat -> scanning w p s d D lasts ->
  scanning w (p + Z.of_nat k) (drop k s) d D lasts.
Proof.
  intros Hk [Hm Hs HD Hl Hsep]. split; [done|by apply cstr_drop|done..|].
  unfold disjoint_ranges in *. rewrite length_drop. lia.
Qed.

Lemma wp_strtok n s0 p s d D lasts w (Q : Z -> world -> Prop) :
  scanning w p s d D lasts -> starts w s0 p lasts ->
  (length D < n)%nat -> (length s < n)%nat ->
  Q (strtok_spec p s D lasts w).1 (strtok_spec p s D lasts w).2 ->
  wp n (__strtok_r s0 d lasts true) w Q.
Proof.
  intros Hsc Hst HnD Hns HQ. assert (Hp := scanning_pos _ _ _ _ _ _ Hsc).
  assert (Hstart : wp n (if s0 =? 0 then
      s ← load32 lasts; if s =? 0 then return_ 0 else fall s else fall s0) w
    (fun x w' => x = Fall (R := Z) p /\ w' = w)).
  { destruct Hst as [->|[-> Hb]].
    - rewrite (proj2 (Z.eqb_neq p 0)) by lia. by wp_steps.
    - change (0 =? 0) with true. wp_steps. eapply wp_load32_le; [exact Hb|lia|].
      rewrite (proj2 (Z.eqb_neq p 0)) by lia. by wp_steps. }
  unfold __strtok_r. wp_step. eapply wp_mono; [exact Hstart|]. intros ? ? [-> ->].
  wp_steps. assert (Hsc' := Hsc). destruct Hsc as [Hm Hs HD Hl Hsep]. apply wp_loop_k.
  apply (wp_skip _ _ _ s _ D); [done..| |]; unfold strtok_spec in HQ.
  - intros E. rewrite E in HQ. wp_steps. change (0 =? 0) with true. wp_steps.
    apply wp_store32_le; [done|lia|]. by wp_steps.
  - intros b r E. rewrite E in HQ. wp_steps.
    pose proof (span_len_le (delims D) s) as Hk.
    apply (scanning_drop _ _ _ _ _ _ _ Hk) in Hsc'. rewrite E in Hsc'.
    assert (Hlen : (S (length r) <= length s)%nat).
    { change (S (length r)) with (length (b :: r)). rewrite <-E, length_drop. lia. }
    assert (Hin : in_set D b = false).
    { by apply (span_len_stop (delims D) s _ r). }
    assert (Hsc2 := scanning_drop _ _ (b :: r) _ _ _ 1 (ltac:(cbn; lia)) Hsc').
    destruct Hsc' as [_ Hs' _ _ _]. apply cstr_cons in Hs' as (_ & Rb & _).
    rewrite s8_eqb0 by lia. rewrite (proj2 (Z.eqb_neq b 0)) by lia.
    apply wp_loop_k, (wp_token _ _ _ _ r _ D); [exact Hsc2|done|lia|].
    cbv zeta. cbn [span_len] in HQ. rewrite Hin in HQ. cbn [negb fst snd length Nat.eqb] in HQ.
    replace (p + Z.of_nat (span_len (delims D) s) + 1 - 1) with
      (p + Z.of_nat (span_len (delims D) s)) by lia.
    eqapply HQ. unfold token_world. destruct (_ =? _)%nat; [done|].
    by replace (p + Z.of_nat (span_len (delims D) s) + 1 +
        Z.of_nat (span_len (others D) r)) with
      (p + Z.of_nat (span_len (delims D) s) + Z.of_nat (S (span_len (others D) r))) by lia.
Qed.

(** ** The sequence of calls that isolates every token *)

(** The documented use: [strtok_r(s, ..)] once, then [strtok_r(NULL, ..)] until
    it returns NULL; the results but the last. *)
Fixpoint strtok_all (k : nat) (s delim lasts : Z) : C (list Z) :=
  match k with
  | O => mret []
  | S k' =>
      t ← strtok_r s delim lasts;
      if t =? 0 then mret [] else
      ts ← strtok_all k' 0 delim lasts; mret (t :: ts)
  end.

Lemma tokens_skip D s : tokens D [] s = tokens D [] (drop (span_len (delims D) s) s).
Proof.
  induction s as [|b s IH]; [done|]. cbn [tokens span_len].
  destruct (in_set D b) eqn:E; [exact IH|]. cbn [drop tokens]. by rewrite E.
Qed.

Lemma tokens_cur D cur r :
  cur <> [] ->
  let j := span_len (others D) r in
  tokens D cur r = (cur ++ take j r) :: tokens D [] (drop (S j) r).
Proof.
  revert cur. induction r as [|b r IH]; intros cur Hcur.
  - destruct cur; [done|]. cbn. by rewrite app_nil_r.
  - cbn [tokens span_len]. destruct (in_set D b) eqn:E; cbn [negb].
    + destruct cur; [done|]. cbn [take drop]. by rewrite app_nil_r.
    + cbv zeta in *. rewrite IH by (by destruct cur). by rewrite <-app_assoc.
Qed.

Lemma tokens_token D s b r :
  drop (span_len (delims D) s) s = b :: r ->
  let j := span_len (others D) (b :: r) in
  tokens D [] s = take j (b :: r) :: tokens D [] (drop (S j) (b :: r)).
Proof.
  intros E. pose proof (span_len_stop _ _ _ _ E) as Hb. rewrite tokens_skip, E.
  cbn [tokens span_len]. rewrite Hb. cbn [negb take drop app]. by apply tokens_cur.
Qed.

Lemma wp_strtok_null n d lasts skip w (Q : Z -> world -> Prop) :
  bytes (w_mem w) lasts (le_bytes 0) -> Q 0 w -> wp n (__strtok_r 0 d lasts skip) w Q.
Proof.
  intros Hb HQ. unfold __strtok_r. change (0 =? 0) with true. wp_steps.
  eapply wp_load32_le; [exact Hb|lia|]. change (0 =? 0) with true. by wp_steps.
Qed.

(** Memory is unchanged outside the string and the placeholder. *)
Definition frame (p sz lasts : Z) (w w' : world) : Prop :=
  w_reent w' = w_reent w /\ w_tz w' = w_tz w /\
  forall a, ~ p <= a < p + sz -> ~ lasts <= a < lasts + 4 -> w_mem w' !! a = w_mem w !! a.

Lemma frame_refl p sz lasts w : frame p sz lasts w w.
Proof. done. Qed.

Lemma frame_trans p sz q sz' lasts w w1 w2 :
  frame p sz lasts w w1 -> frame q sz' lasts w1 w2 -> p <= q -> q + sz' <= p + sz ->
  frame p sz lasts w w2.
Proof.
  intros (? & ? & H1) (? & ? & H2) ??. split_and!; [congruence..|]. intros a Ha Hl.
  rewrite H2, H1 by lia. done.
Qed.

Lemma frame_lasts p sz lasts x w : frame p sz lasts w (written lasts (le_bytes x) w).
Proof.
  split_and!; [done..|]. intros a Ha Hl. apply lookup_store_out. cbn [le_bytes length]. lia.
Qed.

Lemma frame_token p sz lasts q w :
  p <= q < p + sz -> frame p sz lasts w (written q [0] w).
Proof.
  intros Hq. split_and!; [done..|]. intros a Ha Hl. apply lookup_store_out. cbn [length]. lia.
Qed.

Lemma frame_cstr p sz lasts w w' q s :
  frame p sz lasts w w' -> cstr (w_mem w) q s ->
  disjoint_ranges q (zlen s + 1) p sz -> disjoint_ranges q (zlen s + 1) lasts 4 ->
  cstr (w_mem w') q s.
Proof.
  intros (_ & _ & Hf) Hs H1 H2. apply (cstr_frame _ _ _ _ Hs). intros a Ha.
  unfold disjoint_ranges in *. apply Hf; lia.
Qed.

(** A call that finds a token with characters left cuts the string in two. *)
Lemma token_cut w q r d D lasts :
  scanning w q r d D lasts -> disjoint_ranges d (zlen D + 1) q (zlen r + 1) ->
  disjoint_ranges d (zlen D + 1) lasts 4 ->
  let j := span_len (others D) r in (j < length r)%nat ->
  let w' := token_world q j false lasts w in
  cstr (w_mem w') q (take j r) /\
  scanning w' (q + Z.of_nat j + 1) (drop (S j) r) d D lasts /\
  bytes (w_mem w') lasts (le_bytes (q + Z.of_nat j + 1)) /\
  frame q (zlen r + 1) lasts w w'.
Proof.
  intros Hsc Hd1 Hd2 j Hj w'.
  assert (Hf : frame q (zlen r + 1) lasts w w').
  { apply (frame_trans q (zlen r + 1) q (zlen r + 1) lasts w (written (q + Z.of_nat j) [0] w));
      [apply frame_token; lia|apply frame_lasts|lia|lia]. }
  pose proof (scanning_pos _ _ _ _ _ _ Hsc) as Hp.
  pose proof (scanning_drop w q r d D lasts (S j) ltac:(lia) Hsc) as [_ Hs2 _ _ Hsep2].
  destruct Hsc as [Hm Hs HD Hl Hsep]. unfold disjoint_ranges in *.
  replace (q + Z.of_nat (S j)) with (q + Z.of_nat j + 1) in * by lia.
  rewrite length_drop in Hsep2.
  assert (Hout : forall a x, ~ a <= x < a + 4 -> a = lasts ->
    w_mem w' !! x = (<[q + Z.of_nat j := 0]> (w_mem w)) !! x).
  { intros a x Hx ->. unfold w', token_world, written. cbn [set_mem w_mem].
    rewrite lookup_store_out by (cbn [le_bytes length]; lia). done. }
  split_and!; [|split|..]; [|..|done].
  - rewrite <-(take_drop j r) in Hs. apply cstr_app in Hs as (Ht & Hn & _).
    split; [|done]. apply bytes_app. split.
    + eapply bytes_frame; [exact Ht|]. rewrite length_take. intros a Ha.
      rewrite (Hout lasts) by (try done; lia). apply lookup_insert_ne. lia.
    + cbn [bytes]. split; [|done]. rewrite length_take, Nat.min_l by lia.
      rewrite (Hout lasts) by (try done; lia). apply lookup_insert_eq.
  - unfold w', token_world, written. cbn [set_mem w_mem].
    apply mem_ok_store; [apply mem_ok_insert; [done| |lia]| |].
    + apply (bytes_mapped _ _ _ (cstr_bytes _ _ _ Hs)). rewrite length_app. cbn [length]. lia.
    + by apply mapped_insert.
    + repeat constructor; apply byte_of_range.
  - apply (cstr_frame _ _ _ _ Hs2). rewrite length_drop. intros a Ha.
    rewrite (Hout lasts) by (try done; lia). apply lookup_insert_ne. lia.
  - eapply frame_cstr; [exact Hf|done|..]; unfold disjoint_ranges; lia.
  - unfold w', token_world, written. cbn [set_mem w_mem].
    apply mapped_store, mapped_store. done.
  - unfold disjoint_ranges. rewrite length_drop. lia.
  - unfold w', token_world, written. apply bytes_store_same.
Qed.

Lemma wp_strtok_all n k s0 p s d D lasts w (Q : list Z -> world -> Prop) :
  scanning w p s d D lasts -> starts w s0 p lasts ->
  disjoint_ranges d (zlen D + 1) p (zlen s + 1) -> disjoint_ranges d (zlen D + 1) lasts 4 ->
  (length D < n)%nat -> (length s < n)%nat -> (length s + 1 < k)%nat ->
  (forall ts w', Forall2 (cstr (w_mem w')) ts (tokens D [] s) ->
     frame p (zlen s + 1) lasts w w' -> Q ts w') ->
  wp n (strtok_all k s0 d lasts) w Q.
Proof.
  revert s0 p s w Q. induction k as [|k IH]; [lia|].
  intros s0 p s w Q Hsc Hst Hd1 Hd2 HnD Hns Hk HQ. cbn [strtok_all]. wp_step.
  apply (wp_strtok _ _ p s _ D); [done..|]. unfold strtok_spec.
  pose proof (scanning_pos _ _ _ _ _ _ Hsc) as Hp.
  destruct (drop (span_len (delims D) s) s) as [|b r] eqn:E; cbn [fst snd].
  { change (0 =? 0) with true. wp_steps. apply HQ; [|apply frame_lasts].
    by rewrite tokens_skip, E. }
  rewrite (proj2 (Z.eqb_neq _ 0)) by lia. wp_step.
  set (q := p + Z.of_nat (span_len (delims D) s)).
  pose proof (span_len_le (delims D) s) as Hle.
  pose proof (scanning_drop _ _ _ _ _ _ _ Hle Hsc) as Hr. rewrite E in Hr. fold q in Hr.
  pose proof (tokens_token _ _ _ _ E) as Ht. cbv zeta in Ht.
  assert (Hlen : (length (b :: r) + span_len (delims D) s = length s)%nat).
  { rewrite <-E, length_drop. lia. }
  assert (Hq : q + zlen (b :: r) = p + zlen s) by (unfold q; lia).
  set (j := span_len (others D) (b :: r)) in *.
  destruct (Nat.eqb_spec j (length (b :: r))) as [Hj|Hj].
  - (* the token ends the string *)
    destruct k as [|k]; [lia|]. cbn [strtok_all]. wp_step.
    apply wp_strtok_null; [apply bytes_store_same|]. change (0 =? 0) with true. wp_steps.
    apply HQ; [|apply frame_lasts]. rewrite Ht, Hj, firstn_all, drop_ge by lia.
    constructor; [|constructor]. destruct Hr as [_ Hs _ _ Hsep].
    eapply (frame_cstr 0 0); [apply frame_lasts|exact Hs|..]; unfold disjoint_ranges in *; lia.
  - (* a delimiter follows *)
    assert (Hlt : (j < length (b :: r))%nat).
    { pose proof (span_len_le (others D) (b :: r)) as Hjl. fold j in Hjl. lia. }
    assert (Hd1' : disjoint_ranges d (zlen D + 1) q (zlen (b :: r) + 1)).
    { unfold disjoint_ranges in *. lia. }
    destruct (token_cut w q (b :: r) d D lasts Hr Hd1' Hd2 Hlt) as (Hcut & Hsc2 & Hb2 & Hf).
    fold j in Hcut, Hsc2, Hb2, Hf.
    apply (IH _ (q + Z.of_nat j + 1) (drop (S j) (b :: r))); [exact Hsc2|by right| |done|done|..].
    + unfold disjoint_ranges in *. rewrite length_drop. lia.
    + rewrite length_drop. lia.
    + rewrite length_drop. lia.
    + intros ts w' Hts Hf2. wp_steps. rewrite length_drop in Hf2. apply HQ.
      * rewrite Ht. constructor; [|exact Hts].
        destruct Hr as [_ _ _ _ Hsep]. unfold disjoint_ranges in *.
        eapply frame_cstr; [exact Hf2|exact Hcut|..]; unfold disjoint_ranges;
          rewrite length_take; lia.
      * eapply (frame_trans p (zlen s + 1) (q + Z.of_nat j + 1)); [|exact Hf2|lia|lia].
        eapply (frame_trans p (zlen s + 1) q); [apply frame_refl|exact Hf|lia|lia].
Qed.

(** ** strsep *)

Definition strsep_spec (p : Z) (s D : list Z) (source_ptr : Z) (w : world) : Z * world :=
  match s with
  | [] => (0, written source_ptr (le_bytes 0) w)
  | _ =>
      let j := span_len (others D) s in
      (p, token_world p j (Nat.eqb j (length s)) source_ptr w)
  end.

Lemma wp_strsep n p s d D source_ptr w (Q : Z -> world -> Prop) :
  scanning w p s d D source_ptr -> bytes (w_mem w) source_ptr (le_bytes p) ->
  (length D < n)%nat -> (length s < n)%nat ->
  Q (strsep_spec p s D source_ptr w).1 (strsep_spec p s D source_ptr w).2 ->
  wp n (strsep source_ptr d) w Q.
Proof.
  intros Hsc Hsrc HnD Hns HQ. assert (Hp := scanning_pos _ _ _ _ _ _ Hsc).
  unfold strsep. wp_step. eapply wp_load32_le; [exact Hsrc|lia|]. unfold __strtok_r.
  rewrite (proj2 (Z.eqb_neq p 0)) by lia. wp_steps. apply wp_loop_k.
  destruct n as [|n']; [lia|]. wp_loop. set (n := S n') in *.
  assert (Hsc' := Hsc). destruct Hsc as [Hm Hs HD Hl Hsep].
  destruct s as [|b s]; cbn [strsep_spec fst snd] in HQ.
  - apply cstr_nil in Hs. wp_mem. apply (wp_delim_span _ 0 _ D); [done|lia|done|].
    rewrite (delims_null _ _ _ HD). wp_steps. change (s8 0 =? 0) with true. wp_steps.
    apply wp_store32_le; [done|lia|]. by wp_steps.
  - apply cstr_cons in Hs as (Hb & Rb & Hs). wp_mem.
    apply (wp_delim_span _ b _ D); [done|lia|done|]. cbn [span_len] in HQ.
    destruct (in_set D b) eqn:E; cbn [negb] in HQ; wp_steps.
    + apply wp_store32_le; [done|cbn [length] in Hp; lia|]. wp_steps.
      replace (p + 1 - 1) with p by lia.
      apply wp_store8; [apply (mapped_store _ _ _ p 1); [|lia]|].
      { intros a Ha. replace a with p by lia. by eexists. }
      wp_steps. eqapply HQ. unfold token_world, written. cbn [Nat.eqb length].
      replace (p + Z.of_nat 0) with p by lia. rewrite !set_mem_set_mem.
      cbn [set_mem w_mem]. apply (f_equal (fun m => set_mem m w)).
      apply (store_bytes_comm source_ptr (le_bytes (p + 1)) p [u8 0]).
      unfold disjoint_ranges in *. cbn [length le_bytes] in *. lia.
    + rewrite s8_eqb0 by lia. rewrite (proj2 (Z.eqb_neq b 0)) by lia.
      replace (p + 1 - 1) with p by lia. apply wp_loop_k, (wp_token _ _ _ _ s _ D).
      * apply (scanning_drop w p (b :: s) d D source_ptr 1); [cbn [length]; lia|done].
      * done.
      * cbn [length] in Hns. lia.
      * cbv zeta. eqapply HQ. unfold token_world. cbn [length Nat.eqb].
        by replace (p + 1 + Z.of_nat (span_len (others D) s)) with
          (p + Z.of_nat (S (span_len (others D) s))) by lia.
Qed.
End correctness.
