(* ===== verification/Compare.v ===== *)
(** * Comparison callbacks

    The interface between the functions of search/ and the comparison function
    they are passed. *)

From S2P Require Import Prelude CMonad Words Memory.

(** What the functions rely on of their callback: on two elements it returns a
    number with the sign of [ord], a total preorder, and changes nothing. *)
Class comparator (cmp : Z -> Z -> C Z) (E : nat) := {
  ord : list Z -> list Z -> Z;
  cmp_fuel : nat;
  cmp_spec n p q x y w (Q : Z -> world -> Prop) :
    (cmp_fuel <= n)%nat -> mem_ok (w_mem w) ->
    bytes (w_mem w) p x -> bytes (w_mem w) q y -> length x = E -> length y = E ->
    (forall r, Z.sgn r = Z.sgn (ord x y) -> Q r w) -> wp n (cmp p q) w Q;
  ord_sym x y : Z.sgn (ord y x) = - Z.sgn (ord x y);
  ord_trans x y z : ord x y <= 0 -> ord y z <= 0 -> ord x z <= 0;
}.

Section order.
Context {E : nat} {cmp : Z -> Z -> C Z} {Hcmp : comparator cmp E}.
Implicit Types (x y z : list Z).

Lemma ord_lt_trans x y z : ord x y < 0 -> ord y z < 0 -> ord x z < 0.
Proof.
  intros H1 H2. pose proof (ord_trans x y z). pose proof (ord_trans y z x).
  pose proof (ord_sym x z). pose proof (ord_sym x y). lia.
Qed.

(** Keys equal to one key have one order. *)
Lemma ord_lt_equal x y z : ord x y = 0 -> ord y z < 0 -> ord x z < 0.
Proof.
  intros H1 H2. pose proof (ord_trans x y z). pose proof (ord_trans y x z). pose proof (ord_trans z x y).
  pose proof (ord_sym x z). pose proof (ord_sym x y). pose proof (ord_sym y z). lia.
Qed.
End order.
