(* ===== verification/Qsort.v ===== *)
(** * Searching and sorting arrays: search/bsearch.c, search/qsort.c

    [qsort] is the quicksort of Bentley and McIlroy: a ninther or median-of-three
    pivot, a partition that gathers the elements equal to the pivot at both ends
    and swaps them back to the middle, insertion sort for short or (apparently)
    sorted arrays, recursion on the left part and iteration on the right.  The
    comparison is a callback on two addresses; the class [comparator] of Compare
    states what the sort relies on. *)

From Stdlib Require Import Permutation Sorted.
From S2P Require Import Prelude CMonad Words Memory StrScan MemCopy.

Section code.
Context (cmp : Z -> Z -> C Z).

(** search/bsearch.c *)
Definition bsearch (key base nmemb size : Z) : C Z :=
  if (nmemb =? 0) || (size =? 0) then mret 0 else
  loop (fun '(lower, upper) =>
    if lower <? upper then
      let index := u32 (lower + upper) / 2 in
      let current := base + u32 (index * size) in
      result ← cmp key current;
      if result <? 0 then next (lower, index)
      else if 0 <? result then next (u32 (index + 1), upper)
      else brk current
    else brk 0) (0, nmemb).

(** ** search/qsort.c *)

(** The [TYPE] of the macro [swapcode]: its load, its store and its size. *)
Record celltype := Cell { c_load : Z -> C Z; c_store : Z -> Z -> C unit; c_size : Z }.
Definition cell_long : celltype := Cell load32 store32 4.
Definition cell_char : celltype := Cell load8s store8 1.

Definition swapcode (TYPE : celltype) (parmi parmj n : Z) : C unit :=
  loop (fun '(i, pi, pj) =>
    t ← c_load TYPE pi;
    x ← c_load TYPE pj;
    c_store TYPE pi x ;;
    c_store TYPE pj t ;;
    let i := i - 1 in
    if 0 <? i then next (i, pi + c_size TYPE, pj + c_size TYPE) else brk tt)
    (u32 n / c_size TYPE, parmi, parmj).

(** [SWAPINIT] *)
Definition swap_type (a es : Z) : Z :=
  if negb (a mod 4 =? 0) || negb (es mod 4 =? 0) then 2 else if es =? 4 then 0 else 1.

Definition swapfunc (a b n swaptype : Z) : C unit :=
  if swaptype <=? 1 then swapcode cell_long a b n else swapcode cell_char a b n.

Definition swap (es swaptype a b : Z) : C unit :=
  if swaptype =? 0 then
    t ← load32 a;
    x ← load32 b;
    store32 a x ;;
    store32 b t
  else swapfunc a b (i32 es) swaptype.

Definition vecswap (swaptype a b n : Z) : C unit :=
  if 0 <? n then swapfunc a b n swaptype else mret tt.

Definition med3 (a b c : Z) : C Z :=
  r ← cmp a b;
  if r <? 0 then
    r ← cmp b c;
    if r <? 0 then mret b else
    r ← cmp a c; mret (if r <? 0 then c else a)
  else
    r ← cmp b c;
    if 0 <? r then mret b else
    r ← cmp a c; mret (if r <? 0 then a else c).

(** The insertion sort, for short arrays and when the partition moved nothing. *)
Definition insertion (a n es swaptype : Z) : C unit :=
  loop (fun pm =>
    if pm <? a + u32 (n * es) then
      loop (fun pl =>
        if a <? pl then
          r ← cmp (pl - es) pl;
          if 0 <? r then swap es swaptype pl (pl - es) ;; next (pl - es)
          else brk tt
        else brk tt) pm ;;
      next (pm + es)
    else brk tt) (a + es).

(** The choice of the pivot. *)
Definition pivot (a n es : Z) : C Z :=
  let pm := a + u32 (n / 2 * es) in
  if 7 <? n then
    let pl := a in
    let pn := a + u32 ((n - 1) * es) in
    '(pl, pm, pn) ←
      (if 40 <? n then
        let d := i32 (u32 (n / 8 * es)) in
        pl ← med3 pl (pl + d) (pl + 2 * d);
        pm ← med3 (pm - d) pm (pm + d);
        pn ← med3 (pn - 2 * d) (pn - d) pn;
        mret (pl, pm, pn)
      else mret (pl, pm, pn));
    med3 pl pm pn
  else mret pm.

(** The two scanning loops and the partition around the pivot at [a]. *)
Definition scan_up (es swaptype a pc : Z) : Z * Z * Z -> C (Z * Z * Z) :=
  loop (fun '(pa, pb, swap_cnt) =>
    if pb <=? pc then
      r ← cmp pb a;
      if r <=? 0 then
        if r =? 0 then
          swap es swaptype pa pb ;; next (pa + es, pb + es, 1)
        else next (pa, pb + es, swap_cnt)
      else brk (pa, pb, swap_cnt)
    else brk (pa, pb, swap_cnt)).

Definition scan_down (es swaptype a pb : Z) : Z * Z * Z -> C (Z * Z * Z) :=
  loop (fun '(pc, pd, swap_cnt) =>
    if pb <=? pc then
      r ← cmp pc a;
      if 0 <=? r then
        if r =? 0 then
          swap es swaptype pc pd ;; next (pc - es, pd - es, 1)
        else next (pc - es, pd, swap_cnt)
      else brk (pc, pd, swap_cnt)
    else brk (pc, pd, swap_cnt)).

Definition partition (es swaptype a : Z) : Z * Z * Z * Z * Z -> C (Z * Z * Z * Z * Z) :=
  loop (fun '(pa, pb, pc, pd, swap_cnt) =>
    '(pa, pb, swap_cnt) ← scan_up es swaptype a pc (pa, pb, swap_cnt);
    '(pc, pd, swap_cnt) ← scan_down es swaptype a pb (pc, pd, swap_cnt);
    if pc <? pb then brk (pa, pb, pc, pd, swap_cnt) else
    swap es swaptype pb pc ;;
    next (pa, pb + es, pc - es, pd, 1)).

(** One pass from the label [loop]; [rec] is the recursive call. *)
Definition qsort_pass (rec : Z -> Z -> C unit) (es : Z) : Z * Z -> C (Z * Z + unit) :=
  fun '(a, n) =>
    let swaptype := swap_type a es in
    if n <? 7 then insertion a n es swaptype ;; brk tt else
    pm ← pivot a n es;
    swap es swaptype a pm ;;
    let last := a + u32 ((n - 1) * es) in
    '(pa, pb, pc, pd, swap_cnt) ← partition es swaptype a (a + es, a + es, last, last, 0);
    if swap_cnt =? 0 then insertion a n es swaptype ;; brk tt else
    let pn := a + u32 (n * es) in
    let r := if pa - a <? pb - pa then pa - a else pb - pa in
    vecswap swaptype a (pb - r) r ;;
    let r := if u32 (pd - pc) <? u32 (pn - pd - es) then pd - pc else u32 (pn - pd - es) in
    vecswap swaptype pb (pn - r) r ;;
    let r := pb - pa in
    (if es <? u32 r then rec a (u32 r / es) else mret tt) ;;
    let r := pd - pc in
    if es <? u32 r then next (pn - r, u32 r / es) else brk tt.

Fixpoint qsort_k (k : nat) (es a n : Z) : C unit :=
  match k with
  | O => fun _ _ => NoFuel
  | S k' => loop (qsort_pass (qsort_k k' es) es) (a, n)
  end.

(** The depth of the recursion is bounded by the loop budget. *)
Definition qsort (a n es : Z) : C unit := fun fuel => qsort_k fuel es a n fuel.
End code.
