(* ===== verification/QsortSpec.v ===== *)
(** * Correctness of bsearch and qsort

    The array is a list [L] of elements of [E] bytes at the address [a]; every
    intermediate state of the sort is [written a (concat L') w] for a
    permutation [L'] of [L], so that the proof follows the list. *)

From Stdlib Require Import Permutation Sorted.
From S2P Require Import Prelude CMonad Words Memory StrScan MemCopy Compare Qsort.

(** ** Writing inside a flat array *)

Section flat.
Implicit Types (w : world) (a : Z) (A B X Y R F : list Z).

(** Replacing a part of an array by another of the same length. *)
Lemma flat_write a A X Y R w :
  length X = length Y ->
  written (a + zlen A) Y (written a (A ++ X ++ R) w) = written a (A ++ Y ++ R) w.
Proof.
  intros Hl. unfold written. rewrite set_mem_set_mem. cbn [set_mem w_mem].
  apply (f_equal (fun m => set_mem m w)). rewrite !store_bytes_app, <-Hl.
  rewrite store_bytes_comm by (unfold disjoint_ranges; lia).
  by rewrite store_bytes_over by done.
Qed.

Lemma flat_bytes a A X R w : bytes (w_mem (written a (A ++ X ++ R) w)) (a + zlen A) X.
Proof.
  assert (H := bytes_store_same (w_mem w) a (A ++ X ++ R)).
  apply bytes_app in H as [_ H]. by apply bytes_app in H as [H _].
Qed.

(** ** The cells of swapcode *)

Class cell_ok (T : celltype) := {
  cell_val : list Z -> Z;
  cell_len : nat;
  cell_len_pos : (0 < cell_len)%nat;
  cell_len_size : Z.of_nat cell_len = c_size T;
  wp_c_load n p X w (Q : Z -> world -> Prop) :
    bytes (w_mem w) p X -> length X = cell_len -> Forall (fun b => is_byte b) X ->
    Q (cell_val X) w -> wp n (c_load T p) w Q;
  wp_c_store n p X w (Q : unit -> world -> Prop) :
    mapped (w_mem w) p (zlen X) -> length X = cell_len -> Forall (fun b => is_byte b) X ->
    Q tt (written p X w) -> wp n (c_store T p (cell_val X)) w Q;
}.

#[export] Instance cell_long_ok : cell_ok cell_long.
Proof.
  refine {| cell_val X := le32 (nth 0 X 0) (nth 1 X 0) (nth 2 X 0) (nth 3 X 0);
    cell_len := 4 |}; [lia|done|..].
  - intros n p [|x0 [|x1 [|x2 [|x3 [|]]]]] w Q Hb; try done. intros _ _ HQ.
    by eapply wp_load32.
  - intros n p [|x0 [|x1 [|x2 [|x3 [|]]]]] w Q Hm; try done. intros _ HX HQ.
    rewrite !Forall_cons in HX. destruct_and!. by apply wp_store32.
Defined.

#[export] Instance cell_char_ok : cell_ok cell_char.
Proof.
  refine {| cell_val X := s8 (nth 0 X 0); cell_len := 1 |}; [lia|done|..].
  - intros n p [|x0 [|]] w Q Hb; try done. intros _ _ HQ. destruct Hb as [Hb _].
    by eapply wp_load8s.
  - intros n p [|x0 [|]] w Q Hm; try done. intros _ HX HQ.
    rewrite Forall_cons in HX. destruct HX as [Hx _].
    apply wp_store8; [apply Hm; cbn; lia|]. by rewrite u8_s8.
Defined.

(** A flat array of bytes in mapped memory. *)
Definition flat (a : Z) F w : Prop :=
  mapped (w_mem w) a (zlen F) /\ Forall (fun b => is_byte b) F.

Lemma flat_mapped a F G w p k :
  flat a F w -> a <= p -> p + k <= a + zlen F -> mapped (w_mem (written a G w)) p k.
Proof.
  intros [Hm _] H1 H2. apply mapped_store. eapply mapped_sub; [exact Hm|lia|lia].
Qed.

Section swapcode.
Context (T : celltype) {HT : cell_ok T}.

(** One exchange of two cells at different places, the lower one first when [d]. *)
Lemma wp_exchange {S} (d : bool) n a A X B Y R (c : C S) w (Q : S -> world -> Prop) :
  let lo := a + zlen A in
  let hi := a + zlen A + zlen X + zlen B in
  flat a (A ++ X ++ B ++ Y ++ R) w -> length X = cell_len -> length Y = cell_len ->
  wp n c (written a (A ++ Y ++ B ++ X ++ R) w) Q ->
  wp n (t ← c_load T (if d then lo else hi);
        x ← c_load T (if d then hi else lo);
        c_store T (if d then lo else hi) x ;;
        c_store T (if d then hi else lo) t ;; c)
    (written a (A ++ X ++ B ++ Y ++ R) w) Q.
Proof.
  intros lo hi Hf HX HY HQ. assert (Hb := proj2 Hf). rewrite !Forall_app in Hb. destruct_and!.
  assert (Hhi : forall Z1, length Z1 = cell_len -> hi = a + zlen (A ++ Z1 ++ B)).
  { intros Z1 HZ1. unfold hi. rewrite !length_app. lia. }
  assert (Hre : forall Z1 Z2, A ++ Z1 ++ B ++ Z2 ++ R = (A ++ Z1 ++ B) ++ Z2 ++ R).
  { intros Z1 Z2. by rewrite <-!app_assoc. }
  assert (Hlo_m : forall G, mapped (w_mem (written a G w)) lo (Z.of_nat cell_len)).
  { intros G. apply (flat_mapped a _ _ _ _ _ Hf); unfold lo; rewrite ?length_app; lia. }
  assert (Hhi_m : forall G, mapped (w_mem (written a G w)) hi (Z.of_nat cell_len)).
  { intros G. apply (flat_mapped a _ _ _ _ _ Hf); unfold hi; rewrite ?length_app; lia. }
  assert (Hlo_w : forall Z1 Z2 Z3, length Z1 = cell_len -> length Z2 = cell_len ->
    written lo Z2 (written a (A ++ Z1 ++ Z3) w) = written a (A ++ Z2 ++ Z3) w).
  { intros. apply flat_write. congruence. }
  assert (Hhi_w : forall Z1 Z2 Z3, length Z1 = cell_len -> length Z2 = cell_len ->
    length Z3 = cell_len ->
    written hi Z3 (written a (A ++ Z1 ++ B ++ Z2 ++ R) w) = written a (A ++ Z1 ++ B ++ Z3 ++ R) w).
  { intros Z1 Z2 Z3 ???. rewrite !Hre, (Hhi Z1) by done. apply flat_write. congruence. }
  assert (Hhi_b : bytes (w_mem (written a (A ++ X ++ B ++ Y ++ R) w)) hi Y).
  { rewrite Hre, (Hhi X) by done. apply flat_bytes. }
  assert (Hlo_b : bytes (w_mem (written a (A ++ X ++ B ++ Y ++ R) w)) lo X) by apply flat_bytes.
  destruct d.
  - wp_step. eapply wp_c_load; [exact Hlo_b|done..|]. wp_step.
    eapply wp_c_load; [exact Hhi_b|done..|]. wp_step.
    apply wp_c_store; [rewrite HY; apply Hlo_m|done..|]. rewrite Hlo_w by done. wp_step.
    apply wp_c_store; [rewrite HX; apply Hhi_m|done..|]. by rewrite Hhi_w by done.
  - wp_step. eapply wp_c_load; [exact Hhi_b|done..|]. wp_step.
    eapply wp_c_load; [exact Hlo_b|done..|]. wp_step.
    apply wp_c_store; [rewrite HX; apply Hhi_m|done..|]. rewrite Hhi_w by done. wp_step.
    apply wp_c_store; [rewrite HY; apply Hlo_m|done..|]. by rewrite Hlo_w by done.
Qed.

Lemma wp_exchange_tail {S} n (c1 c2 : C S) (s1 s2 : S -> S -> C unit) w
    (Q : unit -> world -> Prop) :
  wp n (t ← c1; x ← c2; s1 t x ;; s2 t x ;; mret tt) w Q ->
  wp n (t ← c1; x ← c2; s1 t x ;; s2 t x) w Q.
Proof.
  intros (u & w' & E & HQ)%wp_exists. apply wp_exists. destruct u. exists tt, w'.
  split; [|exact HQ]. revert E. unfold mbind, C_bind, mret, C_ret.
  destruct (c1 n w) as [t w1| |]; [|done..]. destruct (c2 n w1) as [x w2| |]; [|done..].
  destruct (s1 t x n w2) as [[] w3| |]; [|done..]. by destruct (s2 t x n w3) as [[] w4| |].
Qed.

(** The exchange of a cell with itself. *)
Lemma wp_exchange_same {S} n p X (c : C S) w (Q : S -> world -> Prop) :
  bytes (w_mem w) p X -> Forall (fun b => is_byte b) X -> length X = cell_len ->
  wp n c w Q ->
  wp n (t ← c_load T p; x ← c_load T p; c_store T p x ;; c_store T p t ;; c) w Q.
Proof.
  intros Hb HX Hl HQ. assert (Hm := bytes_mapped _ _ _ Hb).
  wp_step. eapply wp_c_load; [done..|]. wp_step. eapply wp_c_load; [done..|]. wp_step.
  apply wp_c_store; [done..|]. rewrite written_id by done. wp_step.
  apply wp_c_store; [done..|]. by rewrite written_id by done.
Qed.

Lemma flat_swap a A X B Y R w :
  flat a (A ++ X ++ B ++ Y ++ R) w -> length X = length Y ->
  flat a (A ++ Y ++ B ++ X ++ R) w.
Proof.
  intros [Hm Hb] Hl. split.
  - replace (zlen (A ++ Y ++ B ++ X ++ R)) with (zlen (A ++ X ++ B ++ Y ++ R)); [done|].
    rewrite !length_app. lia.
  - rewrite !Forall_app in *. tauto.
Qed.

Lemma split_cell (X : list Z) i j :
  length X = (i + j)%nat -> exists x X', X = x ++ X' /\ length x = i /\ length X' = j.
Proof.
  intros H. exists (take i X), (drop i X).
  rewrite take_drop, length_take, length_drop. split_and!; [done|lia|lia].
Qed.

(** The number of cells of an array. *)
Lemma cells_count (X : list Z) :
  X <> [] -> zlen X mod c_size T = 0 ->
  exists i, length X = (cell_len * S i)%nat /\ zlen X / c_size T = Z.of_nat (S i).
Proof.
  intros Hne Hmod. assert (Hpos := cell_len_pos (T := T)). rewrite <-cell_len_size in *.
  assert (0 < zlen X) by (destruct X; [done|cbn; lia]).
  pose proof (Z.div_mod (zlen X) (Z.of_nat cell_len) ltac:(lia)) as Hd. rewrite Hmod in Hd.
  set (q := zlen X / Z.of_nat cell_len) in *. assert (0 < q) by nia.
  exists (Z.to_nat (q - 1)). split; [|lia].
  apply Nat2Z.inj. rewrite Nat2Z.inj_mul. replace (Z.of_nat (S (Z.to_nat (q - 1)))) with q by lia.
  lia.
Qed.

Lemma wp_swapcode_loop (d : bool) n k i a A X B Y R w (Q : unit -> world -> Prop) :
  let lo := a + zlen A in
  let hi := a + zlen A + zlen X + zlen B in
  flat a (A ++ X ++ B ++ Y ++ R) w -> length X = (cell_len * S i)%nat ->
  length Y = length X -> (i < k)%nat ->
  Q tt (written a (A ++ Y ++ B ++ X ++ R) w) ->
  wp n (loop_k k (fun '(i, pi, pj) =>
    t ← c_load T pi;
    x ← c_load T pj;
    c_store T pi x ;;
    c_store T pj t ;;
    let i := i - 1 in
    if 0 <? i then next (i, pi + c_size T, pj + c_size T) else brk tt)
    (Z.of_nat (S i), if d then lo else hi, if d then hi else lo))
    (written a (A ++ X ++ B ++ Y ++ R) w) Q.
Proof.
  revert k A X B Y. induction i as [|i IH]; intros [|k] A X B Y lo hi Hf HX HY Hk HQ;
    try lia; wp_loop.
  - apply (wp_exchange d); [done|lia|lia|]. change (0 <? Z.of_nat 1 - 1) with false. by wp_steps.
  - assert (Hpos := cell_len_pos (T := T)). assert (Hsz := cell_len_size (T := T)).
    destruct (split_cell X cell_len (cell_len * S i)) as (x & X' & -> & Hx & HX'); [lia|].
    destruct (split_cell Y cell_len (cell_len * S i)) as (y & Y' & -> & Hy & HY'); [lia|].
    assert (Ehi : hi = a + zlen A + zlen x + zlen (X' ++ B)).
    { unfold hi. rewrite !length_app. lia. }
    assert (Hf' := Hf). rewrite <-!app_assoc in Hf', HQ |- *.
    replace (A ++ x ++ X' ++ B ++ y ++ Y' ++ R) with (A ++ x ++ (X' ++ B) ++ y ++ (Y' ++ R)) in *
      by (by rewrite <-!app_assoc).
    rewrite Ehi. apply (wp_exchange d); [done|done|done|].
    apply (flat_swap _ A x (X' ++ B) y) in Hf'; [|congruence].
    rewrite (proj2 (Z.ltb_lt 0 _)) by (clear; lia). wp_steps.
    replace (A ++ y ++ (X' ++ B) ++ x ++ Y' ++ R) with
      ((A ++ y) ++ X' ++ (B ++ x) ++ Y' ++ R) in * by (by rewrite <-!app_assoc).
    assert (Elo : lo + c_size T = a + zlen (A ++ y)) by (unfold lo; rewrite length_app; lia).
    assert (Ehi' : a + zlen A + zlen x + zlen (X' ++ B) + c_size T =
      a + zlen (A ++ y) + zlen X' + zlen (B ++ x)) by (rewrite !length_app; lia).
    replace (Z.of_nat (S (S i)) - 1) with (Z.of_nat (S i)) by lia.
    assert (H := IH k (A ++ y) X' (B ++ x) Y'). cbv zeta in H. fold lo in Ehi' |- *.
    destruct d; rewrite Elo, Ehi'; (apply H; [done|done|congruence|lia|]);
      rewrite <-!app_assoc; exact HQ.
Qed.

Lemma wp_swapcode_same n k i p X w (Q : unit -> world -> Prop) :
  bytes (w_mem w) p X -> Forall (fun b => is_byte b) X -> length X = (cell_len * S i)%nat ->
  (i < k)%nat -> Q tt w ->
  wp n (loop_k k (fun '(i, pi, pj) =>
    t ← c_load T pi;
    x ← c_load T pj;
    c_store T pi x ;;
    c_store T pj t ;;
    let i := i - 1 in
    if 0 <? i then next (i, pi + c_size T, pj + c_size T) else brk tt)
    (Z.of_nat (S i), p, p)) w Q.
Proof.
  revert k p X. induction i as [|i IH]; intros [|k] p X Hb HX Hl Hk HQ; try lia; wp_loop.
  - apply (wp_exchange_same _ _ X); [done|done|lia|].
    change (0 <? Z.of_nat 1 - 1) with false. by wp_steps.
  - assert (Hsz := cell_len_size (T := T)).
    destruct (split_cell X cell_len (cell_len * S i)) as (x & X' & -> & Hx & HX'); [lia|].
    apply bytes_app in Hb as [Hb Hb']. apply Forall_app in HX as [HXx HXx'].
    apply (wp_exchange_same _ _ x); [done..|].
    rewrite (proj2 (Z.ltb_lt 0 _)) by (clear; lia). wp_steps.
    replace (Z.of_nat (S (S i)) - 1) with (Z.of_nat (S i)) by lia.
    replace (p + c_size T) with (p + zlen x) by lia. apply (IH k _ X'); [done..|lia|done].
Qed.

(** The whole of [swapcode] on [N] bytes. *)
Lemma wp_swapcode (d : bool) n a A X B Y R w (Q : unit -> world -> Prop) :
  let lo := a + zlen A in
  let hi := a + zlen A + zlen X + zlen B in
  flat a (A ++ X ++ B ++ Y ++ R) w -> length Y = length X -> X <> [] ->
  zlen X mod c_size T = 0 -> zlen X < 2147483648 -> (length X < n)%nat ->
  Q tt (written a (A ++ Y ++ B ++ X ++ R) w) ->
  wp n (swapcode T (if d then lo else hi) (if d then hi else lo) (zlen X))
    (written a (A ++ X ++ B ++ Y ++ R) w) Q.
Proof.
  intros lo hi Hf HY Hne Hmod Hlt Hn HQ. unfold swapcode. apply wp_loop_k.
  rewrite u32_small by lia. destruct (cells_count X) as (i & Hi & Hdiv); [done..|].
  rewrite Hdiv. apply (wp_swapcode_loop d); [done..|nia|done].
Qed.

Lemma wp_swapcode_eq n p X w (Q : unit -> world -> Prop) :
  bytes (w_mem w) p X -> Forall (fun b => is_byte b) X -> X <> [] ->
  zlen X mod c_size T = 0 -> zlen X < 2147483648 -> (length X < n)%nat ->
  Q tt w -> wp n (swapcode T p p (zlen X)) w Q.
Proof.
  intros Hb HX Hne Hmod Hlt Hn HQ. unfold swapcode. apply wp_loop_k.
  rewrite u32_small by lia. destruct (cells_count X) as (i & Hi & Hdiv); [done..|].
  rewrite Hdiv. apply (wp_swapcode_same _ _ _ _ X); [done..|nia|done].
Qed.
End swapcode.
End flat.

(** ** The order of the elements *)

Section order.
Context {E : nat} {cmp : Z -> Z -> C Z} {Hcmp : comparator cmp E}.
Implicit Types (x y p : list Z) (F L : list (list Z)).

Definition le x y : Prop := ord x y <= 0.
Abbreviation sorted := (StronglySorted le).

Lemma le_total x y : ~ le x y -> le y x /\ 0 < ord x y.
Proof. unfold le. pose proof (ord_sym x y). lia. Qed.

Lemma sorted_app L1 L2 :
  sorted (L1 ++ L2) <->
  sorted L1 /\ sorted L2 /\ forall x y, x ∈ L1 -> y ∈ L2 -> le x y.
Proof.
  induction L1 as [|z L1 IH]; cbn [app].
  - split; [intros H; split_and!; [constructor|done|set_solver]|tauto].
  - split.
    + intros [H Hz]%StronglySorted_inv. apply IH in H as (H1 & H2 & H3).
      apply Forall_app in Hz as [Hz1 Hz2]. rewrite Forall_forall in Hz2.
      split_and!; [by constructor|done|]. intros x y [->|Hx]%elem_of_cons Hy; auto.
    + intros ([H1 Hz]%StronglySorted_inv & H2 & H3). constructor.
      * apply IH. split_and!; [done..|]. intros x y Hx Hy. apply H3; [by right|done].
      * apply Forall_app. split; [done|]. rewrite Forall_forall. intros y Hy.
        apply H3; [by left|done].
Qed.

Lemma sorted_equal p F : Forall (fun x => ord x p = 0) F -> sorted F.
Proof.
  induction 1 as [|x F Hx HF IH]; constructor; [done|].
  eapply Forall_impl; [exact HF|]. intros y Hy. pose proof (ord_sym y p) as Hs.
  cbn in Hx, Hy. apply (ord_trans _ p); lia.
Qed.

Lemma le_parts p x y : ord x p <= 0 -> 0 <= ord y p -> le x y.
Proof. intros Hx Hy. apply (ord_trans _ p); [done|]. pose proof (ord_sym y p). lia. Qed.

(** Sorted smaller elements, then the equal ones. *)
Lemma sorted_front p S' F : sorted S' -> Forall (fun x => ord x p < 0) S' ->
  Forall (fun x => ord x p = 0) F -> sorted (S' ++ F).
Proof.
  intros Hs HS HF. apply sorted_app. split_and!; [done|by eapply sorted_equal|].
  rewrite Forall_forall in HS, HF. intros x y Hx Hy. apply (le_parts p).
  - specialize (HS x Hx). cbn in HS. lia.
  - specialize (HF y Hy). cbn in HF. lia.
Qed.
End order.

(** ** Arrays of elements *)

Section elements.
Context (E : nat) (HE : (0 < E)%nat) (a : Z) (w : world).
Implicit Types (L A B R XS YS : list (list Z)) (x y : list Z).

Abbreviation ez := (Z.of_nat E).

(** The states of the array during the sort. *)
Definition state L : world := written a (concat L) w.

Record arr L : Prop := {
  arr_ok : mem_ok (w_mem w);
  arr_elems : Forall (fun x => length x = E) L;
  arr_flat : flat a (concat L) w;
}.

Lemma concat_len L : Forall (fun x => length x = E) L -> zlen (concat L) = ez * zlen L.
Proof.
  induction 1 as [|x L Hx _ IH]; [cbn; lia|]. cbn [concat length].
  rewrite length_app, Nat2Z.inj_add, IH, Hx. lia.
Qed.

Lemma arr_perm L L' : Permutation L L' -> arr L -> arr L'.
Proof.
  intros HP [Hm He [Hf Hb]]. assert (He' : Forall (fun x => length x = E) L').
  { by rewrite <-HP. }
  split; [done..|]. split.
  - rewrite concat_len in * by done. by rewrite <-HP.
  - rewrite Forall_concat in *. by rewrite <-HP.
Qed.

Lemma arr_range L : arr L -> L <> [] -> 0 < a /\ a + ez * zlen L <= 1073741824.
Proof.
  intros [Hm He [Hf Hb]] Hne. rewrite <-concat_len by done.
  assert (Hr := mem_ok_range (w_mem w) a). apply mapped_bytes in Hf as (F & Hl & HF); [|lia].
  specialize (Hr F Hm HF). rewrite Hl in Hr. apply Hr.
  destruct F; [|done]. cbn in Hl. rewrite concat_len in Hl by done.
  destruct L; [done|]. cbn [length] in Hl. nia.
Qed.

(** The address of the [k]-th element. *)
Definition at_ (k : Z) : Z := a + ez * k.

Lemma concat_mid A x R : concat (A ++ x :: R) = concat A ++ x ++ concat R.
Proof. by rewrite concat_app. Qed.

Lemma arr_app L1 L2 : arr (L1 ++ L2) -> Forall (fun x => length x = E) L1 /\
  Forall (fun x => length x = E) L2.
Proof. intros [_ He _]. by apply Forall_app in He. Qed.

Lemma arr_bytes L x : arr L -> x ∈ L -> Forall (fun b => is_byte b) x.
Proof.
  intros [_ _ [_ Hb]] Hx. rewrite Forall_concat in Hb. rewrite Forall_forall in Hb. auto.
Qed.

Lemma state_mem_ok L : arr L -> mem_ok (w_mem (state L)).
Proof. intros [Hm _ [Hf Hb]]. by apply mem_ok_store. Qed.

Lemma state_bytes A x R : arr (A ++ x :: R) ->
  bytes (w_mem (state (A ++ x :: R))) (at_ (zlen A)) x.
Proof.
  intros Ha. unfold state. rewrite concat_mid. apply arr_app in Ha as [HA _].
  unfold at_. rewrite <-concat_len by done. apply flat_bytes.
Qed.

Lemma state_elem L i x : arr L -> L !! i = Some x ->
  bytes (w_mem (state L)) (at_ (Z.of_nat i)) x /\ length x = E.
Proof.
  intros Ha Hi. assert (Hlt := lookup_lt_Some _ _ _ Hi).
  rewrite <-(take_drop_middle L i x Hi) in Ha |- *. split.
  - replace (Z.of_nat i) with (zlen (take i L)) by (rewrite length_take; lia).
    by apply state_bytes.
  - apply arr_app in Ha as [_ H]. by apply Forall_inv in H.
Qed.

Context (st : Z) (Hst0 : st = 0 -> E = 4%nat) (Hst1 : st <= 1 -> ez mod 4 = 0).

(** Exchange of two different elements. *)
Lemma wp_swap_elems (d : bool) n A x B y R (Q : unit -> world -> Prop) :
  let lo := at_ (zlen A) in
  let hi := at_ (zlen A + 1 + zlen B) in
  arr (A ++ x :: B ++ y :: R) -> (E < n)%nat ->
  Q tt (state (A ++ y :: B ++ x :: R)) ->
  wp n (swap ez st (if d then lo else hi) (if d then hi else lo))
    (state (A ++ x :: B ++ y :: R)) Q.
Proof.
  intros lo hi Ha Hn HQ. unfold state in *. rewrite !concat_mid in HQ |- *.
  assert (Hr := arr_range _ Ha ltac:(by destruct A)). destruct Ha as [Hm He Hf].
  rewrite !concat_mid in Hf. apply Forall_app in He as [HA He].
  apply Forall_cons in He as [Hx He]. apply Forall_app in He as [HB He].
  apply Forall_cons in He as [Hy _].
  assert (Elo : lo = a + zlen (concat A)) by (rewrite concat_len; done).
  assert (Ehi : hi = a + zlen (concat A) + zlen x + zlen (concat B)).
  { rewrite !concat_len, Hx by done. unfold hi, at_. lia. }
  assert (HE2 : ez < 2147483648).
  { rewrite !length_app in Hr. cbn [length] in Hr. nia. }
  assert (Hne : x <> []) by (by destruct x; cbn in Hx; [lia|]).
  unfold swap. rewrite Elo, Ehi. destruct (Z.eqb_spec st 0) as [E0|E0].
  - assert (H4 := Hst0 E0).
    assert (H := wp_exchange cell_long d n a (concat A) x (concat B) y (concat R) (mret tt) w Q).
    cbv zeta in H. change (c_load cell_long) with load32 in H.
    change (c_store cell_long) with store32 in H.
    apply wp_exchange_tail, H; [done|rewrite Hx; done|rewrite Hy; done|]. by apply wp_ret.
  - unfold swapfunc. rewrite i32_small by lia. replace ez with (zlen x) by lia.
    destruct (Z.leb_spec st 1).
    + apply (wp_swapcode cell_long d); [done|congruence|done|rewrite Hx; by apply Hst1|lia|lia|done].
    + apply (wp_swapcode cell_char d); [done|congruence|done|apply Z.mod_1_r|lia|lia|done].
Qed.

Lemma wp_swap_same n A x R (Q : unit -> world -> Prop) :
  arr (A ++ x :: R) -> (E < n)%nat -> Q tt (state (A ++ x :: R)) ->
  wp n (swap ez st (at_ (zlen A)) (at_ (zlen A))) (state (A ++ x :: R)) Q.
Proof.
  intros Ha Hn HQ. assert (Hb := state_bytes _ _ _ Ha).
  assert (Hx8 : Forall (fun b => is_byte b) x) by (apply (arr_bytes _ _ Ha); set_solver).
  assert (Hr := arr_range _ Ha ltac:(by destruct A)).
  assert (Hx : length x = E) by (apply arr_app in Ha as [_ H]; by apply Forall_inv in H).
  assert (HE2 : ez < 2147483648) by (rewrite length_app in Hr; cbn [length] in Hr; nia).
  assert (Hne : x <> []) by (by destruct x; cbn in Hx; [lia|]).
  unfold swap. destruct (Z.eqb_spec st 0) as [E0|E0].
  - assert (H4 := Hst0 E0).
    assert (H := wp_exchange_same cell_long n (at_ (zlen A)) x (mret tt) _ Q Hb Hx8).
    change (c_load cell_long) with load32 in H. change (c_store cell_long) with store32 in H.
    apply wp_exchange_tail, H; [by rewrite Hx|]. by apply wp_ret.
  - unfold swapfunc. rewrite i32_small by lia. replace ez with (zlen x) by lia.
    destruct (Z.leb_spec st 1).
    + apply (wp_swapcode_eq cell_long _ _ x); [done..|rewrite Hx; by apply Hst1|lia|lia|done].
    + apply (wp_swapcode_eq cell_char _ _ x); [done..|apply Z.mod_1_r|lia|lia|done].
Qed.

(** Exchange of two blocks of elements. *)
Lemma wp_vecswap n A XS B YS R k (Q : unit -> world -> Prop) :
  let lo := at_ (zlen A) in
  let hi := at_ (zlen A + zlen XS + zlen B) in
  arr (A ++ XS ++ B ++ YS ++ R) -> length XS = length YS -> k = ez * zlen XS ->
  (E * length XS < n)%nat ->
  Q tt (state (A ++ YS ++ B ++ XS ++ R)) ->
  wp n (vecswap st lo hi k) (state (A ++ XS ++ B ++ YS ++ R)) Q.
Proof.
  intros lo hi Ha Hl -> Hn HQ. unfold vecswap. destruct (decide (XS = [])) as [->|Hxs].
  { destruct YS; [|done]. replace (ez * zlen []) with 0 by (cbn; lia).
    change (0 <? 0) with false. by apply wp_ret. }
  assert (Hpos : 0 < zlen XS) by (destruct XS; [done|cbn; lia]).
  assert (Hr := arr_range _ Ha ltac:(destruct A, XS; done)).
  rewrite (proj2 (Z.ltb_lt 0 _)) by nia.
  unfold state in *. destruct Ha as [Hm He Hf]. rewrite !concat_app in *.
  apply Forall_app in He as [HA He]. apply Forall_app in He as [HX He].
  apply Forall_app in He as [HB He]. apply Forall_app in He as [HY _].
  assert (Elo : lo = a + zlen (concat A)) by (rewrite concat_len; done).
  assert (Ehi : hi = a + zlen (concat A) + zlen (concat XS) + zlen (concat B)).
  { rewrite !concat_len by done. unfold hi, at_. lia. }
  assert (Hcx := concat_len _ HX). assert (Hcy := concat_len _ HY).
  rewrite !length_app in Hr.
  assert (Hne : concat XS <> []) by (intros H; rewrite H in Hcx; cbn in Hcx; nia).
  rewrite Elo, Ehi, <-Hcx. unfold swapfunc. destruct (Z.leb_spec st 1) as [H1|H1].
  - apply (wp_swapcode cell_long true); [done|lia|done| |nia|lia|done].
    rewrite Hcx. change (c_size cell_long) with 4. rewrite <-Z.mul_mod_idemp_l, Hst1 by lia. done.
  - apply (wp_swapcode cell_char true); [done|lia|done|apply Z.mod_1_r|nia|lia|done].
Qed.

Context (cmp : Z -> Z -> C Z) {Hcmp : comparator cmp E}.

Lemma lookup_at L A x R i : L = A ++ x :: R -> i = length A -> L !! i = Some x.
Proof. intros -> ->. by apply list_lookup_middle. Qed.

Lemma wp_cmp n L i j x y p q (Q : Z -> world -> Prop) :
  (cmp_fuel <= n)%nat -> arr L -> L !! i = Some x -> L !! j = Some y ->
  p = at_ (Z.of_nat i) -> q = at_ (Z.of_nat j) ->
  (forall r, Z.sgn r = Z.sgn (ord x y) -> Q r (state L)) ->
  wp n (cmp p q) (state L) Q.
Proof.
  intros Hn Ha Hi Hj -> -> HQ.
  destruct (state_elem _ _ _ Ha Hi), (state_elem _ _ _ Ha Hj).
  eapply cmp_spec; [done|by apply state_mem_ok|done..].
Qed.

(** *** Insertion sort *)

Abbreviation sorted := (StronglySorted le).

Lemma at_lt i j : i < j -> at_ i < at_ j.
Proof. unfold at_. nia. Qed.
Lemma at_le i j : i <= j -> at_ i <= at_ j.
Proof. unfold at_. nia. Qed.
Lemma at_0 : at_ 0 = a.
Proof. unfold at_. lia. Qed.
Lemma at_plus i : at_ i + ez = at_ (i + 1).
Proof. unfold at_. lia. Qed.
Lemma at_minus i : at_ i - ez = at_ (i - 1).
Proof. unfold at_. lia. Qed.

Lemma wp_insert n k P x T R (Q : unit -> world -> Prop) :
  arr (P ++ x :: T ++ R) -> sorted (P ++ T) -> Forall (fun t => le x t) T ->
  (cmp_fuel <= n)%nat -> (E < n)%nat -> (length P < k)%nat ->
  (forall S', sorted S' -> Permutation S' (P ++ x :: T) -> Q tt (state (S' ++ R))) ->
  wp n (loop_k k (fun pl =>
    if a <? pl then
      r ← cmp (pl - ez) pl;
      if 0 <? r then swap ez st pl (pl - ez) ;; next (pl - ez)
      else brk tt
    else brk tt) (at_ (zlen P))) (state (P ++ x :: T ++ R)) Q.
Proof.
  intros Ha Hs HT Hf Hn. revert k T Ha Hs HT.
  induction P as [|y P IH] using rev_ind; intros [|k] T Ha Hs HT Hk HQ; try lia; wp_loop.
  - cbn [length]. change (Z.of_nat 0) with 0. rewrite at_0, Z.ltb_irrefl. wp_steps. apply (HQ (x :: T)); [|done]. by constructor.
  - rewrite length_app in *. cbn [length] in *.
    rewrite (proj2 (Z.ltb_lt _ _)) by (rewrite <-at_0 at 1; apply at_lt; lia).
    rewrite <-app_assoc in Ha, Hs, HQ |- *. cbn [app] in *. rewrite at_minus. wp_steps.
    apply (wp_cmp _ _ (length P) (S (length P)) y x); [done|done| | |f_equal; lia|f_equal; lia|].
    { by eapply lookup_at. }
    { apply (lookup_at _ (P ++ [y]) _ (T ++ R)); [by rewrite <-app_assoc|].
      rewrite length_app; cbn [length]; lia. }
    intros r Hr. destruct (Z.ltb_spec 0 r) as [Hlt|Hge]; wp_steps.
    + assert (Hgt : 0 < ord y x) by lia. assert (Hle : le x y).
      { unfold le. pose proof (ord_sym y x). lia. }
      assert (H := wp_swap_elems false n P y [] x (T ++ R)). cbv zeta in H. cbn [app length] in H.
      replace (at_ (zlen P + 1 + Z.of_nat 0)) with (at_ (Z.of_nat (length P + 1))) in H
        by (f_equal; lia).
      replace (at_ (Z.of_nat (length P + 1) - 1)) with (at_ (zlen P)) by (f_equal; lia).
      apply H; [done|done|]. wp_steps.
      apply (IH k (y :: T)); [|done| |lia|].
      * eapply arr_perm; [|exact Ha]. apply Permutation_app_head, perm_swap.
      * constructor; [done|]. done.
      * intros S' HS' HP. apply HQ; [done|]. rewrite HP.
        apply Permutation_app_head. cbn [app]. apply perm_swap.
    + assert (Hle : le y x) by (unfold le; lia).
      assert (HQ' := HQ (P ++ y :: x :: T)). rewrite <-app_assoc in HQ'. apply HQ'; [|done].
      apply sorted_app in Hs as (H1 & [H2 H3]%StronglySorted_inv & H4).
      apply sorted_app. split_and!; [done| |].
      * constructor; [by constructor|]. by constructor.
      * intros u v Hu [->|[->|Hv]%elem_of_cons]%elem_of_cons.
        -- apply H4; [done|by left].
        -- apply (ord_trans _ y); [|done]. apply H4; [done|by left].
        -- apply H4; [done|by right].
Qed.

Lemma wp_insertion_loop n k S' U (Q : unit -> world -> Prop) :
  arr (S' ++ U) -> sorted S' -> (cmp_fuel <= n)%nat -> (E < n)%nat ->
  (length (S' ++ U) < n)%nat -> (length U < k)%nat ->
  (forall L', sorted L' -> Permutation L' (S' ++ U) -> Q tt (state L')) ->
  wp n (loop_k k (fun pm =>
    if pm <? at_ (zlen (S' ++ U)) then
      loop (fun pl =>
        if a <? pl then
          r ← cmp (pl - ez) pl;
          if 0 <? r then swap ez st pl (pl - ez) ;; next (pl - ez)
          else brk tt
        else brk tt) pm ;;
      next (pm + ez)
    else brk tt) (at_ (zlen S'))) (state (S' ++ U)) Q.
Proof.
  intros Ha Hs Hf Hn HL. revert k S' Ha Hs HL.
  induction U as [|x U IH]; intros [|k] S' Ha Hs HL Hk HQ; cbn [length] in Hk; try lia; wp_loop.
  - rewrite app_nil_r in *. rewrite Z.ltb_irrefl. wp_steps. by apply HQ.
  - rewrite (proj2 (Z.ltb_lt _ _)) by (apply at_lt; rewrite length_app; cbn [length]; lia).
    wp_steps. apply wp_loop_k. rewrite length_app in HL. cbn [length] in HL.
    apply (wp_insert n n S' x [] U); [done|by rewrite app_nil_r|done|done|done|lia|].
    intros T HT HP. wp_steps.
    assert (Hlen : length T = S (length S')).
    { rewrite HP, length_app. cbn [length]. lia. }
    replace (at_ (zlen S') + ez) with (at_ (zlen T)) by (rewrite at_plus; f_equal; lia).
    replace (at_ (zlen (S' ++ x :: U))) with (at_ (zlen (T ++ U)))
      by (f_equal; rewrite !length_app; cbn [length]; lia).
    assert (HP' : Permutation (T ++ U) (S' ++ x :: U)) by (by rewrite HP, <-app_assoc).
    apply IH; [|done|rewrite length_app; lia|lia|].
    + by eapply arr_perm; [symmetry|].
    + intros L' HL' HPL. apply HQ; [done|]. by rewrite HPL.
Qed.

Lemma wp_insertion n L (Q : unit -> world -> Prop) :
  arr L -> (cmp_fuel <= n)%nat -> (E < n)%nat -> (length L < n)%nat ->
  (forall L', sorted L' -> Permutation L' L -> Q tt (state L')) ->
  wp n (insertion cmp a (zlen L) ez st) (state L) Q.
Proof.
  intros Ha Hf Hn HL HQ. unfold insertion.
  assert (Hend : a + u32 (zlen L * ez) = at_ (zlen L)).
  { unfold at_. rewrite u32_small; [lia|]. destruct L as [|x L]; [cbn; lia|].
    pose proof (arr_range _ Ha ltac:(done)). lia. }
  rewrite Hend. apply wp_loop_k. destruct L as [|x L].
  - destruct n as [|n]; [lia|]. wp_loop. cbn [length]. change (Z.of_nat 0) with 0.
    rewrite at_0, (proj2 (Z.ltb_ge _ _)) by lia. wp_steps. apply HQ; [constructor|done].
  - replace (a + ez) with (at_ (zlen [x])) by (unfold at_; cbn; lia).
    apply (wp_insertion_loop n n [x] L); [done| |done|done|done|cbn [length] in HL; lia|done].
    by repeat constructor.
Qed.

(** *** The pivot *)

Lemma wp_med3 n L i j k p q r (Q : Z -> world -> Prop) :
  (cmp_fuel <= n)%nat -> arr L -> (i < length L)%nat -> (j < length L)%nat -> (k < length L)%nat ->
  p = at_ (Z.of_nat i) -> q = at_ (Z.of_nat j) -> r = at_ (Z.of_nat k) ->
  Q p (state L) -> Q q (state L) -> Q r (state L) ->
  wp n (med3 cmp p q r) (state L) Q.
Proof.
  intros Hf Ha [x Hi]%lookup_lt_is_Some_2 [y Hj]%lookup_lt_is_Some_2 [z Hk]%lookup_lt_is_Some_2
    Hp Hq Hr Qp Qq Qr.
  unfold med3. wp_step. eapply (wp_cmp _ _ i j); [done..|]. intros r1 _.
  destruct (r1 <? 0); wp_step; (eapply (wp_cmp _ _ j k); [done..|]); intros r2 _;
    destruct (_ <? _); wp_steps; try done; (eapply (wp_cmp _ _ i k); [done..|]); intros r3 _;
    wp_steps; by destruct (_ <? _).
Qed.

Lemma wp_pivot n L (Q : Z -> world -> Prop) :
  (cmp_fuel <= n)%nat -> arr L -> (7 <= length L)%nat ->
  (forall m, (m < length L)%nat -> Q (at_ (Z.of_nat m)) (state L)) ->
  wp n (pivot cmp a (zlen L) ez) (state L) Q.
Proof.
  intros Hf Ha Hlen HQ. pose proof (arr_range _ Ha ltac:(by destruct L; cbn in Hlen; [lia|])) as Hr.
  assert (Hat : forall k, 0 <= k <= zlen L -> a + u32 (k * ez) = at_ k).
  { intros k Hk. unfold at_. rewrite u32_small; [lia|]. nia. }
  unfold pivot. rewrite !Hat by lia.
  assert (Hsub : forall k d, at_ k - ez * d = at_ (k - d)) by (intros; unfold at_; lia).
  assert (Hadd : forall k d, at_ k + ez * d = at_ (k + d)) by (intros; unfold at_; lia).
  assert (HZ : forall k, 0 <= k -> at_ k = at_ (Z.of_nat (Z.to_nat k))) by (intros; f_equal; lia).
  set (len := zlen L) in *.
  assert (Hz : forall k, 0 <= k < len -> Q (at_ k) (state L)).
  { intros k Hk. rewrite HZ by lia. apply HQ. lia. }
  destruct (Z.ltb_spec 7 len) as [H7|H7]; [|wp_steps; apply Hz; lia].
  assert (Hmed : forall i j k (P : Z -> world -> Prop),
    0 <= i < len -> 0 <= j < len -> 0 <= k < len ->
    (forall m, 0 <= m < len -> P (at_ m) (state L)) ->
    wp n (med3 cmp (at_ i) (at_ j) (at_ k)) (state L) P).
  { intros i j k P Hi Hj Hk HP.
    eapply (wp_med3 _ _ (Z.to_nat i) (Z.to_nat j) (Z.to_nat k)); [done|done|lia|lia|lia|..];
      first [by apply HP|apply HZ; lia]. }
  wp_step. destruct (Z.ltb_spec 40 len) as [H40|H40]; wp_steps.
  - replace (i32 (u32 (len / 8 * ez))) with (ez * (len / 8)).
    2: { rewrite u32_small, i32_small; nia. }
    replace (2 * (ez * (len / 8))) with (ez * (2 * (len / 8))) by lia.
    rewrite <-at_0 at 1 2 3. rewrite !Hadd, !Hsub, !Z.add_0_l.
    apply Hmed; [lia..|]. intros m1 Hm1. wp_step.
    apply Hmed; [lia..|]. intros m2 Hm2. wp_step.
    apply Hmed; [lia..|]. intros m3 Hm3. wp_steps. apply Hmed; auto.
  - rewrite <-at_0 at 1. apply Hmed; [lia..|done].
Qed.

(** *** The partition

    During the partition the array is [p :: E1 ++ Lt ++ M ++ Gt ++ E2]: elements
    equal to the pivot [p], smaller, not yet seen, greater and equal.  [pa],
    [pb], [pc] and [pd] delimit the parts. *)

Record parts (p : list Z) (E1 Lt Gt E2 : list (list Z)) : Prop := {
  parts_E1 : Forall (fun x => ord x p = 0) E1;
  parts_Lt : Forall (fun x => ord x p < 0) Lt;
  parts_Gt : Forall (fun x => 0 < ord x p) Gt;
  parts_E2 : Forall (fun x => ord x p = 0) E2;
}.

Definition whole (p : list Z) (E1 Lt M Gt E2 : list (list Z)) : list (list Z) :=
  p :: E1 ++ Lt ++ M ++ Gt ++ E2.

Definition pa_ (E1 : list (list Z)) : Z := at_ (1 + zlen E1).
Definition pb_ (E1 Lt : list (list Z)) : Z := at_ (1 + zlen E1 + zlen Lt).
Definition pc_ (E1 Lt M : list (list Z)) : Z := at_ (zlen E1 + zlen Lt + zlen M).
Definition pd_ (E1 Lt M Gt : list (list Z)) : Z := at_ (zlen E1 + zlen Lt + zlen M + zlen Gt).

Lemma sgn_cases (r z : Z) : Z.sgn r = Z.sgn z -> (r <? 0) = (z <? 0) /\ (r =? 0) = (z =? 0).
Proof. lia. Qed.

(** [swap(pa, pb)]: the first unseen element joins the equal ones on the left. *)
Lemma wp_swap_ab n p E1 Lt m M R (Q : unit -> world -> Prop) :
  arr (p :: E1 ++ Lt ++ m :: M ++ R) -> (E < n)%nat ->
  (forall Lt', Permutation Lt' Lt ->
     Q tt (state (p :: (E1 ++ [m]) ++ Lt' ++ M ++ R))) ->
  wp n (swap ez st (pa_ E1) (pb_ E1 Lt)) (state (p :: E1 ++ Lt ++ m :: M ++ R)) Q.
Proof.
  intros Ha Hn HQ. unfold pa_, pb_. destruct Lt as [|x Lt].
  - cbn [app length] in *. replace (1 + zlen E1 + Z.of_nat 0) with (1 + zlen E1) by lia.
    replace (1 + zlen E1) with (zlen (p :: E1)) by (cbn [length]; lia).
    apply (wp_swap_same n (p :: E1) m (M ++ R)); [done|done|].
    assert (H := HQ [] ltac:(done)). by rewrite <-app_assoc in H.
  - assert (H := wp_swap_elems true n (p :: E1) x Lt m (M ++ R)). cbv zeta in H.
    replace (1 + zlen E1) with (zlen (p :: E1)) by (cbn [length]; lia).
    replace (zlen (p :: E1) + zlen (x :: Lt)) with (zlen (p :: E1) + 1 + zlen Lt)
      by (cbn [length]; lia).
    cbn [app] in *. apply H; [done|done|].
    assert (H2 := HQ (Lt ++ [x]) ltac:(by rewrite Permutation_app_comm)).
    rewrite <-!app_assoc in H2. exact H2.
Qed.

Lemma wp_scan_up n k p E1 Lt M Gt E2 sc (Q : Z * Z * Z -> world -> Prop) :
  arr (whole p E1 Lt M Gt E2) -> parts p E1 Lt Gt E2 ->
  (cmp_fuel <= n)%nat -> (E < n)%nat -> (length M < k)%nat ->
  (forall E1' Lt' M' sc', parts p E1' Lt' Gt E2 ->
     Permutation (whole p E1' Lt' M' Gt E2) (whole p E1 Lt M Gt E2) ->
     (length M' <= length M)%nat ->
     match M' with [] => True | m :: _ => 0 < ord m p end ->
     pc_ E1' Lt' M' = pc_ E1 Lt M -> pd_ E1' Lt' M' Gt = pd_ E1 Lt M Gt ->
     Q (pa_ E1', pb_ E1' Lt', sc') (state (whole p E1' Lt' M' Gt E2))) ->
  wp n (loop_k k (fun '(pa, pb, swap_cnt) =>
    if pb <=? pc_ E1 Lt M then
      r ← cmp pb a;
      if r <=? 0 then
        if r =? 0 then
          swap ez st pa pb ;; next (pa + ez, pb + ez, 1)
        else next (pa, pb + ez, swap_cnt)
      else brk (pa, pb, swap_cnt)
    else brk (pa, pb, swap_cnt)) (pa_ E1, pb_ E1 Lt, sc)) (state (whole p E1 Lt M Gt E2)) Q.
Proof.
  intros Ha Hp Hf Hn. revert k E1 Lt sc Ha Hp.
  induction M as [|m M IH]; intros [|k] E1 Lt sc Ha Hp Hk HQ; cbn [length] in Hk; try lia; wp_loop.
  - rewrite (proj2 (Z.leb_gt _ _)).
    2: { unfold pb_, pc_. apply at_lt. cbn [length]. lia. }
    wp_steps. by apply (HQ E1 Lt []).
  - rewrite (proj2 (Z.leb_le _ _)).
    2: { unfold pb_, pc_. apply at_le. cbn [length]. lia. }
    wp_step. apply (wp_cmp _ _ (S (length E1 + length Lt)) 0 m p); [done|done| |done| |symmetry; apply at_0|].
    { apply (lookup_at _ (p :: E1 ++ Lt) _ (M ++ Gt ++ E2)).
      - unfold whole. cbn [app]. by rewrite <-!app_assoc.
      - cbn [length]. rewrite length_app. lia. }
    { unfold pb_. f_equal. lia. }
    intros r Hr. apply sgn_cases in Hr as [Hr1 Hr2].
    destruct (Z.leb_spec r 0) as [Hle|Hgt]; [|wp_steps; apply (HQ E1 Lt (m :: M)); try done; lia].
    rewrite Hr2. destruct (Z.eqb_spec (ord m p) 0) as [H0|H0].
    + wp_step. apply wp_swap_ab; [done|done|]. intros Lt' HLt. wp_steps.
      assert (HP : Permutation (whole p (E1 ++ [m]) Lt' M Gt E2) (whole p E1 Lt (m :: M) Gt E2)).
      { unfold whole. rewrite HLt, <-!app_assoc. constructor. apply Permutation_app_head.
        cbn [app]. apply Permutation_middle. }
      assert (Hl : length Lt' = length Lt) by (by rewrite HLt).
      assert (Hc : pc_ (E1 ++ [m]) Lt' M = pc_ E1 Lt (m :: M)).
      { unfold pc_. f_equal. rewrite length_app. cbn [length]. lia. }
      assert (Hd : pd_ (E1 ++ [m]) Lt' M Gt = pd_ E1 Lt (m :: M) Gt).
      { unfold pd_. f_equal. rewrite length_app. cbn [length]. lia. }
      replace (pa_ E1 + ez) with (pa_ (E1 ++ [m])).
      2: { unfold pa_, at_. rewrite length_app. cbn [length]. lia. }
      replace (pb_ E1 Lt + ez) with (pb_ (E1 ++ [m]) Lt').
      2: { unfold pb_, at_. rewrite length_app. cbn [length]. lia. }
      rewrite <-Hc. apply (IH k (E1 ++ [m]) Lt' 1); [by eapply arr_perm| |lia|].
      * destruct Hp as [H1 H2 H3 H4]. split; [|by rewrite HLt|done..].
        apply Forall_app. split; [done|]. by constructor.
      * intros E1' Lt2 M' sc' Hp' HP' Hlen Hhd Ec Ed. apply HQ; [done| |cbn [length]; lia|done|congruence..].
        by rewrite HP'.
    + wp_steps.
      assert (HW : whole p E1 (Lt ++ [m]) M Gt E2 = whole p E1 Lt (m :: M) Gt E2).
      { unfold whole. by rewrite <-!app_assoc. }
      assert (Hc : pc_ E1 (Lt ++ [m]) M = pc_ E1 Lt (m :: M)).
      { unfold pc_. f_equal. rewrite length_app. cbn [length]. lia. }
      assert (Hd : pd_ E1 (Lt ++ [m]) M Gt = pd_ E1 Lt (m :: M) Gt).
      { unfold pd_. f_equal. rewrite length_app. cbn [length]. lia. }
      replace (pb_ E1 Lt + ez) with (pb_ E1 (Lt ++ [m])).
      2: { unfold pb_, at_. rewrite length_app. cbn [length]. lia. }
      rewrite <-Hc, <-HW. apply (IH k E1 (Lt ++ [m]) sc); [by rewrite HW| |lia|].
      * destruct Hp as [H1 H2 H3 H4]. split; [done| |done..].
        apply Forall_app. split; [done|]. constructor; [lia|done].
      * intros E1' Lt' M' sc' Hp' HP' Hlen Hhd Ec Ed.
        apply HQ; [done|by rewrite HP', HW|cbn [length]; lia|done|congruence..].
Qed.

(** [swap(pc, pd)]: the last unseen element joins the equal ones on the right. *)
Lemma wp_swap_cd n p E1 Lt M m Gt E2 (Q : unit -> world -> Prop) :
  arr (whole p E1 Lt (M ++ [m]) Gt E2) -> (E < n)%nat ->
  (forall Gt', Permutation Gt' Gt -> Q tt (state (whole p E1 Lt M Gt' (m :: E2)))) ->
  wp n (swap ez st (pc_ E1 Lt (M ++ [m])) (pd_ E1 Lt (M ++ [m]) Gt))
    (state (whole p E1 Lt (M ++ [m]) Gt E2)) Q.
Proof.
  intros Ha Hn HQ. set (A := p :: E1 ++ Lt ++ M).
  assert (HW : forall U, whole p E1 Lt (M ++ [m]) U E2 = A ++ m :: U ++ E2).
  { intros U. unfold whole, A. cbn [app]. by rewrite <-!app_assoc. }
  assert (HW' : forall U, whole p E1 Lt M U (m :: E2) = A ++ U ++ m :: E2).
  { intros U. unfold whole, A. cbn [app]. by rewrite <-!app_assoc. }
  assert (Hc : pc_ E1 Lt (M ++ [m]) = at_ (zlen A)).
  { unfold pc_, A. f_equal. cbn [length]. rewrite !length_app. cbn [length]. lia. }
  rewrite HW in Ha |- *. rewrite Hc. destruct Gt as [|x Gt] using rev_ind.
  - replace (pd_ E1 Lt (M ++ [m]) []) with (at_ (zlen A)).
    2: { rewrite <-Hc. unfold pc_, pd_. f_equal. cbn [length]. lia. }
    cbn [app] in *. apply wp_swap_same; [done|done|]. assert (H := HQ [] ltac:(done)).
    by rewrite HW' in H.
  - replace (pd_ E1 Lt (M ++ [m]) (Gt ++ [x])) with (at_ (zlen A + 1 + zlen Gt)).
    2: { unfold pd_, A. f_equal. cbn [length]. rewrite !length_app. cbn [length]. lia. }
    rewrite <-app_assoc in *. cbn [app] in *.
    apply (wp_swap_elems true n A m Gt x E2); [done|done|].
    assert (H := HQ (x :: Gt) ltac:(by rewrite Permutation_app_comm)).
    rewrite HW' in H. exact H.
Qed.

Lemma wp_scan_down n k p E1 Lt M Gt E2 sc (Q : Z * Z * Z -> world -> Prop) :
  arr (whole p E1 Lt M Gt E2) -> parts p E1 Lt Gt E2 ->
  (cmp_fuel <= n)%nat -> (E < n)%nat -> (length M < k)%nat ->
  (forall M' Gt' E2' sc' T, parts p E1 Lt Gt' E2' -> M = M' ++ T ->
     Permutation (whole p E1 Lt M' Gt' E2') (whole p E1 Lt M Gt E2) ->
     (M' = [] \/ exists M1 m, M' = M1 ++ [m] /\ ord m p < 0) ->
     Q (pc_ E1 Lt M', pd_ E1 Lt M' Gt', sc') (state (whole p E1 Lt M' Gt' E2'))) ->
  wp n (loop_k k (fun '(pc, pd, swap_cnt) =>
    if pb_ E1 Lt <=? pc then
      r ← cmp pc a;
      if 0 <=? r then
        if r =? 0 then
          swap ez st pc pd ;; next (pc - ez, pd - ez, 1)
        else next (pc - ez, pd, swap_cnt)
      else brk (pc, pd, swap_cnt)
    else brk (pc, pd, swap_cnt)) (pc_ E1 Lt M, pd_ E1 Lt M Gt, sc)) (state (whole p E1 Lt M Gt E2)) Q.
Proof.
  intros Ha Hp Hf Hn. revert k Gt E2 sc Ha Hp.
  induction M as [|m M IH] using rev_ind; intros [|k] Gt E2 sc Ha Hp Hk HQ;
    rewrite ?length_app in Hk; cbn [length] in Hk; try lia; wp_loop.
  - rewrite (proj2 (Z.leb_gt _ _)).
    2: { unfold pb_, pc_. apply at_lt. cbn [length]. lia. }
    wp_steps. apply (HQ [] _ _ _ []); auto.
  - rewrite (proj2 (Z.leb_le _ _)).
    2: { unfold pb_, pc_. apply at_le. rewrite length_app. cbn [length]. lia. }
    wp_step. apply (wp_cmp _ _ (S (length E1 + length Lt + length M)) 0 m p);
      [done|done| |done| |symmetry; apply at_0|].
    { apply (lookup_at _ (p :: E1 ++ Lt ++ M) _ (Gt ++ E2)).
      - unfold whole. cbn [app]. by rewrite <-!app_assoc.
      - cbn [length]. rewrite !length_app. lia. }
    { unfold pc_. f_equal. rewrite length_app. cbn [length]. lia. }
    intros r Hr. apply sgn_cases in Hr as [Hr1 Hr2].
    assert (Hpc : pc_ E1 Lt (M ++ [m]) - ez = pc_ E1 Lt M).
    { unfold pc_, at_. rewrite length_app. cbn [length]. lia. }
    destruct (Z.leb_spec 0 r) as [Hge|Hlt].
    2: { wp_steps. apply (HQ (M ++ [m]) Gt E2 sc []); [done|by rewrite app_nil_r|done|].
         right. exists M, m. split; [done|]. lia. }
    rewrite Hr2. destruct (Z.eqb_spec (ord m p) 0) as [H0|H0].
    + wp_step. apply wp_swap_cd; [done|done|]. intros Gt' HGt. wp_steps.
      assert (HP : Permutation (whole p E1 Lt M Gt' (m :: E2)) (whole p E1 Lt (M ++ [m]) Gt E2)).
      { unfold whole. rewrite HGt, <-!app_assoc. constructor. do 3 apply Permutation_app_head.
        cbn [app]. symmetry. apply Permutation_middle. }
      assert (Hl : length Gt' = length Gt) by (by rewrite HGt).
      replace (pd_ E1 Lt (M ++ [m]) Gt - ez) with (pd_ E1 Lt M Gt').
      2: { unfold pd_, at_. rewrite length_app. cbn [length]. lia. }
      rewrite Hpc. apply (IH k Gt' (m :: E2) 1); [by eapply arr_perm| |lia|].
      * destruct Hp as [H1 H2 H3 H4]. split; [done..|by rewrite HGt|]. by constructor.
      * intros M' Gt2 E2' sc' T Hp' -> HP' Hlast. apply (HQ M' Gt2 E2' sc' (T ++ [m]));
          [done|by rewrite <-app_assoc| |done]. by rewrite HP'.
    + wp_steps.
      assert (HW : whole p E1 Lt M (m :: Gt) E2 = whole p E1 Lt (M ++ [m]) Gt E2).
      { unfold whole. by rewrite <-!app_assoc. }
      replace (pd_ E1 Lt (M ++ [m]) Gt) with (pd_ E1 Lt M (m :: Gt)).
      2: { unfold pd_, at_. rewrite length_app. cbn [length]. lia. }
      rewrite Hpc, <-HW. apply (IH k (m :: Gt) E2 sc); [by rewrite HW| |lia|].
      * destruct Hp as [H1 H2 H3 H4]. split; [done..| |done]. constructor; [lia|done].
      * intros M' Gt' E2' sc' T Hp' -> HP' Hlast. apply (HQ M' Gt' E2' sc' (T ++ [m]));
          [done|by rewrite <-app_assoc|by rewrite HP', HW|done].
Qed.

(** The partition leaves nothing unseen. *)
Lemma wp_partition n k p E1 Lt M Gt E2 sc (Q : Z * Z * Z * Z * Z -> world -> Prop) :
  arr (whole p E1 Lt M Gt E2) -> parts p E1 Lt Gt E2 ->
  (cmp_fuel <= n)%nat -> (E < n)%nat -> (length M < n)%nat -> (length M < k)%nat ->
  (forall E1' Lt' Gt' E2' sc', parts p E1' Lt' Gt' E2' ->
     Permutation (whole p E1' Lt' [] Gt' E2') (whole p E1 Lt M Gt E2) ->
     Q (pa_ E1', pb_ E1' Lt', pc_ E1' Lt' [], pd_ E1' Lt' [] Gt', sc')
       (state (whole p E1' Lt' [] Gt' E2'))) ->
  wp n (loop_k k (fun '(pa, pb, pc, pd, swap_cnt) =>
    '(pa, pb, swap_cnt) ← scan_up cmp ez st a pc (pa, pb, swap_cnt);
    '(pc, pd, swap_cnt) ← scan_down cmp ez st a pb (pc, pd, swap_cnt);
    if pc <? pb then brk (pa, pb, pc, pd, swap_cnt) else
    swap ez st pb pc ;;
    next (pa, pb + ez, pc - ez, pd, 1))
    (pa_ E1, pb_ E1 Lt, pc_ E1 Lt M, pd_ E1 Lt M Gt, sc)) (state (whole p E1 Lt M Gt E2)) Q.
Proof.
  intros Ha Hp Hf Hn. revert E1 Lt M Gt E2 sc Ha Hp.
  induction k as [|k IH]; intros E1 Lt M Gt E2 sc Ha Hp HMn Hk HQ; [lia|]. wp_loop. wp_step.
  apply wp_loop_k, wp_scan_up; [done..|]. intros E1' Lt' M1 sc1 Hp1 HP1 Hl1 Hhd Ec Ed.
  wp_step. rewrite <-Ec, <-Ed. assert (Ha1 : arr (whole p E1' Lt' M1 Gt E2)) by (by eapply arr_perm).
  apply wp_loop_k, wp_scan_down; [done..|lia|]. intros M2 Gt' E2' sc2 T Hp2 HM1 HP2 Hlast.
  assert (Ha2 : arr (whole p E1' Lt' M2 Gt' E2')) by (by eapply arr_perm).
  destruct M2 as [|m1 M2].
  - rewrite (proj2 (Z.ltb_lt _ _)).
    2: { unfold pb_, pc_. apply at_lt. cbn [length]. lia. }
    wp_steps. apply HQ; [done|]. by rewrite HP2, HP1.
  - rewrite (proj2 (Z.ltb_ge _ _)).
    2: { unfold pb_, pc_. apply at_le. cbn [length]. lia. }
    rewrite HM1 in Hhd. cbn [app] in Hhd. destruct Hlast as [|(M3 & m2 & Em & Hm2)]; [done|].
    destruct M3 as [|m M3]; cbn [app] in Em; injection Em as <- ->; [lia|]. wp_step.
    set (A := p :: E1' ++ Lt').
    assert (HW : forall x y, whole p E1' Lt' (x :: M3 ++ [y]) Gt' E2' = A ++ x :: M3 ++ y :: Gt' ++ E2').
    { intros. unfold whole, A. cbn [app]. by rewrite <-!app_assoc. }
    replace (pb_ E1' Lt') with (at_ (zlen A)).
    2: { unfold pb_, A. f_equal. cbn [length]. rewrite length_app. lia. }
    replace (pc_ E1' Lt' (m1 :: M3 ++ [m2])) with (at_ (zlen A + 1 + zlen M3)).
    2: { unfold pc_, A. f_equal. cbn [length]. rewrite !length_app. cbn [length]. lia. }
    rewrite HW in Ha2, HP2 |- *.
    apply (wp_swap_elems true n A m1 M3 m2 (Gt' ++ E2')); [done|done|]. wp_steps.
    assert (HW2 : A ++ m2 :: M3 ++ m1 :: Gt' ++ E2' = whole p E1' (Lt' ++ [m2]) M3 (m1 :: Gt') E2').
    { unfold whole, A. cbn [app]. by rewrite <-!app_assoc. }
    assert (HP3 : Permutation (whole p E1' (Lt' ++ [m2]) M3 (m1 :: Gt') E2')
      (whole p E1 Lt M Gt E2)).
    { rewrite <-HP1, <-HP2, <-HW2. apply Permutation_app_head.
      rewrite !(Permutation_middle M3). apply Permutation_app_head, perm_swap. }
    rewrite HW2.
    replace (at_ (zlen A) + ez) with (pb_ E1' (Lt' ++ [m2])).
    2: { unfold pb_, A, at_. cbn [length]. rewrite !length_app. cbn [length]. lia. }
    replace (at_ (zlen A + 1 + zlen M3) - ez) with (pc_ E1' (Lt' ++ [m2]) M3).
    2: { unfold pc_, A, at_. cbn [length]. rewrite !length_app. cbn [length]. lia. }
    replace (pd_ E1' Lt' (m1 :: M3 ++ [m2]) Gt') with (pd_ E1' (Lt' ++ [m2]) M3 (m1 :: Gt')).
    2: { unfold pd_. f_equal. cbn [length]. rewrite !length_app. cbn [length]. lia. }
    assert (Hl3 : (length M3 < length M)%nat).
    { rewrite HM1 in Hl1. cbn [app length] in Hl1. rewrite !length_app in Hl1. lia. }
    apply IH; [by eapply arr_perm| |lia|lia|].
    + destruct Hp2 as [H1 H2 H3 H4]. split; [done| | |done].
      * apply Forall_app. split; [done|]. by constructor.
      * by constructor.
    + intros E1'' Lt'' Gt'' E2'' sc'' Hp4 HP4. apply HQ; [done|]. by rewrite HP4.
Qed.

(** *** The two block exchanges after the partition *)

Lemma wp_gather n A U V R k (Q : unit -> world -> Prop) :
  arr (A ++ U ++ V ++ R) -> k = ez * Z.min (zlen U) (zlen V) ->
  (E * length (U ++ V) < n)%nat ->
  (forall U' V', Permutation U' U -> Permutation V' V ->
     Q tt (state (A ++ V' ++ U' ++ R))) ->
  wp n (vecswap st (at_ (zlen A)) (at_ (zlen A + zlen U + zlen V) - k) k)
    (state (A ++ U ++ V ++ R)) Q.
Proof.
  intros Ha -> Hn HQ. rewrite length_app in Hn.
  destruct (Nat.le_gt_cases (length U) (length V)) as [Hle|Hgt].
  - rewrite Z.min_l by lia.
    rewrite <-(take_drop (length V - length U) V) in Ha |- *.
    set (V1 := take (length V - length U) V) in *. set (V2 := drop (length V - length U) V) in *.
    assert (H1 : length V1 = (length V - length U)%nat) by (unfold V1; rewrite length_take; lia).
    assert (H2 : length V2 = length U) by (unfold V2; rewrite length_drop; lia).
    replace (at_ (zlen A + zlen U + zlen (V1 ++ V2)) - ez * zlen U) with
      (at_ (zlen A + zlen U + zlen V1)) by (unfold at_; rewrite length_app; lia).
    rewrite <-app_assoc in Ha |- *.
    apply (wp_vecswap n A U V1 V2 R); [done|done|done|nia|].
    assert (H := HQ U (V2 ++ V1) ltac:(done)). rewrite <-!app_assoc in H. apply H.
    unfold V1, V2. by rewrite Permutation_app_comm, take_drop.
  - rewrite Z.min_r by lia. rewrite <-(take_drop (length V) U) in Ha |- *.
    set (U1 := take (length V) U) in *. set (U2 := drop (length V) U) in *.
    assert (H1 : length U1 = length V) by (unfold U1; rewrite length_take; lia).
    assert (H2 : length U2 = (length U - length V)%nat) by (unfold U2; rewrite length_drop; lia).
    replace (at_ (zlen A + zlen (U1 ++ U2) + zlen V) - ez * zlen V) with
      (at_ (zlen A + zlen U1 + zlen U2)) by (unfold at_; rewrite length_app; lia).
    rewrite <-app_assoc in Ha |- *.
    replace (ez * zlen V) with (ez * zlen U1) by (rewrite H1; done).
    apply (wp_vecswap n A U1 U2 V R); [done|done|done|nia|].
    assert (H := HQ (U2 ++ U1) V). rewrite <-!app_assoc in H. apply H; [|done].
    unfold U1, U2. by rewrite Permutation_app_comm, take_drop.
Qed.

End elements.

(** ** One pass of the sort *)

(** The cell type that [SWAPINIT] chooses divides the elements. *)
Lemma swap_type_long E a : (0 < E)%nat ->
  (swap_type a (Z.of_nat E) = 0 -> E = 4%nat) /\
  (swap_type a (Z.of_nat E) <= 1 -> Z.of_nat E mod 4 = 0).
Proof.
  intros HE. unfold swap_type.
  destruct (Z.eqb_spec (Z.of_nat E mod 4) 0) as [H4|H4]; destruct (a mod 4 =? 0);
    destruct (Z.eqb_spec (Z.of_nat E) 4); cbn [negb orb]; split; lia.
Qed.

Section pass.
Context (E : nat) (HE : (0 < E)%nat) (cmp : Z -> Z -> C Z) {Hcmp : comparator cmp E}.
Implicit Types (L S R G : list (list Z)) (x y : list Z) (w : world) (a : Z).

Abbreviation ez := (Z.of_nat E).
Abbreviation sorted := (StronglySorted (le)).

(** What a recursive call does to the front part [S] of an array. *)
Definition sorts_front n rec a w S R : Prop :=
  forall Q : unit -> world -> Prop,
    (forall S', sorted S' -> Permutation S' S -> Q tt (state a w (S' ++ R))) ->
    wp n (rec a (zlen S)) (state a w (S ++ R)) Q.

Record front (L S G : list (list Z)) : Prop := {
  front_perm : Permutation (S ++ G) L;
  front_sorted : sorted S;
  front_le : forall x y, x ∈ S -> y ∈ G -> le x y;
  front_ne : S <> [];
}.

Lemma whole_len p E1 Lt Gt E2 L : Permutation (whole p E1 Lt [] Gt E2) L ->
  zlen L = 1 + zlen E1 + zlen Lt + zlen Gt + zlen E2.
Proof. intros <-. unfold whole. cbn [length app]. rewrite !length_app. lia. Qed.

(** The array after the two exchanges of the pass: smaller, equal, greater. *)
Record split3 (p : list Z) L S F G : Prop := {
  split3_perm : Permutation (S ++ F ++ G) L;
  split3_S : Forall (fun x => ord x p < 0) S;
  split3_F : Forall (fun x => ord x p = 0) F;
  split3_G : Forall (fun x => 0 < ord x p) G;
  split3_ne : F <> [];
}.

Lemma split3_front p L S F G S' :
  split3 p L S F G -> sorted S' -> Permutation S' S -> front L (S' ++ F) G.
Proof.
  intros [HP HS HF HG Hne] Hs HP'. assert (HS' : Forall (fun x => ord x p < 0) S').
  { by rewrite HP'. }
  split.
  - rewrite <-app_assoc. by rewrite HP'.
  - by apply (sorted_front p).
  - intros x y Hx Hy. rewrite Forall_forall in HS', HF, HG. apply (le_parts p).
    + apply elem_of_app in Hx as [Hx|Hx]; [specialize (HS' x Hx)|specialize (HF x Hx)]; cbn in *; lia.
    + specialize (HG y Hy). cbn in HG. lia.
  - by destruct S', F.
Qed.

Lemma front_all L S G : front L S G -> (length G <= 1)%nat -> sorted (S ++ G).
Proof.
  intros [HP Hs Hle Hne] Hl. apply sorted_app. split_and!; [done| |done].
  destruct G as [|x [|]]; cbn in Hl; [constructor|by repeat constructor|lia].
Qed.

(** The code after the partition. *)
Definition finish (rec : Z -> Z -> C unit) (es swaptype a n pa pb pc pd : Z) : C (Z * Z + unit) :=
  let pn := a + u32 (n * es) in
  let r := if pa - a <? pb - pa then pa - a else pb - pa in
  vecswap swaptype a (pb - r) r ;;
  let r := if u32 (pd - pc) <? u32 (pn - pd - es) then pd - pc else u32 (pn - pd - es) in
  vecswap swaptype pb (pn - r) r ;;
  let r := pb - pa in
  (if es <? u32 r then rec a (u32 r / es) else mret tt) ;;
  let r := pd - pc in
  if es <? u32 r then next (pn - r, u32 r / es) else brk tt.

Lemma min_if (i j : Z) : (if i <? j then i else j) = Z.min i j.
Proof. destruct (Z.ltb_spec i j); lia. Qed.

(** The two exchanges bring the equal elements to the middle. *)
Lemma wp_middle {T} n a w st p E1 Lt Gt E2 L (c : C T) (Q : T -> world -> Prop) :
  st = swap_type a ez -> arr E a w (whole p E1 Lt [] Gt E2) -> parts E cmp p E1 Lt Gt E2 ->
  Permutation (whole p E1 Lt [] Gt E2) L -> (E * length L < n)%nat ->
  (forall S F G, split3 p L S F G -> length S = length Lt -> length G = length Gt ->
     wp n c (state a w (S ++ F ++ G)) Q) ->
  let r1 := ez * Z.min (1 + zlen E1) (zlen Lt) in
  let r2 := ez * Z.min (zlen Gt) (zlen E2) in
  wp n (vecswap st a (pb_ E a E1 Lt - r1) r1 ;;
        vecswap st (pb_ E a E1 Lt) (at_ E a (zlen L) - r2) r2 ;; c)
    (state a w (whole p E1 Lt [] Gt E2)) Q.
Proof.
  intros Est Ha [P1 P2 P3 P4] HP Hn HQ r1 r2. destruct (swap_type_long E a HE) as [Hst0 Hst1].
  rewrite <-Est in Hst0, Hst1. pose proof (whole_len _ _ _ _ _ _ HP) as Hlen.
  change (whole p E1 Lt [] Gt E2) with ([] ++ (p :: E1) ++ Lt ++ (Gt ++ E2)) in Ha, HP |- *.
  wp_step.
  assert (H1 := wp_gather E HE a w st Hst0 Hst1 n [] (p :: E1) Lt (Gt ++ E2) r1).
  replace (at_ E a (zlen [] + zlen (p :: E1) + zlen Lt)) with (pb_ E a E1 Lt) in H1
    by (unfold pb_; f_equal; cbn [length]; lia).
  replace (at_ E a (zlen [])) with a in H1 by (unfold at_; cbn [length]; lia).
  apply H1; [done|unfold r1; f_equal; f_equal; cbn [length]; lia| |].
  { rewrite length_app. cbn [length]. nia. }
  clear H1. intros U V HU HV. cbn [app]. wp_step.
  assert (Hl1 : length U = S (length E1)) by (by rewrite HU).
  assert (Hl2 : length V = length Lt) by (by rewrite HV).
  assert (H2 := wp_gather E HE a w st Hst0 Hst1 n (V ++ U) Gt E2 [] r2).
  rewrite !app_nil_r, <-!app_assoc in H2.
  replace (at_ E a (zlen (V ++ U) + zlen Gt + zlen E2)) with (at_ E a (zlen L)) in H2
    by (f_equal; rewrite length_app; lia).
  replace (at_ E a (zlen (V ++ U))) with (pb_ E a E1 Lt) in H2
    by (unfold pb_; f_equal; rewrite length_app; lia).
  assert (HP2 : Permutation (V ++ U ++ Gt ++ E2) L).
  { rewrite <-HP, HU, HV. apply (Permutation_app_swap_app Lt (p :: E1)). }
  apply H2; [by eapply arr_perm; [done|symmetry; etrans; [exact HP2|symmetry; exact HP]|]|done| |].
  { rewrite length_app. nia. }
  clear H2. intros G F HG HF. rewrite app_nil_r.
  replace ((V ++ U) ++ F ++ G) with (V ++ (U ++ F) ++ G) by (by rewrite <-!app_assoc).
  apply HQ; [|done|by rewrite HG]. split.
  - rewrite <-HP2, HG, HF, <-!app_assoc. do 2 apply Permutation_app_head.
    apply Permutation_app_comm.
  - by rewrite HV.
  - rewrite HU, HF. apply Forall_app. split; [|done]. constructor; [|done].
    pose proof (ord_sym p p). lia.
  - by rewrite HG.
  - by destruct U.
Qed.

Lemma wp_finish n rec a w st p E1 Lt Gt E2 L (Q : Z * Z + unit -> world -> Prop) :
  st = swap_type a ez -> arr E a w (whole p E1 Lt [] Gt E2) -> parts E cmp p E1 Lt Gt E2 ->
  Permutation (whole p E1 Lt [] Gt E2) L -> (E * length L < n)%nat ->
  (forall S R, Permutation (S ++ R) L -> (length S < length L)%nat -> sorts_front n rec a w S R) ->
  (forall S', sorted S' -> Permutation S' L -> Q (inr tt) (state a w S')) ->
  (forall S G, front L S G -> Q (inl (at_ E a (zlen S), zlen G)) (state a w (S ++ G))) ->
  wp n (finish rec ez st a (zlen L) (pa_ E a E1) (pb_ E a E1 Lt) (pc_ E a E1 Lt [])
    (pd_ E a E1 Lt [] Gt)) (state a w (whole p E1 Lt [] Gt E2)) Q.
Proof.
  intros Est Ha Hp HP Hn Hrec Qend Qnext. pose proof (whole_len _ _ _ _ _ _ HP) as Hlen.
  assert (Hr := arr_range E HE a w _ Ha ltac:(done)).
  replace (zlen (whole p E1 Lt [] Gt E2)) with (zlen L) in Hr by (by rewrite HP).
  unfold finish.
  replace (pa_ E a E1 - a) with (ez * (1 + zlen E1)) by (unfold pa_, at_; lia).
  replace (pb_ E a E1 Lt - pa_ E a E1) with (ez * zlen Lt) by (unfold pa_, pb_, at_; lia).
  replace (pd_ E a E1 Lt [] Gt - pc_ E a E1 Lt []) with (ez * zlen Gt)
    by (unfold pc_, pd_, at_; lia).
  replace (a + u32 (zlen L * ez)) with (at_ E a (zlen L))
    by (unfold at_; rewrite u32_small; lia).
  replace (at_ E a (zlen L) - pd_ E a E1 Lt [] Gt - ez) with (ez * zlen E2)
    by (unfold pd_, at_; cbn [length]; lia).
  rewrite !(u32_small (ez * _)) by nia. rewrite !min_if, !Z.mul_min_distr_nonneg_l by lia.
  apply (wp_middle n a w st p E1 Lt Gt E2 L); [done..|].
  intros S F G Hs HlS HlG. assert (Hlen' : (length S + length F + length G = length L)%nat).
  { rewrite <-(split3_perm _ _ _ _ _ Hs), !length_app. lia. }
  assert (HF : (0 < length F)%nat).
  { assert (H := split3_ne _ _ _ _ _ Hs). destruct F; [done|cbn; lia]. }
  assert (Hgo : forall S', sorted S' -> Permutation S' S ->
    wp n (if ez <? ez * zlen Gt then next (at_ E a (zlen L) - ez * zlen Gt, ez * zlen Gt / ez)
      else brk tt) (state a w (S' ++ F ++ G)) Q).
  { intros S' HS' HPS. assert (Hfr := split3_front _ _ _ _ _ _ Hs HS' HPS).
    rewrite app_assoc. rewrite <-HlG. destruct (Z.ltb_spec ez (ez * zlen G)) as [Hlt|Hge]; wp_step.
    - rewrite (Z.mul_comm ez (zlen G)) at 2. rewrite Z.div_mul by lia.
      replace (at_ E a (zlen L) - ez * zlen G) with (at_ E a (zlen (S' ++ F))); [by apply Qnext|].
      unfold at_. rewrite length_app, HPS. lia.
    - apply Qend; [apply (front_all L); [done|nia]|]. apply Hfr. }
  wp_step. rewrite <-HlS. destruct (Z.ltb_spec ez (ez * zlen S)) as [Hlt|Hge].
  - rewrite (Z.mul_comm ez (zlen S)), Z.div_mul by lia.
    apply Hrec; [by apply split3_perm in Hs|lia|]. intros S' HS' HPS. by apply Hgo.
  - wp_step. apply Hgo; [|done]. destruct S as [|x [|]]; [constructor|by repeat constructor|].
    cbn [length] in Hge. nia.
Qed.

(** The swap that puts the pivot in front. *)
Lemma wp_to_front n a w st L m (Q : unit -> world -> Prop) :
  st = swap_type a ez -> arr E a w L -> (m < length L)%nat -> (E < n)%nat ->
  (forall p M, Permutation (p :: M) L -> Q tt (state a w (p :: M))) ->
  wp n (swap ez st a (at_ E a (Z.of_nat m))) (state a w L) Q.
Proof.
  intros Est Ha Hm Hn HQ. destruct (swap_type_long E a HE) as [Hst0 Hst1].
  rewrite <-Est in Hst0, Hst1. destruct L as [|x L]; [cbn in Hm; lia|].
  assert (E0 : a = at_ E a (zlen (@nil (list Z)))) by (unfold at_; cbn [length]; lia).
  destruct m as [|m].
  - assert (H := wp_swap_same E HE a w st Hst0 Hst1 n [] x L Q Ha Hn). rewrite <-E0 in H.
    replace (at_ E a (Z.of_nat 0)) with a by (unfold at_; lia). by apply H, HQ.
  - cbn [length] in Hm. destruct (lookup_lt_is_Some_2 L m) as [y Hy]; [lia|].
    rewrite <-(take_drop_middle L m y Hy) in Ha, HQ |- *.
    assert (Hl : length (take m L) = m) by (rewrite length_take; lia).
    set (B := take m L) in *. set (R := drop (S m) L) in *.
    assert (H := wp_swap_elems E HE a w st Hst0 Hst1 true n [] x B y R Q).
    cbv zeta in H. rewrite <-E0 in H.
    replace (at_ E a (zlen (@nil (list Z)) + 1 + zlen B)) with (at_ E a (Z.of_nat (S m))) in H
      by (f_equal; cbn [length]; lia).
    apply H; [done|done|]. cbn [app]. apply HQ.
    rewrite <-!(Permutation_middle B). apply perm_swap.
Qed.

Lemma wp_pass n rec a w L (Q : Z * Z + unit -> world -> Prop) :
  arr E a w L -> (cmp_fuel <= n)%nat -> (E < n)%nat -> (length L < n)%nat ->
  (E * length L < n)%nat ->
  (forall S R, Permutation (S ++ R) L -> (length S < length L)%nat -> sorts_front n rec a w S R) ->
  (forall S', sorted S' -> Permutation S' L -> Q (inr tt) (state a w S')) ->
  (forall S G, front L S G -> Q (inl (at_ E a (zlen S), zlen G)) (state a w (S ++ G))) ->
  wp n (qsort_pass cmp rec ez (a, zlen L)) (state a w L) Q.
Proof.
  intros Ha Hf HEn HL Hn Hrec Qend Qnext. destruct (swap_type_long E a HE) as [Hst0 Hst1].
  unfold qsort_pass. cbv zeta. set (st := swap_type a ez) in *.
  assert (Hsort : forall L', arr E a w L' -> Permutation L' L ->
    wp n (insertion cmp a (zlen L) ez st ;; brk tt) (state a w L') Q).
  { intros L' Ha' HP. rewrite <-HP. wp_step. apply (wp_insertion E HE a w st Hst0 Hst1 cmp); [done..|by rewrite HP|].
    intros S' HS' HPS. wp_step. apply Qend; [done|]. by rewrite HPS. }
  destruct (Z.ltb_spec (zlen L) 7) as [H7|H7]; [by apply Hsort|].
  assert (Hr := arr_range E HE a w L Ha ltac:(by destruct L; cbn in H7; [lia|])).
  wp_step. apply (wp_pivot E HE a w st Hst0 Hst1 cmp); [done..|lia|]. intros m Hm.
  wp_step. apply wp_to_front; [done..|]. intros p M HP.
  assert (HlM : zlen L = zlen M + 1) by (rewrite <-HP; cbn [length]; lia).
  wp_step. apply wp_loop_k.
  replace (a + u32 ((zlen L - 1) * ez)) with (at_ E a (zlen M))
    by (unfold at_; rewrite u32_small; nia).
  assert (Hw : p :: M = whole p [] [] M [] []) by (unfold whole; by rewrite !app_nil_r).
  rewrite Hw in HP |- *.
  assert (H := wp_partition E HE a w st Hst0 Hst1 cmp n n p [] [] M [] [] 0).
  replace (pa_ E a []) with (a + ez) in H by (unfold pa_, at_; cbn [length]; lia).
  replace (pb_ E a [] []) with (a + ez) in H by (unfold pb_, at_; cbn [length]; lia).
  replace (pc_ E a [] [] M) with (at_ E a (zlen M)) in H by (unfold pc_; cbn [length]; f_equal; lia).
  replace (pd_ E a [] [] M []) with (at_ E a (zlen M)) in H by (unfold pd_; cbn [length]; f_equal; lia).
  apply H; [by eapply arr_perm; [done|symmetry; exact HP|]|by split|done|done|lia|lia|].
  clear H. intros E1 Lt Gt E2 sc Hp HP2.
  assert (HP3 : Permutation (whole p E1 Lt [] Gt E2) L) by (by rewrite HP2).
  assert (Ha3 : arr E a w (whole p E1 Lt [] Gt E2)) by (eapply arr_perm; [done|symmetry; exact HP3|done]).
  cbn beta iota. destruct (sc =? 0); [by apply Hsort|].
  by apply (wp_finish n rec a w st p E1 Lt Gt E2 L).
Qed.

(** ** A part of an array is an array *)

Lemma state_sub a w A S R S' :
  Forall (fun x => length x = E) A -> length (concat S) = length (concat S') ->
  state (at_ E a (zlen A)) (state a w (A ++ S ++ R)) S' = state a w (A ++ S' ++ R).
Proof.
  intros HA HS. unfold state, at_. rewrite !concat_app, <-concat_len by done.
  by apply flat_write.
Qed.

Lemma arr_sub a w A S R :
  arr E a w (A ++ S ++ R) -> arr E (at_ E a (zlen A)) (state a w (A ++ S ++ R)) S.
Proof.
  intros Ha. assert (Hok : mem_ok (w_mem (state a w (A ++ S ++ R)))) by (by eapply state_mem_ok). destruct Ha as [Hm He Hf].
  apply Forall_app in He as [HA He]. apply Forall_app in He as [HS HR].
  split; [done|done|]. assert (Hb := proj2 Hf). rewrite !concat_app in Hf, Hb.
  rewrite !Forall_app in Hb. destruct_and!. split; [|done].
  apply (flat_mapped _ _ _ _ _ _ Hf); unfold at_; rewrite <-concat_len by done;
    rewrite ?length_app; lia.
Qed.

Lemma concat_perm_len S S' : Permutation S' S -> length (concat S) = length (concat S').
Proof. by intros ->. Qed.

(** ** The whole sort *)

Lemma wp_qsort_loop n k rec a w L (Q : unit -> world -> Prop) :
  (cmp_fuel <= n)%nat -> (E < n)%nat -> (length L < n)%nat -> (E * length L < n)%nat ->
  (forall a' w' S R, arr E a' w' (S ++ R) -> (length S < length L)%nat ->
     sorts_front n rec a' w' S R) ->
  (forall S', sorted S' -> Permutation S' L -> Q tt (state a w S')) ->
  forall S G, arr E a w (S ++ G) -> Permutation (S ++ G) L -> sorted S ->
  (forall x y, x ∈ S -> y ∈ G -> le x y) -> (length G < k)%nat ->
  wp n (loop_k k (qsort_pass cmp rec ez) (at_ E a (zlen S), zlen G)) (state a w (S ++ G)) Q.
Proof.
  intros Hf HEn HL Hn Hrec HQ. induction k as [|k IH]; intros S G Ha HP Hs Hle Hk; [lia|].
  apply wp_loop_S. assert (HlL : length L = (length S + length G)%nat).
  { by rewrite <-HP, length_app. }
  assert (HS : Forall (fun x => length x = E) S) by (by apply arr_app in Ha as [? _]).
  assert (Hsub : forall G', Permutation G' G ->
    state (at_ E a (zlen S)) (state a w (S ++ G)) G' = state a w (S ++ G')).
  { intros G' HG. assert (H := state_sub a w S G [] G' HS (concat_perm_len _ _ HG)).
    by rewrite !app_nil_r in H. }
  assert (Ha' : arr E (at_ E a (zlen S)) (state a w (S ++ G)) G).
  { assert (H := arr_sub a w S G []). rewrite !app_nil_r in H. by apply H. }
  rewrite <-(Hsub G) at 1 by done. apply wp_pass; [done..|lia|nia| | |].
  - intros S2 R2 HP2 Hl2. apply Hrec; [by eapply arr_perm|lia].
  - intros G' HG' HPG. rewrite Hsub by done. apply HQ; [|by rewrite HPG].
    apply sorted_app. split_and!; [done..|]. intros x y Hx Hy. apply Hle; [done|by rewrite <-HPG].
  - intros S2 G2 [HP2 Hs2 Hle2 Hne2]. rewrite Hsub, (app_assoc S) by done.
    assert (HP3 : Permutation ((S ++ S2) ++ G2) (S ++ G)) by (by rewrite <-app_assoc, HP2).
    replace (at_ E (at_ E a (zlen S)) (zlen S2)) with (at_ E a (zlen (S ++ S2)))
      by (unfold at_; rewrite length_app; lia).
    apply IH; [by eapply arr_perm|by rewrite HP3| | |].
    + apply sorted_app. split_and!; [done..|]. intros x y Hx Hy. apply Hle; [done|].
      rewrite <-HP2. set_solver.
    + intros x y [Hx|Hx]%elem_of_app Hy; [|by apply Hle2]. apply Hle; [done|].
      rewrite <-HP2. set_solver.
    + assert (Hl := Permutation_length HP2). rewrite length_app in Hl.
      destruct S2; [done|]. cbn [length] in Hl. lia.
Qed.

Lemma wp_qsort_k n k a w L (Q : unit -> world -> Prop) :
  arr E a w L -> (cmp_fuel <= n)%nat -> (E < n)%nat -> (length L < n)%nat ->
  (E * length L < n)%nat -> (length L < k)%nat ->
  (forall S', sorted S' -> Permutation S' L -> Q tt (state a w S')) ->
  wp n (qsort_k cmp k ez a (zlen L)) (state a w L) Q.
Proof.
  intros Ha Hf HEn. revert a w L Q Ha. induction k as [|k IH]; intros a w L Q Ha HL Hn Hk HQ; [lia|].
  cbn [qsort_k]. apply wp_loop_k.
  assert (H := wp_qsort_loop n n (qsort_k cmp k ez) a w L Q Hf HEn HL Hn).
  assert (H0 : forall b, at_ E b (zlen (@nil (list Z))) = b) by (intros; unfold at_; cbn [length]; lia).
  rewrite <-(H0 a) at 1. apply (fun Hrec => H Hrec HQ [] L);
    [|done..|constructor|intros ?? []%elem_of_nil|lia].
  intros a' w' S R Ha' Hl Q' HQ'.
  assert (Hsub : forall S', Permutation S' S ->
    state a' (state a' w' (S ++ R)) S' = state a' w' (S' ++ R)).
  { intros S' HS. rewrite <-(H0 a') at 1.
    apply (state_sub a' w' [] S R S'); [done|by apply concat_perm_len]. }
  rewrite <-(Hsub S) by done. apply IH; [|lia|nia|lia|].
  - rewrite <-(H0 a') at 1. by apply (arr_sub a' w' [] S R).
  - intros S' HS' HP. rewrite Hsub by done. by apply HQ'.
Qed.
End pass.

Lemma wp_fuel_arg {T} n (f : nat -> C T) w (Q : T -> world -> Prop) :
  wp n (f n) w Q -> wp n (fun fuel => f fuel fuel) w Q.
Proof. done. Qed.

Section array.
Context (E : nat).
Implicit Types (L : list (list Z)) (w : world) (a : Z).

(** An array of [E]-byte elements in memory. *)
Record array w a L : Prop := {
  array_ok : mem_ok (w_mem w);
  array_elems : Forall (fun x => length x = E) L;
  array_bytes : bytes (w_mem w) a (concat L);
}.

Lemma array_arr w a L : array w a L -> arr E a w L /\ state a w L = w.
Proof.
  intros [Hm He Hb]. split; [|by apply written_id].
  split; [done..|]. split; [by apply bytes_mapped|by eapply mem_ok_bytes].
Qed.
End array.

Section search.
Context (E : nat) (HE : (0 < E)%nat) (cmp : Z -> Z -> C Z) {Hcmp : comparator cmp E}.
Implicit Types (L : list (list Z)) (x key : list Z) (w : world) (a p : Z).

Abbreviation ez := (Z.of_nat E).

Lemma wp_qsort n a L w (Q : unit -> world -> Prop) :
  array E w a L -> (cmp_fuel <= n)%nat -> (E < n)%nat -> (length L < n)%nat ->
  (E * length L < n)%nat ->
  (forall L', StronglySorted le L' -> Permutation L' L -> Q tt (written a (concat L') w)) ->
  wp n (qsort cmp a (zlen L) ez) w Q.
Proof.
  intros Ha Hf HEn HL Hn HQ. apply array_arr in Ha as [Ha Hw].
  apply wp_fuel_arg with (f := fun fuel => qsort_k cmp fuel ez a (zlen L)).
  rewrite <-Hw at 1. by apply (wp_qsort_k E HE cmp).
Qed.

(** [r] is the address of an element equal to the key, or null when there is none. *)
Definition search_result key a L (r : Z) : Prop :=
  (exists i x, L !! i = Some x /\ ord key x = 0 /\ r = a + ez * Z.of_nat i) \/
  (r = 0 /\ Forall (fun x => ord key x <> 0) L).

Lemma ord_trans_lt x y z : ord x y < 0 -> ord y z <= 0 -> ord x z < 0.
Proof.
  intros H1 H2. assert (H3 : ord x z <= 0) by (apply (ord_trans x y z); lia).
  destruct (Z.eq_dec (ord x z) 0) as [H0|]; [|lia].
  pose proof (ord_sym x z). pose proof (ord_sym x y).
  assert (Hyx : ord y x <= 0) by (apply (ord_trans y z x); lia). lia.
Qed.

Lemma sorted_lookup L i j x y : StronglySorted le L -> (i < j)%nat ->
  L !! i = Some x -> L !! j = Some y -> le x y.
Proof.
  intros Hs. revert i j. induction Hs as [|z L Hs IH Hz]; intros i j Hij Hi Hj; [done|].
  destruct j as [|j]; [lia|]. destruct i as [|i]; cbn in Hi, Hj.
  - injection Hi as <-. rewrite Forall_forall in Hz. by apply Hz, list_elem_of_lookup_2 with j.
  - apply (IH i j); [lia|done|done].
Qed.

(** Where the search stands: everything before [lower] is smaller than the key,
    everything from [upper] on is greater. *)
Record between key L (lower upper : nat) : Prop := {
  between_low : forall i x, (i < lower)%nat -> L !! i = Some x -> 0 < ord key x;
  between_up : forall i x, (upper <= i)%nat -> L !! i = Some x -> ord key x < 0;
  between_le : (lower <= upper <= length L)%nat;
}.

Lemma between_left key L lower upper i x :
  StronglySorted le L -> between key L lower upper -> L !! i = Some x -> ord key x < 0 ->
  (lower <= i < upper)%nat -> between key L lower i.
Proof.
  intros Hs [H1 H2 H3] Hi Hx Hr. split; [done| |lia]. intros j y Hj Hy.
  destruct (decide (j = i)) as [->|]; [congruence|].
  apply (ord_trans_lt key x y); [done|]. apply (sorted_lookup L i j); [done|lia|done|done].
Qed.

Lemma between_right key L lower upper i x :
  StronglySorted le L -> between key L lower upper -> L !! i = Some x -> 0 < ord key x ->
  (lower <= i < upper)%nat -> between key L (S i) upper.
Proof.
  intros Hs [H1 H2 H3] Hi Hx Hr. split; [|done|lia]. intros j y Hj Hy.
  destruct (decide (j = i)) as [->|]; [congruence|].
  assert (Hle : le y x) by (apply (sorted_lookup L j i); [done|lia|done|done]).
  pose proof (ord_sym x key). pose proof (ord_sym y x). pose proof (ord_sym y key).
  destruct (Z.le_gt_cases (ord key y) 0) as [Hky|Hky]; [|done].
  pose proof (ord_trans key y x Hky Hle). lia.
Qed.

Lemma between_none key L i : between key L i i -> Forall (fun x => ord key x <> 0) L.
Proof.
  intros [H1 H2 _]. apply Forall_lookup. intros j x Hj.
  destruct (decide (j < i)%nat); [specialize (H1 j x)|specialize (H2 j x)]; auto with lia.
Qed.

Lemma wp_bsearch_loop n k p key a L w lower upper (Q : Z -> world -> Prop) :
  array E w a L -> L <> [] -> StronglySorted le L -> bytes (w_mem w) p key -> length key = E ->
  (cmp_fuel <= n)%nat -> between key L lower upper -> (upper - lower < k)%nat ->
  (forall r, search_result key a L r -> Q r w) ->
  wp n (loop_k k (fun '(lower, upper) =>
    if lower <? upper then
      let index := u32 (lower + upper) / 2 in
      let current := a + u32 (index * ez) in
      result ← cmp p current;
      if result <? 0 then next (lower, index)
      else if 0 <? result then next (u32 (index + 1), upper)
      else brk current
    else brk 0) (Z.of_nat lower, Z.of_nat upper)) w Q.
Proof.
  intros Ha Hne Hs Hp Hk Hf Hb Hfuel HQ. revert lower upper Hb Hfuel.
  apply array_arr in Ha as [Ha Hw]. assert (Hr := arr_range E HE a w L Ha Hne).
  induction k as [|k IH]; intros lower upper Hb Hfuel; [lia|]. wp_loop.
  assert (Hle := between_le _ _ _ _ Hb).
  destruct (Z.ltb_spec (Z.of_nat lower) (Z.of_nat upper)) as [Hlt|Hge].
  2: { wp_step. apply HQ. right. split; [done|]. apply (between_none key L lower).
       by replace upper with lower in Hb by lia. }
  rewrite (u32_small (_ + _)) by nia.
  assert (Hi : (Z.of_nat lower + Z.of_nat upper) / 2 = Z.of_nat ((lower + upper) / 2)).
  { rewrite Nat2Z.inj_div, Nat2Z.inj_add. done. }
  rewrite Hi. set (i := ((lower + upper) / 2)%nat) in *.
  assert (Hin : (lower <= i < upper)%nat) by (clear - Hlt Hi; lia).
  destruct (lookup_lt_is_Some_2 L i) as [x Hx]; [lia|].
  rewrite !u32_small by nia. wp_step. destruct (state_elem E HE a w L i x Ha Hx) as [Hbx Hlx].
  rewrite Hw in Hbx. unfold at_ in Hbx. rewrite Z.mul_comm in Hbx.
  eapply cmp_spec; [done|by apply Ha|exact Hp|exact Hbx|done..|].
  intros r Hr'. destruct (Z.ltb_spec r 0) as [H1|H1]; [|destruct (Z.ltb_spec 0 r) as [H2|H2]]; wp_step.
  - apply IH; [|lia]. eapply between_left; [done..|lia|lia].
  - replace (Z.of_nat i + 1) with (Z.of_nat (S i)) by lia.
    apply IH; [|lia]. eapply between_right; [done..|lia|lia].
  - apply HQ. left. exists i, x. split_and!; [done|lia|lia].
Qed.

Lemma wp_bsearch n p key a L w (Q : Z -> world -> Prop) :
  array E w a L -> StronglySorted le L -> bytes (w_mem w) p key -> length key = E ->
  (cmp_fuel <= n)%nat -> (length L < n)%nat ->
  (forall r, search_result key a L r -> Q r w) ->
  wp n (bsearch cmp p a (zlen L) ez) w Q.
Proof.
  intros Ha Hs Hp Hk Hf Hn HQ. unfold bsearch.
  destruct (decide (L = [])) as [->|Hne].
  - cbn [length]. change (Z.of_nat 0 =? 0) with true. cbn [orb]. wp_step.
    apply HQ. right. by split.
  - assert (0 < zlen L) by (destruct L; [done|cbn; lia]).
    rewrite (proj2 (Z.eqb_neq (zlen L) 0)), (proj2 (Z.eqb_neq ez 0)) by lia. cbn [orb].
    apply wp_loop_k. apply (wp_bsearch_loop n n p key a L w 0 (length L)); [done..| |lia|done].
    split; [lia| |lia]. intros i x Hi Hx. apply lookup_lt_Some in Hx. lia.
Qed.
End search.
