(* ===== verification/Heap.v ===== *)
(** * Allocated memory

    What the library's data structures rely on of [malloc] and [free], as a
    class; and assertions on words of memory that are separate from each other,
    in which the shape of a linked structure is a list of words. *)

From S2P Require Import Prelude CMonad Words Memory MemCopy.

(** ** The allocator *)

(** [B] maps the address of each block in use to its size.  The allocator keeps
    its own data, and the blocks, in an arena; it may change what is in the
    arena outside the blocks, and relies on nobody else to do so. *)
Section blocks.
Context (arena : Z -> Prop) (B : gmap Z Z).

(** The addresses of the client. *)
Definition client (a : Z) : Prop :=
  ~ arena a \/ exists b n, B !! b = Some n /\ b <= a < b + n.
Definition client_range (p n : Z) : Prop := forall a, p <= a < p + n -> client a.

(** The client's memory is the same. *)
Definition kept (m m' : mem) : Prop := forall a, client a -> m' !! a = m !! a.
End blocks.

Class allocator (malloc : Z -> C Z) (free : Z -> C unit) := {
  arena : Z -> Prop;
  heap : gmap Z Z -> mem -> Prop;
  alloc_fuel : nat;
  heap_block B m b n a : heap B m -> B !! b = Some n -> b <= a < b + n -> arena a /\ is_Some (m !! a);
  heap_disjoint B m b n c k : heap B m -> B !! b = Some n -> B !! c = Some k -> b <> c ->
    disjoint_ranges b n c k;
  heap_write B m p l : heap B m -> client_range arena B p (zlen l) -> heap B (store_bytes p l m);
  wp_malloc n B size w (Q : Z -> world -> Prop) :
    (alloc_fuel <= n)%nat -> mem_ok (w_mem w) -> heap B (w_mem w) -> 0 < size < 2147483648 ->
    (forall w', mem_ok (w_mem w') -> w_io w' = w_io w -> kept arena B (w_mem w) (w_mem w') ->
      heap B (w_mem w') -> Q 0 w') ->
    (forall q w', mem_ok (w_mem w') -> w_io w' = w_io w -> kept arena B (w_mem w) (w_mem w') ->
      B !! q = None -> heap (<[q := size]> B) (w_mem w') -> Q q w') ->
    wp n (malloc size) w Q;
  wp_free n B q size w (Q : unit -> world -> Prop) :
    (alloc_fuel <= n)%nat -> mem_ok (w_mem w) -> heap B (w_mem w) -> B !! q = Some size ->
    (forall w', mem_ok (w_mem w') -> w_io w' = w_io w -> kept arena (delete q B) (w_mem w) (w_mem w') ->
      heap (delete q B) (w_mem w') -> Q tt w') ->
    wp n (free q) w Q;
}.

Section allocator.
Context {malloc free} {A : allocator malloc free}.
Implicit Types (B : gmap Z Z) (m : mem).

(** A new block is apart from the client's memory, which stays the client's. *)
Lemma new_block B m q size a : heap (<[q := size]> B) m -> B !! q = None ->
  q <= a < q + size -> ~ client arena B a.
Proof.
  intros H Hq Ha [Hn|(b & n & Hb & Hab)].
  - apply Hn. eapply (heap_block _ m q size); [done|by rewrite lookup_insert_eq|done].
  - assert (Hne : q <> b) by (intros ->; congruence).
    assert (Hd := heap_disjoint _ m q size b n H). rewrite lookup_insert_eq in Hd.
    rewrite lookup_insert_ne in Hd by done. specialize (Hd eq_refl Hb Hne).
    unfold disjoint_ranges in Hd. lia.
Qed.

Lemma client_insert B q size a : B !! q = None -> client arena B a ->
  client arena (<[q := size]> B) a.
Proof.
  intros Hq [H|(b & n & Hb & Ha)]; [by left|right]. exists b, n.
  rewrite lookup_insert_ne by (intros ->; congruence). done.
Qed.

Lemma client_new B q size a : q <= a < q + size -> client arena (<[q := size]> B) a.
Proof. intros Ha. right. exists q, size. by rewrite lookup_insert_eq. Qed.

(** The client's memory outside a block stays the client's when it is freed. *)
Lemma client_delete B m q size a : heap B m -> B !! q = Some size ->
  client arena B a -> ~ (q <= a < q + size) -> client arena (delete q B) a.
Proof.
  intros H Hq [Hn|(b & n & Hb & Ha)] Hout; [by left|right].
  destruct (decide (q = b)) as [<-|Hne]; [congruence|]. exists b, n.
  by rewrite lookup_delete_ne.
Qed.

Lemma block_client B b n a : B !! b = Some n -> b <= a < b + n -> client arena B a.
Proof. intros. right. by exists b, n. Qed.

Lemma block_mapped B m b n : heap B m -> B !! b = Some n -> mapped m b n.
Proof. intros H Hb a Ha. by eapply heap_block. Qed.

Lemma kept_bytes B m m' p l : kept arena B m m' -> client_range arena B p (zlen l) ->
  bytes m p l -> bytes m' p l.
Proof. intros Hk Hc Hb. eapply bytes_frame; [exact Hb|]. intros a Ha. by apply Hk, Hc. Qed.
End allocator.

(** ** Separate words *)

(** A word of the memory and its value. *)
Definition cell : Type := Z * Z.
Definition holds (m : mem) (c : cell) : Prop :=
  bytes m c.1 (le_bytes c.2) /\ 0 <= c.2 < 4294967296.
Definition apart (c d : cell) : Prop := disjoint_ranges c.1 4 d.1 4.

(** Words that are pairwise apart. *)
Fixpoint separate (L : list cell) : Prop :=
  match L with [] => True | c :: L' => Forall (apart c) L' /\ separate L' end.

Definition cells_at (m : mem) (L : list cell) : Prop := Forall (holds m) L /\ separate L.

#[export] Instance apart_sym : Symmetric apart.
Proof. intros c d. unfold apart, disjoint_ranges. lia. Qed.

#[export] Instance separate_proper : Proper (Permutation ==> iff) separate.
Proof.
  assert (H : forall L L', L ≡ₚ L' -> separate L -> separate L').
  { induction 1 as [|c L L' HP IH|c d L|]; cbn [separate]; [done|..].
    - intros [H1 H2]. split; [by rewrite <-HP|by apply IH].
    - rewrite !Forall_cons. intros ([H1 H2] & H3 & H4). split_and!; [by symmetry|done..].
    - tauto. }
  intros L L' HP. split; apply H; [done|by symmetry].
Qed.

#[export] Instance cells_at_proper m : Proper (Permutation ==> iff) (cells_at m).
Proof. intros L L' HP. unfold cells_at. by rewrite HP. Qed.

Lemma separate_app L1 L2 :
  separate (L1 ++ L2) <-> separate L1 /\ separate L2 /\ Forall (fun c => Forall (apart c) L2) L1.
Proof.
  induction L1 as [|c L1 IH]; cbn [app separate]; [split; [by intros; split_and!|tauto]|].
  rewrite IH, Forall_app, Forall_cons. tauto.
Qed.

(** Only the addresses matter. *)
Lemma separate_addr L L' : L.*1 = L'.*1 -> separate L -> separate L'.
Proof.
  revert L'. induction L as [|c L IH]; intros [|c' L']; cbn [fmap list_fmap separate]; try done.
  intros [= Hc HL] [H1 H2]. split; [|by eapply IH].
  clear -Hc HL H1. revert L' HL. induction L as [|d L IH]; intros [|d' L']; cbn [fmap list_fmap]; try done.
  intros [= Hd HL]. apply Forall_cons in H1 as [H H1]. constructor; [|by apply IH].
  unfold apart in *. by rewrite <-Hc, <-Hd.
Qed.

(** Storing to a word. *)
Lemma cells_store m p v v' L : cells_at m ((p, v) :: L) -> 0 <= v' < 4294967296 ->
  cells_at (store_bytes p (le_bytes v') m) ((p, v') :: L).
Proof.
  intros [[Hh HL]%Forall_cons [Ha Hs]] Hv. split; [|done]. constructor.
  - split; [apply bytes_store_same|done].
  - rewrite Forall_forall in HL, Ha |- *. intros c Hc. destruct (HL c Hc) as [Hb Hr]. split; [|done].
    apply bytes_store_out; [done|]. exact (Ha c Hc).
Qed.

Lemma cells_load m p v L n w (Q : Z -> world -> Prop) :
  cells_at m ((p, v) :: L) -> w_mem w = m -> Q v w -> wp n (load32 p) w Q.
Proof. intros [[[Hb Hv] _]%Forall_cons _] <- HQ. by eapply wp_load32_le. Qed.

(** ** Words of the client *)

(** The words from [p] on. *)
Fixpoint words (p : Z) (vs : list Z) : list cell :=
  match vs with [] => [] | v :: vs' => (p, v) :: words (p + 4) vs' end.

Section state.
Context {malloc free} {A : allocator malloc free}.
Implicit Types (B : gmap Z Z) (w : world) (L : list cell) (K : list (Z * list Z)).

Definition data_at B m L (d : Z * list Z) : Prop :=
  0 < zlen d.2 /\ bytes m d.1 d.2 /\ client_range arena B d.1 (zlen d.2) /\
  Forall (fun c => disjoint_ranges d.1 (zlen d.2) c.1 4) L.

(** The words [L] belong to the client and are apart from each other; the data
    [K], which is only read, is apart from them. *)
Record state B w K L : Prop := {
  st_ok : mem_ok (w_mem w);
  st_heap : heap B (w_mem w);
  st_cells : cells_at (w_mem w) L;
  st_client : Forall (fun c => client_range arena B c.1 4) L;
  st_data : Forall (data_at B (w_mem w) L) K;
}.

#[export] Instance data_at_proper B m : Proper (Permutation ==> eq ==> iff) (data_at B m).
Proof. intros L L' HP d ? <-. unfold data_at. by rewrite HP. Qed.

#[export] Instance state_proper B w : Proper (Permutation ==> Permutation ==> iff) (state B w).
Proof.
  assert (H : forall K K' L L', K ≡ₚ K' -> L ≡ₚ L' -> state B w K L -> state B w K' L').
  { intros K K' L L' HK HL []. split; [done..| | |].
    - by rewrite <-HL.
    - by rewrite <-HL.
    - rewrite <-HK. eapply Forall_impl; [done|]. intros d. by rewrite HL. }
  intros K K' HK L L' HL. split; by apply H.
Qed.

Lemma state_data B w K K' L : state B w K L -> K' ⊆ K -> state B w K' L.
Proof.
  intros [] HK. split; try done. rewrite Forall_forall in *. auto.
Qed.

Lemma state_cells B w K L L' : state B w K (L ++ L') -> state B w K L.
Proof.
  intros [? ? [H1 H2] H3 H4]. apply Forall_app in H1 as [H1 _], H3 as [H3 _].
  apply separate_app in H2 as [H2 _]. split; [done..|].
  eapply Forall_impl; [exact H4|]. intros d (? & ? & ? & H5). apply Forall_app in H5 as [H5 _].
  by split_and!.
Qed.

Lemma state_cell B w K L p v : state B w K L -> (p, v) ∈ L -> 0 < p < 1073741824 /\ 0 <= v < 4294967296.
Proof.
  intros H Hc. destruct (st_cells _ _ _ _ H) as [Hh _]. rewrite Forall_forall in Hh.
  destruct (Hh _ Hc) as [Hb Hv]. split; [|done].
  apply (mem_ok_range _ _ _ (st_ok _ _ _ _ H)) in Hb; [|done]. cbn in Hb. lia.
Qed.

Lemma wp_state_load B w K L p v n (Q : Z -> world -> Prop) :
  state B w K L -> (p, v) ∈ L -> Q v w -> wp n (load32 p) w Q.
Proof.
  intros H Hc HQ. destruct (st_cells _ _ _ _ H) as [Hh _]. rewrite Forall_forall in Hh.
  destruct (Hh _ Hc) as [Hb Hv]. by eapply wp_load32_le.
Qed.

Lemma state_stored B w K L p v v' :
  state B w K ((p, v) :: L) -> 0 <= v' < 4294967296 ->
  mapped (w_mem w) p 4 /\ client_range arena B p 4 /\
  state B (set_mem (store_bytes p (le_bytes v') (w_mem w)) w) K ((p, v') :: L).
Proof.
  intros H Hv. destruct (st_cells _ _ _ _ H) as [[[Hb _] _]%Forall_cons _].
  assert (Hm := bytes_mapped _ _ _ Hb). destruct (Forall_cons_1 _ _ _ (st_client _ _ _ _ H)) as [Hp Hcl].
  split; [exact Hm|]. split; [exact Hp|]. split; cbn [set_mem w_mem].
  - apply mem_ok_store; [apply H|exact Hm|]. unfold le_bytes. rewrite !Forall_cons.
    split_and!; [apply byte_of_range..|done].
  - apply heap_write; [apply H|exact Hp].
  - by eapply cells_store; [apply H|].
  - by constructor.
  - eapply Forall_impl; [apply (st_data _ _ _ _ H)|]. intros d (Hn & Hd & Hc & Ha). split_and!; [done| |done|].
    + apply bytes_store_out; [done|]. apply Forall_cons in Ha as [Ha _]. cbn in Ha.
      unfold disjoint_ranges in *. cbn [le_bytes length]. lia.
    + by apply Forall_cons in Ha as [Ha1 Ha2]; constructor.
Qed.

Lemma wp_state_store B w K L p v v' n (Q : unit -> world -> Prop) :
  state B w K ((p, v) :: L) -> 0 <= v' < 4294967296 ->
  (forall w', state B w' K ((p, v') :: L) -> Q tt w') -> wp n (store32 p v') w Q.
Proof.
  intros H Hv HQ. destruct (state_stored _ _ _ _ _ _ _ H Hv) as (Hm & _ & H').
  apply wp_store32_le; [done|done|]. by apply HQ.
Qed.

(** The same for a word anywhere in the list. *)
Lemma wp_state_store_in B w K L0 p v v' L n (Q : unit -> world -> Prop) :
  state B w K L0 -> L0 ≡ₚ (p, v) :: L -> 0 <= v' < 4294967296 ->
  (forall w', state B w' K ((p, v') :: L) -> Q tt w') -> wp n (store32 p v') w Q.
Proof. intros H HP. rewrite HP in H. by eapply wp_state_store. Qed.

Lemma state_data_range B w K L k x : state B w K L -> (k, x) ∈ K -> 0 < k < 1073741824.
Proof.
  intros H Hk. pose proof (st_data _ _ _ _ H) as Hd. rewrite Forall_forall in Hd.
  destruct (Hd _ Hk) as (Hn & Hb & _). cbn in Hn. apply (mem_ok_range _ _ _ (st_ok _ _ _ _ H)) in Hb; [cbn in Hb; lia|].
  intros E. cbn in E. subst x. cbn in Hn. lia.
Qed.

(** The words of a block. *)
Lemma words_ranges p vs c : c ∈ words p vs -> p <= c.1 /\ c.1 + 4 <= p + 4 * zlen vs.
Proof.
  revert p. induction vs as [|v vs IH]; intros p; cbn [words length]; [by intros ?%elem_of_nil|].
  intros [->|Hc]%elem_of_cons; [cbn; lia|]. apply IH in Hc. lia.
Qed.

Lemma words_cover p vs a : p <= a < p + 4 * zlen vs ->
  exists c, c ∈ words p vs /\ c.1 <= a < c.1 + 4.
Proof.
  revert p. induction vs as [|v vs IH]; intros p Ha; cbn [length] in Ha; [lia|]. cbn [words].
  destruct (decide (a < p + 4)) as [H4|H4].
  - exists (p, v). split; [by left|cbn; lia].
  - destruct (IH (p + 4)) as (c & Hc & Hca); [lia|]. exists c. split; [by right|done].
Qed.

Lemma words_app p vs1 vs2 : words p (vs1 ++ vs2) = words p vs1 ++ words (p + 4 * zlen vs1) vs2.
Proof.
  revert p. induction vs1 as [|v vs1 IH]; intros p; cbn [words app length].
  - f_equal. lia.
  - rewrite IH. do 3 f_equal. lia.
Qed.

Lemma words_lookup p vs i v : vs !! i = Some v -> (p + 4 * Z.of_nat i, v) ∈ words p vs.
Proof.
  intros Hi. rewrite <-(take_drop_middle _ _ _ Hi), words_app. apply elem_of_app. right. cbn [words].
  rewrite length_take_le by (apply lookup_lt_Some in Hi; lia). by left.
Qed.

Lemma words_separate p vs : separate (words p vs).
Proof.
  revert p. induction vs as [|v vs IH]; intros p; cbn [words separate]; [done|]. split; [|apply IH].
  apply Forall_forall. intros c Hc. apply words_ranges in Hc. unfold apart, disjoint_ranges. cbn. lia.
Qed.

(** Any contents of a range of memory is a list of words. *)
Lemma range_words m p k : mem_ok m -> mapped m p (4 * Z.of_nat k) ->
  exists vs, length vs = k /\ Forall (holds m) (words p vs).
Proof.
  intros Hm. revert p. induction k as [|k IH]; intros p Hp; [by exists []|].
  destruct (IH (p + 4)) as (vs & Hl & Hvs); [eapply mapped_sub; [exact Hp|lia..]|].
  destruct (mapped_bytes m p 4) as (l & Hl4 & Hb); [lia|eapply mapped_sub; [exact Hp|lia..]|].
  assert (Hby := mem_ok_bytes _ _ _ Hm Hb).
  destruct l as [|a [|b [|c [|d [|]]]]]; cbn [length] in Hl4; try lia.
  rewrite !Forall_cons in Hby. destruct_and!.
  exists (le32 a b c d :: vs). split; [cbn; lia|]. constructor; [|done]. split; cbn [fst snd].
  - unfold le_bytes. destruct (byte_of_le32 a b c d) as (-> & -> & -> & ->); done.
  - by apply le32_range.
Qed.

Lemma kept_words B w w' K L : state B w K L -> kept arena B (w_mem w) (w_mem w') ->
  Forall (holds (w_mem w')) L /\ Forall (data_at B (w_mem w') L) K.
Proof.
  intros H Hk. destruct (st_cells _ _ _ _ H) as [H1 H2]. split.
  - pose proof (st_client _ _ _ _ H) as Hc. rewrite Forall_forall in *.
    intros c Hin. destruct (H1 c Hin). split; [|done]. by eapply kept_bytes; [|apply Hc|].
  - eapply Forall_impl; [apply (st_data _ _ _ _ H)|]. intros d (? & ? & ? & ?).
    split_and!; [done| |done..]. by eapply kept_bytes.
Qed.

Lemma kept_state B w w' K L : state B w K L -> mem_ok (w_mem w') ->
  kept arena B (w_mem w) (w_mem w') -> heap B (w_mem w') -> state B w' K L.
Proof.
  intros H Hm Hk Hh. destruct (st_cells _ _ _ _ H) as [H1 H2].
  destruct (kept_words _ _ _ _ _ H Hk). by split; [..|apply H|].
Qed.

(** Words that are allocated are apart from the others. *)
Lemma state_grow B w w' K L q vs : state B w K L -> B !! q = None ->
  mem_ok (w_mem w') -> kept arena B (w_mem w) (w_mem w') ->
  heap (<[q := 4 * zlen vs]> B) (w_mem w') -> Forall (holds (w_mem w')) (words q vs) ->
  state (<[q := 4 * zlen vs]> B) w' K (words q vs ++ L).
Proof.
  intros H Hq Hm Hk Hh Hvs. destruct (st_cells _ _ _ _ H) as [_ H2].
  destruct (kept_words _ _ _ _ _ H Hk) as [H1 HK].
  assert (Hnew : forall p n c, 0 < n -> client_range arena B p n -> c ∈ words q vs ->
    disjoint_ranges p n c.1 4).
  { intros p n c Hn Hp Hc%words_ranges. unfold disjoint_ranges.
    destruct (decide (c.1 + 4 <= p)) as [|N1]; [lia|]. destruct (decide (p + n <= c.1)) as [|N2]; [lia|].
    exfalso. eapply (new_block B (w_mem w') q (4 * zlen vs) (Z.max p c.1)); [done..|lia|]. apply Hp. lia. }
  assert (Hgrow : forall p n, client_range arena B p n ->
    client_range arena (<[q := 4 * zlen vs]> B) p n).
  { intros p n Hp a Ha. by apply client_insert, Hp. }
  split; [done|done|split|..].
  - by apply Forall_app.
  - apply separate_app. split_and!; [apply words_separate|done|].
    pose proof (st_client _ _ _ _ H) as Hc. rewrite !Forall_forall in *. intros c Hc1.
    rewrite Forall_forall. intros d Hd. symmetry. apply (Hnew d.1 4 c); [lia|by apply Hc|done].
  - apply Forall_app. split.
    + rewrite Forall_forall. intros c Hc%words_ranges a Ha. apply client_new. lia.
    + eapply Forall_impl; [apply (st_client _ _ _ _ H)|]. intros c. apply Hgrow.
  - eapply Forall_impl; [exact HK|]. intros d (Hn & Hd & Hc & Ha). split_and!; [done..|by apply Hgrow|].
    apply Forall_app. split; [|done]. rewrite Forall_forall. intros c Hcw.
    by apply Hnew.
Qed.

Lemma wp_state_malloc B w K L k n (Q : Z -> world -> Prop) :
  state B w K L -> (alloc_fuel <= n)%nat -> (0 < k)%nat -> 4 * Z.of_nat k < 2147483648 ->
  (forall w', state B w' K L -> Q 0 w') ->
  (forall q vs w', length vs = k -> B !! q = None -> q <> 0 ->
    state (<[q := 4 * Z.of_nat k]> B) w' K (words q vs ++ L) -> Q q w') ->
  wp n (malloc (4 * Z.of_nat k)) w Q.
Proof.
  intros H Hn Hk Hsz H0 Hq. eapply (wp_malloc n B); [done|apply H|apply H|lia|..].
  - intros w' Hm _ Hkept Hh. apply H0. by eapply kept_state.
  - intros q w' Hm _ Hkept Hqn Hh.
    assert (Hmap := block_mapped _ _ q (4 * Z.of_nat k) Hh (lookup_insert_eq _ _ _)).
    destruct (range_words _ _ _ Hm Hmap) as (vs & Hvs & Hw). apply (Hq q vs); [done..| |].
    + intros ->. destruct (Hmap 0) as [b Hb]; [lia|]. apply (mem_ok_cell _ _ _ Hm) in Hb. lia.
    + subst k. by eapply state_grow.
Qed.

(** Freeing a block: no other word is in it. *)
Lemma state_shrink B w w' K L q vs : state B w K (words q vs ++ L) -> B !! q = Some (4 * zlen vs) ->
  mem_ok (w_mem w') -> kept arena (delete q B) (w_mem w) (w_mem w') ->
  heap (delete q B) (w_mem w') -> state (delete q B) w' K L.
Proof.
  intros H Hq Hm Hk Hh. destruct (st_cells _ _ _ _ H) as [Hw Hs].
  apply Forall_app in Hw as [_ H1]. apply separate_app in Hs as (_ & H2 & H3).
  pose proof (st_client _ _ _ _ H) as Hc. apply Forall_app in Hc as [_ Hc].
  pose proof (st_data _ _ _ _ H) as HK.
  assert (Hout : forall p n, client_range arena B p n ->
    (forall c, c ∈ words q vs -> disjoint_ranges p n c.1 4) -> 0 < n ->
    client_range arena (delete q B) p n).
  { intros p n Hp Hd Hn a Ha. eapply client_delete; [apply (st_heap _ _ _ _ H)|exact Hq|by apply Hp|].
    intros Hin. destruct (words_cover q vs a Hin) as (c & Hcw & Hca). specialize (Hd c Hcw).
    unfold disjoint_ranges in Hd. lia. }
  assert (Hcl : Forall (fun c => client_range arena (delete q B) c.1 4) L).
  { rewrite Forall_forall in *. intros c Hin. apply Hout; [by apply Hc| |lia].
    intros d Hd. specialize (H3 d Hd). rewrite Forall_forall in H3.
    specialize (H3 c Hin). by symmetry in H3. }
  assert (HK' : Forall (data_at (delete q B) (w_mem w) L) K).
  { eapply Forall_impl; [exact HK|]. intros d (Hn & Hb & Hcd & Ha).
    apply Forall_app in Ha as [Ha1 Ha2]. split_and!; [done..| |done].
    rewrite Forall_forall in Ha1. by apply Hout. }
  split; [done|done|split; [|done]|done|].
  - rewrite Forall_forall in *. intros c Hin. destruct (H1 c Hin). split; [|done].
    by eapply kept_bytes; [|apply Hcl|].
  - eapply Forall_impl; [exact HK'|]. intros d (? & ? & ? & ?). split_and!; [done| |done..].
    by eapply kept_bytes.
Qed.

Lemma wp_state_free B w K L q vs n (Q : unit -> world -> Prop) :
  state B w K (words q vs ++ L) -> (alloc_fuel <= n)%nat -> B !! q = Some (4 * zlen vs) ->
  (forall w', state (delete q B) w' K L -> Q tt w') -> wp n (free q) w Q.
Proof.
  intros H Hn Hq HQ. eapply (wp_free n B); [done|apply H|apply H|exact Hq|].
  intros w' Hm _ Hk Hh. apply HQ. by eapply state_shrink.
Qed.
End state.
