(* ===== verification/Tree.v ===== *)
(** * Binary search trees: search/tsearch.c, tfind.c, tdelete.c, twalk.c, tdestroy.c

    A node is 12 bytes of the memory, [key] at 0, [llink] at 4 and [rlink] at 8;
    a tree is the address of a cell that holds the address of its root, null for
    the empty tree.  [malloc], [free] and the callbacks are parameters. *)

From S2P Require Import Prelude CMonad Words Memory.

(** ** include/search.h *)

Inductive VISIT := preorder | postorder | endorder | leaf.

Definition sizeof_node : Z := 12.
Definition key (p : Z) : Z := p.
Definition llink (p : Z) : Z := p + 4.
Definition rlink (p : Z) : Z := p + 8.

Section search.
Context (compar : Z -> Z -> C Z).

(** The descent of the searches: [Return] the node found, or [Fall] the address
    of the null link where the key belongs. *)
Definition descend_step (vkey rootp : Z) : C (Z + flow Z Z) :=
  root ← load32 rootp;
  if root =? 0 then brk (Fall rootp) else
  root ← load32 rootp;
  k ← load32 (key root);
  r ← compar vkey k;
  if r =? 0 then root ← load32 rootp; brk (Return root) else
  root ← load32 rootp;
  next (if r <? 0 then llink root else rlink root).

Definition descend (vkey vrootp : Z) : C (flow Z Z) := loop (descend_step vkey) vrootp.

Definition tfind (vkey vrootp : Z) : C Z :=
  if vrootp =? 0 then mret 0 else
  _ ⇐ descend vkey vrootp;
  mret 0.

Definition tsearch (malloc : Z -> C Z) (vkey vrootp : Z) : C Z :=
  if vrootp =? 0 then mret 0 else
  rootp ⇐ descend vkey vrootp;
  q ← malloc sizeof_node;
  (if q =? 0 then mret tt else
   store32 rootp q ;;
   store32 (key q) vkey ;;
   store32 (rlink q) 0 ;;
   store32 (llink q) 0) ;;
  mret q.

(** The node for a key and its parent, with the address of the link to it. *)
Definition delete_step (vkey : Z) (s : Z * Z) : C (Z * Z + flow (Z * Z) Z) :=
  let '(rootp, p) := s in
  root ← load32 rootp;
  k ← load32 (key root);
  cmp ← compar vkey k;
  if cmp =? 0 then brk (Fall (rootp, p)) else
  p ← load32 rootp;
  root ← load32 rootp;
  let rootp := if cmp <? 0 then llink root else rlink root in
  root ← load32 rootp;
  if root =? 0 then brk (Return 0) else next (rootp, p).

(** Step D3: the first node [q] in order of the tree at [r], and its parent. *)
Definition null_link_step (s : Z * Z) : C (Z * Z + Z * Z) :=
  let '(q, r) := s in
  l ← load32 (llink q);
  if l =? 0 then brk (q, r) else
  let r := q in
  q ← load32 (llink r);
  next (q, r).

(** Steps D1 to D3: the tree that replaces the node at [*rootp]. *)
Definition replacement (rootp : Z) : C Z :=
  root ← load32 rootp;
  r ← load32 (rlink root);
  root ← load32 rootp;
  q ← load32 (llink root);
  if q =? 0 then mret r
  else if negb (r =? 0) then
    l ← load32 (llink r);
    if l =? 0 then store32 (llink r) q ;; mret r
    else
      q ← load32 (llink r);
      '(q, r) ← loop null_link_step (q, r);
      x ← load32 (rlink q);
      store32 (llink r) x ;;
      root ← load32 rootp;
      x ← load32 (llink root);
      store32 (llink q) x ;;
      root ← load32 rootp;
      x ← load32 (rlink root);
      store32 (rlink q) x ;;
      mret q
  else mret q.

Definition tdelete (free : Z -> C unit) (vkey vrootp : Z) : C Z :=
  if vrootp =? 0 then mret 0 else
  p ← load32 vrootp;
  if p =? 0 then mret 0 else
  '(rootp, p) ⇐ loop (delete_step vkey) (vrootp, p);
  q ← replacement rootp;
  root ← load32 rootp;
  free root ;;
  store32 rootp q ;;
  mret p.
End search.

(** ** Walks *)

Section walks.
Context (action : Z -> VISIT -> Z -> C unit).

Fixpoint trecurse (k : nat) (root level : Z) : C unit :=
  match k with
  | O => fun _ _ => NoFuel
  | S k' =>
      l ← load32 (llink root);
      isleaf ← (if l =? 0 then r ← load32 (rlink root); mret (r =? 0) else mret false);
      if isleaf : bool then action root leaf level else
      action root preorder level ;;
      l ← load32 (llink root);
      (if l =? 0 then mret tt else
       l ← load32 (llink root); trecurse k' l (i32 (level + 1))) ;;
      action root postorder level ;;
      r ← load32 (rlink root);
      (if r =? 0 then mret tt else
       r ← load32 (rlink root); trecurse k' r (i32 (level + 1))) ;;
      action root endorder level
  end.

(** [action] is not null. *)
Definition twalk (vroot : Z) : C unit :=
  if negb (vroot =? 0) then fun n => trecurse n vroot 0 n else mret tt.
End walks.

Section destroy.
Context (free : Z -> C unit) (free_action : Z -> C unit).

Fixpoint destroy_recurse (k : nat) (root : Z) : C unit :=
  match k with
  | O => fun _ _ => NoFuel
  | S k' =>
      l ← load32 (llink root);
      (if l =? 0 then mret tt else l ← load32 (llink root); destroy_recurse k' l) ;;
      r ← load32 (rlink root);
      (if r =? 0 then mret tt else r ← load32 (rlink root); destroy_recurse k' r) ;;
      x ← load32 (key root);
      free_action x ;;
      free root
  end.

Definition tdestroy (root : Z) : C unit :=
  if negb (root =? 0) then fun n => destroy_recurse n root n else mret tt.
End destroy.
