(* ===== verification/TreeSpec.v ===== *)
(** * Specification of the search trees

    A tree in memory is the image of a [tree]: the words of its nodes, apart
    from each other, each node a block of the allocator.  A descent is a path
    ([frame]s, innermost first) and the subtree where it has arrived; the
    operations change the list of entries in order. *)

From Stdlib Require Import Sorted.
From S2P Require Import Prelude CMonad Words Memory MemCopy Compare Heap Tree.

Inductive tree := Leaf | Node (a k : Z) (x : list Z) (l r : tree).

(** Node address, key pointer and key. *)
Definition entry : Type := Z * (Z * list Z).

Definition addr (t : tree) : Z := match t with Leaf => 0 | Node a _ _ _ _ => a end.
Fixpoint entries (t : tree) : list entry :=
  match t with Leaf => [] | Node a k x l r => entries l ++ (a, (k, x)) :: entries r end.
Definition data (t : tree) : list (Z * list Z) := (entries t).*2.

(** The words of the nodes, and with the link to the root. *)
Fixpoint body (t : tree) : list cell :=
  match t with
  | Leaf => []
  | Node a k x l r =>
      (a, k) :: (a + 4, addr l) :: (a + 8, addr r) :: body l ++ body r
  end.
Definition tree_cells (rp : Z) (t : tree) : list cell := (rp, addr t) :: body t.

(** ** Paths *)

Inductive frame := InLeft (a k : Z) (x : list Z) (r : tree) | InRight (a k : Z) (x : list Z) (l : tree).

Definition fill (f : frame) (s : tree) : tree :=
  match f with InLeft a k x r => Node a k x s r | InRight a k x l => Node a k x l s end.
Fixpoint plug (c : list frame) (s : tree) : tree :=
  match c with [] => s | f :: c' => plug c' (fill f s) end.

(** The address of the link, and the words outside of the subtree and its link. *)
Definition hole (rp : Z) (c : list frame) : Z :=
  match c with [] => rp | InLeft a _ _ _ :: _ => a + 4 | InRight a _ _ _ :: _ => a + 8 end.
Fixpoint outside (rp : Z) (c : list frame) : list cell :=
  match c with
  | [] => []
  | InLeft a k x r :: c' => (hole rp c', a) :: (a, k) :: (a + 8, addr r) :: body r ++ outside rp c'
  | InRight a k x l :: c' => (hole rp c', a) :: (a, k) :: (a + 4, addr l) :: body l ++ outside rp c'
  end.

Fixpoint before (c : list frame) : list entry :=
  match c with
  | [] => []
  | InLeft a k x r :: c' => before c'
  | InRight a k x l :: c' => before c' ++ entries l ++ [(a, (k, x))]
  end.
Fixpoint after (c : list frame) : list entry :=
  match c with
  | [] => []
  | InLeft a k x r :: c' => (a, (k, x)) :: entries r ++ after c'
  | InRight a k x l :: c' => after c'
  end.

Lemma plug_cells rp c s : tree_cells rp (plug c s) ≡ₚ tree_cells (hole rp c) s ++ outside rp c.
Proof.
  revert s. induction c as [|[a k x r|a k x l] c IH]; intros s; cbn [plug fill].
  - by rewrite app_nil_r.
  - rewrite IH. unfold tree_cells. cbn [addr body hole outside]. solve_Permutation.
  - rewrite IH. unfold tree_cells. cbn [addr body hole outside]. solve_Permutation.
Qed.

Lemma plug_entries c s : entries (plug c s) = before c ++ entries s ++ after c.
Proof.
  revert s. induction c as [|[a k x r|a k x l] c IH]; intros s; cbn [plug fill before after].
  - by rewrite app_nil_r.
  - rewrite IH. cbn [entries]. by rewrite <-!app_assoc.
  - rewrite IH. cbn [entries]. by rewrite <-!app_assoc.
Qed.

Lemma plug_in rp c s p : p ∈ tree_cells (hole rp c) s -> p ∈ tree_cells rp (plug c s).
Proof. intros H. rewrite plug_cells. apply elem_of_app. by left. Qed.

Lemma plug_data c s d : d ∈ data s -> d ∈ data (plug c s).
Proof. unfold data. rewrite plug_entries, !fmap_app, !elem_of_app. tauto. Qed.

Lemma data_node a k x l r : (k, x) ∈ data (Node a k x l r).
Proof. unfold data. cbn [entries]. rewrite fmap_app, elem_of_app. right. by left. Qed.

(** ** Order *)

Section order.
Context {E : nat} {cmp : Z -> Z -> C Z} {Hcmp : comparator cmp E}.
Implicit Types (x y z : list Z) (t s l r : tree).

Definition entry_lt (e f : entry) : Prop := ord e.2.2 f.2.2 < 0.
Definition ordered t : Prop := StronglySorted entry_lt (entries t).
Definition keyed t : Prop := Forall (fun e : entry => length e.2.2 = E) (entries t).

Definition below x (L : list entry) : Prop := Forall (fun e : entry => 0 < ord x e.2.2) L.
Definition above x (L : list entry) : Prop := Forall (fun e : entry => ord x e.2.2 < 0) L.

Lemma sorted_entries L1 L2 : StronglySorted entry_lt (L1 ++ L2) <->
  StronglySorted entry_lt L1 /\ StronglySorted entry_lt L2 /\
  Forall (fun e => Forall (entry_lt e) L2) L1.
Proof.
  induction L1 as [|e L1 IH]; cbn [app].
  - split; [by intros; split_and!; [constructor|..]|tauto].
  - split.
    + intros [H He]%StronglySorted_inv. apply IH in H as (H1 & H2 & H3).
      apply Forall_app in He as [He1 He2]. split_and!; [by constructor|done|by constructor].
    + intros ([H1 He]%StronglySorted_inv & H2 & [He2 H3]%Forall_cons). constructor; [by apply IH|].
      by apply Forall_app.
Qed.

Lemma ordered_plug c s : ordered (plug c s) -> ordered s.
Proof.
  unfold ordered. rewrite plug_entries. rewrite !sorted_entries. tauto.
Qed.

(** A descent to the left or to the right keeps the key between the entries
    before and after. *)
Lemma descend_left x c a k y l r : ordered (Node a k y l r) -> ord x y < 0 ->
  above x (after c) -> above x (after (InLeft a k y r :: c)).
Proof.
  unfold ordered, above. cbn [entries after]. rewrite sorted_entries.
  intros (_ & [_ Hr]%StronglySorted_inv & _) Hx Hc. constructor; [done|].
  apply Forall_app. split; [|done]. eapply Forall_impl; [exact Hr|].
  intros e He. by eapply ord_lt_trans.
Qed.

Lemma descend_right x c a k y l r : ordered (Node a k y l r) -> 0 < ord x y ->
  below x (before c) -> below x (before (InRight a k y l :: c)).
Proof.
  unfold ordered, below. cbn [entries before]. rewrite sorted_entries.
  intros (_ & _ & Hl) Hx Hc. rewrite !Forall_app, Forall_singleton. split_and!; [done| |done].
  eapply Forall_impl; [exact Hl|]. intros e [He _]%Forall_cons. unfold entry_lt in He. cbn [snd] in He.
  pose proof (ord_lt_trans e.2.2 y x He). pose proof (ord_sym x y). pose proof (ord_sym x e.2.2). lia.
Qed.

Lemma between_absent x L1 L2 : below x L1 -> above x L2 ->
  Forall (fun e : entry => ord x e.2.2 <> 0) (L1 ++ L2).
Proof.
  intros H1 H2. apply Forall_app. split; [eapply Forall_impl; [exact H1|]|eapply Forall_impl; [exact H2|]];
    cbn; lia.
Qed.

(** The entries with the key inserted where the descent ends are in order. *)
Lemma insert_sorted q k x L1 L2 : StronglySorted entry_lt (L1 ++ L2) ->
  below x L1 -> above x L2 -> StronglySorted entry_lt (L1 ++ (q, (k, x)) :: L2).
Proof.
  rewrite !sorted_entries. intros (H1 & H2 & H3) Hb Ha. split_and!; [done|by constructor|].
  unfold below in Hb. rewrite Forall_forall in *. intros e He. constructor; [|by apply H3].
  specialize (Hb e He). unfold entry_lt. cbn [snd]. pose proof (ord_sym x e.2.2). lia.
Qed.

(** At most one entry has a key. *)
Lemma equal_unique x L e f : StronglySorted entry_lt L -> e ∈ L -> f ∈ L ->
  ord x e.2.2 = 0 -> ord x f.2.2 = 0 -> e = f.
Proof.
  intros HL He Hf Hxe Hxf. apply list_elem_of_split in He as (L1 & L2 & ->).
  apply sorted_entries in HL as (_ & [_ H2]%StronglySorted_inv & H1). rewrite Forall_forall in H1, H2.
  apply elem_of_app in Hf as [Hf|[->|Hf]%elem_of_cons]; [|done|]; exfalso.
  - apply H1 in Hf. apply Forall_cons in Hf as [Hf _]. pose proof (ord_lt_equal _ _ _ Hxf Hf). lia.
  - apply H2 in Hf. pose proof (ord_lt_equal _ _ _ Hxe Hf). lia.
Qed.

Lemma remove_sorted e L1 L2 : StronglySorted entry_lt (L1 ++ e :: L2) -> StronglySorted entry_lt (L1 ++ L2).
Proof.
  rewrite !sorted_entries. intros (H1 & [H2 _]%StronglySorted_inv & H3). split_and!; [done..|].
  eapply Forall_impl; [exact H3|]. by intros f [_ H]%Forall_cons.
Qed.
End order.

(** ** Searching *)

Section search.
Context {E : nat} {cmp : Z -> Z -> C Z} {Hcmp : comparator cmp E}.
Context {malloc free} {A : allocator malloc free}.
Implicit Types (x y : list Z) (t s l r : tree) (B : gmap Z Z) (K : list (Z * list Z)) (F : list cell).

Lemma key_data B w K L k y : state B w K L -> (k, y) ∈ K -> bytes (w_mem w) k y.
Proof.
  intros H Hk. pose proof (st_data _ _ _ _ H) as Hd. rewrite Forall_forall in Hd.
  by destruct (Hd _ Hk) as (_ & ? & _).
Qed.

Lemma keyed_plug c a k y l r : keyed (E := E) (plug c (Node a k y l r)) -> length y = E.
Proof.
  unfold keyed. rewrite plug_entries. cbn [entries]. rewrite !Forall_app, Forall_cons.
  by intros (_ & (_ & H & _) & _).
Qed.

(** The words of a node on the path. *)
Lemma node_cells B w K rp c a k y l r F :
  state B w K (tree_cells rp (plug c (Node a k y l r)) ++ F) ->
  let L := tree_cells rp (plug c (Node a k y l r)) ++ F in
  (hole rp c, a) ∈ L /\ (a, k) ∈ L /\ (a + 4, addr l) ∈ L /\ (a + 8, addr r) ∈ L /\ a <> 0.
Proof.
  intros H L. assert (Hin : forall p, p ∈ tree_cells (hole rp c) (Node a k y l r) -> p ∈ L).
  { intros p Hp. apply elem_of_app. left. by apply plug_in. }
  assert (Ha : (a, k) ∈ L) by (apply Hin; do 1 right; left).
  apply (state_cell _ _ _ _ _ _ H) in Ha as Ha'. cbn in Ha'.
  split_and!; [apply Hin; left|done|apply Hin; do 2 right; left|apply Hin; do 3 right; left|lia].
Qed.

Lemma wp_compar B w K L vk x k y n (Q : Z -> world -> Prop) :
  state B w K L -> (cmp_fuel <= n)%nat -> (vk, x) ∈ K -> (k, y) ∈ K -> length x = E -> length y = E ->
  (forall v, Z.sgn v = Z.sgn (ord x y) -> Q v w) -> wp n (cmp vk k) w Q.
Proof.
  intros H Hn Hx Hy Hlx Hly HQ. eapply (cmp_spec n); [done|apply H|..]; [by eapply key_data..|done|done|done].
Qed.

(** An ordered tree at [rp], next to other words and data of the client. *)
Record tree_at B w K rp t F : Prop := {
  ta_state : state B w K (tree_cells rp t ++ F);
  ta_data : data t ⊆ K;
  ta_keyed : keyed (E := E) t;
  ta_ordered : ordered t;
  ta_nodes : Forall (fun e : entry => B !! e.1 = Some sizeof_node) (entries t);
}.

(** A search in it. *)
Record searching B w K vk x rp t F n : Prop := {
  sg_tree : tree_at B w K rp t F;
  sg_key : (vk, x) ∈ K;
  sg_len : length x = E;
  sg_fuel : (cmp_fuel <= n)%nat;
}.

(** The comparison with the key of a node on the path. *)
Lemma wp_compar_node B w K vk x rp c a k y l r F n (Q : Z -> world -> Prop) :
  searching B w K vk x rp (plug c (Node a k y l r)) F n ->
  (forall v, Z.sgn v = Z.sgn (ord x y) -> Q v w) -> wp n (cmp vk k) w Q.
Proof.
  intros [[] ? ? ?]. eapply wp_compar; [done..| |done|by eapply keyed_plug].
  apply ta_data0, plug_data, data_node.
Qed.

Lemma wp_descend_k B w K vk x rp t F n (Q : flow Z Z -> world -> Prop) :
  searching B w K vk x rp t F n ->
  (forall c a k y l r, t = plug c (Node a k y l r) -> ord x y = 0 -> Q (Return a) w) ->
  (forall c, t = plug c Leaf -> below x (before c) -> above x (after c) -> Q (Fall (hole rp c)) w) ->
  forall s c k, t = plug c s -> below x (before c) -> above x (after c) ->
    (length (entries s) < k)%nat -> wp n (loop_k k (descend_step cmp vk) (hole rp c)) w Q.
Proof.
  intros H Hfound Habsent. induction s as [|a k y l IHl r IHr]; intros c k' Ht Hb Ha Hk';
    (destruct k' as [|k']; [lia|]); wp_loop; unfold descend_step at 1; wp_step.
  - eapply wp_state_load; [apply H| |].
    + apply elem_of_app. left. rewrite Ht. apply plug_in. left.
    + cbn [addr]. change (0 =? 0) with true. wp_steps. by apply Habsent.
  - subst t. destruct (node_cells _ _ _ _ _ _ _ _ _ _ _ (ta_state _ _ _ _ _ _ (sg_tree _ _ _ _ _ _ _ _ _ H)))
      as (C1 & C2 & C3 & C4 & Hne).
    assert (Hst := ta_state _ _ _ _ _ _ (sg_tree _ _ _ _ _ _ _ _ _ H)).
    assert (Hs := ordered_plug _ _ (ta_ordered _ _ _ _ _ _ (sg_tree _ _ _ _ _ _ _ _ _ H))).
    eapply wp_state_load; [exact Hst|exact C1|]. rewrite (proj2 (Z.eqb_neq a 0)) by done.
    wp_step. eapply wp_state_load; [exact Hst|exact C1|]. wp_step.
    eapply wp_state_load; [exact Hst|exact C2|]. wp_step. eapply wp_compar_node; [exact H|].
    intros v Hv. cbn [entries] in Hk'. rewrite length_app in Hk'. cbn [length] in Hk'.
    destruct (Z.eqb_spec v 0) as [->|Hv0]; wp_step; (eapply wp_state_load; [exact Hst|exact C1|]); wp_step.
    + eapply Hfound; [done|]. lia.
    + destruct (Z.ltb_spec v 0).
      * apply (IHl (InLeft a k y r :: c)); [done|done| |lia]. eapply descend_left; [exact Hs|lia|done].
      * apply (IHr (InRight a k y l :: c)); [done| |done|lia]. eapply descend_right; [exact Hs|lia|done].
Qed.

Lemma wp_descend B w K vk x rp t F n (Q : flow Z Z -> world -> Prop) :
  searching B w K vk x rp t F n -> (length (entries t) < n)%nat ->
  (forall c a k y l r, t = plug c (Node a k y l r) -> ord x y = 0 -> Q (Return a) w) ->
  (forall c, t = plug c Leaf -> below x (before c) -> above x (after c) -> Q (Fall (hole rp c)) w) ->
  wp n (descend cmp vk rp) w Q.
Proof.
  intros H Hn Hfound Habsent. apply wp_loop_k.
  by eapply (wp_descend_k B w K vk x rp t F n Q H Hfound Habsent t []); [|constructor..|].
Qed.

Lemma node_entry c a k y l r : (a, (k, y)) ∈ entries (plug c (Node a k y l r)).
Proof. rewrite plug_entries. cbn [entries]. rewrite !elem_of_app, elem_of_cons. tauto. Qed.

Lemma tree_root B w K rp t F : tree_at B w K rp t F -> (rp =? 0) = false.
Proof.
  intros [H _ _ _ _]. apply Z.eqb_neq. assert (Hr : (rp, addr t) ∈ tree_cells rp t ++ F) by left.
  apply (state_cell _ _ _ _ _ _ H) in Hr. lia.
Qed.

Lemma wp_tfind B w K vk x rp t F n (Q : Z -> world -> Prop) :
  searching B w K vk x rp t F n -> (length (entries t) < n)%nat ->
  (forall a k y, (a, (k, y)) ∈ entries t -> ord x y = 0 -> Q a w) ->
  (Forall (fun e : entry => ord x e.2.2 <> 0) (entries t) -> Q 0 w) ->
  wp n (tfind cmp vk rp) w Q.
Proof.
  intros H Hn Hfound Habsent. unfold tfind. rewrite (tree_root B w K rp t F) by apply H.
  wp_step. eapply wp_descend; [exact H|done|..].
  - intros c a k y l r -> Hxy. by eapply Hfound; [apply node_entry|].
  - intros c -> Hb Ha. wp_step. apply Habsent. rewrite plug_entries. by apply between_absent.
Qed.

(** The tree with a new node in the place of an empty subtree. *)
Lemma tree_insert B w w' K vk x rp c F q :
  tree_at B w K rp (plug c Leaf) F -> (vk, x) ∈ K -> length x = E ->
  below x (before c) -> above x (after c) -> B !! q = None ->
  state (<[q := sizeof_node]> B) w' K
    ((hole rp c, q) :: (q, vk) :: (q + 4, 0) :: (q + 8, 0) :: outside rp c ++ F) ->
  tree_at (<[q := sizeof_node]> B) w' K rp (plug c (Node q vk x Leaf Leaf)) F.
Proof.
  intros [Hst HK Hk Ho Hno] Hx Hlx Hb Ha Hq Hw'.
  assert (He : entries (plug c Leaf) = before c ++ after c) by (by rewrite plug_entries).
  assert (He' : entries (plug c (Node q vk x Leaf Leaf)) = before c ++ (q, (vk, x)) :: after c)
    by (by rewrite plug_entries).
  assert (Hold : forall e, e ∈ before c ++ after c -> <[q := sizeof_node]> B !! e.1 = Some sizeof_node).
  { rewrite He, Forall_forall in Hno. intros e Hin. specialize (Hno e Hin).
    rewrite lookup_insert_ne; [done|]. intros ->. congruence. }
  unfold ordered, keyed, data in *. rewrite He in Ho, Hk, HK. split.
  - rewrite plug_cells. exact Hw'.
  - unfold data. rewrite He'. rewrite !fmap_app in *. cbn [fmap list_fmap snd]. set_solver.
  - unfold keyed. rewrite He'. rewrite !Forall_app in *. rewrite Forall_cons. tauto.
  - unfold ordered. rewrite He'. by apply insert_sorted.
  - rewrite He'. apply Forall_forall. intros e [H|[->|H]%elem_of_cons]%elem_of_app.
    + apply Hold, elem_of_app. by left.
    + apply lookup_insert_eq.
    + apply Hold, elem_of_app. by right.
Qed.

(** The new node is where the search ended. *)
Lemma wp_tsearch B w K vk x rp t F n (Q : Z -> world -> Prop) :
  searching B w K vk x rp t F n -> (length (entries t) < n)%nat -> (alloc_fuel <= n)%nat ->
  (forall a k y, (a, (k, y)) ∈ entries t -> ord x y = 0 -> Q a w) ->
  (forall w', Forall (fun e : entry => ord x e.2.2 <> 0) (entries t) -> tree_at B w' K rp t F -> Q 0 w') ->
  (forall q w' L1 L2 t', Forall (fun e : entry => ord x e.2.2 <> 0) (entries t) -> B !! q = None ->
    entries t = L1 ++ L2 -> entries t' = L1 ++ (q, (vk, x)) :: L2 ->
    tree_at (<[q := sizeof_node]> B) w' K rp t' F -> Q q w') ->
  wp n (tsearch cmp malloc vk rp) w Q.
Proof.
  intros H Hn Hf Hfound Hnomem Hins. unfold tsearch. rewrite (tree_root B w K rp t F) by apply H.
  wp_step. eapply wp_descend; [exact H|done|..].
  { intros c a k y l r -> Hxy. by eapply Hfound; [apply node_entry|]. }
  intros c -> Hb Ha. destruct H as [[Hst HK Hk Ho Hno] Hx Hlx _].
  assert (Hne := between_absent x _ _ Hb Ha).
  assert (He : entries (plug c Leaf) = before c ++ after c) by (by rewrite plug_entries).
  rewrite <-He in Hne. wp_step. change sizeof_node with (4 * Z.of_nat 3).
  eapply wp_state_malloc; [exact Hst|done|lia|lia|..].
  { intros w' Hw'. change (0 =? 0) with true. wp_steps. by apply Hnomem. }
  intros q vs w' Hvs Hq Hq0 Hw'. destruct vs as [|v1 [|v2 [|v3 [|]]]]; try done.
  assert (Hqr : (q, v1) ∈ words q [v1; v2; v3] ++ tree_cells rp (plug c Leaf) ++ F) by left.
  apply (state_cell _ _ _ _ _ _ Hw') in Hqr. rewrite (proj2 (Z.eqb_neq q 0)) by done.
  assert (Hvk := state_data_range _ _ _ _ _ _ Hw' Hx).
  assert (HP := plug_cells rp c Leaf). cbn [tree_cells addr body] in HP.
  wp_steps. eapply (wp_state_store_in _ _ _ _ _ 0 _ (words q [v1; v2; v3] ++ outside rp c ++ F));
    [exact Hw'|rewrite HP; solve_Permutation|lia|]. clear w' Hw'. intros w' Hw'. cbn [words] in Hw'.
  replace (q + 4 + 4) with (rlink q) in Hw' by (unfold rlink; lia). fold (llink q) in Hw'.
  wp_step. eapply (wp_state_store_in _ _ _ _ _ v1 _
    ((hole rp c, q) :: (llink q, v2) :: (rlink q, v3) :: outside rp c ++ F));
    [exact Hw'|solve_Permutation|lia|]. clear w' Hw'. intros w' Hw'.
  wp_step. eapply (wp_state_store_in _ _ _ _ _ v3 _
    ((q, vk) :: (hole rp c, q) :: (llink q, v2) :: outside rp c ++ F));
    [exact Hw'|solve_Permutation|lia|]. clear w' Hw'. intros w' Hw'.
  eapply (wp_state_store_in _ _ _ _ _ v2 _
    ((rlink q, 0) :: (q, vk) :: (hole rp c, q) :: outside rp c ++ F));
    [exact Hw'|solve_Permutation|lia|]. clear w' Hw'. intros w' Hw'. wp_step.
  eapply (Hins q w' (before c) (after c) (plug c (Node q vk x Leaf Leaf)));
    [done|done|done|by rewrite plug_entries|].
  eapply tree_insert; [by split|done..|]. unfold key, llink, rlink in *.
  eapply state_proper; [reflexivity| |exact Hw']. solve_Permutation.
Qed.

(** ** Deletion *)

Definition parent (t : tree) (c : list frame) : Z :=
  match c with [] => addr t | InLeft a _ _ _ :: _ | InRight a _ _ _ :: _ => a end.

Lemma wp_delete_find B w K vk x rp t F n (Q : flow (Z * Z) Z -> world -> Prop) :
  searching B w K vk x rp t F n ->
  (forall c a k y l r, t = plug c (Node a k y l r) -> ord x y = 0 ->
    Q (Fall (hole rp c, parent t c)) w) ->
  (Forall (fun e : entry => ord x e.2.2 <> 0) (entries t) -> Q (Return 0) w) ->
  forall s c k, t = plug c s -> s <> Leaf -> below x (before c) -> above x (after c) ->
    (length (entries s) <= k)%nat ->
    wp n (loop_k k (delete_step cmp vk) (hole rp c, parent t c)) w Q.
Proof.
  intros H Hfound Habsent. induction s as [|a k y l IHl r IHr]; intros c k' Ht Hs0 Hb Ha Hk'; [done|].
  cbn [entries] in Hk'. rewrite length_app in Hk'. cbn [length] in Hk'.
  destruct k' as [|k']; [lia|]. wp_loop. unfold delete_step at 1. wp_step.
  destruct (node_cells B w K rp c a k y l r F) as (C1 & C2 & C3 & C4 & Hne);
    [rewrite <-Ht; apply H|]. rewrite <-Ht in C1, C2, C3, C4.
  assert (Hst := ta_state _ _ _ _ _ _ (sg_tree _ _ _ _ _ _ _ _ _ H)).
  assert (Hs : ordered (Node a k y l r)) by (eapply ordered_plug; rewrite <-Ht; apply H).
  eapply wp_state_load; [exact Hst|exact C1|]. wp_step.
  eapply wp_state_load; [exact Hst|exact C2|]. wp_step.
  eapply wp_compar_node; [rewrite <-Ht; exact H|]. intros v Hv.
  destruct (Z.eqb_spec v 0) as [->|Hv0]; wp_step; [apply (Hfound c a k y l r); [done|lia]|].
  eapply wp_state_load; [exact Hst|exact C1|]. wp_step.
  eapply wp_state_load; [exact Hst|exact C1|]. wp_steps.
  destruct (Z.ltb_spec v 0).
  - assert (Ha' : above x (after (InLeft a k y r :: c))) by (eapply descend_left; [exact Hs|lia|done]).
    eapply wp_state_load; [exact Hst|exact C3|].
    destruct l as [|b kb yb lb rb].
    + change (addr Leaf =? 0) with true. wp_steps. apply Habsent. rewrite Ht, plug_entries.
      cbn [entries]. by apply (between_absent x _ _ Hb Ha').
    + destruct (node_cells B w K rp (InLeft a k y r :: c) b kb yb lb rb F) as (_ & _ & _ & _ & Hnb);
        [cbn [plug fill]; rewrite <-Ht; apply H|].
      rewrite (proj2 (Z.eqb_neq _ 0)) by done. wp_step.
      by apply (IHl (InLeft a k y r :: c)); [..|lia].
  - assert (Hb' : below x (before (InRight a k y l :: c))) by (eapply descend_right; [exact Hs|lia|done]).
    eapply wp_state_load; [exact Hst|exact C4|].
    destruct r as [|b kb yb lb rb].
    + change (addr Leaf =? 0) with true. wp_steps. apply Habsent. rewrite Ht, plug_entries.
      cbn [entries]. rewrite <-app_assoc. cbn [app].
      assert (Hab := between_absent x _ _ Hb' Ha). cbn [before] in Hab.
      by rewrite <-!app_assoc in Hab.
    + destruct (node_cells B w K rp (InRight a k y l :: c) b kb yb lb rb F) as (_ & _ & _ & _ & Hnb);
        [cbn [plug fill]; rewrite <-Ht; apply H|].
      rewrite (proj2 (Z.eqb_neq _ 0)) by done. wp_step.
      by apply (IHr (InRight a k y l :: c)); [..|lia].
Qed.

Lemma addr_plug c s s' : c <> [] -> addr (plug c s) = addr (plug c s').
Proof.
  revert s s'. induction c as [|f c IH]; intros s s' Hc; [done|]. cbn [plug].
  destruct c as [|f' c]; [by destruct f|by apply IH].
Qed.

(** The first node in order of the tree [r] and its parent. *)
Lemma wp_null_link B w K rp r L n (Q : Z * Z -> world -> Prop) :
  state B w K (tree_cells rp r ++ L) ->
  (forall b kb yb rb c q kq yq rq,
    r = plug (InLeft b kb yb rb :: c) (Node q kq yq Leaf rq) -> before c = [] -> Q (q, b) w) ->
  forall lq b kb yb rb c q kq yq rq j,
    r = plug (InLeft b kb yb rb :: c) (Node q kq yq lq rq) -> before c = [] ->
    (length (entries lq) < j)%nat -> wp n (loop_k j null_link_step (q, b)) w Q.
Proof.
  intros H HQ lq. induction lq as [|a k y l IHl r' _]; intros b kb yb rb c q kq yq rq j Hr Hb Hj;
    (destruct j as [|j]; [lia|]); wp_loop; unfold null_link_step at 1; wp_step.
  - destruct (node_cells B w K rp (InLeft b kb yb rb :: c) q kq yq Leaf rq L) as (_ & _ & C & _ & _);
      [by rewrite <-Hr|]. rewrite <-Hr in C. eapply wp_state_load; [exact H|exact C|].
    change (addr Leaf =? 0) with true. wp_steps. by eapply HQ.
  - destruct (node_cells B w K rp (InLeft b kb yb rb :: c) q kq yq (Node a k y l r') rq L)
      as (_ & _ & C & _ & _); [by rewrite <-Hr|]. rewrite <-Hr in C.
    destruct (node_cells B w K rp (InLeft q kq yq rq :: InLeft b kb yb rb :: c) a k y l r' L)
      as (_ & _ & _ & _ & Hne); [cbn [plug fill] in *; by rewrite <-Hr|].
    eapply wp_state_load; [exact H|exact C|]. cbn [addr].
    rewrite (proj2 (Z.eqb_neq a 0)) by done. wp_steps.
    eapply wp_state_load; [exact H|exact C|]. wp_steps. cbn [entries] in Hj.
    rewrite length_app in Hj. cbn [length] in Hj. by apply (IHl q kq yq rq (InLeft b kb yb rb :: c) a k y r' j); [| |lia].
Qed.

Lemma tree_addr_range B w K rp t L : state B w K (tree_cells rp t ++ L) -> 0 <= addr t < 4294967296.
Proof.
  intros H. assert (C : (rp, addr t) ∈ tree_cells rp t ++ L) by left.
  apply (state_cell _ _ _ _ _ _ H) in C. tauto.
Qed.

(** The words of a node that is to be replaced. *)
Definition replaced (h a k : Z) (l r s : tree) (F : list cell) : list cell :=
  (h, a) :: words a [k; addr l; addr r] ++ body s ++ F.

(** Step D3 after the search: the node [q], the first of [r], takes the place
    of [a], and its right subtree the place of [q]. *)
Lemma wp_splice B w K h a k x l r F b kb yb rb c q kq yq rq n (Q : Z -> world -> Prop) :
  state B w K (tree_cells h (Node a k x l r) ++ F) ->
  r = plug (InLeft b kb yb rb :: c) (Node q kq yq Leaf rq) -> before c = [] ->
  (forall s w', entries s = entries l ++ entries r ->
    state B w' K (replaced h a k l r s F) -> Q (addr s) w') ->
  wp n (x ← load32 (rlink q);
    store32 (llink b) x ;;
    root ← load32 h;
    x ← load32 (llink root);
    store32 (llink q) x ;;
    root ← load32 h;
    x ← load32 (rlink root);
    store32 (rlink q) x ;;
    mret q) w Q.
Proof.
  intros H Hr Hc HQ. set (c' := InLeft b kb yb rb :: c) in *. set (r' := plug c' rq).
  assert (Ha : addr r' = addr r) by (rewrite Hr; by apply addr_plug).
  set (G := (h, a) :: (a, k) :: (a + 4, addr l) :: body l ++ F).
  assert (HP : tree_cells h (Node a k x l r) ++ F ≡ₚ
    (b + 4, q) :: (q, kq) :: (q + 4, 0) :: (q + 8, addr rq) :: body rq ++ outside (a + 8) c' ++ G).
  { trans (tree_cells (a + 8) r ++ G); [unfold tree_cells, G; cbn [addr body]; solve_Permutation|].
    rewrite Hr, plug_cells. unfold tree_cells. cbn [addr body hole c' app]. solve_Permutation. }
  assert (HP' : (b + 4, addr rq) :: body rq ++ outside (a + 8) c' ≡ₚ (a + 8, addr r') :: body r').
  { assert (E0 := plug_cells (a + 8) c' rq). unfold tree_cells in E0 at 2. cbn [hole c'] in E0.
    symmetry. exact E0. }
  rewrite HP in H. wp_step. eapply wp_state_load; [exact H|do 3 right; left|].
  assert (Hrq : 0 <= addr rq < 4294967296).
  { eapply (state_cell _ _ _ _ _ _ H). do 3 right; left. }
  wp_step. eapply wp_state_store; [exact H|exact Hrq|]. clear w H. intros w H.
  assert (HP2 : (b + 4, addr rq) :: (q, kq) :: (q + 4, 0) :: (q + 8, addr rq) :: body rq ++
      outside (a + 8) c' ++ G ≡ₚ (q + 4, 0) :: (q + 8, addr rq) :: (q, kq) :: (h, a) :: (a, k) ::
      (a + 4, addr l) :: (a + 8, addr r') :: body l ++ body r' ++ F).
  { trans ((q, kq) :: (q + 4, 0) :: (q + 8, addr rq) ::
      ((b + 4, addr rq) :: body rq ++ outside (a + 8) c') ++ G); [solve_Permutation|].
    rewrite HP'. unfold G. solve_Permutation. }
  rewrite HP2 in H. wp_step. eapply wp_state_load; [exact H|do 3 right; left|]. wp_step.
  eapply wp_state_load; [exact H|do 5 right; left|].
  assert (Hl : 0 <= addr l < 4294967296) by (eapply (state_cell _ _ _ _ _ _ H); do 5 right; left).
  assert (Hr2 : 0 <= addr r' < 4294967296) by (eapply (state_cell _ _ _ _ _ _ H); do 6 right; left).
  wp_step. eapply wp_state_store; [exact H|exact Hl|]. clear w H. intros w H.
  wp_step. eapply wp_state_load; [exact H|do 3 right; left|]. wp_step.
  eapply wp_state_load; [exact H|do 6 right; left|]. wp_step.
  eapply wp_state_store_in; [exact H|apply perm_swap|exact Hr2|]. clear w H. intros w H. wp_steps.
  apply (HQ (Node q kq yq l r')).
  - cbn [entries]. f_equal. rewrite Hr. unfold r'. rewrite !plug_entries. cbn [before c']. rewrite Hc. done.
  - eapply state_proper; [reflexivity| |exact H]. unfold replaced. cbn [words addr body].
    replace (a + 4 + 4) with (a + 8) by lia. rewrite <-Ha. solve_Permutation.
Qed.

(** The tree in the place of a node: the entries of both subtrees, with the
    nodes where they were. *)
Lemma wp_replacement B w K h a k x l r F n (Q : Z -> world -> Prop) :
  state B w K (tree_cells h (Node a k x l r) ++ F) -> (length (entries r) < n)%nat ->
  (forall s w', entries s = entries l ++ entries r ->
    state B w' K (replaced h a k l r s F) -> Q (addr s) w') ->
  wp n (replacement h) w Q.
Proof.
  intros H Hn HQ. destruct (node_cells B w K h [] a k x l r F H) as (C1 & C2 & C3 & C4 & Hne).
  cbn [plug hole] in *. unfold replacement. 
  wp_step. eapply wp_state_load; [exact H|exact C1|]. wp_step. eapply wp_state_load; [exact H|exact C4|].
  wp_step. eapply wp_state_load; [exact H|exact C1|]. wp_step. eapply wp_state_load; [exact H|exact C3|].
  assert (H8 : words a [k; addr l; addr r] = [(a, k); (a + 4, addr l); (a + 8, addr r)]).
  { cbn [words]. by replace (a + 4 + 4) with (a + 8) by lia. }
  unfold replaced in HQ. rewrite H8 in HQ.
  destruct l as [|b kb xb lb rb].
  { change (addr Leaf =? 0) with true. wp_steps. by apply (HQ r). }
  assert (Hl0 : (addr (Node b kb xb lb rb) =? 0) = false).
  { apply Z.eqb_neq. by destruct (node_cells B w K h [InLeft a k x r] b kb xb lb rb F H) as (_ & _ & _ & _ & ?). }
  rewrite Hl0. set (l := Node b kb xb lb rb) in *. clearbody l. clear b kb xb lb rb.
  destruct r as [|b kb xb lb rb].
  { change (addr Leaf =? 0) with true. wp_steps. apply (HQ l).
    - by rewrite app_nil_r.
    - eapply state_proper; [reflexivity| |exact H]. unfold tree_cells. cbn [addr body]. solve_Permutation. }
  destruct (node_cells B w K h [InRight a k x l] b kb xb lb rb F H) as (_ & D2 & D3 & D4 & Hb).
  cbn [plug fill] in *. rewrite (proj2 (Z.eqb_neq _ 0)) by done. wp_steps.
  eapply wp_state_load; [exact H|exact D3|]. destruct lb as [|q kq xq lq rq].
  { change (addr Leaf =? 0) with true. wp_steps.
    eapply (wp_state_store_in _ _ _ _ _ 0 _ ((b, kb) :: (b + 8, addr rb) :: body rb ++
      (h, a) :: (a, k) :: (a + 4, addr l) :: (a + 8, b) :: body l ++ F));
      [exact H|unfold tree_cells; cbn [addr body]; solve_Permutation|
       eapply (state_cell _ _ _ _ _ _ H C3)|]. intros w' Hw'. wp_steps.
    apply (HQ (Node b kb xb l rb)).
    - done.
    - eapply state_proper; [reflexivity| |exact Hw']. cbn [addr body]. unfold llink. solve_Permutation. }
  destruct (node_cells B w K h [InLeft b kb xb rb; InRight a k x l] q kq xq lq rq F H)
    as (_ & _ & _ & _ & Hq). cbn [addr]. rewrite (proj2 (Z.eqb_neq q 0)) by done.
  wp_steps. eapply wp_state_load; [exact H|exact D3|]. cbn [addr]. wp_step.
  set (r := Node b kb xb (Node q kq xq lq rq) rb) in *.
  assert (HP : tree_cells h (Node a k x l r) ++ F ≡ₚ
    tree_cells (a + 8) r ++ (h, a) :: (a, k) :: (a + 4, addr l) :: body l ++ F).
  { unfold tree_cells. cbn [addr body]. solve_Permutation. }
  assert (H' := H). rewrite HP in H'. apply wp_loop_k.
  eapply (wp_null_link B w K (a + 8) r _ n _ H' ) with (c := []); [|reflexivity|done|].
  2: { subst r. cbn [entries] in Hn. rewrite !length_app in Hn. cbn [length] in Hn. lia. }
  intros b' kb' yb rb' c q' kq' yq rq' Hr Hc.
  rewrite <-H8 in HQ. eapply wp_splice; [exact H|exact Hr|exact Hc|exact HQ].
Qed.

(** Every entry's node is one of the words of the tree. *)
Lemma entry_cell t e : e ∈ entries t -> (e.1, e.2.1) ∈ body t.
Proof.
  induction t as [|a k x l IHl r IHr]; cbn [entries body]; [by intros ?%elem_of_nil|].
  rewrite elem_of_app, !elem_of_cons, elem_of_app. intros [H|[->|H]]; [|by left|]; tauto.
Qed.

(** The rest of the tree is not the node that was replaced. *)
Lemma replaced_ne B w K h a k l r s c rp F e :
  state B w K (replaced h a k l r s (outside rp c ++ F)) -> h = hole rp c ->
  e ∈ entries (plug c s) -> e.1 <> a.
Proof.
  intros H -> He%entry_cell. intros Ea. destruct (st_cells _ _ _ _ H) as [_ Hs].
  assert (Hin : (a, e.2.1) ∈ tree_cells rp (plug c s)) by (right; by rewrite <-Ea).
  rewrite plug_cells in Hin. unfold replaced in Hs. cbn [words app] in Hs.
  assert (Hap : forall v, (a, v) ∈ (hole rp c, a) :: body s ++ outside rp c -> False).
  { intros v Hv. rewrite (perm_swap (a, k)) in Hs. destruct Hs as [Hs _].
    apply elem_of_cons in Hv as [[= Hh _]|Hv].
    - apply Forall_cons in Hs as [Hs _]. unfold apart, disjoint_ranges in Hs. cbn in Hs. lia.
    - rewrite Forall_forall in Hs. assert (Hv' : apart (a, k) (a, v)).
      { apply Hs. do 3 right. rewrite !elem_of_app in *. tauto. }
      unfold apart, disjoint_ranges in Hv'. cbn in Hv'. lia. }
  unfold tree_cells in Hin. cbn [app] in Hin. apply elem_of_cons in Hin as [[= Hh He2]|Hin].
  - apply (Hap a). rewrite <-Hh. left.
  - apply (Hap e.2.1). by right.
Qed.

Lemma wp_tdelete B w K vk x rp t F n (Q : Z -> world -> Prop) :
  searching B w K vk x rp t F n -> (length (entries t) < n)%nat -> (alloc_fuel <= n)%nat ->
  (forall c a k y l r s w', t = plug c (Node a k y l r) -> ord x y = 0 -> entries s = entries l ++ entries r ->
    tree_at (delete a B) w' K rp (plug c s) F -> Q (parent t c) w') ->
  (Forall (fun e : entry => ord x e.2.2 <> 0) (entries t) -> Q 0 w) ->
  wp n (tdelete cmp free vk rp) w Q.
Proof.
  intros H Hn Hf Hdel Habsent. unfold tdelete. rewrite (tree_root B w K rp t F) by apply H.
  assert (Hst := ta_state _ _ _ _ _ _ (sg_tree _ _ _ _ _ _ _ _ _ H)).
  wp_step. eapply wp_state_load; [exact Hst|left|].
  destruct t as [|a0 k0 y0 l0 r0].
  { change (addr Leaf =? 0) with true. wp_steps. by apply Habsent. }
  destruct (node_cells B w K rp [] a0 k0 y0 l0 r0 F Hst) as (_ & _ & _ & _ & Ha0).
  cbn [addr]. rewrite (proj2 (Z.eqb_neq a0 0)) by done. 
  set (t := Node a0 k0 y0 l0 r0) in *. wp_step. apply wp_loop_k.
  eapply (wp_delete_find B w K vk x rp t F n _ H) with (s := t) (c := []); [|intros Hne; by apply Habsent|
    done|done|constructor..|lia].
  intros c a k y l r Ht Hxy.
  assert (Hst' := Hst). rewrite Ht, plug_cells in Hst'. rewrite <-app_assoc in Hst'.
  destruct (sg_tree _ _ _ _ _ _ _ _ _ H) as [_ HK Hk Ho Hno]. clear H.
  assert (He : entries t = (before c ++ entries l) ++ (a, (k, y)) :: entries r ++ after c).
  { rewrite Ht, plug_entries. cbn [entries]. by rewrite <-!app_assoc. }
  rewrite He in Hn. rewrite !length_app in Hn. cbn [length] in Hn. rewrite length_app in Hn.
  wp_step. eapply wp_replacement; [exact Hst'|lia|]. clear w Hst Hst' Habsent. intros s w Hs Hst.
  assert (He' : entries (plug c s) = (before c ++ entries l) ++ entries r ++ after c).
  { rewrite plug_entries, Hs. by rewrite <-!app_assoc. }
  assert (HB : B !! a = Some sizeof_node).
  { rewrite He, Forall_app, Forall_cons in Hno. tauto. }
  assert (Hsa : 0 <= addr s < 4294967296).
  { destruct s as [|b kb yb lb rb]; [cbn; lia|].
    assert (C : (b, kb) ∈ replaced (hole rp c) a k l r (Node b kb yb lb rb) (outside rp c ++ F))
      by (do 4 right; left). apply (state_cell _ _ _ _ _ _ Hst) in C. cbn [addr]. lia. }
  assert (Hne := fun e => replaced_ne B w K _ a k l r s c rp F e Hst eq_refl).
  wp_step. eapply wp_state_load; [exact Hst|left|]. wp_step.
  eapply (wp_state_free B w K ((hole rp c, a) :: body s ++ outside rp c ++ F) a [k; addr l; addr r]);
    [|done|exact HB|].
  { eapply state_proper; [reflexivity| |exact Hst]. unfold replaced. solve_Permutation. }
  intros w' Hw'. wp_step. eapply wp_state_store; [exact Hw'|exact Hsa|]. clear w' Hw'. intros w' Hw'.
  wp_step. eapply (Hdel c a k y l r s); [exact Ht|done|exact Hs|].
  - unfold ordered, keyed, data in *. rewrite He in Ho, Hk, HK, Hno. split.
    + rewrite plug_cells, <-app_assoc. exact Hw'.
    + unfold data. rewrite He'. rewrite fmap_app, fmap_cons in HK. rewrite fmap_app. set_solver.
    + unfold keyed. rewrite He', !Forall_app. rewrite !Forall_app, Forall_cons, Forall_app in Hk. tauto.
    + unfold ordered. rewrite He'. by eapply remove_sorted.
    + apply Forall_forall. intros e Hin. rewrite lookup_delete_ne by (symmetry; by apply Hne).
      rewrite He' in Hin. rewrite Forall_forall in Hno. apply Hno. set_solver.
Qed.
End search.

(** ** Walks *)

(** The calls of a walk. *)
Definition is_leaf (t : tree) : bool := match t with Leaf => true | _ => false end.
Fixpoint visits (t : tree) (level : Z) : list (Z * VISIT * Z) :=
  match t with
  | Leaf => []
  | Node a k x l r =>
      if is_leaf l && is_leaf r then [(a, leaf, level)] else
      (a, preorder, level) :: visits l (i32 (level + 1)) ++ (a, postorder, level) ::
        visits r (i32 (level + 1)) ++ [(a, endorder, level)]
  end.
Fixpoint height (t : tree) : nat :=
  match t with Leaf => 0 | Node _ _ _ l r => S (Nat.max (height l) (height r)) end.

Section walk.
Context (action : Z -> VISIT -> Z -> C unit).

Fixpoint run_visits (vs : list (Z * VISIT * Z)) : C unit :=
  match vs with
  | [] => mret tt
  | (a, v, level) :: vs' => action a v level ;; run_visits vs'
  end.

(** Computations that agree from a state on. *)
Lemma bind_agree {X Y} (c : C X) (f g : X -> C Y) n w :
  (forall x w', c n w = Done x w' -> f x n w' = g x n w') -> (c ≫= f) n w = (c ≫= g) n w.
Proof. intros H. unfold mbind, C_bind. destruct (c n w); [by apply H|done..]. Qed.

Lemma bind_done {X Y} (c : C X) (f : X -> C Y) x n w :
  c n w = Done x w -> (c ≫= f) n w = f x n w.
Proof. intros H. unfold mbind, C_bind. by rewrite H. Qed.

Lemma run_visits_app vs us n w :
  run_visits (vs ++ us) n w = (run_visits vs ;; run_visits us) n w.
Proof.
  revert w. induction vs as [|[[a v] l] vs IH]; intros w; [done|]. cbn [app run_visits].
  unfold mbind, C_bind in *. destruct (action a v l n w); [by rewrite IH|done..].
Qed.

(** The nodes' words and a callback that does not change them. *)
Context (L : list cell) (n : nat).
Context (Hact : forall a v level w w', Forall (holds (w_mem w)) L ->
  action a v level n w = Done tt w' -> Forall (holds (w_mem w')) L).

Lemma run_visits_holds vs w w' : Forall (holds (w_mem w)) L ->
  run_visits vs n w = Done tt w' -> Forall (holds (w_mem w')) L.
Proof.
  revert w. induction vs as [|[[a v] l] vs IH]; intros w Hw; cbn [run_visits]; [by intros [= <-]|].
  unfold mbind, C_bind. destruct (action a v l n w) as [[] w1| |] eqn:E; [|done..].
  by apply IH; eapply Hact.
Qed.

Lemma load_holds p v w : Forall (holds (w_mem w)) L -> (p, v) ∈ L -> load32 p n w = Done v w.
Proof.
  rewrite Forall_forall. intros H Hp. destruct (H _ Hp) as [Hb Hv]. apply wp_run.
  intros Q HQ. by eapply wp_load32_le.
Qed.

Lemma addr_is_leaf t : body t ⊆ L -> Forall (fun c : cell => c.1 <> 0) L -> (addr t =? 0) = is_leaf t.
Proof.
  intros HL H0. destruct t as [|a k x l r]; [done|]. apply Z.eqb_neq. cbn [addr].
  rewrite Forall_forall in H0. apply (H0 (a, k)), HL. left.
Qed.

Lemma bind_same {X Y} (c d : C X) (f : X -> C Y) m w : c m w = d m w -> (c ≫= f) m w = (d ≫= f) m w.
Proof. intros H. unfold mbind, C_bind. by rewrite H. Qed.

Lemma bind_unit (c : C unit) m w : (c ;; mret tt) m w = c m w.
Proof. unfold mbind, C_bind. by destruct (c m w) as [[]| |]. Qed.

(** The call for a subtree through the link at [p]. *)
Lemma trecurse_child p s level k w :
  Forall (holds (w_mem w)) L -> (p, addr s) ∈ L -> (addr s =? 0) = is_leaf s ->
  (s <> Leaf -> trecurse action k (addr s) level n w = run_visits (visits s level) n w) ->
  (if is_leaf s then mret tt else x ← load32 p; trecurse action k x level) n w =
    run_visits (visits s level) n w.
Proof.
  intros Hw Hp He IH. destruct s as [|a key x l r]; [done|]. cbn [is_leaf].
  rewrite (bind_done _ _ (addr (Node a key x l r))) by (by apply load_holds). by apply IH.
Qed.

Lemma trecurse_visits t level k w :
  Forall (holds (w_mem w)) L -> body t ⊆ L -> Forall (fun c : cell => c.1 <> 0) L -> t <> Leaf ->
  (height t <= k)%nat -> trecurse action k (addr t) level n w = run_visits (visits t level) n w.
Proof.
  intros Hw HL H0. revert level k w Hw. induction t as [|a key x l IHl r IHr]; intros level k w Hw Ht Hk; [done|].
  cbn [height] in Hk. destruct k as [|k]; [lia|]. cbn [addr trecurse].
  assert (Hl : body l ⊆ L) by (intros c Hc; apply HL; cbn [body]; set_solver).
  assert (Hr : body r ⊆ L) by (intros c Hc; apply HL; cbn [body]; set_solver).
  assert (Cl : (llink a, addr l) ∈ L) by (apply HL; cbn [body]; right; left).
  assert (Cr : (rlink a, addr r) ∈ L) by (apply HL; cbn [body]; do 2 right; left).
  assert (El := addr_is_leaf l Hl H0). assert (Er := addr_is_leaf r Hr H0).
  rewrite (bind_done _ _ (addr l)), El by (by apply load_holds).
  rewrite (bind_done _ _ (is_leaf l && is_leaf r)).
  2: { destruct (is_leaf l); [|done]. cbn [andb].
       rewrite (bind_done _ _ (addr r)) by (by apply load_holds). by rewrite Er. }
  cbn [visits]. destruct (is_leaf l && is_leaf r).
  { cbn [run_visits]. by rewrite bind_unit. }
  cbn [run_visits]. apply bind_agree. intros [] w1 Hw1. apply Hact in Hw1; [|done].
  rewrite (bind_done _ _ (addr l)), El by (by apply load_holds).
  rewrite run_visits_app. erewrite bind_same; [|by apply trecurse_child; [..|intros; apply IHl; [done..|lia]]].
  apply bind_agree. intros [] w2 Hw2. apply run_visits_holds in Hw2; [|done].
  cbn [run_visits]. apply bind_agree. intros [] w3 Hw3. apply Hact in Hw3; [|done].
  rewrite (bind_done _ _ (addr r)), Er by (by apply load_holds).
  rewrite run_visits_app. erewrite bind_same; [|by apply trecurse_child; [..|intros; apply IHr; [done..|lia]]].
  apply bind_agree. intros [] w4 Hw4. cbn [run_visits]. by rewrite bind_unit.
Qed.
End walk.

(** ** Destruction *)

Section destroy.
Context {malloc free} {A : allocator malloc free}.
Context (free_action : Z -> C unit) (n : nat) (Hn : (alloc_fuel <= n)%nat).
Implicit Types (B : gmap Z Z) (L : list cell).

(** The order of the calls of the callback. *)
Fixpoint postorder t : list Z :=
  match t with Leaf => [] | Node _ k _ l r => postorder l ++ postorder r ++ [k] end.

(** The client: [Cl keys M K F] says what its blocks, data and words are when the
    callback was called with these keys.  A call may change them, free and allocate;
    it leaves the other blocks [N] and words [L] alone. *)
Definition client_law (Cl : list Z -> gmap Z Z -> list (Z * list Z) -> list cell -> Prop) (keys : list Z) : Prop :=
  forall done k rest N M w K L F (Q : unit -> world -> Prop),
    keys = done ++ k :: rest -> Cl done M K F -> N ##ₘ M -> state (N ∪ M) w K (L ++ F) ->
    (forall M' K' F' w', Cl (done ++ [k]) M' K' F' -> N ##ₘ M' -> state (N ∪ M') w' K' (L ++ F') -> Q tt w') ->
    wp n (free_action k) w Q.

Definition free_nodes (es : list entry) B : gmap Z Z := foldr (fun e => delete e.1) B es.

Lemma free_nodes_lookup es B b : b ∉ es.*1 -> free_nodes es B !! b = B !! b.
Proof.
  induction es as [|e es IH]; [done|]. cbn [fmap list_fmap free_nodes foldr]. intros H.
  apply not_elem_of_cons in H as [H1 H2]. rewrite lookup_delete_ne by done. by apply IH.
Qed.

Lemma free_nodes_app es fs B : free_nodes (es ++ fs) B = free_nodes es (free_nodes fs B).
Proof. apply foldr_app. Qed.

Lemma free_nodes_comm b es B : free_nodes es (delete b B) = delete b (free_nodes es B).
Proof. induction es as [|e es IH]; [done|]. cbn [free_nodes foldr]. rewrite delete_delete. by f_equal. Qed.

Lemma free_nodes_swap es fs B : free_nodes es (free_nodes fs B) = free_nodes fs (free_nodes es B).
Proof.
  induction es as [|e es IH]; [done|]. cbn [free_nodes foldr]. fold (free_nodes es (free_nodes fs B)).
  fold (free_nodes es B). by rewrite IH, free_nodes_comm.
Qed.

(** A node apart from a tree is none of its nodes. *)
Lemma apart_entries B w K a v t L : state B w K ((a, v) :: body t ++ L) -> a ∉ (entries t).*1.
Proof.
  intros H (e & -> & He)%list_elem_of_fmap. apply entry_cell in He.
  destruct (st_cells _ _ _ _ H) as [_ [Hs _]]. rewrite Forall_forall in Hs.
  assert (Hv : apart (e.1, v) (e.1, e.2.1)) by (apply Hs, elem_of_app; by left).
  unfold apart, disjoint_ranges in Hv. cbn in Hv. lia.
Qed.

Lemma apart_trees B w K s t L e :
  state B w K (body s ++ body t ++ L) -> e ∈ entries s -> e.1 ∉ (entries t).*1.
Proof.
  intros H He%entry_cell. apply elem_of_Permutation in He as [s' Hs].
  eapply (apart_entries B w K e.1 e.2.1 t (s' ++ L)). eapply state_proper; [reflexivity| |exact H].
  rewrite Hs. solve_Permutation.
Qed.

Section run.
Context (Cl : list Z -> gmap Z Z -> list (Z * list Z) -> list cell -> Prop) (keys : list Z).
Context (Hact : client_law Cl keys).

Definition destroys t : Prop := forall before rest N M w K L F k (Q : unit -> world -> Prop),
  keys = before ++ postorder t ++ rest -> Cl before M K F -> N ##ₘ M ->
  state (N ∪ M) w K (body t ++ L ++ F) -> t <> Leaf ->
  Forall (fun e : entry => N !! e.1 = Some sizeof_node) (entries t) -> (height t <= k)%nat ->
  (forall M' K' F' w', Cl (before ++ postorder t) M' K' F' -> free_nodes (entries t) N ##ₘ M' ->
    state (free_nodes (entries t) N ∪ M') w' K' (L ++ F') -> Q tt w') ->
  wp n (destroy_recurse free free_action k (addr t)) w Q.

(** The call for the subtree at the link [p]. *)
Lemma wp_destroy_child s before after N M w K L F k p (rest : C unit) (Q : unit -> world -> Prop) :
  destroys s -> keys = before ++ postorder s ++ after -> Cl before M K F -> N ##ₘ M ->
  state (N ∪ M) w K ((p, addr s) :: body s ++ L ++ F) ->
  Forall (fun e : entry => N !! e.1 = Some sizeof_node) (entries s) -> (height s <= k)%nat ->
  (forall M' K' F' w', Cl (before ++ postorder s) M' K' F' -> free_nodes (entries s) N ##ₘ M' ->
    state (free_nodes (entries s) N ∪ M') w' K' ((p, addr s) :: L ++ F') -> wp n rest w' Q) ->
  wp n (x ← load32 p;
    (if x =? 0 then mret tt else x ← load32 p; destroy_recurse free free_action k x) ;; rest) w Q.
Proof.
  intros IH Hkeys HC Hd H Hno Hk HQ. wp_step. eapply wp_state_load; [exact H|left|]. wp_step.
  destruct s as [|a key x l r].
  - change (addr Leaf =? 0) with true. wp_steps. eapply HQ; [by rewrite app_nil_r|done|exact H].
  - assert (Ca : (a, key) ∈ (p, addr (Node a key x l r)) :: body (Node a key x l r) ++ L ++ F) by (right; left).
    apply (state_cell _ _ _ _ _ _ H) in Ca. cbn [addr]. rewrite (proj2 (Z.eqb_neq a 0)) by lia.
    wp_step. eapply wp_state_load; [exact H|left|].
    eapply (IH before after N M w K ((p, a) :: L)); [done..| |done|done|done|].
    + eapply state_proper; [reflexivity| |exact H]. cbn [app]. solve_Permutation.
    + intros M' K' F' w' HC' Hd' Hw'. by eapply HQ.
Qed.

Lemma wp_destroy t : destroys t.
Proof.
  induction t as [|a key x l IHl r IHr]; intros bf rest N M w K L F k Q Hkeys HC Hd H Ht Hno Hk HQ; [done|].
  cbn [height] in Hk. destruct k as [|k]; [lia|]. cbn [addr destroy_recurse].
  cbn [entries] in Hno. rewrite Forall_app, Forall_cons in Hno. destruct Hno as (Hnl & Hna & Hnr).
  assert (Hal : a ∉ (entries l).*1).
  { eapply (apart_entries (N ∪ M) w K a key l ((a + 4, addr l) :: (a + 8, addr r) :: body r ++ L ++ F)).
    eapply state_proper; [reflexivity| |exact H]. cbn [body]. solve_Permutation. }
  assert (Har : a ∉ (entries r).*1).
  { eapply (apart_entries (N ∪ M) w K a key r ((a + 4, addr l) :: (a + 8, addr r) :: body l ++ L ++ F)).
    eapply state_proper; [reflexivity| |exact H]. cbn [body]. solve_Permutation. }
  assert (Hrl : forall e, e ∈ entries r -> e.1 ∉ (entries l).*1).
  { intros e. eapply (apart_trees (N ∪ M) w K r l (words a [key; addr l; addr r] ++ L ++ F)).
    eapply state_proper; [reflexivity| |exact H]. cbn [body words].
    replace (a + 4 + 4) with (a + 8) by lia. solve_Permutation. }
  cbn [postorder] in Hkeys, HQ.
  eapply (wp_destroy_child l bf (postorder r ++ [key] ++ rest) N M w K ((a, key) :: (a + 8, addr r) :: body r ++ L));
    [done|by rewrite Hkeys, <-!app_assoc|done|done| |done|lia|].
  { eapply state_proper; [reflexivity| |exact H]. cbn [body app]. unfold llink. solve_Permutation. }
  clear w M K F Hd HC H. intros M K F w HC Hd H. set (N1 := free_nodes (entries l) N) in *.
  eapply (wp_destroy_child r (bf ++ postorder l) ([key] ++ rest) N1 M w K ((a, key) :: (a + 4, addr l) :: L));
    [done|by rewrite Hkeys, <-!app_assoc|done|done| | |lia|].
  { eapply state_proper; [reflexivity| |exact H]. cbn [app]. unfold llink, rlink. solve_Permutation. }
  { rewrite Forall_forall in *. intros e He. unfold N1. rewrite free_nodes_lookup by auto. auto. }
  clear w M K F Hd HC H. intros M K F w HC Hd H. set (N2 := free_nodes (entries r) N1) in *.
  wp_step. eapply wp_state_load; [exact H|right; left|]. wp_step.
  eapply (Hact ((bf ++ postorder l) ++ postorder r) key rest N2 M w K (words a [key; addr l; addr r] ++ L));
    [by rewrite Hkeys, <-!app_assoc|done|done| |].
  { eapply state_proper; [reflexivity| |exact H]. cbn [words app]. unfold rlink.
    replace (a + 4 + 4) with (a + 8) by lia. solve_Permutation. }
  clear w M K F Hd HC H. intros M K F w HC Hd H.
  assert (HNa : N2 !! a = Some sizeof_node) by (unfold N2, N1; by rewrite !free_nodes_lookup).
  assert (HCa : M !! a = None) by (by eapply map_disjoint_Some_l).
  apply (wp_state_free (N2 ∪ M) w K (L ++ F) a [key; addr l; addr r]); [by rewrite app_assoc|done| |].
  - by apply lookup_union_Some_l.
  - intros w' Hw'. rewrite delete_union, (delete_id M) in Hw' by done.
    assert (E : delete a N2 = free_nodes (entries (Node a key x l r)) N).
    { cbn [entries]. rewrite free_nodes_app. cbn [free_nodes foldr].
      fold (free_nodes (entries r) N). by rewrite free_nodes_comm, free_nodes_swap. }
    rewrite E in Hw'. eapply HQ; [|rewrite <-E; by apply map_disjoint_delete_l|exact Hw'].
    by rewrite <-!app_assoc in HC.
Qed.
End run.
End destroy.
