(* ===== verification/Hash.v ===== *)
(** * Hash tables: search/hcreate_r.c, hcreate.c, and the hash of search/hash_func.c

    A table is a structure of two words, the address of the buckets and their
    number; a bucket is the address of its first entry; an entry is three words,
    the link (the macros SLIST_.. of include/sys/queue.h), the key and the data.
    [malloc] and [free] are parameters. *)

From S2P Require Import Prelude CMonad Words Memory StrScan StrCmp.

(** ** search/hash_func.c *)

(** [h = (h << 5) + h + *key++] *)
Definition HASH4 (s : Z * Z) : C (Z * Z) :=
  let '(h, key) := s in
  x ← load8 key; mret (u32 (u32 (u32 (Z.shiftl h 5) + h) + x), key + 1).

Fixpoint HASH4s (k : nat) (s : Z * Z) : C (Z * Z) :=
  match k with O => mret s | S k => s ← HASH4 s; HASH4s k s end.

(** The [switch] jumps into the loop: the first pass makes [len & 7] steps, or
    eight, the others eight. *)
Definition hash4 (keyarg len : Z) : C Z :=
  let h := 0 in
  let key := keyarg in
  if 0 <? len then
    let loop_ := Z.shiftr (u32 (u32 (len + 8) - 1)) 3 in
    let first := Z.land len 7 in
    '(h, key) ← HASH4s (if first =? 0 then 8 else Z.to_nat first) (h, key);
    loop (fun '(h, key, loop_) =>
      let loop_ := u32 (loop_ - 1) in
      if negb (loop_ =? 0) then '(h, key) ← HASH4s 8 (h, key); next (h, key, loop_)
      else brk h) (h, key, loop_)
  else mret h.

Definition __default_hash : Z -> Z -> C Z := hash4.

(** ** include/search.h, search/hcreate_r.c *)

Definition htable (htab : Z) : Z := htab.
Definition htablesize (htab : Z) : Z := htab + 4.

Definition sizeof_entry : Z := 12.
Definition link (ie : Z) : Z := ie.
Definition ent (ie : Z) : Z := ie + 4.
Definition ent_key (ie : Z) : Z := ie + 4.
Definition ent_data (ie : Z) : Z := ie + 8.

Inductive ACTION := FIND | ENTER.

Definition EINVAL : Z := 22.
Definition ENOMEM : Z := 12.
Definition MIN_BUCKETS : Z := Z.shiftl 1 4.
Definition MAX_BUCKETS : Z := Z.shiftl 1 (4 * 8 - 1 - 5).

Section search.
Context {cfg : build} (malloc : Z -> C Z) (free : Z -> C unit).

(** The number of buckets for [nel] elements. *)
Definition buckets (nel : Z) : C Z :=
  let nel := if nel <? MIN_BUCKETS then MIN_BUCKETS else nel in
  let nel := if MAX_BUCKETS <? nel then MAX_BUCKETS else nel in
  if negb (Z.land nel (u32 (nel - 1)) =? 0) then
    p2 ← loop (fun '(p2, nel) =>
      if negb (nel =? 0) then next (u32 (p2 + 1), Z.shiftr nel 1) else brk p2) (0, nel);
    mret (u32 (Z.shiftl 1 p2))
  else mret nel.

Definition hcreate_r (nel htab : Z) : C Z :=
  t ← load32 (htable htab);
  if negb (t =? 0) then put_errno EINVAL ;; mret 0 else
  nel ← buckets nel;
  store32 (htablesize htab) nel ;;
  n ← load32 (htablesize htab);
  t ← malloc (u32 (n * 4));
  store32 (htable htab) t ;;
  t ← load32 (htable htab);
  if t =? 0 then put_errno ENOMEM ;; mret 0 else
  loop (fun idx =>
    n ← load32 (htablesize htab);
    if idx <? n then t ← load32 (htable htab); store32 (t + 4 * idx) 0 ;; next (u32 (idx + 1))
    else brk tt) 0 ;;
  mret 1.

Definition hdestroy_r (htab : Z) : C unit :=
  t ← load32 (htable htab);
  if t =? 0 then mret tt else
  t ← load32 (htable htab);
  free t ;;
  store32 (htable htab) 0.

(** The entry of the key in a bucket, or null. *)
Definition find_entry (item_key head : Z) : C Z :=
  ie ← load32 head;
  loop (fun ie =>
    if negb (ie =? 0) then
      k ← load32 (ent_key ie);
      d ← strcmp k item_key;
      if d =? 0 then brk ie else ie ← load32 (link ie); next ie
    else brk ie) ie.

Definition hsearch_r (item_key item_data : Z) (action : ACTION) (retval htab : Z) : C Z :=
  len ← strlen item_key;
  hashval ← __default_hash item_key len;
  t ← load32 (htable htab);
  n ← load32 (htablesize htab);
  let head := t + 4 * Z.land hashval (u32 (n - 1)) in
  ie ← find_entry item_key head;
  if negb (ie =? 0) then store32 retval (ent ie) ;; mret 1 else
  match action with
  | FIND => store32 retval 0 ;; mret 0
  | ENTER =>
      ie ← malloc sizeof_entry;
      if ie =? 0 then store32 retval 0 ;; mret 0 else
      store32 (ent_key ie) item_key ;;
      store32 (ent_data ie) item_data ;;
      (x ← load32 head; store32 (link ie) x) ;;
      store32 head ie ;;
      store32 retval (ent ie) ;;
      mret 1
  end.

(** search/hcreate.c: the same for the table of the library; [retval] is the
    address of the local variable. *)
Definition hcreate (htab nel : Z) : C Z := hcreate_r nel htab.
Definition hdestroy (htab : Z) : C unit := hdestroy_r htab.
Definition hsearch (htab retval item_key item_data : Z) (action : ACTION) : C Z :=
  _ ← hsearch_r item_key item_data action retval htab;
  load32 retval.
End search.
