(* ===== verification/HashSpec.v ===== *)
(** * Hash tables: a finite map in memory *)

From S2P Require Import Prelude CMonad Words Memory StrScan StrCmp MemCopy Heap Hash.

(** ** The hash of a key *)

Definition hash_step (h b : Z) : Z := u32 (h * 33 + b).
Definition hash_from (h : Z) (s : list Z) : Z := foldl hash_step h s.
Definition hash_of (s : list Z) : Z := hash_from 0 s.

Lemma hash_from_range h s : 0 <= h < 4294967296 -> 0 <= hash_from h s < 4294967296.
Proof.
  revert h. induction s as [|b s IH]; intros h Hh; [done|]. apply IH. apply u32_range.
Qed.

Lemma hash_from_app h s t : hash_from h (s ++ t) = hash_from (hash_from h s) t.
Proof. apply foldl_app. Qed.

Lemma wp_HASH4s n w k h p l (Q : Z * Z -> world -> Prop) :
  bytes (w_mem w) p l -> length l = k -> Q (hash_from h l, p + zlen l) w -> wp n (HASH4s k (h, p)) w Q.
Proof.
  revert k h p. induction l as [|b l IH]; intros [|k] h p Hl Hk HQ; try done.
  - wp_steps. by rewrite Z.add_0_r in HQ.
  - destruct Hl as [Hb Hl]. cbn [HASH4s HASH4]. wp_mem. apply IH; [done|simpl in Hk; lia|].
    cbn [hash_from foldl] in HQ. unfold hash_step in HQ.
    assert (E : u32 (u32 (u32 (Z.shiftl h 5) + h) + b) = u32 (h * 33 + b)).
    { rewrite Z.shiftl_mul_pow2 by lia. change (2 ^ 5) with 32. unfold u32. lia. }
    rewrite E. eqapply HQ. f_equal. simpl. lia.
Qed.

Lemma wp_hash4_rest n k w h p l (Q : Z -> world -> Prop) c :
  bytes (w_mem w) p l -> zlen l = 8 * (c - 1) -> 1 <= c < 4294967296 -> (Z.to_nat c <= k)%nat ->
  Q (hash_from h l) w ->
  wp n (loop_k k (fun '(h, key, loop_) =>
      let loop_ := u32 (loop_ - 1) in
      if negb (loop_ =? 0) then '(h, key) ← HASH4s 8 (h, key); next (h, key, loop_)
      else brk h) (h, p, c)) w Q.
Proof.
  revert h p l c. induction k as [|k IH]; intros h p l c Hl Hc Hc1 Hk HQ; [lia|].
  wp_loop. rewrite u32_small by lia. wp_if.
  - rewrite <-(take_drop 8 l) in Hl. apply bytes_app in Hl as [H8 Hl].
    assert (E8 : length (take 8 l) = 8%nat) by (rewrite length_take; blia).
    wp_step. apply (wp_HASH4s _ _ _ _ _ (take 8 l)); [done..|]. wp_steps.
    apply (IH _ _ (drop 8 l)); [done|rewrite length_drop; blia|blia|lia|].
    by rewrite <-hash_from_app, take_drop.
  - wp_steps. destruct l; [done|simpl in Hc; blia].
Qed.

Lemma wp_hash4 n w p s (Q : Z -> world -> Prop) :
  bytes (w_mem w) p s -> zlen s < 1073741824 -> (length s < n)%nat -> Q (hash_of s) w ->
  wp n (hash4 p (zlen s)) w Q.
Proof.
  intros Hs Hb Hn HQ. unfold hash4. wp_if; [|wp_steps; by destruct s; [|simpl in *; blia]].
  rewrite !u32_small by (rewrite ?u32_small; lia).
  assert (E7 : Z.land (zlen s) 7 = zlen s mod 8) by (change 7 with (Z.ones 3); by apply Z.land_ones).
  rewrite E7, Z.shiftr_div_pow2 by lia. change (2 ^ 3) with 8.
  set (f := if zlen s mod 8 =? 0 then 8%nat else Z.to_nat (zlen s mod 8)).
  assert (Hf : (f <= length s)%nat /\ zlen s - Z.of_nat f = 8 * ((zlen s + 8 - 1) / 8 - 1)).
  { unfold f. destruct (Z.eqb_spec (zlen s mod 8) 0); blia. }
  destruct Hf as [Hf1 Hf2]. rewrite <-(take_drop f s) in Hs. apply bytes_app in Hs as [H1 H2].
  assert (El : length (take f s) = f) by (rewrite length_take; lia).
  wp_step. apply (wp_HASH4s _ _ _ _ _ (take f s)); [done..|]. wp_steps.
  apply wp_loop_k, (wp_hash4_rest _ _ _ _ _ (drop f s)); [done|rewrite length_drop; lia|blia|blia|].
  by rewrite <-hash_from_app, take_drop.
Qed.

(** ** Tables *)

Record hentry := HEntry { he_addr : Z; he_key : Z; he_data : Z; he_str : list Z }.

(** The address of a bucket's first entry, and the words of its entries. *)
Definition first (b : list hentry) : Z := match b with [] => 0 | e :: _ => he_addr e end.
Fixpoint chain (b : list hentry) : list cell :=
  match b with
  | [] => []
  | e :: b' => (link (he_addr e), first b') :: (ent_key (he_addr e), he_key e) ::
      (ent_data (he_addr e), he_data e) :: chain b'
  end.
Definition chains (bs : list (list hentry)) : list cell := concat (map chain bs).
Definition table_cells (htab T : Z) (bs : list (list hentry)) : list cell :=
  (htable htab, T) :: (htablesize htab, zlen bs) :: words T (map first bs) ++ chains bs.

(** The finite map that a table stands for: the entry and the data of a key. *)
Definition binding (e : hentry) : list Z * (Z * Z) := (he_str e, (ent (he_addr e), he_data e)).
Definition contents (bs : list (list hentry)) : gmap (list Z) (Z * Z) :=
  list_to_map (binding <$> concat bs).

(** The bucket of a key. *)
Definition bucket_of (s : list Z) (bs : list (list hentry)) : Z := Z.land (hash_of s) (zlen bs - 1).

Section table.
Context {cfg : build} {malloc free} {A : allocator malloc free}.
Implicit Types (B : gmap Z Z) (w : world) (K : list (Z * list Z)) (bs : list (list hentry)) (F : list cell).

(** A key is a string of the caller. *)
Definition key_at K (p : Z) (s : list Z) : Prop := (p, s ++ [0]) ∈ K /\ Forall (fun b => 0 < b < 256) s.

(** The buckets of the entries, by their hash, in memory; [F] are other words. *)
Record table B w K (htab T : Z) bs F : Prop := {
  ta_state : state B w K (table_cells htab T bs ++ F);
  ta_size : exists k, (k <= 26)%nat /\ zlen bs = 2 ^ Z.of_nat k;
  ta_block : B !! T = Some (4 * zlen bs);
  ta_entry : forall i b e, bs !! i = Some b -> e ∈ b ->
    key_at K (he_key e) (he_str e) /\ bucket_of (he_str e) bs = Z.of_nat i;
  ta_keys : NoDup (binding <$> concat bs).*1;
}.

Lemma key_string B w K L p s : state B w K L -> key_at K p s -> cstr (w_mem w) p s.
Proof.
  intros H [Hin Hs]. pose proof (st_data _ _ _ _ H) as HK. rewrite Forall_forall in HK.
  destruct (HK _ Hin) as (_ & Hb & _). by split.
Qed.

Lemma bucket_range s bs : (exists k, (k <= 26)%nat /\ zlen bs = 2 ^ Z.of_nat k) -> 0 <= bucket_of s bs < zlen bs.
Proof.
  intros (k & _ & E). unfold bucket_of. rewrite E.
  replace (2 ^ Z.of_nat k - 1) with (Z.ones (Z.of_nat k)) by (rewrite Z.ones_equiv; lia). rewrite Z.land_ones by lia.
  apply Z.mod_pos_bound. lia.
Qed.

(** The search of a bucket. *)
Lemma wp_bucket_loop n k B w K L b ip s (Q : Z -> world -> Prop) :
  state B w K L -> key_at K ip s -> chain b ⊆ L ->
  (forall e, e ∈ b -> key_at K (he_key e) (he_str e)) ->
  (length b < k)%nat -> (forall e, e ∈ b -> (length (he_str e) < n)%nat) ->
  (forall e, e ∈ b -> he_str e = s -> Q (he_addr e) w) ->
  ((forall e, e ∈ b -> he_str e <> s) -> Q 0 w) ->
  wp n (loop_k k (fun ie =>
    if negb (ie =? 0) then
      k ← load32 (ent_key ie);
      d ← strcmp k ip;
      if d =? 0 then brk ie else ie ← load32 (link ie); next ie
    else brk ie) (first b)) w Q.
Proof.
  intros H Hip Hc Hk Hl Hn. revert k Hl. induction b as [|e b IH]; intros [|k] Hl Hf H0; simpl in Hl; try lia; wp_loop.
  - wp_steps. apply H0. intros e He. by apply elem_of_nil in He.
  - cbn [first chain] in *. assert (Hin : (link (he_addr e), first b) ∈ L) by (apply Hc; by left).
    destruct (state_cell _ _ _ _ _ _ H Hin) as [Ha _]. unfold link in Ha.
    rewrite (proj2 (Z.eqb_neq (he_addr e) 0)) by lia. wp_steps.
    eapply wp_state_load; [exact H|apply Hc; right; by left|].
    destruct (Hk e ltac:(by left)) as [Hke Hks].
    wp_steps. eapply (wp_strcmp _ _ _ (he_str e) s); [apply H|by eapply key_string; [|split]|by eapply key_string|by apply Hn; left|].
    destruct (Z.eqb_spec (lex_diff (he_str e ++ [0]) (s ++ [0])) 0) as [E|E];
      rewrite lex_diff_0 in E by (done || apply Hip); wp_steps.
    + apply Hf; [by left|done].
    + eapply wp_state_load; [exact H|exact Hin|]. wp_steps. apply IH; [| | |lia| |].
      * intros c Hc'. apply Hc. by do 3 right.
      * intros e' He'. apply Hk. by right.
      * intros e' He'. apply Hn. by right.
      * intros e' He' Es. apply Hf; [by right|done].
      * intros Hno. apply H0. intros e' [->|He']%elem_of_cons; [done|by apply Hno].
Qed.

(** *** The entries *)

Lemma elem_concat e bs : e ∈ concat bs <-> exists i b, bs !! i = Some b /\ e ∈ b.
Proof.
  induction bs as [|b bs IH]; cbn [concat].
  - rewrite elem_of_nil. split; [done|]. by intros (i & b & Hi & _).
  - rewrite elem_of_app, IH. split.
    + intros [He|(i & b' & Hi & He)]; [by exists 0%nat, b|by exists (S i), b'].
    + intros ([|i] & b' & Hi & He); [left; by simplify_eq/=|right; by exists i, b'].
Qed.

Lemma contents_Some bs e : NoDup (binding <$> concat bs).*1 -> e ∈ concat bs ->
  contents bs !! he_str e = Some (ent (he_addr e), he_data e).
Proof.
  intros Hnd He. apply elem_of_list_to_map_1; [done|]. apply list_elem_of_fmap. by exists e.
Qed.

Lemma contents_None bs s : (forall e, e ∈ concat bs -> he_str e <> s) -> contents bs !! s = None.
Proof.
  intros Hno. apply not_elem_of_list_to_map_1. intros (x & -> & Hx)%list_elem_of_fmap.
  apply list_elem_of_fmap in Hx as (e & -> & He). by eapply Hno.
Qed.

(** A new entry at the front of a bucket. *)
Lemma buckets_insert bs i b e : bs !! i = Some b -> concat (<[i := e :: b]> bs) ≡ₚ e :: concat bs.
Proof.
  intros Hi. rewrite <-(take_drop_middle _ _ _ Hi) at 2. rewrite insert_take_drop by (by eapply lookup_lt_Some).
  rewrite !concat_app. cbn [concat app]. symmetry. apply Permutation_middle.
Qed.

Lemma contents_insert bs i b e : bs !! i = Some b -> NoDup (binding <$> concat bs).*1 ->
  (forall e', e' ∈ concat bs -> he_str e' <> he_str e) ->
  NoDup (binding <$> concat (<[i := e :: b]> bs)).*1 /\
  contents (<[i := e :: b]> bs) = <[he_str e := (ent (he_addr e), he_data e)]> (contents bs).
Proof.
  intros Hi Hnd Hno. assert (Hnd' : NoDup (binding <$> e :: concat bs).*1).
  { cbn. constructor; [|done]. intros (x & E & Hx)%list_elem_of_fmap.
    apply list_elem_of_fmap in Hx as (e' & -> & He'). by eapply Hno. }
  split.
  - by rewrite (buckets_insert _ _ _ _ Hi).
  - unfold contents. rewrite (list_to_map_proper _ (binding <$> e :: concat bs)); [done| |].
    + by rewrite (buckets_insert _ _ _ _ Hi).
    + by rewrite (buckets_insert _ _ _ _ Hi).
Qed.

(** The words of the table but the head of a bucket. *)
Lemma table_cells_head htab T bs i b : bs !! i = Some b -> exists L, forall b' : list hentry,
  table_cells htab T (<[i := b']> bs) ≡ₚ (T + 4 * Z.of_nat i, first b') :: chain b' ++ L.
Proof.
  intros Hi. pose proof (lookup_lt_Some _ _ _ Hi) as Hl.
  exists ((htable htab, T) :: (htablesize htab, zlen bs) :: words T (map first (take i bs)) ++
    words (T + 4 * Z.of_nat i + 4) (map first (drop (S i) bs)) ++ chains (take i bs) ++ chains (drop (S i) bs)).
  intros b'. unfold table_cells. rewrite length_insert, insert_take_drop by done.
  unfold chains. rewrite !map_app, words_app, concat_app. cbn [map words concat].
  rewrite length_map, length_take_le by lia. solve_Permutation.
Qed.

(** *** The operations *)

(** The budget covers the table. *)
Record fits (n : nat) bs (s : list Z) : Prop := {
  fi_entries : (length (concat bs) < n)%nat;
  fi_strings : forall e, e ∈ concat bs -> (length (he_str e) < n)%nat;
  fi_key : (length s < n)%nat;
  fi_alloc : (alloc_fuel <= n)%nat;
}.

(** The same table in another state of the memory. *)
Lemma table_state B w w' K htab T bs F F' : table B w K htab T bs F ->
  state B w' K (table_cells htab T bs ++ F') -> table B w' K htab T bs F'.
Proof. intros [] H. by split. Qed.

Lemma wp_table_store B w K htab T bs r v v' F n (Q : unit -> world -> Prop) :
  table B w K htab T bs ((r, v) :: F) -> 0 <= v' < 4294967296 ->
  (forall w', table B w' K htab T bs ((r, v') :: F) -> Q tt w') -> wp n (store32 r v') w Q.
Proof.
  intros H Hv HQ. eapply (wp_state_store_in _ _ _ _ _ v v' (table_cells htab T bs ++ F)); [apply H| |done|].
  - symmetry. apply Permutation_middle.
  - intros w' Hw'. apply HQ. eapply table_state; [exact H|]. eapply state_proper; [reflexivity| |exact Hw'].
    symmetry. apply Permutation_middle.
Qed.

Lemma bucket_exists B w K htab T bs F s : table B w K htab T bs F ->
  exists i b, bs !! i = Some b /\ bucket_of s bs = Z.of_nat i.
Proof.
  intros H. pose proof (bucket_range s bs (ta_size _ _ _ _ _ _ _ H)) as Hr.
  destruct (lookup_lt_is_Some_2 bs (Z.to_nat (bucket_of s bs))) as [b Hb]; [lia|].
  exists (Z.to_nat (bucket_of s bs)), b. split; [done|lia].
Qed.

Lemma wp_find_entry n B w K htab T bs F ip s i b (Q : Z -> world -> Prop) :
  table B w K htab T bs F -> key_at K ip s -> fits n bs s -> bs !! i = Some b -> bucket_of s bs = Z.of_nat i ->
  (forall e, e ∈ concat bs -> he_str e = s -> Q (he_addr e) w) ->
  ((forall e, e ∈ concat bs -> he_str e <> s) -> Q 0 w) ->
  wp n (find_entry ip (T + 4 * Z.of_nat i)) w Q.
Proof.
  intros H Hip Hn Hi Hb Hf H0. destruct (table_cells_head htab T bs i b Hi) as [L HL]. specialize (HL b).
  rewrite list_insert_id in HL by done. unfold find_entry.
  assert (Hsub : (T + 4 * Z.of_nat i, first b) :: chain b ++ L ⊆ table_cells htab T bs ++ F).
  { intros c Hc. apply elem_of_app. left. by rewrite HL. }
  assert (Hin : forall e, e ∈ b -> e ∈ concat bs) by (intros e He; apply elem_concat; by exists i, b).
  wp_step. eapply wp_state_load; [apply H|apply Hsub; by left|].
  apply wp_loop_k. eapply wp_bucket_loop; [apply H|exact Hip| | | | | |].
  - intros c Hc. apply Hsub. right. apply elem_of_app. by left.
  - intros e He. by eapply (ta_entry _ _ _ _ _ _ _ H).
  - pose proof (fi_entries _ _ _ Hn) as Hc. rewrite <-(take_drop_middle _ _ _ Hi), concat_app in Hc.
    cbn [concat] in Hc. rewrite !length_app in Hc. lia.
  - intros e He. by apply (fi_strings _ _ _ Hn), Hin.
  - intros e He Es. by apply Hf; [apply Hin|].
  - intros Hno. apply H0. intros e (j & b' & Hj & He)%elem_concat Es.
    destruct (ta_entry _ _ _ _ _ _ _ H j b' e Hj He) as [_ Hbe]. rewrite Es, Hb in Hbe.
    assert (j = i) as -> by lia. rewrite Hi in Hj. injection Hj as ->. by eapply Hno.
Qed.

Lemma hentry_cell B w K htab T bs F e : table B w K htab T bs F -> e ∈ concat bs ->
  exists v, (link (he_addr e), v) ∈ table_cells htab T bs.
Proof.
  intros H (i & b & Hi & He)%elem_concat. destruct (table_cells_head htab T bs i b Hi) as [L HL].
  specialize (HL b). rewrite list_insert_id in HL by done.
  assert (Hc : exists v, (link (he_addr e), v) ∈ chain b).
  { clear -He. induction b as [|e' b IH]; [by apply elem_of_nil in He|].
    apply elem_of_cons in He as [->|He]; [eexists; by left|].
    destruct (IH He) as [v Hv]. exists v. cbn [chain]. by do 3 right. }
  destruct Hc as [v Hv]. exists v. rewrite HL. right. apply elem_of_app. by left.
Qed.

Lemma entry_range B w K htab T bs F e : table B w K htab T bs F -> e ∈ concat bs -> 0 < he_addr e < 1073741824.
Proof.
  intros H He. destruct (hentry_cell _ _ _ _ _ _ _ _ H He) as [v Hv].
  eapply (state_cell _ _ _ _ _ v); [apply H|]. apply elem_of_app. by left.
Qed.

(** The table with a new entry at the front of its bucket. *)
Lemma table_insert B w w' K htab T bs F' F q ip data s i b L : table B w K htab T bs F' ->
  key_at K ip s -> bs !! i = Some b -> bucket_of s bs = Z.of_nat i -> B !! q = None ->
  (forall e, e ∈ concat bs -> he_str e <> s) ->
  (forall b' : list hentry, table_cells htab T (<[i := b']> bs) ≡ₚ (T + 4 * Z.of_nat i, first b') :: chain b' ++ L) ->
  state (<[q := sizeof_entry]> B) w' K ((T + 4 * Z.of_nat i, q) :: (link q, first b) :: (ent_key q, ip) ::
    (ent_data q, data) :: chain b ++ L ++ F) ->
  table (<[q := sizeof_entry]> B) w' K htab T (<[i := HEntry q ip data s :: b]> bs) F.
Proof.
  intros H Hip Hi Hb Hq Hno HL Hst'. destruct H as [Hst Hsz HB He Hk].
  assert (Hlen : zlen (<[i := HEntry q ip data s :: b]> bs) = zlen bs) by (by rewrite length_insert).
  split.
  - eapply state_proper; [reflexivity| |exact Hst']. rewrite HL. cbn [first chain he_addr he_key he_data]. solve_Permutation.
  - by rewrite Hlen.
  - rewrite Hlen, lookup_insert_ne; [done|]. congruence.
  - intros j b' e Hj Hin. unfold bucket_of. rewrite Hlen. fold (bucket_of (he_str e) bs).
    destruct (decide (i = j)) as [<-|Hij].
    + rewrite list_lookup_insert_eq in Hj by (by eapply lookup_lt_Some). injection Hj as <-.
      apply elem_of_cons in Hin as [->|Hin]; [done|by eapply He].
    + rewrite list_lookup_insert_ne in Hj by done. by eapply He.
  - by eapply contents_insert.
Qed.

(** The new entry. *)
Lemma wp_entry n B w w0 K htab T bs ip s data r v F q vs i b (Q : Z -> world -> Prop) :
  table B w0 K htab T bs ((r, v) :: F) -> key_at K ip s -> bs !! i = Some b -> bucket_of s bs = Z.of_nat i ->
  B !! q = None -> length vs = 3%nat -> 0 <= data < 4294967296 -> (forall e, e ∈ concat bs -> he_str e <> s) ->
  state (<[q := sizeof_entry]> B) w K (words q vs ++ table_cells htab T bs ++ (r, v) :: F) ->
  (forall w', table (<[q := sizeof_entry]> B) w' K htab T (<[i := HEntry q ip data s :: b]> bs) ((r, ent q) :: F) -> Q 1 w') ->
  wp n (store32 (ent_key q) ip ;; store32 (ent_data q) data ;;
    (x ← load32 (T + 4 * Z.of_nat i); store32 (link q) x) ;;
    store32 (T + 4 * Z.of_nat i) q ;; store32 r (ent q) ;; mret 1) w Q.
Proof.
  intros H Hip Hi Hb Hq Hvs Hd Hno Hw HQ. destruct vs as [|v1 [|v2 [|v3 [|]]]]; try done.
  destruct (table_cells_head htab T bs i b Hi) as [L HL].
  assert (HP := HL b). rewrite list_insert_id in HP by done.
  assert (Hqr : (q, v1) ∈ words q [v1; v2; v3] ++ table_cells htab T bs ++ (r, v) :: F) by left.
  apply (state_cell _ _ _ _ _ _ Hw) in Hqr.
  assert (Hkr := state_data_range _ _ _ _ _ _ Hw (proj1 Hip)).
  set (h := T + 4 * Z.of_nat i) in *. set (R := chain b ++ L ++ F).
  assert (Hfr : 0 <= first b < 4294967296).
  { eapply (state_cell _ _ _ _ h (first b)); [exact Hw|]. do 3 right. apply elem_of_app. left. rewrite HP. by left. }
  cbn [words app] in Hw. unfold ent_key, ent_data, ent, link in *.
  wp_step. eapply (wp_state_store_in _ _ _ _ _ v2 _ ((q, v1) :: (q + 8, v3) :: (h, first b) :: (r, v) :: R));
    [exact Hw|rewrite HP; replace (q + 4 + 4) with (q + 8) by lia; unfold R; solve_Permutation|lia|]. clear w Hw. intros w Hw.
  wp_step. eapply (wp_state_store_in _ _ _ _ _ v3 _ ((q + 4, ip) :: (q, v1) :: (h, first b) :: (r, v) :: R));
    [exact Hw|solve_Permutation|lia|]. clear w Hw. intros w Hw.
  wp_step. wp_step. eapply wp_state_load; [exact Hw|do 3 right; by left|].
  eapply (wp_state_store_in _ _ _ _ _ v1 _ ((q + 8, data) :: (q + 4, ip) :: (h, first b) :: (r, v) :: R));
    [exact Hw|solve_Permutation|lia|]. clear w Hw. intros w Hw.
  wp_step. eapply (wp_state_store_in _ _ _ _ _ (first b) _ ((q, first b) :: (q + 8, data) :: (q + 4, ip) :: (r, v) :: R));
    [exact Hw|solve_Permutation|lia|]. clear w Hw. intros w Hw.
  wp_step. eapply (wp_state_store_in _ _ _ _ _ v _ ((h, q) :: (q, first b) :: (q + 8, data) :: (q + 4, ip) :: R));
    [exact Hw|solve_Permutation|lia|]. clear w Hw. intros w Hw.
  wp_steps. apply HQ. eapply table_insert; [exact H|exact Hip|exact Hi|exact Hb|exact Hq|done|exact HL|].
  eapply state_proper; [reflexivity| |exact Hw]. unfold R. solve_Permutation.
Qed.

(** A new block is no entry. *)
Lemma entry_fresh B B' w w' K htab T bs F F' q vs e : table B w K htab T bs F ->
  state B' w' K (words q vs ++ table_cells htab T bs ++ F') -> length vs = 3%nat ->
  e ∈ concat bs -> he_addr e <> q.
Proof.
  intros H Hw Hvs He <-. destruct vs as [|v vs]; [done|].
  destruct (st_cells _ _ _ _ Hw) as [_ Hs]. apply separate_app in Hs as (_ & _ & Hs).
  destruct (hentry_cell _ _ _ _ _ _ _ _ H He) as [x Hx].
  apply Forall_cons in Hs as [Hs _]. rewrite Forall_forall in Hs.
  specialize (Hs (link (he_addr e), x) ltac:(apply elem_of_app; by left)).
  unfold apart, disjoint_ranges, link in Hs. cbn in Hs. lia.
Qed.

Lemma wp_hsearch_r n B w K htab T bs F ip s data action r v (Q : Z -> world -> Prop) :
  table B w K htab T bs ((r, v) :: F) -> key_at K ip s -> fits n bs s -> 0 <= data < 4294967296 ->
  (forall e w', e ∈ concat bs -> he_str e = s -> table B w' K htab T bs ((r, ent (he_addr e)) :: F) -> Q 1 w') ->
  (forall w', (forall e, e ∈ concat bs -> he_str e <> s) -> table B w' K htab T bs ((r, 0) :: F) -> Q 0 w') ->
  (forall q i b w', (forall e, e ∈ concat bs -> he_str e <> s) -> action = ENTER -> B !! q = None ->
    (forall e, e ∈ concat bs -> he_addr e <> q) -> bs !! i = Some b -> bucket_of s bs = Z.of_nat i ->
    table (<[q := sizeof_entry]> B) w' K htab T (<[i := HEntry q ip data s :: b]> bs) ((r, ent q) :: F) -> Q 1 w') ->
  wp n (hsearch_r malloc ip data action r htab) w Q.
Proof.
  intros H Hip Hn Hd Hfound Hno Hins. pose proof (ta_state _ _ _ _ _ _ _ H) as Hst.
  pose proof (key_string _ _ _ _ _ _ Hst Hip) as Hs. pose proof (st_ok _ _ _ _ Hst) as Hok.
  assert (Hsb : zlen s < 1073741824).
  { pose proof (mem_ok_range _ _ _ Hok (cstr_bytes _ _ _ Hs) ltac:(by destruct s)) as Hr.
    rewrite length_app in Hr. lia. }
  unfold hsearch_r. wp_step. eapply (wp_strlen _ _ s); [done|done|apply Hn|].
  wp_step. eapply (wp_hash4 _ _ _ s); [by apply cstr_body|done|apply Hn|].
  wp_step. eapply wp_state_load; [exact Hst|by left|].
  wp_step. eapply wp_state_load; [exact Hst|right; by left|].
  destruct (ta_size _ _ _ _ _ _ _ H) as (k & Hk & Ek). assert (Hsz : 0 < zlen bs < 4294967296).
  { rewrite Ek. split; [lia|]. apply Z.le_lt_trans with (2 ^ 26); [apply Z.pow_le_mono_r; lia|lia]. }
  rewrite (u32_small (zlen bs - 1)) by lia. cbn beta iota zeta.
  destruct (bucket_exists _ _ _ _ _ _ _ s H) as (i & b & Hi & Hb). fold (bucket_of s bs). rewrite Hb.
  wp_step. eapply wp_find_entry; [exact H|exact Hip|exact Hn|exact Hi|exact Hb|..].
  - intros e He Es. pose proof (entry_range _ _ _ _ _ _ _ _ H He) as Hr.
    rewrite (proj2 (Z.eqb_neq (he_addr e) 0)) by lia. cbn [negb]. wp_step.
    eapply wp_table_store; [exact H|unfold ent; lia|]. intros w' Hw'. wp_steps. by eapply Hfound.
  - intros Habs. change (negb (0 =? 0)) with false. cbn beta iota. destruct action.
    + wp_step. eapply wp_table_store; [exact H|lia|]. intros w' Hw'. wp_steps. by apply Hno.
    + wp_step. change sizeof_entry with (4 * Z.of_nat 3).
      eapply wp_state_malloc; [exact Hst|apply Hn|lia|lia|..].
      { intros w' Hw'. change (0 =? 0) with true. wp_steps.
        eapply wp_table_store; [eapply table_state; [exact H|exact Hw']|lia|]. intros w'' Hw''. wp_steps. by apply Hno. }
      intros q vs w' Hvs Hq Hq0 Hw'. rewrite (proj2 (Z.eqb_neq q 0)) by done.
      eapply wp_entry; [exact H|exact Hip|exact Hi|exact Hb|exact Hq|exact Hvs|exact Hd|done|exact Hw'|].
      intros w'' Hw''. wp_steps. eapply Hins; [done|done|done| |done|done|exact Hw''].
      intros e He. exact (entry_fresh _ _ _ _ _ _ _ _ _ _ _ _ e H Hw' Hvs He).
Qed.
(** *** The creation *)

(** The number of buckets: the power of two from [nel], between the bounds. *)
Definition clamped (nel : Z) : Z := Z.min MAX_BUCKETS (Z.max MIN_BUCKETS nel).
Definition table_size (nel : Z) : Z := 2 ^ Z.log2_up (clamped nel).

Lemma clamped_range nel : 16 <= clamped nel <= 67108864.
Proof. unfold clamped. change MAX_BUCKETS with 67108864. change MIN_BUCKETS with 16. lia. Qed.

Lemma table_size_pow nel : exists k, (4 <= k <= 26)%nat /\ table_size nel = 2 ^ Z.of_nat k.
Proof.
  pose proof (clamped_range nel) as Hc. exists (Z.to_nat (Z.log2_up (clamped nel))).
  pose proof (Z.log2_up_le_mono _ _ (proj1 Hc)) as H1. pose proof (Z.log2_up_le_mono _ _ (proj2 Hc)) as H2.
  change (Z.log2_up 16) with 4 in H1. change (Z.log2_up 67108864) with 26 in H2.
  unfold table_size. split; [lia|]. by rewrite Z2Nat.id by lia.
Qed.

Lemma table_size_range nel : 16 <= table_size nel <= 67108864.
Proof.
  destruct (table_size_pow nel) as (k & Hk & ->). split.
  - change 16 with (2 ^ 4). apply Z.pow_le_mono_r; lia.
  - change 67108864 with (2 ^ 26). apply Z.pow_le_mono_r; lia.
Qed.

Lemma table_size_least nel k : table_size nel = 2 ^ Z.of_nat k ->
  (nel <= table_size nel \/ k = 26%nat) /\ (table_size nel < 2 * nel \/ k = 4%nat).
Proof.
  intros E. pose proof (clamped_range nel) as Hc. pose proof (Z.log2_up_spec (clamped nel) ltac:(lia)) as Hs.
  unfold table_size in *. assert (Ek : Z.log2_up (clamped nel) = Z.of_nat k).
  { apply (Z.pow_inj_r 2) in E; [done|lia|apply Z.log2_up_nonneg|lia]. }
  assert (H2 : 2 ^ Z.log2_up (clamped nel) = 2 * 2 ^ Z.pred (Z.log2_up (clamped nel))).
  { rewrite <-Z.pow_succ_r, Z.succ_pred; [done|]. pose proof (Z.log2_up_pos (clamped nel) ltac:(lia)). lia. }
  unfold clamped in *. change MAX_BUCKETS with 67108864 in *. change MIN_BUCKETS with 16 in *. split.
  - destruct (Z.le_gt_cases nel 67108864); [left; lia|right]. rewrite Z.min_l in Ek by lia.
    change (Z.log2_up 67108864) with 26 in Ek. lia.
  - destruct (Z.le_gt_cases 16 nel); [left; lia|right]. rewrite Z.max_l in Ek by lia.
    change (Z.log2_up (Z.min 67108864 16)) with 4 in Ek. lia.
Qed.

(** The test for a power of two. *)
Lemma land_pred x : 0 < x -> Z.land x (x - 1) = 0 <-> x = 2 ^ Z.log2 x.
Proof.
  intros Hx. pose proof (Z.log2_spec x Hx) as [H1 H2]. pose proof (Z.log2_nonneg x) as H0. split.
  - intros Hl. destruct (Z.eq_dec x (2 ^ Z.log2 x)) as [|Hne]; [done|exfalso].
    assert (Ht : Z.testbit (Z.land x (x - 1)) (Z.log2 x) = true).
    { rewrite Z.land_spec, Z.bit_log2 by done. cbn [andb].
      rewrite <-(Z.log2_unique (x - 1) (Z.log2 x)) by lia. apply Z.bit_log2. lia. }
    by rewrite Hl, Z.bits_0 in Ht.
  - intros ->. replace (2 ^ Z.log2 x - 1) with (Z.ones (Z.log2 x)) by (rewrite Z.ones_equiv; lia).
    rewrite Z.land_ones by done. by apply Z_mod_same_full.
Qed.

Lemma wp_bit_length n k w x p2 (Q : Z -> world -> Prop) :
  0 <= x -> 0 <= p2 -> (x = 0 -> Q p2 w) -> (0 < x -> Q (p2 + Z.log2 x + 1) w) ->
  p2 + x < 4294967296 -> (x = 0 /\ 0 < Z.of_nat k \/ 0 < x /\ Z.log2 x + 1 < Z.of_nat k) ->
  wp n (loop_k k (fun '(p2, nel) =>
    if negb (nel =? 0) then next (u32 (p2 + 1), Z.shiftr nel 1) else brk p2) (p2, x)) w Q.
Proof.
  revert x p2. induction k as [|k IH]; intros x p2 Hx Hp H0 H1 Hr Hk; [pose proof (Z.log2_nonneg x); lia|].
  wp_loop. destruct (Z.eqb_spec x 0) as [->|Hne]; cbn [negb]; wp_steps; [by apply H0|].
  rewrite u32_small by lia. pose proof (Z.log2_nonneg x) as Hl0. rewrite Z.shiftr_div_pow2 by lia.
  change (2 ^ 1) with 2. destruct (Z.eq_dec x 1) as [->|Hne1].
  - change (1 / 2) with 0. change (Z.log2 1) with 0 in *. apply IH; try lia.
    intros _. eqapply (H1 ltac:(lia)). lia.
  - assert (E : Z.log2 x = Z.log2 (x / 2) + 1).
    { pose proof (Z.log2_shiftr x 1 ltac:(lia)) as El. rewrite Z.shiftr_div_pow2 in El by lia.
      change (2 ^ 1) with 2 in El. pose proof (Z.log2_pos x ltac:(lia)). lia. }
    apply IH; try lia. intros _. eqapply (H1 ltac:(lia)). lia.
Qed.

Lemma wp_buckets n w nel (Q : Z -> world -> Prop) :
  0 <= nel < 4294967296 -> (28 <= n)%nat -> Q (table_size nel) w -> wp n (buckets nel) w Q.
Proof.
  intros Hn Hf HQ. unfold buckets. cbn zeta. pose proof (clamped_range nel) as Hc.
  replace (if MAX_BUCKETS <? (if nel <? MIN_BUCKETS then MIN_BUCKETS else nel) then MAX_BUCKETS
    else (if nel <? MIN_BUCKETS then MIN_BUCKETS else nel)) with (clamped nel).
  2: { unfold clamped. destruct (Z.ltb_spec nel MIN_BUCKETS), (Z.ltb_spec MAX_BUCKETS MIN_BUCKETS);
    try done; try destruct (Z.ltb_spec MAX_BUCKETS nel); lia. }
  rewrite u32_small by lia. set (x := clamped nel) in *. unfold table_size in HQ. fold x in HQ.
  pose proof (land_pred x ltac:(lia)) as HP. pose proof (Z.log2_spec x ltac:(lia)) as Hs.
  pose proof (Z.log2_le_mono _ _ (proj2 Hc)) as Hl. change (Z.log2 67108864) with 26 in Hl.
  destruct (Z.eqb_spec (Z.land x (x - 1)) 0) as [E|E]; cbn [negb].
  - wp_steps. apply HP in E. rewrite E, Z.log2_up_pow2, <-E in HQ by apply Z.log2_nonneg. exact HQ.
  - assert (Hup : Z.log2_up x = Z.log2 x + 1).
    { apply Z.log2_up_unique; [pose proof (Z.log2_nonneg x); lia|].
      replace (Z.pred (Z.log2 x + 1)) with (Z.log2 x) by lia.
      split; [|rewrite <-Z.add_1_r in *; lia].
      destruct (Z.eq_dec x (2 ^ Z.log2 x)) as [Ex|Ex]; [by apply HP in Ex|lia]. }
    wp_step. apply wp_loop_k, wp_bit_length; try lia. intros _. wp_steps. rewrite Z.shiftl_1_l, u32_small.
    + eqapply HQ. rewrite Hup. f_equal; lia.
    + assert (Hl26 : Z.log2 x + 1 <= 27) by lia. split; [lia|].
      apply Z.le_lt_trans with (2 ^ 27); [apply Z.pow_le_mono_r; lia|lia].
Qed.

(** SLIST_INIT of every bucket. *)
Lemma wp_init_buckets n k B w K htab T size vs i F (Q : unit -> world -> Prop) :
  state B w K (words T (repeat 0 i ++ drop i vs) ++ (htable htab, T) :: (htablesize htab, size) :: F) ->
  size = zlen vs -> size <= 67108864 -> (i <= length vs)%nat -> (length vs < k + i)%nat ->
  (forall w', state B w' K (words T (repeat 0 (length vs)) ++ (htable htab, T) :: (htablesize htab, size) :: F) -> Q tt w') ->
  wp n (loop_k k (fun idx =>
    n ← load32 (htablesize htab);
    if idx <? n then t ← load32 (htable htab); store32 (t + 4 * idx) 0 ;; next (u32 (idx + 1))
    else brk tt) (Z.of_nat i)) w Q.
Proof.
  intros Hw -> Hsz Hi Hk HQ. revert w i Hw Hi Hk.
  induction k as [|k IH]; intros w i Hw Hi Hk; [lia|]. wp_loop.
  wp_step. eapply wp_state_load; [exact Hw|apply elem_of_app; right; right; by left|]. wp_if.
  - wp_step. eapply wp_state_load; [exact Hw|apply elem_of_app; right; by left|].
    destruct (lookup_lt_is_Some_2 vs i) as [v Hv]; [lia|].
    rewrite (drop_S _ _ _ Hv), words_app in Hw. cbn [words] in Hw. rewrite repeat_length in Hw.
    wp_step. eapply (wp_state_store_in _ _ _ _ _ v); [exact Hw| |lia|].
    { rewrite <-app_assoc. symmetry. cbn [app]. apply Permutation_middle. }
    clear w Hw. intros w Hw. wp_steps.
    replace (u32 (Z.of_nat i + 1)) with (Z.of_nat (S i)) by (rewrite u32_small; lia).
    apply IH; [|lia..]. replace (repeat 0 (S i)) with (repeat 0 i ++ [0]) by (symmetry; apply (repeat_app 0 i 1) || (change [0] with (repeat 0 1); rewrite <-repeat_app; f_equal; lia)).
    rewrite <-app_assoc, words_app. cbn [words app]. rewrite repeat_length, <-app_assoc.
    eapply state_proper; [reflexivity|symmetry; cbn [app]; apply Permutation_middle|exact Hw].
  - wp_steps. apply HQ. assert (i = length vs) as -> by lia. rewrite drop_all, app_nil_r in Hw. exact Hw.
Qed.

(** An empty table. *)
Lemma chains_empty k : chains (repeat [] k) = [].
Proof. unfold chains. induction k as [|k IH]; [done|]. exact IH. Qed.

Lemma first_empty k : map first (repeat [] k) = repeat 0 k.
Proof. rewrite map_repeat. done. Qed.

Lemma concat_empty k : concat (repeat (@nil hentry) k) = [].
Proof. induction k as [|k IH]; [done|exact IH]. Qed.

Lemma contents_empty k : contents (repeat [] k) = ∅.
Proof. unfold contents. by rewrite concat_empty. Qed.

Lemma wp_hcreate_r n B w K htab nel t z F (Q : Z -> world -> Prop) :
  state B w K ((htable htab, t) :: (htablesize htab, z) :: F) -> 0 <= nel < 4294967296 ->
  (28 <= n)%nat -> (Z.to_nat (table_size nel) < n)%nat -> (alloc_fuel <= n)%nat ->
  (t <> 0 -> Q 0 (set_reent (set_errno EINVAL (w_reent w)) w)) ->
  (forall w', t = 0 -> state B w' K ((htable htab, 0) :: (htablesize htab, table_size nel) :: F) ->
    _errno (w_reent w') = ENOMEM -> Q 0 w') ->
  (forall T w', t = 0 -> B !! T = None -> table (<[T := 4 * table_size nel]> B) w' K htab T
    (repeat [] (Z.to_nat (table_size nel))) F -> Q 1 w') ->
  wp n (hcreate_r malloc nel htab) w Q.
Proof.
  intros Hw Hnel Hf Hfs Hfa Hbusy Hnomem Hnew. unfold hcreate_r.
  wp_step. eapply wp_state_load; [exact Hw|by left|].
  destruct (Z.eqb_spec t 0) as [->|Ht]; cbn [negb]; [|wp_steps; by apply Hbusy].
  wp_step. apply wp_buckets; [done..|]. pose proof (table_size_range nel) as Hr.
  destruct (table_size_pow nel) as (k & Hk & Ek). set (size := table_size nel) in *.
  wp_step. eapply wp_state_store_in; [exact Hw|apply perm_swap|lia|]. clear w Hw Hbusy. intros w Hw.
  wp_step. eapply wp_state_load; [exact Hw|by left|].
  rewrite u32_small by lia. wp_step. replace (size * 4) with (4 * Z.of_nat (Z.to_nat size)) by lia.
  eapply wp_state_malloc; [exact Hw|done|lia|lia|..].
  - clear w Hw. intros w Hw. wp_step.
    eapply wp_state_store_in; [exact Hw|apply perm_swap|lia|]. clear w Hw. intros w Hw.
    wp_step. eapply wp_state_load; [exact Hw|by left|]. change (0 =? 0) with true. wp_steps. apply Hnomem; [done|by destruct Hw; split|done].
  - clear w Hw. intros T vs w Hvs HT HT0 Hw. rewrite Z2Nat.id in Hw by lia.
    assert (HTr : 0 <= T < 4294967296).
    { destruct vs as [|v vs]; [simpl in Hvs; lia|]. eapply (state_cell _ _ _ _ T v) in Hw as [? _]; [lia|by left]. }
    wp_step. eapply (wp_state_store_in _ _ _ _ _ 0 T ((htablesize htab, size) :: words T vs ++ F)); [exact Hw|solve_Permutation|done|].
    clear w Hw. intros w Hw.
    wp_step. eapply wp_state_load; [exact Hw|by left|]. rewrite (proj2 (Z.eqb_neq T 0)) by done.
    wp_step. apply wp_loop_k. eapply (wp_init_buckets _ _ _ _ _ _ T size vs 0%nat F); [|lia|lia|lia|lia|].
    { eapply state_proper; [reflexivity| |exact Hw]. cbn [repeat app]. rewrite drop_0. solve_Permutation. }
    clear w Hw. intros w Hw. wp_steps. apply (Hnew T); [done..|].
    assert (Hlen : zlen (repeat (@nil hentry) (Z.to_nat size)) = size) by (rewrite repeat_length; lia).
    split.
    + unfold table_cells. rewrite Hlen, first_empty, chains_empty, app_nil_r. rewrite Hvs in Hw.
      eapply state_proper; [reflexivity| |exact Hw]. cbn [app]. solve_Permutation.
    + rewrite Hlen. exists k. split; [lia|done].
    + rewrite Hlen. apply lookup_insert_eq.
    + intros i b e Hi He. apply list_elem_of_lookup_2, list_elem_of_In, repeat_spec in Hi. subst b. by apply elem_of_nil in He.
    + rewrite concat_empty. constructor.
Qed.

(** *** The end *)

Lemma wp_hdestroy_r n B w K htab T bs F (Q : unit -> world -> Prop) :
  table B w K htab T bs F -> (alloc_fuel <= n)%nat ->
  (forall w', state (delete T B) w' K ((htable htab, 0) :: (htablesize htab, zlen bs) :: chains bs ++ F) -> Q tt w') ->
  wp n (hdestroy_r free htab) w Q.
Proof.
  intros [Hw (k & Hk & Ek) HB _ _] Hf HQ. unfold hdestroy_r. unfold table_cells in Hw.
  wp_step. eapply wp_state_load; [exact Hw|by left|].
  assert (HT : 0 < T).
  { destruct bs as [|b bs]; [cbn in Ek; lia|].
    assert (Hin : (T, first b) ∈ words T (map first (b :: bs))) by left.
    eapply (state_cell _ _ _ _ T (first b)) in Hw as [? _]; [lia|]. right; right.
    apply elem_of_app. left. apply elem_of_app. by left. }
  rewrite (proj2 (Z.eqb_neq T 0)) by lia. wp_step. eapply wp_state_load; [exact Hw|by left|].
  wp_step. eapply (wp_state_free B _ _ ((htable htab, T) :: (htablesize htab, zlen bs) :: chains bs ++ F) T (map first bs));
    [eapply state_proper; [reflexivity| |exact Hw]; cbn [app]; solve_Permutation|done|by rewrite length_map|].
  clear w Hw. intros w Hw. eapply wp_state_store; [exact Hw|lia|done].
Qed.

(** Nothing happens without a table. *)
Lemma wp_hdestroy_none n B w K htab L (Q : unit -> world -> Prop) :
  state B w K ((htable htab, 0) :: L) -> Q tt w -> wp n (hdestroy_r free htab) w Q.
Proof.
  intros Hw HQ. unfold hdestroy_r. wp_step. eapply wp_state_load; [exact Hw|by left|]. by wp_steps.
Qed.
End table.
