(* ===== verification/Exit.v ===== *)
(** * The end of a program: stdlib/__atexit.c, __call_atexit.c, exit.c

    The table of exit handlers is a member of the global reentrancy structure:
    words of the memory.  [_ATEXIT_DYNAMIC_ALLOC] and [_REENT_SMALL] are undefined
    in this build, so there is one table of [_ATEXIT_SIZE] handlers.  A function
    pointer is an address; the call through it is a parameter, with the list of
    the arguments. *)

From S2P Require Import Prelude CMonad Words Memory.

(** ** stdlib/atexit.h, include/sys/reent.h *)

Inductive __atexit_types := __et_atexit | __et_onexit | __et_cxa.

Definition _ATEXIT_SIZE : Z := 32.

(** The members of [struct _atexit], and in it of [struct _on_exit_args]. *)
Definition _ind (p : Z) : Z := p + 4.
Definition _fns (p n : Z) : Z := p + 8 + 4 * n.
Definition _on_exit_args (p : Z) : Z := p + 136.
Definition _fnargs (args n : Z) : Z := args + 4 * n.
Definition _dso_handle (args n : Z) : Z := args + 128 + 4 * n.
Definition _fntypes (args : Z) : Z := args + 256.
Definition _is_cxa (args : Z) : Z := args + 260.

(** ** The functions *)

Section exit.
(** The addresses of the global structure and of three of its members; calls of
    function pointers; the end of the process. *)
Context (_GLOBAL_REENT _atexit _atexit0 __cleanup : Z) (call : Z -> list Z -> C unit) (_exit : Z -> C unit).

Definition __register_exitproc (type : __atexit_types) (fn arg d : Z) : C Z :=
  p ← load32 _atexit;
  p ← (if p =? 0 then let p := _atexit0 in store32 _atexit p ;; mret p else mret p);
  ind ← load32 (_ind p);
  if _ATEXIT_SIZE <=? i32 ind then mret (-1) else
  match type with
  | __et_atexit => mret tt
  | _ =>
      let args := _on_exit_args p in
      ind ← load32 (_ind p); store32 (_fnargs args ind) arg ;;
      t ← load32 (_fntypes args); ind ← load32 (_ind p);
      store32 (_fntypes args) (Z.lor t (u32 (Z.shiftl 1 ind))) ;;
      ind ← load32 (_ind p); store32 (_dso_handle args ind) d ;;
      match type with
      | __et_cxa =>
          t ← load32 (_is_cxa args); ind ← load32 (_ind p);
          store32 (_is_cxa args) (Z.lor t (u32 (Z.shiftl 1 ind)))
      | _ => mret tt
      end
  end ;;
  ind ← load32 (_ind p);
  store32 (_ind p) (u32 (ind + 1)) ;;
  store32 (_fns p ind) fn ;;
  mret 0.

Definition atexit (fn : Z) : C Z := __register_exitproc __et_atexit fn 0 0.
Definition on_exit (fn arg : Z) : C Z := __register_exitproc __et_onexit fn arg 0.
Definition __cxa_atexit (fn arg d : Z) : C Z := __register_exitproc __et_cxa fn arg d.

(** The call of the handler that was in place [n]. *)
Definition call_handler (code args n fn : Z) : C unit :=
  let i := u32 (Z.shiftl 1 n) in
  t ← load32 (_fntypes args);
  if Z.land t i =? 0 then call fn [] else
  t ← load32 (_is_cxa args);
  if Z.land t i =? 0 then arg ← load32 (_fnargs args n); call fn [code; arg]
  else arg ← load32 (_fnargs args n); call fn [arg].

(** The [for] loop over the table; the result is whether to restart. *)
Definition call_handlers (code d lastp p : Z) : C bool :=
  let args := _on_exit_args p in
  ind ← load32 (_ind p);
  loop (fun n =>
    if 0 <=? n then
      skip ← (if negb (d =? 0) then h ← load32 (_dso_handle args n); mret (negb (h =? d)) else mret false);
      if (skip : bool) then next (n - 1) else
      fn ← load32 (_fns p n);
      ind ← load32 (_ind p);
      (if n =? i32 (u32 (ind - 1)) then ind ← load32 (_ind p); store32 (_ind p) (u32 (ind - 1))
       else store32 (_fns p n) 0) ;;
      if fn =? 0 then next (n - 1) else
      ind ← load32 (_ind p);
      call_handler code args n fn ;;
      ind' ← load32 (_ind p);
      if negb (ind =? ind') then brk true else
      q ← load32 lastp;
      if negb (q =? p) then brk true else next (n - 1)
    else brk false) (i32 (u32 (ind - 1))).

Definition __call_exitprocs (code d : Z) : C unit :=
  loop (fun _ : unit =>
    p ← load32 _atexit;
    let lastp := _atexit in
    if p =? 0 then brk tt else
    restart ← call_handlers code d lastp p;
    if (restart : bool) then next tt else brk tt) tt.

Definition __cxa_finalize (d : Z) : C unit := __call_exitprocs 0 d.

Definition exit (code : Z) : C unit :=
  __call_exitprocs code 0 ;;
  f ← load32 __cleanup;
  (if negb (f =? 0) then f ← load32 __cleanup; call f [_GLOBAL_REENT] else mret tt) ;;
  _exit code.
End exit.
