(* ===== verification/ExitSpec.v ===== *)
(** * Exit handlers: a stack in memory *)

From S2P Require Import Prelude CMonad Words Memory MemCopy Heap Exit.

(** ** The table *)

(** The words of [struct _atexit] and the pointer to it; the places from [x_ind]
    on keep what they held. *)
Record table := Table {
  x_head : Z; x_next : Z; x_ind : nat;
  x_fns : list Z; x_args : list Z; x_dsos : list Z; x_types : Z; x_cxa : Z;
}.

Record well_formed (x : table) : Prop := {
  wf_ind : (x_ind x <= 32)%nat;
  wf_fns : length (x_fns x) = 32%nat;
  wf_args : length (x_args x) = 32%nat;
  wf_dsos : length (x_dsos x) = 32%nat;
}.

(** How the handler in place [n] is called. *)
Definition call_args (code : Z) (x : table) (n : nat) : list Z :=
  if Z.testbit (x_types x) (Z.of_nat n) then
    if Z.testbit (x_cxa x) (Z.of_nat n) then [x_args x !!! n] else [code; x_args x !!! n]
  else [].

(** A registered handler: the function, the arguments and the object. *)
Record handler := Handler { h_fn : Z; h_args : list Z; h_dso : Z }.

Definition place (code : Z) (x : table) (n : nat) : option handler :=
  if x_fns x !!! n =? 0 then None
  else Some (Handler (x_fns x !!! n) (call_args code x n) (x_dsos x !!! n)).

(** The handlers, the last registered first. *)
Fixpoint below (code : Z) (x : table) (n : nat) : list handler :=
  match n with
  | O => []
  | S n => match place code x n with Some h => h :: below code x n | None => below code x n end
  end.
Definition handlers (code : Z) (x : table) : list handler :=
  if x_head x =? 0 then [] else below code x (x_ind x).

(** The calls that a run for the object [d] makes from a stack of handlers: the
    first that matches, then from the others and what it registered. *)
Definition matches (d : Z) (h : handler) : bool := (d =? 0) || (h_dso h =? d).

Section unwinding.
Context (registers : handler -> list handler -> Prop) (d : Z).

Inductive unwinds : list handler -> list handler -> list handler -> Prop :=
| unwinds_stop hs : unwinds hs [] hs
| unwinds_call skipped h rest new tr hs' :
    Forall (fun h => matches d h = false) skipped -> matches d h = true -> registers h new ->
    unwinds (new ++ skipped ++ rest) tr hs' -> unwinds (skipped ++ h :: rest) (h :: tr) hs'.

Lemma unwinds_app hs1 tr1 hs2 tr2 hs3 : unwinds hs1 tr1 hs2 -> unwinds hs2 tr2 hs3 -> unwinds hs1 (tr1 ++ tr2) hs3.
Proof. induction 1; [done|]. intros H3. cbn. econstructor; eauto. Qed.

(** Handlers that register none: the ones that match, in the order of the stack. *)
Lemma unwinds_filter hs tr hs' : (forall h new, h ∈ hs -> registers h new -> new = []) ->
  unwinds hs tr hs' -> Forall (fun h => matches d h = false) hs' ->
  tr = base.filter (fun h => matches d h = true) hs /\ hs' = base.filter (fun h => matches d h = false) hs.
Proof.
  intros Hnone H. revert Hnone. induction H as [hs|skipped h rest new tr hs' Hs Hm Hr Hu IH]; intros Hnone Hall.
  - split.
    + symmetry. induction Hall as [|h hs Hh _ IHh]; [done|]. rewrite filter_cons_False; [|by rewrite Hh]. apply IHh. set_solver.
    + symmetry. induction Hall as [|h hs Hh _ IHh]; [done|]. rewrite filter_cons_True by done. f_equal. apply IHh. set_solver.
  - assert (new = []) as -> by (eapply Hnone; [|done]; set_solver). cbn [app] in *.
    destruct IH as [-> ->]; [set_solver|done|]. rewrite !filter_app, !filter_cons, Hm.
    assert (E1 : base.filter (fun h => matches d h = true) skipped = []).
    { clear -Hs. induction Hs as [|h' hs Hh _ IHh]; [done|]. rewrite filter_cons_False; [done|by rewrite Hh]. }
    rewrite E1. destruct (decide (true = true)); [|done]. by destruct (decide (true = false)).
Qed.
End unwinding.

Section table.
Context (_atexit _atexit0 : Z).
Abbreviation args := (_on_exit_args _atexit0).

Definition table_words (x : table) : list cell :=
  (_atexit0, x_next x) :: (_ind _atexit0, Z.of_nat (x_ind x)) :: words (_fns _atexit0 0) (x_fns x) ++
  words (_fnargs args 0) (x_args x) ++ words (_dso_handle args 0) (x_dsos x) ++
  [(_fntypes args, x_types x); (_is_cxa args, x_cxa x)].
Definition table_cells (x : table) : list cell := (_atexit, x_head x) :: table_words x.

(** What the operations change. *)
Definition set_ind (i : nat) (x : table) : table :=
  Table (x_head x) (x_next x) i (x_fns x) (x_args x) (x_dsos x) (x_types x) (x_cxa x).
Definition set_fn (n : nat) (fn : Z) (x : table) : table :=
  Table (x_head x) (x_next x) (x_ind x) (<[n := fn]> (x_fns x)) (x_args x) (x_dsos x) (x_types x) (x_cxa x).

Definition remove (n : nat) (x : table) : table :=
  if (S n =? x_ind x)%nat then set_ind n x else set_fn n 0 x.

Definition is_arg (type : __atexit_types) : bool := match type with __et_atexit => false | _ => true end.
Definition is_cxa (type : __atexit_types) : bool := match type with __et_cxa => true | _ => false end.

(** A registration: the bits of the place are set and never cleared. *)
Definition push (type : __atexit_types) (fn arg d : Z) (x : table) : table :=
  let i := x_ind x in
  Table _atexit0 (x_next x) (S i) (<[i := fn]> (x_fns x))
    (if is_arg type then <[i := arg]> (x_args x) else x_args x)
    (if is_arg type then <[i := d]> (x_dsos x) else x_dsos x)
    (if is_arg type then Z.lor (x_types x) (2 ^ Z.of_nat i) else x_types x)
    (if is_cxa type then Z.lor (x_cxa x) (2 ^ Z.of_nat i) else x_cxa x).

(** ** Lemmas on tables *)

Lemma wf_set_ind i x : well_formed x -> (i <= 32)%nat -> well_formed (set_ind i x).
Proof. intros [] Hi. by split. Qed.
Lemma wf_set_fn n fn x : well_formed x -> well_formed (set_fn n fn x).
Proof. intros []. split; cbn; rewrite ?length_insert; done. Qed.
Lemma wf_remove n x : well_formed x -> (n < x_ind x)%nat -> well_formed (remove n x).
Proof.
  intros H Hn. unfold remove. pose proof (wf_ind _ H).
  destruct (S n =? x_ind x)%nat; [apply wf_set_ind; [done|lia]|by apply wf_set_fn].
Qed.
Lemma wf_push type fn arg d x : well_formed x -> (x_ind x < 32)%nat -> well_formed (push type fn arg d x).
Proof. intros [] Hi. split; cbn; destruct type; cbn; rewrite ?length_insert; lia. Qed.

Lemma place_eq code x y n : x_fns x !!! n = x_fns y !!! n -> x_args x !!! n = x_args y !!! n ->
  x_dsos x !!! n = x_dsos y !!! n -> Z.testbit (x_types x) (Z.of_nat n) = Z.testbit (x_types y) (Z.of_nat n) ->
  Z.testbit (x_cxa x) (Z.of_nat n) = Z.testbit (x_cxa y) (Z.of_nat n) -> place code x n = place code y n.
Proof. intros E1 E2 E3 E4 E5. unfold place, call_args. by rewrite E1, E2, E3, E4, E5. Qed.

Lemma below_eq code x y n : (forall i, (i < n)%nat -> place code x i = place code y i) -> below code x n = below code y n.
Proof. induction n as [|n IH]; intros H; cbn [below]; [done|]. rewrite (H n), IH by auto with lia. done. Qed.

(** The handlers above place [n] and below [m]. *)
Lemma below_split code x n m : (n < m)%nat -> exists above,
  below code x m = above ++ match place code x n with Some h => h :: below code x n | None => below code x n end /\
  forall y, (forall i, (n < i < m)%nat -> place code y i = place code x i) ->
    below code y m = above ++ match place code y n with Some h => h :: below code y n | None => below code y n end.
Proof.
  induction m as [|m IH]; intros Hn; [lia|]. destruct (decide (n = m)) as [->|Hne].
  - by exists [].
  - destruct IH as (above & E & Hy); [lia|]. cbn [below].
    exists (match place code x m with Some h => h :: above | None => above end). split.
    + rewrite E. by destruct (place code x m).
    + intros y H. rewrite (H m), Hy by auto with lia. by destruct (place code x m).
Qed.

Lemma set_fn_place code n fn x i : well_formed x -> (n < 32)%nat -> i <> n -> place code (set_fn n fn x) i = place code x i.
Proof. intros H Hn Hi. apply place_eq; cbn; rewrite ?list_lookup_total_insert_ne; done. Qed.

(** Removing takes one handler out of the stack. *)
Lemma handlers_remove code n x : well_formed x -> (n < x_ind x)%nat -> x_head x <> 0 -> exists above,
  handlers code x = above ++ match place code x n with Some h => h :: below code x n | None => below code x n end /\
  handlers code (remove n x) = above ++ below code x n.
Proof.
  intros Hwf Hn Hh. unfold handlers. rewrite (proj2 (Z.eqb_neq _ 0)) by done.
  destruct (below_split code x n (x_ind x) Hn) as (above & E & Hy). exists above. split; [done|].
  unfold remove. destruct (Nat.eqb_spec (S n) (x_ind x)) as [He|He].
  - cbn [x_head set_ind x_ind]. rewrite (proj2 (Z.eqb_neq _ 0)) by done.
    rewrite <-He in E. cbn [below] in E. assert (above = []) as ->.
    { destruct above as [|h a]; [done|exfalso]. apply (f_equal length) in E. rewrite length_app in E.
      destruct (place code x n); cbn in E; lia. }
    by apply below_eq.
  - cbn [x_head set_fn x_ind]. rewrite (proj2 (Z.eqb_neq _ 0)) by done. pose proof (wf_ind _ Hwf).
    assert (Hin : forall i, i <> n -> place code (set_fn n 0 x) i = place code x i) by (intros; apply set_fn_place; [done|lia|done]).
    rewrite (Hy (set_fn n 0 x)) by (intros; apply Hin; lia). f_equal.
    replace (place code (set_fn n 0 x) n) with (@None handler).
    2: { unfold place. cbn [set_fn x_fns]. rewrite list_lookup_total_insert_eq by (rewrite (wf_fns _ Hwf); lia). done. }
    apply below_eq. intros. apply Hin. lia.
Qed.

(** The handler that a registration pushes. *)
Definition pushed (code : Z) (type : __atexit_types) (fn arg d : Z) (x : table) : handler :=
  let i := x_ind x in
  Handler fn (call_args code (push type fn arg d x) i) (if is_arg type then d else x_dsos x !!! i).

Lemma lor_pow2 t i j : 0 <= i -> 0 <= j -> Z.testbit (Z.lor t (2 ^ i)) j = Z.testbit t j || (i =? j).
Proof. intros Hi Hj. by rewrite Z.lor_spec, Z.pow2_bits_eqb. Qed.

Lemma handlers_push code type fn arg d x : well_formed x -> (x_ind x < 32)%nat -> fn <> 0 -> _atexit0 <> 0 ->
  handlers code (push type fn arg d x) = pushed code type fn arg d x :: below code x (x_ind x).
Proof.
  intros Hwf Hi Hfn H0. unfold handlers. cbn [push x_head x_ind]. rewrite (proj2 (Z.eqb_neq _ 0)) by done.
  cbn [below]. set (y := push type fn arg d x). set (i := x_ind x) in *.
  assert (Efn : x_fns y !!! i = fn) by (apply list_lookup_total_insert_eq; rewrite (wf_fns _ Hwf); lia).
  assert (Ep : place code y i = Some (pushed code type fn arg d x)).
  { unfold place. rewrite Efn, (proj2 (Z.eqb_neq fn 0)) by done. unfold pushed. do 2 f_equal.
    unfold y, push; cbn [x_dsos]. fold i. destruct (is_arg type); [|done].
    apply list_lookup_total_insert_eq. rewrite (wf_dsos _ Hwf). lia. }
  rewrite Ep. f_equal. apply below_eq. intros j Hj. unfold y, push. fold i.
  apply place_eq; cbn [x_fns x_args x_dsos x_types x_cxa].
  - by apply list_lookup_total_insert_ne; lia.
  - destruct (is_arg type); [apply list_lookup_total_insert_ne; lia|done].
  - destruct (is_arg type); [apply list_lookup_total_insert_ne; lia|done].
  - destruct (is_arg type); [|done]. rewrite lor_pow2, (proj2 (Z.eqb_neq _ _)), orb_false_r by lia. done.
  - destruct (is_cxa type); [|done]. rewrite lor_pow2, (proj2 (Z.eqb_neq _ _)), orb_false_r by lia. done.
Qed.

(** A place whose bits were never set gets what is registered. *)
Lemma pushed_fresh code type fn arg d x : well_formed x -> (x_ind x < 32)%nat ->
  Z.testbit (x_types x) (Z.of_nat (x_ind x)) = false -> Z.testbit (x_cxa x) (Z.of_nat (x_ind x)) = false ->
  h_args (pushed code type fn arg d x) =
    match type with __et_atexit => [] | __et_onexit => [code; arg] | __et_cxa => [arg] end.
Proof.
  intros Hwf Hi H1 H2. unfold pushed, h_args, call_args, push. cbn [x_types x_cxa x_args].
  pose proof (wf_args _ Hwf) as Ha.
  destruct type; cbn [is_arg is_cxa]; rewrite ?lor_pow2, ?Z.eqb_refl, ?orb_true_r, ?H1, ?H2 by lia;
    rewrite ?list_lookup_total_insert_eq by lia.
  all: done.
Qed.

(** Registrations, on a table that is in use. *)
Inductive pushes (code : Z) (x : table) : list handler -> table -> Prop :=
| pushes_none : pushes code x [] x
| pushes_more type fn arg d new x' : pushes code x new x' -> (x_ind x' < 32)%nat -> fn <> 0 ->
    pushes code x (pushed code type fn arg d x' :: new) (push type fn arg d x').

Lemma pushes_table code x new x' : pushes code x new x' -> well_formed x -> x_head x = _atexit0 -> _atexit0 <> 0 ->
  well_formed x' /\ x_head x' = _atexit0 /\ x_ind x' = (length new + x_ind x)%nat /\
  handlers code x' = new ++ handlers code x.
Proof.
  intros H Hwf Hh H0. induction H as [|type fn arg d new x' _ (Hw & Hh' & Hi & E) Hlt Hfn]; [done|].
  split_and!; [by apply wf_push|done|cbn; lia|].
  rewrite handlers_push by done. cbn [app]. f_equal. rewrite <-E. unfold handlers.
  by rewrite Hh', (proj2 (Z.eqb_neq _ 0)) by done.
Qed.

Definition set_head (x : table) : table :=
  Table _atexit0 (x_next x) (x_ind x) (x_fns x) (x_args x) (x_dsos x) (x_types x) (x_cxa x).
Definition set_arg (n : nat) (v : Z) (x : table) : table :=
  Table (x_head x) (x_next x) (x_ind x) (x_fns x) (<[n := v]> (x_args x)) (x_dsos x) (x_types x) (x_cxa x).
Definition set_dso (n : nat) (v : Z) (x : table) : table :=
  Table (x_head x) (x_next x) (x_ind x) (x_fns x) (x_args x) (<[n := v]> (x_dsos x)) (x_types x) (x_cxa x).
Definition set_types (v : Z) (x : table) : table :=
  Table (x_head x) (x_next x) (x_ind x) (x_fns x) (x_args x) (x_dsos x) v (x_cxa x).
Definition set_cxa (v : Z) (x : table) : table :=
  Table (x_head x) (x_next x) (x_ind x) (x_fns x) (x_args x) (x_dsos x) (x_types x) v.

(** ** The table in memory *)

(** Storing [v] at [a] turns the words of [x] into those of [y]. *)
Definition stores (x y : table) (a v : Z) : Prop :=
  exists v0 L, table_cells x ≡ₚ (a, v0) :: L /\ table_cells y ≡ₚ (a, v) :: L.

Lemma words_insert p vs i v' : (i < length vs)%nat -> exists L,
  words p vs ≡ₚ (p + 4 * Z.of_nat i, vs !!! i) :: L /\
  words p (<[i := v']> vs) ≡ₚ (p + 4 * Z.of_nat i, v') :: L.
Proof.
  intros Hi. destruct (lookup_lt_is_Some_2 vs i Hi) as [v Hv]. rewrite (list_lookup_total_correct _ _ _ Hv).
  exists (words p (take i vs) ++ words (p + 4 * Z.of_nat i + 4) (drop (S i) vs)).
  rewrite insert_take_drop by done. rewrite <-(take_drop_middle _ _ _ Hv) at 1.
  rewrite !words_app. cbn [words]. rewrite length_take_le by lia. split; by rewrite <-Permutation_middle.
Qed.

Lemma stores_head x : stores x (set_head x) _atexit _atexit0.
Proof. by exists (x_head x), (table_words x). Qed.
Lemma stores_ind x i : stores x (set_ind i x) (_ind _atexit0) (Z.of_nat i).
Proof.
  exists (Z.of_nat (x_ind x)), ((_atexit, x_head x) :: (_atexit0, x_next x) :: drop 2 (table_words x)).
  unfold table_cells, table_words. cbn [drop]. split; solve_Permutation.
Qed.
Definition rest_words (x : table) (fns args' dsos : list cell) : list cell :=
  (_atexit, x_head x) :: (_atexit0, x_next x) :: (_ind _atexit0, Z.of_nat (x_ind x)) :: fns ++ args' ++ dsos ++
  [(_fntypes args, x_types x); (_is_cxa args, x_cxa x)].
Lemma table_cells_rest x : table_cells x = rest_words x (words (_fns _atexit0 0) (x_fns x))
  (words (_fnargs args 0) (x_args x)) (words (_dso_handle args 0) (x_dsos x)).
Proof. done. Qed.

Lemma stores_types x v : stores x (set_types v x) (_fntypes args) v.
Proof.
  exists (x_types x), ((_atexit, x_head x) :: (_atexit0, x_next x) :: (_ind _atexit0, Z.of_nat (x_ind x)) ::
    words (_fns _atexit0 0) (x_fns x) ++ words (_fnargs args 0) (x_args x) ++ words (_dso_handle args 0) (x_dsos x) ++
    [(_is_cxa args, x_cxa x)]).
  split; rewrite table_cells_rest; unfold rest_words; cbn [set_types x_head x_next x_ind x_fns x_args x_dsos x_types x_cxa]; solve_Permutation.
Qed.
Lemma stores_cxa x v : stores x (set_cxa v x) (_is_cxa args) v.
Proof.
  exists (x_cxa x), ((_atexit, x_head x) :: (_atexit0, x_next x) :: (_ind _atexit0, Z.of_nat (x_ind x)) ::
    words (_fns _atexit0 0) (x_fns x) ++ words (_fnargs args 0) (x_args x) ++ words (_dso_handle args 0) (x_dsos x) ++
    [(_fntypes args, x_types x)]).
  split; rewrite table_cells_rest; unfold rest_words; cbn [set_cxa x_head x_next x_ind x_fns x_args x_dsos x_types x_cxa]; solve_Permutation.
Qed.
Lemma stores_fn x n v : (n < length (x_fns x))%nat -> stores x (set_fn n v x) (_fns _atexit0 (Z.of_nat n)) v.
Proof.
  intros Hn. destruct (words_insert (_fns _atexit0 0) (x_fns x) n v Hn) as (L & E1 & E2).
  replace (_fns _atexit0 0 + 4 * Z.of_nat n) with (_fns _atexit0 (Z.of_nat n)) in * by (unfold _fns; lia).
  exists (x_fns x !!! n), (rest_words x L (words (_fnargs args 0) (x_args x)) (words (_dso_handle args 0) (x_dsos x))).
  rewrite !table_cells_rest. unfold rest_words. cbn [set_fn x_head x_next x_ind x_fns x_args x_dsos x_types x_cxa].
  rewrite E1, E2. split; solve_Permutation.
Qed.
Lemma stores_arg x n v : (n < length (x_args x))%nat -> stores x (set_arg n v x) (_fnargs args (Z.of_nat n)) v.
Proof.
  intros Hn. destruct (words_insert (_fnargs args 0) (x_args x) n v Hn) as (L & E1 & E2).
  replace (_fnargs args 0 + 4 * Z.of_nat n) with (_fnargs args (Z.of_nat n)) in * by (unfold _fnargs; lia).
  exists (x_args x !!! n), (rest_words x (words (_fns _atexit0 0) (x_fns x)) L (words (_dso_handle args 0) (x_dsos x))).
  rewrite !table_cells_rest. unfold rest_words. cbn [set_arg x_head x_next x_ind x_fns x_args x_dsos x_types x_cxa].
  rewrite E1, E2. split; solve_Permutation.
Qed.
Lemma stores_dso x n v : (n < length (x_dsos x))%nat -> stores x (set_dso n v x) (_dso_handle args (Z.of_nat n)) v.
Proof.
  intros Hn. destruct (words_insert (_dso_handle args 0) (x_dsos x) n v Hn) as (L & E1 & E2).
  replace (_dso_handle args 0 + 4 * Z.of_nat n) with (_dso_handle args (Z.of_nat n)) in * by (unfold _dso_handle; lia).
  exists (x_dsos x !!! n), (rest_words x (words (_fns _atexit0 0) (x_fns x)) (words (_fnargs args 0) (x_args x)) L).
  rewrite !table_cells_rest. unfold rest_words. cbn [set_dso x_head x_next x_ind x_fns x_args x_dsos x_types x_cxa].
  rewrite E1, E2. split; solve_Permutation.
Qed.

(** The words that are read. *)
Lemma cell_fn x n : (n < length (x_fns x))%nat -> (_fns _atexit0 (Z.of_nat n), x_fns x !!! n) ∈ table_cells x.
Proof.
  intros Hn. rewrite table_cells_rest. unfold rest_words. do 3 right. apply elem_of_app. left.
  replace (_fns _atexit0 (Z.of_nat n)) with (_fns _atexit0 0 + 4 * Z.of_nat n) by (unfold _fns; lia).
  by apply words_lookup, list_lookup_lookup_total_lt.
Qed.
Lemma cell_arg x n : (n < length (x_args x))%nat -> (_fnargs args (Z.of_nat n), x_args x !!! n) ∈ table_cells x.
Proof.
  intros Hn. rewrite table_cells_rest. unfold rest_words. do 3 right. apply elem_of_app. right. apply elem_of_app. left.
  replace (_fnargs args (Z.of_nat n)) with (_fnargs args 0 + 4 * Z.of_nat n) by (unfold _fnargs; lia).
  by apply words_lookup, list_lookup_lookup_total_lt.
Qed.
Lemma cell_dso x n : (n < length (x_dsos x))%nat -> (_dso_handle args (Z.of_nat n), x_dsos x !!! n) ∈ table_cells x.
Proof.
  intros Hn. rewrite table_cells_rest. unfold rest_words. do 3 right. do 2 (apply elem_of_app; right). apply elem_of_app. left.
  replace (_dso_handle args (Z.of_nat n)) with (_dso_handle args 0 + 4 * Z.of_nat n) by (unfold _dso_handle; lia).
  by apply words_lookup, list_lookup_lookup_total_lt.
Qed.
Lemma cell_ind x : (_ind _atexit0, Z.of_nat (x_ind x)) ∈ table_cells x.
Proof. do 2 right. by left. Qed.
Lemma cell_types x : (_fntypes args, x_types x) ∈ table_cells x.
Proof. rewrite table_cells_rest. unfold rest_words. do 3 right. do 3 (apply elem_of_app; right). by left. Qed.
Lemma cell_cxa x : (_is_cxa args, x_cxa x) ∈ table_cells x.
Proof. rewrite table_cells_rest. unfold rest_words. do 3 right. do 3 (apply elem_of_app; right). right. by left. Qed.
End table.

(** ** The functions *)

Lemma shift_word n : 0 <= n < 32 -> u32 (Z.shiftl 1 n) = 2 ^ n.
Proof.
  intros Hn. rewrite Z.shiftl_1_l. apply u32_small. split; [lia|].
  change 4294967296 with (2 ^ 32). apply Z.pow_lt_mono_r; lia.
Qed.

Lemma land_bit t n : 0 <= n < 32 -> (Z.land t (u32 (Z.shiftl 1 n)) =? 0) = negb (Z.testbit t n).
Proof.
  intros Hn. rewrite shift_word by done.
  assert (E : Z.land t (2 ^ n) = if Z.testbit t n then 2 ^ n else 0).
  { apply Z.bits_inj'. intros i Hi. rewrite Z.land_spec, Z.pow2_bits_eqb by lia.
    destruct (Z.eqb_spec n i) as [->|Hne].
    - rewrite andb_true_r. destruct (Z.testbit t i) eqn:Et; [by rewrite Z.pow2_bits_true|by rewrite Z.bits_0].
    - rewrite andb_false_r. destruct (Z.testbit t n); [|by rewrite Z.bits_0]. by rewrite Z.pow2_bits_false. }
  rewrite E. destruct (Z.testbit t n); cbn [negb]; [apply Z.eqb_neq; lia|done].
Qed.

Lemma lor_range a n : 0 <= a < 4294967296 -> 0 <= n < 32 -> 0 <= Z.lor a (2 ^ n) < 4294967296.
Proof.
  intros Ha Hn. split; [apply Z.lor_nonneg; lia|]. change 4294967296 with (2 ^ 32). apply Z.log2_lt_cancel.
  rewrite Z.log2_lor by lia. rewrite !Z.log2_pow2 by lia. apply Z.max_lub_lt; [|lia].
  destruct (Z.eq_dec a 0) as [->|]; [cbn; lia|]. apply Z.log2_lt_pow2; lia.
Qed.

Section functions.
Context (_atexit _atexit0 : Z).
Context {malloc free} {A : allocator malloc free}.
Implicit Types (B : gmap Z Z) (w : world) (K : list (Z * list Z)) (F : list cell) (x y : table).
Abbreviation cells := (table_cells _atexit _atexit0).
Abbreviation args := (_on_exit_args _atexit0).

Lemma wp_stores B w K x y a v F n (Q : unit -> world -> Prop) :
  state B w K (cells x ++ F) -> stores _atexit _atexit0 x y a v -> 0 <= v < 4294967296 ->
  (forall w', state B w' K (cells y ++ F) -> Q tt w') -> wp n (store32 a v) w Q.
Proof.
  intros Hw (v0 & L & E1 & E2) Hv HQ. eapply (wp_state_store_in _ _ _ _ _ v0 _ (L ++ F)); [exact Hw|by rewrite E1|done|].
  intros w' Hw'. apply HQ. by rewrite E2.
Qed.

Lemma wp_table_load B w K x a v F n (Q : Z -> world -> Prop) :
  state B w K (cells x ++ F) -> (a, v) ∈ cells x -> Q v w -> wp n (load32 a) w Q.
Proof. intros Hw Hc HQ. eapply wp_state_load; [exact Hw| |exact HQ]. apply elem_of_app. by left. Qed.

Lemma bits_range B w K x F : state B w K (cells x ++ F) -> 0 <= x_types x < 4294967296 /\ 0 <= x_cxa x < 4294967296.
Proof.
  intros Hw. split; [eapply (state_cell _ _ _ _ (_fntypes args)); [exact Hw|apply elem_of_app; left; apply cell_types]|
    eapply (state_cell _ _ _ _ (_is_cxa args)); [exact Hw|apply elem_of_app; left; apply cell_cxa]].
Qed.

(** The arguments of a registration. *)
Lemma wp_register_args B w K x F type arg d n (Q : unit -> world -> Prop) :
  state B w K (cells x ++ F) -> well_formed x -> (x_ind x < 32)%nat -> 0 <= arg < 4294967296 -> 0 <= d < 4294967296 ->
  (forall w', state B w' K (cells (
     let i := x_ind x in
     (if is_cxa type then set_cxa (Z.lor (x_cxa x) (2 ^ Z.of_nat i)) else fun x => x)
     ((if is_arg type then fun x => set_dso i d (set_types (Z.lor (x_types x) (2 ^ Z.of_nat i)) (set_arg i arg x)) else fun x => x) x)) ++ F) ->
   Q tt w') ->
  wp n (match type with
  | __et_atexit => mret tt
  | _ =>
      ind ← load32 (_ind _atexit0); store32 (_fnargs args ind) arg ;;
      t ← load32 (_fntypes args); ind ← load32 (_ind _atexit0);
      store32 (_fntypes args) (Z.lor t (u32 (Z.shiftl 1 ind))) ;;
      ind ← load32 (_ind _atexit0); store32 (_dso_handle args ind) d ;;
      match type with
      | __et_cxa =>
          t ← load32 (_is_cxa args); ind ← load32 (_ind _atexit0);
          store32 (_is_cxa args) (Z.lor t (u32 (Z.shiftl 1 ind)))
      | _ => mret tt
      end
  end) w Q.
Proof.
  intros Hw Hwf Hi Harg Hd HQ. destruct (bits_range _ _ _ _ _ Hw) as [Hb1 Hb2]. destruct Hwf as [_ H1 H2 H3].
  assert (Hone := shift_word (Z.of_nat (x_ind x)) ltac:(lia)).
  destruct type; cbn [is_arg is_cxa] in HQ; [wp_steps; by apply HQ| |];
    (wp_step; eapply wp_table_load; [exact Hw|apply cell_ind|]; wp_step;
     eapply wp_stores; [exact Hw|apply stores_arg; lia|done|]; clear w Hw; intros w Hw;
     wp_step; eapply wp_table_load; [exact Hw|apply cell_types|]; wp_step; eapply wp_table_load; [exact Hw|apply cell_ind|]; wp_step;
     eapply wp_stores; [exact Hw|apply stores_types|cbn [set_arg x_types x_ind]; rewrite Hone; by apply lor_range; [|lia]|];
     clear w Hw; intros w Hw; cbn [set_arg x_types x_ind] in Hw; rewrite Hone in Hw;
     wp_step; eapply wp_table_load; [exact Hw|apply cell_ind|]; wp_step;
     eapply wp_stores; [exact Hw|apply stores_dso; done || (cbn; lia)|done|]; clear w Hw; intros w Hw).
  - wp_steps. by apply HQ.
  - wp_step. eapply wp_table_load; [exact Hw|apply cell_cxa|]. wp_step. eapply wp_table_load; [exact Hw|apply cell_ind|].
    eapply wp_stores; [exact Hw|apply stores_cxa|cbn; rewrite Hone; by apply lor_range; [|lia]|].
    intros w' Hw'. cbn [set_dso set_types set_arg x_cxa x_ind] in Hw'. rewrite Hone in Hw'. by apply HQ.
Qed.

Lemma wp_register B w K x F type fn arg d n (Q : Z -> world -> Prop) :
  state B w K (cells x ++ F) -> well_formed x -> x_head x = 0 \/ x_head x = _atexit0 ->
  0 <= fn < 4294967296 -> 0 <= arg < 4294967296 -> 0 <= d < 4294967296 ->
  (forall w', x_ind x = 32%nat -> state B w' K (cells (set_head _atexit0 x) ++ F) -> Q (-1) w') ->
  (forall w', (x_ind x < 32)%nat -> state B w' K (cells (push _atexit0 type fn arg d x) ++ F) -> Q 0 w') ->
  wp n (__register_exitproc _atexit _atexit0 type fn arg d) w Q.
Proof.
  intros Hw Hwf Hh Hfn Harg Hd Hfull Hok. pose proof (wf_ind _ Hwf) as Hi.
  assert (H0 : 0 < _atexit0 < 1073741824).
  { eapply (state_cell _ _ _ _ _ (x_next x)); [exact Hw|]. right. by left. }
  unfold __register_exitproc. wp_step. eapply wp_table_load; [exact Hw|by left|].
  wp_step. assert (Hnext : forall w', state B w' K (cells (set_head _atexit0 x) ++ F) -> wp n (
    ind ← load32 (_ind _atexit0);
    if _ATEXIT_SIZE <=? i32 ind then mret (-1) else
    match type with
    | __et_atexit => mret tt
    | _ =>
        ind ← load32 (_ind _atexit0); store32 (_fnargs args ind) arg ;;
        t ← load32 (_fntypes args); ind ← load32 (_ind _atexit0);
        store32 (_fntypes args) (Z.lor t (u32 (Z.shiftl 1 ind))) ;;
        ind ← load32 (_ind _atexit0); store32 (_dso_handle args ind) d ;;
        match type with
        | __et_cxa =>
            t ← load32 (_is_cxa args); ind ← load32 (_ind _atexit0);
            store32 (_is_cxa args) (Z.lor t (u32 (Z.shiftl 1 ind)))
        | _ => mret tt
        end
    end ;;
    ind ← load32 (_ind _atexit0);
    store32 (_ind _atexit0) (u32 (ind + 1)) ;;
    store32 (_fns _atexit0 ind) fn ;; mret 0) w' Q).
  { clear w Hw. intros w Hw. wp_step. eapply wp_table_load; [exact Hw|apply cell_ind|]. cbn [set_head x_ind].
    rewrite i32_small by lia. unfold _ATEXIT_SIZE. wp_if; [wp_steps; apply Hfull; [b2p; lia|done]|].
    assert (Hlt : (x_ind x < 32)%nat) by (b2p; lia).
    wp_step. eapply wp_register_args; [exact Hw|by destruct Hwf|exact Hlt|done|done|]. clear w Hw. intros w Hw.
    wp_step. eapply wp_table_load; [exact Hw|apply cell_ind|]. wp_step.
    match type of Hw with state _ _ _ (table_cells _ _ ?z ++ _) => set (y := z) in * end. assert (Ei : x_ind y = x_ind x) by (by unfold y; destruct type).
    assert (Efn : length (x_fns y) = 32%nat) by (unfold y; destruct type; apply Hwf).
    rewrite Ei. rewrite u32_small by lia. replace (Z.of_nat (x_ind x) + 1) with (Z.of_nat (S (x_ind x))) by lia.
    eapply wp_stores; [exact Hw|apply stores_ind|lia|]. clear w Hw. intros w Hw. wp_step.
    eapply wp_stores; [exact Hw|apply stores_fn; cbn [set_ind x_fns]; lia|done|]. clear w Hw. intros w Hw.
    wp_steps. apply Hok; [done|]. unfold y in Hw. by destruct type. }
  destruct Hh as [Eh|Eh]; rewrite Eh.
  - change (0 =? 0) with true. wp_steps. eapply wp_stores; [exact Hw|apply stores_head|lia|].
    intros w' Hw'. wp_step. by apply Hnext.
  - rewrite (proj2 (Z.eqb_neq _ 0)) by lia. wp_step. apply Hnext.
    replace (set_head _atexit0 x) with x; [done|]. destruct x. cbn in Eh. by subst.
Qed.

Lemma wp_remove B w K x F i n (Q : unit -> world -> Prop) :
  state B w K (cells x ++ F) -> well_formed x -> (i < x_ind x)%nat ->
  (forall w', state B w' K (cells (remove i x) ++ F) -> Q tt w') ->
  wp n (ind ← load32 (_ind _atexit0);
    if Z.of_nat i =? i32 (u32 (ind - 1)) then ind ← load32 (_ind _atexit0); store32 (_ind _atexit0) (u32 (ind - 1))
    else store32 (_fns _atexit0 (Z.of_nat i)) 0) w Q.
Proof.
  intros Hw Hwf Hi HQ. destruct Hwf as [H1 H2 _ _]. wp_step. eapply wp_table_load; [exact Hw|apply cell_ind|].
  rewrite !u32_small by lia. rewrite i32_small by lia. unfold remove in HQ.
  destruct (Nat.eqb_spec (S i) (x_ind x)) as [E|E].
  - rewrite (proj2 (Z.eqb_eq _ _)) by lia. wp_step. eapply wp_table_load; [exact Hw|apply cell_ind|].
    replace (u32 (Z.of_nat (x_ind x) - 1)) with (Z.of_nat i) by (rewrite u32_small; lia).
    eapply wp_stores; [exact Hw|apply stores_ind|lia|done].
  - rewrite (proj2 (Z.eqb_neq _ _)) by lia. eapply wp_stores; [exact Hw|apply stores_fn; lia|lia|done].
Qed.

Context (call : Z -> list Z -> C unit).

Lemma wp_call_handler B w K x F code i fn n (Q : unit -> world -> Prop) :
  state B w K (cells x ++ F) -> well_formed x -> (i < 32)%nat ->
  wp n (call fn (call_args code x i)) w Q -> wp n (call_handler call code args (Z.of_nat i) fn) w Q.
Proof.
  intros Hw Hwf Hi HQ. unfold call_handler, call_args in *. pose proof (wf_args _ Hwf).
  wp_step. eapply wp_table_load; [exact Hw|apply cell_types|]. rewrite land_bit by lia.
  destruct (Z.testbit (x_types x) (Z.of_nat i)); cbn [negb]; [|exact HQ].
  wp_step. eapply wp_table_load; [exact Hw|apply cell_cxa|]. rewrite land_bit by lia.
  destruct (Z.testbit (x_cxa x) (Z.of_nat i)); cbn [negb]; wp_step;
    (eapply wp_table_load; [exact Hw|apply cell_arg; lia|exact HQ]).
Qed.

(** ** The run over the handlers *)

(** What the handlers do: [log] is what the memory of the program holds after
    some calls.  A handler may register others, which weigh less than itself. *)
Record handler_law (n : nat) (code : Z) (log : list handler -> list cell)
    (known : handler -> Prop) (registers : handler -> list handler -> Prop) (weight : handler -> nat) : Prop := {
  hl_weight : forall h new, known h -> registers h new ->
    Forall known new /\ (sum_list_with weight new < weight h)%nat;
  hl_run : forall tr x w B K h,
    state B w K (cells x ++ log tr) -> well_formed x -> x_head x = _atexit0 -> known h ->
    wp n (call (h_fn h) (h_args h)) w (fun _ w' => exists B' K' new x',
      state B' w' K' (cells x' ++ log (tr ++ [h])) /\ pushes _atexit0 code x new x' /\ registers h new);
}.

Section run.
Context (n : nat) (code d : Z) (log : list handler -> list cell) (known : handler -> Prop)
  (registers : handler -> list handler -> Prop) (weight : handler -> nat).
Context (Hlaw : handler_law n code log known registers weight).
Abbreviation unwinds := (unwinds registers).

Abbreviation total hs := (sum_list_with weight hs).

(** After the calls [tr] the table is [x]. *)
Record session (tr : list handler) (x : table) (w : world) : Prop := {
  se_state : exists B K, state B w K (cells x ++ log tr);
  se_wf : well_formed x;
  se_head : x_head x = _atexit0;
  se_known : Forall known (handlers code x);
}.

Lemma session_nonzero tr x w : session tr x w -> _atexit0 <> 0.
Proof.
  intros [(B & K & Hw) _ _ _]. assert (Hr : 0 < _atexit0 < 1073741824); [|lia].
  eapply (state_cell _ _ _ _ _ (x_next x)); [exact Hw|]. right. by left.
Qed.

Lemma wp_handlers_k m k tr x w A0 (Q : bool -> world -> Prop) :
  session tr x w -> handlers code x = A0 ++ below code x m -> Forall (fun h => matches d h = false) A0 ->
  (m <= x_ind x)%nat -> (m < k)%nat ->
  (forall (restart : bool) tr' x' w', session (tr ++ tr') x' w' -> unwinds d (handlers code x) tr' (handlers code x') ->
    (if restart then (total (handlers code x') < total (handlers code x))%nat
     else Forall (fun h => matches d h = false) (handlers code x')) -> Q restart w') ->
  wp n (loop_k k (fun n =>
    if 0 <=? n then
      skip ← (if negb (d =? 0) then h ← load32 (_dso_handle args n); mret (negb (h =? d)) else mret false);
      if (skip : bool) then next (n - 1) else
      fn ← load32 (_fns _atexit0 n);
      ind ← load32 (_ind _atexit0);
      (if n =? i32 (u32 (ind - 1)) then ind ← load32 (_ind _atexit0); store32 (_ind _atexit0) (u32 (ind - 1))
       else store32 (_fns _atexit0 n) 0) ;;
      if fn =? 0 then next (n - 1) else
      ind ← load32 (_ind _atexit0);
      call_handler call code args n fn ;;
      ind' ← load32 (_ind _atexit0);
      if negb (ind =? ind') then brk true else
      q ← load32 _atexit;
      if negb (q =? _atexit0) then brk true else next (n - 1)
    else brk false) (Z.of_nat m - 1)) w Q.
Proof.
  revert k tr x w A0. induction m as [|m IH]; intros [|k] tr x w A0 Hs Hx HA Hm Hk HQ; try lia; wp_loop.
  { change (0 <=? Z.of_nat 0 - 1) with false. wp_steps. apply (HQ false [] x); [by rewrite app_nil_r|apply unwinds_stop|]. by rewrite Hx, app_nil_r. }
  replace (Z.of_nat (S m) - 1) with (Z.of_nat m) by lia. rewrite (proj2 (Z.leb_le 0 _)) by lia.
  pose proof (session_nonzero _ _ _ Hs) as H0. destruct Hs as [(B & K & Hw) Hwf Hh Hkn].
  assert (Hi := wf_ind _ Hwf). assert (Hd := wf_dsos _ Hwf). assert (Hf := wf_fns _ Hwf).
  (* the object *)
  wp_step. assert (Hskip : forall Q' : bool -> world -> Prop,
    (negb (matches d (Handler 0 [] (x_dsos x !!! m))) = true -> Q' true w) ->
    (matches d (Handler 0 [] (x_dsos x !!! m)) = true -> Q' false w) ->
    wp n (if negb (d =? 0) then h ← load32 (_dso_handle args (Z.of_nat m)); mret (negb (h =? d)) else mret false) w Q').
  { intros Q' H1 H2. unfold matches in *. cbn [h_dso] in *. destruct (d =? 0); cbn [negb orb] in *; [wp_steps; by apply H2|].
    wp_step. eapply wp_table_load; [exact Hw|apply cell_dso; lia|]. wp_steps. destruct (x_dsos x !!! m =? d); cbn [negb] in *; auto. }
  apply Hskip; clear Hskip; intros Hmatch.
  { wp_steps. apply (IH _ tr x w (A0 ++ match place code x m with Some h => [h] | None => [] end)); [by split; eauto| |
      |lia|lia|exact HQ].
    - rewrite Hx. cbn [below]. destruct (place code x m); by rewrite <-app_assoc.
    - apply Forall_app. split; [done|]. unfold place. destruct (x_fns x !!! m =? 0); [constructor|].
      apply Forall_singleton, negb_true_iff. exact Hmatch. }
  wp_step. eapply wp_table_load; [exact Hw|apply cell_fn; lia|].
  (* the removal *)
  destruct (handlers_remove code m x Hwf ltac:(lia) ltac:(congruence)) as (A1 & E1 & E2).
  assert (A1 = A0) as ->. { rewrite Hx in E1. cbn [below] in E1. by apply app_inv_tail in E1. }
  assert (Hwf' := wf_remove m x Hwf ltac:(lia)). assert (Hh' : x_head (remove m x) = _atexit0).
  { unfold remove. by destruct (_ =? _)%nat. }
  assert (Hb : below code (remove m x) m = below code x m).
  { apply below_eq. intros i Hlt. unfold remove. destruct (_ =? _)%nat; [done|]. apply set_fn_place; [done|lia|lia]. }
  assert (Hmi : (m <= x_ind (remove m x))%nat).
  { unfold remove. destruct (Nat.eqb_spec (S m) (x_ind x)); cbn; lia. }
  apply wp_bind_assoc, wp_bind. eapply wp_remove; [exact Hw|done|lia|]. clear w Hw. intros w Hw. cbn beta.
  destruct (Z.eqb_spec (x_fns x !!! m) 0) as [Ef|Ef].
  - (* an empty place *)
    assert (Ep : place code x m = None) by (unfold place; by rewrite Ef). rewrite Ep in E1.
    assert (Eh : handlers code (remove m x) = handlers code x) by (by rewrite E1, E2).
    wp_step. apply (IH _ tr (remove m x) w A0); [split; [by eauto|done|done|by rewrite Eh]|by rewrite Hb, E2|done|done|lia|].
    by rewrite Eh.
  - assert (Ep : place code x m = Some (Handler (x_fns x !!! m) (call_args code x m) (x_dsos x !!! m))).
    { unfold place. by rewrite (proj2 (Z.eqb_neq _ 0)). }
    set (h := Handler _ _ _) in Ep. rewrite Ep in E1.
    assert (Hmh : matches d h = true) by (unfold matches in *; exact Hmatch).
    assert (Eargs : call_args code (remove m x) m = h_args h).
    { unfold remove. by destruct (_ =? _)%nat. }
    rewrite E1 in Hkn. apply Forall_app in Hkn as [Hk1 [Hkh Hk2]%Forall_cons].
    wp_step. eapply wp_table_load; [exact Hw|apply cell_ind|].
    wp_step. eapply wp_call_handler; [exact Hw|done|lia|]. rewrite Eargs. change (x_fns x !!! m) with (h_fn h).
    eapply wp_mono; [eapply (hl_run _ _ _ _ _ _ Hlaw tr); done|].
    intros _ w1 (B1 & K1 & new & x1 & Hw1 & Hp & Hreg).
    destruct (hl_weight _ _ _ _ _ _ Hlaw h new Hkh Hreg) as [Hkn1 Hwt].
    destruct (pushes_table _ _ _ _ _ Hp Hwf' Hh' H0) as (Hwf1 & Hh1 & Ei1 & Eh1). rewrite E2 in Eh1.
    assert (Hun : unwinds d (handlers code x) [h] (handlers code x1)).
    { rewrite E1, Eh1. eapply unwinds_call; [done|done|exact Hreg|apply unwinds_stop]. }
    assert (Hs1 : session (tr ++ [h]) x1 w1).
    { split; [by eauto|done|done|]. rewrite Eh1, !Forall_app. by split_and!. }
    assert (Htot : (total (handlers code x1) < total (handlers code x))%nat).
    { rewrite E1, Eh1, !sum_list_with_app. cbn [sum_list_with]. lia. }
    wp_step. eapply wp_table_load; [exact Hw1|apply cell_ind|]. rewrite Ei1.
    destruct new as [|h1 new].
    + rewrite Z.eqb_refl. cbn [negb]. wp_step. eapply wp_table_load; [exact Hw1|by left|]. rewrite Hh1, Z.eqb_refl. wp_steps.
      inversion Hp; subst x1. apply (IH _ (tr ++ [h]) (remove m x) w1 A0); [done|by rewrite Hb, E2|done|done|lia|].
      intros restart tr' x' w' Hs' Hu' Hr'. apply (HQ restart (h :: tr') x'); [by rewrite <-app_assoc in Hs'| |].
      * by apply (unwinds_app _ d _ [h] (handlers code (remove m x))).
      * destruct restart; [lia|done].
    + rewrite (proj2 (Z.eqb_neq _ _)) by (cbn [length]; lia). cbn [negb]. wp_steps. by apply (HQ true [h] x1).
Qed.

Lemma wp_call_handlers tr x w (Q : bool -> world -> Prop) :
  session tr x w -> (33 <= n)%nat ->
  (forall (restart : bool) tr' x' w', session (tr ++ tr') x' w' -> unwinds d (handlers code x) tr' (handlers code x') ->
    (if restart then (total (handlers code x') < total (handlers code x))%nat
     else Forall (fun h => matches d h = false) (handlers code x')) -> Q restart w') ->
  wp n (call_handlers call code d _atexit _atexit0) w Q.
Proof.
  intros Hs Hn HQ. pose proof (session_nonzero _ _ _ Hs) as H0.
  destruct (se_state _ _ _ Hs) as (B & K & Hw). pose proof (wf_ind _ (se_wf _ _ _ Hs)) as Hi.
  unfold call_handlers. wp_step. eapply wp_table_load; [exact Hw|apply cell_ind|].
  replace (i32 (u32 (Z.of_nat (x_ind x) - 1))) with (Z.of_nat (x_ind x) - 1).
  2: { destruct (x_ind x) as [|i]; [done|]. rewrite u32_small, i32_small; lia. }
  apply wp_loop_k, (wp_handlers_k _ _ tr x w []); [done| |done|lia|lia|exact HQ].
  unfold handlers. by rewrite (se_head _ _ _ Hs), (proj2 (Z.eqb_neq _ 0)).
Qed.

Lemma wp_exitprocs_k k tr x w (Q : unit -> world -> Prop) :
  session tr x w -> (33 <= n)%nat -> (total (handlers code x) < k)%nat ->
  (forall tr' x' w', session (tr ++ tr') x' w' -> unwinds d (handlers code x) tr' (handlers code x') ->
    Forall (fun h => matches d h = false) (handlers code x') -> Q tt w') ->
  wp n (loop_k k (fun _ : unit =>
    p ← load32 _atexit;
    let lastp := _atexit in
    if p =? 0 then brk tt else
    restart ← call_handlers call code d lastp p;
    if (restart : bool) then next tt else brk tt) tt) w Q.
Proof.
  revert tr x w. induction k as [|k IH]; intros tr x w Hs Hn Hk HQ; [lia|]. wp_loop.
  pose proof (session_nonzero _ _ _ Hs) as H0. destruct (se_state _ _ _ Hs) as (B & K & Hw).
  wp_step. eapply wp_table_load; [exact Hw|by left|]. rewrite (se_head _ _ _ Hs), (proj2 (Z.eqb_neq _ 0)) by done.
  wp_step. eapply wp_call_handlers; [exact Hs|done|]. intros [|] tr1 x1 w1 Hs1 Hu Hr; wp_step; [|by eapply HQ].
  eapply IH; [exact Hs1|done|lia|]. intros tr2 x2 w2 Hs2 Hu2 Hf. rewrite <-app_assoc in Hs2.
  eapply HQ; [exact Hs2|by eapply unwinds_app|done].
Qed.

(** All calls, from the table as it is. *)
Lemma wp_call_exitprocs B w K x (Q : unit -> world -> Prop) :
  state B w K (cells x ++ log []) -> well_formed x -> x_head x = 0 \/ x_head x = _atexit0 ->
  Forall known (handlers code x) -> (33 <= n)%nat -> (total (handlers code x) < n)%nat ->
  (forall tr x' w' B' K', state B' w' K' (cells x' ++ log tr) -> well_formed x' ->
    x_head x' = 0 \/ x_head x' = _atexit0 -> unwinds d (handlers code x) tr (handlers code x') ->
    Forall (fun h => matches d h = false) (handlers code x') -> Q tt w') ->
  wp n (__call_exitprocs _atexit call code d) w Q.
Proof.
  intros Hw Hwf Hh Hkn Hn Ht HQ. unfold __call_exitprocs. destruct Hh as [Hh|Hh].
  - apply wp_loop_k. destruct n as [|m]; [lia|]. wp_loop. wp_step. eapply wp_table_load; [exact Hw|by left|].
    rewrite Hh. change (0 =? 0) with true. wp_steps. eapply (HQ [] x); [exact Hw|done|by left|apply unwinds_stop|].
    unfold handlers. by rewrite Hh.
  - apply wp_loop_k, (wp_exitprocs_k _ [] x); [by split; eauto|done|done|].
    intros tr' x' w' [(B' & K' & Hw') Hwf' Hh' _]. eapply HQ; [exact Hw'|done|by right].
Qed.
End run.
End functions.
