(* ===== verification/Stdio.v ===== *)
(** * Output streams: stdio/findfp.c, fflush.c, makebuf.c, wsetup.c, wbuf.c,
    setvbuf.c, fvwrite.c, putc.c, fwrite.c, fputs.c, puts.c, stdio.c

    A stream is the record [FILE], passed and returned; its buffer is in the
    memory.  The functions a stream calls to reach its file take and return the
    stream too, since they change it.  Streams are used by one thread: locking is
    left out, as is [CHECK_INIT], which sets up the standard streams at the first
    use of stdio. *)

From S2P Require Import Prelude CMonad Words Memory StrScan MemCopy.

(** ** include/stdio.h, include/sys/errno.h *)

Definition __SLBF : Z := 0x0001.
Definition __SNBF : Z := 0x0002.
Definition __SRD : Z := 0x0004.
Definition __SWR : Z := 0x0008.
Definition __SRW : Z := 0x0010.
Definition __SEOF : Z := 0x0020.
Definition __SERR : Z := 0x0040.
Definition __SMBF : Z := 0x0080.
Definition __SAPP : Z := 0x0100.
Definition __SSTR : Z := 0x0200.
Definition __SOPT : Z := 0x0400.
Definition __SNPT : Z := 0x0800.
Definition __SOFF : Z := 0x1000.
Definition __SORD : Z := 0x2000.
Definition __SWID : Z := 0x2000.
Definition _IOFBF : Z := 0.
Definition _IOLBF : Z := 1.
Definition _IONBF : Z := 2.
Definition EOF : Z := -1.
Definition BUFSIZ : Z := 1024.
Definition SEEK_SET : Z := 0.
Definition SEEK_CUR : Z := 1.
Definition SEEK_END : Z := 2.

Definition EBADF : Z := 9.
Definition ENOMEM : Z := 12.
Definition ESPIPE : Z := 29.

(** include/sys/stat.h *)
Definition S_IFMT : Z := 0xf000.
Definition S_IFCHR : Z := 0x2000.
Definition S_IFREG : Z := 0x8000.

(** ** include/sys/reent.h *)

(** [struct __sbuf] and the fields of [struct __sFILE] these functions use;
    [_ubuf] and [_nbuf] are the addresses of the arrays. *)
Record __sbuf := Sbuf { _base : Z; _size : Z }.
Record FILE := File {
  _p : Z; _r : Z; _w : Z; _flags : Z; _file : Z;
  _bf : __sbuf; _lbfsize : Z; _ub : __sbuf; _up : Z; _ur : Z;
  _ubuf : Z; _nbuf : Z; _blksize : Z; _offset : Z; _flags2 : Z;
}.

Definition set_p (x : Z) (fp : FILE) : FILE :=
  File x (_r fp) (_w fp) (_flags fp) (_file fp) (_bf fp) (_lbfsize fp) (_ub fp)
    (_up fp) (_ur fp) (_ubuf fp) (_nbuf fp) (_blksize fp) (_offset fp) (_flags2 fp).
Definition set_r (x : Z) (fp : FILE) : FILE :=
  File (_p fp) x (_w fp) (_flags fp) (_file fp) (_bf fp) (_lbfsize fp) (_ub fp)
    (_up fp) (_ur fp) (_ubuf fp) (_nbuf fp) (_blksize fp) (_offset fp) (_flags2 fp).
Definition set_w (x : Z) (fp : FILE) : FILE :=
  File (_p fp) (_r fp) x (_flags fp) (_file fp) (_bf fp) (_lbfsize fp) (_ub fp)
    (_up fp) (_ur fp) (_ubuf fp) (_nbuf fp) (_blksize fp) (_offset fp) (_flags2 fp).
Definition set_flags (x : Z) (fp : FILE) : FILE :=
  File (_p fp) (_r fp) (_w fp) x (_file fp) (_bf fp) (_lbfsize fp) (_ub fp)
    (_up fp) (_ur fp) (_ubuf fp) (_nbuf fp) (_blksize fp) (_offset fp) (_flags2 fp).
Definition set_bf (x : __sbuf) (fp : FILE) : FILE :=
  File (_p fp) (_r fp) (_w fp) (_flags fp) (_file fp) x (_lbfsize fp) (_ub fp)
    (_up fp) (_ur fp) (_ubuf fp) (_nbuf fp) (_blksize fp) (_offset fp) (_flags2 fp).
Definition set_lbfsize (x : Z) (fp : FILE) : FILE :=
  File (_p fp) (_r fp) (_w fp) (_flags fp) (_file fp) (_bf fp) x (_ub fp)
    (_up fp) (_ur fp) (_ubuf fp) (_nbuf fp) (_blksize fp) (_offset fp) (_flags2 fp).
Definition set_ub (x : __sbuf) (fp : FILE) : FILE :=
  File (_p fp) (_r fp) (_w fp) (_flags fp) (_file fp) (_bf fp) (_lbfsize fp) x
    (_up fp) (_ur fp) (_ubuf fp) (_nbuf fp) (_blksize fp) (_offset fp) (_flags2 fp).
Definition set_blksize (x : Z) (fp : FILE) : FILE :=
  File (_p fp) (_r fp) (_w fp) (_flags fp) (_file fp) (_bf fp) (_lbfsize fp) (_ub fp)
    (_up fp) (_ur fp) (_ubuf fp) (_nbuf fp) x (_offset fp) (_flags2 fp).
Definition set_offset (x : Z) (fp : FILE) : FILE :=
  File (_p fp) (_r fp) (_w fp) (_flags fp) (_file fp) (_bf fp) (_lbfsize fp) (_ub fp)
    (_up fp) (_ur fp) (_ubuf fp) (_nbuf fp) (_blksize fp) x (_flags2 fp).
Definition set_flags2 (x : Z) (fp : FILE) : FILE :=
  File (_p fp) (_r fp) (_w fp) (_flags fp) (_file fp) (_bf fp) (_lbfsize fp) (_ub fp)
    (_up fp) (_ur fp) (_ubuf fp) (_nbuf fp) (_blksize fp) (_offset fp) x.

Definition flag (fp : FILE) (f : Z) : bool := negb (Z.land (_flags fp) f =? 0).
Definition set_flag (f : Z) (fp : FILE) : FILE := set_flags (Z.lor (_flags fp) f) fp.
Definition clear_flag (f : Z) (fp : FILE) : FILE := set_flags (Z.land (_flags fp) (Z.lnot f)) fp.

(** ** stdio/local.h, stdio/fvwrite.h *)

Definition HASUB (fp : FILE) : bool := negb (_base (_ub fp) =? 0).

(** [ORIENT (fp, -1)] *)
Definition ORIENT (fp : FILE) : FILE :=
  if flag fp __SORD then fp
  else set_flags2 (Z.land (_flags2 fp) (Z.lnot __SWID)) (set_flag __SORD fp).

(** [struct __siov] as base and length; [struct __suio] without the count,
    which is not used. *)
Definition __siov : Type := Z * Z.
Record __suio := Suio { uio_iov : list __siov; uio_resid : Z }.

(** A function of a stream: the result and the stream it leaves. *)
Definition F (A : Type) : Type := FILE -> C (A * FILE).

(** ** stdio/findfp.c *)

(** The standard streams.  The standard output of this build is
    [std (Z.lor __SWR __SLBF) 1]. *)
Definition std (flags file : Z) (fp : FILE) : FILE :=
  File 0 0 0 flags file (Sbuf 0 0) 0 (_ub fp)
    (_up fp) (_ur fp) (_ubuf fp) (_nbuf fp) (_blksize fp) (_offset fp) 0.

(** ** stdio/stdio.c *)

(** [_write_r] and [_lseek_r] are the calls to the system, with a descriptor. *)
Section system.
Context (_write_r : Z -> Z -> Z -> C Z) (_lseek_r : Z -> Z -> Z -> C Z).

Definition __swrite (buf n : Z) : F Z := fun fp =>
  (if flag fp __SAPP then _lseek_r (_file fp) 0 SEEK_END ;; mret tt else mret tt) ;;
  let fp := clear_flag __SOFF fp in
  w ← _write_r (_file fp) buf n;
  mret (w, fp).

Definition __sseek (offset whence : Z) : F Z := fun fp =>
  ret ← _lseek_r (_file fp) offset whence;
  if ret =? -1 then mret (ret, clear_flag __SOFF fp)
  else mret (ret, set_offset ret (set_flag __SOFF fp)).
End system.

(** The functions of a stream, [fp->_write] and [fp->_seek], are parameters; so
    are the allocator and the system's [_fstat_r], which yields [st_mode], and
    [_isatty_r]. *)
Section stdio.
Context `{build}.
Context (_write : Z -> Z -> F Z) (_seek : option (Z -> Z -> F Z)) (_seek_is___sseek : bool).
Context (malloc : Z -> C Z) (realloc : Z -> Z -> C Z) (free : Z -> C unit).
Context (_fstat_r : Z -> C (Z * Z)) (_isatty_r : Z -> C Z).

Definition FREEUB (fp : FILE) : C FILE :=
  (if negb (_base (_ub fp) =? _ubuf fp) then free (_base (_ub fp)) else mret tt) ;;
  mret (set_ub (Sbuf 0 (_size (_ub fp))) fp).

(** ** stdio/fflush.c *)

(** The seek of a stream that was read to the position of the program. *)
Definition fflush_read (seek : Z -> Z -> F Z) : F Z := fun fp =>
  '(curoff, fp) ⇐ (if flag fp __SOFF then fall (_offset fp, fp) else
    '(curoff, fp) ← seek 0 SEEK_CUR fp;
    if curoff =? -1 then
      r ← get_reent;
      if _errno r =? ESPIPE then return_ (0, fp) else return_ (EOF, set_flag __SERR fp)
    else fall (curoff, fp));
  let curoff :=
    if flag fp __SRD then i32 (i32 (curoff - _r fp) - (if HASUB fp then _ur fp else 0)) else curoff in
  '(res, fp) ← seek curoff SEEK_SET fp;
  if res =? curoff then
    let fp := set_p (_base (_bf fp)) (set_r 0 (clear_flag __SNPT fp)) in
    let fp := if flag fp __SOFF then set_offset curoff fp else fp in
    fp ← (if HASUB fp then FREEUB fp else mret fp);
    mret (0, fp)
  else mret (EOF, set_flag __SERR fp).

(** The loop that writes the buffer: [true] when all was written. *)
Definition flush_step (s : Z * Z * FILE) : C (Z * Z * FILE + bool * FILE) :=
  let '(p, n, fp) := s in
  if 0 <? n then
    '(t, fp) ← _write p n fp;
    if t <=? 0 then brk (false, fp) else next (p + t, i32 (n - t), fp)
  else brk (true, fp).

Definition _fflush_r : F Z := fun fp =>
  let t := _flags fp in
  if Z.land t __SWR =? 0 then
    let fp := set_flag __SNPT fp in
    match _seek with
    | Some seek => if (0 <? _r fp) || (0 <? _ur fp) then fflush_read seek fp else mret (0, fp)
    | None => mret (0, fp)
    end
  else
    let p := _base (_bf fp) in
    if p =? 0 then mret (0, fp) else
    let n := i32 (_p fp - p) in
    let fp := set_p p fp in
    let fp := set_w (if negb (Z.land t (Z.lor __SLBF __SNBF) =? 0) then 0 else _size (_bf fp)) fp in
    '(ok, fp) ← loop flush_step (p, n, fp);
    if ok : bool then mret (0, fp) else mret (EOF, set_flag __SERR fp).

(** ** stdio/makebuf.c *)

Definition __smakebuf_r (fp : FILE) : C FILE :=
  if flag fp __SNBF then mret (set_bf (Sbuf (_nbuf fp) 1) (set_p (_nbuf fp) fp)) else
  '(fails, st_mode) ← (if _file fp <? 0 then mret (true, 0) else
    '(r, st_mode) ← _fstat_r (_file fp); mret (r <? 0, st_mode));
  let '(couldbetty, size, fp) :=
    if fails : bool then (false, if flag fp __SMBF then 64 else BUFSIZ, set_flag __SNPT fp)
    else
      (Z.land st_mode S_IFMT =? S_IFCHR, BUFSIZ,
       if (Z.land st_mode S_IFMT =? S_IFREG) && _seek_is___sseek
       then set_blksize 1024 (set_flag __SOPT fp)
       else set_flag __SNPT fp) in
  p ← malloc size;
  if p =? 0 then
    mret (if negb (flag fp __SSTR)
          then set_bf (Sbuf (_nbuf fp) 1) (set_p (_nbuf fp) (set_flag __SNBF fp)) else fp)
  else
    let fp := set_bf (Sbuf p size) (set_p p (set_flag __SMBF fp)) in
    tty ← (if couldbetty : bool then x ← _isatty_r (_file fp); mret (negb (x =? 0)) else mret false);
    mret (if tty : bool then set_flag __SLBF fp else fp).

(** ** stdio/wsetup.c *)

Definition __swsetup_r : F Z := fun fp =>
  fp ⇐ (if flag fp __SWR then fall fp else
    if negb (flag fp __SRW) then return_ (EOF, fp) else
    fp ← (if flag fp __SRD then
            fp ← (if HASUB fp then FREEUB fp else mret fp);
            mret (set_p (_base (_bf fp)) (set_r 0 (clear_flag (Z.lor __SRD __SEOF) fp)))
          else mret fp);
    fall (set_flag __SWR fp));
  fp ← (if (_base (_bf fp) =? 0) && (negb (flag fp __SSTR) || flag fp __SMBF)
        then __smakebuf_r fp else mret fp);
  let fp :=
    if flag fp __SLBF then set_lbfsize (- _size (_bf fp)) (set_w 0 fp)
    else set_w (if flag fp __SNBF then 0 else _size (_bf fp)) fp in
  mret (if (_base (_bf fp) =? 0) && flag fp __SMBF then EOF else 0, fp).

Definition cantwrite : F bool := fun fp =>
  if negb (flag fp __SWR) || (_base (_bf fp) =? 0) then
    '(r, fp) ← __swsetup_r fp; mret (negb (r =? 0), fp)
  else mret (false, fp).

(** ** stdio/wbuf.c, putc.c *)

Definition __swbuf_r (c : Z) : F Z := fun fp =>
  let fp := set_w (_lbfsize fp) fp in
  '(cant, fp) ← cantwrite fp;
  if cant : bool then put_errno EBADF ;; mret (EOF, set_flag __SERR fp) else
  let c := u8 c in
  let fp := ORIENT fp in
  let n := i32 (_p fp - _base (_bf fp)) in
  '(n, fp) ⇐ (if _size (_bf fp) <=? n then
      '(r, fp) ← _fflush_r fp;
      if negb (r =? 0) then return_ (EOF, fp) else fall (0, fp)
    else fall (n, fp));
  let fp := set_w (i32 (_w fp - 1)) fp in
  store8 (_p fp) c ;;
  let fp := set_p (_p fp + 1) fp in
  if (n + 1 =? _size (_bf fp)) || (flag fp __SLBF && (c =? 10)) then
    '(r, fp) ← _fflush_r fp;
    if negb (r =? 0) then mret (EOF, fp) else mret (c, fp)
  else mret (c, fp).

(** The macro [__sputc_raw_r]. *)
Definition __sputc_r (c : Z) : F Z := fun fp =>
  let fp := set_w (i32 (_w fp - 1)) fp in
  if _w fp <? 0 then
    if _lbfsize fp <=? _w fp then
      store8 (_p fp) c ;;
      x ← load8 (_p fp);
      if negb (x =? 10) then
        x ← load8 (_p fp); mret (x, set_p (_p fp + 1) fp)
      else __swbuf_r 10 fp
    else __swbuf_r c fp
  else
    store8 (_p fp) c ;;
    x ← load8 (_p fp);
    mret (x, set_p (_p fp + 1) fp).

Definition _putc_r (c : Z) : F Z := __sputc_r c.

(** ** stdio/setvbuf.c *)

(** After the current buffer is written. *)
Definition setvbuf_buffer (buf mode size : Z) : F Z := fun fp =>
  let fp := set_lbfsize 0 (set_r 0 fp) in
  (if flag fp __SMBF then free (_base (_bf fp)) else mret tt) ;;
  let fp := clear_flag (Z.lor (Z.lor __SLBF __SNBF) __SMBF) fp in
  let nbf (ret : Z) (fp : FILE) :=
    return_ (ret, set_bf (Sbuf (_nbuf fp) 1) (set_p (_nbuf fp) (set_w 0 (set_flag __SNBF fp)))) in
  '(buf, size, fp) ⇐ (if mode =? _IONBF then nbf 0 fp else
    if buf =? 0 then
      let size := if size =? 0 then BUFSIZ else size in
      buf ← malloc size;
      '(ret, buf, size) ← (if buf =? 0 then buf ← malloc BUFSIZ; mret (EOF, buf, BUFSIZ)
                           else mret (0, buf, size));
      if buf =? 0 then nbf ret fp else fall (buf, size, set_flag __SMBF fp)
    else fall (buf, size, fp));
  let fp := if mode =? _IOLBF
            then set_lbfsize (if negb (buf =? 0) then i32 (- size) else 0) (set_flag __SLBF fp)
            else fp in
  let fp := set_bf (Sbuf buf (i32 size)) (set_p buf fp) in
  let fp := if flag fp __SWR
            then set_w (if negb (Z.land (_flags fp) (Z.lor __SLBF __SNBF) =? 0) then 0 else i32 size) fp
            else fp in
  mret (0, fp).

Definition setvbuf (buf mode size : Z) : F Z := fun fp =>
  if (negb (mode =? _IOFBF) && negb (mode =? _IOLBF) && negb (mode =? _IONBF)) || (i32 size <? 0)
  then mret (EOF, fp) else
  '(_, fp) ← _fflush_r fp;
  setvbuf_buffer buf mode size fp.

(** ** stdio/fvwrite.c *)

(** [GETIOV]: the next region that is not empty; [extra_work] acts on [x]. *)
Definition GETIOV {X} (extra_work : X -> X) (x : X) (p len : Z) (iov : list __siov)
    : C (X * Z * Z * list __siov) :=
  loop (fun '(x, p, len, iov) =>
    if len =? 0 then
      match iov with
      | (iov_base, iov_len) :: iov => next (extra_work x, iov_base, iov_len, iov)
      | [] => fault
      end
    else brk (x, p, len, iov)) (x, p, len, iov).

Definition COPY (fp : FILE) (p n : Z) : C unit := memmove (_p fp) p (u32 n) ;; mret tt.

(** The loop of the three kinds of buffering, on the region [p, len], the regions
    left, the bytes left and the stream; [x] is what the line buffered one keeps.
    The kinds differ in [part], which writes or copies [w] bytes of the region, or
    goes to [err].  It ends in whether all was written. *)
Definition sfv : Type := Z * Z * list __siov * Z * FILE.

Definition sfvwrite_loop {X} (extra_work : X -> X)
    (part : X -> Z -> Z -> FILE -> C (flow (X * Z * FILE) FILE))
    (s : X * sfv) : C (X * sfv + bool * Z * FILE) :=
  let '(x, (p, len, iov, resid, fp)) := s in
  '(x, p, len, iov) ← GETIOV extra_work x p len iov;
  y ← part x p len fp;
  match y with
  | Return fp => brk (false, resid, fp)
  | Fall (x, w, fp) =>
      let p := p + w in
      let len := u32 (len - w) in
      let resid := i32 (resid - w) in
      if negb (resid =? 0) then next (x, (p, len, iov, resid, fp)) else brk (true, resid, fp)
  end.

(** Unbuffered: write up to BUFSIZ bytes at a time. *)
Definition part_unbuffered (_ : unit) (p len : Z) (fp : FILE) : C (flow (unit * Z * FILE) FILE) :=
  '(w, fp) ← _write p (Z.min len BUFSIZ) fp;
  if w <=? 0 then return_ fp else fall (tt, w, fp).

(** The asprintf family enlarges the buffer of a string: [None] when there is
    no memory. *)
Definition sfvwrite_grow (len : Z) (fp : FILE) : C (option FILE) :=
  let curpos := i32 (_p fp - _base (_bf fp)) in
  let newsize := Z.quot (i32 (_size (_bf fp) * 3)) 2 in
  let newsize := if u32 newsize <? u32 (curpos + len + 1) then i32 (curpos + len + 1) else newsize in
  '(str, fp) ⇐ (if flag fp __SOPT then
      str ← malloc (u32 newsize);
      if str =? 0 then put_errno ENOMEM ;; return_ None else
      memcpy str (_base (_bf fp)) (u32 curpos) ;;
      fall (str, set_flags (Z.lor (Z.land (_flags fp) (Z.lnot __SOPT)) __SMBF) fp)
    else
      str ← realloc (_base (_bf fp)) (u32 newsize);
      if str =? 0 then free (_base (_bf fp)) ;; put_errno ENOMEM ;; return_ None
      else fall (str, fp));
  mret (Some (set_w (i32 (newsize - curpos)) (set_bf (Sbuf str newsize) (set_p (str + curpos) fp)))).

(** Output to a string. *)
Definition part_string (p len : Z) (fp : FILE) : C (flow (unit * Z * FILE) FILE) :=
  let w := _w fp in
  '(w, fp) ⟸ (if (u32 w <=? len) && negb (Z.land (_flags fp) (Z.lor __SMBF __SOPT) =? 0) then
      grown ← sfvwrite_grow len fp;
      match grown with Some fp => fall (i32 len, fp) | None => return_ fp end
    else fall (w, fp));
  let w := if len <? u32 w then i32 len else w in
  COPY fp p w ;;
  let fp := set_p (_p fp + w) (set_w (i32 (_w fp - w)) fp) in
  fall (tt, i32 len, fp).

(** Fully buffered: fill the buffer and flush it; or write directly; or fill and
    done. *)
Definition part_full (_ : unit) (p len : Z) (fp : FILE) : C (flow (unit * Z * FILE) FILE) :=
  let w := _w fp in
  if flag fp __SSTR then part_string p len fp
  else if (_base (_bf fp) <? _p fp) && (u32 w <? len) then
    COPY fp p w ;;
    let fp := set_p (_p fp + w) fp in
    '(r, fp) ← _fflush_r fp;
    if negb (r =? 0) then return_ fp else fall (tt, w, fp)
  else
    let w := _size (_bf fp) in
    if u32 w <=? len then
      '(w, fp) ← _write p w fp;
      if w <=? 0 then return_ fp else fall (tt, w, fp)
    else
      let w := i32 len in
      COPY fp p w ;;
      fall (tt, w, set_p (_p fp + w) (set_w (i32 (_w fp - w)) fp)).

(** Line buffered: the same up to a newline; [x] is [nlknown] and [nldist]. *)
Definition part_line (x : bool * Z) (p len : Z) (fp : FILE) : C (flow (bool * Z * Z * FILE) FILE) :=
  let '(nlknown, nldist) := x in
  nldist ← (if negb nlknown then
      nl ← memchr p 10 len;
      mret (if negb (nl =? 0) then i32 (nl + 1 - p) else i32 (len + 1))
    else mret nldist);
  let s := i32 (Z.min len (u32 nldist)) in
  let w := i32 (_w fp + _size (_bf fp)) in
  '(w, fp) ⟸ (if (_base (_bf fp) <? _p fp) && (w <? s) then
      COPY fp p w ;;
      let fp := set_p (_p fp + w) fp in
      '(r, fp) ← _fflush_r fp;
      if negb (r =? 0) then return_ fp else fall (w, fp)
    else
      let w := _size (_bf fp) in
      if w <=? s then
        '(w, fp) ← _write p w fp;
        if w <=? 0 then return_ fp else fall (w, fp)
      else
        let w := s in
        COPY fp p w ;;
        fall (w, set_p (_p fp + w) (set_w (i32 (_w fp - w)) fp)));
  let nldist := i32 (nldist - w) in
  if nldist =? 0 then
    '(r, fp) ← _fflush_r fp;
    if negb (r =? 0) then return_ fp else fall (false, nldist, w, fp)
  else fall (true, nldist, w, fp).

(** The result, [uio->uio_resid] and the stream. *)
Definition __sfvwrite_r (uio : __suio) (fp : FILE) : C (Z * Z * FILE) :=
  if uio_resid uio =? 0 then mret (0, uio_resid uio, fp) else
  '(cant, fp) ← cantwrite fp;
  if cant : bool then put_errno EBADF ;; mret (EOF, uio_resid uio, set_flag __SERR fp) else
  let s := (0, 0, uio_iov uio, uio_resid uio, fp) in
  '(ok, resid, fp) ←
    (if flag fp __SNBF then loop (sfvwrite_loop id part_unbuffered) (tt, s)
     else if negb (flag fp __SLBF) then loop (sfvwrite_loop id part_full) (tt, s)
     else loop (sfvwrite_loop (fun '(_, nldist) => (false, nldist)) part_line) ((false, 0), s));
  if ok : bool then mret (0, resid, fp) else mret (EOF, resid, set_flag __SERR fp).

(** ** stdio/fwrite.c, fputs.c, puts.c *)

Definition _fwrite_r (buf size count : Z) : F Z := fun fp =>
  let n := u32 (count * size) in
  let fp := ORIENT fp in
  '(r, resid, fp) ← __sfvwrite_r (Suio [(buf, n)] (i32 n)) fp;
  if r =? 0 then mret (count, fp) else mret (u32 (n - resid) / size, fp).

Definition _fputs_r (s : Z) : F Z := fun fp =>
  len ← strlen s;
  let fp := ORIENT fp in
  '(r, _, fp) ← __sfvwrite_r (Suio [(s, len)] (i32 len)) fp;
  mret (r, fp).

(** [nl] is the address of the string of a newline; the stream is [stdout]. *)
Definition _puts_r (nl s : Z) : F Z := fun fp =>
  c ← strlen s;
  let fp := ORIENT fp in
  '(r, _, fp) ← __sfvwrite_r (Suio [(s, c); (nl, 1)] (i32 (u32 (c + 1)))) fp;
  mret (if negb (r =? 0) then EOF else 10, fp).
End stdio.
