(* ===== verification/StdioSpec.v ===== *)
(** * Output streams: buffering as a refinement of writing at once

    What the library promises of a stream: the file and the buffer together hold
    what the program wrote, in order.  The file behind a stream is a class; the
    buffering is invisible but for the moment at which the file is written. *)

From S2P Require Import Prelude CMonad Words Memory StrScan MemCopy Stdio.

(** ** Flags *)

Lemma flag_set fp f g : flag (set_flag f fp) g = flag fp g || negb (Z.land f g =? 0).
Proof.
  unfold flag, set_flag. cbn [_flags set_flags]. rewrite Z.land_lor_distr_l.
  destruct (Z.eqb_spec (Z.land (_flags fp) g) 0) as [->|H1]; [done|].
  destruct (Z.eqb_spec (Z.lor (Z.land (_flags fp) g) (Z.land f g)) 0) as [[? _]%Z.lor_eq_0_iff|]; done.
Qed.

Lemma flag_clear fp f g : Z.land f g = 0 -> flag (clear_flag f fp) g = flag fp g.
Proof.
  intros H. unfold flag, clear_flag. cbn [_flags set_flags]. do 2 f_equal.
  rewrite <-Z.land_assoc. f_equal. apply Z.bits_inj'. intros i Hi.
  apply (f_equal (fun x => Z.testbit x i)) in H. revert H.
  rewrite !Z.land_spec, Z.lnot_spec, Z.bits_0 by done.
  by destruct (Z.testbit f i), (Z.testbit g i).
Qed.

Lemma flag_cleared fp f g : Z.land f g = g -> flag (clear_flag f fp) g = false.
Proof.
  intros H. unfold flag, clear_flag. cbn [_flags set_flags]. apply negb_false_iff, Z.eqb_eq.
  apply Z.bits_inj'. intros i Hi. apply (f_equal (fun x => Z.testbit x i)) in H. revert H.
  rewrite !Z.land_spec, Z.lnot_spec, Z.bits_0 by done.
  by destruct (Z.testbit (_flags fp) i), (Z.testbit f i), (Z.testbit g i).
Qed.

(** Two streams agree on what output depends on. *)
Record alike (fp fp' : FILE) : Prop := {
  alike_p : _p fp' = _p fp;
  alike_w : _w fp' = _w fp;
  alike_bf : _bf fp' = _bf fp;
  alike_lbfsize : _lbfsize fp' = _lbfsize fp;
  alike_file : _file fp' = _file fp;
  alike_nbuf : _nbuf fp' = _nbuf fp;
  alike_flags : Forall (fun g => flag fp' g = flag fp g) [__SWR; __SSTR; __SNBF; __SLBF; __SMBF];
}.

#[export] Instance alike_preorder : PreOrder alike.
Proof.
  split.
  - intros fp. split; [done..|]. by rewrite Forall_forall.
  - intros fp1 fp2 fp3 [? ? ? ? ? ? H] [? ? ? ? ? ? H']. split; [congruence..|].
    rewrite Forall_forall in *. intros g Hg. by rewrite H', H.
Qed.

Lemma alike_flag fp fp' g : alike fp fp' -> g ∈ [__SWR; __SSTR; __SNBF; __SLBF; __SMBF] ->
  flag fp' g = flag fp g.
Proof. intros [_ _ _ _ _ _ H]. rewrite Forall_forall in H. apply H. Qed.

Lemma alike_set f fp : Forall (fun g => Z.land f g = 0) [__SWR; __SSTR; __SNBF; __SLBF; __SMBF] ->
  alike fp (set_flag f fp).
Proof.
  intros H. split; [done..|]. eapply Forall_impl; [exact H|]. intros g Hg.
  cbv beta in Hg. by rewrite flag_set, Hg, orb_false_r.
Qed.

Lemma alike_clear f fp : Forall (fun g => Z.land f g = 0) [__SWR; __SSTR; __SNBF; __SLBF; __SMBF] ->
  alike fp (clear_flag f fp).
Proof.
  intros H. split; [done..|]. eapply Forall_impl; [exact H|]. intros g Hg. by apply flag_clear.
Qed.

Lemma alike_ORIENT fp : alike fp (ORIENT fp).
Proof.
  unfold ORIENT. destruct (flag fp __SORD); [done|].
  trans (set_flag __SORD fp); [by apply alike_set; repeat constructor|]. split; [done..|].
  by rewrite Forall_forall.
Qed.

(** ** The file behind a stream *)

(** A write takes some of the bytes, or fails and takes none. *)
Class writer (write : Z -> Z -> F Z) := {
  written_to : Z -> io -> list Z;
  write_fuel : nat;
  wp_write n p l fp w (Q : Z * FILE -> world -> Prop) :
    (write_fuel <= n)%nat -> mem_ok (w_mem w) -> bytes (w_mem w) p l -> l <> [] ->
    (forall t fp' w', alike fp fp' -> w_mem w' = w_mem w -> t <= 0 ->
      written_to (_file fp) (w_io w') = written_to (_file fp) (w_io w) -> Q (t, fp') w') ->
    (forall k fp' w', alike fp fp' -> w_mem w' = w_mem w -> (0 < k <= length l)%nat ->
      written_to (_file fp) (w_io w') = written_to (_file fp) (w_io w) ++ take k l ->
      Q (Z.of_nat k, fp') w') ->
    wp n (write p (zlen l) fp) w Q;
}.

(** The system's descriptors, and the streams that use them. *)
Class descriptors (_write_r : Z -> Z -> Z -> C Z) (_lseek_r : Z -> Z -> Z -> C Z) := {
  contents : Z -> io -> list Z;
  system_fuel : nat;
  wp_write_r n fd p l w (Q : Z -> world -> Prop) :
    (system_fuel <= n)%nat -> mem_ok (w_mem w) -> bytes (w_mem w) p l -> l <> [] ->
    (forall t w', w_mem w' = w_mem w -> t <= 0 -> contents fd (w_io w') = contents fd (w_io w) ->
      Q t w') ->
    (forall k w', w_mem w' = w_mem w -> (0 < k <= length l)%nat ->
      contents fd (w_io w') = contents fd (w_io w) ++ take k l -> Q (Z.of_nat k) w') ->
    wp n (_write_r fd p (zlen l)) w Q;
  wp_lseek_r n fd offset whence w (Q : Z -> world -> Prop) :
    (system_fuel <= n)%nat ->
    (forall r w', w_mem w' = w_mem w -> contents fd (w_io w') = contents fd (w_io w) -> Q r w') ->
    wp n (_lseek_r fd offset whence) w Q;
}.

#[export, refine] Instance __swrite_writer {_write_r _lseek_r}
    (D : descriptors _write_r _lseek_r) : writer (__swrite _write_r _lseek_r) := {
  written_to := contents;
  write_fuel := system_fuel;
}.
Proof.
  intros n p l fp w Q Hn Hm Hl Hne H0 Hk. unfold __swrite. wp_step.
  assert (Hrest : forall w1, w_mem w1 = w_mem w ->
    contents (_file fp) (w_io w1) = contents (_file fp) (w_io w) ->
    wp n (_write_r (_file (clear_flag __SOFF fp)) p (zlen l)) w1
      (fun t w' => wp n (mret (t, clear_flag __SOFF fp)) w' Q)).
  { intros w1 Hm1 Hc1. cbn [_file clear_flag set_flags].
    apply wp_write_r; [done|by rewrite Hm1|by rewrite Hm1|done|..].
    - intros t w' Hm' Ht Hc'. wp_steps. apply H0; [by apply alike_clear; repeat constructor|congruence|done|congruence].
    - intros k w' Hm' Ht Hc'. wp_steps. apply Hk; [by apply alike_clear; repeat constructor|congruence|done|congruence]. }
  destruct (flag fp __SAPP); wp_steps; [|by apply Hrest].
  apply wp_lseek_r; [done|]. intros r w1 Hm1 Hc1. wp_steps. by apply Hrest.
Defined.

(** ** Streams being written *)

Inductive buffer_mode := Unbuffered | LineBuffered | FullyBuffered.

Definition buffering (fp : FILE) : buffer_mode :=
  if flag fp __SNBF then Unbuffered else if flag fp __SLBF then LineBuffered else FullyBuffered.

Lemma buffering_flags fp :
  match buffering fp with
  | Unbuffered => flag fp __SNBF = true
  | LineBuffered => flag fp __SNBF = false /\ flag fp __SLBF = true
  | FullyBuffered => flag fp __SNBF = false /\ flag fp __SLBF = false
  end.
Proof. unfold buffering. by destruct (flag fp __SNBF), (flag fp __SLBF). Qed.

Abbreviation base fp := (_base (_bf fp)).
Abbreviation size fp := (_size (_bf fp)).

(** [pend] is what the buffer holds for the file. *)
Record buffered (fp : FILE) (m : mem) (pend : list Z) : Prop := {
  wr_open : flag fp __SWR = true;
  wr_file : flag fp __SSTR = false;
  wr_size : 0 < size fp;
  wr_mapped : mapped m (base fp) (size fp);
  wr_bytes : bytes m (base fp) pend;
  wr_p : _p fp = base fp + zlen pend;
  wr_len : zlen pend <= size fp;
  wr_lbfsize : _lbfsize fp = match buffering fp with LineBuffered => - size fp | _ => 0 end;
  wr_unbuf : buffering fp = Unbuffered -> size fp = 1 /\ flag fp __SLBF = false;
}.

(** Between two operations, the room left in the buffer is in [_w], and a line
    buffered stream has no line to write. *)
Definition settled (fp : FILE) (pend : list Z) : Prop :=
  match buffering fp with
  | Unbuffered => pend = []
  | LineBuffered => 10 ∉ pend
  | FullyBuffered => True
  end.
Definition room (fp : FILE) (k : Z) : Z :=
  match buffering fp with FullyBuffered => size fp - k | _ => - k end.

Record writing (fp : FILE) (m : mem) (pend : list Z) : Prop := {
  wr_buffered : buffered fp m pend;
  wr_settled : settled fp pend;
  wr_w : _w fp = room fp (zlen pend);
}.

(** The distance past the first newline. *)
Fixpoint line_dist (l : list Z) : nat :=
  match l with [] => 1 | b :: l' => if b =? 10 then 1 else S (line_dist l') end.

Lemma line_dist_range l : (0 < line_dist l <= S (length l))%nat.
Proof. induction l as [|b l IH]; cbn; [lia|]. destruct (b =? 10); lia. Qed.

Lemma line_dist_drop k l : (k < line_dist l)%nat -> (k <= length l)%nat ->
  line_dist (drop k l) = (line_dist l - k)%nat /\ 10 ∉ take k l.
Proof.
  revert l. induction k as [|k IH]; intros l Hk Hl; [rewrite drop_0, take_0; split; [lia|set_solver]|].
  destruct l as [|b l]; cbn in *; [lia|]. destruct (b =? 10) eqn:E; b2p; [lia|].
  destruct (IH l) as [H1 H2]; [lia..|]. split; [lia|]. set_solver.
Qed.

Lemma line_dist_ptr p l : 0 < p ->
  (if negb (find_ptr p (fun b => b =? 10) l =? 0) then find_ptr p (fun b => b =? 10) l + 1 - p
   else zlen l + 1) = Z.of_nat (line_dist l).
Proof.
  intros Hp. unfold find_ptr.
  assert (H : match find_idx (fun b => b =? 10) l with
    | Some k => line_dist l = S k | None => line_dist l = S (length l) end).
  { induction l as [|b l IH]; [done|]. cbn. destruct (b =? 10); [done|].
    destruct (find_idx (fun b => b =? 10) l); simpl in *; lia. }
  destruct (find_idx (fun b => b =? 10) l) as [k|]; rewrite H.
  - rewrite (proj2 (Z.eqb_neq _ _)) by lia. cbn. lia.
  - change (0 =? 0) with true. cbn. lia.
Qed.

(** What an operation may change: the contents of the buffer, and the file,
    which only grows. *)
Section spec.
Context {_write} {W : writer _write}.
Implicit Types (n : nat) (w : world) (fp : FILE) (m : mem) (pend data l : list Z).

Definition file fp w : list Z := written_to (_file fp) (w_io w).

Record step fp w fp' w' : Prop := {
  step_bf : _bf fp' = _bf fp;
  step_file : _file fp' = _file fp;
  step_nbuf : _nbuf fp' = _nbuf fp;
  step_own : flag fp' __SMBF = flag fp __SMBF;
  step_buffering : buffering fp' = buffering fp;
  step_mem : exists l, zlen l = size fp /\ Forall (fun b => is_byte b) l /\
    w_mem w' = store_bytes (base fp) l (w_mem w);
  step_grows : file fp w `prefix_of` file fp' w';
}.

(** A write in the buffer, as new contents of the whole buffer. *)
Lemma store_within m b z k l : mem_ok m -> mapped m b z -> 0 <= k -> k + zlen l <= z ->
  Forall (fun b => is_byte b) l ->
  exists l', zlen l' = z /\ Forall (fun b => is_byte b) l' /\
    store_bytes (b + k) l m = store_bytes b l' m.
Proof.
  intros Hm Hmap Hk Hz Hl. destruct (mapped_bytes m b z) as (old & Ho & Hb); [lia|done|].
  assert (Hby := mem_ok_bytes _ _ _ Hm Hb). set (i := Z.to_nat k).
  rewrite <-(take_drop i old) in Hb. apply bytes_app in Hb as [Hb1 Hb2].
  rewrite <-(take_drop (length l) (drop i old)) in Hb2. apply bytes_app in Hb2 as [_ Hb2].
  assert (Hi : length (take i old) = i) by (rewrite length_take_le; lia).
  rewrite Hi, (length_take_le (drop i old)) in Hb2 by (rewrite length_drop; lia).
  replace (b + Z.of_nat i) with (b + k) in Hb2 by lia. rewrite drop_drop in Hb2.
  exists (take i old ++ l ++ drop (i + length l) old). split_and!.
  - rewrite !length_app, Hi, length_drop. lia.
  - rewrite !Forall_app. split_and!; [by apply Forall_take|done|by apply Forall_drop].
  - rewrite !store_bytes_app, (store_bytes_id b (take i old) m) by done.
    rewrite Hi. replace (b + Z.of_nat i) with (b + k) by lia.
    symmetry. apply store_bytes_id, bytes_store_out; [done|]. unfold disjoint_ranges. lia.
Qed.

Lemma bytes_len m p l : mem_ok m -> bytes m p l -> zlen l < 1073741824.
Proof.
  intros Hm Hl. destruct l as [|b l]; [cbn; lia|]. apply mem_ok_range in Hl; [cbn in *; lia|done..].
Qed.

Lemma buffered_range fp m pend : mem_ok m -> buffered fp m pend ->
  0 < base fp /\ base fp + size fp <= 1073741824.
Proof.
  intros Hm H. pose proof (wr_size _ _ _ H). pose proof (wr_mapped _ _ _ H) as Hmap.
  destruct (Hmap (base fp)) as [b Hb]; [lia|]. destruct (Hmap (base fp + size fp - 1)) as [c Hc]; [lia|].
  apply (mem_ok_cell _ _ _ Hm) in Hb, Hc. lia.
Qed.

Lemma step_refl fp w : mem_ok (w_mem w) -> 0 <= size fp -> mapped (w_mem w) (base fp) (size fp) ->
  step fp w fp w.
Proof.
  intros Hm Hs Hmap. split; [done..| |done]. destruct (mapped_bytes _ _ _ Hs Hmap) as (l & Hl & Hb).
  exists l. split_and!; [done|by eapply mem_ok_bytes|by rewrite store_bytes_id].
Qed.

Lemma step_trans fp1 w1 fp2 w2 fp3 w3 :
  step fp1 w1 fp2 w2 -> step fp2 w2 fp3 w3 -> step fp1 w1 fp3 w3.
Proof.
  intros [Hb Hf Hn Ho Hm (l & Hl & Hby & E) Hg] [Hb' Hf' Hn' Ho' Hm' (l' & Hl' & Hby' & E') Hg'].
  split; [congruence..| |by etrans]. exists l'. rewrite Hb in *. split_and!; [done..|].
  rewrite E', E. apply store_bytes_over. lia.
Qed.

(** After an operation the stream holds [s], partly in the buffer. *)
Definition holding (s : list Z) fp w : Prop :=
  mem_ok (w_mem w) /\ exists pend, writing fp (w_mem w) pend /\ file fp w ++ pend = s.

(** An operation that adds [data] to [s] succeeds with [r]; or it fails, and
    some of the data is lost. *)
Definition outcome_ok (s : list Z) fp w fp' w' : Prop := step fp w fp' w' /\ holding s fp' w'.

Definition outcome_lost (s : list Z) fp w fp' w' : Prop :=
  step fp w fp' w' /\ exists s', s' `prefix_of` s /\ holding s' fp' w'.

Definition outcome_err (s : list Z) fp w fp' w' : Prop :=
  outcome_lost s fp w fp' w' /\ flag fp' __SERR = true.

(** Both ways in which an operation that yields [r] may end. *)
Record post (s : list Z) (r : Z) fp w (Q : Z * FILE -> world -> Prop) : Prop := {
  post_ok fp' w' : outcome_ok s fp w fp' w' -> Q (r, fp') w';
  post_err fp' w' : outcome_err s fp w fp' w' -> Q (EOF, fp') w';
}.

Lemma post_step s r fp w fp1 w1 Q : step fp w fp1 w1 -> post s r fp w Q -> post s r fp1 w1 Q.
Proof.
  intros Hs [H1 H2]. split; intros fp' w'.
  - intros [Hs' H]. apply H1. split; [by eapply step_trans|done].
  - intros ((Hs' & H) & He). apply H2. split; [split; [by eapply step_trans|]|]; done.
Qed.

(** Streams that are alike. *)
Lemma alike_buffering fp fp' : alike fp fp' -> buffering fp' = buffering fp.
Proof. intros H. unfold buffering. by rewrite !(alike_flag fp fp') by (done || set_solver). Qed.

Lemma alike_buffered fp fp' m pend : alike fp fp' -> buffered fp m pend -> buffered fp' m pend.
Proof.
  intros H []. pose proof (alike_buffering _ _ H) as E. pose proof H as [E1 E2 E3 E4 _ _ _].
  split; rewrite ?E1, ?E3, ?E4, ?E, ?(alike_flag fp fp') by (done || set_solver); done.
Qed.

Lemma alike_writing fp fp' m pend : alike fp fp' -> writing fp m pend -> writing fp' m pend.
Proof.
  intros H [Hb Hs Hw]. unfold settled, room in *.
  split; [by eapply alike_buffered|unfold settled|unfold room];
    by rewrite (alike_buffering _ _ H), ?(alike_w _ _ H), ?(alike_bf _ _ H).
Qed.

Lemma alike_step fp w fp1 fp2 w' : alike fp1 fp2 -> step fp w fp1 w' -> step fp w fp2 w'.
Proof.
  intros H [E1 E2 E3 E4 E5 E6 E7]. split; [..|done|].
  - by rewrite (alike_bf _ _ H).
  - by rewrite (alike_file _ _ H).
  - by rewrite (alike_nbuf _ _ H).
  - by rewrite (alike_flag _ _ _ H) by set_solver.
  - by rewrite (alike_buffering _ _ H).
  - unfold file in *. by rewrite (alike_file _ _ H).
Qed.

(** ** fflush *)

Lemma wp_flush_k n k p l fp w (Q : bool * FILE -> world -> Prop) :
  (write_fuel <= n)%nat -> (length l < k)%nat -> mem_ok (w_mem w) -> bytes (w_mem w) p l ->
  (forall fp' w', alike fp fp' -> w_mem w' = w_mem w -> file fp w' = file fp w ++ l ->
    Q (true, fp') w') ->
  (forall j fp' w', alike fp fp' -> w_mem w' = w_mem w -> file fp w' = file fp w ++ take j l ->
    Q (false, fp') w') ->
  wp n (loop_k k (flush_step _write) (p, zlen l, fp)) w Q.
Proof.
  revert p l fp w. induction k as [|k IH]; intros p l fp w Hn Hk Hm Hl HT HF; [lia|].
  assert (Hlen := bytes_len _ _ _ Hm Hl).
  wp_loop. unfold flush_step at 1. destruct (0 <? zlen l) eqn:E.
  - assert (l <> []) by (intros ->; blia). wp_step. apply wp_write; [done..| |].
    + intros t fp' w' Hs Hm' Ht Hf. rewrite (proj2 (Z.leb_le _ _)) by lia. wp_steps.
      apply (HF 0%nat); [done..|]. by rewrite take_0, app_nil_r.
    + intros j fp' w' Hs Hm' Hj Hf. rewrite (proj2 (Z.leb_gt _ _)) by lia. wp_steps.
      rewrite i32_small by lia. rewrite <-(take_drop j l) in Hl. apply bytes_app in Hl as [_ Hl].
      rewrite length_take_le in Hl by lia.
      assert (Ef := alike_file _ _ Hs).
      replace (zlen l - Z.of_nat j) with (zlen (drop j l)) by (rewrite length_drop; lia).
      apply IH; [done|rewrite length_drop; lia|by rewrite Hm'|by rewrite Hm'|..];
        unfold file in *; rewrite Ef, Hf.
      * intros fp2 w2 Hs2 Hm2 Hf2. apply HT; [by etrans|congruence|].
        by rewrite Hf2, <-app_assoc, take_drop.
      * intros i fp2 w2 Hs2 Hm2 Hf2. apply (HF (j + i)%nat); [by etrans|congruence|].
        by rewrite Hf2, <-app_assoc, take_take_drop.
  - destruct l; [|exfalso; blia]. wp_steps. apply HT; [done..|]. by rewrite app_nil_r.
Qed.

(** What [fflush] sets before it writes. *)
Lemma flush_mode fp :
  negb (Z.land (_flags fp) (Z.lor __SLBF __SNBF) =? 0) =
  match buffering fp with FullyBuffered => false | _ => true end.
Proof.
  unfold buffering, flag. rewrite Z.land_lor_distr_r.
  destruct (Z.eqb_spec (Z.land (_flags fp) __SNBF) 0) as [->|E1]; cbn [negb].
  - rewrite Z.lor_0_r. by destruct (_ =? 0).
  - by destruct (Z.eqb_spec (Z.lor (Z.land (_flags fp) __SLBF) (Z.land (_flags fp) __SNBF)) 0)
      as [[_ ?]%Z.lor_eq_0_iff|].
Qed.

Definition reset fp : FILE :=
  set_w (match buffering fp with FullyBuffered => size fp | _ => 0 end) (set_p (base fp) fp).

Lemma reset_writing fp m pend : buffered fp m pend -> writing (reset fp) m [].
Proof.
  intros []. split; [split| |]; try done; cbn; try lia.
  - unfold settled. change (buffering (reset fp)) with (buffering fp).
    destruct (buffering fp); [done|set_solver|done].
  - unfold room. change (buffering (reset fp)) with (buffering fp). destruct (buffering fp); cbn; lia.
Qed.

Context (seek : option (Z -> Z -> F Z)) (free : Z -> C unit).

Lemma wp_fflush n fp pend w (Q : Z * FILE -> world -> Prop) :
  (write_fuel <= n)%nat -> size fp < Z.of_nat n -> mem_ok (w_mem w) -> buffered fp (w_mem w) pend ->
  (forall fp' w', step fp w fp' w' -> w_mem w' = w_mem w -> writing fp' (w_mem w') [] ->
    file fp' w' = file fp w ++ pend -> Q (0, fp') w') ->
  (forall j fp' w', step fp w fp' w' -> w_mem w' = w_mem w -> writing fp' (w_mem w') [] ->
    flag fp' __SERR = true -> file fp' w' = file fp w ++ take j pend -> Q (EOF, fp') w') ->
  wp n (_fflush_r _write seek free fp) w Q.
Proof.
  intros Hn Hsz Hm Hb HT HF. assert (Hrange := buffered_range _ _ _ Hm Hb).
  pose proof Hb as []. unfold _fflush_r.
  unfold flag in wr_open0. apply negb_true_iff in wr_open0. rewrite wr_open0.
  rewrite (proj2 (Z.eqb_neq _ _)) by lia. rewrite flush_mode, wr_p0.
  rewrite i32_small by lia. replace (base fp + zlen pend - base fp) with (zlen pend) by lia.
  assert (Hreset : set_w (if match buffering fp with FullyBuffered => false | _ => true end
      then 0 else _size (_bf (set_p (base fp) fp))) (set_p (base fp) fp) = reset fp)
    by (unfold reset; by destruct (buffering fp)).
  rewrite Hreset.
  assert (Hstep : forall fp' w', alike (reset fp) fp' -> w_mem w' = w_mem w ->
    file fp w `prefix_of` file fp' w' -> step fp w fp' w').
  { intros fp' w' Ha Hm' Hg. eapply (alike_step _ _ (reset fp)); [done|].
    assert (Hr := step_refl fp w Hm ltac:(lia) wr_mapped0). destruct Hr as [_ _ _ _ _ (l & Hl & Hby & E) _].
    split; [done..| |]; [exists l; by rewrite Hm'|].
    unfold file in *. by rewrite (alike_file _ _ Ha) in Hg. }
  assert (Hw : forall fp', alike (reset fp) fp' -> writing fp' (w_mem w) []).
  { intros fp' Ha. eapply alike_writing; [exact Ha|]. by eapply reset_writing. }
  wp_step. apply wp_loop_k, wp_flush_k; [done|lia|done..| |].
  - intros fp' w' Ha Hm' Hf. wp_steps. change (file (reset fp)) with (file fp) in Hf.
    assert (Hf' : file fp' w' = file fp w ++ pend).
    { unfold file in *. by rewrite (alike_file _ _ Ha). }
    apply HT; [apply Hstep; [done..|by exists pend]|done|by rewrite Hm'; apply Hw|done].
  - intros j fp' w' Ha Hm' Hf. wp_steps. change (file (reset fp)) with (file fp) in Hf.
    assert (Ha' : alike (reset fp) (set_flag __SERR fp')).
    { trans fp'; [done|]. by apply alike_set; repeat constructor. }
    assert (Hf' : file (set_flag __SERR fp') w' = file fp w ++ take j pend).
    { unfold file in *. by rewrite (alike_file _ _ Ha'). }
    apply (HF j); [apply Hstep; [done..|by eexists]|done|by rewrite Hm'; apply Hw| |done].
    rewrite flag_set. by apply orb_true_r.
Qed.

(** In the terms of [post]: the buffer is lost when the file fails. *)
Lemma wp_fflush_then n fp pend w r (Q : Z * FILE -> world -> Prop) :
  (write_fuel <= n)%nat -> size fp < Z.of_nat n -> mem_ok (w_mem w) -> buffered fp (w_mem w) pend ->
  post (file fp w ++ pend) r fp w Q ->
  wp n ('(x, fp) ← _fflush_r _write seek free fp;
        if negb (x =? 0) then mret (EOF, fp) else mret (r, fp)) w Q.
Proof.
  intros Hn Hsz Hm Hb [H1 H2]. wp_step. eapply wp_fflush; [done..| |].
  - intros fp' w' Hs Hm' Hw Hf. change (0 =? 0) with true. wp_steps.
    apply H1. split; [done|]. split; [by rewrite Hm'|]. exists []. split; [done|]. by rewrite app_nil_r.
  - intros j fp' w' Hs Hm' Hw He Hf. change (EOF =? 0) with false. wp_steps.
    apply H2. split; [split; [done|]|done]. exists (file fp w ++ take j pend).
    split; [apply prefix_app, prefix_take|]. split; [by rewrite Hm'|]. exists [].
    split; [done|]. by rewrite app_nil_r.
Qed.

(** ** putc *)

Lemma buffered_w fp m pend x : buffered fp m pend -> buffered (set_w x fp) m pend.
Proof. by intros []. Qed.

Lemma step_w fp w fp' w' x : step fp w fp' w' -> step fp w (set_w x fp') w'.
Proof. by intros []. Qed.

(** Bytes added to the buffer. *)
Definition filled (l : list Z) (fp : FILE) : FILE := set_p (_p fp + zlen l) fp.

Lemma filled_buffered fp m pend l : buffered fp m pend -> zlen pend + zlen l <= size fp ->
  buffered (filled l fp) (store_bytes (_p fp) l m) (pend ++ l).
Proof.
  intros [] Hl. split; try done; cbn.
  - by apply mapped_store.
  - rewrite wr_p0. apply bytes_app. split; [|apply bytes_store_same].
    apply bytes_store_out; [done|]. unfold disjoint_ranges. lia.
  - rewrite length_app. lia.
  - rewrite length_app. lia.
Qed.

Lemma filled_step fp w pend l : mem_ok (w_mem w) -> buffered fp (w_mem w) pend ->
  zlen pend + zlen l <= size fp -> Forall (fun b => is_byte b) l ->
  step fp w (filled l fp) (written (_p fp) l w).
Proof.
  intros Hm [] Hl Hby. split; [done..| |done].
  destruct (store_within (w_mem w) (base fp) (size fp) (zlen pend) l) as (l' & ?); [done|done|lia..|done|].
  exists l'. rewrite wr_p0. naive_solver.
Qed.

Lemma filled_ok fp w pend l : mem_ok (w_mem w) -> buffered fp (w_mem w) pend ->
  zlen pend + zlen l <= size fp -> Forall (fun b => is_byte b) l ->
  mem_ok (w_mem (written (_p fp) l w)).
Proof.
  intros Hm [] Hl Hby. apply mem_ok_store; [done| |done]. rewrite wr_p0.
  eapply mapped_sub; [done|lia..].
Qed.

(** The end of [__swbuf_r], where the buffer has room. *)
Lemma wp_swbuf_put n c fp pend w (Q : Z * FILE -> world -> Prop) :
  (write_fuel <= n)%nat -> size fp < Z.of_nat n -> mem_ok (w_mem w) -> is_byte c ->
  buffered fp (w_mem w) pend -> zlen pend < size fp -> settled fp pend ->
  (writing fp (w_mem w) pend \/ (c = 10 /\ buffering fp = LineBuffered) \/ buffering fp = Unbuffered) ->
  post (file fp w ++ pend ++ [c]) c fp w Q ->
  wp n (store8 (_p fp) c) w (fun _ w =>
    wp n (let fp := set_p (_p fp + 1) (set_w (i32 (_w fp - 1)) fp) in
          if (zlen pend + 1 =? size fp) || (flag fp __SLBF && (c =? 10)) then
            '(r, fp) ← _fflush_r _write seek free fp;
            if negb (r =? 0) then mret (EOF, fp) else mret (c, fp)
          else mret (c, fp)) w Q).
Proof.
  intros Hn Hsz Hm Hc Hb Hk Hset Hw HQ. cbv zeta.
  assert (Hby : Forall (fun b => is_byte b) [c]) by by constructor.
  apply wp_store8.
  { pose proof Hb as []. rewrite wr_p0. apply wr_mapped0. lia. }
  rewrite u8_small by done. set (x := i32 (_w fp - 1)).
  change (set_p (_p fp + 1) (set_w x fp)) with (filled [c] (set_w x fp)).
  change (set_mem (<[_p fp := c]> (w_mem w)) w) with (written (_p fp) [c] w).
  pose proof (buffered_w _ _ _ x (filled_buffered fp (w_mem w) pend [c] Hb ltac:(cbn; lia))) as Hb'.
  pose proof (filled_ok fp w pend [c] Hm Hb ltac:(cbn; lia) Hby) as Hm'.
  pose proof (post_step _ _ _ _ _ _ _
    (step_w _ _ _ _ x (filled_step fp w pend [c] Hm Hb ltac:(cbn; lia) Hby)) HQ) as HQ'.
  change (set_w x (filled [c] fp)) with (filled [c] (set_w x fp)) in Hb', HQ'.
  change (flag (filled [c] (set_w x fp)) __SLBF) with (flag fp __SLBF).
  change (size (filled [c] (set_w x fp))) with (size fp).
  destruct ((zlen pend + 1 =? size fp) || flag fp __SLBF && (c =? 10)) eqn:E.
  - eapply wp_fflush_then; done.
  - apply orb_false_iff in E as [E1 E2]. apply Z.eqb_neq in E1.
    wp_steps. apply HQ'. split; [by apply step_refl; [|pose proof Hb' as []; lia|apply Hb']|].
    split; [done|]. exists (pend ++ [c]). split; [|done].
    assert (Hm2 : buffering fp <> Unbuffered).
    { intros Eu. apply (wr_unbuf _ _ _ Hb) in Eu as [Eu _]. lia. }
    assert (Hc10 : buffering fp = LineBuffered -> c <> 10).
    { intros El. pose proof (buffering_flags fp) as Hf. rewrite El in Hf. destruct Hf as [_ Hf].
      rewrite Hf in E2. cbn in E2. lia. }
    destruct Hw as [Hw|[[? ?]|?]]; [|naive_solver..]. split; [done|..].
    + unfold settled in *. change (buffering (filled [c] (set_w x fp))) with (buffering fp).
      destruct (buffering fp); [done|set_solver|done].
    + assert (Ew := wr_w _ _ _ Hw). pose proof (buffered_range _ _ _ Hm Hb).
      unfold room in *. change (buffering (filled [c] (set_w x fp))) with (buffering fp).
      cbn [filled set_p set_w _w _bf]. subst x. rewrite Ew, length_app. cbn [length].
      destruct (buffering fp); [done|rewrite i32_small; lia..].
Qed.

Lemma step_buffered fp w pend : mem_ok (w_mem w) -> buffered fp (w_mem w) pend -> step fp w fp w.
Proof. intros Hm []. apply step_refl; [done|lia|done]. Qed.

Lemma holding_writing fp w pend : mem_ok (w_mem w) -> writing fp (w_mem w) pend ->
  holding (file fp w ++ pend) fp w.
Proof. intros. split; [done|]. by exists pend. Qed.

Context (is_sseek : bool) (malloc : Z -> C Z) (realloc : Z -> Z -> C Z) (fstat : Z -> C (Z * Z)) (isatty : Z -> C Z).

Lemma wp_cantwrite n fp m pend w (Q : bool * FILE -> world -> Prop) : mem_ok m -> buffered fp m pend ->
  Q (false, fp) w -> wp n (cantwrite is_sseek malloc free fstat isatty fp) w Q.
Proof.
  intros Hm Hb HQ. assert (Hr := buffered_range _ _ _ Hm Hb). unfold cantwrite.
  rewrite (wr_open _ _ _ Hb), (proj2 (Z.eqb_neq _ _)) by lia. by wp_steps.
Qed.

(** [__swbuf_r] is called when the buffer is full, or must be flushed. *)
Lemma wp_swbuf n c fp pend w (Q : Z * FILE -> world -> Prop) :
  (write_fuel <= n)%nat -> size fp < Z.of_nat n -> mem_ok (w_mem w) ->
  buffered fp (w_mem w) pend -> settled fp pend ->
  (zlen pend = size fp \/ (u8 c = 10 /\ buffering fp = LineBuffered) \/ buffering fp = Unbuffered) ->
  post (file fp w ++ pend ++ [u8 c]) (u8 c) fp w Q ->
  wp n (__swbuf_r _write seek is_sseek malloc free fstat isatty c fp) w Q.
Proof.
  intros Hn Hsz Hm Hb Hset Hc HQ. unfold __swbuf_r. wp_step.
  eapply wp_cantwrite; [exact Hm|by apply buffered_w|]. cbn beta iota.
  set (fp1 := ORIENT (set_w (_lbfsize fp) fp)).
  assert (Ha : alike (set_w (_lbfsize fp) fp) fp1) by apply alike_ORIENT.
  assert (Hb1 : buffered fp1 (w_mem w) pend) by by eapply alike_buffered, buffered_w.
  assert (Hs1 : step fp w fp1 w) by by eapply alike_step, step_w, step_buffered.
  assert (Hset1 : settled fp1 pend).
  { unfold settled. by rewrite (step_buffering _ _ _ _ Hs1). }
  apply (post_step _ _ _ _ _ _ _ Hs1) in HQ.
  replace (file fp w) with (file fp1 w) in HQ by (unfold file; by rewrite (step_file _ _ _ _ Hs1)).
  assert (Hbm : buffering fp1 = buffering fp) by apply Hs1.
  rewrite <-(step_bf _ _ _ _ Hs1) in Hsz, Hc. rewrite <-Hbm in Hc.
  assert (Hr := buffered_range _ _ _ Hm Hb1). assert (Hlen := wr_len _ _ _ Hb1).
  rewrite (wr_p _ _ _ Hb1). replace (base fp1 + zlen pend - base fp1) with (zlen pend) by lia.
  rewrite i32_small by lia. clearbody fp1. assert (Hu := u8_range c). wp_step.
  destruct (size fp1 <=? zlen pend) eqn:E; b2p.
  - wp_step. eapply wp_fflush; [done|done|done|exact Hb1| |].
    + intros fp2 w2 Hs Hm2 Hw2 Hf2. change (0 =? 0) with true. wp_steps.
      rewrite <-(step_bf _ _ _ _ Hs) in Hsz.
      apply (wp_swbuf_put n (u8 c) fp2 []); [done..|by rewrite Hm2|done|by apply Hw2| |by apply Hw2|by left|].
      * rewrite (step_bf _ _ _ _ Hs). cbn [length]. apply (wr_size _ _ _ Hb1).
      * rewrite Hf2, <-app_assoc. by eapply post_step.
    + intros j fp2 w2 Hs Hm2 Hw2 He Hf2. change (EOF =? 0) with false. wp_steps.
      apply HQ. split; [split; [done|]|done]. exists (file fp1 w ++ take j pend). split.
      * apply prefix_app. etrans; [apply prefix_take|]. by eexists.
      * rewrite <-Hf2, <-(app_nil_r (file fp2 w2)). apply holding_writing; [by rewrite Hm2|done].
  - wp_steps. apply (wp_swbuf_put n (u8 c) fp1 pend); [done..|lia|done| |done]. right. destruct Hc as [?|?]; [lia|done].
Qed.

(** A character put in the buffer by the macro. *)
Lemma filled_writing fp m l pend : writing fp m pend -> zlen pend + zlen l <= size fp ->
  buffering fp <> Unbuffered -> (buffering fp = LineBuffered -> 10 ∉ l) ->
  writing (filled l (set_w (_w fp - zlen l) fp)) (store_bytes (_p fp) l m) (pend ++ l).
Proof.
  intros [Hb Hset Hw] Hl Hu Hnl.
  split; [by apply (buffered_w (filled l fp)), filled_buffered|..].
  - unfold settled in *. change (buffering (filled _ _)) with (buffering fp).
    destruct (buffering fp); [done|specialize (Hnl eq_refl); set_solver|done].
  - unfold room in *. change (buffering (filled _ _)) with (buffering fp).
    cbn [filled set_p set_w _w _bf]. rewrite Hw, length_app. destruct (buffering fp); [done|lia..].
Qed.

Lemma filled_post fp w l pend r (Q : Z * FILE -> world -> Prop) : mem_ok (w_mem w) ->
  writing fp (w_mem w) pend -> zlen pend + zlen l <= size fp ->
  buffering fp <> Unbuffered -> (buffering fp = LineBuffered -> 10 ∉ l) ->
  Forall (fun b => is_byte b) l -> post (file fp w ++ pend ++ l) r fp w Q ->
  Q (r, filled l (set_w (_w fp - zlen l) fp)) (written (_p fp) l w).
Proof.
  intros Hm Hw Hl Hu Hnl Hby HQ. pose proof (wr_buffered _ _ _ Hw) as Hb. apply HQ.
  split; [by eapply (step_w _ _ (filled l fp)), filled_step|].
  apply (holding_writing (filled l (set_w (_w fp - zlen l) fp)) (written (_p fp) l w) (pend ++ l));
    [by eapply filled_ok|by apply filled_writing].
Qed.

(** A byte stored past what is pending. *)
Lemma buffered_store fp m pend l x : buffered fp m pend -> zlen pend + zlen l <= size fp ->
  buffered (set_w x fp) (store_bytes (_p fp) l m) pend.
Proof.
  intros [] Hl. split; try done; cbn; [by apply mapped_store|].
  rewrite wr_p0. apply bytes_store_out; [done|]. unfold disjoint_ranges. lia.
Qed.

Lemma wp_putc n c fp pend w (Q : Z * FILE -> world -> Prop) :
  (write_fuel <= n)%nat -> size fp < Z.of_nat n -> mem_ok (w_mem w) -> writing fp (w_mem w) pend ->
  post (file fp w ++ pend ++ [u8 c]) (u8 c) fp w Q ->
  wp n (_putc_r _write seek is_sseek malloc free fstat isatty c fp) w Q.
Proof.
  intros Hn Hsz Hm Hw HQ. pose proof (wr_buffered _ _ _ Hw) as Hb.
  assert (Hr := buffered_range _ _ _ Hm Hb). assert (Hlen := wr_len _ _ _ Hb). assert (Hu := u8_range c).
  pose proof (wr_w _ _ _ Hw) as Ew. pose proof (wr_lbfsize _ _ _ Hb) as El. unfold room in Ew.
  assert (Hstore : zlen pend < size fp -> is_Some (w_mem w !! _p fp)).
  { intros. pose proof Hb as []. rewrite wr_p0. apply wr_mapped0. lia. }
  assert (Hget : forall m, <[_p fp := u8 c]> m !! _p fp = Some (u8 c)) by (intros; apply lookup_insert_eq).
  assert (Hby : Forall (fun b => is_byte b) [u8 c]) by by constructor.
  unfold _putc_r, __sputc_r.
  assert (Hi : i32 (_w fp - 1) = _w fp - 1) by (destruct (buffering fp); rewrite i32_small; lia).
  rewrite Hi. cbn [_w _p _lbfsize set_w].
  destruct (_w fp - 1 <? 0) eqn:E1; [destruct (_lbfsize fp <=? _w fp - 1) eqn:E2|]; b2p.
  - assert (Hl : buffering fp = LineBuffered).
    { destruct (buffering fp); [|done|]; lia. }
    rewrite Hl in Ew, El. wp_step. apply wp_store8; [apply Hstore; lia|]. wp_step.
    eapply wp_load8; [apply Hget|]. destruct (u8 c =? 10) eqn:E; b2p; cbn [negb].
    + pose proof (filled_step fp w pend [u8 c] Hm Hb ltac:(cbn; lia) Hby) as [? ? ? ? ? ? ?].
      eapply (wp_swbuf _ 10 _ pend); [done|done| | |apply (wr_settled _ _ _ Hw)|by right; left|].
      * by apply (filled_ok fp w pend [u8 c] Hm Hb); [cbn; lia|].
      * by apply (buffered_store fp (w_mem w) pend [u8 c]); [|cbn; lia].
      * change (u8 10) with 10. rewrite <-E. by eapply post_step.
    + wp_step. eapply wp_load8; [apply Hget|]. wp_steps.
      refine (filled_post fp w [u8 c] pend (u8 c) Q _ _ _ _ _ _ _); [done..|cbn; lia|by rewrite Hl|set_solver|done|exact HQ].
  - eapply wp_swbuf; [done|done|done|by apply buffered_w|apply (wr_settled _ _ _ Hw)| |].
    + cbn [_bf set_w]. change (buffering (set_w _ fp)) with (buffering fp).
      destruct (buffering fp); [by right; right|left; lia|left; lia].
    + eapply post_step; [|exact HQ]. by eapply step_w, step_buffered.
  - assert (Hl : buffering fp = FullyBuffered) by (destruct (buffering fp); [lia|lia|done]).
    rewrite Hl in Ew. wp_step. apply wp_store8; [apply Hstore; lia|]. wp_step.
    eapply wp_load8; [apply Hget|]. wp_steps.
    refine (filled_post fp w [u8 c] pend (u8 c) Q _ _ _ _ _ _ _); [done..|cbn; lia|by rewrite Hl|by rewrite Hl|done|exact HQ].
Qed.

(** ** __sfvwrite_r *)

(** A region of the caller's memory, apart from the buffer. *)
Definition region_at fp m (r : Z * list Z) : Prop :=
  bytes m r.1 r.2 /\ disjoint_ranges (base fp) (size fp) r.1 (zlen r.2).

Lemma region_step fp w fp' w' r : step fp w fp' w' -> region_at fp (w_mem w) r ->
  region_at fp' (w_mem w') r.
Proof.
  intros [Hb _ _ _ _ (l & Hl & _ & E) _] [Hr Hd]. unfold region_at. rewrite Hb, E. split; [|done].
  apply bytes_store_out; [done|]. by rewrite Hl.
Qed.

Lemma region_drop fp m p l k : (k <= length l)%nat -> region_at fp m (p, l) ->
  region_at fp m (p + Z.of_nat k, drop k l).
Proof.
  intros Hk [Hr Hd]. cbn [fst snd] in *. unfold region_at, disjoint_ranges in *. cbn [fst snd] in *.
  rewrite <-(take_drop k l) in Hr. apply bytes_app in Hr as [_ Hr]. rewrite length_take_le in Hr by done.
  split; [done|]. rewrite length_drop. lia.
Qed.

(** The file fails in a part: a beginning of what was pending and of the region is
    in the file, at most what was pending and one buffer; of an unbuffered stream
    nothing. *)
Definition part_failed (l pend : list Z) fp w fp' w' : Prop :=
  outcome_lost (file fp w ++ pend ++ l) fp w fp' w' /\
  exists i, file fp' w' = file fp w ++ take i (pend ++ l) /\ (i <= length (pend ++ l))%nat /\
    Z.of_nat i <= zlen pend + size fp /\ (buffering fp = Unbuffered -> i = 0%nat).

Lemma failed_direct l fp w fp' w' : 0 <= size fp ->
  outcome_lost (file fp w ++ l) fp w fp' w' -> file fp' w' = file fp w -> part_failed l [] fp w fp' w'.
Proof.
  intros Hsz Hl Hf. split; [done|]. exists 0%nat. rewrite take_0, app_nil_r. split_and!; [done|lia|cbn; lia|done].
Qed.

Lemma failed_flush k j l pend pend1 fp w fp1 w1 fp2 w2 :
  step fp w fp1 w1 -> step fp1 w1 fp2 w2 -> mem_ok (w_mem w2) -> writing fp2 (w_mem w2) [] ->
  file fp1 w1 ++ pend1 = file fp w ++ pend ++ take k l -> file fp2 w2 = file fp1 w1 ++ take j pend1 ->
  Z.of_nat k <= size fp -> buffering fp <> Unbuffered -> part_failed l pend fp w fp2 w2.
Proof.
  intros Hs1 Hs2 Hm2 Hw2 Hf1 Hf2 Hk Hu. destruct (step_grows _ _ _ _ Hs1) as [a Ha].
  rewrite Ha, <-app_assoc in Hf1, Hf2. apply app_inv_head in Hf1.
  assert (Hp : a ++ take j pend1 `prefix_of` pend ++ take k l) by (rewrite <-Hf1; apply prefix_app, prefix_take).
  pose proof (prefix_length _ _ Hp) as Hlen. rewrite !length_app, !length_take in Hlen.
  assert (Hp' : a ++ take j pend1 `prefix_of` pend ++ l) by (etrans; [exact Hp|]; apply prefix_app, prefix_take).
  split.
  - split; [by eapply step_trans|]. exists (file fp2 w2 ++ []). split; [|by apply holding_writing].
    rewrite app_nil_r, Hf2. by apply prefix_app.
  - exists (length (a ++ take j pend1)). destruct Hp' as [r Hr]. rewrite Hr, take_app_length, !length_app, length_take.
    split_and!; [done|lia|lia|done].
Qed.

(** A part writes [k] bytes of the region [l], or the file fails. *)
Record part_post {X} (J : X -> list Z -> Prop) l pend fp w
    (Q : flow (X * Z * FILE) FILE -> world -> Prop) : Prop := {
  part_ok x k fp' w' pend' : step fp w fp' w' -> mem_ok (w_mem w') -> (k <= length l)%nat ->
    writing fp' (w_mem w') pend' -> file fp' w' ++ pend' = file fp w ++ pend ++ take k l ->
    ((k < length l)%nat -> pend' = []) -> (k = 0%nat -> pend <> []) ->
    (drop k l <> [] -> J x (drop k l)) -> Q (Fall (x, Z.of_nat k, fp')) w';
  part_lost fp' w' : part_failed l pend fp w fp' w' -> Q (Return fp') w';
}.

(** Nothing is pending, and some of the region is written to the file. *)
Lemma wp_direct n p l j fp w (Q : Z * FILE -> world -> Prop) :
  (write_fuel <= n)%nat -> mem_ok (w_mem w) -> writing fp (w_mem w) [] ->
  bytes (w_mem w) p l -> l <> [] -> (0 < j <= length l)%nat ->
  (forall k fp' w', step fp w fp' w' -> mem_ok (w_mem w') -> w_mem w' = w_mem w -> (0 < k <= j)%nat ->
    writing fp' (w_mem w') [] -> file fp' w' = file fp w ++ take k l -> Q (Z.of_nat k, fp') w') ->
  (forall t fp' w', t <= 0 -> part_failed l [] fp w fp' w' -> Q (t, fp') w') ->
  wp n (_write p (Z.of_nat j) fp) w Q.
Proof.
  intros Hn Hm Hw Hl Hne Hj HT HF. pose proof (step_buffered _ _ _ Hm (wr_buffered _ _ _ Hw)) as Hs.
  assert (Hlj : length (take j l) = j) by (rewrite length_take_le; lia).
  rewrite <-Hlj. apply wp_write; [done..| | | |].
  - rewrite <-(take_drop j l) in Hl. by apply bytes_app in Hl as [? _].
  - intros E. rewrite E in Hlj. cbn in Hlj. lia.
  - intros t fp' w' Ha Hm' Ht Hf. apply HF; [done|].
    assert (Hf' : file fp' w' = file fp w) by (unfold file in *; by rewrite (alike_file _ _ Ha)).
    apply failed_direct; [pose proof (wr_size _ _ _ (wr_buffered _ _ _ Hw)); lia| |done]. split.
    + eapply alike_step; [exact Ha|]. destruct Hs as [? ? ? ? ? Hmem ?]. split; [done..|by rewrite Hm'|].
      unfold file. by rewrite Hf.
    + exists (file fp w). split; [by eexists|]. rewrite <-(app_nil_r (file fp w)), <-Hf'.
      apply holding_writing; [by rewrite Hm'|]. rewrite Hm'. by eapply alike_writing.
  - intros k fp' w' Ha Hm' Hk Hf. rewrite take_take, Nat.min_l in Hf by lia.
    assert (Hf' : file fp' w' = file fp w ++ take k l)
      by (unfold file in *; by rewrite (alike_file _ _ Ha)).
    apply HT; [|by rewrite Hm'|done|lia|rewrite Hm'; by eapply alike_writing|done].
    eapply alike_step; [exact Ha|]. destruct Hs as [? ? ? ? ? Hmem ?]. split; [done..|by rewrite Hm'|].
    unfold file. rewrite Hf. by eexists.
Qed.

Lemma wp_part_unbuffered n p l pend fp w (Q : flow (unit * Z * FILE) FILE -> world -> Prop) :
  (write_fuel <= n)%nat -> mem_ok (w_mem w) -> writing fp (w_mem w) pend ->
  buffering fp = Unbuffered -> region_at fp (w_mem w) (p, l) -> l <> [] ->
  part_post (fun _ _ => True) l pend fp w Q ->
  wp n (part_unbuffered _write tt p (zlen l) fp) w Q.
Proof.
  intros Hn Hm Hw Hu [Hl _] Hne HQ. cbn [fst snd] in Hl. pose proof (wr_settled _ _ _ Hw) as Hp. unfold settled in Hp.
  rewrite Hu in Hp. subst pend. assert (0 < zlen l) by (destruct l; [done|cbn; lia]).
  unfold part_unbuffered. wp_step. unfold BUFSIZ.
  replace (Z.min (zlen l) 1024) with (Z.of_nat (Nat.min (length l) 1024)) by lia.
  eapply wp_direct; [done..|lia| |].
  - intros k fp' w' Hs Hm' Hmw Hk Hw' Hf. rewrite (proj2 (Z.leb_gt _ _)) by lia. wp_steps.
    eapply (part_ok _ _ _ _ _ _ HQ); [done..|lia|exact Hw'| |done|lia|done].
    by rewrite app_nil_r.
  - intros t fp' w' Ht Hlost. rewrite (proj2 (Z.leb_le _ _)) by lia. wp_steps.
    by apply (part_lost _ _ _ _ _ _ HQ).
Qed.

(** Some of the region is copied to the buffer. *)
Context {cfg : build}.

Lemma wp_COPY n p l k fp pend w (Q : unit -> world -> Prop) :
  size fp < Z.of_nat n -> mem_ok (w_mem w) -> buffered fp (w_mem w) pend ->
  region_at fp (w_mem w) (p, l) -> (k <= length l)%nat -> zlen pend + Z.of_nat k <= size fp ->
  (zlen (take k l) = Z.of_nat k -> mem_ok (w_mem (written (_p fp) (take k l) w)) ->
    buffered (filled (take k l) fp) (w_mem (written (_p fp) (take k l) w)) (pend ++ take k l) ->
    step fp w (filled (take k l) fp) (written (_p fp) (take k l) w) ->
    Q tt (written (_p fp) (take k l) w)) ->
  wp n (COPY fp p (Z.of_nat k)) w Q.
Proof.
  intros Hn Hm Hb [Hl _] Hk Hr HQ. cbn [fst snd] in Hl. assert (Hrange := buffered_range _ _ _ Hm Hb).
  assert (Hlen : length (take k l) = k) by by rewrite length_take_le.
  rewrite <-(take_drop k l) in Hl. apply bytes_app in Hl as [Hl _].
  assert (Hby := mem_ok_bytes _ _ _ Hm Hl). unfold COPY. rewrite u32_small by lia.
  wp_step. rewrite <-Hlen at 1. apply wp_memmove; [done..| |lia|].
  - pose proof Hb as []. rewrite wr_p0. eapply mapped_sub; [done|lia..].
  - wp_steps. apply HQ; [by rewrite Hlen|..].
    + eapply filled_ok; [done..|lia|done].
    + apply filled_buffered; [done|lia].
    + eapply filled_step; [done..|lia|done].
Qed.

Lemma pending_empty fp m pend : buffered fp m pend -> (base fp <? _p fp) = negb (zlen pend =? 0).
Proof.
  intros []. rewrite wr_p0. destruct (Z.ltb_spec (base fp) (base fp + zlen pend)),
    (Z.eqb_spec (zlen pend) 0); cbn; lia || done.
Qed.

(** The buffer is filled with part of the region and flushed. *)
Lemma wp_fill_flush {B} n p l k fp pend w (f : Z * FILE -> C B) (Q : B -> world -> Prop) :
  (write_fuel <= n)%nat -> size fp < Z.of_nat n -> mem_ok (w_mem w) -> buffered fp (w_mem w) pend ->
  region_at fp (w_mem w) (p, l) -> (k <= length l)%nat -> zlen pend + Z.of_nat k <= size fp ->
  buffering fp <> Unbuffered ->
  (forall fp' w', step fp w fp' w' -> mem_ok (w_mem w') -> writing fp' (w_mem w') [] ->
    file fp' w' = file fp w ++ pend ++ take k l -> wp n (f (0, fp')) w' Q) ->
  (forall fp' w', part_failed l pend fp w fp' w' -> wp n (f (EOF, fp')) w' Q) ->
  wp n (COPY fp p (Z.of_nat k)) w (fun _ w =>
    wp n (_fflush_r _write seek free (set_p (_p fp + Z.of_nat k) fp) ≫= f) w Q).
Proof.
  intros Hn Hsz Hm Hb Hr Hk Hroom Hu HT HF. eapply wp_COPY; [done..|]. intros Hlen Hm1 Hb1 Hs1.
  rewrite <-Hlen. change (set_p (_p fp + zlen (take k l)) fp) with (filled (take k l) fp).
  wp_step. eapply wp_fflush; [done|done|exact Hm1|exact Hb1|..].
  - intros fp2 w2 Hs2 Hm2 Hw2 Hf2. apply HT; [by eapply step_trans|by rewrite Hm2|done|exact Hf2].
  - intros j fp2 w2 Hs2 Hm2 Hw2 He Hf2. apply HF.
    eapply (failed_flush k j l pend (pend ++ take k l)); [exact Hs1|exact Hs2|by rewrite Hm2|done|done|exact Hf2|lia|done].
Qed.

Lemma wp_part_full n p l pend fp w (Q : flow (unit * Z * FILE) FILE -> world -> Prop) :
  (write_fuel <= n)%nat -> size fp < Z.of_nat n -> mem_ok (w_mem w) -> writing fp (w_mem w) pend ->
  buffering fp = FullyBuffered -> region_at fp (w_mem w) (p, l) -> l <> [] ->
  part_post (fun _ _ => True) l pend fp w Q ->
  wp n (part_full _write seek malloc realloc free tt p (zlen l) fp) w Q.
Proof.
  intros Hn Hsz Hm Hw Hu Hr Hne HQ. pose proof (wr_buffered _ _ _ Hw) as Hb.
  pose proof (wr_w _ _ _ Hw) as Ew. unfold room in Ew. rewrite Hu in Ew.
  assert (Hrange := buffered_range _ _ _ Hm Hb). assert (Hlen := bytes_len _ _ _ Hm (proj1 Hr)).
  cbn [fst snd] in Hlen.
  pose proof (wr_len _ _ _ Hb) as Hpl. pose proof (wr_size _ _ _ Hb) as Hsize.
  assert (0 < zlen l) by (destruct l; [done|cbn; lia]).
  unfold part_full. rewrite (wr_file _ _ _ Hb), !u32_small by lia.
  rewrite (pending_empty _ _ _ Hb). destruct (negb (zlen pend =? 0) && (_w fp <? zlen l)) eqn:E1;
    [|destruct (size fp <=? zlen l) eqn:E2].
  - apply andb_true_iff in E1 as [E1 E2]. b2p. wp_step.
    assert (Hk : exists k, _w fp = Z.of_nat k) by (exists (Z.to_nat (_w fp)); lia).
    destruct Hk as [k Hk]. rewrite Hk. eapply wp_fill_flush; [done..|lia|lia|by rewrite Hu| |].
    + intros fp' w' Hs' Hm' Hw' Hf'. change (0 =? 0) with true. wp_steps.
      eapply (part_ok _ _ _ _ _ _ HQ); [done..|lia|exact Hw'| |done| |done].
      * by rewrite app_nil_r.
      * intros _ ->. cbn in E1. lia.
    + intros fp' w' Hlost. change (EOF =? 0) with false. wp_steps. by apply (part_lost _ _ _ _ _ _ HQ).
  - assert (pend = []) as ->.
    { apply andb_false_iff in E1. destruct pend; [done|]. destruct E1; blia. }
    b2p. wp_step. replace (size fp) with (Z.of_nat (Z.to_nat (size fp))) by lia.
    eapply wp_direct; [done..|exact (proj1 Hr)|done|cbn [fst snd]; lia| |].
    + intros k fp' w' Hs' Hm' Hmw Hk Hw' Hf'. rewrite (proj2 (Z.leb_gt _ _)) by lia. wp_steps.
      eapply (part_ok _ _ _ _ _ _ HQ); [done..|lia|exact Hw'| |done|lia|done].
      by rewrite app_nil_r.
    + intros t fp' w' Ht Hlost. rewrite (proj2 (Z.leb_le _ _)) by lia. wp_steps.
      by apply (part_lost _ _ _ _ _ _ HQ).
  - assert (zlen pend + zlen l <= size fp).
    { apply andb_false_iff in E1. destruct E1; blia. }
    b2p. rewrite !i32_small by lia. wp_step.
    eapply wp_COPY; [done..|lia|]. rewrite take_ge by done. intros _ Hm1 Hb1 Hs1. wp_steps.
    eapply (part_ok _ _ _ _ _ _ HQ _ (length l) _ _ (pend ++ l)).
    + exact (step_w _ _ _ _ _ Hs1).
    + done.
    + done.
    + apply filled_writing; [done|lia|by rewrite Hu|by rewrite Hu].
    + by rewrite take_ge.
    + lia.
    + intros E. rewrite E in *. lia.
    + done.
Qed.

Definition line_known (x : bool * Z) (l : list Z) : Prop :=
  x.1 = true -> x.2 = Z.of_nat (line_dist l).

(** The end of a part of a line buffered stream: a whole line is flushed. *)
Lemma wp_line_end n k l pend pend1 fp w fp1 w1 (Q : flow (bool * Z * Z * FILE) FILE -> world -> Prop) :
  (write_fuel <= n)%nat -> size fp < Z.of_nat n -> zlen l < 1073741824 ->
  step fp w fp1 w1 -> mem_ok (w_mem w1) -> buffered fp1 (w_mem w1) pend1 ->
  file fp1 w1 ++ pend1 = file fp w ++ pend ++ take k l ->
  (k <= length l)%nat -> (k <= line_dist l)%nat -> (k = 0%nat -> pend <> []) ->
  Z.of_nat k <= size fp -> buffering fp <> Unbuffered ->
  ((k < line_dist l)%nat -> writing fp1 (w_mem w1) pend1 /\ ((k < length l)%nat -> pend1 = [])) ->
  part_post line_known l pend fp w Q ->
  wp n (let nldist := i32 (Z.of_nat (line_dist l) - Z.of_nat k) in
        if nldist =? 0 then
          '(r, fp) ← _fflush_r _write seek free fp1;
          if negb (r =? 0) then return_ fp else fall (false, nldist, Z.of_nat k, fp)
        else fall (true, nldist, Z.of_nat k, fp1)) w1 Q.
Proof.
  intros Hn Hsz Hlen Hs1 Hm1 Hb1 Hf1 Hk Hd Hk0 Hks Hu Hw HQ. pose proof (line_dist_range l) as Hr.
  cbv zeta. rewrite i32_small by lia.
  destruct (Z.of_nat (line_dist l) - Z.of_nat k =? 0) eqn:E; b2p.
  - wp_step. eapply wp_fflush; [done|by rewrite (step_bf _ _ _ _ Hs1)|exact Hm1|exact Hb1|..].
    + intros fp2 w2 Hs2 Hm2 Hw2 Hf2. change (0 =? 0) with true. wp_steps.
      eapply (part_ok _ _ _ _ _ _ HQ (false, _) k _ _ []); [by eapply step_trans|by rewrite Hm2|done|done| |done|done|done].
      by rewrite app_nil_r, Hf2.
    + intros j fp2 w2 Hs2 Hm2 Hw2 He Hf2. change (EOF =? 0) with false. wp_steps.
      apply (part_lost _ _ _ _ _ _ HQ).
      eapply (failed_flush k j l pend pend1); [exact Hs1|exact Hs2|by rewrite Hm2|done|done|exact Hf2|done..].
  - destruct Hw as [Hw1 Hp1]; [lia|]. wp_steps.
    eapply (part_ok _ _ _ _ _ _ HQ (true, _) k _ _ pend1); [done..|].
    intros _ _. cbn [snd]. destruct (line_dist_drop k l) as [-> _]; lia.
Qed.

Lemma wp_line_distance n x p l w (Q : Z -> world -> Prop) :
  mem_ok (w_mem w) -> bytes (w_mem w) p l -> l <> [] -> (length l + 1 < n)%nat -> line_known x l ->
  Q (Z.of_nat (line_dist l)) w ->
  wp n (if negb x.1 then
      nl ← memchr p 10 (zlen l);
      mret (if negb (nl =? 0) then i32 (nl + 1 - p) else i32 (zlen l + 1))
    else mret x.2) w Q.
Proof.
  intros Hm Hl Hne Hn Hx HQ. pose proof (mem_ok_range _ _ _ Hm Hl Hne) as Hr.
  pose proof (line_dist_range l) as Hd. destruct x as [[] d]; cbn [fst snd negb].
  - wp_steps. unfold line_known in Hx. cbn in Hx. by rewrite Hx.
  - wp_step. eapply wp_memchr; [done..|]. change (u8 10) with 10. wp_steps.
    pose proof (line_dist_ptr p l ltac:(lia)) as E. destruct (negb _); rewrite E, i32_small by lia; done.
Qed.

Lemma wp_part_line n x p l pend fp w (Q : flow (bool * Z * Z * FILE) FILE -> world -> Prop) :
  (write_fuel <= n)%nat -> size fp < Z.of_nat n -> (length l + 1 < n)%nat ->
  mem_ok (w_mem w) -> writing fp (w_mem w) pend ->
  buffering fp = LineBuffered -> region_at fp (w_mem w) (p, l) -> l <> [] -> line_known x l ->
  part_post line_known l pend fp w Q ->
  wp n (part_line _write seek free x p (zlen l) fp) w Q.
Proof.
  intros Hn Hsz Hnl Hm Hw Hu Hr Hne Hx HQ. pose proof (wr_buffered _ _ _ Hw) as Hb.
  pose proof (wr_w _ _ _ Hw) as Ew. unfold room in Ew. rewrite Hu in Ew.
  assert (Hrange := buffered_range _ _ _ Hm Hb). assert (Hlen := bytes_len _ _ _ Hm (proj1 Hr)).
  cbn [fst snd] in Hlen. pose proof (line_dist_range l) as Hd.
  pose proof (wr_len _ _ _ Hb) as Hpl. pose proof (wr_size _ _ _ Hb) as Hsize.
  assert (0 < zlen l) by (destruct l; [done|cbn; lia]).
  destruct x as [known d]. unfold part_line. wp_step.
  eapply (wp_line_distance _ (known, d)); [done|exact (proj1 Hr)|done..|].
  rewrite u32_small, i32_small, Ew, i32_small, (pending_empty _ _ _ Hb) by lia.
  set (s := Nat.min (length l) (line_dist l)).
  replace (Z.min (zlen l) (Z.of_nat (line_dist l))) with (Z.of_nat s) by lia.
  replace (- zlen pend + size fp) with (size fp - zlen pend) by lia. wp_step.
  destruct (negb (zlen pend =? 0) && (size fp - zlen pend <? Z.of_nat s)) eqn:E1;
    [|destruct (size fp <=? Z.of_nat s) eqn:E2].
  - apply andb_true_iff in E1 as [E1 E2]. b2p. wp_step.
    assert (Hk : exists k, size fp - zlen pend = Z.of_nat k)
      by (exists (Z.to_nat (size fp - zlen pend)); lia).
    destruct Hk as [k Hk]. rewrite Hk. eapply wp_fill_flush; [done..|lia|lia|by rewrite Hu| |].
    + intros fp' w' Hs' Hm' Hw' Hf'. change (0 =? 0) with true. wp_steps.
      eapply wp_line_end; [done|done|done|exact Hs'|done|by apply Hw'| |lia|lia| |lia|by rewrite Hu| |done].
      * by rewrite app_nil_r.
      * intros ->. destruct pend; [|done]. cbn in E1. lia.
      * done.
    + intros fp' w' Hlost. change (EOF =? 0) with false. wp_steps. by apply (part_lost _ _ _ _ _ _ HQ).
  - assert (pend = []) as ->.
    { apply andb_false_iff in E1. destruct pend; [done|]. destruct E1; blia. }
    b2p. wp_step. replace (size fp) with (Z.of_nat (Z.to_nat (size fp))) by lia.
    eapply wp_direct; [done..|exact (proj1 Hr)|done|cbn [fst snd]; lia| |].
    + intros k fp' w' Hs' Hm' Hmw Hk Hw' Hf'. rewrite (proj2 (Z.leb_gt _ _)) by lia. wp_steps.
      eapply wp_line_end; [done|done|done|exact Hs'|done|by apply Hw'| |lia|lia|lia|lia|by rewrite Hu|done|done].
      by rewrite app_nil_r.
    + intros t fp' w' Ht Hlost. rewrite (proj2 (Z.leb_le _ _)) by lia. wp_steps.
      by apply (part_lost _ _ _ _ _ _ HQ).
  - assert (zlen pend + Z.of_nat s <= size fp).
    { apply andb_false_iff in E1. destruct E1; blia. }
    b2p. rewrite !i32_small by lia. wp_step.
    eapply wp_COPY; [done..|lia|lia|]. intros Hls Hm1 Hb1 Hs1.
    assert (Efp : set_p (_p fp + Z.of_nat s) (set_w (- zlen pend - Z.of_nat s) fp) =
      set_w (_w fp - zlen (take s l)) (filled (take s l) fp)) by (unfold filled; by rewrite Hls, Ew).
    wp_steps. rewrite Efp.
    eapply (wp_line_end _ _ _ _ (pend ++ take s l));
      [done|done|done|exact (step_w _ _ _ _ _ Hs1)|done|exact (buffered_w _ _ _ _ Hb1)|done|lia|lia|lia|lia|by rewrite Hu| |done].
    intros Hlt. destruct (line_dist_drop s l) as [_ H10]; [lia..|]. split; [|lia].
    apply filled_writing; [done|lia|by rewrite Hu|done].
Qed.

(** *** The loop over the regions *)

Definition iovs (rs : list (Z * list Z)) : list __siov := (fun r => (r.1, zlen r.2)) <$> rs.
Abbreviation text rs := (concat rs.*2).

Section regions.
Context {X : Type} (extra : X -> X) (J : X -> list Z -> Prop).
Context (part : X -> Z -> Z -> FILE -> C (flow (X * Z * FILE) FILE)) (mode : buffer_mode).
Hypothesis extra_J : forall x l, J (extra x) l.
Hypothesis wp_part : forall n x p l pend fp w (Q : flow (X * Z * FILE) FILE -> world -> Prop),
  (write_fuel <= n)%nat -> size fp < Z.of_nat n -> (length l + 1 < n)%nat ->
  mem_ok (w_mem w) -> writing fp (w_mem w) pend -> buffering fp = mode ->
  region_at fp (w_mem w) (p, l) -> l <> [] -> J x l ->
  part_post J l pend fp w Q -> wp n (part x p (zlen l) fp) w Q.

Lemma wp_GETIOV (R : Z * list Z -> Prop) n k x p l rs w
    (Q : X * Z * Z * list __siov -> world -> Prop) :
  (length rs < k)%nat -> l ++ text rs <> [] -> Forall R ((p, l) :: rs) -> (l <> [] -> J x l) ->
  (forall x' p' l' rs', l' <> [] -> l' ++ text rs' = l ++ text rs -> Forall R ((p', l') :: rs') ->
    J x' l' -> (length rs' <= length rs)%nat -> (l = [] -> (length rs' < length rs)%nat) ->
    Q (x', p', zlen l', iovs rs') w) ->
  wp n (loop_k k (fun '(x, p, len, iov) =>
    if len =? 0 then
      match iov with
      | (iov_base, iov_len) :: iov => next (extra x, iov_base, iov_len, iov)
      | [] => fault
      end
    else brk (x, p, len, iov)) (x, p, zlen l, iovs rs)) w Q.
Proof.
  revert x p l rs. induction k as [|k IH]; intros x p l rs Hk Hne HR HJ HQ; [lia|]. wp_loop.
  destruct l as [|b l].
  - change (zlen [] =? 0) with true. cbn iota. destruct rs as [|[p' l'] rs]; [done|].
    cbn [iovs fmap list_fmap fst snd]. wp_steps. apply Forall_cons in HR as [_ HR].
    apply IH; [cbn in Hk; lia|done|done|intros; apply extra_J|].
    intros x2 p2 l2 rs2 H1 H2 H3 H4 H5 H6. apply HQ; [done..|cbn; lia|cbn; lia].
  - rewrite (proj2 (Z.eqb_neq _ _)) by (cbn; lia). wp_steps. apply HQ; [done..| |lia|done]. by apply HJ.
Qed.

(** The state of the loop: [done] is written. *)
Record sfv_at (single : Prop) (data : list Z) fp0 w0 (pend0 : list Z) (n : nat)
    x p l rs (fp : FILE) (w : world) (done pend : list Z) : Prop := {
  sfv_data : data = done ++ l ++ text rs;
  sfv_step : step fp0 w0 fp w;
  sfv_ok : mem_ok (w_mem w);
  sfv_writing : writing fp (w_mem w) pend;
  sfv_file : file fp w ++ pend = file fp0 w0 ++ pend0 ++ done;
  sfv_regions : Forall (region_at fp (w_mem w)) ((p, l) :: rs);
  sfv_J : l <> [] -> J x l;
  sfv_count : (length rs < n)%nat;
  sfv_single : single -> (l = [] /\ (length rs <= 1)%nat /\ done = []) \/ (rs = [] /\ (done = [] \/ pend = []));
}.

(** Of the [k] bytes that are counted as written, and of what is in the file: all of
    them are in the file, and at most a buffer more (nothing more when unbuffered). *)
Definition counted (k : nat) (data pend0 : list Z) fp0 w0 fp w : Prop :=
  exists i, file fp w = file fp0 w0 ++ take i (pend0 ++ data) /\ (i <= length (pend0 ++ data))%nat /\
    (k = 0%nat \/ (length pend0 + k <= i)%nat) /\ Z.of_nat i <= zlen pend0 + Z.of_nat k + size fp0 /\
    (buffering fp0 = Unbuffered -> i = (length pend0 + k)%nat).

(** A part that fails, after [done] was written. *)
Lemma failed_counted l pend done pend0 fp0 w0 fp w fp' w' :
  step fp0 w0 fp w -> writing fp (w_mem w) pend -> file fp w ++ pend = file fp0 w0 ++ pend0 ++ done ->
  done = [] \/ pend = [] -> part_failed l pend fp w fp' w' ->
  counted (length done) (done ++ l) pend0 fp0 w0 fp' w'.
Proof.
  intros Hs Hw Hf Hd (_ & i & Hi & Hil & His & Hiu). destruct (step_grows _ _ _ _ Hs) as [a Ha].
  rewrite Ha, <-app_assoc in Hf, Hi. apply app_inv_head in Hf. rewrite (step_bf _ _ _ _ Hs) in His.
  rewrite (step_buffering _ _ _ _ Hs) in Hiu. pose proof (wr_settled _ _ _ Hw) as Hset. unfold settled in Hset.
  rewrite (step_buffering _ _ _ _ Hs) in Hset.
  pose proof (f_equal length Hf) as Hlen. rewrite !length_app in Hlen. rewrite length_app in Hil.
  exists (length a + i)%nat. rewrite app_assoc, <-Hf, <-app_assoc, take_app_add, !length_app.
  split_and!; [done|lia| |lia|].
  - destruct Hd as [-> | ->]; cbn [length] in *; [by left|right; lia].
  - intros Hu. rewrite Hu in Hset. rewrite Hiu by done. subst pend. cbn [length] in *. lia.
Qed.

(** How the loop ends: on an error some of the data is lost, and of a single
    region, what is counted as written is in the file. *)
Record sfv_post (single : Prop) (data : list Z) fp0 w0 (pend0 : list Z)
    (Q : bool * Z * FILE -> world -> Prop) : Prop := {
  sfv_post_ok fp w : outcome_ok (file fp0 w0 ++ pend0 ++ data) fp0 w0 fp w -> Q (true, 0, fp) w;
  sfv_post_err fp w k : outcome_lost (file fp0 w0 ++ pend0 ++ data) fp0 w0 fp w ->
    (k < length data)%nat ->
    (single -> counted k data pend0 fp0 w0 fp w) ->
    Q (false, zlen data - Z.of_nat k, fp) w;
}.

Definition sfv_measure l (rs : list (Z * list Z)) (pend : list Z) : nat :=
  (2 * length (l ++ text rs) + match pend with [] => 0 | _ => 1 end)%nat.

Lemma wp_sfv_step (single : Prop) data fp0 w0 pend0 n x p l rs fp w done pend
    (Q : bool * Z * FILE -> world -> Prop) :
  (write_fuel <= n)%nat -> size fp0 < Z.of_nat n -> (length data + 1 < n)%nat -> zlen data < 2147483648 ->
  buffering fp0 = mode -> l ++ text rs <> [] ->
  sfv_at single data fp0 w0 pend0 n x p l rs fp w done pend ->
  sfv_post single data fp0 w0 pend0 Q ->
  wp n (sfvwrite_loop extra part (x, (p, zlen l, iovs rs, zlen (l ++ text rs), fp))) w (fun r w' =>
    match r with
    | inl s => exists x' p' l' rs' fp' done' pend',
        s = (x', (p', zlen l', iovs rs', zlen (l' ++ text rs'), fp')) /\ l' ++ text rs' <> [] /\
        sfv_at single data fp0 w0 pend0 n x' p' l' rs' fp' w' done' pend' /\
        (sfv_measure l' rs' pend' < sfv_measure l rs pend)%nat
    | inr r => Q r w'
    end).
Proof.
  intros Hn Hsz Hdn Hd32 Hmode Hne [Hdata Hs Hm Hw Hf HR HJ Hc Hsg] HQ.
  unfold sfvwrite_loop. wp_step. unfold GETIOV. apply wp_loop_k.
  eapply (wp_GETIOV (region_at fp (w_mem w))); [done..|].
  intros x1 p1 l1 rs1 Hne1 Heq1 HR1 HJ1 Hc1 Hc1'. cbn beta iota. wp_step.
  assert (Hl1 : (length (l1 ++ text rs1) <= length data)%nat).
  { rewrite Hdata, !length_app, <-(length_app l), <-Heq1, length_app. lia. }
  rewrite length_app in Hl1. apply Forall_cons in HR1 as [HR1 HR1'].
  eapply wp_part; [done|by rewrite (step_bf _ _ _ _ Hs)|lia|done|done|
    by rewrite (step_buffering _ _ _ _ Hs)|done..|]. rewrite <-Heq1 in *.
  assert (Hsg1 : single -> rs1 = [] /\ (done = [] \/ pend = [])).
  { intros Hsi. destruct (Hsg Hsi) as [(-> & ? & ->)|(-> & ?)].
    - specialize (Hc1' eq_refl). destruct rs1; [auto|cbn in *; lia].
    - destruct rs1; [auto|cbn in *; lia]. }
  split.
  - intros x2 k fp2 w2 pend2 Hs2 Hm2 Hk2 Hw2 Hf2 Hp2 Hk0 HJ2. wp_steps.
    assert (Hlen1 := bytes_len _ _ _ Hm (proj1 HR1)). cbn [fst snd] in Hlen1.
    assert (Hk : zlen l1 - Z.of_nat k = zlen (drop k l1)) by (rewrite length_drop; lia).
    assert (Hrest : zlen (l1 ++ text rs1) - Z.of_nat k = zlen (drop k l1 ++ text rs1))
      by (rewrite !length_app, length_drop; lia).
    rewrite u32_small, i32_small, Hk, Hrest by (rewrite ?length_app; lia).
    assert (Hf2' : file fp2 w2 ++ pend2 = file fp0 w0 ++ pend0 ++ done ++ take k l1).
    { rewrite Hf2, app_assoc, Hf. by rewrite <-!app_assoc. }
    assert (Hdata2 : data = (done ++ take k l1) ++ drop k l1 ++ text rs1).
    { rewrite Hdata, <-app_assoc. f_equal. by rewrite app_assoc, take_drop. }
    destruct (zlen (drop k l1 ++ text rs1) =? 0) eqn:E; b2p; wp_steps.
    + assert (Hnil : drop k l1 ++ text rs1 = []) by (apply nil_length_inv; lia).
      rewrite E. apply HQ. split; [by eapply step_trans|]. split; [done|]. exists pend2. split; [done|].
      by rewrite Hf2', Hdata2, Hnil, app_nil_r.
    + exists x2, (p1 + Z.of_nat k), (drop k l1), rs1, fp2, (done ++ take k l1), pend2.
      split; [done|]. split; [by intros Hnil; rewrite Hnil in E|]. split; [split; [done| |done|done|done| |done| |]|].
      * by eapply step_trans.
      * constructor; [eapply region_drop; [done|]; by eapply region_step|].
        eapply Forall_impl; [exact HR1'|]. intros r. by apply region_step.
      * lia.
      * intros Hsi. destruct (Hsg1 Hsi) as [-> _]. right. split; [done|right]. apply Hp2.
        cbn [fmap list_fmap concat] in E. rewrite app_nil_r, length_drop in E. lia.
      * unfold sfv_measure. rewrite <-Heq1, !length_app, length_drop.
        destruct k as [|k]; [|destruct pend, pend2; lia]. specialize (Hk0 eq_refl). rewrite Hp2 by (destruct l1; [done|cbn; lia]).
        destruct pend; [done|lia].
  - intros fp2 w2 Hfail. pose proof Hfail as [[Hs2 (s' & Hpre & Hh)] _]. wp_steps.
    replace (zlen (l1 ++ text rs1)) with (zlen data - Z.of_nat (length done))
      by (rewrite Hdata, (length_app done); lia).
    apply HQ.
    + split; [by eapply step_trans|]. exists s'. split; [|done]. etrans; [exact Hpre|].
      rewrite app_assoc, Hf, Hdata, <-!app_assoc. do 3 apply prefix_app. by eexists.
    + rewrite Hdata, !length_app. destruct l1; [done|cbn; lia].
    + intros Hsi. destruct (Hsg1 Hsi) as [-> Hd]. rewrite Hdata. cbn [fmap list_fmap concat]. rewrite app_nil_r.
      by eapply (failed_counted l1 pend done pend0 fp0 w0 fp w).
Qed.

Lemma wp_sfv_loop (single : Prop) data fp0 w0 pend0 n x rs (Q : bool * Z * FILE -> world -> Prop) :
  (write_fuel <= n)%nat -> size fp0 < Z.of_nat n -> (2 * length data + 1 < n)%nat ->
  (length rs < n)%nat -> zlen data < 2147483648 ->
  buffering fp0 = mode -> data = text rs -> data <> [] -> mem_ok (w_mem w0) ->
  writing fp0 (w_mem w0) pend0 -> Forall (region_at fp0 (w_mem w0)) rs ->
  (single -> (length rs <= 1)%nat) -> sfv_post single data fp0 w0 pend0 Q ->
  wp n (loop (sfvwrite_loop extra part) (x, (0, 0, iovs rs, zlen data, fp0))) w0 Q.
Proof.
  intros Hn Hsz Hdn Hrs Hd32 Hmode Hdata Hne Hm Hw HR Hsg HQ.
  eapply (wp_loop_inv (fun k s w => exists x p l rs fp done pend,
      s = (x, (p, zlen l, iovs rs, zlen (l ++ text rs), fp)) /\ l ++ text rs <> [] /\
      sfv_at single data fp0 w0 pend0 n x p l rs fp w done pend /\
      (sfv_measure l rs pend <= k)%nat) n (2 * length data + 1)%nat); [|done|].
  - exists x, 0, [], rs, fp0, [], pend0. cbn [app]. split; [by rewrite <-Hdata|].
    split; [congruence|]. split.
    + pose proof (wr_buffered _ _ _ Hw) as Hb. pose proof (buffered_range _ _ _ Hm Hb).
      split; [done|by eapply step_buffered|done|done|by rewrite app_nil_r| |done|done|].
      * constructor; [|done]. split; [done|]. unfold disjoint_ranges. cbn. lia.
      * intros Hsi. left. auto.
    + unfold sfv_measure. cbn [app]. rewrite <-Hdata. destruct pend0; lia.
  - intros k s w (x1 & p & l & rs1 & fp & done & pend & -> & Hne1 & Hat & Hk).
    eapply wp_mono; [eapply (wp_sfv_step single data fp0 w0 pend0); [done|done|lia|done..]|].
    intros [s'|r] w'; [|done]. intros (x' & p' & l' & rs' & fp' & done' & pend' & -> & ? & ? & ?).
    exists (sfv_measure l' rs' pend'). split; [lia|]. do 7 eexists. done.
Qed.
End regions.

Lemma alike_holding s fp fp' w : alike fp fp' -> holding s fp w -> holding s fp' w.
Proof.
  intros H (Hm & pend & Hw & Hf). split; [done|]. exists pend. split; [by eapply alike_writing|].
  unfold file. by rewrite (alike_file _ _ H).
Qed.

Lemma lost_err s fp w fp' w' : outcome_lost s fp w fp' w' -> outcome_err s fp w (set_flag __SERR fp') w'.
Proof.
  assert (Ha : alike fp' (set_flag __SERR fp')) by by apply alike_set; repeat constructor.
  intros (Hs & s' & Hp & Hh). split; [|rewrite flag_set; apply orb_true_r].
  split; [by eapply alike_step|]. exists s'. split; [done|]. by eapply alike_holding.
Qed.

Lemma wp_sfvwrite (single : Prop) n rs fp pend w (Q : Z * Z * FILE -> world -> Prop) :
  (write_fuel <= n)%nat -> size fp < Z.of_nat n -> (2 * length (text rs) + 1 < n)%nat ->
  (length rs < n)%nat -> zlen (text rs) < 2147483648 -> mem_ok (w_mem w) -> writing fp (w_mem w) pend ->
  Forall (region_at fp (w_mem w)) rs -> (single -> (length rs <= 1)%nat) ->
  (forall fp' w', outcome_ok (file fp w ++ pend ++ text rs) fp w fp' w' -> Q (0, 0, fp') w') ->
  (forall fp' w' k, outcome_err (file fp w ++ pend ++ text rs) fp w fp' w' -> (k < length (text rs))%nat ->
    (single -> counted k (text rs) pend fp w fp' w') ->
    Q (EOF, zlen (text rs) - Z.of_nat k, fp') w') ->
  wp n (__sfvwrite_r _write seek is_sseek malloc realloc free fstat isatty
    (Suio (iovs rs) (zlen (text rs))) fp) w Q.
Proof.
  intros Hn Hsz Hdn Hrs Hd32 Hm Hw HR Hsg HT HF. unfold __sfvwrite_r. cbn [uio_iov uio_resid].
  destruct (zlen (text rs) =? 0) eqn:E; b2p.
  - wp_steps. assert (Hnil : text rs = []) by (apply nil_length_inv; lia). rewrite E.
    apply HT. rewrite Hnil, app_nil_r. split; [by eapply step_buffered, Hw|]. by apply holding_writing.
  - assert (Hne : text rs <> []) by (intros Hnil; by rewrite Hnil in E).
    wp_step. eapply wp_cantwrite; [exact Hm|by apply Hw|]. cbn beta iota. wp_step.
    lazymatch goal with |- wp _ _ _ ?Q1 => assert (HQ : sfv_post single (text rs) fp w pend Q1) end.
    { split.
      - intros fp' w' Hok. wp_steps. by apply HT.
      - intros fp' w' k Hl Hk Hc. wp_steps. apply HF; [by apply lost_err|done|exact Hc]. }
    pose proof (buffering_flags fp) as Hfl. destruct (buffering fp) eqn:Em.
    + rewrite Hfl. eapply (wp_sfv_loop id (fun _ _ => True)); [done| |done..].
      intros n0 []; intros. by eapply wp_part_unbuffered.
    + destruct Hfl as [-> ->]. eapply (wp_sfv_loop _ line_known); [by intros [? ?]| |done..].
      intros. by eapply wp_part_line.
    + destruct Hfl as [-> ->]. eapply (wp_sfv_loop id (fun _ _ => True)); [done| |done..].
      intros n0 []; intros. by eapply wp_part_full.
Qed.

(** ** fwrite, fputs, puts *)

(** The stream is oriented first. *)
Lemma wp_sfvwrite_oriented (single : Prop) n rs fp pend w (Q : Z * Z * FILE -> world -> Prop) :
  (write_fuel <= n)%nat -> size fp < Z.of_nat n -> (2 * length (text rs) + 1 < n)%nat ->
  (length rs < n)%nat -> zlen (text rs) < 2147483648 -> mem_ok (w_mem w) -> writing fp (w_mem w) pend ->
  Forall (region_at fp (w_mem w)) rs -> (single -> (length rs <= 1)%nat) ->
  (forall fp' w', outcome_ok (file fp w ++ pend ++ text rs) fp w fp' w' -> Q (0, 0, fp') w') ->
  (forall fp' w' k, outcome_err (file fp w ++ pend ++ text rs) fp w fp' w' -> (k < length (text rs))%nat ->
    (single -> counted k (text rs) pend fp w fp' w') ->
    Q (EOF, zlen (text rs) - Z.of_nat k, fp') w') ->
  wp n (__sfvwrite_r _write seek is_sseek malloc realloc free fstat isatty
    (Suio (iovs rs) (zlen (text rs))) (ORIENT fp)) w Q.
Proof.
  intros Hn Hsz Hdn Hrs Hd32 Hm Hw HR Hsg HT HF. pose proof (alike_ORIENT fp) as Ha.
  assert (Hs : step fp w (ORIENT fp) w) by by eapply alike_step, step_buffered, Hw.
  assert (Hf : file (ORIENT fp) w = file fp w) by (unfold file; by rewrite (alike_file _ _ Ha)).
  eapply (wp_sfvwrite single); [done|by rewrite (alike_bf _ _ Ha)|done|done|done|done|by eapply alike_writing| |done|..];
    rewrite ?Hf.
  - eapply Forall_impl; [exact HR|]. intros r. by apply region_step.
  - intros fp' w' [Hs' Hh]. apply HT. split; [by eapply step_trans|done].
  - intros fp' w' k [[Hs' Hl] He] Hk Hc. apply HF; [|done|].
    + split; [|done]. split; [by eapply step_trans|done].
    + intros Hsi. destruct (Hc Hsi) as (i & Hi & Hil & Hk1 & Hk2 & Hk3). rewrite Hf in Hi. rewrite (alike_bf _ _ Ha) in Hk2.
      rewrite (alike_buffering _ _ Ha) in Hk3. by exists i.

Qed.

Lemma wp_fwrite n buf data sz count fp pend w (Q : Z * FILE -> world -> Prop) :
  (write_fuel <= n)%nat -> size fp < Z.of_nat n -> (2 * length data + 1 < n)%nat ->
  mem_ok (w_mem w) -> writing fp (w_mem w) pend -> region_at fp (w_mem w) (buf, data) ->
  0 <= sz -> zlen data = count * sz ->
  (forall fp' w', outcome_ok (file fp w ++ pend ++ data) fp w fp' w' -> Q (count, fp') w') ->
  (forall fp' w' k, outcome_err (file fp w ++ pend ++ data) fp w fp' w' -> (k < length data)%nat ->
    0 <= Z.of_nat k / sz < count -> counted k data pend fp w fp' w' -> Q (Z.of_nat k / sz, fp') w') ->
  wp n (_fwrite_r _write seek is_sseek malloc realloc free fstat isatty buf sz count fp) w Q.
Proof.
  intros Hn Hsz Hdn Hm Hw HR Hz Hdata HT HF. pose proof (bytes_len _ _ _ Hm (proj1 HR)) as Hlen.
  cbn [fst snd] in Hlen. unfold _fwrite_r. rewrite <-Hdata, u32_small, i32_small by lia. wp_step.
  assert (Htext : text [(buf, data)] = data) by apply app_nil_r.
  pose proof (wp_sfvwrite_oriented True n [(buf, data)] fp pend w) as H. rewrite Htext in H.
  apply H; [done..|cbn; lia|lia|done|done|by constructor|cbn; lia| |].
  - intros fp' w' Hok. change (0 =? 0) with true. wp_steps. by apply HT.
  - intros fp' w' k Herr Hk Hc. change (EOF =? 0) with false. wp_steps.
    replace (zlen data - (zlen data - Z.of_nat k)) with (Z.of_nat k) by lia. rewrite u32_small by lia.
    assert (sz <> 0) by (intros ->; lia). assert (0 < sz) by lia.
    assert (Hdiv : 0 <= Z.of_nat k / sz /\ Z.of_nat k / sz * sz <= Z.of_nat k) by nia.
    apply HF; [done|done|nia|by apply Hc].
Qed.

Lemma wp_fputs n s l fp pend w (Q : Z * FILE -> world -> Prop) :
  (write_fuel <= n)%nat -> size fp < Z.of_nat n -> (2 * length l + 1 < n)%nat ->
  mem_ok (w_mem w) -> writing fp (w_mem w) pend -> cstr (w_mem w) s l -> region_at fp (w_mem w) (s, l) ->
  post (file fp w ++ pend ++ l) 0 fp w Q ->
  wp n (_fputs_r _write seek is_sseek malloc realloc free fstat isatty s fp) w Q.
Proof.
  intros Hn Hsz Hdn Hm Hw Hs HR [HT HF]. pose proof (bytes_len _ _ _ Hm (proj1 HR)) as Hlen.
  cbn [fst snd] in Hlen. unfold _fputs_r. wp_step. eapply wp_strlen; [done..|lia|]. wp_step.
  rewrite i32_small by lia. assert (Htext : text [(s, l)] = l) by apply app_nil_r.
  pose proof (wp_sfvwrite_oriented False n [(s, l)] fp pend w) as H. rewrite Htext in H.
  apply H; [done..|cbn; lia|lia|done|done|by constructor|done| |].
  - intros fp' w' Hok. wp_steps. by apply HT.
  - intros fp' w' k Herr Hk Hc. wp_steps. by apply HF.
Qed.

Lemma wp_puts n nl s l fp pend w (Q : Z * FILE -> world -> Prop) :
  (write_fuel <= n)%nat -> size fp < Z.of_nat n -> (2 * length l + 3 < n)%nat ->
  mem_ok (w_mem w) -> writing fp (w_mem w) pend -> cstr (w_mem w) s l -> region_at fp (w_mem w) (s, l) ->
  region_at fp (w_mem w) (nl, [10]) -> post (file fp w ++ pend ++ l ++ [10]) 10 fp w Q ->
  wp n (_puts_r _write seek is_sseek malloc realloc free fstat isatty nl s fp) w Q.
Proof.
  intros Hn Hsz Hdn Hm Hw Hs HR HRn [HT HF]. pose proof (bytes_len _ _ _ Hm (proj1 HR)) as Hlen.
  cbn [fst snd] in Hlen. unfold _puts_r. wp_step. eapply wp_strlen; [done..|lia|]. wp_step.
  rewrite u32_small, i32_small by lia.
  pose proof (wp_sfvwrite_oriented False n [(s, l); (nl, [10])] fp pend w) as H.
  change (text [(s, l); (nl, [10])]) with (l ++ [10]) in H.
  replace (zlen l + 1) with (zlen (l ++ [10])) by (rewrite length_app; cbn; lia).
  apply H; [done..|rewrite length_app; cbn; lia|cbn; lia|rewrite length_app; cbn; lia|done|done| |done| |].
  - apply Forall_cons. split; [done|]. by apply Forall_singleton.
  - intros fp' w' Hok. wp_steps. by apply HT.
  - intros fp' w' k Herr Hk Hc. wp_steps. by apply HF.
Qed.
End spec.
