(* ===== verification/StdioOpen.v ===== *)
(** * Output streams: the buffer a stream gets

    [setvbuf] with the caller's buffer, and the first write to a stream, which
    allocates one, leave a stream that is being written in the sense of
    StdioSpec. *)

From S2P Require Import Prelude CMonad Words Memory StrScan MemCopy Heap Stdio StdioSpec.

(** A stream that is open for writing, without a buffer. *)
Record fresh (fp : FILE) : Prop := {
  fresh_open : flag fp __SWR = true;
  fresh_file : flag fp __SSTR = false;
  fresh_own : flag fp __SMBF = false;
  fresh_base : base fp = 0;
  fresh_lbfsize : _lbfsize fp = 0;
}.

Section setvbuf.
Context {_write} {W : writer _write}.
Context (seek : option (Z -> Z -> F Z)) (malloc : Z -> C Z) (free : Z -> C unit).

Definition mode_of (mode : Z) : buffer_mode :=
  if mode =? _IOFBF then FullyBuffered else if mode =? _IOLBF then LineBuffered else Unbuffered.

(** The buffer [setvbuf] sets. *)
Definition new_buffer (buf mode size : Z) (fp : FILE) : __sbuf :=
  if mode =? _IONBF then Sbuf (_nbuf fp) 1 else Sbuf buf size.

Definition rebuffered (buf mode sz : Z) (fp fp' : FILE) (m : mem) : Prop :=
  writing fp' m [] /\ buffering fp' = mode_of mode /\ _bf fp' = new_buffer buf mode sz fp /\
  _file fp' = _file fp.

Lemma writing_empty fp m : flag fp __SWR = true -> flag fp __SSTR = false -> 0 < size fp ->
  mapped m (base fp) (size fp) -> _p fp = base fp ->
  _lbfsize fp = match buffering fp with LineBuffered => - size fp | _ => 0 end ->
  _w fp = match buffering fp with FullyBuffered => size fp | _ => 0 end ->
  (buffering fp = Unbuffered -> size fp = 1 /\ flag fp __SLBF = false) -> writing fp m [].
Proof.
  intros. split; [split; try done; cbn; lia| |].
  - unfold settled. destruct (buffering fp); [done|set_solver|done].
  - unfold room. cbn. destruct (buffering fp); lia.
Qed.

(** The end of [setvbuf], once the stream is flushed. *)
Definition setvbuf_stream (buf mode sz : Z) (fp : FILE) : FILE :=
  let fp := clear_flag (Z.lor (Z.lor __SLBF __SNBF) __SMBF) (set_lbfsize 0 (set_r 0 fp)) in
  if mode =? _IONBF then set_bf (Sbuf (_nbuf fp) 1) (set_p (_nbuf fp) (set_w 0 (set_flag __SNBF fp)))
  else if mode =? _IOLBF
  then set_w 0 (set_bf (Sbuf buf sz) (set_p buf (set_lbfsize (- sz) (set_flag __SLBF fp))))
  else set_w sz (set_bf (Sbuf buf sz) (set_p buf fp)).

Lemma setvbuf_rebuffered buf mode sz fp m : flag fp __SWR = true -> flag fp __SSTR = false ->
  mode = _IOFBF \/ mode = _IOLBF \/ mode = _IONBF -> 0 < sz -> mapped m buf sz ->
  is_Some (m !! _nbuf fp) -> rebuffered buf mode sz fp (setvbuf_stream buf mode sz fp) m.
Proof.
  intros Ho Hf Hmode Hz Hmap Hnb. set (fp0 := clear_flag (Z.lor (Z.lor __SLBF __SNBF) __SMBF)
    (set_lbfsize 0 (set_r 0 fp))).
  assert (H1 : flag fp0 __SWR = true) by (unfold fp0; by rewrite flag_clear).
  assert (H2 : flag fp0 __SSTR = false) by (unfold fp0; by rewrite flag_clear).
  assert (H3 : flag fp0 __SNBF = false) by by apply flag_cleared.
  assert (H4 : flag fp0 __SLBF = false) by by apply flag_cleared.
  unfold rebuffered, setvbuf_stream. fold fp0. destruct Hmode as [ -> | [ -> | -> ] ]; cbv zeta;
    [change (_IOFBF =? _IONBF) with false; change (_IOFBF =? _IOLBF) with false
    |change (_IOLBF =? _IONBF) with false; change (_IOLBF =? _IOLBF) with true
    |change (_IONBF =? _IONBF) with true]; cbn iota.
  - set (fp1 := set_w _ _). assert (Eb : buffering fp1 = FullyBuffered).
    { unfold buffering. change (flag fp1) with (flag fp0). by rewrite H3, H4. }
    split; [|done]. apply writing_empty; rewrite ?Eb; try done.
  - set (fp1 := set_w _ _).
    assert (Hg : forall g, flag fp1 g = flag fp0 g || negb (Z.land __SLBF g =? 0)) by (intros g; apply flag_set).
    assert (Eb : buffering fp1 = LineBuffered) by (unfold buffering; by rewrite !Hg, H3, H4).
    split; [|done]. apply writing_empty; rewrite ?Eb, ?Hg; try done; [by rewrite H1|by rewrite H2].
  - set (fp1 := set_bf _ _).
    assert (Hg : forall g, flag fp1 g = flag fp0 g || negb (Z.land __SNBF g =? 0)) by (intros g; apply flag_set).
    assert (Eb : buffering fp1 = Unbuffered) by (unfold buffering; by rewrite !Hg, H3).
    split; [|done]. apply writing_empty; rewrite ?Eb, ?Hg; try done; [by rewrite H1|by rewrite H2| |by rewrite H4].
    intros a Ha. cbn in Ha. replace a with (_nbuf fp) by (cbn; lia). done.
Qed.

Lemma setvbuf_stream_error buf mode sz fp : flag (setvbuf_stream buf mode sz fp) __SERR = flag fp __SERR.
Proof.
  unfold setvbuf_stream. cbv zeta. set (fp0 := clear_flag _ _).
  assert (H : flag fp0 __SERR = flag fp __SERR) by (unfold fp0; by rewrite flag_clear).
  assert (Hset : forall g, Z.land g __SERR = 0 -> flag (set_flag g fp0) __SERR = flag fp __SERR).
  { intros g Hg. by rewrite flag_set, Hg, H, orb_false_r. }
  destruct (mode =? _IONBF); [by apply Hset|]. destruct (mode =? _IOLBF); [by apply Hset|exact H].
Qed.

Lemma wp_setvbuf_buffer n buf mode sz fp w (Q : Z * FILE -> world -> Prop) :
  flag fp __SWR = true -> flag fp __SMBF = false ->
  mode = _IOFBF \/ mode = _IOLBF \/ mode = _IONBF -> 0 < sz < 1073741824 /\ 0 < buf ->
  Q (0, setvbuf_stream buf mode sz fp) w -> wp n (setvbuf_buffer malloc free buf mode sz fp) w Q.
Proof.
  intros Ho Hown Hmode Hz HQ. unfold setvbuf_buffer, setvbuf_stream in *.
  change (flag (set_lbfsize 0 (set_r 0 fp)) __SMBF) with (flag fp __SMBF). rewrite Hown. wp_steps.
  set (fp0 := clear_flag _ _) in *.
  assert (H1 : flag fp0 __SWR = true) by (unfold fp0; by rewrite flag_clear).
  assert (H3 : flag fp0 __SNBF = false) by by apply flag_cleared.
  assert (H4 : flag fp0 __SLBF = false) by by apply flag_cleared.
  destruct Hmode as [ -> | [ -> | -> ] ]; cbn iota in HQ |- *;
    [change (_IOFBF =? _IONBF) with false in *; change (_IOFBF =? _IOLBF) with false in *
    |change (_IOLBF =? _IONBF) with false in *; change (_IOLBF =? _IOLBF) with true in *
    |change (_IONBF =? _IONBF) with true in *]; cbn iota in HQ |- *; [| |by wp_steps].
  - rewrite (proj2 (Z.eqb_neq buf 0)) by lia. wp_steps.
    set (fp1 := set_bf _ _). change (flag fp1) with (flag fp0). rewrite H1.
    rewrite flush_mode, i32_small by lia. unfold buffering.
    change (flag fp1) with (flag fp0). rewrite H3, H4. unfold fp1. by rewrite i32_small by lia.
  - rewrite (proj2 (Z.eqb_neq buf 0)) by lia. wp_steps.
    set (fp1 := set_bf _ _). change (flag fp1) with (flag (set_flag __SLBF fp0)).
    rewrite flush_mode. unfold buffering. change (flag fp1) with (flag (set_flag __SLBF fp0)).
    rewrite !flag_set, H1, H3, H4. unfold fp1.
    rewrite (proj2 (Z.eqb_neq buf 0)), !i32_small by lia. exact HQ.
Qed.

Lemma wp_setvbuf n buf mode sz fp pend w (Q : Z * FILE -> world -> Prop) :
  (write_fuel <= n)%nat -> size fp < Z.of_nat n -> mem_ok (w_mem w) ->
  (fresh fp /\ pend = []) \/ (writing fp (w_mem w) pend /\ flag fp __SMBF = false) ->
  mode = _IOFBF \/ mode = _IOLBF \/ mode = _IONBF -> 0 < sz -> mapped (w_mem w) buf sz ->
  is_Some (w_mem w !! _nbuf fp) ->
  (forall fp' w', w_mem w' = w_mem w -> rebuffered buf mode sz fp fp' (w_mem w') ->
    (exists j, file fp' w' = file fp w ++ take j pend /\
      (file fp' w' = file fp w ++ pend \/ flag fp' __SERR = true)) ->
    Q (0, fp') w') ->
  wp n (setvbuf _write seek malloc free buf mode sz fp) w Q.
Proof.
  intros Hn Hsz Hm Hfp Hmode Hz Hmap Hnb HQ. unfold setvbuf.
  destruct (mapped_bytes (w_mem w) buf sz) as (l & Hl & Hb); [lia|done|].
  assert (Hrange : 0 < buf /\ sz < 1073741824).
  { apply (mem_ok_range _ _ _ Hm) in Hb; [lia|]. intros ->. cbn in Hl. lia. }
  rewrite (i32_small sz) by lia.
  assert (Hmodes : (negb (mode =? _IOFBF) && negb (mode =? _IOLBF) && negb (mode =? _IONBF)) || (sz <? 0) = false).
  { rewrite (proj2 (Z.ltb_ge _ _)) by lia. by destruct Hmode as [ -> | [ -> | -> ] ]. }
  rewrite Hmodes.
  assert (Hrest : forall fp1 w1, w_mem w1 = w_mem w -> flag fp1 __SWR = true -> flag fp1 __SSTR = false ->
    flag fp1 __SMBF = false -> _nbuf fp1 = _nbuf fp -> _file fp1 = _file fp ->
    (exists j, file fp1 w1 = file fp w ++ take j pend /\
      (file fp1 w1 = file fp w ++ pend \/ flag fp1 __SERR = true)) ->
    wp n (setvbuf_buffer malloc free buf mode sz fp1) w1 Q).
  { intros fp1 w1 Hm1 Ho Hf Hown Enb Efile Hfile.
    apply wp_setvbuf_buffer; [done|done|done|lia|]. apply HQ; [done| |].
    - destruct (setvbuf_rebuffered buf mode sz fp1 (w_mem w1)) as (H1 & H2 & H3 & H4);
        [done..|by rewrite Hm1|by rewrite Hm1, Enb|].
      split; [done|]. split; [done|]. split; [|congruence].
      rewrite H3. unfold new_buffer. by rewrite Enb.
    - rewrite setvbuf_stream_error.
      replace (file (setvbuf_stream buf mode sz fp1)) with (file fp1); [done|].
      unfold file, setvbuf_stream. by destruct (mode =? _IONBF), (mode =? _IOLBF). }
  destruct Hfp as [[Hfr ->]|[Hw Hown]].
  - pose proof Hfr as []. unfold _fflush_r.
    assert (Eo := fresh_open0). unfold flag in Eo. apply negb_true_iff in Eo. rewrite Eo.
    rewrite (proj2 (Z.eqb_eq _ _) fresh_base0). wp_steps. apply Hrest; [done..|].
    exists 0%nat. rewrite take_nil, !app_nil_r. auto.
  - wp_step. eapply wp_fflush; [done..|by apply Hw| |].
    + intros fp1 w1 Hs Hm1 Hw1 Hf1. cbn beta iota.
      apply Hrest; [done|by apply Hw1|by apply Hw1|by rewrite (step_own _ _ _ _ Hs)|apply Hs|apply Hs|].
      exists (length pend). rewrite take_ge by done. auto.
    + intros j fp1 w1 Hs Hm1 Hw1 He Hf1. cbn beta iota.
      apply Hrest; [done|by apply Hw1|by apply Hw1|by rewrite (step_own _ _ _ _ Hs)|apply Hs|apply Hs|].
      exists j. auto.
Qed.
End setvbuf.

(** ** The first write *)

(** The questions about a descriptor change neither the memory nor the files. *)
Class file_status (_fstat_r : Z -> C (Z * Z)) (_isatty_r : Z -> C Z) := {
  status_fuel : nat;
  wp_fstat_r n fd w (Q : Z * Z -> world -> Prop) : (status_fuel <= n)%nat ->
    (forall r st_mode w', w_mem w' = w_mem w -> w_io w' = w_io w -> Q (r, st_mode) w') ->
    wp n (_fstat_r fd) w Q;
  wp_isatty_r n fd w (Q : Z -> world -> Prop) : (status_fuel <= n)%nat ->
    (forall r w', w_mem w' = w_mem w -> w_io w' = w_io w -> Q r w') ->
    wp n (_isatty_r fd) w Q;
}.

Section first_write.
Context {malloc : Z -> C Z} {free : Z -> C unit} {A : allocator malloc free}.
Context {fstat : Z -> C (Z * Z)} {isatty : Z -> C Z} {S : file_status fstat isatty}.
Context (is_sseek : bool).

(** Memory for a buffer was allocated, or there was none and the stream has the
    one byte of [_nbuf]. *)
Definition got_buffer (B : gmap Z Z) (fp fp' : FILE) (B' : gmap Z Z) : Prop :=
  (B !! base fp' = None /\ B' = <[base fp' := BUFSIZ]> B /\ size fp' = BUFSIZ /\ flag fp' __SNBF = false) \/
  (B' = B /\ base fp' = _nbuf fp /\ size fp' = 1 /\ flag fp' __SNBF = true).

(** A stream with its new buffer, before the room in it is set. *)
Record made_buffer (B : gmap Z Z) (fp fp' : FILE) (B' : gmap Z Z) (m : mem) : Prop := {
  mb_open : flag fp' __SWR = true;
  mb_text : flag fp' __SSTR = false;
  mb_file : _file fp' = _file fp;
  mb_lbfsize : _lbfsize fp' = 0;
  mb_p : _p fp' = base fp';
  mb_got : got_buffer B fp fp' B';
  mb_mapped : mapped m (base fp') (size fp');
}.

Lemma wp_smakebuf n B fp w (Q : FILE -> world -> Prop) :
  (alloc_fuel <= n)%nat -> (status_fuel <= n)%nat -> mem_ok (w_mem w) -> heap B (w_mem w) ->
  fresh fp -> is_Some (w_mem w !! _nbuf fp) -> client arena B (_nbuf fp) ->
  (forall B' fp' w', mem_ok (w_mem w') -> heap B' (w_mem w') -> kept arena B (w_mem w) (w_mem w') ->
    w_io w' = w_io w -> made_buffer B fp fp' B' (w_mem w') -> Q fp' w') ->
  wp n (__smakebuf_r is_sseek malloc fstat isatty fp) w Q.
Proof.
  intros Hn Hn' Hm Hh Hfr Hnb Hc HQ. pose proof Hfr as []. unfold __smakebuf_r.
  assert (Hone : forall m, is_Some (m !! _nbuf fp) -> mapped m (_nbuf fp) 1).
  { intros m H a Ha. by replace a with (_nbuf fp) by lia. }
  destruct (flag fp __SNBF) eqn:Enb; wp_steps.
  { apply (HQ B); [done..|]. split; try done; [by right|by apply Hone]. }
  eapply (wp_mono _ _ _ (fun _ w' => w_mem w' = w_mem w /\ w_io w' = w_io w)).
  { destruct (_file fp <? 0); wp_steps; [done|]. apply wp_fstat_r; [done|]. intros. by wp_steps. }
  intros [fails st_mode] w1 [Hm1 Hio1].
  set (x := if fails then _ else _). assert (Hx : exists tty fp0, x = (tty, BUFSIZ, fp0) /\ alike fp fp0).
  { unfold x. rewrite fresh_own0. destruct fails; [|destruct (_ && _)]; do 2 eexists; (split; [done|]);
      [by apply alike_set; repeat constructor| |by apply alike_set; repeat constructor].
    trans (set_flag __SOPT fp); [by apply alike_set; repeat constructor|]. split; [done..|].
    by rewrite Forall_forall. }
  clearbody x. destruct Hx as (tty & fp0 & -> & Ha). wp_step.
  assert (Hf : forall g, g ∈ [__SWR; __SSTR; __SNBF; __SLBF; __SMBF] -> flag fp0 g = flag fp g).
  { intros g Hg. by apply alike_flag. }
  assert (Hne : forall q B' w', heap (<[q := BUFSIZ]> B') (w_mem w') -> mem_ok (w_mem w') ->
    mapped (w_mem w') q BUFSIZ /\ q <> 0).
  { intros q B' w' Hh' Hm'. assert (Hmap := block_mapped _ _ q BUFSIZ Hh' (lookup_insert_eq _ _ _)).
    split; [done|]. intros ->. destruct (Hmap 0) as [b Hb]; [unfold BUFSIZ; lia|].
    apply (mem_ok_cell _ _ _ Hm') in Hb. lia. }
  eapply (wp_malloc n B); [done|by rewrite Hm1|by rewrite Hm1|unfold BUFSIZ; lia|..]; rewrite Hm1, Hio1.
  - intros w2 Hm2 Hio2 Hk2 Hh2. change (0 =? 0) with true. rewrite Hf, fresh_file0 by set_solver.
    wp_steps. rewrite (alike_nbuf _ _ Ha). set (fp1 := set_bf _ _).
    assert (Hg : forall g, flag fp1 g = flag fp0 g || negb (Z.land __SNBF g =? 0))
      by (intros; apply (flag_set fp0)).
    apply (HQ B); [done..|]. split.
    + by rewrite Hg, Hf by set_solver; rewrite fresh_open0.
    + by rewrite Hg, Hf by set_solver; rewrite fresh_file0.
    + apply (alike_file _ _ Ha).
    + change (_lbfsize fp0 = 0). by rewrite (alike_lbfsize _ _ Ha).
    + done.
    + right. split_and!; [done..|]. rewrite Hg. apply orb_true_r.
    + apply Hone. rewrite Hk2 by done. done.
  - intros q w2 Hm2 Hio2 Hk2 Hq Hh2. destruct (Hne _ _ _ Hh2 Hm2) as [Hmap Hq0].
    rewrite (proj2 (Z.eqb_neq _ _)) by done. wp_steps. set (fp1 := set_bf _ _).
    assert (Hmade : forall fp2, _bf fp2 = _bf fp1 -> _p fp2 = _p fp1 -> _file fp2 = _file fp1 ->
      _lbfsize fp2 = _lbfsize fp1 -> flag fp2 __SWR = true -> flag fp2 __SSTR = false -> flag fp2 __SNBF = false ->
      made_buffer B fp fp2 (<[q := BUFSIZ]> B) (w_mem w2)).
    { intros fp2 E1 E2 E3 E4 E5 E6 E7. split; rewrite ?E1, ?E2, ?E3, ?E4; try done.
      - apply (alike_file _ _ Ha).
      - change (_lbfsize fp0 = 0). by rewrite (alike_lbfsize _ _ Ha).
      - left. by rewrite E1. }
    assert (Hg : forall g, flag fp1 g = flag fp0 g || negb (Z.land __SMBF g =? 0))
      by (intros; apply (flag_set fp0)).
    assert (H1 : flag fp1 __SWR = true) by (by rewrite Hg, Hf by set_solver; rewrite fresh_open0).
    assert (H2 : flag fp1 __SSTR = false) by (by rewrite Hg, Hf by set_solver; rewrite fresh_file0).
    assert (H3 : flag fp1 __SNBF = false) by (by rewrite Hg, Hf by set_solver; rewrite Enb).
    eapply (wp_mono _ _ _ (fun _ w' => w_mem w' = w_mem w2 /\ w_io w' = w_io w2)).
    { destruct tty; wp_steps; [|done]. apply wp_isatty_r; [done|]. intros. by wp_steps. }
    intros tty' w3 [Hm3 Hio3].
    assert (Hq' : forall fp2, made_buffer B fp fp2 (<[q := BUFSIZ]> B) (w_mem w2) -> Q fp2 w3).
    { intros fp2 H. apply (HQ (<[q := BUFSIZ]> B)); rewrite ?Hm3, ?Hio3; done. }
    wp_steps. destruct tty'; apply Hq', Hmade; try done; rewrite flag_set; by rewrite ?H1, ?H2, ?H3.
Qed.

(** The first write sets the stream up.  With no memory, a stream that was to be
    line buffered has both flags. *)
Lemma wp_cantwrite_fresh n B fp w (Q : bool * FILE -> world -> Prop) :
  (alloc_fuel <= n)%nat -> (status_fuel <= n)%nat -> mem_ok (w_mem w) -> heap B (w_mem w) ->
  fresh fp -> is_Some (w_mem w !! _nbuf fp) -> client arena B (_nbuf fp) ->
  (forall B' fp' w', mem_ok (w_mem w') -> heap B' (w_mem w') -> kept arena B (w_mem w) (w_mem w') ->
    w_io w' = w_io w -> _file fp' = _file fp -> got_buffer B fp fp' B' ->
    writing fp' (w_mem w') [] \/ (flag fp' __SLBF = true /\ flag fp' __SNBF = true) ->
    Q (false, fp') w') ->
  wp n (cantwrite is_sseek malloc free fstat isatty fp) w Q.
Proof.
  intros Hn Hn' Hm Hh Hfr Hnb Hc HQ. pose proof Hfr as []. unfold cantwrite.
  rewrite fresh_open0. rewrite (proj2 (Z.eqb_eq _ _) fresh_base0). cbn [negb orb].
  unfold __swsetup_r. rewrite fresh_open0. wp_steps.
  rewrite fresh_file0, (proj2 (Z.eqb_eq _ _) fresh_base0). cbn [andb orb negb]. wp_steps.
  eapply wp_smakebuf; [done..|]. intros B' fp1 w1 Hm1 Hh1 Hk1 Hio1 []. wp_steps.
  assert (Hsz : 0 < size fp1) by (destruct mb_got0; unfold BUFSIZ in *; naive_solver lia).
  assert (Hb : base fp1 <> 0).
  { intros E. destruct (mb_mapped0 (base fp1)) as [b Hb]; [lia|]. rewrite E in Hb.
    apply (mem_ok_cell _ _ _ Hm1) in Hb. lia. }
  set (fp2 := if flag fp1 __SLBF then _ else _).
  assert (H2 : _bf fp2 = _bf fp1 /\ _p fp2 = _p fp1 /\ _file fp2 = _file fp1 /\
    forall g, flag fp2 g = flag fp1 g) by (unfold fp2; by destruct (flag fp1 __SLBF)).
  destruct H2 as (E1 & E2 & E3 & Ef).
  rewrite E1, (proj2 (Z.eqb_neq (base fp1) 0)) by done. cbn [andb].
  change (negb (0 =? 0)) with false.
  apply (HQ B'); [done..|congruence| |].
  { unfold got_buffer in *. by rewrite E1, Ef. }
  destruct (flag fp1 __SLBF) eqn:El, (flag fp1 __SNBF) eqn:En; [right; by rewrite !Ef|left..];
    apply writing_empty; rewrite ?E1, ?E2, ?Ef; try done; unfold buffering; rewrite ?Ef, ?El, ?En; try done;
    unfold fp2; try rewrite El; try rewrite En; try done.
  intros _. by destruct mb_got0 as [(_ & _ & _ & ?)|(_ & _ & ? & _)]; [congruence|].
Qed.
End first_write.
