(* ===== verification/StdioIn.v ===== *)
(** * Input streams: stdio/refill.c, rget.c, getc.c, fgetc.c, ungetc.c, fread.c,
    fgets.c, fclose.c, fwalk.c, flags.c, feof.c, ferror.c, clearerr.c

    The streams are those of Stdio; a function that may fill a buffer takes and
    returns the other streams of the program too, since the line buffered ones are
    flushed before a terminal is read. *)

From S2P Require Import Prelude CMonad Words Memory StrScan MemCopy Stdio.

Definition EINVAL : Z := 22.
Definition O_RDONLY : Z := 0.
Definition O_WRONLY : Z := 1.
Definition O_RDWR : Z := 2.
Definition O_APPEND : Z := 0x0008.
Definition O_CREAT : Z := 0x0200.
Definition O_TRUNC : Z := 0x0400.

(** The other fields of [FILE]. *)
Definition set_up (x : Z) (fp : FILE) : FILE :=
  File (_p fp) (_r fp) (_w fp) (_flags fp) (_file fp) (_bf fp) (_lbfsize fp) (_ub fp)
    x (_ur fp) (_ubuf fp) (_nbuf fp) (_blksize fp) (_offset fp) (_flags2 fp).
Definition set_ur (x : Z) (fp : FILE) : FILE :=
  File (_p fp) (_r fp) (_w fp) (_flags fp) (_file fp) (_bf fp) (_lbfsize fp) (_ub fp)
    (_up fp) x (_ubuf fp) (_nbuf fp) (_blksize fp) (_offset fp) (_flags2 fp).

(** [sizeof (fp->_ubuf)] *)
Definition sizeof_ubuf : Z := 3.

(** A function of a stream and of the others. *)
Definition I (A : Type) : Type := FILE -> list FILE -> C (A * FILE * list FILE).

Section system.
Context (_read_r : Z -> Z -> Z -> C Z) (_close_r : Z -> C Z).

(** ** stdio/stdio.c *)

Definition __sread (buf n : Z) : F Z := fun fp =>
  ret ← _read_r (_file fp) buf n;
  if 0 <=? ret then mret (ret, set_offset (i32 (_offset fp + ret)) fp)
  else mret (ret, clear_flag __SOFF fp).

Definition __sclose (fp : FILE) : C Z := _close_r (_file fp).
End system.

(** ** stdio/fwalk.c *)

(** The streams in use of a list. *)
Fixpoint __fwalk (function : F Z) (fps : list FILE) (ret : Z) : C (Z * list FILE) :=
  match fps with
  | [] => mret (ret, [])
  | fp :: fps =>
      '(ret, fp) ← (if negb (_flags fp =? 0) && negb (_file fp =? -1)
        then '(r, fp) ← function fp; mret (Z.lor ret r, fp) else mret (ret, fp));
      '(ret, fps) ← __fwalk function fps ret;
      mret (ret, fp :: fps)
  end.

(** ** stdio/flags.c: the flags, and [*optr] *)

Definition __sflags (mode : Z) : C (Z * Z) :=
  m0 ← load8s mode;
  let open (ret m o : Z) : C (Z * Z) :=
    m1 ← load8s (mode + 1);
    plus ← (if m1 =? 0 then mret false else if m1 =? 43 then mret true
            else m2 ← load8s (mode + 2); mret (m2 =? 43));
    let '(ret, m) :=
      if plus : bool then (Z.lor (Z.land ret (Z.lnot (Z.lor __SRD __SWR))) __SRW, O_RDWR) else (ret, m) in
    mret (ret, Z.lor m o) in
  if m0 =? 114 then open __SRD O_RDONLY 0
  else if m0 =? 119 then open __SWR O_WRONLY (Z.lor O_CREAT O_TRUNC)
  else if m0 =? 97 then open (Z.lor __SWR __SAPP) O_WRONLY (Z.lor O_CREAT O_APPEND)
  else put_errno EINVAL ;; mret (0, 0).

(** ** stdio/feof.c, ferror.c, clearerr.c *)

Definition feof (fp : FILE) : bool := flag fp __SEOF.
Definition ferror (fp : FILE) : bool := flag fp __SERR.
Definition clearerr (fp : FILE) : FILE := clear_flag (Z.lor __SERR __SEOF) fp.

(** The functions of a stream, the allocator and the system, as in Stdio; the
    streams of the program share them. *)
Section stdio.
Context `{build}.
Context (_read : Z -> Z -> F Z) (_write : Z -> Z -> F Z) (_seek : option (Z -> Z -> F Z)) (_seek_is___sseek : bool).
Context (_close : option (FILE -> C Z)).
Context (malloc : Z -> C Z) (realloc : Z -> Z -> C Z) (free : Z -> C unit).
Context (_fstat_r : Z -> C (Z * Z)) (_isatty_r : Z -> C Z).

(** ** stdio/refill.c *)

Definition lflush : F Z := fun fp =>
  if Z.land (_flags fp) (Z.lor __SLBF __SWR) =? Z.lor __SLBF __SWR
  then _fflush_r _write _seek free fp else mret (0, fp).

(** To the point where the buffer is to be filled, reading. *)
Definition refill_switch (fp : FILE) : C (flow FILE (Z * FILE)) :=
  if flag fp __SEOF then return_ (EOF, fp)
  else if negb (flag fp __SRD) then
    if negb (flag fp __SRW) then put_errno EBADF ;; return_ (EOF, set_flag __SERR fp) else
    fp ⟸ (if flag fp __SWR then
        '(r, fp) ← _fflush_r _write _seek free fp;
        if negb (r =? 0) then return_ (EOF, fp)
        else fall (set_lbfsize 0 (set_w 0 (clear_flag __SWR fp)))
      else fall fp);
    fall (set_flag __SRD fp)
  else if HASUB fp then
    fp ← FREEUB free fp;
    let fp := set_r (_ur fp) fp in
    if negb (_r fp =? 0) then return_ (0, set_p (_up fp) fp) else fall fp
  else fall fp.

(** The list of the streams has this one too: it is visited after the others. *)
Definition refill_walk (fp : FILE) (fps : list FILE) : C (FILE * list FILE) :=
  if negb (Z.land (_flags fp) (Z.lor __SLBF __SNBF) =? 0) then
    '(_, fps) ← __fwalk lflush fps 0;
    '(_, fp) ← lflush fp;
    mret (fp, fps)
  else mret (fp, fps).

(** The read, and what it yields. *)
Definition refill_fill : I Z := fun fp fps =>
  let fp := set_p (_base (_bf fp)) fp in
  '(r, fp) ← _read (_p fp) (_size (_bf fp)) fp;
  let fp := set_r r fp in
  if r <=? 0 then
    mret (EOF, if r =? 0 then set_flag __SEOF fp else set_flag __SERR (set_r 0 fp), fps)
  else mret (0, fp, fps).

(** The rest of the function. *)
Definition refill_read : I Z := fun fp fps =>
  fp ← (if _base (_bf fp) =? 0 then __smakebuf_r _seek_is___sseek malloc _fstat_r _isatty_r fp else mret fp);
  '(fp, fps) ← refill_walk fp fps;
  refill_fill fp fps.

Definition __srefill_r : I Z := fun fp fps =>
  let fp := set_r 0 (ORIENT fp) in
  s ← refill_switch fp;
  match s with
  | Return (r, fp) => mret (r, fp, fps)
  | Fall fp => refill_read fp fps
  end.

(** ** stdio/rget.c, getc.c, fgetc.c *)

Definition __srget_r : I Z := fun fp fps =>
  '(r, fp, fps) ← __srefill_r fp fps;
  if r =? 0 then
    let fp := set_r (i32 (_r fp - 1)) fp in
    c ← load8 (_p fp);
    mret (c, set_p (_p fp + 1) fp, fps)
  else mret (EOF, fp, fps).

(** The macro [__sgetc_raw_r]. *)
Definition __sgetc_r : I Z := fun fp fps =>
  let fp := set_r (i32 (_r fp - 1)) fp in
  if _r fp <? 0 then __srget_r fp fps
  else c ← load8 (_p fp); mret (c, set_p (_p fp + 1) fp, fps).

Definition _getc_r : I Z := __sgetc_r.
Definition _fgetc_r : I Z := __sgetc_r.

(** ** stdio/ungetc.c *)

Definition __submore : F Z := fun fp =>
  if _base (_ub fp) =? _ubuf fp then
    p ← malloc BUFSIZ;
    if p =? 0 then mret (EOF, fp) else
    let fp := set_ub (Sbuf p BUFSIZ) fp in
    let p := p + (BUFSIZ - sizeof_ubuf) in
    loop (fun i =>
      let i := i - 1 in
      if 0 <=? i then c ← load8 (_ubuf fp + i); store8 (p + i) c ;; next i
      else brk tt) sizeof_ubuf ;;
    mret (0, set_p p fp)
  else
    let i := _size (_ub fp) in
    p ← realloc (_base (_ub fp)) (u32 (i32 (Z.shiftl i 1)));
    if p =? 0 then mret (EOF, fp) else
    memcpy (p + i) p (u32 i) ;;
    mret (0, set_ub (Sbuf p (i32 (Z.shiftl i 1))) (set_p (p + i) fp)).

(** The character is pushed back in front of the one that is next. *)
Definition ungetc_push (c : Z) : F Z := fun fp =>
  if HASUB fp then
    '(full, fp) ← (if _size (_ub fp) <=? _r fp then
        '(r, fp) ← __submore fp; mret (negb (r =? 0), fp) else mret (false, fp));
    if full : bool then mret (EOF, fp) else
    let fp := set_p (_p fp - 1) fp in
    store8 (_p fp) c ;;
    mret (c, set_r (i32 (_r fp + 1)) fp)
  else
    back ← (if negb (_base (_bf fp) =? 0) && (_base (_bf fp) <? _p fp)
            then x ← load8 (_p fp - 1); mret (x =? c) else mret false);
    if back : bool then mret (c, set_r (i32 (_r fp + 1)) (set_p (_p fp - 1) fp))
    else
      let fp := set_up (_p fp) (set_ur (_r fp) fp) in
      let fp := set_ub (Sbuf (_ubuf fp) sizeof_ubuf) fp in
      store8 (_ubuf fp + sizeof_ubuf - 1) c ;;
      mret (c, set_r 1 (set_p (_ubuf fp + sizeof_ubuf - 1) fp)).

Definition _ungetc_r (c : Z) : F Z := fun fp =>
  if c =? EOF then mret (EOF, fp) else
  let fp := clear_flag __SEOF (ORIENT fp) in
  fp ⇐ (if negb (flag fp __SRD) then
      if negb (flag fp __SRW) then return_ (EOF, fp) else
      fp ⟸ (if flag fp __SWR then
          '(r, fp) ← _fflush_r _write _seek free fp;
          if negb (r =? 0) then return_ (EOF, fp)
          else fall (set_lbfsize 0 (set_w 0 (clear_flag __SWR fp)))
        else fall fp);
      fall (set_flag __SRD fp)
    else fall fp);
  ungetc_push (u8 c) fp.

(** ** stdio/fread.c *)

(** The unbuffered stream reads into the memory of the caller: what is left to
    read, and whether the file ended. *)
Definition fread_direct (s : Z * Z * FILE * list FILE)
    : C (Z * Z * FILE * list FILE + bool * Z * FILE * list FILE) :=
  let '(p, resid, fp, fps) := s in
  if 0 <? resid then
    let old_base := _base (_bf fp) in
    let old_p := _p fp in
    let old_size := _size (_bf fp) in
    let fp := set_p p (set_bf (Sbuf p (i32 resid)) fp) in
    '(rc, fp, fps) ← __srefill_r fp fps;
    let fp := set_p old_p (set_bf (Sbuf old_base old_size) fp) in
    let resid := u32 (resid - _r fp) in
    let p := p + _r fp in
    let fp := set_r 0 fp in
    if negb (rc =? 0) then brk (false, resid, fp, fps) else next (p, resid, fp, fps)
  else brk (true, resid, fp, fps).

(** The loop of the buffered one: the last part is in the buffer. *)
Definition fread_buffered (s : Z * Z * FILE * list FILE)
    : C (Z * Z * FILE * list FILE + (bool * Z * Z * FILE * list FILE)) :=
  let '(p, resid, fp, fps) := s in
  let r := _r fp in
  if u32 r <? resid then
    memcpy p (_p fp) (u32 r) ;;
    let fp := set_p (_p fp + r) fp in
    let p := p + r in
    let resid := u32 (resid - r) in
    '(rc, fp, fps) ← __srefill_r fp fps;
    if negb (rc =? 0) then brk (false, p, resid, fp, fps) else next (p, resid, fp, fps)
  else brk (true, p, resid, fp, fps).

Definition _fread_r (buf size count : Z) : I Z := fun fp fps =>
  let resid := u32 (count * size) in
  if resid =? 0 then mret (0, fp, fps) else
  let fp := ORIENT fp in
  let fp := if _r fp <? 0 then set_r 0 fp else fp in
  let total := resid in
  let p := buf in
  if negb PREFER_SIZE_OVER_SPEED && flag fp __SNBF then
    let copy_size := if u32 (_r fp) <? resid then _r fp else i32 resid in
    memcpy p (_p fp) (u32 copy_size) ;;
    let fp := set_r (i32 (_r fp - copy_size)) (set_p (_p fp + copy_size) fp) in
    let p := p + copy_size in
    let resid := u32 (resid - copy_size) in
    fp ← (if HASUB fp && (0 <? resid) then FREEUB free fp else mret fp);
    '(ok, resid, fp, fps) ← loop fread_direct (p, resid, fp, fps);
    if ok : bool then mret (count, fp, fps) else mret (u32 (total - resid) / size, fp, fps)
  else
    '(ok, p, resid, fp, fps) ← loop fread_buffered (p, resid, fp, fps);
    if ok : bool then
      memcpy p (_p fp) resid ;;
      mret (count, set_p (_p fp + resid) (set_r (i32 (_r fp - resid)) fp), fps)
    else mret (u32 (total - resid) / size, fp, fps).

(** ** stdio/fgets.c *)

(** What is at hand of the line, which is [len] characters or more: [Some] of the
    result, or where the null goes. *)
Definition fgets_part (buf s n len : Z) (fp : FILE) (fps : list FILE)
    : C (Z * Z * FILE * list FILE + (option Z * Z * FILE * list FILE)) :=
  let p := _p fp in
  let len := if u32 n <? len then u32 n else len in
  t ← memchr p 10 len;
  if negb (t =? 0) then
    let t := t + 1 in
    let len := u32 (t - p) in
    let fp := set_p t (set_r (i32 (_r fp - len)) fp) in
    memcpy s p len ;;
    store8 (s + len) 0 ;;
    brk (Some buf, s, fp, fps)
  else
    let fp := set_p (_p fp + len) (set_r (i32 (_r fp - len)) fp) in
    memcpy s p len ;;
    let s := s + len in
    let n := i32 (n - len) in
    if negb (n =? 0) then next (s, n, fp, fps) else brk (None, s, fp, fps).

(** A chunk of the line. *)
Definition fgets_chunk (buf : Z) (s : Z * Z * FILE * list FILE)
    : C (Z * Z * FILE * list FILE + (option Z * Z * FILE * list FILE)) :=
  let '(s, n, fp, fps) := s in
  '(rc, len, fp, fps) ← (if u32 (_r fp) <=? 0 then
      '(rc, fp, fps) ← __srefill_r fp fps; mret (rc, u32 (_r fp), fp, fps)
    else mret (0, u32 (_r fp), fp, fps));
  if negb (rc =? 0) then brk (if s =? buf then Some 0 else None, s, fp, fps) else fgets_part buf s n len fp fps.

Definition _fgets_r (buf n : Z) : I Z := fun fp fps =>
  if n <? 2 then mret (0, fp, fps) else
  '(r, s, fp, fps) ← loop (fgets_chunk buf) (buf, n - 1, fp, fps);
  match r with
  | Some r => mret (r, fp, fps)
  | None => store8 s 0 ;; mret (buf, fp, fps)
  end.

(** ** stdio/fclose.c *)

(** [_lb], the buffer of fgetline, is null: no function of the library sets it. *)
Definition _fclose_r : F Z := fun fp =>
  if _flags fp =? 0 then mret (0, fp) else
  '(r, fp) ← _fflush_r _write _seek free fp;
  r ← (match _close with
       | Some close => x ← close fp; mret (if x <? 0 then EOF else r)
       | None => mret r
       end);
  (if flag fp __SMBF then free (_base (_bf fp)) else mret tt) ;;
  fp ← (if HASUB fp then FREEUB free fp else mret fp);
  mret (r, set_flags 0 fp).

(** ** stdio/findfp.c: at the exit of the program *)

Definition _cleanup_r (fps : list FILE) : C (list FILE) :=
  '(_, fps) ← __fwalk _fclose_r fps 0; mret fps.
End stdio.
