(* ===== verification/StdioInSpec.v ===== *)
(** * Input streams: what the program reads is what the file holds

    The stream is what is in its buffers, pushed back characters first, followed by
    what remains of the file.  Reading takes from the front, pushing back puts to
    the front; filling the buffer changes nothing. *)

From S2P Require Import Prelude CMonad Words Memory StrScan MemCopy Stdio StdioSpec StdioIn.

(** Streams that differ in what input does not depend on. *)
Definition input_flags : list Z := [__SLBF; __SNBF; __SRD; __SWR; __SRW; __SEOF; __SERR; __SMBF; __SSTR].

(** One of these flags. *)
Ltac in_flags := unfold input_flags; rewrite !elem_of_cons; tauto.

Record ialike (fp fp' : FILE) : Prop := {
  ia_p : _p fp' = _p fp; ia_r : _r fp' = _r fp; ia_file : _file fp' = _file fp; ia_bf : _bf fp' = _bf fp;
  ia_ub : _ub fp' = _ub fp; ia_up : _up fp' = _up fp; ia_ur : _ur fp' = _ur fp; ia_ubuf : _ubuf fp' = _ubuf fp;
  ia_nbuf : _nbuf fp' = _nbuf fp;
  ia_flags : Forall (fun g => flag fp' g = flag fp g) input_flags;
}.

#[export] Instance ialike_preorder : PreOrder ialike.
Proof.
  split.
  - intros fp. split; try done. by rewrite Forall_forall.
  - intros fp1 fp2 fp3 [] []. split; [congruence..|].
    rewrite Forall_forall in *. intros g Hg. by rewrite ia_flags1, ia_flags0.
Qed.

Lemma ialike_flag fp fp' g : ialike fp fp' -> g ∈ input_flags -> flag fp' g = flag fp g.
Proof. intros []. rewrite Forall_forall in ia_flags0. apply ia_flags0. Qed.

Lemma ialike_set f fp : Forall (fun g => Z.land f g = 0) input_flags -> ialike fp (set_flag f fp).
Proof.
  intros H. split; try done. eapply Forall_impl; [exact H|]. intros g Hg. cbv beta in Hg.
  by rewrite flag_set, Hg, orb_false_r.
Qed.

Lemma ialike_clear f fp : Forall (fun g => Z.land f g = 0) input_flags -> ialike fp (clear_flag f fp).
Proof. intros H. split; try done. eapply Forall_impl; [exact H|]. intros g Hg. by apply flag_clear. Qed.

Lemma ialike_ORIENT fp : ialike fp (ORIENT fp).
Proof.
  unfold ORIENT. destruct (flag fp __SORD); [done|].
  trans (set_flag __SORD fp); [by apply ialike_set; repeat constructor|]. split; try done. by rewrite Forall_forall.
Qed.

(** ** The file behind an input stream *)

(** A read fails, or finds the end of the file, or takes some of what remains. *)
Class reader (read : Z -> Z -> F Z) := {
  remaining : Z -> io -> list Z;
  read_fuel : nat;
  wp_read n p k fp w (Q : Z * FILE -> world -> Prop) :
    (read_fuel <= n)%nat -> mem_ok (w_mem w) -> 0 < k < 2147483648 -> mapped (w_mem w) p k ->
    (forall r fp' w', ialike fp fp' -> w_mem w' = w_mem w -> r < 0 ->
      remaining (_file fp) (w_io w') = remaining (_file fp) (w_io w) -> Q (r, fp') w') ->
    (forall fp' w', ialike fp fp' -> w_mem w' = w_mem w -> remaining (_file fp) (w_io w) = [] ->
      remaining (_file fp) (w_io w') = [] -> Q (0, fp') w') ->
    (forall l fp' w', ialike fp fp' -> l <> [] -> zlen l <= k -> Forall (fun b => is_byte b) l ->
      w_mem w' = store_bytes p l (w_mem w) ->
      remaining (_file fp) (w_io w) = l ++ remaining (_file fp) (w_io w') -> Q (zlen l, fp') w') ->
    wp n (read p k fp) w Q;
}.

(** The system's descriptors, for [__sread]. *)
Class source (_read_r : Z -> Z -> Z -> C Z) := {
  unread : Z -> io -> list Z;
  source_fuel : nat;
  wp_read_r n fd p k w (Q : Z -> world -> Prop) :
    (source_fuel <= n)%nat -> mem_ok (w_mem w) -> 0 < k < 2147483648 -> mapped (w_mem w) p k ->
    (forall r w', w_mem w' = w_mem w -> r < 0 -> unread fd (w_io w') = unread fd (w_io w) -> Q r w') ->
    (forall w', w_mem w' = w_mem w -> unread fd (w_io w) = [] -> unread fd (w_io w') = [] -> Q 0 w') ->
    (forall l w', l <> [] -> zlen l <= k -> Forall (fun b => is_byte b) l -> w_mem w' = store_bytes p l (w_mem w) ->
      unread fd (w_io w) = l ++ unread fd (w_io w') -> Q (zlen l) w') ->
    wp n (_read_r fd p k) w Q;
}.

#[export, refine] Instance __sread_reader {_read_r} (D : source _read_r) : reader (__sread _read_r) := {
  remaining := unread;
  read_fuel := source_fuel;
}.
Proof.
  intros n p k fp w Q Hn Hm Hk Hmap He H0 Hl. unfold __sread. wp_step.
  assert (Hset : forall x, ialike fp (set_offset x fp)) by (intros; split; try done; by rewrite Forall_forall).
  apply wp_read_r; [done..| | |].
  - intros r w' Hm' Hr Hu. rewrite (proj2 (Z.leb_gt _ _)) by lia. wp_steps.
    apply He; [by apply ialike_clear; repeat constructor|done..].
  - intros w' Hm' Hu Hu'. change (0 <=? 0) with true. wp_steps. by apply H0.
  - intros l w' Hne Hle Hb Hm' Hu. rewrite (proj2 (Z.leb_le _ _)) by lia. wp_steps. by apply Hl.
Defined.

(** ** Streams being read *)

(** What an operation leaves of the stream itself. *)
Record kept (fp fp' : FILE) : Prop := {
  kept_bf : _bf fp' = _bf fp;
  kept_file : _file fp' = _file fp;
  kept_ubuf : _ubuf fp' = _ubuf fp;
  kept_snbf : flag fp' __SNBF = flag fp __SNBF;
  kept_slbf : flag fp' __SLBF = flag fp __SLBF;
}.

#[export] Instance kept_preorder : PreOrder kept.
Proof. split; [by intros fp|]. intros fp1 fp2 fp3 [] []. split; congruence. Qed.

Lemma ialike_kept fp fp' : ialike fp fp' -> kept fp fp'.
Proof. intros H. pose proof H as []. split; try done; apply (ialike_flag _ _ _ H); in_flags. Qed.

(** [l1] is at hand; [l2], what was read ahead when a character was pushed back into
    the small buffer of the stream, is to be read after it. *)
Record rdata (fp : FILE) (m : mem) (l1 l2 : list Z) : Prop := {
  rd_open : flag fp __SRD = true;
  rd_nowrite : flag fp __SWR = false;
  rd_size : 0 < size fp < 2147483648;
  rd_mapped : mapped m (base fp) (size fp);
  rd_ubuf : mapped m (_ubuf fp) sizeof_ubuf;
  rd_apart : disjoint_ranges (base fp) (size fp) (_ubuf fp) sizeof_ubuf;
  rd_now : bytes m (_p fp) l1;
  rd_r : _r fp = zlen l1;
  rd_where :
    if HASUB fp then
      _ub fp = Sbuf (_ubuf fp) sizeof_ubuf /\ _ubuf fp <= _p fp /\ _p fp + zlen l1 = _ubuf fp + sizeof_ubuf /\
      bytes m (_up fp) l2 /\ _ur fp = zlen l2 /\ base fp <= _up fp /\ _up fp + zlen l2 <= base fp + size fp
    else base fp <= _p fp /\ _p fp + zlen l1 <= base fp + size fp /\ l2 = [];
}.

(** The addresses that are the stream's. *)
Definition own (fp : FILE) (a : Z) : Prop :=
  base fp <= a < base fp + size fp \/ _ubuf fp <= a < _ubuf fp + sizeof_ubuf.

Lemma own_kept fp fp' a : kept fp fp' -> own fp' a <-> own fp a.
Proof. intros []. unfold own. by rewrite kept_bf0, kept_ubuf0. Qed.

(** An output stream that is flushed before input from a terminal. *)
Definition line_output (g : FILE) : Prop :=
  _file g <> -1 /\ flag g __SLBF = true /\ flag g __SWR = true.

Lemma ialike_rdata fp fp' m l1 l2 : ialike fp fp' -> rdata fp m l1 l2 -> rdata fp' m l1 l2.
Proof.
  intros H []. pose proof H as [].
  split; unfold HASUB in *; rewrite ?ia_p0, ?ia_r0, ?ia_bf0, ?ia_ub0, ?ia_up0, ?ia_ur0, ?ia_ubuf0; try done;
    rewrite (ialike_flag _ _ _ H); done || (in_flags).
Qed.

Lemma ialike_set_r x fp fp' : ialike fp fp' -> ialike (set_r x fp) (set_r x fp').
Proof. by intros []. Qed.
Lemma ialike_set_p x fp fp' : ialike fp fp' -> ialike (set_p x fp) (set_p x fp').
Proof. by intros []. Qed.

(** Reading takes from what is at hand. *)
Lemma rdata_take fp m l1 l2 k : rdata fp m l1 l2 -> 0 <= k <= _r fp ->
  rdata (set_p (_p fp + k) (set_r (_r fp - k) fp)) m (drop (Z.to_nat k) l1) l2.
Proof.
  intros [] Hk. rewrite rd_r0 in Hk.
  rewrite <-(take_drop (Z.to_nat k) l1) in rd_now0. apply bytes_app in rd_now0 as [_ Hb].
  rewrite length_take_le in Hb by lia. rewrite Z2Nat.id in Hb by lia.
  split; try done.
  - cbn. rewrite length_drop. lia.
  - change (HASUB (set_p (_p fp + k) (set_r (_r fp - k) fp))) with (HASUB fp).
    cbn [_p _up _ur _ub _ubuf _bf set_p set_r]. rewrite length_drop.
    destruct (HASUB fp); [|split_and!; [lia..|apply rd_where0]].
    destruct rd_where0 as (? & ? & ? & ? & ? & ? & ?). split_and!; try done; lia.
Qed.

(** Memory that is not the stream's is of no account. *)
Lemma bytes_same m m' p l : (forall a, p <= a < p + zlen l -> m' !! a = m !! a) -> bytes m p l -> bytes m' p l.
Proof. intros H Hb. by apply (bytes_frame m). Qed.

Lemma mapped_same m m' p k : (forall a, p <= a < p + k -> m' !! a = m !! a) -> mapped m p k -> mapped m' p k.
Proof. intros H Hb a Ha. rewrite H by done. by apply Hb. Qed.

Lemma rdata_frame fp m m' l1 l2 : (forall a, own fp a -> m' !! a = m !! a) ->
  rdata fp m l1 l2 -> rdata fp m' l1 l2.
Proof.
  intros H [].
  assert (H1 : forall q l, base fp <= q -> q + zlen l <= base fp + size fp -> bytes m q l -> bytes m' q l).
  { intros q l Hq1 Hq2. apply bytes_same. intros a Ha. apply H. left. lia. }
  assert (H2 : forall q l, _ubuf fp <= q -> q + zlen l <= _ubuf fp + sizeof_ubuf -> bytes m q l -> bytes m' q l).
  { intros q l Hq1 Hq2. apply bytes_same. intros a Ha. apply H. right. lia. }
  split; try done.
  - eapply mapped_same; [|done]. intros a Ha. apply H. by left.
  - eapply mapped_same; [|done]. intros a Ha. apply H. by right.
  - destruct (HASUB fp); [apply H2|apply H1]; try done; lia.
  - destruct (HASUB fp); [|done]. destruct rd_where0 as (? & ? & ? & ? & ? & ? & ?).
    split_and!; try done. by apply H1.
Qed.

(** ** The walk over the output streams *)

Lemma bind_Done_inv {A B} (c : C A) (f : A -> C B) n w b w' : (c ≫= f) n w = Done b w' ->
  exists a w1, c n w = Done a w1 /\ f a n w1 = Done b w'.
Proof. unfold mbind, C_bind. destruct (c n w) as [a w1| |]; [by eauto|done..]. Qed.

Lemma Forall2_impl_l {A B} (P Q : A -> B -> Prop) l k :
  Forall2 P l k -> (forall x y, x ∈ l -> P x y -> Q x y) -> Forall2 Q l k.
Proof.
  induction 1 as [|x y l k Hxy _ IH]; intros H; constructor; [by apply H; [left|]|].
  apply IH. intros x' y' Hx. apply H. by right.
Qed.

Lemma ret_done {A} (a : A) n w b w' : (mret a : C A) n w = Done b w' -> b = a /\ w' = w.
Proof. by intros [= -> ->]. Qed.

Lemma flag_bit fp k : 0 <= k -> flag fp (2 ^ k) = Z.testbit (_flags fp) k.
Proof.
  intros Hk. unfold flag. destruct (Z.testbit (_flags fp) k) eqn:E.
  - apply negb_true_iff, Z.eqb_neq. intros H. apply (f_equal (fun x => Z.testbit x k)) in H.
    by rewrite Z.land_spec, E, Z.pow2_bits_true, Z.bits_0 in H.
  - apply negb_false_iff, Z.eqb_eq, Z.bits_inj'. intros i Hi.
    rewrite Z.land_spec, Z.pow2_bits_eqb, Z.bits_0 by done.
    destruct (Z.eqb_spec k i) as [<-|]; [by rewrite E|apply andb_false_r].
Qed.

(** The condition of [lflush]. *)
Lemma lflush_flags g : (Z.land (_flags g) (Z.lor __SLBF __SWR) =? Z.lor __SLBF __SWR) =
  (flag g __SLBF && flag g __SWR).
Proof.
  change __SLBF with (2 ^ 0). change __SWR with (2 ^ 3). rewrite !flag_bit by done.
  apply eq_true_iff_eq. rewrite Z.eqb_eq, andb_true_iff. split.
  - intros H. pose proof (f_equal (fun x => Z.testbit x 0) H) as H0.
    pose proof (f_equal (fun x => Z.testbit x 3) H) as H3. cbv beta in H0, H3.
    rewrite Z.land_spec in H0, H3. change (Z.testbit (Z.lor (2 ^ 0) (2 ^ 3)) 0) with true in H0.
    change (Z.testbit (Z.lor (2 ^ 0) (2 ^ 3)) 3) with true in H3. by rewrite andb_true_r in H0, H3.
  - intros [H0 H3]. apply Z.bits_inj'. intros i Hi. rewrite Z.land_spec, Z.lor_spec, !Z.pow2_bits_eqb by done.
    destruct (Z.eqb_spec 0 i) as [<-|]; [by rewrite H0|]. destruct (Z.eqb_spec 3 i) as [<-|]; [by rewrite H3|].
    apply andb_false_r.
Qed.

Lemma writing_inj (g : FILE) m pend1 pend2 : writing g m pend1 -> writing g m pend2 -> pend1 = pend2.
Proof.
  intros [ [] _ _] [ [] _ _]. eapply bytes_eq; [done..|]. lia.
Qed.

Lemma line_output_mode (g : FILE) m pend : line_output g -> writing g m pend -> buffering g = LineBuffered.
Proof.
  intros (_ & Hl & _) [Hb _ _]. pose proof (wr_unbuf _ _ _ Hb) as Hu. unfold buffering in *.
  rewrite Hl in *. destruct (flag g __SNBF); [|done]. destruct Hu as [_ Hu]; [done|discriminate].
Qed.

Lemma writing_frame (g : FILE) (m m' : mem) pend : (forall a, base g <= a < base g + size g -> m' !! a = m !! a) ->
  writing g m pend -> writing g m' pend.
Proof.
  intros H [ [] Hs Hw]. split; [|done..]. split; try done; [by eapply mapped_same|].
  eapply bytes_same; [|done]. intros a Ha. apply H. lia.
Qed.

Section facts.
Context {read} {R : reader read} {write} {W : writer write}.
Implicit Types (n : nat) (w : world) (fp g : FILE) (fps : list FILE) (m : mem) (pend s l : list Z).

(** A call reaches the file of its stream only. *)
Definition elsewhere (fd : Z) w w' : Prop :=
  remaining fd (w_io w') = remaining fd (w_io w) /\ written_to fd (w_io w') = written_to fd (w_io w).

Class channel := {
  write_only n w p k fp r fp' w' : write p k fp n w = Done (r, fp') w' ->
    (_file fp' = _file fp /\ _ub fp' = _ub fp /\ _ubuf fp' = _ubuf fp) /\ forall fd, fd <> _file fp -> elsewhere fd w w';
  read_only n w p k fp r fp' w' : read p k fp n w = Done (r, fp') w' ->
    forall fd, fd <> _file fp -> written_to fd (w_io w') = written_to fd (w_io w);
}.
Context {CH : channel}.

#[export] Instance elsewhere_preorder fd : PreOrder (elsewhere fd).
Proof. split; [done|]. intros w1 w2 w3 [] []. split; congruence. Qed.

(** What the walk leaves of a stream. *)
Record okept g g' : Prop := {
  okept_bf : _bf g' = _bf g;
  okept_file : _file g' = _file g;
  okept_line : line_output g' <-> line_output g;
}.

#[local] Instance okept_preorder : PreOrder okept.
Proof. split; [done|]. intros g1 g2 g3 [] []. split; [congruence..|tauto]. Qed.

Lemma step_okept g w g' w' : step g w g' w' -> flag g' __SWR = flag g __SWR -> buffering g = LineBuffered ->
  okept g g'.
Proof.
  intros [E1 E2 _ _ E3 _ _] Hw Hl. split; [done..|]. unfold line_output. rewrite E2, Hw.
  pose proof (buffering_flags g) as H. pose proof (buffering_flags g') as H'.
  rewrite E3, Hl in H'. rewrite Hl in H. destruct H as [_ ->], H' as [_ ->]. done.
Qed.

Lemma flush_loop_only n k (p sz : Z) fp w r fp' w' :
  loop_k k (flush_step write) (p, sz, fp) n w = Done (r, fp') w' ->
  (_ub fp' = _ub fp /\ _ubuf fp' = _ubuf fp) /\ forall fd, fd <> _file fp -> elsewhere fd w w'.
Proof.
  revert p sz fp w. induction k as [|k IH]; intros p sz fp w E; [discriminate|].
  apply bind_Done_inv in E as (x & w1 & E1 & E2). unfold flush_step in E1. destruct (0 <? sz).
  - apply bind_Done_inv in E1 as ([t fp1] & w2 & Ew & E1). apply write_only in Ew as [(Ef & Eu & Eub) Ho].
    destruct (t <=? 0); injection E1 as <- <-.
    + injection E2 as _ <- <-. by split.
    + apply IH in E2 as [(Eu2 & Eub2) Ho2]. split; [split; congruence|]. intros fd Hfd.
      trans w2; [by apply Ho|]. apply Ho2. congruence.
  - injection E1 as <- <-. injection E2 as _ <- <-. by split.
Qed.

(** The output streams that wait for a newline, before the walk. *)
Definition waiting n m fps : Prop := Forall (fun g => line_output g -> (exists pend, writing g m pend) /\ size g < Z.of_nat n) fps.

(** [pend] is in the file, or an error is known. *)
Definition sent g w g' w' : Prop := forall pend, line_output g -> writing g (w_mem w) pend ->
  written_to (_file g) (w_io w') = file g w ++ pend \/ flag g' __SERR = true.

Record walked fps w fps' w' : Prop := {
  wk_mem : w_mem w' = w_mem w;
  wk_kept : Forall2 okept fps fps';
  wk_only fd : Forall (fun g => line_output g -> fd <> _file g) fps -> elsewhere fd w w';
  wk_empty : Forall (fun g => line_output g -> writing g (w_mem w') []) fps';
  wk_sent : NoDup (_file <$> fps) -> Forall2 (fun g g' => sent g w g' w') fps fps';
}.

Lemma walked_refl w : walked [] w [] w.
Proof. split; try done; intros; by constructor. Qed.

Lemma walked_skip g w : _file g = -1 -> walked [g] w [g] w.
Proof.
  intros Hf. split; [done|by constructor|done|rewrite Forall_singleton; by intros []|].
  intros _. constructor; [by intros ? []|done].
Qed.

Lemma sent_elsewhere g w w1 g' w2 : (elsewhere (_file g) w w1) -> w_mem w1 = w_mem w ->
  sent g w1 g' w2 -> sent g w g' w2.
Proof. intros [_ He] Hm Hs pend Hl Hw. unfold file in *. rewrite <-He. apply Hs; [done|by rewrite Hm]. Qed.

Lemma walked_cons g fps w g1 w1 fps' w' :
  walked [g] w [g1] w1 -> walked fps w1 fps' w' -> walked (g :: fps) w (g1 :: fps') w'.
Proof.
  intros [Hm1 Hk1 Ho1 He1 Hs1] [Hm2 Hk2 Ho2 He2 Hs2]. apply Forall2_cons in Hk1 as [Hk1 _].
  rewrite Forall_singleton in He1.
  split.
  - congruence.
  - by constructor.
  - intros fd [Hg Hfps]%Forall_cons. trans w1; [|by apply Ho2]. apply Ho1. by rewrite Forall_singleton.
  - constructor; [|done]. intros Hl. rewrite Hm2. by apply He1.
  - cbn [fmap list_fmap]. intros [Hni Hnd]%NoDup_cons.
    assert (Hout : forall g0, g0 ∈ fps -> _file g <> _file g0).
    { intros g0 Hg0 Heq. apply Hni. rewrite Heq. by apply list_elem_of_fmap_2. }
    constructor.
    + pose proof (Hs1 ltac:(apply NoDup_singleton)) as Hs. apply Forall2_cons in Hs as [Hs _].
      intros pend Hl Hw. destruct (Hs pend Hl Hw) as [H|H]; [left|by right].
      rewrite <-H. apply Ho2.
      rewrite Forall_forall. intros g0 Hg0 _. by apply Hout.
    + eapply Forall2_impl_l; [by apply Hs2|]. intros g0 g0' Hg0 Hs. apply (sent_elsewhere _ _ w1); [|done|exact Hs].
      apply Ho1. rewrite Forall_singleton. intros _ Heq. by apply (Hout g0).
Qed.

(** ** Streams being read, with what is to come *)

Definition outputs fp fps m : Prop := Forall (fun g => line_output g ->
  _file g <> _file fp /\ (exists pend, writing g m pend) /\
  forall a, base g <= a < base g + size g -> ~ own fp a) fps.

Record reading fp fps w s : Prop := {
  re_ok : mem_ok (w_mem w);
  re_data : exists l1 l2, rdata fp (w_mem w) l1 l2 /\ s = l1 ++ l2 ++ remaining (_file fp) (w_io w) /\
    (flag fp __SEOF = true -> s = []);
  re_outputs : outputs fp fps (w_mem w);
}.

(** What an operation may change. *)
Record istep fp fps w fp' fps' w' : Prop := {
  is_kept : kept fp fp';
  is_mem a : ~ own fp a -> w_mem w' !! a = w_mem w !! a;
  is_outputs : Forall2 okept fps fps';
}.

(** The fuel the walk needs. *)
Definition enough n fps : Prop :=
  (read_fuel <= n)%nat /\ (write_fuel <= n)%nat /\ Forall (fun g => line_output g -> size g < Z.of_nat n) fps.

Lemma istep_refl fp fps w : istep fp fps w fp fps w.
Proof. split; [done..|]. induction fps; by constructor. Qed.

Lemma istep_trans fp1 fps1 w1 fp2 fps2 w2 fp3 fps3 w3 :
  istep fp1 fps1 w1 fp2 fps2 w2 -> istep fp2 fps2 w2 fp3 fps3 w3 -> istep fp1 fps1 w1 fp3 fps3 w3.
Proof.
  intros [K1 M1 O1] [K2 M2 O2]. split; [by etrans| |].
  - intros a Ha. rewrite M2, M1; [done..|by rewrite (own_kept _ _ _ K1)].
  - clear -O1 O2. revert fps3 O2. induction O1; intros ? O2; inversion O2; subst; constructor; [by etrans|auto].
Qed.

Lemma istep_stream fp fps w fp' : kept fp fp' -> istep fp fps w fp' fps w.
Proof. intros H. pose proof (istep_refl fp fps w) as []. by split. Qed.

Lemma enough_okept n fps fps' : Forall2 okept fps fps' -> enough n fps -> enough n fps'.
Proof.
  intros H (H1 & H2 & H3). split; [done|]. split; [done|].
  induction H as [|g g' fps fps' [] _ IH]; constructor; apply Forall_cons in H3 as [Hg H3]; [|by apply IH].
  rewrite okept_bf0, okept_line0. exact Hg.
Qed.

Lemma outputs_frame fp fp' fps m m' : kept fp fp' ->
  (forall g a, g ∈ fps -> line_output g -> base g <= a < base g + size g -> m' !! a = m !! a) ->
  outputs fp fps m -> outputs fp' fps m'.
Proof.
  intros HK H. unfold outputs. rewrite !Forall_forall. intros Ho g Hg Hl.
  destruct (Ho g Hg Hl) as (H1 & [pend H2] & H3). rewrite (kept_file _ _ HK). split_and!; [done| |].
  - exists pend. eapply writing_frame; [|done]. intros a. by apply (H g).
  - intros a Ha. rewrite (own_kept _ _ _ HK). by apply H3.
Qed.

Lemma outputs_walked fp fps w fps' w' : walked fps w fps' w' -> outputs fp fps (w_mem w) -> outputs fp fps' (w_mem w').
Proof.
  intros [_ Hk _ He _] Ho. unfold outputs in *. induction Hk as [|g g' fps fps' [] _ IH]; [done|].
  apply Forall_cons in He as [He He'], Ho as [Ho Ho']. constructor; [|by apply IH].
  intros Hl. rewrite okept_file0, okept_bf0. destruct Ho as (H1 & _ & H3); [by apply okept_line0|].
  split_and!; [done| |done]. exists []. by apply He.
Qed.

Lemma outputs_waiting n fp fps m : enough n fps -> outputs fp fps m -> waiting n m fps.
Proof.
  unfold outputs, waiting. intros (_ & _ & Hs). rewrite !Forall_forall in *. intros Ho g Hg Hl.
  destruct (Ho g Hg Hl) as (_ & Hw & _). auto.
Qed.

(** An operation on a stream that is alike. *)
Lemma ialike_reading fp fp' fps w s : ialike fp fp' -> reading fp fps w s -> reading fp' fps w s.
Proof.
  intros H [H1 (l1 & l2 & Hd & Hs & He) H3]. split; [done| |].
  - exists l1, l2. rewrite (ia_file _ _ H), (ialike_flag _ _ _ H) by (in_flags).
    split_and!; [by eapply ialike_rdata|done..].
  - eapply outputs_frame; [by apply ialike_kept| |done]. done.
Qed.

(** What is at hand is the front of what is to come. *)
Lemma reading_take fp fps w s k : reading fp fps w s -> 0 <= k <= _r fp ->
  k <= zlen s /\ bytes (w_mem w) (_p fp) (take (Z.to_nat k) s) /\
  reading (set_p (_p fp + k) (set_r (_r fp - k) fp)) fps w (drop (Z.to_nat k) s).
Proof.
  intros [H1 (l1 & l2 & Hd & Hs & He) H3] Hk. pose proof (rd_r _ _ _ _ Hd) as Hr.
  pose proof (rd_now _ _ _ _ Hd) as Hb.
  assert (Hlen : (Z.to_nat k <= length l1)%nat) by lia. subst s. split; [rewrite length_app; lia|].
  rewrite take_app_le, drop_app_le by done. split.
  - rewrite <-(take_drop (Z.to_nat k) l1) in Hb. by apply bytes_app in Hb as [Hb _].
  - split; [done| |by eapply (outputs_frame fp); [| |exact H3] ].
    exists (drop (Z.to_nat k) l1), l2. split_and!; [by apply rdata_take|done|].
    intros Hf. change (flag fp __SEOF = true) in Hf. specialize (He Hf).
    destruct l1; [|done]. cbn in He. by rewrite drop_nil, He.
Qed.
(** How a function that fills the buffer ends. *)
Definition refilled r s fp : Prop :=
  (r = 0 /\ 0 < _r fp) \/
  (r = EOF /\ _r fp = 0 /\ ((s = [] /\ flag fp __SEOF = true) \/ flag fp __SERR = true)).

(** An empty buffer, before the file is read. *)
Lemma rdata_base_pos fp m l1 l2 : mem_ok m -> rdata fp m l1 l2 -> 0 < base fp /\ 0 < _ubuf fp.
Proof.
  intros Hm []. destruct (rd_mapped0 (base fp)) as [b Hb]; [lia|].
  destruct (rd_ubuf0 (_ubuf fp)) as [c Hc]; [unfold sizeof_ubuf; lia|].
  apply (mem_ok_cell _ _ _ Hm) in Hb, Hc. lia.
Qed.

Definition terminal fp : Prop := flag fp __SLBF || flag fp __SNBF = true.

Lemma refill_walk_flags fp : negb (Z.land (_flags fp) (Z.lor __SLBF __SNBF) =? 0) = flag fp __SLBF || flag fp __SNBF.
Proof.
  unfold flag. rewrite Z.land_lor_distr_r. set (a := Z.land (_flags fp) __SLBF). set (b := Z.land (_flags fp) __SNBF).
  destruct (Z.eqb_spec a 0) as [->|Ha]; cbn [negb orb]; [done|].
  apply negb_true_iff, Z.eqb_neq. by intros [? _]%Z.lor_eq_0_iff.
Qed.

(** The call that reads the file, with what it leaves of the others. *)
Lemma wp_read_only n p k fp w (Q : Z * FILE -> world -> Prop) :
  (read_fuel <= n)%nat -> mem_ok (w_mem w) -> 0 < k < 2147483648 -> mapped (w_mem w) p k ->
  (forall r l fp' w', ialike fp fp' -> (forall fd, fd <> _file fp -> written_to fd (w_io w') = written_to fd (w_io w)) ->
    zlen l <= k -> Forall (fun b => is_byte b) l -> w_mem w' = store_bytes p l (w_mem w) ->
    remaining (_file fp) (w_io w) = l ++ remaining (_file fp) (w_io w') ->
    (r = zlen l \/ (r < 0 /\ l = [])) -> (r = 0 -> remaining (_file fp) (w_io w') = []) -> Q (r, fp') w') ->
  wp n (read p k fp) w Q.
Proof.
  intros Hn Hm Hk Hp HQ. apply wp_exists.
  assert (H : wp n (read p k fp) w (fun '(r, fp') w' => ialike fp fp' /\ exists l, zlen l <= k /\
    Forall (fun b => is_byte b) l /\ w_mem w' = store_bytes p l (w_mem w) /\
    remaining (_file fp) (w_io w) = l ++ remaining (_file fp) (w_io w') /\
    (r = zlen l \/ (r < 0 /\ l = [])) /\ (r = 0 -> remaining (_file fp) (w_io w') = []))).
  { apply wp_read; [done..| | |].
    - intros r fp' w' Ha Hm' Hr Hrem. split; [done|]. exists []. split_and!; try done; [cbn; lia|by right|lia].
    - intros fp' w' Ha Hm' Hr Hr'. split; [done|]. exists []. split_and!; try done; [cbn; lia|by rewrite Hr, Hr'|by left].
    - intros l fp' w' Ha Hne Hl Hb Hm' Hrem. split; [done|]. exists l. split_and!; try done; [by left|].
      intros H0. destruct l; [done|]. cbn in H0. lia. }
  apply wp_exists in H as ([r fp'] & w' & E & Ha & l & H). exists (r, fp'), w'. split; [done|].
  destruct H as (? & ? & ? & ? & ? & ?). eapply HQ; try done. intros fd Hfd. by eapply read_only.
Qed.

(** The buffer, once it is filled. *)
Lemma rdata_filled fp m l : mem_ok m -> rdata (set_p (base fp) fp) m [] [] -> HASUB fp = false ->
  zlen l <= size fp -> rdata (set_r (zlen l) (set_p (base fp) fp)) (store_bytes (base fp) l m) l [].
Proof.
  intros Hm [] Hub Hl. change (HASUB (set_p (base fp) fp)) with (HASUB fp) in rd_where0. rewrite Hub in rd_where0.
  split; try done.
  - by apply mapped_store.
  - by apply mapped_store.
  - apply bytes_store_same.
  - change (HASUB (set_r (zlen l) (set_p (base fp) fp))) with (HASUB fp). rewrite Hub. cbn. split_and!; [lia..|done].
Qed.

(** The flags of the end of the file and of errors. *)
Lemma rdata_set_flag f fp m l1 l2 : Z.land f __SWR = 0 -> rdata fp m l1 l2 -> rdata (set_flag f fp) m l1 l2.
Proof.
  intros Hf []. split; try done.
  - by rewrite flag_set, rd_open0.
  - by rewrite flag_set, rd_nowrite0, Hf.
Qed.

Lemma kept_set_flag f fp : Z.land f __SNBF = 0 -> Z.land f __SLBF = 0 -> kept fp (set_flag f fp).
Proof. intros H1 H2. split; try done; by rewrite flag_set, ?H1, ?H2, orb_false_r. Qed.

End facts.

(** ** fwalk.c, refill.c *)

Section functions.
Context {read} {R : reader read} {write} {W : writer write} {CH : channel}.
Context (seek : option (Z -> Z -> F Z)) (is_sseek : bool).
Context (malloc : Z -> C Z) (free : Z -> C unit).
Context (fstat : Z -> C (Z * Z)) (isatty : Z -> C Z).
Implicit Types (n : nat) (w : world) (fp g : FILE) (fps : list FILE) (m : mem) (pend s l : list Z).

Lemma lflush_only n g w r g' w' : lflush write seek free g n w = Done (r, g') w' ->
  forall fd, fd <> _file g -> elsewhere fd w w'.
Proof.
  unfold lflush. rewrite lflush_flags. destruct (flag g __SLBF); [|by intros [_ ->]%ret_done].
  destruct (flag g __SWR) eqn:Hw; [|by intros [_ ->]%ret_done]. cbn [andb].
  unfold _fflush_r. unfold flag in Hw. apply negb_true_iff in Hw. rewrite Hw.
  destruct (_base (_bf g) =? 0); [by intros [_ ->]%ret_done|]. intros E fd Hfd.
  apply bind_Done_inv in E as ([ok fp1] & w1 & El & E).
  assert (w' = w1) as -> by (destruct ok; by injection E). apply flush_loop_only in El as [_ Ho]. by apply Ho.
Qed.

Lemma wp_lflush n g w (Q : Z * FILE -> world -> Prop) : (write_fuel <= n)%nat -> mem_ok (w_mem w) ->
  waiting n (w_mem w) [g] -> _file g <> -1 ->
  (forall r g' w', walked [g] w [g'] w' -> Q (r, g') w') -> wp n (lflush write seek free g) w Q.
Proof.
  intros Hn Hm Hw Hf HQ. apply wp_exists.
  assert (H : wp n (lflush write seek free g) w (fun '(r, g') w' => w_mem w' = w_mem w /\
    okept g g' /\ (line_output g -> writing g' (w_mem w') [] /\ sent g w g' w') /\ (~ line_output g -> w' = w))).
  { unfold lflush. rewrite lflush_flags. destruct (flag g __SLBF && flag g __SWR) eqn:E.
    - apply andb_true_iff in E as [E1 E2]. assert (Hl : line_output g) by done.
      unfold waiting in Hw. rewrite Forall_singleton in Hw. destruct (Hw Hl) as [ [pend Hp] Hs].
      pose proof (line_output_mode _ _ _ Hl Hp) as Hb.
      eapply wp_fflush; [done..|by apply Hp| |].
      + intros g' w' Hst Hm' Hw' Hfl. split; [done|]. split; [|split; [|done] ].
        { eapply step_okept; [done| |done]. rewrite E2. apply Hw'. }
        intros _. split; [done|]. intros p _ Hp'. left.
        unfold file in Hfl. by rewrite <-(step_file _ _ _ _ Hst), Hfl, (writing_inj _ _ _ _ Hp Hp').
      + intros j g' w' Hst Hm' Hw' He Hfl. split; [done|]. split; [|split; [|done] ].
        { eapply step_okept; [done| |done]. rewrite E2. apply Hw'. }
        intros _. split; [done|]. intros p _ Hp'. by right.
    - wp_steps. split_and!; try done. intros (_ & E1 & E2). by rewrite E1, E2 in E. }
  apply wp_exists in H as ([r g'] & w' & E & Hm' & Hk & Hl & Hnl). exists (r, g'), w'. split; [done|].
  apply HQ. pose proof (lflush_only _ _ _ _ _ _ E) as Ho.
  assert (Hd : line_output g \/ ~ line_output g).
  { unfold line_output. destruct (flag g __SLBF), (flag g __SWR); [by left|right; intros (_ & ? & ?)..]; done. }
  split; [done|by constructor| | |].
  - intros fd Hfd. rewrite Forall_singleton in Hfd. destruct Hd as [Hd|Hd]; [apply Ho; auto|by rewrite Hnl].
  - rewrite Forall_singleton. intros Hl'. apply Hl. by apply Hk.
  - intros _. constructor; [|done]. intros pend Hl'. by apply Hl.
Qed.

(** Every stream is visited. *)
Lemma wp_fwalk n fps w ret (Q : Z * list FILE -> world -> Prop) : (write_fuel <= n)%nat -> mem_ok (w_mem w) ->
  waiting n (w_mem w) fps -> (forall r fps' w', walked fps w fps' w' -> Q (r, fps') w') ->
  wp n (__fwalk (lflush write seek free) fps ret) w Q.
Proof.
  intros Hn. revert w ret Q. induction fps as [|g fps IH]; intros w ret Q Hm Hw HQ; cbn [__fwalk].
  - wp_steps. apply HQ, walked_refl.
  - apply Forall_cons in Hw as [Hg Hw]. wp_step.
    assert (Hrest : forall r g1 w1, walked [g] w [g1] w1 ->
      wp n (__fwalk (lflush write seek free) fps r) w1
        (fun x w' => wp n (let '(ret, fps) := x in mret (ret, g1 :: fps)) w' Q)).
    { intros r g1 w1 Hw1. pose proof (wk_mem _ _ _ _ Hw1) as E.
      apply IH; [by rewrite E|by rewrite E|]. intros r2 fps' w' Hw'. wp_steps. apply HQ. by eapply walked_cons. }
    destruct (negb (_flags g =? 0) && negb (_file g =? -1)) eqn:E.
    + apply andb_true_iff in E as [_ E]. apply negb_true_iff, Z.eqb_neq in E. wp_step.
      apply wp_lflush; [done|done|unfold waiting; by rewrite Forall_singleton|done|].
      intros r g1 w1 Hw1. wp_steps. by apply Hrest.
    + wp_steps. apply Hrest.
      apply andb_false_iff in E as [E|E]; apply negb_false_iff, Z.eqb_eq in E; [|by apply walked_skip].
      assert (Hnl : ~ line_output g) by (intros (_ & Hl & _); unfold flag in Hl; by rewrite E in Hl).
      split; [done|by constructor|done|by rewrite Forall_singleton|].
      intros _. constructor; [by intros ? ?|done].
Qed.
Lemma wp_refill_walk n fp fps w (Q : FILE * list FILE -> world -> Prop) :
  enough n fps -> mem_ok (w_mem w) -> flag fp __SWR = false -> outputs fp fps (w_mem w) ->
  (forall fps' w', w_mem w' = w_mem w -> Forall2 okept fps fps' ->
    remaining (_file fp) (w_io w') = remaining (_file fp) (w_io w) -> outputs fp fps' (w_mem w') ->
    (terminal fp -> walked fps w fps' w') -> Q (fp, fps') w') ->
  wp n (refill_walk write seek free fp fps) w Q.
Proof.
  intros Hn Hm Hw Ho HQ. unfold refill_walk. rewrite refill_walk_flags.
  destruct (flag fp __SLBF || flag fp __SNBF) eqn:E.
  - wp_step. apply wp_fwalk; [apply Hn|done|by eapply outputs_waiting|].
    intros r fps' w' Hwk. wp_step. unfold lflush. rewrite lflush_flags, Hw, andb_false_r. wp_steps.
    apply HQ; [apply Hwk|apply Hwk| |by eapply outputs_walked|done].
    apply (wk_only _ _ _ _ Hwk). unfold outputs in Ho. eapply Forall_impl; [exact Ho|]. intros g Hg Hl. symmetry. by apply Hg.
  - wp_steps. apply HQ; [done|apply (istep_refl fp fps w)|done..|]. intros Ht. unfold terminal in Ht. by rewrite E in Ht.
Qed.

(** After the switch: the buffer is empty, and filled from the file. *)
Lemma wp_refill_read n fp fps w s (Q : Z * FILE * list FILE -> world -> Prop) :
  enough n fps -> mem_ok (w_mem w) -> rdata (set_p (base fp) fp) (w_mem w) [] [] -> HASUB fp = false ->
  flag fp __SEOF = false -> s = remaining (_file fp) (w_io w) -> outputs fp fps (w_mem w) ->
  (forall r fp' fps' w', istep fp fps w fp' fps' w' -> reading fp' fps' w' s -> refilled r s fp' ->
    HASUB fp' = false /\ (r = 0 -> _p fp' = base fp) ->
    (terminal fp -> NoDup (_file <$> fps) -> Forall2 (fun g g' => sent g w g' w') fps fps') ->
    Q (r, fp', fps') w') ->
  wp n (refill_read read write seek is_sseek malloc free fstat isatty fp fps) w Q.
Proof.
  intros Hn Hm Hd Hub Heof Hs Ho HQ. unfold refill_read.
  pose proof (rdata_base_pos _ _ _ _ Hm Hd) as [Hb _]. cbn in Hb.
  rewrite (proj2 (Z.eqb_neq _ _)) by lia. wp_steps.
  apply wp_refill_walk; [done..|apply Hd|done|].
  intros fps1 w1 Hm1 Hk1 Hr1 Ho1 Hwk. unfold refill_fill. wp_steps. change (_p (set_p (base fp) fp)) with (base fp).
  rewrite <-Hm1 in Hd, Hm. pose proof (rd_size _ _ _ _ Hd) as Hsz. pose proof (rd_mapped _ _ _ _ Hd) as Hmap.
  cbn [_bf set_p] in Hsz, Hmap.
  apply wp_read_only; [apply Hn|done..|]. intros r l fp2 w2 Ha Hoth Hl Hlb Hm2 Hrem Hr H0.
  cbn [_bf _file set_p] in Hl, Hoth, Hrem, H0. wp_steps.
  assert (Hsent : terminal fp -> NoDup (_file <$> fps) -> Forall2 (fun g g' => sent g w g' w2) fps fps1).
  { intros Ht Hnd. eapply Forall2_impl_l; [by apply (wk_sent _ _ _ _ (Hwk Ht))|].
    intros g g' Hg Hsg pend Hlg Hp. unfold outputs in Ho. rewrite Forall_forall in Ho.
    destruct (Ho g Hg Hlg) as (Hf & _). destruct (Hsg pend Hlg Hp) as [H|H]; [left|by right].
    by rewrite <-H, Hoth. }
  assert (Hk : kept fp fp2).
  { trans (set_p (base fp) fp); [done|by apply ialike_kept]. }
  assert (Hk' : forall x, kept fp (set_r x fp2)) by (intros x; by trans fp2).
  assert (Hd2 : rdata (set_r (zlen l) fp2) (w_mem w2) l []).
  { eapply ialike_rdata; [apply ialike_set_r, Ha|]. rewrite Hm2. by apply rdata_filled. }
  assert (Hm2' : mem_ok (w_mem w2)) by by (rewrite Hm2; apply mem_ok_store; [done|eapply mapped_sub; [exact Hmap|lia..]|done]).
  assert (Hout : forall a, ~ own fp a -> w_mem w2 !! a = w_mem w !! a).
  { intros a Hna. rewrite <-Hm1, Hm2. apply lookup_store_out. unfold own in Hna. lia. }
  assert (Ho2 : outputs fp fps1 (w_mem w2)).
  { eapply (outputs_frame fp fp); [done| |exact Ho1]. intros g a Hg Hlg Hag. rewrite Hm1. apply Hout.
    unfold outputs in Ho1. rewrite Forall_forall in Ho1. by apply (Ho1 g). }
  assert (Hub2 : HASUB fp2 = false).
  { unfold HASUB. rewrite (ia_ub _ _ Ha). exact Hub. }
  assert (Hfin : forall fp3, kept fp fp3 -> rdata fp3 (w_mem w2) l [] -> (flag fp3 __SEOF = true -> s = []) ->
    istep fp fps w fp3 fps1 w2 /\ reading fp3 fps1 w2 s).
  { intros fp3 Hk3 Hd3 He3. split; [by split|]. split; [done| |].
    - exists l, []. rewrite (kept_file _ _ Hk3). split_and!; [done| |done].
      change (s = l ++ remaining (_file fp) (w_io w2)). rewrite Hs, <-Hr1. exact Hrem.
    - by eapply outputs_frame; [exact Hk3| |exact Ho2]. }
  assert (Heof2 : forall x, flag (set_r x fp2) __SEOF = false).
  { intros x. change (flag fp2 __SEOF = false). rewrite (ialike_flag _ _ __SEOF Ha); [done|].
    in_flags. }
  destruct Hr as [ -> | [Hneg ->] ].
  - destruct (zlen l <=? 0) eqn:El.
    + assert (l = []) as -> by (destruct l; [done|exfalso; cbn in El; blia]). change (zlen (@nil Z) =? 0) with true.
      assert (Hnil : s = []) by by (rewrite Hs, <-Hr1, Hrem, H0; done).
      wp_steps. destruct (Hfin (set_flag __SEOF (set_r (zlen (@nil Z)) fp2))) as [H1 H2];
        [etrans; [apply Hk'|by apply kept_set_flag]|by apply rdata_set_flag|done|].
      apply HQ; [done..| |by split|done]. right. split; [done|]. split; [done|]. left. split; [done|].
      rewrite flag_set. by apply orb_true_r.
    + wp_steps. destruct (Hfin (set_r (zlen l) fp2)) as [H1 H2]; [apply Hk'|done|by rewrite Heof2|].
      apply HQ; [done..| |split; [exact Hub2|intros _; exact (ia_p _ _ Ha)]|done]. left. split; [done|]. cbn [_r set_r]. blia.
  - rewrite (proj2 (Z.leb_le _ _)), (proj2 (Z.eqb_neq _ _)) by lia. wp_steps.
    set (fp3 := set_flag __SERR (set_r 0 (set_r r fp2))).
    assert (Hd3 : rdata fp3 (w_mem w2) [] []) by by apply (rdata_set_flag __SERR (set_r (zlen (@nil Z)) fp2)).
    destruct (Hfin fp3) as [H1 H2]; [etrans; [apply Hk'|by apply kept_set_flag]|done| |].
    { unfold fp3. rewrite flag_set. change (flag (set_r 0 (set_r r fp2)) __SEOF) with (flag (set_r 0 fp2) __SEOF).
      by rewrite Heof2. }
    apply HQ; [done..| |by split|done]. right. split; [done|]. split; [done|]. right. unfold fp3. rewrite flag_set.
    by apply orb_true_r.
Qed.

Lemma wp_refill n fp fps w s (Q : Z * FILE * list FILE -> world -> Prop) :
  enough n fps -> reading (set_r 0 fp) fps w s ->
  (forall r fp' fps' w', istep fp fps w fp' fps' w' -> reading fp' fps' w' s -> refilled r s fp' ->
    (HASUB fp = false -> HASUB fp' = false /\ (r = 0 -> _p fp' = base fp)) ->
    (flag fp __SEOF = false -> HASUB fp = false -> terminal fp -> NoDup (_file <$> fps) ->
      Forall2 (fun g g' => sent g w g' w') fps fps') -> Q (r, fp', fps') w') ->
  wp n (__srefill_r read write seek is_sseek malloc free fstat isatty fp fps) w Q.
Proof.
  intros Hn Hrd HQ. unfold __srefill_r. set (fp1 := set_r 0 (ORIENT fp)).
  assert (Ha : ialike (set_r 0 fp) fp1) by apply ialike_set_r, ialike_ORIENT.
  apply (ialike_reading _ _ _ _ _ Ha) in Hrd.
  assert (Hk : kept fp fp1) by (trans (set_r 0 fp); [done|by apply ialike_kept]).
  assert (Heof1 : flag fp1 __SEOF = flag fp __SEOF) by (rewrite (ialike_flag _ _ _ Ha); [done|in_flags]).
  assert (Hu1 : HASUB fp = HASUB fp1) by (unfold HASUB; by rewrite (ia_ub _ _ Ha)).
  pose proof Hrd as [Hm (l1 & l2 & Hd & Hs & He) Ho]. pose proof (rd_r _ _ _ _ Hd) as Hr.
  assert (l1 = []) as -> by (destruct l1; [done|exfalso; cbn in Hr; lia]). cbn [app] in Hs.
  assert (Hst : forall fp2, kept fp1 fp2 -> istep fp fps w fp2 fps w).
  { intros fp2 H2. apply istep_stream. by trans fp1. }
  wp_step. unfold refill_switch. destruct (flag fp1 __SEOF) eqn:Heof.
  - wp_steps. apply HQ; [by apply Hst|done| |rewrite <-Hu1; by split|by rewrite <-Heof1]. right. split_and!; [done..|left; auto].
  - rewrite (rd_open _ _ _ _ Hd). cbn [negb]. pose proof (rd_where _ _ _ _ Hd) as Hwh.
    destruct (HASUB fp1) eqn:Hub.
    + destruct Hwh as (Eub & _ & _ & Hb2 & Hur & Hup & Hup').
      unfold FREEUB. rewrite Eub, Z.eqb_refl. wp_steps.
      set (fp2 := set_r (_ur fp1) (set_ub (Sbuf 0 sizeof_ubuf) fp1)).
      match goal with |- context [if negb (?r =? 0) then return_ (0, set_p ?x ?f) else _] =>
        change r with (_ur fp1); change x with (_up fp1); change f with fp2 end.
      assert (Hd2 : forall x, base fp1 <= x -> x + zlen l2 <= base fp1 + size fp1 -> bytes (w_mem w) x l2 ->
        rdata (set_p x fp2) (w_mem w) l2 []).
      { intros x Hx Hx' Hbx. destruct Hd. by split. }
      assert (Hs2 : reading (set_p (_up fp1) fp2) fps w s).
      { split; [done| |by apply (outputs_frame fp1 _ _ (w_mem w))]. exists l2, []. split_and!; [by apply Hd2|done|].
        intros Hf. change (flag fp1 __SEOF = true) in Hf. by rewrite Heof in Hf. }
      rewrite Hur. destruct (zlen l2 =? 0) eqn:E0; wp_steps.
      * assert (l2 = []) as -> by (destruct l2; [done|exfalso; cbn in E0; blia]).
        eapply (wp_refill_read _ fp2); [done|done| |done..|].
        -- apply (Hd2 (base fp1)); [lia|pose proof (rd_size _ _ _ _ Hd); cbn [length]; lia|done].
        -- intros r fp' fps' w' Hst' Hrd' Hres Hub' Hsent. apply HQ; [|done..|rewrite <-(kept_bf _ _ Hk); done|].
           { eapply istep_trans; [by apply (Hst fp2)|done]. }
           by rewrite Hu1.
      * apply HQ; [by apply Hst|done| |by rewrite Hu1|by rewrite Hu1]. left. split; [done|]. change (0 < _ur fp1). rewrite Hur. blia.
    + destruct Hwh as (Hp1 & Hp2 & ->). wp_steps.
      eapply (wp_refill_read _ fp1); [done|done| |done..|].
      * destruct Hd. split; try done. change (HASUB (set_p (base fp1) fp1)) with (HASUB fp1). rewrite Hub.
        change (base fp1 <= base fp1 /\ base fp1 + zlen (@nil Z) <= base fp1 + size fp1 /\ [] = @nil Z).
        cbn [length]. split_and!; [lia..|done].
      * intros r fp' fps' w' Hst' Hrd' Hres Hub' Hsent. apply HQ; [|done..|rewrite <-(kept_bf _ _ Hk); done|].
        { eapply istep_trans; [by apply (Hst fp1)|done]. }
        intros _ _ Ht. apply Hsent. unfold terminal in *. by rewrite (kept_slbf _ _ Hk), (kept_snbf _ _ Hk).
Qed.
End functions.
