(* ===== verification/StdioRead.v ===== *)
(** * Input streams: getc, ungetc, fread, fgets

    Each operation in the terms of what is to come: it takes from the front or puts
    to the front, and where the text ends it says so. *)

From S2P Require Import Prelude CMonad Words Memory StrScan MemCopy Stdio StdioSpec StdioIn StdioInSpec.

(** The addresses that the streams use. *)
Definition reserved (fp : FILE) (fps : list FILE) (a : Z) : Prop :=
  own fp a \/ exists g, g ∈ fps /\ line_output g /\ base g <= a < base g + size g.

Section facts.
Context {read} {R : reader read} {write} {W : writer write} {CH : channel}.
Implicit Types (n : nat) (w : world) (fp g : FILE) (fps : list FILE) (m : mem) (s l : list Z).

(** No more can be read: the end of the file, or an error. *)
Definition over s fp : Prop := (s = [] /\ flag fp __SEOF = true) \/ flag fp __SERR = true.

Lemma reading_r fp fps w s : reading fp fps w s -> 0 <= _r fp < 1073741824.
Proof.
  intros [Hm (l1 & l2 & Hd & _) _]. rewrite (rd_r _ _ _ _ Hd).
  pose proof (bytes_len _ _ _ Hm (rd_now _ _ _ _ Hd)). lia.
Qed.

Lemma reading_set_r fp fps w s x : _r fp = x -> reading fp fps w s -> reading (set_r x fp) fps w s.
Proof. intros <-. apply ialike_reading. split; try done. by rewrite Forall_forall. Qed.

Lemma kept_take fp k x : kept fp (set_p x (set_r k fp)).
Proof. done. Qed.

(** *** Pushed back *)

(** The characters that are at hand, in the small buffer and behind it. *)
Definition held fp : Z := _r fp + if HASUB fp then _ur fp else 0.

(** How many characters find room in front of what is at hand. *)
Definition room fp : Z := if HASUB fp then sizeof_ubuf - _r fp else sizeof_ubuf.

(** A character was pushed back. *)
Record pushed fp fp' : Prop := {
  pu_eof : flag fp' __SEOF = false;
  pu_held : held fp' = held fp + 1;
  pu_room : room fp - 1 <= room fp';
}.

Lemma held_nonneg fp fps w s : reading fp fps w s -> 0 <= held fp.
Proof.
  intros Hrd. pose proof (reading_r _ _ _ _ Hrd). destruct (re_data _ _ _ _ Hrd) as (l1 & l2 & Hd & _).
  pose proof (rd_where _ _ _ _ Hd) as Hwh. unfold held. destruct (HASUB fp); lia.
Qed.

Lemma held_ialike fp fp' : ialike fp fp' -> held fp' = held fp.
Proof. intros Ha. unfold held, HASUB. by rewrite (ia_r _ _ Ha), (ia_ub _ _ Ha), (ia_ur _ _ Ha). Qed.

Lemma room_ialike fp fp' : ialike fp fp' -> room fp' = room fp.
Proof. intros Ha. unfold room, HASUB. by rewrite (ia_r _ _ Ha), (ia_ub _ _ Ha). Qed.

Lemma bytes_cons_insert m p c l : 0 < p -> bytes m (p + 1) l -> bytes (<[p := c]> m) p (c :: l).
Proof. intros Hp Hl. split; [by rewrite lookup_insert_eq|]. apply bytes_insert_out; [done|lia]. Qed.

(** The last character that was pushed back is read: the buffer comes back. *)
Lemma reading_back fp fps w s : reading fp fps w s -> flag fp __SEOF = false -> HASUB fp = true -> _r fp = 0 ->
  reading (set_p (_up fp) (set_r (_ur fp) (set_ub (Sbuf 0 sizeof_ubuf) fp))) fps w s.
Proof.
  intros [Hm (l1 & l2 & Hd & Hs & _) Ho] Heof Hub Hr.
  assert (l1 = []) as -> by (rewrite (rd_r _ _ _ _ Hd) in Hr; destruct l1; [done|exfalso; cbn in Hr; lia]).
  split; [done| |by apply (outputs_frame fp _ _ (w_mem w))].
  exists l2, []. split_and!; [|done|intros Hf; change (flag fp __SEOF = true) in Hf; by rewrite Heof in Hf].
  destruct Hd. rewrite Hub in rd_where. destruct rd_where as (_ & _ & _ & ? & ? & ? & ?). by split.
Qed.

(** The small buffer gets its first character, or another one. *)
Lemma rdata_push_first fp m l1 l2 c : mem_ok m -> rdata fp m l1 l2 -> HASUB fp = false ->
  rdata (set_r 1 (set_p (_ubuf fp + 2) (set_ub (Sbuf (_ubuf fp) sizeof_ubuf) (set_up (_p fp) (set_ur (_r fp) fp)))))
    (<[_ubuf fp + 2 := c]> m) [c] l1.
Proof.
  intros Hm Hd Hub. pose proof (rdata_base_pos _ _ _ _ Hm Hd) as [_ Hu].
  destruct Hd. rewrite Hub in rd_where.
  destruct rd_where as (Hp1 & Hp2 & ->). unfold disjoint_ranges, sizeof_ubuf in *.
  match goal with |- rdata ?x _ _ _ => set (fp' := x) end.
  assert (Hub' : HASUB fp' = true) by (apply negb_true_iff, Z.eqb_neq; cbn; lia).
  split; try done.
  - by apply mapped_insert.
  - by apply mapped_insert.
  - by apply bytes_cons_insert; [cbn; lia|].
  - rewrite Hub'. cbn. unfold sizeof_ubuf. split_and!; try done; try lia. apply bytes_insert_out; [done|]. lia.
Qed.

Lemma rdata_push_more fp m l1 l2 c : mem_ok m -> rdata fp m l1 l2 -> HASUB fp = true -> _r fp < sizeof_ubuf ->
  rdata (set_r (_r fp + 1) (set_p (_p fp - 1) fp)) (<[_p fp - 1 := c]> m) (c :: l1) l2.
Proof.
  intros Hm Hd Hub Hr. pose proof (rdata_base_pos _ _ _ _ Hm Hd) as [_ Hu].
  destruct Hd. rewrite Hub in rd_where.
  destruct rd_where as (Eub & Hp1 & Hp2 & Hb2 & Hur & Hup1 & Hup2). unfold disjoint_ranges, sizeof_ubuf in *.
  match goal with |- rdata ?x _ _ _ => set (fp' := x) end.
  assert (Hub' : HASUB fp' = true) by exact Hub.
  split; try done.
  - by apply mapped_insert.
  - by apply mapped_insert.
  - apply bytes_cons_insert; [cbn; lia|]. cbn. by replace (_p fp - 1 + 1) with (_p fp) by lia.
  - cbn. lia.
  - rewrite Hub'. cbn [_p _up _ur _ub _ubuf _bf set_p set_r fp' length]. unfold sizeof_ubuf. split_and!; try done; try lia.
    apply bytes_insert_out; [done|]. lia.
Qed.

(** Backing up over the same character. *)
Lemma rdata_push_same fp m l1 l2 c : rdata fp m l1 l2 -> HASUB fp = false -> base fp < _p fp ->
  m !! (_p fp - 1) = Some c -> rdata (set_r (_r fp + 1) (set_p (_p fp - 1) fp)) m (c :: l1) [].
Proof.
  intros [] Hub Hp Hc. rewrite Hub in rd_where. destruct rd_where as (Hp1 & Hp2 & ->).
  match goal with |- rdata ?x _ _ _ => set (fp' := x) end.
  assert (Hub' : HASUB fp' = false) by exact Hub.
  split; try done.
  - split; [done|]. cbn. by replace (_p fp - 1 + 1) with (_p fp) by lia.
  - cbn. lia.
  - rewrite Hub'. cbn [_p _bf set_p set_r fp' length]. split_and!; [lia..|done].
Qed.

(** A store into the stream's own memory. *)
Lemma own_insert fp fp' fps m a c : kept fp fp' -> own fp a -> outputs fp fps m -> outputs fp' fps (<[a := c]> m).
Proof.
  intros Hk Ha Ho. eapply (outputs_frame fp _ _ m); [done| |exact Ho]. intros g b Hg Hl Hb.
  rewrite lookup_insert_ne; [done|]. intros ->. unfold outputs in Ho. rewrite Forall_forall in Ho.
  destruct (Ho g Hg Hl) as (_ & _ & Hno). by apply (Hno b).
Qed.

(** *** Into the memory of the caller *)

(** [k] bytes at [p] are there, and not the streams'. *)
Record dest fp fps m (p k : Z) : Prop := {
  dest_mapped : mapped m p k;
  dest_free a : p <= a < p + k -> ~ reserved fp fps a;
}.

Lemma at_hand_own fp fps w s i : reading fp fps w s -> 0 <= i < _r fp -> own fp (_p fp + i).
Proof.
  intros [_ (l1 & l2 & [] & _) _] Hi. destruct (HASUB fp); [right|left]; lia.
Qed.

Lemma reserved_okept fp fps fp' fps' a : kept fp fp' -> Forall2 okept fps fps' ->
  reserved fp' fps' a -> reserved fp fps a.
Proof.
  intros Hk Hf [Ha|(g' & Hg & Hl & Ha)]; [left; by apply (own_kept _ _ _ Hk)|right].
  induction Hf as [|g h fps fps' [] _ IH]; [by apply not_elem_of_nil in Hg|].
  apply elem_of_cons in Hg as [->|Hg].
  - exists g. rewrite <-okept_bf. split; [by left|]. by rewrite <-okept_line.
  - destruct (IH Hg) as (g0 & ? & ?). exists g0. split; [by right|done].
Qed.

Lemma reading_store fp fps w s p l : reading fp fps w s -> mapped (w_mem w) p (zlen l) ->
  Forall (fun b => is_byte b) l -> (forall a, p <= a < p + zlen l -> ~ reserved fp fps a) ->
  reading fp fps (written p l w) s.
Proof.
  intros [Hm (l1 & l2 & Hd & Hs) Ho] Hmap Hl Hfree.
  assert (Hsame : forall a, reserved fp fps a -> store_bytes p l (w_mem w) !! a = w_mem w !! a).
  { intros a Ha. apply lookup_store_out. destruct (decide (p <= a < p + zlen l)) as [H|H]; [|lia].
    by destruct (Hfree a H). }
  split; [by apply mem_ok_store| |].
  - exists l1, l2. split; [|done]. eapply rdata_frame; [|exact Hd]. intros a Ha. apply Hsame. by left.
  - eapply (outputs_frame fp fp); [done| |exact Ho]. intros g a Hg Hlg Ha. apply Hsame. right. eauto.
Qed.

(** *** A stream that borrows that memory as its buffer *)

Lemma apart_ranges (p y q x : Z) : 0 < y -> 0 < x -> (forall a, p <= a < p + y -> ~ (q <= a < q + x)) ->
  disjoint_ranges p y q x.
Proof.
  intros Hn Hx H. unfold disjoint_ranges. destruct (decide (p + y <= q)); [by left|].
  destruct (decide (q + x <= p)); [by right|]. exfalso. apply (H (Z.max p q)); lia.
Qed.

(** The stream with the rest of that memory as its buffer. *)
Definition aside (p y : Z) fp : FILE := set_p p (set_bf (Sbuf p y) fp).

Lemma outputs_okept fp fp1 fps fps' m m' : outputs fp fps m -> Forall2 okept fps fps' -> _file fp1 = _file fp ->
  outputs fp1 fps' m' -> outputs fp fps' m'.
Proof.
  unfold outputs. intros Ho Hk2 Hf. revert Ho. induction Hk2 as [|g g' fps fps' [] _ IH]; [done|].
  intros [Hg Ho]%Forall_cons [Hg' Ho']%Forall_cons. constructor; [|by apply IH].
  intros Hl. rewrite <-Hf, okept_bf. destruct (Hg' Hl) as (? & ? & _). split_and!; [done..|].
  apply Hg. by apply okept_line.
Qed.

(** The stream with its own buffer again. *)
Definition back fp fp1 : FILE := set_r 0 (set_p (_p fp) (set_bf (_bf fp) fp1)).

Lemma kept_back p y fp fp1 : kept (aside p y fp) fp1 -> kept fp (back fp fp1).
Proof. by intros []. Qed.

Lemma rdata_back p y fp fp1 m m1 l1 l2 l1' : rdata fp m [] l1 -> HASUB fp = false -> kept (aside p y fp) fp1 ->
  rdata fp1 m1 l1' l2 -> HASUB fp1 = false -> (forall a, base fp <= a < base fp + size fp -> m1 !! a = m !! a) ->
  rdata (back fp fp1) m1 [] [].
Proof.
  intros Hd Hub [] Hd1 Hub1 Hsame. pose proof (rd_where _ _ _ _ Hd) as Hwh. rewrite Hub in Hwh.
  assert (E : HASUB (back fp fp1) = false) by exact Hub1.
  cbn [aside _ubuf set_p set_bf] in kept_ubuf.
  split; try done; try apply Hd1.
  - apply Hd.
  - eapply mapped_same; [exact Hsame|apply Hd].
  - cbn [back _bf _ubuf set_r set_p set_bf]. rewrite kept_ubuf. apply Hd.
  - rewrite E. cbn [back _bf _p set_r set_p set_bf length]. destruct Hwh as (? & Hl & _). cbn [length] in Hl. by split_and!.
Qed.

(** *** Lines *)

(** The part [l] that is searched for the end of the line. *)
Lemma line_found s j c i : (10 ∉ take j s) -> find_idx (fun b => b =? 10) (take c (drop j s)) = Some i ->
  (i < c)%nat /\ s !! (j + i)%nat = Some 10 /\ 10 ∉ take (j + i) s.
Proof.
  intros Hj Hi. apply find_idx_Some in Hi as [ (b & Hb & Hb10) Hno]. apply Z.eqb_eq in Hb10 as ->.
  pose proof (lookup_lt_Some _ _ _ Hb) as Hlt. rewrite length_take in Hlt.
  rewrite lookup_take_lt, lookup_drop in Hb by lia. split_and!; [lia|done|].
  rewrite <-take_take_drop, elem_of_app. intros [H|H]; [done|].
  apply list_elem_of_lookup in H as [x Hx]. pose proof (lookup_lt_Some _ _ _ Hx) as Hx'. rewrite length_take in Hx'.
  rewrite lookup_take_lt in Hx by lia. specialize (Hno x 10). rewrite lookup_take_lt in Hno by lia.
  specialize (Hno ltac:(lia) Hx). done.
Qed.

Lemma line_not_found s j c : (10 ∉ take j s) -> find_idx (fun b => b =? 10) (take c (drop j s)) = None ->
  10 ∉ take (j + c) s.
Proof.
  intros Hj Hi. apply find_idx_None in Hi. rewrite <-take_take_drop, elem_of_app. intros [H|H]; [done|].
  rewrite Forall_forall in Hi. by apply Hi in H.
Qed.

(** A transfer of [k] bytes to [buf], of which [j] are done. *)
Section transfer.
Context {cfg : build} (buf k : Z) (fp0 : FILE) (fps0 : list FILE) (w0 : world) (s0 : list Z).
Context (Hk : 0 <= k) (Hdest : dest fp0 fps0 (w_mem w0) buf k).

Record got (j : Z) fp fps w : Prop := {
  got_range : 0 <= j <= k /\ j <= zlen s0;
  got_kept : kept fp0 fp;
  got_outputs : Forall2 okept fps0 fps;
  got_mem a : ~ own fp0 a -> ~ (buf <= a < buf + k) -> w_mem w !! a = w_mem w0 !! a;
  got_reading : reading fp fps w (drop (Z.to_nat j) s0);
  got_bytes : bytes (w_mem w) buf (take (Z.to_nat j) s0);
  got_mapped : mapped (w_mem w) buf k;
}.

Lemma got_start fp : kept fp0 fp -> reading fp fps0 w0 s0 -> got 0 fp fps0 w0.
Proof.
  intros Hkept Hrd. split; try done; [lia| |apply Hdest]. apply (istep_refl fp fps0 w0).
Qed.

Lemma take_length_Z j : 0 <= j <= zlen s0 -> zlen (take (Z.to_nat j) s0) = j.
Proof. intros Hj. rewrite length_take_le; lia. Qed.

Lemma got_not_own j fp fps w a : got j fp fps w -> buf <= a < buf + k -> ~ reserved fp fps a.
Proof.
  intros Hg Ha Hr. apply (dest_free _ _ _ _ _ Hdest a Ha). by eapply reserved_okept; [apply Hg..|].
Qed.

Lemma got_istep j fp fps w fp' fps' w' : got j fp fps w -> istep fp fps w fp' fps' w' ->
  reading fp' fps' w' (drop (Z.to_nat j) s0) -> got j fp' fps' w'.
Proof.
  intros Hg [Hk' Hm' Ho'] Hrd.
  assert (Hsame : forall a, buf <= a < buf + k -> w_mem w' !! a = w_mem w !! a).
  { intros a Ha. apply Hm'. intros Hown. apply (got_not_own _ _ _ _ a Hg Ha). by left. }
  pose proof (istep_trans fp0 fps0 w0 fp fps w0 fp' fps' w0) as Htr.
  destruct Hg as [Hr Hkk Hoo Hmm Hrr Hbb Hma]. split; try done.
  - by trans fp.
  - apply Htr; split; done.
  - intros a Ha Hb. rewrite Hm', Hmm; [done..|]. by rewrite (own_kept _ _ _ Hkk).
  - eapply bytes_same; [|exact Hbb]. intros a Ha. apply Hsame. rewrite take_length_Z in Ha by lia. lia.
  - by eapply mapped_same.
Qed.

(** [c] bytes of those at hand. *)
Lemma wp_got_take n c j fp fps w (Q : Z -> world -> Prop) : got j fp fps w -> 0 <= c <= _r fp -> j + c <= k ->
  c < Z.of_nat n -> (forall w', got (j + c) (set_p (_p fp + c) (set_r (_r fp - c) fp)) fps w' -> Q (buf + j) w') ->
  wp n (memcpy (buf + j) (_p fp) c) w Q.
Proof.
  intros Hg Hc Hjk Hn HQ. pose proof (got_range _ _ _ _ Hg) as [Hj Hjs].
  destruct (reading_take _ _ _ _ c (got_reading _ _ _ _ Hg)) as (Hle & Hb & Hrd); [done|].
  rewrite length_drop in Hle. set (l := take (Z.to_nat c) (drop (Z.to_nat j) s0)) in *.
  assert (Hl : zlen l = c) by (unfold l; rewrite length_take_le; [lia|rewrite length_drop; lia]).
  pose proof (re_ok _ _ _ _ Hrd) as Hm. pose proof (mem_ok_bytes _ _ _ Hm Hb) as Hby.
  assert (Hfree : forall a, buf + j <= a < buf + j + zlen l -> ~ reserved fp fps a).
  { intros a Ha. apply (got_not_own _ _ _ _ _ Hg). lia. }
  assert (Hmap : mapped (w_mem w) (buf + j) (zlen l)).
  { eapply mapped_sub; [apply (got_mapped _ _ _ _ Hg)|lia..]. }
  rewrite <-Hl. apply wp_memcpy; [split; [done..|]|lia|].
  - unfold forward. rewrite Hl. destruct (decide (buf + j <= _p fp)) as [|Hlt]; [by left|].
    destruct (decide (_p fp + c <= buf + j)) as [|Hlt']; [by right|]. exfalso.
    apply (Hfree (buf + j)); [lia|]. left. replace (buf + j) with (_p fp + (buf + j - _p fp)) by lia.
    eapply at_hand_own; [apply Hg|lia].
  - apply HQ.
    assert (Hrd' : reading (set_p (_p fp + c) (set_r (_r fp - c) fp)) fps (written (buf + j) l w)
      (drop (Z.to_nat (j + c)) s0)).
    { rewrite Z2Nat.inj_add, <-drop_drop by lia. by apply reading_store. }
    split; [lia|trans fp; [by apply (got_kept _ _ _ _ Hg)|by apply kept_take]|by apply (got_outputs _ _ _ _ Hg)| |done| |by apply mapped_store, Hg].
    + intros a Ha Hna. cbn. rewrite lookup_store_out by lia. by apply (got_mem _ _ _ _ Hg).
    + rewrite Z2Nat.inj_add, <-take_take_drop by lia. apply bytes_app. cbn.
      rewrite take_length_Z by lia. fold l. split; [|apply bytes_store_same].
      apply bytes_store_out; [apply Hg|]. unfold disjoint_ranges. rewrite take_length_Z by lia. lia.
Qed.
End transfer.
End facts.

Section functions.
Context {read} {R : reader read} {write} {W : writer write} {CH : channel}.
Context (seek : option (Z -> Z -> F Z)) (is_sseek : bool).
Context (malloc : Z -> C Z) (free : Z -> C unit).
Context (fstat : Z -> C (Z * Z)) (isatty : Z -> C Z).
Implicit Types (n : nat) (w : world) (fp g : FILE) (fps : list FILE) (m : mem) (s l : list Z).

(** ** getc *)

(** One character, when there is one at hand. *)
Lemma wp_take1 n fp fps w s (Q : Z * FILE * list FILE -> world -> Prop) :
  reading fp fps w s -> 0 < _r fp ->
  (forall c s', s = c :: s' -> is_byte c ->
    reading (set_p (_p fp + 1) (set_r (_r fp - 1) fp)) fps w s' ->
    Q (c, set_p (_p fp + 1) (set_r (_r fp - 1) fp), fps) w) ->
  wp n (c ← load8 (_p fp); mret (c, set_p (_p fp + 1) (set_r (_r fp - 1) fp), fps)) w Q.
Proof.
  intros Hrd Hr HQ.
  destruct (reading_take _ _ _ _ 1 Hrd) as (Hle & Hb & Hrd'); [lia|].
  destruct s as [|c s']; [cbn in Hle; lia|]. change (Z.to_nat 1) with 1%nat in *. cbn [take drop] in *. rewrite take_0 in Hb. rewrite drop_0 in Hrd'.
  pose proof (mem_ok_bytes _ _ _ (re_ok _ _ _ _ Hrd) Hb) as Hby. rewrite Forall_singleton in Hby.
  destruct Hb as [Hb _]. wp_step. eapply wp_load8; [exact Hb|]. wp_steps. by eapply HQ.
Qed.

Lemma wp_getc_hand n fp fps w s (Q : Z * FILE * list FILE -> world -> Prop) :
  reading fp fps w s -> 0 < _r fp ->
  (forall c s', s = c :: s' -> is_byte c ->
    reading (set_p (_p fp + 1) (set_r (_r fp - 1) fp)) fps w s' ->
    Q (c, set_p (_p fp + 1) (set_r (_r fp - 1) fp), fps) w) ->
  wp n (__sgetc_r read write seek is_sseek malloc free fstat isatty fp fps) w Q.
Proof.
  intros Hrd Hr HQ. pose proof (reading_r _ _ _ _ Hrd) as Hr'. unfold __sgetc_r. cbv zeta.
  rewrite i32_small by lia. change (_r (set_r (_r fp - 1) fp)) with (_r fp - 1).
  rewrite (proj2 (Z.ltb_ge _ _)) by lia. by apply (wp_take1 _ fp fps w s).
Qed.

Lemma wp_refill_held n fp fps w s (Q : Z * FILE * list FILE -> world -> Prop) :
  reading (set_r 0 fp) fps w s -> flag fp __SEOF = false -> HASUB fp = true -> 0 < _ur fp ->
  (forall fp', kept fp fp' -> reading fp' fps w s -> flag fp' __SEOF = false -> HASUB fp' = false ->
    _r fp' = _ur fp -> Q (0, fp', fps) w) ->
  wp n (__srefill_r read write seek is_sseek malloc free fstat isatty fp fps) w Q.
Proof.
  intros Hrd Heof Hub Hur HQ. unfold __srefill_r. set (fp1 := set_r 0 (ORIENT fp)).
  assert (Ha : ialike (set_r 0 fp) fp1) by apply ialike_set_r, ialike_ORIENT.
  apply (ialike_reading _ _ _ _ _ Ha) in Hrd.
  assert (Hk : kept fp fp1) by (trans (set_r 0 fp); [done|by apply ialike_kept]).
  assert (Heof1 : flag fp1 __SEOF = false) by (rewrite (ialike_flag _ _ _ Ha); [done|in_flags]).
  assert (Hub1 : HASUB fp1 = true) by (unfold HASUB in *; by rewrite (ia_ub _ _ Ha)).
  assert (Hur1 : _ur fp1 = _ur fp) by apply Ha. pose proof (reading_back _ _ _ _ Hrd Heof1 Hub1 eq_refl) as Hrd2.
  destruct (re_data _ _ _ _ Hrd) as (l1 & l2 & Hd & _). pose proof (rd_where _ _ _ _ Hd) as Hwh. rewrite Hub1 in Hwh.
  wp_step. unfold refill_switch. rewrite Heof1, (rd_open _ _ _ _ Hd), Hub1. cbn [negb].
  unfold FREEUB. rewrite (proj1 Hwh), Z.eqb_refl. wp_steps.
  match goal with |- context [if negb (?r =? 0) then _ else _] => change r with (_ur fp1) end.
  rewrite (proj2 (Z.eqb_neq _ _)) by lia. wp_steps. apply HQ; [by trans fp1|exact Hrd2|done..].
Qed.

(** A character that is at hand is read without the system. *)
Lemma wp_getc_held n fp fps w s (Q : Z * FILE * list FILE -> world -> Prop) :
  reading fp fps w s -> flag fp __SEOF = false -> 0 < held fp ->
  (forall c s' fp', s = c :: s' -> kept fp fp' -> reading fp' fps w s' -> flag fp' __SEOF = false ->
    held fp' = held fp - 1 -> Q (c, fp', fps) w) ->
  wp n (__sgetc_r read write seek is_sseek malloc free fstat isatty fp fps) w Q.
Proof.
  intros Hrd Heof Hh HQ. pose proof (reading_r _ _ _ _ Hrd) as Hr. unfold held in *.
  destruct (Z.eqb_spec (_r fp) 0) as [Hr0|Hr0].
  - rewrite Hr0 in *. destruct (HASUB fp) eqn:Hub; [|lia].
    unfold __sgetc_r. cbv zeta. rewrite Hr0. rewrite i32_small by lia. change (_r (set_r (0 - 1) fp) <? 0) with true.
    unfold __srget_r. wp_step. eapply (wp_refill_held _ (set_r (0 - 1) fp) fps w s).
    + by apply (reading_set_r fp).
    + done.
    + done.
    + cbn. lia.
    + intros fp1 Hk Hrd1 He1 Hub1 Hr1. change (_ur (set_r (0 - 1) fp)) with (_ur fp) in Hr1.
      assert (Hk1 : kept fp fp1) by (by trans (set_r (0 - 1) fp)).
      change (0 =? 0) with true. cbv iota zeta. pose proof (reading_r _ _ _ _ Hrd1). rewrite i32_small by lia.
      apply (wp_take1 _ fp1 fps w s); [done|lia|]. intros c s' -> Hc Hrd2. eapply HQ; [done|by trans fp1|done..|].
      change (_r fp1 - 1 + (if HASUB fp1 then _ur fp1 else 0) = 0 + _ur fp - 1). rewrite Hub1. lia.
  - apply (wp_getc_hand _ fp fps w s); [done|lia|]. intros c s' -> Hc Hrd'. eapply HQ; [done..|].
    change (_r fp - 1 + (if HASUB fp then _ur fp else 0) = _r fp + (if HASUB fp then _ur fp else 0) - 1). lia.
Qed.

Lemma wp_getc n fp fps w s (Q : Z * FILE * list FILE -> world -> Prop) :
  enough n fps -> reading fp fps w s ->
  (forall c s' fp' fps' w', s = c :: s' -> is_byte c -> istep fp fps w fp' fps' w' -> reading fp' fps' w' s' ->
    Q (c, fp', fps') w') ->
  (forall fp' fps' w', istep fp fps w fp' fps' w' -> reading fp' fps' w' s -> over s fp' -> Q (EOF, fp', fps') w') ->
  wp n (__sgetc_r read write seek is_sseek malloc free fstat isatty fp fps) w Q.
Proof.
  intros Hn Hrd HQ HE. pose proof (reading_r _ _ _ _ Hrd) as Hr.
  destruct (Z.eqb_spec (_r fp) 0) as [Hr0|Hr0].
  - unfold __sgetc_r. cbv zeta. rewrite i32_small by lia. change (_r (set_r (_r fp - 1) fp)) with (_r fp - 1).
    rewrite (proj2 (Z.ltb_lt _ _)) by lia. unfold __srget_r. wp_step.
    eapply (wp_refill _ _ _ _ _ _ _ (set_r (_r fp - 1) fp)); [done|by apply (reading_set_r fp _ _ _ 0)|].
    intros r fp1 fps1 w1 Hst Hrd1 Hres _ _.
    assert (Hst' : istep fp fps w fp1 fps1 w1) by (eapply istep_trans; [|exact Hst]; by apply istep_stream).
    destruct Hres as [ [-> Hr1]|(-> & Hr1 & Ho)].
    + change (0 =? 0) with true. cbv iota zeta. pose proof (reading_r _ _ _ _ Hrd1). rewrite i32_small by lia.
      apply (wp_take1 _ fp1 fps1 w1 s); [done..|].
      intros c s' -> Hc Hrd2. eapply HQ; [done..| |done]. eapply istep_trans; [exact Hst'|by apply istep_stream].
    + change (EOF =? 0) with false. wp_steps. by apply HE.
  - apply (wp_getc_hand _ fp fps w s); [done|lia|]. intros c s' -> Hc Hrd'. eapply HQ; [done..| |done].
    by apply istep_stream.
Qed.

End functions.

(** ** ungetc *)

Section ungetc.
Context {read} {R : reader read} {write} {W : writer write} {CH : channel}.
Context {cfg : build} (seek : option (Z -> Z -> F Z)).
Context (malloc : Z -> C Z) (realloc : Z -> Z -> C Z) (free : Z -> C unit).
Implicit Types (n : nat) (w : world) (fp g : FILE) (fps : list FILE) (m : mem) (s l : list Z).

Lemma wp_ungetc_push n c fp fps w s (Q : Z * FILE -> world -> Prop) :
  is_byte c -> reading fp fps w s -> flag fp __SEOF = false -> 0 < room fp ->
  (forall fp' w', istep fp fps w fp' fps w' -> reading fp' fps w' (c :: s) -> pushed fp fp' -> Q (c, fp') w') ->
  wp n (ungetc_push malloc realloc c fp) w Q.
Proof.
  intros Hc Hrd Heof Hroom HQ. pose proof (reading_r _ _ _ _ Hrd) as Hr.
  pose proof Hrd as [Hm (l1 & l2 & Hd & Hs & _) Ho].
  assert (Hfin : forall fp' m' l1' l2', kept fp fp' -> rdata fp' m' l1' l2' -> mem_ok m' -> flag fp' __SEOF = false ->
    l1' ++ l2' = c :: l1 ++ l2 -> (forall a, ~ own fp a -> m' !! a = w_mem w !! a) -> outputs fp' fps m' ->
    held fp' = held fp + 1 -> room fp - 1 <= room fp' -> Q (c, fp') (set_mem m' w)).
  { intros fp' m' l1' l2' Hk Hd' Hm' He' Hl Ha Ho' ? ?. apply HQ; [|split|by split]; [|done| |done].
    - pose proof (istep_stream fp fps w fp' Hk) as []. by split.
    - exists l1', l2'. rewrite (kept_file _ _ Hk), He'. split_and!; [done| |done].
      rewrite app_assoc, Hl, Hs. cbn [app]. by rewrite <-app_assoc. }
  pose proof (rdata_base_pos _ _ _ _ Hm Hd) as [_ Hu].
  assert (Hub3 : forall a, _ubuf fp <= a < _ubuf fp + 3 -> own fp a /\ is_Some (w_mem w !! a)).
  { intros a Ha. split; [by right|]. by apply (rd_ubuf _ _ _ _ Hd). }
  unfold ungetc_push. pose proof (rd_where _ _ _ _ Hd) as Hwh. destruct (HASUB fp) eqn:Hub.
  - unfold room in Hroom. rewrite Hub in Hroom. destruct Hwh as (Eub & Hp1 & Hp2 & _). rewrite Eub. cbn [_size].
    pose proof (rd_r _ _ _ _ Hd) as Hr1.
    rewrite (proj2 (Z.leb_gt _ _)) by lia. wp_steps. change (_p (set_p (_p fp - 1) fp)) with (_p fp - 1).
    destruct (Hub3 (_p fp - 1)) as [Hown Hsome]; [unfold sizeof_ubuf in *; lia|].
    apply wp_store8; [done|]. wp_steps. rewrite i32_small by (cbn; lia). rewrite u8_small by done.
    eapply Hfin; [done|apply (rdata_push_more _ _ _ _ c Hm Hd); [done|lia]|by apply mem_ok_insert|done|done| | | |].
    + intros a Ha. apply lookup_insert_ne. by intros <-.
    + by eapply own_insert.
    + unfold held, HASUB in *. cbn. rewrite Hub. lia.
    + unfold room, HASUB in *. cbn. rewrite Hub. lia.
  - assert (Hroom0 : room fp = 3) by (unfold room; by rewrite Hub).
    assert (Hheld0 : held fp = _r fp) by (unfold held; rewrite Hub; lia). destruct Hwh as (Hp1 & Hp2 & ->).
    assert (Hnew : Q (c, set_r 1 (set_p (_ubuf fp + 2) (set_ub (Sbuf (_ubuf fp) sizeof_ubuf) (set_up (_p fp) (set_ur (_r fp) fp)))))
      (set_mem (<[_ubuf fp + 2 := c]> (w_mem w)) w)).
    { destruct (Hub3 (_ubuf fp + 2)) as [Hown Hsome]; [lia|].
      assert (Hub' : (_ubuf fp =? 0) = false) by (apply Z.eqb_neq; lia).
      eapply Hfin; [done|by apply (rdata_push_first _ _ _ _ c Hm Hd)|by apply mem_ok_insert|done| | | | |].
      - by rewrite app_nil_r.
      - intros a Ha. apply lookup_insert_ne. by intros <-.
      - by eapply own_insert.
      - rewrite Hheld0. unfold held, HASUB. cbn. rewrite Hub'. cbn. lia.
      - rewrite Hroom0. unfold room, HASUB. cbn. rewrite Hub'. cbn. done. }
    assert (Hput : wp n (let fp' := set_up (_p fp) (set_ur (_r fp) fp) in
      let fp' := set_ub (Sbuf (_ubuf fp') sizeof_ubuf) fp' in
      store8 (_ubuf fp' + sizeof_ubuf - 1) c ;;
      mret (c, set_r 1 (set_p (_ubuf fp' + sizeof_ubuf - 1) fp'))) w Q).
    { destruct (Hub3 (_ubuf fp + 2)) as [Hown Hsome]; [lia|]. wp_steps.
      change (_ubuf (set_ub _ _)) with (_ubuf fp). unfold sizeof_ubuf in *.
      replace (_ubuf fp + 3 - 1) with (_ubuf fp + 2) by lia.
      apply wp_store8; [done|]. wp_steps. by rewrite u8_small by done. }
    pose proof (rdata_base_pos _ _ _ _ Hm Hd) as [Hb _]. rewrite (proj2 (Z.eqb_neq _ _)) by lia. cbn [negb andb].
    wp_step. destruct (base fp <? _p fp) eqn:E; [|wp_step; exact Hput].
    destruct (rd_mapped _ _ _ _ Hd (_p fp - 1)) as [x Hx]; [pose proof (rd_size _ _ _ _ Hd); blia|].
    wp_step. eapply wp_load8; [exact Hx|]. wp_step. destruct (Z.eqb_spec x c) as [->|]; [|exact Hput].
    wp_steps. rewrite i32_small by lia. rewrite <-(set_mem_id w).
    eapply Hfin; [done|by eapply rdata_push_same; [exact Hd|exact Hub|blia|exact Hx]|done|done|by rewrite !app_nil_r|done| | |].
    + by eapply (outputs_frame fp).
    + rewrite Hheld0. unfold held, HASUB in *. cbn. rewrite Hub. lia.
    + rewrite Hroom0. unfold room, HASUB in *. cbn. rewrite Hub. done.
Qed.

Lemma wp_ungetc n c fp fps w s (Q : Z * FILE -> world -> Prop) :
  c <> EOF -> reading fp fps w s -> 0 < room fp ->
  (forall fp' w', istep fp fps w fp' fps w' -> reading fp' fps w' (u8 c :: s) -> pushed fp fp' -> Q (u8 c, fp') w') ->
  wp n (_ungetc_r write seek malloc realloc free c fp) w Q.
Proof.
  intros Hc Hrd Hroom HQ. unfold _ungetc_r. rewrite (proj2 (Z.eqb_neq _ _)) by done. cbv zeta.
  set (fp1 := clear_flag __SEOF (ORIENT fp)).
  assert (Ha : ialike fp (ORIENT fp)) by apply ialike_ORIENT.
  apply (ialike_reading _ _ _ _ _ Ha) in Hrd.
  assert (Hflag : forall f, Z.land __SEOF f = 0 -> flag fp1 f = flag (ORIENT fp) f).
  { intros f Hf. by apply flag_clear. }
  assert (Hk1 : kept (ORIENT fp) fp1) by (split; try done; by apply Hflag).
  assert (Hk : kept fp fp1) by (trans (ORIENT fp); [by apply ialike_kept|done]).
  assert (Heof : flag fp1 __SEOF = false) by by apply flag_cleared.
  assert (Hrd1 : reading fp1 fps w s).
  { destruct Hrd as [Hm (l1 & l2 & Hd & Hs & _) Ho]. split; [done| |by eapply (outputs_frame (ORIENT fp) fp1 _ (w_mem w))].
    exists l1, l2. split_and!; [|done|by rewrite Heof]. destruct Hd. split; try done; by rewrite Hflag. }
  assert (Hopen : flag fp1 __SRD = true) by (destruct Hrd1 as [_ (? & ? & Hd & _) _]; apply Hd).
  rewrite Hopen. wp_steps.
  apply wp_ungetc_push with fps s; [apply u8_range|done|done| |].
  - change (room fp1) with (room (ORIENT fp)). by rewrite (room_ialike _ _ Ha).
  - intros fp' w' Hst Hrd' [He Hh' Hr']. change (held fp1) with (held (ORIENT fp)) in Hh'.
    change (room fp1) with (room (ORIENT fp)) in Hr'. rewrite (held_ialike _ _ Ha) in Hh'. rewrite (room_ialike _ _ Ha) in Hr'.
    apply HQ; [|done|by split]. eapply istep_trans; [|exact Hst]. by apply istep_stream.
Qed.

End ungetc.

(** ** fread *)

Section transfers.
Context {read} {R : reader read} {write} {W : writer write} {CH : channel}.
Context {cfg : build} (seek : option (Z -> Z -> F Z)) (is_sseek : bool).
Context (malloc : Z -> C Z) (free : Z -> C unit).
Context (fstat : Z -> C (Z * Z)) (isatty : Z -> C Z).
Implicit Types (n : nat) (w : world) (fp g : FILE) (fps : list FILE) (m : mem) (s l : list Z).

(** The loops end with what was asked for at hand, or with less and nothing more. *)
Section fread.
Context (buf k : Z) (fp0 : FILE) (fps0 : list FILE) (w0 : world) (s0 : list Z).
Context (Hk : 0 < k) (Hdest : dest fp0 fps0 (w_mem w0) buf k) (Hm0 : mem_ok (w_mem w0)).
Abbreviation got := (got buf k fp0 fps0 w0 s0).

Lemma dest_range : 0 < buf /\ k < 1073741824.
Proof.
  destruct (mapped_bytes _ _ _ (Z.lt_le_incl _ _ Hk) (dest_mapped _ _ _ _ _ Hdest)) as (l & Hl & Hb).
  apply (mem_ok_range _ _ _ Hm0) in Hb; [lia|]. intros ->. cbn in Hl. lia.
Qed.

Lemma got_enough n j fp fps w : enough n fps0 -> got j fp fps w -> enough n fps.
Proof. intros Hn Hg. by eapply enough_okept; [apply Hg|]. Qed.

(** Filling the buffer between two parts. *)
Lemma wp_got_refill n j fp fps w (Q : Z * FILE * list FILE -> world -> Prop) : enough n fps0 ->
  got j (set_r 0 fp) fps w ->
  (forall fp' fps' w', got j fp' fps' w' -> 0 < _r fp' -> Q (0, fp', fps') w') ->
  (forall fp' fps' w', got j fp' fps' w' -> over (drop (Z.to_nat j) s0) fp' -> Q (EOF, fp', fps') w') ->
  wp n (__srefill_r read write seek is_sseek malloc free fstat isatty fp fps) w Q.
Proof.
  intros Hn Hg HT HF. eapply wp_refill; [by eapply got_enough|apply Hg|].
  intros r fp' fps' w' Hst Hrd Hres _ _.
  assert (Hg' : got j fp' fps' w').
  { eapply got_istep; [exact Hdest|exact Hg| |done]. eapply istep_trans; [|exact Hst]. by apply istep_stream. }
  destruct Hres as [ [-> Hr]|(-> & _ & Ho)]; auto.
Qed.

Lemma wp_fread_buffered n j fp fps w (Q : bool * Z * Z * FILE * list FILE -> world -> Prop) : enough n fps0 ->
  k + 1 < Z.of_nat n -> got j fp fps w ->
  (forall j fp fps w, got j fp fps w -> k - j <= _r fp -> Q (true, buf + j, k - j, fp, fps) w) ->
  (forall j p fp fps w, got j fp fps w -> j < k -> over (drop (Z.to_nat j) s0) fp -> Q (false, p, k - j, fp, fps) w) ->
  wp n (loop (fread_buffered read write seek is_sseek malloc free fstat isatty) (buf + j, k - j, fp, fps)) w Q.
Proof.
  intros Hn Hkn Hg HT HF. pose proof dest_range as [_ Hk30].
  set (more fp := if _r fp =? 0 then 1%nat else 0%nat).
  eapply (wp_loop_inv (fun i '(p, resid, fp, fps) w => exists j, p = buf + j /\ resid = k - j /\ got j fp fps w /\
    i = (Z.to_nat (k - j) + more fp)%nat)).
  { exists j. split_and!; [done..|exact Hg|done]. }
  { pose proof (got_range _ _ _ _ _ _ _ _ _ _ Hg). unfold more. destruct (_r fp =? 0); lia. }
  clear j fp fps w Hg. intros i [ [ [p resid] fp] fps] w (j & -> & -> & Hg & ->).
  unfold fread_buffered. pose proof (reading_r _ _ _ _ (got_reading _ _ _ _ _ _ _ _ _ _ Hg)) as Hr.
  pose proof (got_range _ _ _ _ _ _ _ _ _ _ Hg) as [Hj _].
  rewrite (u32_small (_r fp)) by lia. destruct (_r fp <? k - j) eqn:E.
  - wp_step. eapply wp_got_take; [exact Hdest|exact Hg|lia|blia|blia|]. intros w1 Hg1.
    wp_steps. eapply wp_got_refill; [done| |..].
    { rewrite Z.sub_diag in Hg1. exact Hg1. }
    + intros fp' fps' w' Hg' Hr'. change (0 =? 0) with true. wp_steps.
      rewrite u32_small by (pose proof (got_range _ _ _ _ _ _ _ _ _ _ Hg'); lia).
      exists (Z.to_nat (k - (j + _r fp)) + more fp')%nat. split; [unfold more|].
      * rewrite (proj2 (Z.eqb_neq (_r fp') 0)) by lia. destruct (Z.eqb_spec (_r fp) 0); lia.
      * exists (j + _r fp). split_and!; [lia|lia|done|done].
    + intros fp' fps' w' Hg' Ho. change (EOF =? 0) with false. wp_steps.
      pose proof (got_range _ _ _ _ _ _ _ _ _ _ Hg').
      rewrite u32_small by lia. replace (k - j - _r fp) with (k - (j + _r fp)) by lia. apply HF; [done|blia|done].
  - wp_steps. apply HT; [done|blia].
Qed.
Lemma got_aside j fp fps w : got j fp fps w -> j < k -> HASUB fp = false -> _r fp = 0 ->
  reading (aside (buf + j) (k - j) fp) fps w (drop (Z.to_nat j) s0).
Proof.
  intros Hg Hj Hub Hr. pose proof dest_range as [_ Hk30]. pose proof (got_range _ _ _ _ _ _ _ _ _ _ Hg) as [Hj0 _].
  destruct (got_reading _ _ _ _ _ _ _ _ _ _ Hg) as [Hm (l1 & l2 & Hd & Hs & He) Ho].
  assert (Hfree : forall a, buf + j <= a < buf + k -> ~ reserved fp fps a).
  { intros a Ha. eapply got_not_own; [exact Hdest|exact Hg|lia]. }
  pose proof (rd_r _ _ _ _ Hd) as Hr1. assert (l1 = []) as -> by (destruct l1; [done|cbn in Hr1; lia]).
  pose proof (rd_where _ _ _ _ Hd) as Hwh. rewrite Hub in Hwh. destruct Hwh as (_ & _ & ->).
  split; [done| |].
  - exists [], []. split_and!; [|done|done]. destruct Hd. split; try done; cbn [aside _bf _base _size set_p set_bf _ubuf _p _r].
    + lia.
    + eapply mapped_sub; [apply (got_mapped _ _ _ _ _ _ _ _ _ _ Hg)|lia..].
    + apply apart_ranges; [lia|done|]. intros a Ha Ha'. apply (Hfree a); [lia|]. left. by right.
    + change (HASUB (aside (buf + j) (k - j) fp)) with (HASUB fp). rewrite Hub. cbn [length]. split_and!; [lia..|done].
  - unfold outputs in *. rewrite Forall_forall in *. intros g Hgin Hl. destruct (Ho g Hgin Hl) as (H1 & H2 & H3).
    split_and!; [done..|]. intros a Ha [Hown|Hown].
    + apply (Hfree a); [cbn in Hown; lia|]. right. eauto.
    + apply (H3 a Ha). by right.
Qed.

(** After [_r fp1] bytes were read. *)
Lemma got_back j fp fps w fp1 fps1 w1 : got j fp fps w -> j < k -> HASUB fp = false -> _r fp = 0 ->
  istep (aside (buf + j) (k - j) fp) fps w fp1 fps1 w1 -> reading fp1 fps1 w1 (drop (Z.to_nat j) s0) ->
  HASUB fp1 = false -> (_r fp1 = 0 \/ _p fp1 = buf + j) -> got (j + _r fp1) (back fp fp1) fps1 w1.
Proof.
  intros Hg Hj Hub Hr [Hk1 Hmem Hok] [Hm1 (l1 & l2 & Hd1 & Hs1 & He1) Ho1] Hub1 Hp.
  pose proof (got_range _ _ _ _ _ _ _ _ _ _ Hg) as [Hj0 Hjs].
  assert (Hfree : forall a, buf <= a < buf + k -> ~ own fp a).
  { intros a Ha Hown. by eapply got_not_own; [exact Hdest|exact Hg|exact Ha|left]. }
  assert (Hsame : forall a, ~ (buf + j <= a < buf + k) -> ~ (_ubuf fp <= a < _ubuf fp + 3) -> w_mem w1 !! a = w_mem w !! a).
  { intros a Ha Hu. apply Hmem. intros [Hown|Hown]; [|by apply Hu]. cbn in Hown. lia. }
  pose proof (rd_where _ _ _ _ Hd1) as Hwh. rewrite Hub1 in Hwh. destruct Hwh as (Hp1 & Hp2 & ->).
  rewrite (kept_bf _ _ Hk1) in Hp1, Hp2. cbn [aside _bf _base _size set_p set_bf] in Hp1, Hp2.
  pose proof (rd_r _ _ _ _ Hd1) as Hr1. cbn [app] in Hs1.
  assert (Hlen : zlen s0 - j = zlen l1 + zlen (remaining (_file fp1) (w_io w1))).
  { apply (f_equal length) in Hs1. rewrite length_drop, length_app in Hs1. lia. }
  assert (Hdrop : drop (Z.to_nat (j + _r fp1)) s0 = remaining (_file fp1) (w_io w1)).
  { rewrite Z2Nat.inj_add, <-drop_drop, Hs1, Hr1, Nat2Z.id by lia. by rewrite drop_app_length. }
  assert (Htake : take (Z.to_nat (j + _r fp1)) s0 = take (Z.to_nat j) s0 ++ l1).
  { rewrite Z2Nat.inj_add, <-take_take_drop, Hs1, Hr1, Nat2Z.id by lia. by rewrite take_app_length. }
  destruct (got_reading _ _ _ _ _ _ _ _ _ _ Hg) as [_ (l & l' & Hd & _ & _) Ho].
  pose proof (rd_r _ _ _ _ Hd) as Hr0. assert (l = []) as -> by (destruct l; [done|cbn in Hr0; lia]).
  split.
  - lia.
  - trans fp; [by apply (got_kept _ _ _ _ _ _ _ _ _ _ Hg)|by eapply kept_back].
  - pose proof (got_outputs _ _ _ _ _ _ _ _ _ _ Hg) as H0.
    by apply (istep_trans fp fps0 w fp fps w fp fps1 w); split.
  - intros a Ha Hb. rewrite Hsame; [by apply (got_mem _ _ _ _ _ _ _ _ _ _ Hg)|lia|].
    intros Hu. apply Ha. right. by rewrite <-(kept_ubuf _ _ (got_kept _ _ _ _ _ _ _ _ _ _ Hg)).
  - rewrite Hdrop. split; [done| |].
    + exists [], []. split_and!; [|done|].
      * eapply rdata_back; [exact Hd|done|exact Hk1|exact Hd1|done|].
        intros a Ha. apply Hsame; [intros Hb; apply (Hfree a); [lia|by left]|].
        destruct (rd_apart _ _ _ _ Hd); unfold sizeof_ubuf in *; lia.
      * intros Hf. change (flag fp1 __SEOF = true) in Hf. specialize (He1 Hf). rewrite Hs1 in He1.
        by apply app_eq_nil in He1 as [_ ?].
    + eapply (outputs_frame fp); [by eapply kept_back|done|].
      eapply outputs_okept; [exact Ho|exact Hok| |exact Ho1]. by apply (kept_file _ _ Hk1).
  - rewrite Htake. apply bytes_app. rewrite (take_length_Z s0) by lia. split.
    + eapply bytes_same; [|apply (got_bytes _ _ _ _ _ _ _ _ _ _ Hg)]. intros a Ha.
      rewrite (take_length_Z s0) in Ha by lia. apply Hsame; [lia|]. intros Hu. apply (Hfree a); [lia|by right].
    + destruct Hp as [Hp|<-]; [|apply Hd1]. destruct l1; [done|cbn in Hr1; lia].
  - intros a Ha. destruct (decide (buf + j <= a)).
    + apply (rd_mapped _ _ _ _ Hd1). rewrite (kept_bf _ _ Hk1). cbn. lia.
    + rewrite Hsame; [by apply (got_mapped _ _ _ _ _ _ _ _ _ _ Hg)|lia|].
      intros Hu. apply (Hfree a); [lia|by right].
Qed.

Lemma wp_fread_direct n j fp fps w (Q : bool * Z * FILE * list FILE -> world -> Prop) : enough n fps0 ->
  k < Z.of_nat n -> got j fp fps w -> (j < k -> HASUB fp = false /\ _r fp = 0) ->
  (forall fp fps w, got k fp fps w -> Q (true, 0, fp, fps) w) ->
  (forall j fp fps w, got j fp fps w -> j < k -> over (drop (Z.to_nat j) s0) fp -> Q (false, k - j, fp, fps) w) ->
  wp n (loop (fread_direct read write seek is_sseek malloc free fstat isatty) (buf + j, k - j, fp, fps)) w Q.
Proof.
  intros Hn Hkn Hg H0 HT HF. pose proof dest_range as [_ Hk30].
  eapply (wp_loop_inv (fun i '(p, resid, fp, fps) w => exists j, p = buf + j /\ resid = k - j /\ got j fp fps w /\
    (j < k -> HASUB fp = false /\ _r fp = 0) /\ i = Z.to_nat (k - j))).
  { exists j. split_and!; [done..|exact Hg|exact H0|done]. }
  { pose proof (got_range _ _ _ _ _ _ _ _ _ _ Hg). lia. }
  clear j fp fps w Hg H0. intros i [ [ [p resid] fp] fps] w (j & -> & -> & Hg & H0 & ->).
  unfold fread_direct. pose proof (got_range _ _ _ _ _ _ _ _ _ _ Hg) as [Hj _].
  destruct (0 <? k - j) eqn:E.
  - assert (Hjk : j < k) by blia. destruct (H0 Hjk) as [Hub Hr]. cbv zeta. rewrite i32_small by lia.
    fold (aside (buf + j) (k - j) fp). wp_step.
    assert (Ha : reading (aside (buf + j) (k - j) fp) fps w (drop (Z.to_nat j) s0)) by by apply got_aside.
    eapply wp_refill; [by eapply got_enough|by eapply reading_set_r; [exact Hr|exact Ha]|].
    intros r fp1 fps1 w1 Hst Hrd Hres Hub1 _. destruct Hub1 as [Hub1 Hp]; [done|].
    assert (Eb : Sbuf (_base (_bf fp)) (_size (_bf fp)) = _bf fp) by by destruct (_bf fp). rewrite Eb.
    change (_r (set_p (_p fp) (set_bf (_bf fp) fp1))) with (_r fp1).
    change (set_r 0 (set_p (_p fp) (set_bf (_bf fp) fp1))) with (back fp fp1).
    assert (Hg' : got (j + _r fp1) (back fp fp1) fps1 w1).
    { eapply got_back; [exact Hg|exact Hjk|exact Hub|exact Hr|exact Hst|exact Hrd|exact Hub1|].
      destruct Hres as [ [-> _]|(_ & Hr0 & _)]; [right; by rewrite Hp|by left]. }
    pose proof (got_range _ _ _ _ _ _ _ _ _ _ Hg') as [Hj' _].
    rewrite u32_small by lia. replace (k - j - _r fp1) with (k - (j + _r fp1)) by lia.
    destruct Hres as [ [-> Hr1]|(-> & Hr1 & Ho)].
    + change (0 =? 0) with true. wp_steps. exists (Z.to_nat (k - (j + _r fp1))). split; [lia|].
      exists (j + _r fp1). split_and!; [lia|done|done| |done]. intros _. by split.
    + change (EOF =? 0) with false. wp_steps. rewrite Hr1, Z.add_0_r in *. by apply HF.
  - wp_steps. assert (j = k) as -> by blia. rewrite Z.sub_diag. by apply HT.
Qed.
End fread.

(** What fread does: [j] bytes go to the program, and [r] says how many elements
    that is. *)
Definition fread_end (sz count : Z) (s : list Z) (j r : Z) fp : Prop :=
  (j = count * sz /\ r = if count * sz =? 0 then 0 else count) \/
  (j < count * sz /\ r = j / sz /\ over (drop (Z.to_nat j) s) fp).

Lemma reading_ORIENT fp fps w s : reading fp fps w s -> reading (ORIENT fp) fps w s.
Proof. apply ialike_reading, ialike_ORIENT. Qed.

Lemma wp_fread n buf sz count fp fps w s (Q : Z * FILE * list FILE -> world -> Prop) :
  enough n fps -> count * sz + 1 < Z.of_nat n -> reading fp fps w s -> 0 <= sz -> 0 <= count ->
  dest fp fps (w_mem w) buf (count * sz) ->
  (PREFER_SIZE_OVER_SPEED = false -> flag fp __SNBF = true -> HASUB fp = false) ->
  (forall j r fp' fps' w', got buf (count * sz) fp fps w s j fp' fps' w' -> fread_end sz count s j r fp' ->
    Q (r, fp', fps') w') ->
  wp n (_fread_r read write seek is_sseek malloc free fstat isatty buf sz count fp fps) w Q.
Proof.
  intros Hn Hkn Hrd Hsz Hc Hdest Hdir HQ. unfold _fread_r, fread_end in *. set (k := count * sz) in *.
  assert (Hk : 0 <= k) by (apply Z.mul_nonneg_nonneg; lia). pose proof (re_ok _ _ _ _ Hrd) as Hm.
  assert (H0 : got buf k fp fps w s 0 fp fps w) by by apply got_start.
  destruct (Z.eqb_spec k 0) as [Ek|Ek].
  { rewrite Ek. change (u32 0 =? 0) with true. wp_steps. eapply HQ; [exact H0|]. by left. }
  assert (Hk0 : 0 < k) by lia. pose proof (dest_range _ _ _ _ _ Hk0 Hdest Hm) as [_ Hk30].
  rewrite (u32_small k), (proj2 (Z.eqb_neq _ _)) by lia. cbv zeta.
  pose proof (reading_r _ _ _ _ Hrd) as Hr.
  assert (Ha : ialike fp (ORIENT fp)) by apply ialike_ORIENT.
  rewrite (ia_r _ _ Ha), (proj2 (Z.ltb_ge _ _)) by lia. rewrite (ialike_flag _ _ __SNBF Ha) by in_flags.
  assert (Hg : got buf k fp fps w s 0 (ORIENT fp) fps w).
  { apply got_start; [lia|done|by apply ialike_kept|by apply reading_ORIENT]. }
  destruct (negb PREFER_SIZE_OVER_SPEED && flag fp __SNBF) eqn:Emode.
  - apply andb_true_iff in Emode as [Ep Eb]. apply negb_true_iff in Ep. specialize (Hdir Ep Eb).
    assert (Hub : HASUB (ORIENT fp) = false) by (unfold HASUB; by rewrite (ia_ub _ _ Ha)).
    set (c := if u32 (_r (ORIENT fp)) <? k then _r (ORIENT fp) else i32 k).
    assert (Hc1 : 0 <= c <= _r fp /\ c <= k /\ (c < k -> c = _r fp)).
    { unfold c. rewrite (ia_r _ _ Ha), u32_small, i32_small by lia. destruct (Z.ltb_spec (_r fp) k); lia. }
    rewrite (u32_small c) by lia. wp_step. rewrite <-(Z.add_0_r buf).
    eapply wp_got_take; [exact Hdest|exact Hg|rewrite (ia_r _ _ Ha); lia|lia|lia|]. intros w1 Hg1. rewrite Z.add_0_l in Hg1.
    wp_step. set (fp1 := set_r (i32 _) _). assert (Efp : fp1 = set_p (_p (ORIENT fp) + c) (set_r (_r (ORIENT fp) - c) (ORIENT fp))).
    { unfold fp1. cbn [_r set_p]. by rewrite i32_small by (rewrite (ia_r _ _ Ha); lia). }
    change (HASUB fp1) with (HASUB (ORIENT fp)). rewrite Hub. cbn [andb]. wp_steps. rewrite <-Efp in Hg1.
    rewrite u32_small by lia. rewrite Z.add_0_r.
    eapply (wp_fread_direct buf k fp fps w s); [exact Hk0|exact Hdest|exact Hm|exact Hn|lia|exact Hg1| | |].
    + intros Hck. split; [exact Hub|]. rewrite Efp. cbn [_r set_p set_r]. rewrite (ia_r _ _ Ha). lia.
    + intros fp2 fps2 w2 Hg2. wp_steps. eapply HQ; [exact Hg2|]. by left.
    + intros j fp2 fps2 w2 Hg2 Hj Ho. wp_steps. rewrite u32_small by (pose proof (got_range _ _ _ _ _ _ _ _ _ _ Hg2); lia).
      replace (k - (k - j)) with j by lia. eapply HQ; [exact Hg2|]. by right.
  - wp_step. pose proof (wp_fread_buffered buf k fp fps w s Hk0 Hdest Hm n 0 (ORIENT fp) fps w) as Hloop.
    rewrite Z.add_0_r, Z.sub_0_r in Hloop. apply Hloop; [done|done|exact Hg| |]; clear Hloop.
    + intros j fp2 fps2 w2 Hg2 Hj. cbn iota. pose proof (got_range _ _ _ _ _ _ _ _ _ _ Hg2) as [Hjk _].
      pose proof (reading_r _ _ _ _ (got_reading _ _ _ _ _ _ _ _ _ _ Hg2)) as Hr2. wp_step.
      eapply wp_got_take; [exact Hdest|exact Hg2|lia|lia|lia|]. intros w3 Hg3. wp_steps.
      rewrite i32_small by lia. replace (j + (k - j)) with k in Hg3 by lia. eapply HQ; [exact Hg3|]. by left.
    + intros j p fp2 fps2 w2 Hg2 Hj Ho. cbn iota. wp_steps. pose proof (got_range _ _ _ _ _ _ _ _ _ _ Hg2).
      rewrite u32_small by lia. replace (k - (k - j)) with j by lia. eapply HQ; [exact Hg2|]. by right.
Qed.

(** ** fgets *)

Section fgets.
Context (buf sz : Z) (fp0 : FILE) (fps0 : list FILE) (w0 : world) (s0 : list Z).
Context (Hsz : 2 <= sz) (Hdest : dest fp0 fps0 (w_mem w0) buf sz) (Hm0 : mem_ok (w_mem w0)).
Abbreviation got := (got buf sz fp0 fps0 w0 s0).

(** The line of [j] characters is in the memory of the caller, with a null; it is
    as long as it can be. *)
Record line (j : Z) fp fps w : Prop := {
  line_got : got j fp fps w;
  line_len : 0 < j < sz;
  line_null : w_mem w !! (buf + j) = Some 0;
  line_inner : 10 ∉ take (Z.to_nat (j - 1)) s0;
  line_end : j = sz - 1 \/ s0 !! Z.to_nat (j - 1) = Some 10 \/ over (drop (Z.to_nat j) s0) fp;
}.

Lemma got_null j fp fps w : got j fp fps w -> j < sz -> got j fp fps (set_mem (<[buf + j := 0]> (w_mem w)) w).
Proof.
  intros Hg Hj. pose proof (got_range _ _ _ _ _ _ _ _ _ _ Hg) as Hr.
  pose proof (got_mapped _ _ _ _ _ _ _ _ _ _ Hg) as Hmap.
  assert (Hfree : forall a, buf <= a < buf + sz -> ~ reserved fp fps a).
  { intros a. by eapply got_not_own. }
  assert (Hrd : reading fp fps (written (buf + j) [0] w) (drop (Z.to_nat j) s0)).
  { apply reading_store; [apply Hg|eapply mapped_sub; [exact Hmap|cbn [length]; lia..]|by repeat constructor|].
    intros a Ha. apply Hfree. cbn [length] in Ha. lia. }
  destruct Hg as [? ? ? Hgm ? Hgb ?]. split; try done.
  - intros a Ha Hb. cbn. rewrite lookup_insert_ne by lia. by apply Hgm.
  - apply bytes_insert_out; [done|]. rewrite (take_length_Z s0) by lia. lia.
  - by apply mapped_insert.
Qed.

Lemma line_intro j fp fps w : got j fp fps w -> 0 < j < sz -> (10 ∉ take (Z.to_nat (j - 1)) s0) ->
  j = sz - 1 \/ s0 !! Z.to_nat (j - 1) = Some 10 \/ over (drop (Z.to_nat j) s0) fp ->
  line j fp fps (set_mem (<[buf + j := 0]> (w_mem w)) w).
Proof.
  intros Hg Hj H1 H2. split; [by apply got_null; [|lia]|done| |done..]. by apply lookup_insert_eq.
Qed.

Lemma not_in_take_pred j : 0 < j -> (10 ∉ take (Z.to_nat j) s0) -> 10 ∉ take (Z.to_nat (j - 1)) s0.
Proof.
  intros Hj H Hin. apply H. replace (Z.to_nat j) with (Z.to_nat (j - 1) + 1)%nat by lia.
  rewrite <-take_take_drop. apply elem_of_app. by left.
Qed.

(** A part of the line, from what is at hand. *)
Lemma wp_fgets_part n j fp fps w
    (Q : Z * Z * FILE * list FILE + (option Z * Z * FILE * list FILE) -> world -> Prop) :
  sz + 1 < Z.of_nat n -> got j fp fps w -> 0 <= j < sz - 1 -> (10 ∉ take (Z.to_nat j) s0) -> 0 < _r fp ->
  (forall j' fp' fps' w', got j' fp' fps' w' -> j < j' < sz - 1 -> (10 ∉ take (Z.to_nat j') s0) ->
    Q (inl (buf + j', sz - 1 - j', fp', fps')) w') ->
  (forall j' fp' fps' w', got j' fp' fps' w' -> j' = sz - 1 -> (10 ∉ take (Z.to_nat j') s0) ->
    Q (inr (None, buf + j', fp', fps')) w') ->
  (forall j' x fp' fps' w', line j' fp' fps' w' -> Q (inr (Some buf, x, fp', fps')) w') ->
  wp n (fgets_part buf (buf + j) (sz - 1 - j) (u32 (_r fp)) fp fps) w Q.
Proof.
  intros Hn Hg Hj Hno Hr HN HE HL. pose proof (dest_range buf sz fp0 fps0 w0 ltac:(lia) Hdest Hm0) as [_ Hsz30].
  pose proof (got_reading _ _ _ _ _ _ _ _ _ _ Hg) as Hrd. pose proof (reading_r _ _ _ _ Hrd) as Hr30.
  pose proof (re_ok _ _ _ _ Hrd) as Hm. unfold fgets_part. rewrite !u32_small by lia. cbv zeta.
  set (c := if sz - 1 - j <? _r fp then sz - 1 - j else _r fp).
  assert (Hc : 0 < c /\ c <= _r fp /\ c <= sz - 1 - j) by (unfold c; destruct (Z.ltb_spec (sz - 1 - j) (_r fp)); lia).
  clearbody c. destruct (reading_take _ _ _ _ c Hrd) as (Hle & Hb & _); [lia|]. rewrite length_drop in Hle.
  set (l := take (Z.to_nat c) (drop (Z.to_nat j) s0)) in *.
  assert (Hl : zlen l = c) by (unfold l; rewrite length_take_le; [lia|rewrite length_drop; lia]).
  wp_step. rewrite <-Hl at 1. apply (wp_memchr _ _ l 10); [done|done|lia|].
  change (u8 10) with 10. unfold find_ptr.
  assert (Hp : 0 < _p fp).
  { destruct l as [|b l']; [cbn in Hl; lia|]. by apply (mem_ok_range _ _ _ Hm) in Hb as [? _]. }
  destruct (find_idx (fun b => b =? 10) l) as [i|] eqn:Ei.
  - destruct (line_found _ _ _ _ Hno Ei) as (Hi & Hnl & Hno').
    rewrite (proj2 (Z.eqb_neq _ _)) by lia. cbn [negb].
    replace (u32 (_p fp + Z.of_nat i + 1 - _p fp)) with (Z.of_nat i + 1) by (rewrite u32_small; lia).
    replace (_p fp + Z.of_nat i + 1) with (_p fp + (Z.of_nat i + 1)) by lia. rewrite i32_small by lia.
    wp_step. eapply wp_got_take; [exact Hdest|exact Hg|lia|lia|lia|]. intros w1 Hg1. wp_step.
    replace (buf + j + (Z.of_nat i + 1)) with (buf + (j + (Z.of_nat i + 1))) by lia.
    apply wp_store8; [apply (got_mapped _ _ _ _ _ _ _ _ _ _ Hg1); lia|]. wp_steps. change (u8 0) with 0.
    apply (HL (j + (Z.of_nat i + 1))). apply line_intro; [exact Hg1|lia| |].
    + by replace (Z.to_nat (j + (Z.of_nat i + 1) - 1)) with (Z.to_nat j + i)%nat by lia.
    + right. left. by replace (Z.to_nat (j + (Z.of_nat i + 1) - 1)) with (Z.to_nat j + i)%nat by lia.
  - pose proof (line_not_found _ _ _ Hno Ei) as Hno'. rewrite <-Z2Nat.inj_add in Hno' by lia.
    change (negb (0 =? 0)) with false. cbv iota. rewrite !i32_small by lia.
    wp_step. eapply wp_got_take; [exact Hdest|exact Hg|lia|lia|lia|]. intros w1 Hg1.
    replace (buf + j + c) with (buf + (j + c)) by lia.
    destruct (Z.eqb_spec (sz - 1 - j - c) 0) as [E|E]; cbn [negb]; wp_steps.
    + apply HE; [exact Hg1|lia|exact Hno'].
    + replace (sz - 1 - j - c) with (sz - 1 - (j + c)) by lia. apply HN; [exact Hg1|lia|exact Hno'].
Qed.

Lemma wp_fgets_loop n fp (Q : option Z * Z * FILE * list FILE -> world -> Prop) : enough n fps0 ->
  sz + 1 < Z.of_nat n -> got 0 fp fps0 w0 ->
  (forall x j fp' fps' w', line j fp' fps' w' -> Q (Some buf, x, fp', fps') w') ->
  (forall j fp' fps' w', got j fp' fps' w' -> 0 < j < sz -> (10 ∉ take (Z.to_nat (j - 1)) s0) ->
    j = sz - 1 \/ over (drop (Z.to_nat j) s0) fp' -> Q (None, buf + j, fp', fps') w') ->
  (forall fp' fps' w', got 0 fp' fps' w' -> over s0 fp' -> Q (Some 0, buf, fp', fps') w') ->
  wp n (loop (fgets_chunk read write seek is_sseek malloc free fstat isatty buf) (buf, sz - 1, fp, fps0)) w0 Q.
Proof.
  intros Hn Hszn Hg HL HN H0. pose proof (dest_range buf sz fp0 fps0 w0 ltac:(lia) Hdest Hm0) as [Hbuf Hsz30].
  eapply (wp_loop_inv (fun i '(s, y, fp, fps) w => exists j, s = buf + j /\ y = sz - 1 - j /\ got j fp fps w /\
    0 <= j < sz - 1 /\ (10 ∉ take (Z.to_nat j) s0) /\ i = Z.to_nat (sz - 1 - j))).
  { exists 0. split_and!; [lia|lia|exact Hg|lia|lia|set_solver|done]. }
  { lia. }
  clear fp Hg. intros i [ [ [s y] fp] fps] w (j & -> & -> & Hg & Hj & Hno & ->). unfold fgets_chunk.
  pose proof (reading_r _ _ _ _ (got_reading _ _ _ _ _ _ _ _ _ _ Hg)) as Hr. rewrite (u32_small (_r fp)) by lia.
  set (I := fun i '(s, y, fp, fps) w => exists j, s = buf + j /\ y = sz - 1 - j /\ got j fp fps w /\
    0 <= j < sz - 1 /\ (10 ∉ take (Z.to_nat j) s0) /\ i = Z.to_nat (sz - 1 - j)).
  assert (Hpart : forall fp' fps' w', got j fp' fps' w' -> 0 < _r fp' ->
    wp n (fgets_part buf (buf + j) (sz - 1 - j) (u32 (_r fp')) fp' fps') w' (fun x w' =>
      match x with
      | inl s' => exists k', (k' < Z.to_nat (sz - 1 - j))%nat /\ I k' s' w'
      | inr r => Q r w'
      end)).
  { intros fp' fps' w' Hg' Hr'. apply wp_fgets_part; [done|exact Hg'|lia|done|done|..].
    - intros j' fp2 fps2 w2 Hg2 Hj2 Hno2. exists (Z.to_nat (sz - 1 - j')). split; [lia|].
      exists j'. split_and!; [done|done|exact Hg2|lia|lia|done|done].
    - intros j' fp2 fps2 w2 Hg2 -> Hno2. apply HN; [exact Hg2|lia|by apply not_in_take_pred; [lia|]|by left].
    - intros j' x fp2 fps2 w2 Hline. by eapply HL. }
  destruct (_r fp <=? 0) eqn:E.
  - wp_step. wp_step. eapply (wp_got_refill buf sz fp0 fps0 w0 s0); [exact Hdest|exact Hn| |..].
    { destruct Hg as [? ? ? ? Hgr ? ?].
      split; [done|by trans fp|done|done|by apply (reading_set_r fp); [blia|]|done|done]. }
    + intros fp' fps' w' Hg' Hr'. wp_steps. change (negb (0 =? 0)) with false. cbv iota. by apply Hpart.
    + intros fp' fps' w' Hg' Ho. wp_steps. change (negb (EOF =? 0)) with true. cbv iota. wp_steps.
      destruct (Z.eqb_spec (buf + j) buf) as [E0|E0].
      * assert (j = 0) as -> by lia. rewrite Z.add_0_r. by apply H0.
      * apply HN; [exact Hg'|lia|by apply not_in_take_pred; [lia|]|by right].
  - wp_steps. change (negb (0 =? 0)) with false. cbv iota. rewrite <-(u32_small (_r fp)) by lia. apply Hpart; [exact Hg|blia].
Qed.
End fgets.

Lemma wp_fgets n buf sz fp fps w s (Q : Z * FILE * list FILE -> world -> Prop) :
  enough n fps -> sz + 1 < Z.of_nat n -> reading fp fps w s -> 2 <= sz -> dest fp fps (w_mem w) buf sz ->
  (forall j fp' fps' w', line buf sz fp fps w s j fp' fps' w' -> Q (buf, fp', fps') w') ->
  (forall fp' fps' w', got buf sz fp fps w s 0 fp' fps' w' -> over s fp' -> Q (0, fp', fps') w') ->
  wp n (_fgets_r read write seek is_sseek malloc free fstat isatty buf sz fp fps) w Q.
Proof.
  intros Hn Hszn Hrd Hsz Hdest HL H0. unfold _fgets_r. rewrite (proj2 (Z.ltb_ge _ _)) by lia.
  pose proof (re_ok _ _ _ _ Hrd) as Hm. wp_step. eapply (wp_fgets_loop buf sz fp fps w s); [done..| | | |].
  - by apply got_start; [lia|..].
  - intros x j fp' fps' w' Hl. wp_steps. by eapply HL.
  - intros j fp' fps' w' Hg Hj Hno He. wp_steps.
    apply wp_store8; [apply (got_mapped _ _ _ _ _ _ _ _ _ _ Hg); lia|]. wp_steps. change (u8 0) with 0.
    eapply HL, line_intro; [exact Hdest|exact Hg|done|done|tauto].
  - intros fp' fps' w' Hg Ho. wp_steps. by apply H0.
Qed.
End transfers.
