(* ===== verification/StdioExit.v ===== *)
(** * Streams that are closed: fclose.c, and findfp.c at the exit of a program

    Closing writes what a stream holds, frees its buffer and releases the stream;
    at the exit it is done to every stream, each apart from the others. *)

From S2P Require Import Prelude CMonad Words Memory StrScan MemCopy Heap Stdio StdioSpec StdioIn StdioInSpec.

(** A stream that is in use. *)
Definition in_use (g : FILE) : Prop := _flags g <> 0 /\ _file g <> -1.

Section exit.
Context {read} {R : reader read} {write} {W : writer write} {CH : channel}.
Context {malloc free} {A : allocator malloc free}.
Context (seek : option (Z -> Z -> F Z)) (close : option (FILE -> C Z)).
Implicit Types (n : nat) (B : gmap Z Z) (w : world) (g : FILE) (fps : list FILE) (m : mem) (pend : list Z).

(** Closing a descriptor changes no file. *)
Definition closes : Prop := forall c n g w (Q : Z -> world -> Prop), close = Some c ->
  (forall r w', w_mem w' = w_mem w -> (forall fd, elsewhere fd w w') -> Q r w') -> wp n (c g) w Q.

(** The buffer of a stream is a block of its own, or none of the allocator's. *)
Definition owned B g : Prop :=
  if flag g __SMBF then exists k, B !! base g = Some k /\ size g <= k
  else forall a, base g <= a < base g + size g -> ~ arena a.

(** A stream that is written, or one that was read to the end of its buffer. *)
Record closing n B m g : Prop := {
  cl_owned : owned B g;
  cl_ub : HASUB g = true -> _base (_ub g) = _ubuf g;
  cl_data : (exists pend, writing g m pend /\ size g < Z.of_nat n) \/
    (flag g __SWR = false /\ _r g <= 0 /\ _ur g <= 0);
}.

(** The blocks after [g] was closed. *)
Definition freed B g : gmap Z Z := if flag g __SMBF then delete (base g) B else B.

Lemma fflush_only n g w r g' w' : flag g __SWR = true -> _fflush_r write seek free g n w = Done (r, g') w' ->
  (_ub g' = _ub g /\ _ubuf g' = _ubuf g) /\ forall fd, fd <> _file g -> elsewhere fd w w'.
Proof.
  intros Hw. unfold _fflush_r. unfold flag in Hw. apply negb_true_iff in Hw. rewrite Hw.
  destruct (_base (_bf g) =? 0); [by intros [[= _ ->] ->]%ret_done|]. intros E.
  apply bind_Done_inv in E as ([ok fp1] & w1 & El & E). apply flush_loop_only in El as [Hu Ho].
  destruct ok; apply ret_done in E as [[= _ ->] ->]; by split.
Qed.

(** What closing does to the file of [g]. *)
Definition closed g w r w' : Prop := forall pend, writing g (w_mem w) pend ->
  exists j, written_to (_file g) (w_io w') = file g w ++ take j pend /\ (r = 0 -> take j pend = pend).

(** The flush that comes first. *)
Lemma wp_fclose_flush n B g w (Q : Z * FILE -> world -> Prop) : (write_fuel <= n)%nat -> mem_ok (w_mem w) ->
  closing n B (w_mem w) g ->
  (forall r g' w', w_mem w' = w_mem w -> _bf g' = _bf g -> _ub g' = _ub g -> _ubuf g' = _ubuf g ->
    flag g' __SMBF = flag g __SMBF -> (forall fd, fd <> _file g -> elsewhere fd w w') -> closed g w r w' ->
    Q (r, g') w') ->
  wp n (_fflush_r write seek free g) w Q.
Proof.
  intros Hn Hm [_ _ Hd] HQ. destruct Hd as [(pend & Hw & Hs)|(Hw & Hr & Hu)].
  - apply wp_exists.
    assert (H : wp n (_fflush_r write seek free g) w (fun '(r, g') w' => step g w g' w' /\ w_mem w' = w_mem w /\
      closed g w r w')).
    { eapply wp_fflush; [done..|apply Hw| |].
      - intros g' w' Hst Hm' _ Hf. split_and!; [done..|]. intros p Hp. rewrite (writing_inj _ _ _ _ Hp Hw).
        exists (length pend). rewrite take_ge by done. unfold file in Hf. by rewrite (step_file _ _ _ _ Hst) in Hf.
      - intros j g' w' Hst Hm' _ _ Hf. split_and!; [done..|]. intros p Hp. rewrite (writing_inj _ _ _ _ Hp Hw).
        exists j. unfold file in Hf. by rewrite (step_file _ _ _ _ Hst) in Hf. }
    apply wp_exists in H as ([r g'] & w' & E & Hst & Hm' & Hc). exists (r, g'), w'. split; [done|].
    apply fflush_only in E as [[Hub Hubuf] Ho]; [|by apply Hw].
    apply HQ; [done|apply Hst|done|done|apply Hst|done|done].
  - unfold _fflush_r. unfold flag in Hw. apply negb_false_iff in Hw. rewrite Hw.
    assert (Hnw : forall pend, ~ writing g (w_mem w) pend).
    { intros pend [Hb _ _]. pose proof (wr_open _ _ _ Hb) as Ho. unfold flag in Ho. by rewrite Hw in Ho. }
    assert (Hfl : flag (set_flag __SNPT g) __SMBF = flag g __SMBF) by (rewrite flag_set; apply orb_false_r).
    assert (HQ' : Q (0, set_flag __SNPT g) w).
    { apply HQ; try done. intros p Hp. by destruct (Hnw p). }
    destruct seek; [|by wp_steps].
    change (_r (set_flag __SNPT g)) with (_r g). change (_ur (set_flag __SNPT g)) with (_ur g).
    rewrite !(proj2 (Z.ltb_ge _ _)) by lia. by wp_steps.
Qed.

(** The memory and the files after a stream was closed. *)
Record after_close B g w r g' w' : Prop := {
  ac_flags : _flags g' = 0;
  ac_ok : mem_ok (w_mem w');
  ac_heap : heap (freed B g) (w_mem w');
  ac_kept : Heap.kept arena (freed B g) (w_mem w) (w_mem w');
  ac_other fd : fd <> _file g -> elsewhere fd w w';
  ac_closed : closed g w r w';
}.

Context (Hclose : closes).

Lemma wp_fclose n B g w (Q : Z * FILE -> world -> Prop) : (write_fuel <= n)%nat -> (alloc_fuel <= n)%nat ->
  mem_ok (w_mem w) -> heap B (w_mem w) -> in_use g -> closing n B (w_mem w) g ->
  (forall r g' w', after_close B g w r g' w' -> Q (r, g') w') ->
  wp n (_fclose_r write seek close free g) w Q.
Proof.
  intros Hn Ha Hm Hh [Hf _] Hcl HQ. unfold _fclose_r. rewrite (proj2 (Z.eqb_neq _ _)) by done. wp_step.
  eapply wp_fclose_flush; [done..|]. intros r g1 w1 Hm1 Hb1 Hu1 Hubuf1 Ho1 Hoth1 Hc1. wp_step.
  assert (Hclosing : wp n (match close with Some close => x ← close g1; mret (if x <? 0 then EOF else r) | None => mret r end)
    w1 (fun r' w2 => w_mem w2 = w_mem w /\ (forall fd, elsewhere fd w1 w2) /\ (r' = 0 -> r = 0))).
  { destruct close as [c|] eqn:Ec.
    - wp_step. apply (Hclose c); [done|]. intros x w2 Hm2 Hoth2. wp_steps. split_and!; [congruence|done|].
      by destruct (x <? 0).
    - by wp_steps. }
  eapply wp_mono; [exact Hclosing|]. intros r' w2 (Hm2 & Hoth2 & Hr'). clear Hclosing.
  assert (Hfin : forall w3 g3, w_io w3 = w_io w2 -> mem_ok (w_mem w3) -> heap (freed B g) (w_mem w3) ->
    Heap.kept arena (freed B g) (w_mem w) (w_mem w3) -> Q (r', set_flags 0 g3) w3).
  { intros w3 g3 Hio Hm3 Hh3 Hk3. apply HQ. split; try done.
    - intros fd Hfd. trans w1; [by apply Hoth1|]. destruct (Hoth2 fd). unfold elsewhere. by rewrite Hio.
    - intros pend Hp. destruct (Hc1 pend Hp) as (j & Hj & Hj'). exists j. rewrite Hio.
      destruct (Hoth2 (_file g)) as [_ ->]. split; [done|]. intros H0. by apply Hj', Hr'. }
  assert (Hub : forall w3, w_io w3 = w_io w2 -> mem_ok (w_mem w3) -> heap (freed B g) (w_mem w3) ->
    Heap.kept arena (freed B g) (w_mem w) (w_mem w3) ->
    wp n (if HASUB g1 then FREEUB free g1 else mret g1) w3 (fun fp w' => wp n (mret (r', set_flags 0 fp)) w' Q)).
  { intros w3 Hio Hm3 Hh3 Hk3. destruct (HASUB g1) eqn:Eu; [|wp_steps; by apply Hfin].
    unfold FREEUB. rewrite (proj2 (Z.eqb_eq _ _)); [wp_steps; by apply Hfin|].
    unfold HASUB in Eu. rewrite Hu1 in Eu |- *. rewrite Hubuf1. by apply (cl_ub _ _ _ _ Hcl). }
  pose proof (cl_owned _ _ _ _ Hcl) as Hown. unfold owned in Hown. unfold freed in *. rewrite Ho1 in *.
  destruct (flag g __SMBF).
  - destruct Hown as (k & HB & _). wp_steps. rewrite Hb1. eapply (wp_free n B); [done|by rewrite Hm2|by rewrite Hm2|exact HB|].
    rewrite Hm2. intros w3 Hm3 Hio3 Hk3 Hh3. wp_step. by apply Hub.
  - wp_steps. apply Hub; [done|by rewrite Hm2|by rewrite Hm2|by rewrite Hm2].
Qed.

(** ** All the streams *)

(** The blocks in use are those of different streams. *)
Definition buffers fps : list Z := (fun g => base g) <$> filter (fun g => in_use g /\ flag g __SMBF = true) fps.

(** What the end of the program leaves of each stream. *)
Definition written_out r w w' g g' : Prop := in_use g -> _flags g' = 0 /\ closed g w r w'.

Lemma writing_kept B B' m m' g pend : writing g m pend -> owned B' g -> Heap.kept arena B' m m' ->
  writing g m' pend.
Proof.
  intros Hw Ho Hk. eapply writing_frame; [|exact Hw]. intros a Ha. apply Hk. unfold owned in Ho.
  destruct (flag g __SMBF); [|left; by apply Ho].
  destruct Ho as (k & HB & Hsz). right. exists (base g), k. split; [done|lia].
Qed.

Lemma closing_kept n B B' m m' g : closing n B m g -> owned B' g -> Heap.kept arena B' m m' -> closing n B' m' g.
Proof.
  intros [Ho Hu Hd] Ho' Hk. split; [done..|]. destruct Hd as [(pend & Hw & Hs)|Hd]; [left|by right].
  exists pend. split; [by eapply writing_kept|done].
Qed.

Lemma owned_freed B g g2 : owned B g2 -> (flag g __SMBF = true -> flag g2 __SMBF = true -> base g <> base g2) ->
  owned (freed B g) g2.
Proof.
  unfold owned, freed. intros Ho Hne. destruct (flag g __SMBF), (flag g2 __SMBF); try done.
  destruct Ho as (k & Hk & Hs). exists k. split; [|done]. rewrite lookup_delete_ne by auto. done.
Qed.

Lemma closed_later g w r w1 r' w2 : closed g w r w1 -> elsewhere (_file g) w1 w2 -> (r' = 0 -> r = 0) ->
  closed g w r' w2.
Proof.
  intros H [_ He] Hr pend Hp. destruct (H pend Hp) as (j & Hj & Hj'). exists j. rewrite He. split; [done|]. auto.
Qed.

Lemma closed_before B g w w1 r w2 : owned B g -> Heap.kept arena B (w_mem w) (w_mem w1) -> elsewhere (_file g) w w1 ->
  closed g w1 r w2 -> closed g w r w2.
Proof.
  intros Ho Hk [_ He] H pend Hp. unfold file in *. rewrite <-He. apply H. by eapply writing_kept.
Qed.

Lemma lor_eq_0 a b : Z.lor a b = 0 -> a = 0 /\ b = 0.
Proof. by rewrite Z.lor_eq_0_iff. Qed.

#[local] Instance in_use_dec g : Decision (in_use g).
Proof. unfold in_use. apply _. Defined.

Lemma wp_close_walk n fps ret B w (Q : Z * list FILE -> world -> Prop) : (write_fuel <= n)%nat -> (alloc_fuel <= n)%nat ->
  mem_ok (w_mem w) -> heap B (w_mem w) -> Forall (fun g => in_use g -> closing n B (w_mem w) g) fps ->
  NoDup (_file <$> filter in_use fps) -> NoDup (buffers fps) ->
  (forall r fps' w', (r = 0 -> ret = 0) -> Forall2 (written_out r w w') fps fps' ->
    (forall fd, Forall (fun g => in_use g -> fd <> _file g) fps -> elsewhere fd w w') -> Q (r, fps') w') ->
  wp n (__fwalk (_fclose_r write seek close free) fps ret) w Q.
Proof.
  intros Hn Ha. revert ret B w Q. induction fps as [|g fps IH]; intros ret B w Q Hm Hh Hcl Hf Hb HQ; cbn [__fwalk].
  { wp_steps. apply HQ; [done|by constructor|done]. }
  apply Forall_cons in Hcl as [Hg Hcl].
  assert (Hskip : ~ in_use g -> wp n (__fwalk (_fclose_r write seek close free) fps ret) w
    (fun x w' => wp n (let '(ret, fps) := x in mret (ret, g :: fps)) w' Q)).
  { intros Hu. unfold buffers in *. rewrite filter_cons_False in Hf, Hb by tauto.
    apply (IH _ B); [done..|]. intros r fps' w' Hr Hw He. wp_steps. apply HQ; [done| |].
    - by constructor; [intros ?|].
    - intros fd [_ Hfd]%Forall_cons. by apply He. }
  wp_step. destruct (negb (_flags g =? 0) && negb (_file g =? -1)) eqn:E.
  - assert (Hu : in_use g).
    { apply andb_true_iff in E as [E1 E2]. apply negb_true_iff, Z.eqb_neq in E1, E2. done. }
    rewrite filter_cons_True in Hf by done. cbn [fmap list_fmap] in Hf. apply NoDup_cons in Hf as [Hnf Hf].
    assert (Hne : forall g2, g2 ∈ fps -> in_use g2 -> _file g <> _file g2).
    { intros g2 Hg2 Hu2 Heq. apply Hnf. rewrite Heq. apply list_elem_of_fmap_2, list_elem_of_filter. done. }
    assert (Hbne : forall g2, g2 ∈ fps -> in_use g2 -> flag g __SMBF = true -> flag g2 __SMBF = true -> base g <> base g2).
    { intros g2 Hg2 Hu2 H1 H2 Heq. unfold buffers in Hb. rewrite filter_cons_True in Hb by done.
      cbn [fmap list_fmap] in Hb. apply NoDup_cons in Hb as [Hnb _]. apply Hnb. rewrite Heq.
      apply (list_elem_of_fmap_2 (fun g => base g) _ g2), list_elem_of_filter. done. }
    assert (Hb' : NoDup (buffers fps)).
    { unfold buffers in *. destruct (decide (in_use g /\ flag g __SMBF = true)).
      - rewrite filter_cons_True in Hb by done. cbn [fmap list_fmap] in Hb. by apply NoDup_cons in Hb as [_ ?].
      - by rewrite filter_cons_False in Hb. }
    wp_step. eapply wp_fclose; [done..|by apply Hg|]. intros r g' w1 []. wp_steps.
    assert (Hown : forall g2, g2 ∈ fps -> in_use g2 -> owned (freed B g) g2).
    { intros g2 Hg2 Hu2. apply owned_freed; [|by apply Hbne]. rewrite Forall_forall in Hcl. by apply (Hcl g2). }
    apply (IH _ (freed B g)); [done..| |done|done|].
    { rewrite Forall_forall in *. intros g2 Hg2 Hu2. eapply closing_kept; [by apply Hcl|by apply Hown|done]. }
    intros r2 fps' w2 Hr2 Hw2 He2. wp_steps. apply HQ.
    + intros H0. by destruct (lor_eq_0 _ _ (Hr2 H0)).
    + constructor.
      * intros _. split; [done|]. eapply closed_later; [done| |].
        -- apply He2. rewrite Forall_forall. intros g2 Hg2 Hu2. by apply Hne.
        -- intros H0. by destruct (lor_eq_0 _ _ (Hr2 H0)).
      * eapply Forall2_impl_l; [exact Hw2|]. intros g2 g2' Hg2 Hwo Hu2. destruct (Hwo Hu2) as [? Hc]. split; [done|].
        eapply closed_before; [by apply Hown|done| |exact Hc]. apply ac_other0. intros Heq. by apply (Hne g2).
    + intros fd [Hg' Hfps]%Forall_cons. trans w1; [by apply ac_other0, Hg'|by apply He2].
  - wp_steps. apply Hskip. intros [H1 H2].
    by rewrite (proj2 (Z.eqb_neq _ _) H1), (proj2 (Z.eqb_neq _ _) H2) in E.
Qed.

End exit.
