(* ===== verification/Iconv.v ===== *)
(** * Character set conversion: iconv/lib/ucsconv.c, nullconv.c, endian.h and
    the built-in converters iconv/ces/us-ascii.c, utf-8.c, utf-16.c, ucs-2.c,
    ucs-2-internal.c, ucs-4.c, ucs-4-internal.c

    A conversion goes through UCS-4: the "to UCS" converter of the source
    encoding reads one character, the "from UCS" converter of the target
    encoding writes it.  The in-out parameters ([*inbuf], [*inbytesleft],
    [*outbuf], [*outbytesleft]) are passed and returned as values; a
    converter's data is at an address of the memory, as in the code. *)

From S2P Require Import Prelude CMonad Words Memory StrScan MemCopy.

(** ** iconv/lib/ucsconv.h, conv.h, include/sys/errno.h *)

Definition ICONV_CES_NOSPACE : Z := 0.
Definition ICONV_CES_INVALID_CHARACTER : Z := u32 (-1).
Definition ICONV_CES_BAD_SEQUENCE : Z := u32 (-2).
Definition DEFAULT_CHARACTER : Z := 0x3f.
Definition ICONV_DONT_SAVE_BIT : Z := 1.
Definition ICONV_FAIL_BIT : Z := 2.

Definition E2BIG : Z := 7.
Definition EINVAL : Z := 22.
Definition EILSEQ : Z := 138.

(** The handlers of the converters modelled: their [get_state], [set_state] and
    [is_stateful] members are null. *)
Record iconv_to_ucs_ces_handlers_t := ToUcs {
  convert_to_ucs : Z -> Z -> Z -> C (Z * Z * Z);
}.
Record iconv_from_ucs_ces_handlers_t := FromUcs {
  convert_from_ucs : Z -> Z -> Z -> Z -> C (Z * Z * Z);
}.

(** ** iconv/lib/endian.h, for a little-endian machine *)

Definition ICONV_BETOHS (s : Z) : Z :=
  Z.lor (Z.land (Z.shiftl s 8) 0xFF00) (Z.land (Z.shiftr s 8) 0x00FF).
Definition ICONV_BETOHL (l : Z) : Z :=
  Z.lor (Z.lor (Z.lor (Z.land (Z.shiftl l 24) 0xFF000000) (Z.land (Z.shiftl l 8) 0x00FF0000))
    (Z.land (Z.shiftr l 8) 0x0000FF00)) (Z.land (Z.shiftr l 24) 0x000000FF).
Definition ICONV_LETOHS (s : Z) : Z := s.
Definition ICONV_LETOHL (l : Z) : Z := l.
Definition ICONV_HTOLES (s : Z) : Z := ICONV_LETOHS s.
Definition ICONV_HTOLEL (l : Z) : Z := ICONV_LETOHL l.
Definition ICONV_HTOBES (s : Z) : Z := ICONV_BETOHS s.
Definition ICONV_HTOBEL (l : Z) : Z := ICONV_BETOHL l.

(** [*(ucs2_t * )p] and [*(ucs2_t * )p = x] *)
Definition load16 (p : Z) : C Z :=
  a ← load8 p; b ← load8 (p + 1); mret (a + 256 * b).
Definition store16 (p x : Z) : C unit :=
  store8 p (x mod 256) ;; store8 (p + 1) (x / 256 mod 256).

Definition surrogate (c : Z) : bool := (0xD800 <=? c) && (c <=? 0xDFFF).

(** ** iconv/ces/us-ascii.c *)

Definition us_ascii_convert_from_ucs (data in_ outbuf outbytesleft : Z) : C (Z * Z * Z) :=
  if 0x7F <? in_ then mret (ICONV_CES_INVALID_CHARACTER, outbuf, outbytesleft) else
  store8 outbuf in_ ;;
  mret (1, outbuf + 1, u32 (outbytesleft - 1)).

Definition us_ascii_convert_to_ucs (data inbuf inbytesleft : Z) : C (Z * Z * Z) :=
  if inbytesleft <? 1 then mret (ICONV_CES_BAD_SEQUENCE, inbuf, inbytesleft) else
  res ← load8 inbuf;
  if 0x7F <? res then mret (ICONV_CES_INVALID_CHARACTER, inbuf, inbytesleft) else
  mret (res, inbuf + 1, u32 (inbytesleft - 1)).

(** ** iconv/ces/utf-8.c *)

(** The byte [(in >> k) & 0x3F | 0x80] *)
Definition utf_8_trail (in_ k : Z) : Z := Z.lor (Z.land (Z.shiftr in_ k) 0x3F) 0x80.

Definition utf_8_convert_from_ucs (data in_ outbuf outbytesleft : Z) : C (Z * Z * Z) :=
  if surrogate in_ || (0x7FFFFFFF <? in_) || (in_ =? 0xFFFF) || (in_ =? 0xFFFE)
  then mret (ICONV_CES_INVALID_CHARACTER, outbuf, outbytesleft) else
  let bytes :=
    if in_ <? 0x80 then 1 else if in_ <? 0x800 then 2 else if in_ <? 0x10000 then 3
    else if in_ <? 0x200000 then 4 else if in_ <? 0x4000000 then 5 else 6 in
  if outbytesleft <? bytes then mret (ICONV_CES_NOSPACE, outbuf, outbytesleft) else
  let cp := outbuf in
  (match bytes with
   | 1 => store8 cp in_
   | 2 => store8 cp (Z.lor (Z.shiftr in_ 6) 0xC0) ;; store8 (cp + 1) (utf_8_trail in_ 0)
   | 3 => store8 cp (Z.lor (Z.shiftr in_ 12) 0xE0) ;; store8 (cp + 1) (utf_8_trail in_ 6) ;;
          store8 (cp + 2) (utf_8_trail in_ 0)
   | 4 => store8 cp (Z.lor (Z.shiftr in_ 18) 0xF0) ;; store8 (cp + 1) (utf_8_trail in_ 12) ;;
          store8 (cp + 2) (utf_8_trail in_ 6) ;; store8 (cp + 3) (utf_8_trail in_ 0)
   | 5 => store8 cp (Z.lor (Z.shiftr in_ 24) 0xF8) ;; store8 (cp + 1) (utf_8_trail in_ 18) ;;
          store8 (cp + 2) (utf_8_trail in_ 12) ;; store8 (cp + 3) (utf_8_trail in_ 6) ;;
          store8 (cp + 4) (utf_8_trail in_ 0)
   | 6 => store8 cp (Z.lor (Z.shiftr in_ 30) 0xFC) ;; store8 (cp + 1) (utf_8_trail in_ 24) ;;
          store8 (cp + 2) (utf_8_trail in_ 18) ;; store8 (cp + 3) (utf_8_trail in_ 12) ;;
          store8 (cp + 4) (utf_8_trail in_ 6) ;; store8 (cp + 5) (utf_8_trail in_ 0)
   | _ => mret tt
   end) ;;
  mret (bytes, outbuf + bytes, u32 (outbytesleft - bytes)).

(** The conjunction of the tests [(in[i] & 0xC0) == 0x80] on [k] bytes at [p], and
    the disjunction of the terms [(in[i] & 0x3F) << 6 * (k - 1)], ... *)
Fixpoint utf_8_trails (p : Z) (k : nat) : C bool :=
  match k with
  | O => mret true
  | S k' =>
      c ← load8 p;
      if Z.land c 0xC0 =? 0x80 then utf_8_trails (p + 1) k' else mret false
  end.
Fixpoint utf_8_bits (p : Z) (k : nat) : C Z :=
  match k with
  | O => mret 0
  | S k' =>
      c ← load8 p; r ← utf_8_bits (p + 1) k';
      mret (Z.lor (Z.shiftl (Z.land c 0x3F) (6 * Z.of_nat k')) r)
  end.

(** The block of a sequence of [bytes] bytes, whose first byte is [lead] and the
    bits of [mask]; a code below [least] is overlong. *)
Definition utf_8_sequence (in_ inbytesleft bytes mask lead least : Z)  :
    C (flow (Z * Z) (Z * Z * Z)) :=
  if inbytesleft <? bytes then return_ (ICONV_CES_BAD_SEQUENCE, in_, inbytesleft) else
  c ← load8 in_;
  ok ← (if Z.land c (Z.lnot mask) =? lead then utf_8_trails (in_ + 1) (Z.to_nat (bytes - 1))
        else mret false);
  if negb ok then return_ (ICONV_CES_INVALID_CHARACTER, in_, inbytesleft) else
  c ← load8 in_;
  r ← utf_8_bits (in_ + 1) (Z.to_nat (bytes - 1));
  let res := Z.lor (Z.shiftl (Z.land c mask) (6 * (bytes - 1))) r in
  if res <? least then return_ (ICONV_CES_INVALID_CHARACTER, in_, inbytesleft) else fall (res, bytes).

Definition utf_8_convert_to_ucs (data inbuf inbytesleft : Z) : C (Z * Z * Z) :=
  let invalid := (ICONV_CES_INVALID_CHARACTER, inbuf, inbytesleft) in
  '(res, bytes) ⇐
    (c ← load8 inbuf;
     if 0xC0 <=? c then
       if c <? 0xE0 then utf_8_sequence inbuf inbytesleft 2 0x1F 0xC0 0x80
       else if c <? 0xF0 then utf_8_sequence inbuf inbytesleft 3 0x0F 0xE0 0x800
       else if c <? 0xF8 then utf_8_sequence inbuf inbytesleft 4 0x07 0xF0 0x10000
       else if c <? 0xFC then utf_8_sequence inbuf inbytesleft 5 0x03 0xF8 0x200000
       else if c <=? 0xFD then utf_8_sequence inbuf inbytesleft 6 0x01 0xFC 0x4000000
       else return_ invalid
     else if negb (Z.land c 0x80 =? 0) then return_ invalid
     else fall (c, 1));
  if surrogate res || (0x7FFFFFFF <? res) || (res =? 0xFFFF) || (res =? 0xFFFE)
  then mret invalid
  else mret (res, inbuf + bytes, u32 (inbytesleft - bytes)).

(** ** iconv/ces/utf-16.c *)

Definition UTF16_UNDEFINED : Z := 0x00.
Definition UTF16_BIG_ENDIAN : Z := 0x01.
Definition UTF16_LITTLE_ENDIAN : Z := 0x02.
Definition UTF16_SYSTEM_ENDIAN : Z := 0x04.
Definition UTF16_BOM_WRITTEN : Z := 0x08.
Definition UTF16_BOM : Z := 0xFEFF.

(** The [switch] on the state that writes a unit. *)
Definition utf_16_put (state cp w : Z) : C unit :=
  if state =? UTF16_LITTLE_ENDIAN then store16 cp (ICONV_HTOLES w)
  else if state =? UTF16_BIG_ENDIAN then store16 cp (ICONV_HTOBES w)
  else if state =? Z.lor UTF16_SYSTEM_ENDIAN UTF16_BOM_WRITTEN then store16 cp w
  else mret tt.

Definition utf_16_convert_from_ucs (data in_ outbuf outbytesleft : Z) : C (Z * Z * Z) :=
  if (0x10FFFF <? in_) || surrogate in_ || (in_ =? 0xFFFF) || (in_ =? 0xFFFE)
  then mret (ICONV_CES_INVALID_CHARACTER, outbuf, outbytesleft) else
  state ← load32 data;
  let bytes := if state =? UTF16_SYSTEM_ENDIAN then 4 else 2 in
  let bytes := if 0xFFFF <? in_ then bytes + 2 else bytes in
  if outbytesleft <? bytes then mret (ICONV_CES_NOSPACE, outbuf, outbytesleft) else
  let cp := outbuf in
  cp ← (if state =? UTF16_SYSTEM_ENDIAN then
          store16 cp UTF16_BOM ;;
          store32 data (Z.lor state UTF16_BOM_WRITTEN) ;;
          mret (cp + 2)
        else mret cp);
  state ← load32 data;
  (if in_ <? 0x10000 then utf_16_put state cp in_ else
   let in_ := in_ - 0x10000 in
   let w1 := Z.lor (Z.land (u16 (Z.shiftr in_ 10)) 0x03FF) 0xD800 in
   let w2 := Z.lor (Z.land in_ 0x3FF) 0xDC00 in
   utf_16_put state cp w1 ;; utf_16_put state (cp + 2) w2) ;;
  mret (bytes, outbuf + bytes, u32 (outbytesleft - bytes)).

(** A unit read in the byte order of the state. *)
Definition utf_16_get (state cp : Z) : C Z :=
  s ← load16 cp;
  mret (if state =? UTF16_LITTLE_ENDIAN then ICONV_LETOHS s else ICONV_BETOHS s).

Definition utf_16_convert_to_ucs (data inbuf inbytesleft : Z) : C (Z * Z * Z) :=
  let bad := (ICONV_CES_BAD_SEQUENCE, inbuf, inbytesleft) in
  let invalid := (ICONV_CES_INVALID_CHARACTER, inbuf, inbytesleft) in
  if inbytesleft <? 2 then mret bad else
  state ← load32 data;
  '(cp, bytes) ⇐
    (if state =? UTF16_UNDEFINED then
       s ← load16 inbuf;
       (if s =? ICONV_HTOLES UTF16_BOM then store32 data UTF16_LITTLE_ENDIAN
        else store32 data UTF16_BIG_ENDIAN) ;;
       if (s =? ICONV_HTOBES UTF16_BOM) || (s =? ICONV_HTOLES UTF16_BOM) then
         if inbytesleft <? 4 then return_ bad else fall (inbuf + 2, 4)
       else fall (inbuf, 2)
     else fall (inbuf, 2));
  state ← load32 data;
  w1 ← utf_16_get state cp;
  '(res, bytes) ⇐
    (if (w1 <? 0xD800) || (0xDFFF <? w1) then
       if (w1 =? 0xFFFF) || (w1 =? 0xFFFE) then return_ invalid else fall (w1, bytes)
     else
       let bytes := bytes + 2 in
       if inbytesleft <? bytes then return_ bad else
       if 0xDBFF <? w1 then return_ invalid else
       w2 ← utf_16_get state (cp + 2);
       if (w2 <? 0xDC00) || (0xDFFF <? w2) then return_ invalid else
       fall (Z.lor (Z.land w2 0x3FF) (Z.shiftl (Z.land w1 0x3FF) 10) + 0x10000, bytes));
  mret (res, inbuf + bytes, u32 (inbytesleft - bytes)).

(** ** iconv/ces/ucs-2.c and ucs-4.c *)

Definition UCS_2_BIG_ENDIAN : Z := 0.
Definition UCS_2_LITTLE_ENDIAN : Z := 1.
Definition UCS_4_BIG_ENDIAN : Z := 0.
Definition UCS_4_LITTLE_ENDIAN : Z := 1.

Definition ucs_2_convert_from_ucs (data in_ outbuf outbytesleft : Z) : C (Z * Z * Z) :=
  if surrogate in_ || (0xFFFE <=? in_)
  then mret (ICONV_CES_INVALID_CHARACTER, outbuf, outbytesleft) else
  if outbytesleft <? 2 then mret (ICONV_CES_NOSPACE, outbuf, outbytesleft) else
  order ← load32 data;
  (if order =? UCS_2_BIG_ENDIAN then store16 outbuf (ICONV_HTOBES (u16 in_))
   else store16 outbuf (ICONV_HTOLES (u16 in_))) ;;
  mret (2, outbuf + 2, u32 (outbytesleft - 2)).

Definition ucs_2_convert_to_ucs (data inbuf inbytesleft : Z) : C (Z * Z * Z) :=
  if inbytesleft <? 2 then mret (ICONV_CES_BAD_SEQUENCE, inbuf, inbytesleft) else
  order ← load32 data;
  s ← load16 inbuf;
  let res := if order =? UCS_2_BIG_ENDIAN then ICONV_BETOHS s else ICONV_LETOHS s in
  if surrogate res || (0xFFFE <=? res)
  then mret (ICONV_CES_INVALID_CHARACTER, inbuf, inbytesleft) else
  mret (res, inbuf + 2, u32 (inbytesleft - 2)).

Definition ucs_4_convert_from_ucs (data in_ outbuf outbytesleft : Z) : C (Z * Z * Z) :=
  if surrogate in_ || (0x7FFFFFFF <? in_) || (in_ =? 0xFFFF) || (in_ =? 0xFFFE)
  then mret (ICONV_CES_INVALID_CHARACTER, outbuf, outbytesleft) else
  if outbytesleft <? 4 then mret (ICONV_CES_NOSPACE, outbuf, outbytesleft) else
  order ← load32 data;
  (if order =? UCS_4_BIG_ENDIAN then store32 outbuf (ICONV_HTOBEL in_)
   else store32 outbuf (ICONV_HTOLEL in_)) ;;
  mret (4, outbuf + 4, u32 (outbytesleft - 4)).

Definition ucs_4_convert_to_ucs (data inbuf inbytesleft : Z) : C (Z * Z * Z) :=
  if inbytesleft <? 4 then mret (ICONV_CES_BAD_SEQUENCE, inbuf, inbytesleft) else
  order ← load32 data;
  l ← load32 inbuf;
  let res := if order =? UCS_4_BIG_ENDIAN then ICONV_BETOHL l else ICONV_LETOHL l in
  if surrogate res || (0x7FFFFFFF <? res) || (res =? 0xFFFF) || (res =? 0xFFFE)
  then mret (ICONV_CES_INVALID_CHARACTER, inbuf, inbytesleft) else
  mret (res, inbuf + 4, u32 (inbytesleft - 4)).

(** ** iconv/ces/ucs-2-internal.c and ucs-4-internal.c *)

Definition ucs_2_internal_convert_from_ucs (data in_ outbuf outbytesleft : Z) : C (Z * Z * Z) :=
  if 0xFFFF <? in_ then mret (ICONV_CES_INVALID_CHARACTER, outbuf, outbytesleft) else
  if outbytesleft <? 2 then mret (ICONV_CES_NOSPACE, outbuf, outbytesleft) else
  store16 outbuf (u16 in_) ;;
  mret (2, outbuf + 2, u32 (outbytesleft - 2)).

Definition ucs_2_internal_convert_to_ucs (data inbuf inbytesleft : Z) : C (Z * Z * Z) :=
  if inbytesleft <? 2 then mret (ICONV_CES_BAD_SEQUENCE, inbuf, inbytesleft) else
  res ← load16 inbuf;
  if 0xFFFF <? res then mret (ICONV_CES_INVALID_CHARACTER, inbuf, inbytesleft) else
  mret (res, inbuf + 2, u32 (inbytesleft - 2)).

Definition ucs_4_internal_convert_from_ucs (data in_ outbuf outbytesleft : Z) : C (Z * Z * Z) :=
  if 0x7FFFFFFF <? in_ then mret (ICONV_CES_INVALID_CHARACTER, outbuf, outbytesleft) else
  if outbytesleft <? 4 then mret (ICONV_CES_NOSPACE, outbuf, outbytesleft) else
  store32 outbuf in_ ;;
  mret (4, outbuf + 4, u32 (outbytesleft - 4)).

Definition ucs_4_internal_convert_to_ucs (data inbuf inbytesleft : Z) : C (Z * Z * Z) :=
  if inbytesleft <? 4 then mret (ICONV_CES_BAD_SEQUENCE, inbuf, inbytesleft) else
  res ← load32 inbuf;
  if 0x7FFFFFFF <? res then mret (ICONV_CES_INVALID_CHARACTER, inbuf, inbytesleft) else
  mret (res, inbuf + 4, u32 (inbytesleft - 4)).

(** ** The handler tables *)

Definition to_ucs_us_ascii := ToUcs us_ascii_convert_to_ucs.
Definition from_ucs_us_ascii := FromUcs us_ascii_convert_from_ucs.
Definition to_ucs_utf_8 := ToUcs utf_8_convert_to_ucs.
Definition from_ucs_utf_8 := FromUcs utf_8_convert_from_ucs.
Definition to_ucs_utf_16 := ToUcs utf_16_convert_to_ucs.
Definition from_ucs_utf_16 := FromUcs utf_16_convert_from_ucs.
Definition to_ucs_ucs_2 := ToUcs ucs_2_convert_to_ucs.
Definition from_ucs_ucs_2 := FromUcs ucs_2_convert_from_ucs.
Definition to_ucs_ucs_4 := ToUcs ucs_4_convert_to_ucs.
Definition from_ucs_ucs_4 := FromUcs ucs_4_convert_from_ucs.
Definition to_ucs_ucs_2_internal := ToUcs ucs_2_internal_convert_to_ucs.
Definition from_ucs_ucs_2_internal := FromUcs ucs_2_internal_convert_from_ucs.
Definition to_ucs_ucs_4_internal := ToUcs ucs_4_internal_convert_to_ucs.
Definition from_ucs_ucs_4_internal := FromUcs ucs_4_internal_convert_from_ucs.

(** ** iconv/lib/ucsconv.c *)

(** A converter and the address of its data. *)
Record iconv_ucs_conversion_t := UcsConversion {
  to_ucs : iconv_to_ucs_ces_handlers_t; to_ucs_data : Z;
  from_ucs : iconv_from_ucs_ces_handlers_t; from_ucs_data : Z;
}.

(** The result: the value returned, then [*inbuf], [*inbytesleft], [*outbuf] and
    [*outbytesleft]. *)
Definition conv_result : Type := Z * (Z * Z * Z * Z).

(** An iteration, then the loop.  [outbuf1] is the address of the local array,
    which takes the output when [ICONV_DONT_SAVE_BIT] is set. *)
Definition ucs_based_conversion_step (uc : iconv_ucs_conversion_t) (flags outbuf1 : Z)
    (s : conv_result) : C (conv_result + conv_result) :=
  let '(res, (inbuf, inbytesleft, outbuf, outbytesleft)) := s in
  let dont_save := negb (Z.land flags ICONV_DONT_SAVE_BIT =? 0) in
  if negb (0 <? inbytesleft) then
    brk (res, (inbuf, inbytesleft, outbuf, outbytesleft)) else
  if outbytesleft =? 0 then
    put_errno E2BIG ;; brk (u32 (-1), (inbuf, inbytesleft, outbuf, outbytesleft)) else
  '(ch, inbuf', inbytesleft') ← convert_to_ucs (to_ucs uc) (to_ucs_data uc) inbuf inbytesleft;
  if ch =? ICONV_CES_BAD_SEQUENCE then
    put_errno EINVAL ;; brk (u32 (-1), (inbuf', inbytesleft', outbuf, outbytesleft)) else
  if ch =? ICONV_CES_INVALID_CHARACTER then
    put_errno EILSEQ ;; brk (u32 (-1), (inbuf', inbytesleft', outbuf, outbytesleft)) else
  let saved out := if dont_save then outbuf else out in
  let poutbuf := if dont_save then outbuf1 else outbuf in
  '(bytes, poutbuf, outbytesleft) ←
    convert_from_ucs (from_ucs uc) (from_ucs_data uc) ch poutbuf outbytesleft;
  if bytes =? ICONV_CES_NOSPACE then
    put_errno E2BIG ;; brk (u32 (-1), (inbuf, inbytesleft, saved poutbuf, outbytesleft))
  else if bytes =? ICONV_CES_INVALID_CHARACTER then
    if negb (Z.land flags ICONV_FAIL_BIT =? 0) then
      put_errno EILSEQ ;;
      brk (u32 (-1), (inbuf', inbytesleft', saved poutbuf, outbytesleft))
    else
      '(bytes, poutbuf, outbytesleft) ←
        convert_from_ucs (from_ucs uc) (from_ucs_data uc) DEFAULT_CHARACTER poutbuf outbytesleft;
      if i32 bytes <? 0 then
        put_errno E2BIG ;;
        brk (u32 (-1), (inbuf', inbytesleft', saved poutbuf, outbytesleft))
      else next (u32 (res + 1), (inbuf', inbytesleft', saved poutbuf, outbytesleft))
  else next (res, (inbuf', inbytesleft', saved poutbuf, outbytesleft)).

Definition ucs_based_conversion_convert (uc : iconv_ucs_conversion_t)
    (inbuf inbytesleft outbuf outbytesleft flags outbuf1 : Z) : C conv_result :=
  loop (ucs_based_conversion_step uc flags outbuf1)
    (0, (inbuf, inbytesleft, outbuf, outbytesleft)).

(** ** iconv/lib/nullconv.c *)

Definition null_conversion_convert {H : build} (inbuf inbytesleft outbuf outbytesleft flags : Z) :
    C conv_result :=
  '(result, len) ←
    (if inbytesleft <? outbytesleft then mret (0, inbytesleft)
     else put_errno E2BIG ;; mret (u32 (-1), outbytesleft));
  (if Z.land flags 1 =? 0 then memcpy outbuf inbuf len ;; mret tt else mret tt) ;;
  mret (result, (inbuf + len, u32 (inbytesleft - len), outbuf + len, u32 (outbytesleft - len))).
