(* ===== verification/Utf8.v ===== *)
(** * UTF-8

    The code points of UTF-8 as the arithmetic of base 64, independent of the
    bit operations of iconv/ces/utf-8.c: [utf8_encode] and [utf8_decode], that
    they are inverse to each other, and that the two converters of the code
    compute them. *)

From S2P Require Import Prelude CMonad Words Memory StrScan MemCopy Iconv.

(** ** Bit operations as arithmetic *)

Lemma land_63 x : Z.land x 0x3F = x mod 64.
Proof. apply (Z.land_ones x 6). lia. Qed.

Lemma utf_8_trail_val x k : 0 <= k -> utf_8_trail x k = 128 + (x / 2 ^ k) mod 64.
Proof.
  intros Hk. unfold utf_8_trail. rewrite land_63, Z.shiftr_div_pow2 by done.
  rewrite Z.lor_comm. change 0x80 with (1 * 2 ^ 7).
  rewrite lor_disjoint; [lia|lia|]. pose proof (Z.mod_pos_bound (x / 2 ^ k) 64). lia.
Qed.

(** ** The encoding *)

(** Code points that have an encoding. *)
Definition ucs_valid (c : Z) : bool :=
  negb (surrogate c || (0x7FFFFFFF <? c) || (c =? 0xFFFF) || (c =? 0xFFFE)).

(** The number of bytes of a code point; for sequences of [k] bytes, the first
    byte without its bits of the code, and the least code point. *)
Definition utf8_size (c : Z) : nat :=
  if c <? 0x80 then 1 else if c <? 0x800 then 2 else if c <? 0x10000 then 3
  else if c <? 0x200000 then 4 else if c <? 0x4000000 then 5 else 6.
Definition utf8_lead (k : nat) : Z :=
  match k with 2%nat => 0xC0 | 3%nat => 0xE0 | 4%nat => 0xF0 | 5%nat => 0xF8 | _ => 0xFC end.
Definition utf8_least (k : nat) : Z :=
  match k with
  | 1%nat => 0 | 2%nat => 0x80 | 3%nat => 0x800 | 4%nat => 0x10000 | 5%nat => 0x200000
  | _ => 0x4000000
  end.

(** The last [k] bytes of a sequence, and the number they hold. *)
Fixpoint utf8_tail (c : Z) (k : nat) : list Z :=
  match k with O => [] | S k' => 128 + (c / 64 ^ Z.of_nat k') mod 64 :: utf8_tail c k' end.
Fixpoint tail_val (t : list Z) : Z :=
  match t with [] => 0 | b :: t' => b mod 64 * 64 ^ zlen t' + tail_val t' end.
Definition is_trail (b : Z) : bool := (0x80 <=? b) && (b <? 0xC0).

Definition utf8_bytes (c : Z) (k : nat) : list Z :=
  if Nat.eqb k 1 then [c]
  else utf8_lead k + c / 64 ^ (Z.of_nat k - 1) :: utf8_tail c (k - 1).

Definition utf8_encode (c : Z) : option (list Z) :=
  if ucs_valid c then Some (utf8_bytes c (utf8_size c)) else None.

(** What a converter finds at the front of its input: a character of [k] bytes,
    the beginning of one, or something else. *)
Inductive decoded := DChar (c : Z) (k : nat) | DBad | DInvalid.

(** The size of a sequence by its first byte. *)
Definition utf8_lead_size (b : Z) : option nat :=
  if b <? 0x80 then Some 1%nat else if b <? 0xC0 then None
  else if b <? 0xE0 then Some 2%nat else if b <? 0xF0 then Some 3%nat
  else if b <? 0xF8 then Some 4%nat else if b <? 0xFC then Some 5%nat
  else if b <=? 0xFD then Some 6%nat else None.

Definition utf8_char (c : Z) (k : nat) : decoded :=
  if (utf8_least k <=? c) && ucs_valid c then DChar c k else DInvalid.

Definition utf8_decode (l : list Z) : decoded :=
  match l with
  | [] => DBad
  | b :: t =>
      match utf8_lead_size b with
      | None => DInvalid
      | Some k =>
          if Nat.eqb k 1 then utf8_char b 1
          else if (length l <? k)%nat then DBad
          else let ts := take (k - 1) t in
               if forallb is_trail ts
               then utf8_char ((b - utf8_lead k) * 64 ^ (Z.of_nat k - 1) + tail_val ts) k
               else DInvalid
      end
  end.

(** ** Encoding and decoding are inverse *)

Lemma pow64_pos k : 0 <= k -> 0 < 64 ^ k.
Proof. intros. by apply Z.pow_pos_nonneg. Qed.

Lemma utf8_tail_len c k : length (utf8_tail c k) = k.
Proof. induction k as [|k IH]; [done|]. cbn [utf8_tail length]. by rewrite IH. Qed.

Lemma utf8_tail_trail c k : forallb is_trail (utf8_tail c k) = true.
Proof.
  induction k as [|k IH]; [done|]. cbn [utf8_tail forallb]. rewrite IH, andb_true_r.
  unfold is_trail. pose proof (Z.mod_pos_bound (c / 64 ^ Z.of_nat k) 64). lia.
Qed.

Lemma tail_val_tail c k : 0 <= c -> tail_val (utf8_tail c k) = c mod 64 ^ Z.of_nat k.
Proof.
  intros Hc. induction k as [|k IH]; [by rewrite Z.mod_1_r|]. cbn [utf8_tail tail_val].
  rewrite IH, utf8_tail_len. pose proof (pow64_pos (Z.of_nat k) ltac:(lia)).
  replace ((128 + (c / 64 ^ Z.of_nat k) mod 64) mod 64) with ((c / 64 ^ Z.of_nat k) mod 64) by lia.
  rewrite Nat2Z.inj_succ, Z.pow_succ_r by lia.
  rewrite (Z.mul_comm 64), Z.rem_mul_r by lia. lia.
Qed.

Lemma tail_val_range t : 0 <= tail_val t < 64 ^ zlen t.
Proof.
  induction t as [|b t IH]; [cbn; lia|]. cbn [tail_val length].
  rewrite Nat2Z.inj_succ, Z.pow_succ_r by lia. pose proof (Z.mod_pos_bound b 64). nia.
Qed.

Lemma utf8_tail_ext c c' k : c mod 64 ^ Z.of_nat k = c' mod 64 ^ Z.of_nat k -> utf8_tail c k = utf8_tail c' k.
Proof.
  induction k as [|k IH]; [done|]. intros H. cbn [utf8_tail].
  pose proof (pow64_pos (Z.of_nat k) ltac:(lia)).
  rewrite Nat2Z.inj_succ, Z.pow_succ_r in H by lia.
  rewrite (Z.mul_comm 64), !Z.rem_mul_r in H by lia.
  assert (c mod 64 ^ Z.of_nat k = c' mod 64 ^ Z.of_nat k) as Hm.
  { apply (f_equal (fun x => x mod 64 ^ Z.of_nat k)) in H.
    rewrite !(Z.mul_comm (64 ^ _)), !Z.mod_add, !Z.mod_mod in H by lia. exact H. }
  rewrite (IH Hm). f_equal. nia.
Qed.

Lemma utf8_tail_val t : forallb is_trail t = true -> utf8_tail (tail_val t) (length t) = t.
Proof.
  induction t as [|b t IH]; [done|]. cbn [forallb tail_val length utf8_tail].
  intros [Hb Ht]%andb_true_iff. pose proof (tail_val_range t). unfold is_trail in Hb.
  assert (Hp := pow64_pos (zlen t) ltac:(lia)).
  rewrite Z.div_add_l, Z.div_small, Z.add_0_r by lia. f_equal; [lia|].
  etrans; [|exact (IH Ht)]. apply utf8_tail_ext. by rewrite Z.add_comm, Z.mod_add by lia.
Qed.

Lemma utf8_size_range c : (1 <= utf8_size c <= 6)%nat.
Proof. unfold utf8_size. repeat case_match; lia. Qed.

Lemma utf8_bytes_len c k : (1 <= k)%nat -> length (utf8_bytes c k) = k.
Proof.
  intros Hk. unfold utf8_bytes. destruct (Nat.eqb_spec k 1); [by subst|].
  cbn [length]. rewrite utf8_tail_len. lia.
Qed.

Ltac pow64 :=
  repeat match goal with |- context [64 ^ ?e] => let v := eval vm_compute in (64 ^ e) in
    change (64 ^ e) with v end.

(** The bound of the code points of a size. *)
Definition utf8_limit (k : nat) : Z := if Nat.eqb k 6 then 2147483648 else utf8_least (S k).

Lemma size_cases k : (2 <= k <= 6)%nat ->
  k = 2%nat \/ k = 3%nat \/ k = 4%nat \/ k = 5%nat \/ k = 6%nat.
Proof. lia. Qed.

Lemma utf8_lead_size_range k b : (2 <= k <= 6)%nat ->
  utf8_lead k <= b < (if Nat.eqb k 6 then 254 else utf8_lead (S k)) -> utf8_lead_size b = Some k.
Proof.
  intros Hk. apply size_cases in Hk. unfold utf8_lead_size.
  destruct_or! Hk; subst k; cbn; intros Hb;
    repeat (rewrite (proj2 (Z.ltb_ge b _)) by lia); try rewrite (proj2 (Z.ltb_lt b _)) by lia;
    try rewrite (proj2 (Z.leb_le b _)) by lia; reflexivity.
Qed.

Lemma utf8_size_limit c : 0 <= c < 2147483648 -> c < utf8_limit (utf8_size c).
Proof. intros Hc. unfold utf8_size. repeat case_match; cbn; b2p; lia. Qed.

(** The first byte of a sequence tells its size. *)
Lemma utf8_first_size c : 0 <= c < 2147483648 -> (2 <= utf8_size c)%nat ->
  utf8_lead_size (utf8_lead (utf8_size c) + c / 64 ^ (Z.of_nat (utf8_size c) - 1)) =
    Some (utf8_size c).
Proof.
  intros Hc Hk. assert (Hk6 := utf8_size_range c). assert (Hlim := utf8_size_limit c Hc).
  apply utf8_lead_size_range; [lia|]. revert Hlim. generalize (utf8_size c) Hk Hk6. clear Hk Hk6.
  intros k Hk Hk6. assert (Hcases := size_cases k ltac:(lia)).
  destruct_or! Hcases; subst k; cbn [utf8_lead utf8_limit utf8_least Nat.eqb];
    pow64; lia.
Qed.

Lemma utf8_least_size c : 0 <= c < 2147483648 -> utf8_least (utf8_size c) <= c.
Proof. intros Hc. unfold utf8_size. repeat case_match; cbn [utf8_least]; lia. Qed.

Lemma ucs_valid_range c : ucs_valid c = true -> c < 2147483648.
Proof. unfold ucs_valid. intros. b2p. lia. Qed.

Lemma utf8_decode_encode c o rest :
  0 <= c -> utf8_encode c = Some o -> utf8_decode (o ++ rest) = DChar c (length o).
Proof.
  intros Hc. unfold utf8_encode. destruct (ucs_valid c) eqn:Hv; [|done]. intros [= <-].
  assert (Hlt := ucs_valid_range c Hv). assert (Hk := utf8_size_range c).
  assert (Hleast := utf8_least_size c ltac:(lia)).
  assert (Hfirst := utf8_first_size c ltac:(lia)).
  rewrite utf8_bytes_len by lia. unfold utf8_bytes.
  destruct (Nat.eqb_spec (utf8_size c) 1) as [E|E].
  - cbn [app utf8_decode]. assert (c < 128).
    { unfold utf8_size in E. repeat case_match; b2p; simplify_eq/=; lia. }
    unfold utf8_lead_size. rewrite (proj2 (Z.ltb_lt c 0x80)) by lia. cbn [Nat.eqb].
    rewrite E in Hleast |- *. unfold utf8_char. rewrite Hv, (proj2 (Z.leb_le _ _)) by done. done.
  - cbn [app utf8_decode]. rewrite Hfirst by lia. rewrite (proj2 (Nat.eqb_neq _ _)) by done.
    set (k := utf8_size c) in *.
    rewrite (proj2 (Nat.ltb_ge _ _)).
    2: { cbn [length]. rewrite length_app, utf8_tail_len. lia. }
    rewrite take_app_le by (rewrite utf8_tail_len; lia).
    rewrite take_ge by (rewrite utf8_tail_len; lia).
    rewrite utf8_tail_trail, tail_val_tail by done. rewrite Nat2Z.inj_sub by lia.
    replace (_ * _ + _) with c.
    2: { assert (Hp := pow64_pos (Z.of_nat k - 1) ltac:(lia)).
         change (Z.of_nat 1) with 1. rewrite (Z.div_mod c (64 ^ (Z.of_nat k - 1))) at 1 by lia. ring. }
    unfold utf8_char. by rewrite Hv, (proj2 (Z.leb_le _ _)) by done.
Qed.

Lemma utf8_lead_size_val b k : 0 <= b < 256 -> utf8_lead_size b = Some k -> (2 <= k)%nat ->
  (k <= 6)%nat /\ utf8_lead k <= b /\ b < 256 /\
  (b - utf8_lead k + 1) * 64 ^ (Z.of_nat k - 1) <= utf8_limit k.
Proof.
  intros Hb. unfold utf8_lead_size, utf8_limit.
  repeat case_match; intros; b2p; simplify_eq; cbn [utf8_lead Nat.eqb utf8_least]; pow64; lia.
Qed.

Lemma utf8_size_least c k : (2 <= k <= 6)%nat -> utf8_least k <= c ->
  c < utf8_limit k -> utf8_size c = k.
Proof.
  intros Hk H1 H2. unfold utf8_size.
  assert (Hcases : k = 2%nat \/ k = 3%nat \/ k = 4%nat \/ k = 5%nat \/ k = 6%nat) by lia.
  destruct_or! Hcases; subst k; cbn in H1, H2; repeat case_match; b2p; lia.
Qed.

(** Only encodings are decoded: no overlong sequence, no surrogate. *)
Lemma utf8_encode_decode l c k :
  Forall (fun b => is_byte b) l -> utf8_decode l = DChar c k ->
  utf8_encode c = Some (take k l) /\ (0 < k <= length l)%nat /\ 0 <= c.
Proof.
  destruct l as [|b t]; [done|]. intros [Hb Ht]%Forall_cons. cbn [utf8_decode].
  destruct (utf8_lead_size b) as [k'|] eqn:Ek; [|done].
  destruct (Nat.eqb_spec k' 1) as [->|Hk1].
  - unfold utf8_char. destruct ((utf8_least 1 <=? b) && ucs_valid b) eqn:E; [|done].
    intros [= <- <-]. apply andb_true_iff in E as [_ Hv]. unfold utf8_encode. rewrite Hv.
    unfold utf8_lead_size in Ek. assert (b < 128) by (repeat case_match; b2p; simplify_eq/=; lia).
    unfold utf8_size. rewrite (proj2 (Z.ltb_lt b 0x80)) by lia. cbn [utf8_bytes Nat.eqb take length].
    split_and!; [done|lia..].
  - assert (Hk : (2 <= k')%nat).
    { unfold utf8_lead_size in Ek. repeat case_match; simplify_eq/=; lia. }
    apply utf8_lead_size_val in Ek as (Hk6 & Hlead & _ & Hmax); [|done..].
    destruct (Nat.ltb_spec (length (b :: t)) k') as [|Hlen]; [done|]. cbn [length] in Hlen.
    set (ts := take (k' - 1) t). assert (Hts : length ts = (k' - 1)%nat).
    { unfold ts. rewrite length_take. lia. }
    destruct (forallb is_trail ts) eqn:Htr; [|done].
    assert (Hr := tail_val_range ts). rewrite Hts, Nat2Z.inj_sub in Hr by lia.
    change (Z.of_nat 1) with 1 in Hr. assert (Hp := pow64_pos (Z.of_nat k' - 1) ltac:(lia)).
    set (P := 64 ^ (Z.of_nat k' - 1)) in *. set (d := (b - utf8_lead k') * P + tail_val ts).
    assert (Hd : d / P = b - utf8_lead k' /\ d mod P = tail_val ts).
    { unfold d. split; [rewrite Z.div_add_l, Z.div_small by lia; lia|].
      by rewrite Z.add_comm, Z.mod_add, Z.mod_small by lia. }
    unfold utf8_char. destruct ((utf8_least k' <=? d) && ucs_valid d) eqn:E; [|done].
    intros [= <- <-]. apply andb_true_iff in E as [Hl Hv]. apply Z.leb_le in Hl.
    unfold utf8_encode. rewrite Hv. rewrite (utf8_size_least d k'); [|lia|done|unfold d; nia].
    unfold utf8_bytes. rewrite (proj2 (Nat.eqb_neq _ _)) by done. fold P.
    split_and!; [|lia|cbn [length]; lia|unfold d; nia]. f_equal.
    destruct k' as [|k']; [lia|]. cbn [take]. f_equal; [lia|].
    assert (Hts' : take k' t = ts) by (unfold ts; f_equal; lia). rewrite Hts'.
    replace (S k' - 1)%nat with k' in * by lia.
    etrans; [|apply (utf8_tail_val ts Htr)].
    rewrite Hts. apply utf8_tail_ext. assert (HP : P = 64 ^ Z.of_nat k') by (unfold P; f_equal; lia).
    rewrite <-HP, (proj2 Hd). symmetry. apply Z.mod_small. lia.
Qed.

(** ** The converters of iconv/ces/utf-8.c *)

Section converters.
Implicit Types (n : nat) (w : world) (p c : Z) (l t : list Z).

(** The next byte of a sequence being written. *)
Lemma wp_store_next n p l c w (Q : unit -> world -> Prop) :
  mapped (w_mem w) p (zlen l + 1) -> Q tt (written p (l ++ [u8 c]) w) ->
  wp n (store8 (p + zlen l) c) (written p l w) Q.
Proof.
  intros Hm HQ. apply wp_store8; [apply mapped_store with (1 := Hm); lia|].
  by rewrite <-written_app in HQ.
Qed.

Lemma u8_lead c k m lead : 0 <= k -> 0 <= m -> 0 <= c / 2 ^ k < 2 ^ m -> lead mod 2 ^ m = 0 ->
  0 <= lead -> lead + 2 ^ m <= 256 -> u8 (Z.lor (Z.shiftr c k) lead) = lead + c / 2 ^ k.
Proof.
  intros Hk Hm Hc Hl H0 H1. rewrite Z.lor_comm, Z.shiftr_div_pow2 by done.
  rewrite (Z.div_mod lead (2 ^ m)), Hl, Z.add_0_r, Z.mul_comm by lia.
  rewrite lor_disjoint by done. apply u8_small.
  rewrite Z.mul_comm, <-(Z.add_0_r (2 ^ m * _)) at 1 2. rewrite <-Hl, <-Z.div_mod by lia. lia.
Qed.

Lemma u8_trail c k : 0 <= k -> u8 (utf_8_trail c k) = 128 + c / 2 ^ k mod 64.
Proof.
  intros Hk. rewrite utf_8_trail_val by done. apply u8_small.
  pose proof (Z.mod_pos_bound (c / 2 ^ k) 64). lia.
Qed.

(** The stores of a sequence, one byte after the other. *)
Lemma wp_store_first n p c w (Q : unit -> world -> Prop) :
  mapped (w_mem w) p 1 -> Q tt (written p [u8 c] w) -> wp n (store8 p c) w Q.
Proof.
  intros Hm HQ. rewrite <-(written_nil p w). rewrite <-(Z.add_0_r p) at 1.
  by apply (wp_store_next n p []).
Qed.

Ltac stores Hm :=
  repeat wp_step; apply wp_store_first; [eapply mapped_sub; [exact Hm|lia|lia]|];
  repeat (repeat wp_step;
    lazymatch goal with |- wp _ (store8 (?p + _) _) (written ?p ?l _) _ =>
      apply (wp_store_next _ p l); [eapply mapped_sub; [exact Hm|lia|cbn [length]; lia]|cbn [app]] end).
Ltac pows :=
  pow64; repeat match goal with |- context [2 ^ ?e] => let v := eval vm_compute in (2 ^ e) in
    change (2 ^ e) with v end.

Lemma wp_utf_8_convert_from_ucs n data c p left w (Q : Z * Z * Z -> world -> Prop) :
  mapped (w_mem w) p left -> 0 <= left < 4294967296 -> 0 <= c ->
  (match utf8_encode c with
   | None => Q (ICONV_CES_INVALID_CHARACTER, p, left) w
   | Some o =>
       if left <? zlen o then Q (ICONV_CES_NOSPACE, p, left) w
       else Q (zlen o, p + zlen o, left - zlen o) (written p o w)
   end) ->
  wp n (utf_8_convert_from_ucs data c p left) w Q.
Proof.
  intros Hm Hleft Hc HQ. unfold utf_8_convert_from_ucs, utf8_encode in *.
  unfold ucs_valid in HQ. destruct (surrogate c || _ || _ || _) eqn:Hv; cbn [negb] in HQ; [by wp_steps|].
  assert (Hlt : c < 2147483648) by (b2p; lia).
  rewrite utf8_bytes_len in HQ by (unfold utf8_size; repeat case_match; lia).
  assert (Hlim := utf8_size_limit c ltac:(lia)).
  replace (if c <? 0x80 then 1 else if c <? 0x800 then 2 else if c <? 0x10000 then 3
    else if c <? 0x200000 then 4 else if c <? 0x4000000 then 5 else 6) with (Z.of_nat (utf8_size c))
    by (unfold utf8_size; repeat case_match; done).
  destruct (left <? Z.of_nat (utf8_size c)) eqn:Hsp; [by wp_steps|].
  rewrite u32_small by lia. apply Z.ltb_ge in Hsp.
  assert (Hcases := size_cases (utf8_size c)). assert (Hr := utf8_size_range c).
  destruct (decide (utf8_size c = 1%nat)) as [E|E].
  - rewrite E in *. change (utf8_bytes c 1) with [c] in HQ. change (Z.of_nat 1) with 1 in *.
    cbn [utf8_limit utf8_least Nat.eqb] in Hlim. wp_step. apply wp_store8; [apply Hm; lia|].
    rewrite u8_small by lia. wp_steps. exact HQ.
  - destruct Hcases as [E'|[E'|[E'|[E'|E']]]]; [lia|..]; rewrite E' in *;
      cbn [utf8_limit utf8_least Nat.eqb] in Hlim;
      match goal with |- context [Z.of_nat (S ?k)] =>
        let v := eval vm_compute in (Z.of_nat (S k)) in change (Z.of_nat (S k)) with v in * end;
      cbn [utf8_bytes Nat.eqb utf8_tail Nat.sub utf8_lead] in HQ;
      revert HQ; pow64; intros HQ.
    all: cbn iota; stores Hm; wp_steps; rewrite !u8_trail by lia.
    + rewrite (u8_lead c 6 5) by (pows; lia). exact HQ.
    + rewrite (u8_lead c 12 4) by (pows; lia). exact HQ.
    + rewrite (u8_lead c 18 3) by (pows; lia). exact HQ.
    + rewrite (u8_lead c 24 2) by (pows; lia). exact HQ.
    + rewrite (u8_lead c 30 1) by (pows; lia). exact HQ.
Qed.

Lemma land_C0 b : is_byte b -> (Z.land b 0xC0 =? 0x80) = is_trail b.
Proof.
  intros Hb. apply eqb_prop, (byte_enum (fun b => eqb (Z.land b 0xC0 =? 0x80) (is_trail b))).
  - by vm_compute.
  - done.
Qed.

Lemma wp_utf_8_trails n p t w (Q : bool -> world -> Prop) :
  bytes (w_mem w) p t -> Forall (fun b => is_byte b) t -> Q (forallb is_trail t) w ->
  wp n (utf_8_trails p (length t)) w Q.
Proof.
  revert p. induction t as [|b t IH]; intros p Hb Ht HQ; cbn [utf_8_trails length].
  { by wp_steps. }
  destruct Hb as [Hb Hbs]. apply Forall_cons in Ht as [Hb8 Ht]. wp_mem. rewrite land_C0 by done.
  cbn [forallb] in HQ. destruct (is_trail b); cbn [andb] in HQ; [by apply IH|by wp_steps].
Qed.

Lemma wp_utf_8_bits n p t w (Q : Z -> world -> Prop) :
  bytes (w_mem w) p t -> Q (tail_val t) w -> wp n (utf_8_bits p (length t)) w Q.
Proof.
  revert p Q. induction t as [|b t IH]; intros p Q Hb HQ; cbn [utf_8_bits length].
  { by wp_steps. }
  destruct Hb as [Hb Hbs]. wp_mem. apply IH; [done|]. wp_steps. cbn [tail_val] in HQ.
  rewrite land_63, Z.shiftl_mul_pow2 by lia. assert (Hr := tail_val_range t).
  rewrite Z.pow_mul_r in * by lia. change (2 ^ 6) with 64 in *.
  replace (64 ^ zlen t) with (2 ^ (6 * zlen t)) in * by (by rewrite Z.pow_mul_r by lia).
  by rewrite lor_disjoint by lia.
Qed.

(** The first byte of a sequence of [k] bytes. *)
Definition utf8_mask (k : nat) : Z :=
  match k with 2%nat => 0x1F | 3%nat => 0x0F | 4%nat => 0x07 | 5%nat => 0x03 | _ => 0x01 end.

Lemma utf8_first_byte k b : (2 <= k <= 6)%nat -> is_byte b -> utf8_lead_size b = Some k ->
  (Z.land b (Z.lnot (utf8_mask k)) =? utf8_lead k) = true /\
  Z.land b (utf8_mask k) = b - utf8_lead k.
Proof.
  intros Hk Hb. apply size_cases in Hk. set (P k b := bool_decide (utf8_lead_size b = Some k ->
    (Z.land b (Z.lnot (utf8_mask k)) =? utf8_lead k) = true /\
    Z.land b (utf8_mask k) = b - utf8_lead k)).
  enough (HP : P k b = true) by (by apply bool_decide_eq_true in HP).
  destruct_or! Hk; subst k; apply byte_enum; try done; by vm_compute.
Qed.

Lemma wp_utf_8_sequence n p l k w (Q : flow (Z * Z) (Z * Z * Z) -> world -> Prop) :
  mem_ok (w_mem w) -> bytes (w_mem w) p l -> (2 <= k <= 6)%nat ->
  utf8_lead_size (nth 0 l 0) = Some k -> l <> [] ->
  (if (length l <? k)%nat then Q (Return (ICONV_CES_BAD_SEQUENCE, p, zlen l)) w
   else let ts := take (k - 1) (drop 1 l) in
     let c := (nth 0 l 0 - utf8_lead k) * 64 ^ (Z.of_nat k - 1) + tail_val ts in
     if forallb is_trail ts && (utf8_least k <=? c) then Q (Fall (c, Z.of_nat k)) w
     else Q (Return (ICONV_CES_INVALID_CHARACTER, p, zlen l)) w) ->
  wp n (utf_8_sequence p (zlen l) (Z.of_nat k) (utf8_mask k) (utf8_lead k) (utf8_least k)) w Q.
Proof.
  intros Hm Hl Hk Hsz Hne HQ. destruct l as [|b t]; [done|]. cbn [nth drop] in *.
  rewrite drop_0 in HQ. assert (Hbs := mem_ok_bytes _ _ _ Hm Hl). apply Forall_cons in Hbs as [Hb Ht].
  destruct (utf8_first_byte k b Hk Hb Hsz) as [H1 H2]. unfold utf_8_sequence.
  destruct (Nat.ltb_spec (length (b :: t)) k) as [Hs|Hs].
  { rewrite (proj2 (Z.ltb_lt _ _)) by lia. by wp_steps. }
  rewrite (proj2 (Z.ltb_ge _ _)) by lia. cbv zeta in HQ. cbn [length] in Hs.
  destruct Hl as [Hl0 Hl]. rewrite <-(take_drop (k - 1) t) in Hl, Ht.
  apply bytes_app in Hl as [Hl _]. apply Forall_app in Ht as [Ht _].
  assert (Hlen : length (take (k - 1) t) = Z.to_nat (Z.of_nat k - 1)) by (rewrite length_take; lia).
  set (ts := take (k - 1) t) in *. rewrite <-Hlen.
  wp_mem. rewrite H1. apply wp_utf_8_trails; [done|done|].
  destruct (forallb is_trail ts); cbn [negb andb] in *; [|by wp_steps].
  wp_mem. apply wp_utf_8_bits; [done|].
  rewrite H2. assert (Hr := tail_val_range ts).
  replace (zlen ts) with (Z.of_nat k - 1) in Hr by lia.
  replace (64 ^ (Z.of_nat k - 1)) with (2 ^ (6 * (Z.of_nat k - 1))) in * by (by rewrite Z.pow_mul_r by lia).
  rewrite Z.shiftl_mul_pow2, lor_disjoint by lia. rewrite Z.leb_antisym in HQ.
  destruct (_ <? utf8_least k); by wp_steps.
Qed.

(** The result of a "to UCS" converter at [p] on the input [l]. *)
Definition to_result (p : Z) (l : list Z) (d : decoded) : Z * Z * Z :=
  match d with
  | DChar c k => (c, p + Z.of_nat k, zlen l - Z.of_nat k)
  | DBad => (ICONV_CES_BAD_SEQUENCE, p, zlen l)
  | DInvalid => (ICONV_CES_INVALID_CHARACTER, p, zlen l)
  end.

Lemma wp_utf_8_convert_to_ucs n data p l w (Q : Z * Z * Z -> world -> Prop) :
  mem_ok (w_mem w) -> bytes (w_mem w) p l -> l <> [] ->
  Q (to_result p l (utf8_decode l)) w ->
  wp n (utf_8_convert_to_ucs data p (zlen l)) w Q.
Proof.
  intros Hm Hl Hne HQ. unfold utf_8_convert_to_ucs.
  assert (Hrange := mem_ok_range _ _ _ Hm Hl Hne).
  assert (Hbs := mem_ok_bytes _ _ _ Hm Hl).
  assert (Hend : forall c k, (1 <= k <= length l)%nat ->
    (utf8_least k <=? c) = true -> Q (to_result p l (utf8_char c k)) w ->
    wp n (if surrogate c || (0x7FFFFFFF <? c) || (c =? 0xFFFF) || (c =? 0xFFFE)
      then mret (ICONV_CES_INVALID_CHARACTER, p, zlen l)
      else mret (c, p + Z.of_nat k, u32 (zlen l - Z.of_nat k))) w Q).
  { intros c k Hk Hc HQ'. unfold utf8_char, ucs_valid in HQ'. rewrite Hc in HQ'. cbn [andb] in HQ'.
    destruct (surrogate c || _ || _ || _); cbn [negb to_result] in HQ'; wp_steps; [done|].
    by rewrite u32_small by lia. }
  wp_step. match goal with |- wp _ _ _ ?K => set (Post := K) end.
  assert (Hseq : forall k, (2 <= k <= 6)%nat -> utf8_lead_size (nth 0 l 0) = Some k ->
    wp n (utf_8_sequence p (zlen l) (Z.of_nat k) (utf8_mask k) (utf8_lead k) (utf8_least k)) w Post).
  { intros k Hk Hsz. apply wp_utf_8_sequence; [done..|]. destruct l as [|b t]; [done|].
    cbn [nth drop] in *. rewrite drop_0. cbn [utf8_decode] in HQ. rewrite Hsz in HQ.
    rewrite (proj2 (Nat.eqb_neq k 1)) in HQ by lia. unfold Post.
    destruct (Nat.ltb_spec (length (b :: t)) k); [done|]. cbv zeta.
    destruct (forallb is_trail _); cbn [andb]; [|done].
    destruct (utf8_least k <=? _) eqn:E; [by apply Hend; [lia|..]|].
    unfold utf8_char in HQ. by rewrite E in HQ. }
  destruct l as [|b t]; [done|]. assert (Hb := Forall_inv Hbs). cbn in Hb.
  assert (Hl0 := proj1 Hl). cbn [nth] in Hseq. wp_mem. cbn [utf8_decode] in HQ.
  destruct (Z.leb_spec 0xC0 b) as [HC0|HC0].
  - destruct (Z.ltb_spec b 0xE0); [apply (Hseq 2%nat); [lia|by apply utf8_lead_size_range; [lia|cbn; lia]]|].
    destruct (Z.ltb_spec b 0xF0); [apply (Hseq 3%nat); [lia|by apply utf8_lead_size_range; [lia|cbn; lia]]|].
    destruct (Z.ltb_spec b 0xF8); [apply (Hseq 4%nat); [lia|by apply utf8_lead_size_range; [lia|cbn; lia]]|].
    destruct (Z.ltb_spec b 0xFC); [apply (Hseq 5%nat); [lia|by apply utf8_lead_size_range; [lia|cbn; lia]]|].
    destruct (Z.leb_spec b 0xFD); [apply (Hseq 6%nat); [lia|by apply utf8_lead_size_range; [lia|cbn; lia]]|].
    assert (Hno : utf8_lead_size b = None).
    { unfold utf8_lead_size. repeat (rewrite (proj2 (Z.ltb_ge b _)) by lia).
      by rewrite (proj2 (Z.leb_gt b _)) by lia. }
    rewrite Hno in HQ. by wp_steps.
  - assert (H80 : (Z.land b 0x80 =? 0) = (b <? 0x80)).
    { apply eqb_prop, (byte_enum (fun b => eqb (Z.land b 0x80 =? 0) (b <? 0x80))); [by vm_compute|done]. }
    rewrite H80. unfold utf8_lead_size in HQ. destruct (Z.ltb_spec b 0x80) as [Hlt|Hge]; cbn [negb].
    + wp_steps. apply (Hend b 1%nat); [cbn [length]; lia| |done]. cbn. lia.
    + rewrite (proj2 (Z.ltb_lt b 0xC0)) in HQ by lia. by wp_steps.
Qed.
End converters.
