(* ===== verification/IconvSpec.v ===== *)
(** * Conversions between encodings

    What the conversion loop of iconv/lib/ucsconv.c relies on of the two
    converters it composes, as classes: a decoder consumes one character of
    the front of the input, an encoder writes the bytes of one character, each
    with a state in the converter's data.  The instances are the built-in
    converters; the loop is proved against the classes. *)

From S2P Require Import Prelude CMonad Words Memory StrScan MemCopy Iconv Utf8.

(** Code points the loop cannot take for an error. *)
Abbreviation ucs4 c := (0 <= c < 4294967294).

Class decoder (convert : Z -> Z -> Z -> C (Z * Z * Z)) := {
  dec_state : Type;
  dec_size : nat;
  dec_data : dec_state -> list Z;
  decode : dec_state -> list Z -> dec_state * decoded;
  dec_data_ok s : length (dec_data s) = dec_size /\ Forall (fun b => is_byte b) (dec_data s);
  decode_char s l s' c k : Forall (fun b => is_byte b) l ->
    decode s l = (s', DChar c k) -> (0 < k <= length l)%nat /\ ucs4 c;
  wp_decoder n data s p l w (Q : Z * Z * Z -> world -> Prop) :
    mem_ok (w_mem w) -> bytes (w_mem w) data (dec_data s) -> bytes (w_mem w) p l -> l <> [] ->
    disjoint_ranges data (Z.of_nat dec_size) p (zlen l) ->
    Q (to_result p l (decode s l).2) (written data (dec_data (decode s l).1) w) ->
    wp n (convert data p (zlen l)) w Q;
}.

Class encoder (convert : Z -> Z -> Z -> Z -> C (Z * Z * Z)) := {
  enc_state : Type;
  enc_size : nat;
  enc_data : enc_state -> list Z;
  encode : enc_state -> Z -> option (list Z * enc_state);
  enc_data_ok s : length (enc_data s) = enc_size /\ Forall (fun b => is_byte b) (enc_data s);
  encode_bytes s c o s' : encode s c = Some (o, s') ->
    (0 < length o <= 6)%nat /\ (ucs4 c -> Forall (fun b => is_byte b) o);
  wp_encoder n data s c p left w (Q : Z * Z * Z -> world -> Prop) :
    mem_ok (w_mem w) -> bytes (w_mem w) data (enc_data s) -> mapped (w_mem w) p left ->
    1 <= left < 4294967296 -> ucs4 c -> disjoint_ranges data (Z.of_nat enc_size) p left ->
    (match encode s c with
     | None => Q (ICONV_CES_INVALID_CHARACTER, p, left) w
     | Some (o, s') =>
         if left <? zlen o then Q (ICONV_CES_NOSPACE, p, left) w
         else Q (zlen o, p + zlen o, left - zlen o) (written data (enc_data s') (written p o w))
     end) ->
    wp n (convert data c p left) w Q;
}.

(** ** Converters without data *)

(** The code of a character, in a state that does not change. *)
Definition with_state {S} (s : S) (o : option (list Z)) : option (list Z * S) :=
  match o with Some l => Some (l, s) | None => None end.

#[export] Instance utf_8_decoder : decoder utf_8_convert_to_ucs.
Proof.
  refine {| dec_state := unit; dec_size := 0; dec_data _ := []; decode s l := (s, utf8_decode l) |}.
  - done.
  - intros s l s' c k Hl [= _ H]. apply utf8_encode_decode in H as (He & Hk & Hc); [|done].
    split; [done|]. unfold utf8_encode in He. destruct (ucs_valid c) eqn:Hv; [|done].
    apply ucs_valid_range in Hv. lia.
  - intros n data s p l w Q Hm _ Hl Hne _ HQ. cbn [fst snd] in HQ. rewrite written_nil in HQ.
    by apply wp_utf_8_convert_to_ucs.
Defined.

Lemma utf8_bytes_byte c : 0 <= c < 2147483648 ->
  Forall (fun b => is_byte b) (utf8_bytes c (utf8_size c)).
Proof.
  intros Hc. unfold utf8_bytes. destruct (Nat.eqb_spec (utf8_size c) 1) as [E|E].
  - rewrite Forall_singleton. unfold utf8_size in E. repeat case_match; b2p; simplify_eq/=; lia.
  - assert (Hlim := utf8_size_limit c Hc). assert (Hr := utf8_size_range c).
    constructor.
    + revert Hlim. assert (Hcases := size_cases (utf8_size c) ltac:(lia)).
      destruct_or! Hcases; rewrite Hcases; cbn [utf8_limit utf8_least Nat.eqb utf8_lead]; pow64; lia.
    + generalize (utf8_size c - 1)%nat as k. intros k. induction k as [|k IH]; [done|].
      cbn [utf8_tail]. constructor; [|done].
      pose proof (Z.mod_pos_bound (c / 64 ^ Z.of_nat k) 64). lia.
Qed.

#[export] Instance utf_8_encoder : encoder utf_8_convert_from_ucs.
Proof.
  refine {| enc_state := unit; enc_size := 0; enc_data _ := [];
    encode s c := with_state s (utf8_encode c) |}.
  - done.
  - intros s c o s' H. unfold utf8_encode in H. destruct (ucs_valid c) eqn:Hv; [|done].
    injection H as <- _. assert (Hr := utf8_size_range c). rewrite utf8_bytes_len by lia.
    split; [lia|]. intros Hc. apply ucs_valid_range in Hv. apply utf8_bytes_byte. lia.
  - intros n data s c p left w Q Hm _ Hp Hleft Hc _ HQ.
    apply wp_utf_8_convert_from_ucs; [done|lia|lia|]. 
    destruct (utf8_encode c); [|done]. cbn [with_state] in HQ. by rewrite written_nil in HQ.
Defined.

Definition ascii_decode (l : list Z) : decoded :=
  match l with [] => DBad | b :: _ => if 0x7F <? b then DInvalid else DChar b 1 end.
Definition ascii_encode (c : Z) : option (list Z) := if 0x7F <? c then None else Some [c].

#[export] Instance us_ascii_decoder : decoder us_ascii_convert_to_ucs.
Proof.
  refine {| dec_state := unit; dec_size := 0; dec_data _ := []; decode s l := (s, ascii_decode l) |}.
  - done.
  - intros s [|b l] s' c k Hl; [done|]. apply Forall_inv in Hl. cbn [ascii_decode].
    destruct (0x7F <? b); [done|]. intros [= _ <- <-]. cbn [length]. lia.
  - intros n data s p l w Q Hm _ Hl Hne _ HQ. unfold us_ascii_convert_to_ucs.
    assert (Hr := mem_ok_range _ _ _ Hm Hl Hne). destruct l as [|b t]; [done|].
    rewrite (proj2 (Z.ltb_ge _ _)) by (cbn [length]; lia). destruct Hl as [Hb _].
    cbn [fst snd] in HQ. rewrite written_nil in HQ. cbn [ascii_decode] in HQ.
    wp_mem. destruct (0x7F <? b); wp_steps; [done|]. by rewrite u32_small by (cbn [length] in *; lia).
Defined.

#[export] Instance us_ascii_encoder : encoder us_ascii_convert_from_ucs.
Proof.
  refine {| enc_state := unit; enc_size := 0; enc_data _ := [];
    encode s c := with_state s (ascii_encode c) |}.
  - done.
  - intros s c o s' H. unfold ascii_encode in H. destruct (Z.ltb_spec 0x7F c); [done|].
    injection H as <- _. split; [cbn; lia|]. repeat constructor; lia.
  - intros n data s c p left w Q Hm _ Hp Hleft Hc _ HQ. unfold us_ascii_convert_from_ucs.
    unfold ascii_encode in HQ. destruct (Z.ltb_spec 0x7F c); [by wp_steps|].
    cbn [with_state] in HQ. rewrite written_nil in HQ. change (zlen [c]) with 1 in HQ.
    rewrite (proj2 (Z.ltb_ge left 1)) in HQ by lia. wp_step.
    apply wp_store8; [apply Hp; lia|]. wp_steps. rewrite u8_small, u32_small by lia. done.
Defined.

(** ** Byte order *)

Inductive byte_order := BigEndian | LittleEndian.

Definition unit16 (o : byte_order) (a b : Z) : Z :=
  match o with BigEndian => b + 256 * a | LittleEndian => a + 256 * b end.
Definition bytes16 (o : byte_order) (c : Z) : list Z :=
  match o with BigEndian => [c / 256; c mod 256] | LittleEndian => [c mod 256; c / 256] end.
Definition unit32 (o : byte_order) (a b c d : Z) : Z :=
  match o with BigEndian => le32 d c b a | LittleEndian => le32 a b c d end.
Definition bytes32 (o : byte_order) (c : Z) : list Z :=
  match o with BigEndian => rev (le_bytes c) | LittleEndian => le_bytes c end.

Definition lor_le32 := bitwise_le32 Z.lor orb (fun x y i _ => Z.lor_spec x y i)
  lor_byte.

Lemma land_255 x : is_byte x -> Z.land x 255 = x.
Proof. intros Hx. change 255 with (Z.ones 8). rewrite Z.land_ones by lia. apply Z.mod_small. lia. Qed.

Lemma ICONV_BETOHL_le32 a b c d : is_byte a -> is_byte b -> is_byte c -> is_byte d ->
  ICONV_BETOHL (le32 a b c d) = le32 d c b a.
Proof.
  intros Ha Hb Hc Hd. unfold ICONV_BETOHL. set (l := le32 a b c d).
  assert (E1 : Z.land (Z.shiftl l 24) 0xFF000000 = le32 0 0 0 a).
  { change 0xFF000000 with (Z.shiftl (le32 255 0 0 0) 24). rewrite <-Z.shiftl_land. unfold l.
    rewrite land_le32, !Z.land_0_r, land_255, Z.shiftl_mul_pow2 by lia. unfold le32. lia. }
  assert (E2 : Z.land (Z.shiftl l 8) 0x00FF0000 = le32 0 0 b 0).
  { change 0x00FF0000 with (Z.shiftl (le32 0 255 0 0) 8). rewrite <-Z.shiftl_land. unfold l.
    rewrite land_le32, !Z.land_0_r, land_255, Z.shiftl_mul_pow2 by lia. unfold le32. lia. }
  assert (E3 : Z.land (Z.shiftr l 8) 0x0000FF00 = le32 0 c 0 0).
  { change 0x0000FF00 with (Z.shiftr (le32 0 0 255 0) 8). rewrite <-Z.shiftr_land. unfold l.
    rewrite land_le32, !Z.land_0_r, land_255, Z.shiftr_div_pow2 by lia. unfold le32. lia. }
  assert (E4 : Z.land (Z.shiftr l 24) 0x000000FF = le32 d 0 0 0).
  { change 0x000000FF with (Z.shiftr (le32 0 0 0 255) 24). rewrite <-Z.shiftr_land. unfold l.
    rewrite land_le32, !Z.land_0_r, land_255, Z.shiftr_div_pow2 by lia. unfold le32. lia. }
  rewrite E1, E2, E3, E4. do 3 (rewrite lor_le32 by lia; rewrite ?Z.lor_0_l, ?Z.lor_0_r). done.
Qed.

Lemma ICONV_BETOHS_unit a b : is_byte a -> is_byte b -> ICONV_BETOHS (a + 256 * b) = b + 256 * a.
Proof.
  intros Ha Hb. replace (a + 256 * b) with (le32 a b 0 0) by (unfold le32; lia).
  unfold ICONV_BETOHS. set (l := le32 a b 0 0).
  assert (E1 : Z.land (Z.shiftl l 8) 0xFF00 = le32 0 a 0 0).
  { change 0xFF00 with (Z.shiftl (le32 255 0 0 0) 8). rewrite <-Z.shiftl_land. unfold l.
    rewrite land_le32, !Z.land_0_r, land_255, Z.shiftl_mul_pow2 by lia. unfold le32. lia. }
  assert (E2 : Z.land (Z.shiftr l 8) 0x00FF = le32 b 0 0 0).
  { change 0x00FF with (Z.shiftr (le32 0 255 0 0) 8). rewrite <-Z.shiftr_land. unfold l.
    rewrite land_le32, !Z.land_0_r, land_255, Z.shiftr_div_pow2 by lia. unfold le32. lia. }
  rewrite E1, E2, lor_le32, ?Z.lor_0_l, ?Z.lor_0_r by lia. unfold le32. lia.
Qed.

Lemma wp_load16 n p a b w (Q : Z -> world -> Prop) :
  bytes (w_mem w) p [a; b] -> Q (a + 256 * b) w -> wp n (load16 p) w Q.
Proof. intros (Ha & Hb & _) HQ. unfold load16. wp_mem. done. Qed.

Lemma wp_store16 n p x w (Q : unit -> world -> Prop) :
  mapped (w_mem w) p 2 -> Q tt (written p [x mod 256; x / 256 mod 256] w) ->
  wp n (store16 p x) w Q.
Proof.
  intros Hm HQ. unfold store16. wp_step. apply wp_store_first; [eapply mapped_sub; [done|lia..]|].
  apply (wp_store_next _ p [_]); [done|]. rewrite !u8_small by lia. exact HQ.
Qed.

(** A unit stored or read in a byte order. *)
Definition swap16 (o : byte_order) (c : Z) : Z :=
  match o with BigEndian => ICONV_BETOHS c | LittleEndian => c end.
Definition swap32 (o : byte_order) (c : Z) : Z :=
  match o with BigEndian => ICONV_BETOHL c | LittleEndian => c end.

Lemma swap16_unit o a b : is_byte a -> is_byte b -> swap16 o (a + 256 * b) = unit16 o a b.
Proof. intros Ha Hb. destruct o; [by apply ICONV_BETOHS_unit|done]. Qed.
Lemma swap32_unit o a b c d : is_byte a -> is_byte b -> is_byte c -> is_byte d ->
  swap32 o (le32 a b c d) = unit32 o a b c d.
Proof. intros. destruct o; [by apply ICONV_BETOHL_le32|done]. Qed.

Lemma unit16_range o a b : is_byte a -> is_byte b -> 0 <= unit16 o a b < 65536.
Proof. intros. destruct o; cbn; lia. Qed.

Lemma bytes16_bytes o c : 0 <= c < 65536 ->
  length (bytes16 o c) = 2%nat /\ Forall (fun b => is_byte b) (bytes16 o c).
Proof.
  intros. destruct o; (split; [done|]); cbn [bytes16]; rewrite !Forall_cons; (split_and!; [lia..|done]).
Qed.
Lemma bytes32_bytes o c :
  length (bytes32 o c) = 4%nat /\ Forall (fun b => is_byte b) (bytes32 o c).
Proof.
  destruct o; (split; [done|]); unfold bytes32, le_bytes; cbn [rev app]; rewrite !Forall_cons;
    (split_and!; [apply byte_of_range..|done]).
Qed.

Lemma unit16_bytes16 o c : 0 <= c < 65536 ->
  match bytes16 o c with [a; b] => unit16 o a b = c | _ => False end.
Proof. intros. destruct o; cbn; lia. Qed.
Lemma unit32_bytes32 o c : 0 <= c < 4294967296 ->
  match bytes32 o c with [x; y; z; t] => unit32 o x y z t = c | _ => False end.
Proof. intros. destruct o; cbn; by apply le32_byte_of. Qed.

Lemma wp_store16_unit n p o c w (Q : unit -> world -> Prop) :
  mapped (w_mem w) p 2 -> 0 <= c < 65536 -> Q tt (written p (bytes16 o c) w) ->
  wp n (store16 p (swap16 o c)) w Q.
Proof.
  intros Hm Hc HQ. apply wp_store16; [done|]. destruct o; cbn [swap16 bytes16] in *.
  - replace c with (c mod 256 + 256 * (c / 256)) at 1 2 by lia.
    rewrite ICONV_BETOHS_unit by lia.
    replace ((c / 256 + 256 * (c mod 256)) mod 256) with (c / 256) by lia.
    replace ((c / 256 + 256 * (c mod 256)) / 256 mod 256) with (c mod 256) by lia. done.
  - by replace (c / 256 mod 256) with (c / 256) by lia.
Qed.

Lemma wp_store32_unit n p o c w (Q : unit -> world -> Prop) :
  mapped (w_mem w) p 4 -> 0 <= c < 4294967296 -> Q tt (written p (bytes32 o c) w) ->
  wp n (store32 p (swap32 o c)) w Q.
Proof.
  intros Hm Hc HQ. destruct o; cbn [swap32 bytes32] in *; [|by apply wp_store32_le].
  rewrite <-(le32_byte_of c) by done. rewrite ICONV_BETOHL_le32 by apply byte_of_range.
  apply wp_store32; [done|apply byte_of_range..|exact HQ].
Qed.

(** ** ucs-2.c, ucs-4.c and the internal ones *)

Definition ucs2_valid (c : Z) : bool := negb (surrogate c || (0xFFFE <=? c)).

(** One unit of 16 or 32 bits, under a condition. *)
Definition decode16 (valid : Z -> bool) (o : byte_order) (l : list Z) : decoded :=
  match l with
  | a :: b :: _ => if valid (unit16 o a b) then DChar (unit16 o a b) 2 else DInvalid
  | _ => DBad
  end.
Definition encode16 (valid : Z -> bool) (o : byte_order) (c : Z) : option (list Z) :=
  if valid c then Some (bytes16 o c) else None.
Definition decode32 (valid : Z -> bool) (o : byte_order) (l : list Z) : decoded :=
  match l with
  | a :: b :: c :: d :: _ =>
      if valid (unit32 o a b c d) then DChar (unit32 o a b c d) 4 else DInvalid
  | _ => DBad
  end.
Definition encode32 (valid : Z -> bool) (o : byte_order) (c : Z) : option (list Z) :=
  if valid c then Some (bytes32 o c) else None.

Definition order_data (o : byte_order) : list Z :=
  le_bytes match o with BigEndian => 0 | LittleEndian => 1 end.

Lemma order_data_ok o : length (order_data o) = 4%nat /\ Forall (fun b => is_byte b) (order_data o).
Proof.
  split; [done|]. unfold order_data, le_bytes. rewrite !Forall_cons.
  split_and!; [apply byte_of_range..|done].
Qed.

Lemma wp_load_order n data o w (Q : Z -> world -> Prop) :
  bytes (w_mem w) data (order_data o) ->
  Q (match o with BigEndian => 0 | LittleEndian => 1 end) w -> wp n (load32 data) w Q.
Proof. intros Hd HQ. eapply wp_load32_le; [exact Hd|by destruct o|done]. Qed.

Lemma decode16_char valid o l c k : Forall (fun b => is_byte b) l ->
  decode16 valid o l = DChar c k -> (0 < k <= length l)%nat /\ ucs4 c.
Proof.
  destruct l as [|a [|b l]]; try done. intros Hl. rewrite !Forall_cons in Hl. destruct_and!.
  cbn [decode16]. case_match; [|done]. intros [= <- <-].
  assert (Hr := unit16_range o a b). cbn [length]. lia.
Qed.

#[export] Instance ucs_2_decoder : decoder ucs_2_convert_to_ucs.
Proof.
  refine {| dec_state := byte_order; dec_size := 4; dec_data := order_data;
    decode s l := (s, decode16 ucs2_valid s l); dec_data_ok := order_data_ok |}.
  - intros s l s' c k Hl [= _ H]. by eapply decode16_char.
  - intros n data s p l w Q Hm Hd Hl Hne _ HQ. cbn [fst snd] in HQ. rewrite written_id in HQ by done.
    unfold ucs_2_convert_to_ucs. assert (Hr := mem_ok_range _ _ _ Hm Hl Hne).
    assert (Hb := mem_ok_bytes _ _ _ Hm Hl).
    destruct l as [|a [|b l]]; [done|by wp_steps|]. rewrite !Forall_cons in Hb. destruct_and!.
    rewrite (proj2 (Z.ltb_ge _ _)) by (cbn [length]; lia).
    wp_step. eapply wp_load_order; [exact Hd|]. wp_step.
    eapply wp_load16; [by destruct Hl as (? & ? & _)|].
    replace (if _ =? UCS_2_BIG_ENDIAN then _ else _) with (swap16 s (a + 256 * b)) by (by destruct s).
    rewrite swap16_unit by done. cbn [decode16] in HQ. unfold ucs2_valid in HQ.
    destruct (surrogate _ || _); cbn [negb] in HQ; wp_steps; [done|].
    by rewrite u32_small by (cbn [length] in *; lia).
Defined.

#[export] Instance ucs_2_encoder : encoder ucs_2_convert_from_ucs.
Proof.
  refine {| enc_state := byte_order; enc_size := 4; enc_data := order_data;
    encode s c := with_state s (encode16 ucs2_valid s c); enc_data_ok := order_data_ok |}.
  - intros s c o s' H. unfold encode16 in H. destruct (ucs2_valid c) eqn:Hv; [|done].
    injection H as <- _. unfold ucs2_valid in Hv. b2p. split; [by destruct s; cbn; lia|].
    intros Hc. apply bytes16_bytes. lia.
  - intros n data s c p left w Q Hm Hd Hp Hleft Hc Hdis HQ. unfold ucs_2_convert_from_ucs.
    unfold encode16, ucs2_valid in HQ. destruct (surrogate c || _) eqn:Hv; cbn [negb] in HQ; [by wp_steps|].
    b2p. cbn [with_state] in HQ. rewrite (proj1 (bytes16_bytes s c ltac:(lia))) in HQ.
    change (Z.of_nat 2) with 2 in HQ. destruct (Z.ltb_spec left 2); [by wp_steps|].
    wp_step. eapply wp_load_order; [exact Hd|]. wp_step. rewrite u16_small by lia.
    replace (if _ =? UCS_2_BIG_ENDIAN then _ else _) with (store16 p (swap16 s c)) by (by destruct s).
    apply wp_store16_unit; [eapply mapped_sub; [done|lia..]|lia|]. wp_steps.
    rewrite written_id in HQ; [by rewrite u32_small by lia|].
    apply bytes_store_out; [done|]. rewrite (proj1 (bytes16_bytes s c ltac:(lia))), (proj1 (order_data_ok s)).
    unfold disjoint_ranges in *. lia.
Defined.

Lemma decode32_char valid o l c k : (forall c, valid c = true -> c < 4294967294) ->
  Forall (fun b => is_byte b) l -> decode32 valid o l = DChar c k ->
  (0 < k <= length l)%nat /\ ucs4 c.
Proof.
  intros Hv. destruct l as [|a [|b [|c1 [|d l]]]]; try done. intros Hl.
  rewrite !Forall_cons in Hl. destruct_and!. cbn [decode32].
  destruct (valid _) eqn:E; [|done]. intros [= <- <-]. apply Hv in E.
  assert (H32 := le32_range a b c1 d). assert (H32' := le32_range d c1 b a).
  cbn [length]. destruct o; cbn [unit32] in *; lia.
Qed.

Definition ucs4_internal_valid (c : Z) : bool := negb (0x7FFFFFFF <? c).

Lemma ucs_valid_lt c : ucs_valid c = true -> c < 4294967294.
Proof. intros H%ucs_valid_range. lia. Qed.
Lemma ucs4_internal_lt c : ucs4_internal_valid c = true -> c < 4294967294.
Proof. unfold ucs4_internal_valid. intros. b2p. lia. Qed.

(** The part of the 32-bit converters after the byte order is known. *)
Lemma wp_decode32 n invalid s p l w (Q : Z * Z * Z -> world -> Prop) :
  mem_ok (w_mem w) -> bytes (w_mem w) p l -> (4 <= length l)%nat ->
  Q (to_result p l (decode32 (fun c => negb (invalid c)) s l)) w ->
  wp n (l' ← load32 p;
    let res := swap32 s l' in
    if invalid res then mret (ICONV_CES_INVALID_CHARACTER, p, zlen l)
    else mret (res, p + 4, u32 (zlen l - 4))) w Q.
Proof.
  intros Hm Hl Hlen HQ. assert (Hr := mem_ok_range _ _ _ Hm Hl ltac:(by destruct l; cbn in Hlen; [lia|])).
  assert (Hb := mem_ok_bytes _ _ _ Hm Hl).
  destruct l as [|a [|b [|c [|d l]]]]; cbn [length] in Hlen; try lia.
  rewrite !Forall_cons in Hb. destruct_and!. wp_step.
  eapply wp_load32; [by destruct Hl as (? & ? & ? & ? & _)|]. cbv zeta.
  rewrite swap32_unit by done. cbn [decode32] in HQ.
  destruct (invalid _); cbn [negb] in *; wp_steps; [done|].
  by rewrite u32_small by (cbn [length] in *; lia).
Qed.

Lemma wp_encode32 n s c p left w (Q : Z * Z * Z -> world -> Prop) :
  mapped (w_mem w) p left -> 4 <= left < 4294967296 -> ucs4 c ->
  Q (4, p + 4, left - 4) (written p (bytes32 s c) w) ->
  wp n (store32 p (swap32 s c) ;; mret (4, p + 4, u32 (left - 4))) w Q.
Proof.
  intros Hp Hleft Hc HQ. wp_step.
  apply wp_store32_unit; [eapply mapped_sub; [done|lia..]|lia|]. wp_steps.
  by rewrite u32_small by lia.
Qed.

#[export] Instance ucs_4_decoder : decoder ucs_4_convert_to_ucs.
Proof.
  refine {| dec_state := byte_order; dec_size := 4; dec_data := order_data;
    decode s l := (s, decode32 ucs_valid s l); dec_data_ok := order_data_ok |}.
  - intros s l s' c k Hl [= _ H]. by eapply decode32_char, H; [apply ucs_valid_lt|].
  - intros n data s p l w Q Hm Hd Hl Hne _ HQ. cbn [fst snd] in HQ. rewrite written_id in HQ by done.
    unfold ucs_4_convert_to_ucs. destruct (Z.ltb_spec (zlen l) 4) as [Hs|Hs].
    { destruct l as [|a [|b [|c [|d l]]]]; cbn [length] in Hs; try lia; by wp_steps. }
    wp_step. eapply wp_load_order; [exact Hd|].
    assert (H := wp_decode32 n (fun c => surrogate c || (0x7FFFFFFF <? c) || (c =? 0xFFFF) ||
      (c =? 0xFFFE)) s p l w Q Hm Hl ltac:(lia) HQ).
    destruct s; exact H.
Defined.

#[export] Instance ucs_4_encoder : encoder ucs_4_convert_from_ucs.
Proof.
  refine {| enc_state := byte_order; enc_size := 4; enc_data := order_data;
    encode s c := with_state s (encode32 ucs_valid s c); enc_data_ok := order_data_ok |}.
  - intros s c o s' H. unfold encode32 in H. destruct (ucs_valid c) eqn:Hv; [|done].
    injection H as <- _. destruct (bytes32_bytes s c) as [-> ?]. split; [lia|done].
  - intros n data s c p left w Q Hm Hd Hp Hleft Hc Hdis HQ. unfold ucs_4_convert_from_ucs.
    unfold encode32, ucs_valid in HQ.
    destruct (surrogate c || _ || _ || _); cbn [negb] in HQ; [by wp_steps|].
    cbn [with_state] in HQ. rewrite (proj1 (bytes32_bytes s c)) in HQ.
    change (Z.of_nat 4) with 4 in HQ. destruct (Z.ltb_spec left 4); [by wp_steps|].
    wp_step. eapply wp_load_order; [exact Hd|].
    rewrite written_id in HQ.
    { assert (H4 := wp_encode32 n s c p left w Q Hp ltac:(lia) Hc HQ). by destruct s. }
    apply bytes_store_out; [done|]. rewrite (proj1 (bytes32_bytes s c)), (proj1 (order_data_ok s)).
    unfold disjoint_ranges in *. lia.
Defined.

#[export] Instance ucs_4_internal_decoder : decoder ucs_4_internal_convert_to_ucs.
Proof.
  refine {| dec_state := unit; dec_size := 0; dec_data _ := [];
    decode s l := (s, decode32 ucs4_internal_valid LittleEndian l) |}.
  - done.
  - intros s l s' c k Hl [= _ H]. by eapply decode32_char, H; [apply ucs4_internal_lt|].
  - intros n data s p l w Q Hm _ Hl Hne _ HQ. cbn [fst snd] in HQ. rewrite written_nil in HQ.
    unfold ucs_4_internal_convert_to_ucs. destruct (Z.ltb_spec (zlen l) 4) as [Hs|Hs].
    { destruct l as [|a [|b [|c [|d l]]]]; cbn [length] in Hs; try lia; by wp_steps. }
    exact (wp_decode32 n (fun c => 0x7FFFFFFF <? c) LittleEndian p l w Q Hm Hl ltac:(lia) HQ).
Defined.

#[export] Instance ucs_4_internal_encoder : encoder ucs_4_internal_convert_from_ucs.
Proof.
  refine {| enc_state := unit; enc_size := 0; enc_data _ := [];
    encode s c := with_state s (encode32 ucs4_internal_valid LittleEndian c) |}.
  - done.
  - intros s c o s' H. unfold encode32 in H. destruct (ucs4_internal_valid c) eqn:Hv; [|done].
    injection H as <- _. split; [cbn; lia|]. intros _. apply (bytes32_bytes LittleEndian).
  - intros n data s c p left w Q Hm _ Hp Hleft Hc _ HQ. unfold ucs_4_internal_convert_from_ucs.
    unfold encode32, ucs4_internal_valid in HQ.
    destruct (0x7FFFFFFF <? c); cbn [negb] in HQ; [by wp_steps|].
    cbn [with_state] in HQ. rewrite (proj1 (bytes32_bytes LittleEndian c)), written_nil in HQ.
    change (Z.of_nat 4) with 4 in HQ. destruct (Z.ltb_spec left 4); [by wp_steps|].
    exact (wp_encode32 n LittleEndian c p left w Q Hp ltac:(lia) Hc HQ).
Defined.

Definition ucs2_internal_valid (c : Z) : bool := negb (0xFFFF <? c).

#[export] Instance ucs_2_internal_decoder : decoder ucs_2_internal_convert_to_ucs.
Proof.
  refine {| dec_state := unit; dec_size := 0; dec_data _ := [];
    decode s l := (s, decode16 ucs2_internal_valid LittleEndian l) |}.
  - done.
  - intros s l s' c k Hl [= _ H]. by eapply decode16_char.
  - intros n data s p l w Q Hm _ Hl Hne _ HQ. cbn [fst snd] in HQ. rewrite written_nil in HQ.
    unfold ucs_2_internal_convert_to_ucs. assert (Hr := mem_ok_range _ _ _ Hm Hl Hne).
    destruct l as [|a [|b l]]; [done|by wp_steps|].
    rewrite (proj2 (Z.ltb_ge _ _)) by (cbn [length]; lia). wp_step.
    eapply wp_load16; [by destruct Hl as (? & ? & _)|].
    cbn [decode16 unit16] in HQ. unfold ucs2_internal_valid in HQ.
    destruct (0xFFFF <? _); cbn [negb] in HQ; wp_steps; [done|].
    by rewrite u32_small by (cbn [length] in *; lia).
Defined.

#[export] Instance ucs_2_internal_encoder : encoder ucs_2_internal_convert_from_ucs.
Proof.
  refine {| enc_state := unit; enc_size := 0; enc_data _ := [];
    encode s c := with_state s (encode16 ucs2_internal_valid LittleEndian c) |}.
  - done.
  - intros s c o s' H. unfold encode16, ucs2_internal_valid in H.
    destruct (Z.ltb_spec 0xFFFF c); [done|]. injection H as <- _. split; [cbn; lia|].
    intros Hc. apply (bytes16_bytes LittleEndian). lia.
  - intros n data s c p left w Q Hm _ Hp Hleft Hc _ HQ. unfold ucs_2_internal_convert_from_ucs.
    unfold encode16, ucs2_internal_valid in HQ.
    destruct (Z.ltb_spec 0xFFFF c); cbn [negb] in HQ; [by wp_steps|].
    cbn [with_state] in HQ. rewrite (proj1 (bytes16_bytes LittleEndian c ltac:(lia))), written_nil in HQ.
    change (Z.of_nat 2) with 2 in HQ. destruct (Z.ltb_spec left 2); [by wp_steps|].
    wp_step. rewrite u16_small by lia. change c with (swap16 LittleEndian c).
    apply wp_store16_unit; [eapply mapped_sub; [done|lia..]|cbn; lia|]. wp_steps.
    by rewrite u32_small by lia.
Defined.

(** ** utf-16.c *)

(** The states of the reader (before and after the byte order is known) and of
    the writer (a fixed order, or the system's with a mark written first). *)
Inductive utf16_in := Undefined | Known (o : byte_order).
Inductive utf16_out := Fixed (o : byte_order) | System | SystemWritten.

Definition order_code (o : byte_order) : Z :=
  match o with BigEndian => UTF16_BIG_ENDIAN | LittleEndian => UTF16_LITTLE_ENDIAN end.
Definition in_code (s : utf16_in) : Z :=
  match s with Undefined => UTF16_UNDEFINED | Known o => order_code o end.
Definition out_code (s : utf16_out) : Z :=
  match s with Fixed o => order_code o | System => UTF16_SYSTEM_ENDIAN | SystemWritten => 12 end.
Definition out_order (s : utf16_out) : byte_order :=
  match s with Fixed o => o | _ => LittleEndian end.

(** A character after a mark of [off] bytes. *)
Definition utf16_char (o : byte_order) (off : nat) (l : list Z) : decoded :=
  match l with
  | a :: b :: r =>
      let w1 := unit16 o a b in
      if surrogate w1 then
        match r with
        | c :: d :: _ =>
            if 0xDBFF <? w1 then DInvalid else
            let w2 := unit16 o c d in
            if (w2 <? 0xDC00) || (0xDFFF <? w2) then DInvalid
            else DChar ((w1 - 0xD800) * 1024 + (w2 - 0xDC00) + 0x10000) (off + 4)
        | _ => DBad
        end
      else if (w1 =? 0xFFFF) || (w1 =? 0xFFFE) then DInvalid else DChar w1 (off + 2)
  | _ => DBad
  end.

Definition utf16_decode (s : utf16_in) (l : list Z) : utf16_in * decoded :=
  match s, l with
  | Known o, _ => (s, utf16_char o 0 l)
  | Undefined, a :: b :: r =>
      let u := unit16 LittleEndian a b in
      let o := if u =? UTF16_BOM then LittleEndian else BigEndian in
      (Known o,
       if (u =? 0xFFFE) || (u =? UTF16_BOM) then
         if (length l <? 4)%nat then DBad else utf16_char o 2 r
       else utf16_char o 0 l)
  | Undefined, _ => (Undefined, DBad)
  end.

Definition utf16_valid (c : Z) : bool :=
  negb ((0x10FFFF <? c) || surrogate c || (c =? 0xFFFF) || (c =? 0xFFFE)).
Definition utf16_units (o : byte_order) (c : Z) : list Z :=
  if c <? 0x10000 then bytes16 o c
  else bytes16 o (0xD800 + (c - 0x10000) / 1024) ++ bytes16 o (0xDC00 + (c - 0x10000) mod 1024).
Definition utf16_encode (s : utf16_out) (c : Z) : option (list Z * utf16_out) :=
  if utf16_valid c then
    Some match s with
    | System => (bytes16 LittleEndian UTF16_BOM ++ utf16_units LittleEndian c, SystemWritten)
    | _ => (utf16_units (out_order s) c, s)
    end
  else None.

Lemma land_1023 x : Z.land x 0x3FF = x mod 1024.
Proof. apply (Z.land_ones x 10). lia. Qed.

Lemma lor_surrogate x d : 0 <= x < 1024 -> Z.lor x (d * 1024) = d * 1024 + x.
Proof. intros Hx. rewrite Z.lor_comm. change 1024 with (2 ^ 10). apply lor_disjoint; lia. Qed.

Lemma utf16_units_ok o c : 0 <= c <= 0x10FFFF ->
  length (utf16_units o c) = (if c <? 0x10000 then 2%nat else 4%nat) /\
  Forall (fun b => is_byte b) (utf16_units o c).
Proof.
  intros Hc. unfold utf16_units. destruct (Z.ltb_spec c 0x10000).
  - apply bytes16_bytes. lia.
  - destruct (bytes16_bytes o (0xD800 + (c - 0x10000) / 1024)) as [H1 H2]; [lia|].
    destruct (bytes16_bytes o (0xDC00 + (c - 0x10000) mod 1024)) as [H3 H4]; [lia|].
    rewrite length_app, H1, H3. split; [done|]. by apply Forall_app.
Qed.

(** The writer of a unit in the states that write. *)
Lemma wp_utf_16_put n s p c w (Q : unit -> world -> Prop) :
  s <> System -> mapped (w_mem w) p 2 -> 0 <= c < 65536 ->
  Q tt (written p (bytes16 (out_order s) c) w) ->
  wp n (utf_16_put (out_code s) p c) w Q.
Proof.
  intros Hs Hm Hc HQ. assert (H := wp_store16_unit n p (out_order s) c w Q Hm Hc HQ).
  by destruct s as [[]| |].
Qed.

Lemma wp_utf_16_units n s p c w (Q : unit -> world -> Prop) :
  s <> System -> 0 <= c <= 0x10FFFF ->
  mapped (w_mem w) p (zlen (utf16_units (out_order s) c)) ->
  Q tt (written p (utf16_units (out_order s) c) w) ->
  wp n (if c <? 0x10000 then utf_16_put (out_code s) p c else
    let in_ := c - 0x10000 in
    let w1 := Z.lor (Z.land (u16 (Z.shiftr in_ 10)) 0x03FF) 0xD800 in
    let w2 := Z.lor (Z.land in_ 0x3FF) 0xDC00 in
    utf_16_put (out_code s) p w1 ;; utf_16_put (out_code s) (p + 2) w2) w Q.
Proof.
  intros Hs Hc Hm HQ. assert (Hlen := proj1 (utf16_units_ok (out_order s) c Hc)).
  rewrite Hlen in Hm. unfold utf16_units in HQ.
  destruct (Z.ltb_spec c 0x10000); [by apply wp_utf_16_put; [..|lia|]|].
  cbv zeta. rewrite !land_1023, Z.shiftr_div_pow2, u16_small by lia. change (2 ^ 10) with 1024.
  change 0xD800 with (54 * 1024). change 0xDC00 with (55 * 1024). rewrite !lor_surrogate by lia.
  change (54 * 1024) with 0xD800. change (55 * 1024) with 0xDC00.
  replace ((c - 65536) / 1024 mod 1024) with ((c - 65536) / 1024) by lia.
  set (u1 := 0xD800 + (c - 65536) / 1024) in *. set (u2 := 0xDC00 + (c - 65536) mod 1024) in *.
  wp_step. apply wp_utf_16_put; [done|eapply mapped_sub; [done|lia..]|lia|].
  rewrite <-written_app in HQ. rewrite (proj1 (bytes16_bytes _ u1 ltac:(lia))) in HQ.
  apply wp_utf_16_put; [done|apply mapped_store; eapply mapped_sub; [done|lia..]|lia|exact HQ].
Qed.

Lemma out_code_range s : 0 <= out_code s < 4294967296.
Proof. by destruct s as [[]| |]. Qed.

Lemma le_bytes_ok x : length (le_bytes x) = 4%nat /\ Forall (fun b => is_byte b) (le_bytes x).
Proof.
  split; [done|]. unfold le_bytes. rewrite !Forall_cons. split_and!; [apply byte_of_range..|done].
Qed.

Lemma utf16_bom : bytes16 LittleEndian UTF16_BOM = [0xFF; 0xFE].
Proof. reflexivity. Qed.

#[export] Instance utf_16_encoder : encoder utf_16_convert_from_ucs.
Proof.
  refine {| enc_state := utf16_out; enc_size := 4; enc_data s := le_bytes (out_code s);
    encode := utf16_encode; enc_data_ok s := le_bytes_ok (out_code s) |}.
  - intros s c o s' H. unfold utf16_encode, utf16_valid in H.
    destruct ((0x10FFFF <? c) || _ || _ || _) eqn:Hv; [done|]. b2p.
    assert (Ho : o = match s with System => [0xFF; 0xFE] | _ => [] end ++ utf16_units (out_order s) c).
    { rewrite <-utf16_bom. destruct s; by injection H as <- _. }
    assert (Hu : (2 <= length (utf16_units (out_order s) c) <= 4)%nat).
    { unfold utf16_units. destruct (c <? 0x10000), (out_order s); cbn [bytes16 app length]; lia. }
    split; [destruct s; subst o; rewrite length_app; cbn [length]; lia|]. intros Hc. subst o.
    apply Forall_app. split; [|by apply utf16_units_ok; lia].
    destruct s; rewrite ?Forall_cons; (split_and!; done || lia) || done.
  - intros n data s c p left w Q Hm Hd Hp Hleft Hc Hdis HQ. unfold utf_16_convert_from_ucs.
    unfold utf16_encode, utf16_valid in HQ.
    destruct ((0x10FFFF <? c) || _ || _ || _) eqn:Hv; cbn [negb] in HQ; [by wp_steps|]. b2p.
    wp_step. eapply wp_load32_le; [exact Hd|apply out_code_range|].
    assert (Hul := proj1 (utf16_units_ok (out_order s) c ltac:(lia))).
    set (u := utf16_units (out_order s) c) in *.
    unfold disjoint_ranges in Hdis.
    assert (Hs : s = System \/ s <> System) by (destruct s; auto).
    destruct Hs as [->|Hs].
    + cbn [out_code]. change (UTF16_SYSTEM_ENDIAN =? UTF16_SYSTEM_ENDIAN) with true. cbv iota.
      cbn [out_order] in *. rewrite length_app in HQ. fold u in HQ. rewrite Hul in HQ.
      replace (Z.of_nat (length (bytes16 LittleEndian UTF16_BOM) + (if c <? 0x10000 then 2 else 4)))
        with (if 0xFFFF <? c then 4 + 2 else 4) in HQ.
      2: { destruct (Z.ltb_spec 0xFFFF c), (Z.ltb_spec c 0x10000); cbn; lia. }
      assert (Hu2 : zlen u = (if 0xFFFF <? c then 4 else 2)).
      { rewrite Hul. destruct (Z.ltb_spec 0xFFFF c), (Z.ltb_spec c 0x10000); lia. }
      destruct (left <? _) eqn:Hsp; [by wp_steps|]. b2p.
      assert (Hsz : 2 + zlen u <= left) by (rewrite Hu2; destruct (0xFFFF <? c); lia).
      wp_steps. apply wp_store16; [eapply mapped_sub; [exact Hp|lia..]|].
      change [UTF16_BOM mod 256; UTF16_BOM / 256 mod 256] with (bytes16 LittleEndian UTF16_BOM).
      assert (Hd4 : mapped (w_mem w) data 4) by (apply (bytes_mapped _ _ _ Hd)).
      wp_steps. change (Z.lor UTF16_SYSTEM_ENDIAN UTF16_BOM_WRITTEN) with 12.
      apply wp_store32_le; [by apply mapped_store|done|].
      wp_steps. eapply wp_load32_le; [apply bytes_store_same|done|]. wp_step.
      change 12 with (out_code SystemWritten). apply wp_utf_16_units; [done|lia| |].
      { cbn [out_order set_mem w_mem]. fold u. apply mapped_store. cbn [w_mem set_mem].
        apply mapped_store. eapply mapped_sub; [exact Hp|lia..]. }
      cbn [out_order]. fold u. wp_steps. rewrite u32_small by (destruct (0xFFFF <? c); lia).
      eqapply HQ. rewrite <-written_app. change (zlen (bytes16 LittleEndian UTF16_BOM)) with 2.
      fold (written data (le_bytes (out_code SystemWritten)) (written p (bytes16 LittleEndian UTF16_BOM) w)).
      apply written_comm. unfold disjoint_ranges. cbn [le_bytes length]. lia.
    + assert (Hns : (out_code s =? UTF16_SYSTEM_ENDIAN) = false) by (by destruct s as [[]| |]).
      rewrite Hns. replace (match s with System => _ | _ => _ end) with (u, s) in HQ by (by destruct s).
      rewrite Hul in HQ.
      replace (Z.of_nat (if c <? 0x10000 then 2 else 4)) with (if 0xFFFF <? c then 2 + 2 else 2) in HQ
        by (destruct (Z.ltb_spec 0xFFFF c), (Z.ltb_spec c 0x10000); lia).
      assert (Hu2 : zlen u = (if 0xFFFF <? c then 2 + 2 else 2)).
      { rewrite Hul. destruct (Z.ltb_spec 0xFFFF c), (Z.ltb_spec c 0x10000); lia. }
      destruct (left <? _) eqn:Hsp; [by wp_steps|]. b2p. rewrite <-Hu2 in *.
      wp_steps. eapply wp_load32_le; [exact Hd|apply out_code_range|]. wp_step.
      apply wp_utf_16_units; [done|lia|eapply mapped_sub; [exact Hp|fold u; lia..]|]. fold u.
      wp_steps. rewrite written_id in HQ; [by rewrite u32_small by lia|].
      apply bytes_store_out; [done|]. unfold disjoint_ranges. cbn [le_bytes length]. lia.
Defined.

Lemma order_code_range o : 0 <= order_code o < 4294967296.
Proof. by destruct o. Qed.

Lemma wp_utf_16_get n o p a b w (Q : Z -> world -> Prop) :
  bytes (w_mem w) p [a; b] -> is_byte a -> is_byte b ->
  Q (unit16 o a b) w -> wp n (utf_16_get (order_code o) p) w Q.
Proof.
  intros Hb Ha Hb8 HQ. unfold utf_16_get. wp_step. eapply wp_load16; [exact Hb|]. wp_step.
  rewrite <-swap16_unit in HQ by done. by destruct o.
Qed.

Lemma surrogate_bits w1 : surrogate w1 = true -> (0xDBFF <? w1) = false ->
  Z.land w1 0x3FF = w1 - 0xD800.
Proof. unfold surrogate. intros. b2p. rewrite land_1023. lia. Qed.

(** The code after the byte order is known, for a character at [p + off]. *)
Lemma wp_utf_16_char n data o (off : nat) cp bytes' p l w (Q : Z * Z * Z -> world -> Prop) :
  mem_ok (w_mem w) -> bytes (w_mem w) data (le_bytes (order_code o)) ->
  cp = p + Z.of_nat off -> bytes' = Z.of_nat off + 2 ->
  bytes (w_mem w) p l -> (off + 2 <= length l)%nat ->
  Q (to_result p l (utf16_char o off (drop off l))) w ->
  wp n (state ← load32 data;
    w1 ← utf_16_get state cp;
    '(res, bytes) ⇐
      (if (w1 <? 0xD800) || (0xDFFF <? w1) then
         if (w1 =? 0xFFFF) || (w1 =? 0xFFFE)
         then return_ (ICONV_CES_INVALID_CHARACTER, p, zlen l)
         else fall (w1, bytes')
       else
         let bytes := bytes' + 2 in
         if zlen l <? bytes then return_ (ICONV_CES_BAD_SEQUENCE, p, zlen l) else
         if 0xDBFF <? w1 then return_ (ICONV_CES_INVALID_CHARACTER, p, zlen l) else
         w2 ← utf_16_get state (cp + 2);
         if (w2 <? 0xDC00) || (0xDFFF <? w2)
         then return_ (ICONV_CES_INVALID_CHARACTER, p, zlen l) else
         fall (Z.lor (Z.land w2 0x3FF) (Z.shiftl (Z.land w1 0x3FF) 10) + 0x10000, bytes));
    mret (res, p + bytes, u32 (zlen l - bytes))) w Q.
Proof.
  intros Hm Hd -> -> Hl Hlen HQ.
  assert (Hr := mem_ok_range _ _ _ Hm Hl ltac:(by destruct l; cbn in Hlen; [lia|])).
  assert (Hb := mem_ok_bytes _ _ _ Hm Hl).
  assert (Hdl : zlen l = Z.of_nat off + zlen (drop off l)) by (rewrite length_drop; lia).
  rewrite <-(take_drop off l) in Hl, Hb. apply bytes_app in Hl as [_ Hl]. apply Forall_app in Hb as [_ Hb].
  rewrite length_take, Nat.min_l in Hl by lia.
  destruct (drop off l) as [|a [|b r]]; cbn [length] in Hdl; [lia..|].
  rewrite !Forall_cons in Hb. destruct_and!.
  wp_step. eapply wp_load32_le; [exact Hd|apply order_code_range|]. wp_step.
  destruct Hl as (Hl1 & Hl2 & Hl). apply (wp_utf_16_get n o _ a b); [done..|].
  cbn [utf16_char] in HQ. set (w1 := unit16 o a b) in *.
  assert (Hs : (w1 <? 0xD800) || (0xDFFF <? w1) = negb (surrogate w1)).
  { unfold surrogate. destruct (Z.ltb_spec w1 0xD800), (Z.ltb_spec 0xDFFF w1), (Z.leb_spec 0xD800 w1),
      (Z.leb_spec w1 0xDFFF); cbn; lia || done. }
  rewrite Hs. destruct (surrogate w1) eqn:Es; cbn [negb].
  - destruct r as [|c [|d r]]; cbn [length] in Hdl; wp_step.
    1, 2: rewrite (proj2 (Z.ltb_lt _ _)) by lia; by wp_steps.
    rewrite (proj2 (Z.ltb_ge _ _)) by lia. rewrite !Forall_cons in *. destruct_and!.
    destruct (0xDBFF <? w1) eqn:E1; [by wp_steps|]. wp_step.
    destruct Hl as (Hl3 & Hl4 & _). replace (p + Z.of_nat off + 1 + 1) with (p + Z.of_nat off + 2) in * by lia.
    apply (wp_utf_16_get n o _ c d); [done..|]. set (w2 := unit16 o c d) in *.
    destruct ((w2 <? 0xDC00) || (0xDFFF <? w2)) eqn:E2; [by wp_steps|]. wp_steps.
    rewrite (surrogate_bits w1), land_1023 by done.
    rewrite Z.shiftl_mul_pow2, Z.lor_comm, lor_disjoint by (b2p; lia). change (2 ^ 10) with 1024.
    rewrite u32_small by lia. eqapply HQ. cbn [to_result].
    replace (Z.of_nat off + 2 + 2) with (Z.of_nat (off + 4)) by lia.
    repeat f_equal; fold w1; b2p; lia.
  - wp_step. destruct ((w1 =? 0xFFFF) || (w1 =? 0xFFFE)); wp_steps; [done|].
    rewrite u32_small by lia. eqapply HQ. cbn [to_result].
    by replace (Z.of_nat off + 2) with (Z.of_nat (off + 2)) by lia.
Qed.

Lemma utf16_char_some o off l c k : Forall (fun b => is_byte b) l ->
  utf16_char o off l = DChar c k -> (off < k <= off + length l)%nat /\ ucs4 c.
Proof.
  destruct l as [|a [|b r]]; try done. rewrite !Forall_cons. intros (Ha & Hb & Hr).
  cbn [utf16_char length]. assert (H1 := unit16_range o a b Ha Hb).
  destruct (surrogate _) eqn:Es.
  - destruct r as [|x [|y r]]; try done. rewrite !Forall_cons in Hr. destruct_and!.
    assert (Hr2 := unit16_range o x y ltac:(done) ltac:(done)).
    destruct (0xDBFF <? _); [done|]. destruct ((_ <? 0xDC00) || _) eqn:E; [done|].
    unfold surrogate in Es. b2p. intros [= <- <-]. cbn [length]. lia.
  - destruct (_ || _); [done|]. intros [= <- <-]. lia.
Qed.

#[export] Instance utf_16_decoder : decoder utf_16_convert_to_ucs.
Proof.
  refine {| dec_state := utf16_in; dec_size := 4; dec_data s := le_bytes (in_code s);
    decode := utf16_decode; dec_data_ok s := le_bytes_ok (in_code s) |}.
  - intros s l s' c k Hl H. apply (f_equal snd) in H. cbn [snd] in H.
    destruct s as [|o]; cbn [utf16_decode] in H.
    2: { cbn [snd] in H. apply utf16_char_some in H; [lia|done]. }
    destruct l as [|a [|b r]]; [done..|]. cbn [snd] in H.
    destruct (_ || _); [case_match; [done|]|].
    + apply utf16_char_some in H; [cbn [length] in *; lia|]. rewrite !Forall_cons in Hl. tauto.
    + apply utf16_char_some in H; [lia|done].
  - intros n data s p l w Q Hm Hd Hl Hne Hdis HQ.
    assert (Hr := mem_ok_range _ _ _ Hm Hl Hne). unfold utf_16_convert_to_ucs.
    destruct (Z.ltb_spec (zlen l) 2) as [Hs|Hs].
    { rewrite written_id in HQ; [|destruct s as [|o]; [|done]].
      - destruct s as [|o]; destruct l as [|a [|b l]]; cbn [length] in Hs; try done; try lia; by wp_steps.
      - destruct l as [|a [|b l]]; cbn [length] in Hs; try lia; done. }
    wp_step. eapply wp_load32_le; [exact Hd|by destruct s as [|[]]|]. destruct s as [|o]; cbn [in_code].
    2: { replace (order_code o =? UTF16_UNDEFINED) with false by (by destruct o). do 2 wp_step.
         cbn [utf16_decode fst snd] in HQ. rewrite written_id in HQ by done.
         apply (wp_utf_16_char n data o 0 _ _ p l); [done|done|lia|done|done|lia|done]. }
    change (UTF16_UNDEFINED =? UTF16_UNDEFINED) with true. cbv iota.
    destruct l as [|a [|b r]]; cbn [length] in Hs; [lia..|].
    destruct Hl as (Hl1 & Hl2 & Hl3). assert (Hb := mem_ok_bytes _ _ (a :: b :: r) Hm (conj Hl1 (conj Hl2 Hl3))).
    cbn [utf16_decode fst snd] in HQ. set (u := unit16 LittleEndian a b) in *.
    set (o := if u =? UTF16_BOM then LittleEndian else BigEndian) in *.
    wp_steps. eapply wp_load16; [done|]. change (a + 256 * b) with u. wp_steps.
    assert (Hd4 : mapped (w_mem w) data 4) by (apply (bytes_mapped _ _ _ Hd)).
    replace (if u =? ICONV_HTOLES UTF16_BOM then _ else _) with (store32 data (order_code o))
      by (unfold o, ICONV_HTOLES, ICONV_LETOHS; by destruct (u =? UTF16_BOM)).
    apply wp_store32_le; [done|apply order_code_range|].
    fold (written data (le_bytes (order_code o)) w). set (w' := written data (le_bytes (order_code o)) w) in *.
    assert (Hm' : mem_ok (w_mem w')) by (apply mem_ok_store; [done|exact Hd4|apply le_bytes_ok]).
    assert (Hd' : bytes (w_mem w') data (le_bytes (order_code o))) by apply bytes_store_same.
    assert (Hl' : bytes (w_mem w') p (a :: b :: r)).
    { apply bytes_store_out; [by split_and!|]. exact Hdis. }
    change (ICONV_HTOBES UTF16_BOM) with 0xFFFE. change (ICONV_HTOLES UTF16_BOM) with UTF16_BOM.
    destruct ((u =? 0xFFFE) || (u =? UTF16_BOM)).
    + destruct (Nat.ltb_spec (length (a :: b :: r)) 4) as [H4|H4].
      { rewrite (proj2 (Z.ltb_lt _ _)) by lia. by wp_steps. }
      rewrite (proj2 (Z.ltb_ge _ _)) by lia. wp_step.
      apply (wp_utf_16_char n data o 2 _ _ p (a :: b :: r)); [done|done|lia|done|done|lia|done].
    + wp_step.
      apply (wp_utf_16_char n data o 0 _ _ p (a :: b :: r));
        [done|done|lia|done|done|cbn [length]; lia|done].
Defined.

(** ** The conversion loop *)

(** What a conversion does: the bytes it writes, the number of input bytes it
    takes, the count of substitutions, the error, the states it leaves. *)
Record conversion {S1 S2 : Type} := Conversion {
  cv_out : list Z; cv_used : nat; cv_res : Z; cv_err : option Z; cv_to : S1; cv_from : S2;
}.
Arguments conversion : clear implicits.

Definition cv_prepend {S1 S2} (j : nat) (o : list Z) (r : conversion S1 S2) : conversion S1 S2 :=
  Conversion _ _ (o ++ cv_out r) (j + cv_used r) (cv_res r) (cv_err r) (cv_to r) (cv_from r).

Section transcode.
Context {to_conv} {TO : decoder to_conv} {from_conv} {FROM : encoder from_conv}.
Implicit Types (l : list Z) (left res : Z).

(** The conversion of [l] into [left] bytes of space. *)
Fixpoint transcode (k : nat) (fail : bool) (s1 : dec_state) (s2 : enc_state) l left res : conversion dec_state enc_state :=
  match k, l with
  | O, _ | _, [] => Conversion _ _ [] 0 res None s1 s2
  | S k', _ =>
      if left =? 0 then Conversion _ _ [] 0 res (Some E2BIG) s1 s2 else
      match decode s1 l with
      | (s1', DBad) => Conversion _ _ [] 0 res (Some EINVAL) s1' s2
      | (s1', DInvalid) => Conversion _ _ [] 0 res (Some EILSEQ) s1' s2
      | (s1', DChar c j) =>
          match encode s2 c with
          | Some (o, s2') =>
              if left <? zlen o then Conversion _ _ [] 0 res (Some E2BIG) s1' s2
              else cv_prepend j o (transcode k' fail s1' s2' (drop j l) (left - zlen o) res)
          | None =>
              if fail then Conversion _ _ [] j res (Some EILSEQ) s1' s2 else
              match encode s2 DEFAULT_CHARACTER with
              | None => Conversion _ _ [] j res (Some E2BIG) s1' s2
              | Some (o, s2') =>
                  if left <? zlen o
                  then cv_prepend j [] (transcode k' fail s1' s2 (drop j l) left (u32 (res + 1)))
                  else cv_prepend j o
                    (transcode k' fail s1' s2' (drop j l) (left - zlen o) (u32 (res + 1)))
              end
          end
      end
  end.

Definition with_errno (e : option Z) (w : world) : world :=
  match e with Some e => set_reent (set_errno e (w_reent w)) w | None => w end.

Lemma transcode_out k fail s1 s2 l left res :
  0 <= left -> zlen (cv_out (transcode k fail s1 s2 l left res)) <= left.
Proof.
  revert s1 s2 l left res. induction k as [|k IH]; intros s1 s2 [|b l] left res Hleft; try (cbn; lia).
  cbn [transcode]. destruct (left =? 0); [cbn; lia|].
  destruct (decode s1 (b :: l)) as [s1' [c j| |]]; [|cbn; lia..].
  destruct (encode s2 c) as [[o s2']|] eqn:E.
  - destruct (Z.ltb_spec left (zlen o)); [cbn; lia|]. cbn [cv_prepend cv_out].
    rewrite length_app, Nat2Z.inj_add. specialize (IH s1' s2' (drop j (b :: l)) (left - zlen o) res).
    lia.
  - destruct fail; [cbn; lia|]. destruct (encode s2 DEFAULT_CHARACTER) as [[o s2']|].
    2: { cbn. lia. }
    destruct (Z.ltb_spec left (zlen o)); cbn [cv_prepend cv_out app]; [by apply IH|].
    rewrite length_app, Nat2Z.inj_add.
    specialize (IH s1' s2' (drop j (b :: l)) (left - zlen o) (u32 (res + 1))). lia.
Qed.

(** A conversion at [p], [l] to [q], [left] with converter data at [d1] and [d2]. *)
Record converting w d1 s1 d2 s2 p l q left : Prop := {
  cvt_ok : mem_ok (w_mem w);
  cvt_d1 : bytes (w_mem w) d1 (dec_data s1);
  cvt_d2 : bytes (w_mem w) d2 (enc_data s2);
  cvt_in : bytes (w_mem w) p l;
  cvt_out : mapped (w_mem w) q left;
  cvt_left : 0 <= left < 4294967296;
  cvt_d12 : disjoint_ranges d1 (Z.of_nat dec_size) d2 (Z.of_nat enc_size);
  cvt_d1p : disjoint_ranges d1 (Z.of_nat dec_size) p (zlen l);
  cvt_d1q : disjoint_ranges d1 (Z.of_nat dec_size) q left;
  cvt_d2p : disjoint_ranges d2 (Z.of_nat enc_size) p (zlen l);
  cvt_d2q : disjoint_ranges d2 (Z.of_nat enc_size) q left;
  cvt_pq : disjoint_ranges p (zlen l) q left;
}.

(** The state after a character of [j] bytes has been read and [o] written. *)
Lemma converting_step w d1 s1 d2 s2 p l q left j s1' o s2' :
  converting w d1 s1 d2 s2 p l q left -> (j <= length l)%nat -> zlen o <= left ->
  Forall (fun b => is_byte b) o ->
  converting (written d2 (enc_data s2') (written q o (written d1 (dec_data s1') w)))
    d1 s1' d2 s2' (p + Z.of_nat j) (drop j l) (q + zlen o) (left - zlen o).
Proof.
  intros [Hm Hd1 Hd2 Hp Hq Hl H12 H1p H1q H2p H2q Hpq] Hj Ho Hb.
  destruct (dec_data_ok s1) as [L1 _], (dec_data_ok s1') as [L1' B1], (enc_data_ok s2) as [L2 _],
    (enc_data_ok s2') as [L2' B2].
  assert (M1 := bytes_mapped _ _ _ Hd1). assert (M2 := bytes_mapped _ _ _ Hd2).
  unfold disjoint_ranges in *. unfold written. split; cbn [set_mem w_mem].
  - repeat apply mem_ok_store; repeat apply mapped_store; rewrite ?L1', ?L2', <-?L1, <-?L2; try done.
    eapply mapped_sub; [exact Hq|lia..].
  - do 2 (apply bytes_store_out; [|unfold disjoint_ranges; lia]). apply bytes_store_same.
  - apply bytes_store_same.
  - rewrite <-(take_drop j l) in Hp. apply bytes_app in Hp as [_ Hp]. rewrite length_take, Nat.min_l in Hp by lia.
    do 3 (apply bytes_store_out; [|unfold disjoint_ranges; rewrite length_drop; lia]). done.
  - repeat apply mapped_store. eapply mapped_sub; [exact Hq|lia..].
  - lia.
  - done.
  - unfold disjoint_ranges. rewrite length_drop. lia.
  - unfold disjoint_ranges. lia.
  - unfold disjoint_ranges. rewrite length_drop. lia.
  - unfold disjoint_ranges. lia.
  - unfold disjoint_ranges. rewrite length_drop. lia.
Qed.

(** The writes of an iteration and of the rest of the conversion. *)
Lemma conversion_world w d1 s1 d2 s2 p l q left s1' o s2' s1'' o' s2'' :
  converting w d1 s1 d2 s2 p l q left -> zlen o + zlen o' <= left ->
  written d1 (dec_data s1'') (written d2 (enc_data s2'') (written (q + zlen o) o'
    (written d2 (enc_data s2') (written q o (written d1 (dec_data s1') w))))) =
  written d1 (dec_data s1'') (written d2 (enc_data s2'') (written q (o ++ o') w)).
Proof.
  intros [Hm Hd1 Hd2 Hp Hq Hl H12 H1p H1q H2p H2q Hpq] Ho. unfold disjoint_ranges in *.
  assert (L1 := fun s => proj1 (dec_data_ok s)). assert (L2 := fun s => proj1 (enc_data_ok s)).
  rewrite (written_comm (q + zlen o)) by (unfold disjoint_ranges; rewrite L2; lia).
  rewrite written_app, written_over by (by rewrite !L2).
  rewrite (written_comm q) by (unfold disjoint_ranges; rewrite L1, length_app; lia).
  rewrite (written_comm d2) by (unfold disjoint_ranges; rewrite L1, L2; lia).
  by rewrite written_over by (by rewrite !L1).
Qed.

(** Reading a character leaves the rest of the conversion in place. *)
Lemma converting_read w d1 s1 d2 s2 p l q left j s1' :
  converting w d1 s1 d2 s2 p l q left -> (j <= length l)%nat ->
  let w1 := written d1 (dec_data s1') w in
  w1 = written d2 (enc_data s2) (written q [] w1) /\
  converting w1 d1 s1' d2 s2 (p + Z.of_nat j) (drop j l) q left.
Proof.
  intros H Hj w1. assert (E : w1 = written d2 (enc_data s2) (written q [] w1)).
  { rewrite written_nil. symmetry. apply written_id. apply bytes_store_out; [apply H|].
    destruct H. unfold disjoint_ranges in *. by rewrite (proj1 (enc_data_ok s2)), (proj1 (dec_data_ok s1')). }
  split; [done|]. rewrite E.
  assert (H0 := converting_step w d1 s1 d2 s2 p l q left j s1' [] s2 H Hj).
  cbn [length] in H0. rewrite Z.add_0_r, Z.sub_0_r in H0. apply H0; [apply H|done].
Qed.

(** What a call returns, and the state it leaves. *)
Definition conversion_result {S T} p l q left (r : conversion S T) : conv_result :=
  (match cv_err r with Some _ => u32 (-1) | None => cv_res r end,
   (p + Z.of_nat (cv_used r), zlen l - Z.of_nat (cv_used r),
    q + zlen (cv_out r), left - zlen (cv_out r))).

Definition conversion_end w d1 d2 q (r : conversion dec_state enc_state) : world :=
  with_errno (cv_err r)
    (written d1 (dec_data (cv_to r)) (written d2 (enc_data (cv_from r)) (written q (cv_out r) w))).

(** A call that stops having written nothing. *)
Lemma conversion_stop w d1 s1 d2 s2 p l q left s1' j res e :
  converting w d1 s1 d2 s2 p l q left ->
  conversion_end w d1 d2 q (Conversion _ _ [] j res e s1' s2) =
    with_errno e (written d1 (dec_data s1') w).
Proof.
  intros H. unfold conversion_end. cbn [cv_err cv_to cv_from cv_out].
  by rewrite written_nil, (written_id d2) by apply H.
Qed.

Lemma conversion_same w d1 s1 d2 s2 p l q left e :
  converting w d1 s1 d2 s2 p l q left ->
  with_errno e (written d1 (dec_data s1) w) = with_errno e w.
Proof. intros H. by rewrite written_id by apply H. Qed.

Lemma prepend_result {S T} j o p l q left (r : conversion S T) :
  (j <= length l)%nat ->
  conversion_result (p + Z.of_nat j) (drop j l) (q + zlen o) (left - zlen o) r =
  conversion_result p l q left (cv_prepend j o r).
Proof.
  intros Hj. unfold conversion_result. cbn [cv_prepend cv_err cv_res cv_used cv_out].
  rewrite length_drop, length_app. flia.
Qed.

Lemma prepend_end w d1 s1 d2 s2 p l q left s1' o s2' j r :
  converting w d1 s1 d2 s2 p l q left -> zlen o + zlen (cv_out r) <= left ->
  conversion_end (written d2 (enc_data s2') (written q o (written d1 (dec_data s1') w)))
    d1 d2 (q + zlen o) r = conversion_end w d1 d2 q (cv_prepend j o r).
Proof.
  intros H Ho. unfold conversion_end. cbn [cv_prepend cv_err cv_to cv_from cv_out].
  by erewrite conversion_world.
Qed.

(** [cv_stop HQ] ends an iteration that leaves the loop, with [HQ] about the
    result and the state. *)
Ltac cv_stop HQ :=
  wp_steps; eqapply HQ; unfold conversion_result;
  cbn [cv_err cv_res cv_used cv_out length]; flia.

Lemma wp_transcode k k' n uc flags outbuf1 fail d1 d2 s1 s2 p l q left res w
    (Q : conv_result -> world -> Prop) :
  uc = UcsConversion (ToUcs to_conv) d1 (FromUcs from_conv) d2 ->
  Z.land flags ICONV_DONT_SAVE_BIT = 0 -> fail = negb (Z.land flags ICONV_FAIL_BIT =? 0) ->
  converting w d1 s1 d2 s2 p l q left -> (length l <= k)%nat -> (k < k')%nat ->
  let r := transcode k fail s1 s2 l left res in
  Q (conversion_result p l q left r) (conversion_end w d1 d2 q r) ->
  wp n (loop_k k' (ucs_based_conversion_step uc flags outbuf1) (res, (p, zlen l, q, left))) w Q.
Proof.
  intros -> Hsave -> HC Hk Hkk r HQ. unfold r in HQ. clear r. revert k' s1 s2 p l q left res w HC Hk Hkk HQ.
  induction k as [|k IH]; intros k' s1 s2 p l q left res w HC Hk Hkk HQ;
    (destruct k' as [|k']; [lia|]).
  { destruct l; [|cbn in Hk; lia]. wp_loop. cbn [transcode] in HQ. 
    erewrite conversion_stop, conversion_same in HQ by done. cbn [with_errno] in HQ.
    unfold ucs_based_conversion_step. cbn [length]. change (0 <? Z.of_nat 0) with false. cv_stop HQ. }
  wp_loop. unfold ucs_based_conversion_step at 1.
  cbn [to_ucs from_ucs to_ucs_data from_ucs_data convert_to_ucs convert_from_ucs].
  assert (Hl := cvt_left _ _ _ _ _ _ _ _ _ HC).
  destruct l as [|b t].
  { cbn [transcode] in HQ. erewrite conversion_stop, conversion_same in HQ by done. 
    cbn [length]. change (0 <? Z.of_nat 0) with false. cv_stop HQ. }
  rewrite (proj2 (Z.ltb_lt 0 _)) by (cbn [length]; lia).
  cbn [transcode] in HQ. set (l := b :: t) in *.
  assert (Hne : l <> []) by done. clearbody l. clear b t.
  destruct (left =? 0) eqn:E0.
  { erewrite conversion_stop, conversion_same in HQ by done. cv_stop HQ. }
  cbn [negb]. wp_step. eapply wp_decoder; [apply HC..|done|apply HC|].
  assert (Hlb := mem_ok_bytes _ _ _ (cvt_ok _ _ _ _ _ _ _ _ _ HC) (cvt_in _ _ _ _ _ _ _ _ _ HC)).
  destruct (decode s1 l) as [s1' d] eqn:Hd. cbn [fst snd] in *.
  set (w1 := written d1 (dec_data s1') w).
  destruct d as [c j| |]; cbn [to_result].
  2, 3: erewrite conversion_stop in HQ by done; fold w1 in HQ.
  2, 3: change (ICONV_CES_BAD_SEQUENCE =? ICONV_CES_BAD_SEQUENCE) with true;
    change (ICONV_CES_INVALID_CHARACTER =? ICONV_CES_BAD_SEQUENCE) with false;
    change (ICONV_CES_INVALID_CHARACTER =? ICONV_CES_INVALID_CHARACTER) with true.
  2, 3: cv_stop HQ.
  destruct (decode_char _ _ _ _ _ Hlb Hd) as [Hj Hc].
  rewrite (proj2 (Z.eqb_neq c ICONV_CES_BAD_SEQUENCE)) by (change ICONV_CES_BAD_SEQUENCE with 4294967294; lia).
  rewrite (proj2 (Z.eqb_neq c ICONV_CES_INVALID_CHARACTER)) by (change ICONV_CES_INVALID_CHARACTER with 4294967295; lia).
  destruct (converting_read _ _ _ _ _ _ _ _ _ j s1' HC ltac:(lia)) as [Ew1 HC1]. fold w1 in Ew1, HC1.
  rewrite Hsave. change (negb (0 =? 0)) with false. cbv iota zeta.
  set (fail := negb (Z.land flags ICONV_FAIL_BIT =? 0)) in *.
  assert (Hgo : forall o s2' res', zlen o <= left -> Forall (fun b => is_byte b) o ->
    (let r := cv_prepend j o (transcode k fail s1' s2' (drop j l) (left - zlen o) res') in
     Q (conversion_result p l q left r) (conversion_end w d1 d2 q r)) ->
    wp n (loop_k k' (ucs_based_conversion_step
        (UcsConversion (ToUcs to_conv) d1 (FromUcs from_conv) d2) flags outbuf1)
      (res', (p + Z.of_nat j, zlen l - Z.of_nat j, q + zlen o, left - zlen o)))
      (written d2 (enc_data s2') (written q o w1)) Q).
  { cbv zeta. intros o s2' res' Ho Hb H. replace (zlen l - Z.of_nat j) with (zlen (drop j l))
      by (rewrite length_drop; lia).
    eapply IH; [by eapply converting_step; [exact HC|lia|..]|rewrite length_drop; lia|lia|].
    rewrite prepend_result by lia. unfold w1. erewrite prepend_end; [exact H|exact HC|].
    pose proof (transcode_out k fail s1' s2' (drop j l) (left - zlen o) res'). lia. }
  wp_step. eapply wp_encoder; [apply HC1..|b2p; lia|done|apply HC1|].
  destruct (encode s2 c) as [[o s2']|] eqn:Henc.
  - destruct (encode_bytes _ _ _ _ Henc) as [Ho Hb]. destruct (Z.ltb_spec left (zlen o)) as [Hs|Hs].
    + erewrite conversion_stop in HQ by done. fold w1 in HQ.
      change (ICONV_CES_NOSPACE =? ICONV_CES_NOSPACE) with true. cv_stop HQ.
    + rewrite (proj2 (Z.eqb_neq _ ICONV_CES_NOSPACE)) by (change ICONV_CES_NOSPACE with 0; lia).
      rewrite (proj2 (Z.eqb_neq _ ICONV_CES_INVALID_CHARACTER))
        by (change ICONV_CES_INVALID_CHARACTER with 4294967295; lia).
      wp_steps. by apply Hgo; [..|apply Hb|].
  - change (ICONV_CES_INVALID_CHARACTER =? ICONV_CES_NOSPACE) with false.
    change (ICONV_CES_INVALID_CHARACTER =? ICONV_CES_INVALID_CHARACTER) with true. cbv iota.
    destruct fail.
    + erewrite conversion_stop in HQ by done. fold w1 in HQ. cv_stop HQ.
    + wp_step. eapply wp_encoder; [apply HC1..|b2p; lia|unfold DEFAULT_CHARACTER; lia|apply HC1|].
      destruct (encode s2 DEFAULT_CHARACTER) as [[o s2']|] eqn:Henc'.
      * destruct (encode_bytes _ _ _ _ Henc') as [Ho Hb]. specialize (Hb ltac:(unfold DEFAULT_CHARACTER; lia)).
        destruct (Z.ltb_spec left (zlen o)) as [Hs|Hs].
        -- change (i32 ICONV_CES_NOSPACE <? 0) with false. wp_steps.
           specialize (Hgo [] s2 (u32 (res + 1))). rewrite <-Ew1 in Hgo. cbn [length] in Hgo.
           rewrite Z.add_0_r, Z.sub_0_r in Hgo. apply Hgo; [lia|done|exact HQ].
        -- rewrite i32_small, (proj2 (Z.ltb_ge _ _)) by lia. wp_steps. by apply Hgo.
      * erewrite conversion_stop in HQ by done. fold w1 in HQ.
        change (i32 ICONV_CES_INVALID_CHARACTER <? 0) with true. cv_stop HQ.
Qed.
End transcode.
