(* ===== verification/IconvText.v ===== *)
(** * Texts and their conversion

    A codec is a decoder and an encoder of one encoding, with the states that
    correspond to each other, such that a character that is written is read
    back: every encoding of IconvSpec is one.  The conversion loop then takes the
    text of a list of characters in one encoding to its text in another
    encoding; when it stops early it has taken whole characters and written
    exactly their text. *)

From S2P Require Import Prelude CMonad Words Memory StrScan MemCopy Iconv Utf8 IconvSpec.

Class codec to_conv from_conv {TO : decoder to_conv} {FROM : encoder from_conv} := {
  follows : dec_state -> enc_state -> Prop;
  decode_encode s t c o t' rest : 0 <= c -> follows s t -> encode t c = Some (o, t') ->
    exists s', decode s (o ++ rest) = (s', DChar c (length o)) /\ follows s' t';
}.
#[export] Hint Mode codec ! ! - - : typeclass_instances.

(** ** The encodings without a byte order mark *)

Lemma with_state_some {S} (s : S) o l s' : with_state s o = Some (l, s') -> o = Some l /\ s' = s.
Proof. destruct o; [|done]. by intros [= -> ->]. Qed.

(** Converters whose state does not change. *)
Ltac codec_same :=
  intros s t c o t' rest Hc -> H;
  apply with_state_some in H as [H ->];
  exists t; split; [|reflexivity];
  refine (f_equal (pair t) (_ : _ = DChar c (length o))).

Lemma decode16_encode16 valid o c l rest : 0 <= c -> (forall c, valid c = true -> c < 65536) ->
  encode16 valid o c = Some l -> decode16 valid o (l ++ rest) = DChar c (length l).
Proof.
  intros Hc Hv. unfold encode16. destruct (valid c) eqn:E; [|done]. intros [= <-].
  assert (H := unit16_bytes16 o c). apply Hv in E as Hc'. specialize (H ltac:(lia)).
  destruct (bytes16 o c) as [|a [|b [|]]]; try done. cbn [app decode16 length].
  by rewrite H, E.
Qed.

Lemma decode32_encode32 valid o c l rest : 0 <= c -> (forall c, valid c = true -> c < 4294967294) ->
  encode32 valid o c = Some l -> decode32 valid o (l ++ rest) = DChar c (length l).
Proof.
  intros Hc Hv. unfold encode32. destruct (valid c) eqn:E; [|done]. intros [= <-].
  assert (H := unit32_bytes32 o c). apply Hv in E as Hc'. specialize (H ltac:(lia)).
  destruct (bytes32 o c) as [|x [|y [|z [|t [|]]]]]; try done. cbn [app decode32 length].
  by rewrite H, E.
Qed.

#[export] Instance utf_8_codec : codec utf_8_convert_to_ucs utf_8_convert_from_ucs.
Proof.
  unshelve econstructor; [exact (@eq unit)|]. codec_same. by apply utf8_decode_encode.
Defined.

#[export] Instance us_ascii_codec : codec us_ascii_convert_to_ucs us_ascii_convert_from_ucs.
Proof.
  unshelve econstructor; [exact (@eq unit)|]. codec_same. unfold ascii_encode in H.
  destruct (0x7F <? c) eqn:E; [done|]. injection H as <-. cbn [app ascii_decode]. by rewrite E.
Defined.

#[export] Instance ucs_2_codec : codec ucs_2_convert_to_ucs ucs_2_convert_from_ucs.
Proof.
  unshelve econstructor; [exact (@eq byte_order)|]. codec_same. apply decode16_encode16; [done| |done].
  unfold ucs2_valid. intros. b2p. lia.
Defined.

#[export] Instance ucs_4_codec : codec ucs_4_convert_to_ucs ucs_4_convert_from_ucs.
Proof.
  unshelve econstructor; [exact (@eq byte_order)|]. codec_same. by apply decode32_encode32; [|apply ucs_valid_lt|].
Defined.

#[export] Instance ucs_2_internal_codec :
  codec ucs_2_internal_convert_to_ucs ucs_2_internal_convert_from_ucs.
Proof.
  unshelve econstructor; [exact (@eq unit)|]. codec_same. apply decode16_encode16; [done| |done].
  unfold ucs2_internal_valid. intros. b2p. lia.
Defined.

#[export] Instance ucs_4_internal_codec :
  codec ucs_4_internal_convert_to_ucs ucs_4_internal_convert_from_ucs.
Proof.
  unshelve econstructor; [exact (@eq unit)|]. codec_same.
  by apply decode32_encode32; [|apply ucs4_internal_lt|].
Defined.

(** ** UTF-16 *)

(** Reading the two bytes of a unit that was written. *)
Lemma bytes16_read o c rest : 0 <= c < 65536 ->
  exists a b, bytes16 o c ++ rest = a :: b :: rest /\ unit16 o a b = c.
Proof.
  intros Hc. assert (H := unit16_bytes16 o c Hc). destruct (bytes16 o c) as [|a [|b [|]]]; [done..| |done].
  by exists a, b.
Qed.

Lemma utf16_char_units o off c rest : 0 <= c -> utf16_valid c = true ->
  utf16_char o off (utf16_units o c ++ rest) = DChar c (off + length (utf16_units o c)).
Proof.
  intros Hc Hv. unfold utf16_valid in Hv. b2p.
  rewrite (proj1 (utf16_units_ok o c ltac:(lia))). unfold utf16_units.
  destruct (Z.ltb_spec c 0x10000) as [Hs|Hs].
  - destruct (bytes16_read o c rest ltac:(lia)) as (a & b & -> & Hu). cbn [utf16_char].
    rewrite Hu. destruct (surrogate c); [done|].
    by rewrite (proj2 (Z.eqb_neq c 0xFFFF)), (proj2 (Z.eqb_neq c 0xFFFE)) by done.
  - rewrite <-app_assoc.
    destruct (bytes16_read o (0xD800 + (c - 0x10000) / 1024)
      (bytes16 o (0xDC00 + (c - 0x10000) mod 1024) ++ rest) ltac:(lia)) as (a & b & -> & Hu).
    destruct (bytes16_read o (0xDC00 + (c - 0x10000) mod 1024) rest ltac:(lia)) as (x & y & -> & Hv).
    cbn [utf16_char]. rewrite Hu, Hv. unfold surrogate.
    rewrite (proj2 (Z.leb_le 0xD800 _)), (proj2 (Z.leb_le _ 0xDFFF)) by lia. cbn [andb].
    rewrite (proj2 (Z.ltb_ge 0xDBFF _)), (proj2 (Z.ltb_ge _ 0xDC00)), (proj2 (Z.ltb_ge 0xDFFF _)) by lia.
    cbn [orb]. f_equal. lia.
Qed.

(** A mark is read by the reader that does not know the byte order. *)
Definition utf16_follows (s : utf16_in) (t : utf16_out) : Prop :=
  match t with
  | System => s = Undefined
  | _ => s = Known (out_order t)
  end.

#[export] Instance utf_16_codec : codec utf_16_convert_to_ucs utf_16_convert_from_ucs.
Proof.
  unshelve econstructor; [exact utf16_follows|]. intros s t c o t' rest Hc Hf H.
  change (utf16_encode t c = Some (o, t')) in H. change (dec_state (decoder := utf_16_decoder)) with utf16_in.
  unfold utf16_encode in H. destruct (utf16_valid c) eqn:Hv; [|done].
  destruct t as [o0| |]; cbn [utf16_follows] in Hf; subst s; injection H as <- <-.
  - exists (Known o0). split; [|done]. cbn. f_equal. by apply utf16_char_units.
  - exists (Known LittleEndian). split; [|done].
    change (UTF16_BOM mod 256) with 0xFF. change (UTF16_BOM / 256) with 0xFE.
    cbn [app decode utf_16_decoder utf16_decode].
    change (unit16 LittleEndian 0xFF 0xFE) with UTF16_BOM. rewrite Z.eqb_refl, orb_true_r.
    assert (Hl : (2 <= length (utf16_units LittleEndian c))%nat).
    { unfold utf16_valid in Hv. b2p. rewrite (proj1 (utf16_units_ok _ c ltac:(lia))).
      by destruct (c <? 0x10000); lia. }
    rewrite (proj2 (Nat.ltb_ge _ 4)) by (cbn [length]; rewrite length_app; lia).
    f_equal. by apply utf16_char_units.
  - exists (Known LittleEndian). split; [|done]. cbn. f_equal. by apply utf16_char_units.
Defined.

(** ** Texts *)

(** The text of the characters [cs], written from the state [t]. *)
Fixpoint encode_text {from_conv} {FROM : encoder from_conv} (t : enc_state) (cs : list Z) :
    option (list Z * enc_state) :=
  match cs with
  | [] => Some ([], t)
  | c :: cs' =>
      match encode t c with
      | None => None
      | Some (o, t') =>
          match encode_text t' cs' with
          | None => None
          | Some (os, t'') => Some (o ++ os, t'')
          end
      end
  end.

(** [reads s l cs s' r]: the characters [cs] are read from [l], [r] is left. *)
Inductive reads {to_conv} {TO : decoder to_conv} :
    dec_state -> list Z -> list Z -> dec_state -> list Z -> Prop :=
| reads_nil s l : reads s l [] s l
| reads_cons s l c j s' cs s'' r :
    decode s l = (s', DChar c j) -> reads s' (drop j l) cs s'' r -> reads s l (c :: cs) s'' r.

Lemma reads_text `{codec to_conv from_conv} s t cs l t' r :
  Forall (fun c => 0 <= c) cs -> follows s t -> encode_text t cs = Some (l, t') ->
  exists s', reads s (l ++ r) cs s' r /\ follows s' t'.
Proof.
  intros Hcs. revert s t l. induction Hcs as [|c cs Hc Hcs IH]; intros s t l Hf; cbn [encode_text].
  - intros [= <- <-]. exists s. split; [constructor|done].
  - destruct (encode t c) as [[o t1]|] eqn:E; [|done].
    destruct (encode_text t1 cs) as [[os t2]|] eqn:E'; [|done]. intros [= <- <-].
    rewrite <-app_assoc. destruct (decode_encode s t c o t1 (os ++ r) Hc Hf E) as (s1 & Hd & Hf1).
    destruct (IH s1 t1 os Hf1 E') as (s2 & Hr & Hf2). exists s2. split; [|done].
    eapply reads_cons; [exact Hd|]. by rewrite drop_app_length.
Qed.

(** A conversion of characters that all have an encoding and fit. *)
Section conversion.
Context {to_conv} {TO : decoder to_conv} {from_conv} {FROM : encoder from_conv}.
Implicit Types (l cs : list Z) (left res : Z).

Lemma decode_nil (s s' : dec_state) c j : decode s [] <> (s', DChar c j).
Proof. intros H. apply decode_char in H as [Hj _]; [|done]. cbn in Hj. lia. Qed.

Lemma reads_transcode k fail (s s' : dec_state) t l cs o t' left res :
  Forall (fun b => is_byte b) l -> reads s l cs s' [] -> encode_text t cs = Some (o, t') ->
  (length l <= k)%nat -> zlen o <= left ->
  transcode k fail s t l left res = Conversion _ _ o (length l) res None s' t'.
Proof.
  intros Hl Hr. remember [] as r eqn:Er. revert k t o left Er.
  induction Hr as [s l|s l c j s1 cs s2 r Hd Hr IH]; intros k t o left -> He Hk Ho; cbn [encode_text] in He.
  - injection He as <- <-. by destruct k.
  - destruct l as [|b l]; [by apply decode_nil in Hd|].
    destruct k as [|k]; [cbn in Hk; lia|]. cbn [transcode]. rewrite Hd.
    destruct (encode t c) as [[o1 t1]|] eqn:E; [|done].
    destruct (encode_text t1 cs) as [[os t2]|] eqn:E'; [|done]. injection He as <- <-.
    rewrite length_app in Ho. destruct (encode_bytes _ _ _ _ E) as [Ho1 _].
    destruct (decode_char _ _ _ _ _ Hl Hd) as [Hj _].
    rewrite (proj2 (Z.eqb_neq left 0)), (proj2 (Z.ltb_ge left _)) by lia.
    rewrite (IH (Forall_drop _ _ _ Hl) k t1 os (left - zlen o1)); [|done|done|rewrite length_drop; lia|lia].
    unfold cv_prepend. cbn [cv_out cv_used cv_res cv_err cv_to cv_from]. f_equal.
    rewrite length_drop. lia.
Qed.

(** ** Substitutes *)

(** The conversion of the documentation, which stops where a character or its
    substitute does not fit; a character that is an error is taken. *)
Fixpoint documented (k : nat) (fail : bool) (s : dec_state) (t : enc_state) l left res : conversion dec_state enc_state :=
  match k, l with
  | O, _ | _, [] => Conversion _ _ [] 0 res None s t
  | S k', _ =>
      if left =? 0 then Conversion _ _ [] 0 res (Some E2BIG) s t else
      match decode s l with
      | (s', DBad) => Conversion _ _ [] 0 res (Some EINVAL) s' t
      | (s', DInvalid) => Conversion _ _ [] 0 res (Some EILSEQ) s' t
      | (s', DChar c j) =>
          let put res x :=
            match x with
            | Some (o, t') =>
                if left <? zlen o then Conversion _ _ [] 0 res (Some E2BIG) s' t
                else cv_prepend j o (documented k' fail s' t' (drop j l) (left - zlen o) res)
            | None => Conversion _ _ [] j res (Some E2BIG) s' t
            end in
          match encode t c with
          | Some x => put res (Some x)
          | None => if fail then Conversion _ _ [] j res (Some EILSEQ) s' t
                    else put (u32 (res + 1)) (encode t DEFAULT_CHARACTER)
          end
      end
  end.

(** A substitute is needed where there is no space for it. *)
Fixpoint loses (k : nat) (s : dec_state) (t : enc_state) l left : bool :=
  match k, l with
  | O, _ | _, [] => false
  | S k', _ =>
      if left =? 0 then false else
      match decode s l with
      | (s', DChar c j) =>
          match encode t c, encode t DEFAULT_CHARACTER with
          | Some (o, t'), _ => (zlen o <=? left) && loses k' s' t' (drop j l) (left - zlen o)
          | None, Some (o, t') => (left <? zlen o) || loses k' s' t' (drop j l) (left - zlen o)
          | None, None => true
          end
      | _ => false
      end
  end.

Lemma transcode_documented k fail s t l left res :
  fail = true \/ loses k s t l left = false ->
  transcode k fail s t l left res = documented k fail s t l left res.
Proof.
  revert s t l left res. induction k as [|k IH]; intros s t l left res Hl; [done|].
  destruct l as [|b l]; [done|]. cbn [transcode documented loses] in *. destruct (left =? 0); [done|].
  destruct (decode s (b :: l)) as [s' [c j| |]]; [|done..]. destruct (encode t c) as [ [o t']|].
  - destruct (Z.ltb_spec left (zlen o)) as [|Ho]; [done|]. rewrite (proj2 (Z.leb_le _ _) Ho) in Hl. by rewrite IH.
  - destruct fail; [done|]. destruct Hl as [|Hl]; [done|].
    destruct (encode t DEFAULT_CHARACTER) as [ [o t']|]; [|done].
    apply orb_false_iff in Hl as [Ho Hl]. rewrite Ho, IH by auto. done.
Qed.

(** Why a conversion that does not substitute stops, after the characters it has
    converted: [rest] is the input left then, [left] the space left, [j] the
    number of bytes of [rest] that are taken nevertheless. *)
Inductive stop_reason (s : dec_state) (t : enc_state) (rest : list Z) (left : Z) :
    nat -> option Z -> Prop :=
| stop_end : rest = [] -> stop_reason s t rest left 0 None
| stop_full : rest <> [] -> left = 0 -> stop_reason s t rest left 0 (Some E2BIG)
| stop_nospace s' c j o t' :
    decode s rest = (s', DChar c j) -> encode t c = Some (o, t') -> left < zlen o ->
    stop_reason s t rest left 0 (Some E2BIG)
| stop_incomplete s' : decode s rest = (s', DBad) -> stop_reason s t rest left 0 (Some EINVAL)
| stop_illegal s' : decode s rest = (s', DInvalid) -> stop_reason s t rest left 0 (Some EILSEQ)
| stop_unmapped s' c j :
    decode s rest = (s', DChar c j) -> encode t c = None ->
    stop_reason s t rest left j (Some EILSEQ).

Lemma transcode_stops k (s : dec_state) (t : enc_state) l left res :
  Forall (fun b => is_byte b) l -> (length l <= k)%nat ->
  let r := transcode k true s t l left res in
  exists cs s' rest j, reads s l cs s' rest /\ encode_text t cs = Some (cv_out r, cv_from r) /\
    stop_reason s' (cv_from r) rest (left - zlen (cv_out r)) j (cv_err r) /\
    drop (cv_used r) l = drop j rest /\ (cv_used r <= length l)%nat /\ cv_res r = res.
Proof.
  cbv zeta. revert s t l left. induction k as [|k IH]; intros s t l left Hl Hk.
  { destruct l; [|cbn in Hk; lia]. exists [], s, [], 0%nat.
    split_and!; [constructor|done|by constructor|done|cbn; lia|done]. }
  destruct l as [|b l].
  { exists [], s, [], 0%nat. split_and!; [constructor|done|by constructor|done|cbn; lia|done]. }
  cbn [transcode].
  assert (H0 : forall j s' e, stop_reason s t (b :: l) left j e -> (j <= length (b :: l))%nat ->
    let r := Conversion (dec_state) (enc_state) [] j res e s' t in
    exists cs s' rest j, reads s (b :: l) cs s' rest /\ encode_text t cs = Some (cv_out r, cv_from r) /\
      stop_reason s' (cv_from r) rest (left - zlen (cv_out r)) j (cv_err r) /\
      drop (cv_used r) (b :: l) = drop j rest /\ (cv_used r <= length (b :: l))%nat /\ cv_res r = res).
  { intros j s' e He Hj. exists [], s, (b :: l), j. cbn [cv_out cv_from cv_err cv_used cv_res length].
    rewrite Z.sub_0_r. split_and!; [constructor|done..]. }
  destruct (Z.eqb_spec left 0); [apply H0; [by apply stop_full|lia]|].
  destruct (decode s (b :: l)) as [s1 [c j| |]] eqn:Hd.
  2, 3: apply H0; [econstructor; exact Hd|lia].
  destruct (decode_char _ _ _ _ _ Hl Hd) as [Hj _].
  destruct (encode t c) as [[o t1]|] eqn:E; [|apply H0; [by eapply stop_unmapped|lia]].
  destruct (Z.ltb_spec left (zlen o)); [apply H0; [by eapply stop_nospace|lia]|]. clear H0.
  destruct (IH s1 t1 (drop j (b :: l)) (left - zlen o)) as
    (cs & s' & rest & j' & Hr & He & Hs & Hu & Hlen & Hres);
    [by apply Forall_drop|rewrite length_drop; lia|].
  set (r := transcode k true s1 t1 (drop j (b :: l)) (left - zlen o) res) in *.
  rewrite length_drop in Hlen.
  exists (c :: cs), s', rest, j'. unfold cv_prepend. cbn [cv_out cv_from cv_err cv_used cv_res encode_text].
  rewrite E, He, length_app. rewrite drop_drop in Hu. split_and!; [|done| |done|lia|done].
  - by eapply reads_cons.
  - rewrite Nat2Z.inj_add, Z.sub_add_distr. exact Hs.
Qed.
End conversion.
