(* ===== verification/Ctype.v ===== *)
(** * Character classes: ctype/*.c, include/ctype.h

    The classification table of ctype/ctype_.c, the functions that index it,
    case conversion, and the case-insensitive string functions of string/
    (strcasecmp, strncasecmp, strlwr, strupr).  An index outside the table is
    a fault. *)

From S2P Require Import Prelude CMonad Words Memory StrScan StrCmp MemCopy.

(** ** The table *)

Definition _U : Z := 0x01.
Definition _L : Z := 0x02.
Definition _N : Z := 0x04.
Definition _S : Z := 0x08.
Definition _P : Z := 0x10.
Definition _C : Z := 0x20.
Definition _X : Z := 0x40.
Definition _B : Z := 0x80.

Infix "|||" := Z.lor (at level 50, left associativity) : Z_scope.

Definition _CTYPE_DATA_0_127 : list Z := [
  _C; _C; _C; _C; _C; _C; _C; _C;
  _C; _C ||| _S; _C ||| _S; _C ||| _S; _C ||| _S; _C ||| _S; _C; _C;
  _C; _C; _C; _C; _C; _C; _C; _C;
  _C; _C; _C; _C; _C; _C; _C; _C;
  _S ||| _B; _P; _P; _P; _P; _P; _P; _P;
  _P; _P; _P; _P; _P; _P; _P; _P;
  _N; _N; _N; _N; _N; _N; _N; _N;
  _N; _N; _P; _P; _P; _P; _P; _P;
  _P; _U ||| _X; _U ||| _X; _U ||| _X; _U ||| _X; _U ||| _X; _U ||| _X; _U;
  _U; _U; _U; _U; _U; _U; _U; _U;
  _U; _U; _U; _U; _U; _U; _U; _U;
  _U; _U; _U; _P; _P; _P; _P; _P;
  _P; _L ||| _X; _L ||| _X; _L ||| _X; _L ||| _X; _L ||| _X; _L ||| _X; _L;
  _L; _L; _L; _L; _L; _L; _L; _L;
  _L; _L; _L; _L; _L; _L; _L; _L;
  _L; _L; _L; _P; _P; _P; _P; _C ].

Definition _CTYPE_DATA_128_256 : list Z := replicate 128 0.

(** [static const char _ctype_b[128 + 256]], a signed [char] array. *)
Definition _ctype_b : list Z :=
  map s8 (_CTYPE_DATA_128_256 ++ _CTYPE_DATA_0_127 ++ _CTYPE_DATA_128_256).

(** [__ctype_ptr__[c + 1]], where [__ctype_ptr__ = _ctype_b + 127]. *)
Definition ctype_at (c : Z) : C Z :=
  let i := 127 + (c + 1) in
  if i <? 0 then fault else
  match _ctype_b !! Z.to_nat i with Some x => mret x | None => fault end.

(** ** The classification functions *)

Definition isalnum (c : Z) : C Z := x ← ctype_at c; mret (Z.land x (_U ||| _L ||| _N)).
Definition isalpha (c : Z) : C Z := x ← ctype_at c; mret (Z.land x (_U ||| _L)).
Definition iscntrl (c : Z) : C Z := x ← ctype_at c; mret (Z.land x _C).
Definition isdigit (c : Z) : C Z := x ← ctype_at c; mret (Z.land x _N).
Definition isgraph (c : Z) : C Z := x ← ctype_at c; mret (Z.land x (_P ||| _U ||| _L ||| _N)).
Definition islower (c : Z) : C Z := x ← ctype_at c; mret (Z.land x _L).
Definition isprint (c : Z) : C Z :=
  x ← ctype_at c; mret (Z.land x (_P ||| _U ||| _L ||| _N ||| _B)).
Definition ispunct (c : Z) : C Z := x ← ctype_at c; mret (Z.land x _P).
Definition isspace (c : Z) : C Z := x ← ctype_at c; mret (Z.land x _S).
Definition isupper (c : Z) : C Z := x ← ctype_at c; mret (Z.land x _U).
Definition isxdigit (c : Z) : C Z := x ← ctype_at c; mret (Z.land x (_X ||| _N)).

Definition isascii (c : Z) : Z := Z.b2z ((0 <=? c) && (c <? 128)).
Definition isblank (c : Z) : Z := Z.b2z ((c =? 32) || (c =? 9)).
Definition toascii (c : Z) : Z := Z.land c 0x7f.

Definition tolower (c : Z) : C Z :=
  u ← isupper c; mret (if negb (u =? 0) then c - 65 + 97 else c).
Definition toupper (c : Z) : C Z :=
  l ← islower c; mret (if negb (l =? 0) then c - 97 + 65 else c).
Definition _tolower (c : Z) : C Z :=
  u ← isupper c; mret (if negb (u =? 0) then c - 65 + 97 else c).
Definition _toupper (c : Z) : C Z :=
  l ← islower c; mret (if negb (l =? 0) then c - 97 + 65 else c).

(** ** Wide characters

    [wint_t] is [unsigned int].  Without [_MB_CAPABLE] (include/newlib.h) the
    wide classes are those of the narrow characters below 0x100. *)

Definition iswspace (c : Z) : C Z := if c <? 0x100 then isspace c else mret 0.
Definition iswalpha (c : Z) : C Z := if c <? 0x100 then isalpha c else mret 0.
Definition iswpunct (c : Z) : C Z := if c <? 0x100 then ispunct c else mret 0.
Definition iswprint (c : Z) : C Z := if c <? 0x100 then isprint c else mret 0.
Definition iswcntrl (c : Z) : C Z := if c <? 0x100 then iscntrl c else mret 0.
Definition iswblank (c : Z) : C Z := mret (if c <? 0x100 then isblank c else 0).
Definition iswdigit (c : Z) : C Z := mret (Z.b2z ((48 <=? c) && (c <=? 57))).
Definition iswxdigit (c : Z) : C Z :=
  mret (Z.b2z ((48 <=? c) && (c <=? 57) || (97 <=? c) && (c <=? 102) ||
               (65 <=? c) && (c <=? 70))).
Definition towlower (c : Z) : C Z :=
  if c <? 0x00ff then x ← tolower c; mret (u32 x) else mret c.
Definition towupper (c : Z) : C Z :=
  if c <? 0x00ff then x ← toupper c; mret (u32 x) else mret c.
Definition iswupper (c : Z) : C Z := x ← towlower c; mret (Z.b2z (negb (x =? c))).
Definition iswlower (c : Z) : C Z := x ← towupper c; mret (Z.b2z (negb (x =? c))).
Definition iswalnum (c : Z) : C Z :=
  a ← iswalpha c;
  if negb (a =? 0) then mret 1 else d ← iswdigit c; mret (Z.b2z (negb (d =? 0))).
Definition iswgraph (c : Z) : C Z :=
  p ← iswprint c;
  if p =? 0 then mret 0 else s ← iswspace c; mret (Z.b2z (s =? 0)).

(** ** Case-insensitive comparison and conversion of strings *)

Section code.
(** [tolower ( *(unsigned char * )s1) - tolower ( *(unsigned char * )s2)] *)
Definition case_diff (s1 s2 : Z) : C Z :=
  a ← (x ← load8 s1; tolower x);
  b ← (x ← load8 s2; tolower x);
  mret (i32 (a - b)).

(** string/strcasecmp.c *)
Definition strcasecmp (s1 s2 : Z) : C Z :=
  '(s1, s2) ← loop (fun '(s1, s2) =>
    c ← load8s s1;
    if negb (c =? 0) then
      a ← (x ← load8s s1; tolower x);
      b ← (x ← load8s s2; tolower x);
      if a =? b then next (s1 + 1, s2 + 1) else brk (s1, s2)
    else brk (s1, s2)) (s1, s2);
  case_diff s1 s2.

(** string/strncasecmp.c *)
Definition strncasecmp (s1 s2 n : Z) : C Z :=
  if n =? 0 then mret 0 else
  '(s1, s2) ← loop (fun '(s1, s2, n) =>
    let n' := u32 (n - 1) in
    if negb (n =? 0) then
      a ← (x ← load8s s1; tolower x);
      b ← (x ← load8s s2; tolower x);
      if a =? b then
        stop ← (if n' =? 0 then mret true else
          x ← load8s s1;
          if x =? 0 then mret true else y ← load8s s2; mret (y =? 0));
        if (stop : bool) then brk (s1, s2) else next (s1 + 1, s2 + 1, n')
      else brk (s1, s2)
    else brk (s1, s2)) (s1, s2, n);
  case_diff s1 s2.

(** string/strlwr.c *)
Definition strlwr (a : Z) : C Z :=
  let ret := a in
  loop (fun a =>
    c ← load8s a;
    if negb (c =? 0) then
      x ← load8s a; u ← isupper x;
      (if negb (u =? 0) then (x ← load8s a; y ← tolower x; store8 a y) else mret tt) ;;
      next (a + 1)
    else brk tt) a ;;
  mret ret.

(** string/strupr.c *)
Definition strupr (a : Z) : C Z :=
  let ret := a in
  loop (fun a =>
    c ← load8s a;
    if negb (c =? 0) then
      x ← load8s a; l ← islower x;
      (if negb (l =? 0) then (x ← load8s a; y ← toupper x; store8 a y) else mret tt) ;;
      next (a + 1)
    else brk tt) a ;;
  mret ret.
End code.

(** ** The C locale *)

Definition between (a b c : Z) : bool := (a <=? c) && (c <=? b).
Definition is_upper : Z -> bool := between 65 90.
Definition is_lower : Z -> bool := between 97 122.
Definition is_digit : Z -> bool := between 48 57.
Definition is_alpha (c : Z) : bool := is_upper c || is_lower c.
Definition is_space (c : Z) : bool := between 9 13 c || (c =? 32).
Definition is_cntrl (c : Z) : bool := between 0 31 c || (c =? 127).
Definition is_graph : Z -> bool := between 33 126.
Definition is_xdigit (c : Z) : bool := is_digit c || between 65 70 c || between 97 102 c.
Definition is_punct (c : Z) : bool := is_graph c && negb (is_alpha c || is_digit c).
Definition to_lower (c : Z) : Z := if is_upper c then c + 32 else c.
Definition to_upper (c : Z) : Z := if is_lower c then c - 32 else c.

(** A property of the 384 valid indices is checked by enumeration. *)
Lemma ctype_enum (P : Z -> bool) c :
  forallb (fun k => P (Z.of_nat k - 128)) (seq 0 384) = true ->
  -128 <= c < 256 -> P c = true.
Proof.
  intros H Hc. rewrite forallb_forall in H. specialize (H (Z.to_nat (c + 128))).
  replace (Z.of_nat (Z.to_nat (c + 128)) - 128) with c in H by lia.
  apply H, in_seq. lia.
Qed.

(** The table entry of a valid character. *)
Definition ctype_entry (c : Z) : Z := nth (Z.to_nat (c + 128)) _ctype_b 0.

Lemma wp_ctype_at n c w (Q : Z -> world -> Prop) :
  -128 <= c < 256 -> Q (ctype_entry c) w -> wp n (ctype_at c) w Q.
Proof.
  intros Hc HQ. unfold ctype_at. rewrite (proj2 (Z.ltb_ge _ _)) by lia.
  replace (127 + (c + 1)) with (c + 128) by lia.
  unfold ctype_entry in HQ. rewrite nth_lookup in HQ.
  destruct (lookup_lt_is_Some_2 _ctype_b (Z.to_nat (c + 128))) as [x Hx].
  { change (length _ctype_b) with 384%nat. lia. }
  rewrite Hx in *. by apply wp_ret.
Qed.

(** A class function returns nonzero exactly on the class. *)
Definition decides (f : Z -> C Z) (p : Z -> bool) : Prop :=
  forall n c w (Q : Z -> world -> Prop), -128 <= c < 256 ->
  (forall v, (v =? 0) = negb (p c) -> Q v w) -> wp n (f c) w Q.

Lemma class_decides mask p :
  forallb (fun k => Bool.eqb (Z.land (ctype_entry (Z.of_nat k - 128)) mask =? 0)
    (negb (p (Z.of_nat k - 128)))) (seq 0 384) = true ->
  decides (fun c => x ← ctype_at c; mret (Z.land x mask)) p.
Proof.
  intros H n c w Q Hc HQ. apply wp_bind, wp_ctype_at; [done|]. apply wp_ret, HQ.
  apply (ctype_enum (fun c => Bool.eqb (Z.land (ctype_entry c) mask =? 0) (negb (p c))) c) in H;
    [|done]. by apply Bool.eqb_prop.
Qed.

Lemma isalnum_decides : decides isalnum (fun c => is_alpha c || is_digit c).
Proof. apply class_decides. vm_compute. reflexivity. Qed.
Lemma isalpha_decides : decides isalpha is_alpha.
Proof. apply class_decides. vm_compute. reflexivity. Qed.
Lemma iscntrl_decides : decides iscntrl is_cntrl.
Proof. apply class_decides. vm_compute. reflexivity. Qed.
Lemma isdigit_decides : decides isdigit is_digit.
Proof. apply class_decides. vm_compute. reflexivity. Qed.
Lemma isgraph_decides : decides isgraph is_graph.
Proof. apply class_decides. vm_compute. reflexivity. Qed.
Lemma islower_decides : decides islower is_lower.
Proof. apply class_decides. vm_compute. reflexivity. Qed.
Lemma isprint_decides : decides isprint (fun c => is_graph c || (c =? 32)).
Proof. apply class_decides. vm_compute. reflexivity. Qed.
Lemma ispunct_decides : decides ispunct is_punct.
Proof. apply class_decides. vm_compute. reflexivity. Qed.
Lemma isspace_decides : decides isspace is_space.
Proof. apply class_decides. vm_compute. reflexivity. Qed.
Lemma isupper_decides : decides isupper is_upper.
Proof. apply class_decides. vm_compute. reflexivity. Qed.
Lemma isxdigit_decides : decides isxdigit is_xdigit.
Proof. apply class_decides. vm_compute. reflexivity. Qed.

Lemma wp_tolower n c w (Q : Z -> world -> Prop) :
  -128 <= c < 256 -> Q (to_lower c) w -> wp n (tolower c) w Q.
Proof.
  intros Hc HQ. apply wp_bind, isupper_decides; [done|]. intros v ->. apply wp_ret.
  unfold to_lower in HQ. destruct (is_upper c); simpl; eqapply HQ; lia.
Qed.

Lemma wp_toupper n c w (Q : Z -> world -> Prop) :
  -128 <= c < 256 -> Q (to_upper c) w -> wp n (toupper c) w Q.
Proof.
  intros Hc HQ. apply wp_bind, islower_decides; [done|]. intros v ->. apply wp_ret.
  unfold to_upper in HQ. destruct (is_lower c); simpl; eqapply HQ; lia.
Qed.

(** The same for wide characters, over all of [wint_t]. *)
Definition wdecides (f : Z -> C Z) (p : Z -> bool) : Prop :=
  forall n c w (Q : Z -> world -> Prop), 0 <= c < 4294967296 ->
  (forall v, (v =? 0) = negb (p c) -> Q v w) -> wp n (f c) w Q.

Lemma narrow_wdecides f p :
  decides f p -> (forall c, 0x100 <= c -> p c = false) ->
  wdecides (fun c => if c <? 0x100 then f c else mret 0) p.
Proof.
  intros Hf Hp n c w Q Hc HQ. wp_if; [apply Hf; [blia|done]|].
  apply wp_ret, HQ. by rewrite Hp by blia.
Qed.

Lemma iswspace_wdecides : wdecides iswspace is_space.
Proof.
  apply narrow_wdecides; [apply isspace_decides|].
  unfold is_space, between. intros. blia.
Qed.
Lemma iswalpha_wdecides : wdecides iswalpha is_alpha.
Proof.
  apply narrow_wdecides; [apply isalpha_decides|].
  unfold is_alpha, is_upper, is_lower, between. intros. blia.
Qed.
Lemma iswdigit_wdecides : wdecides iswdigit is_digit.
Proof.
  intros n c w Q Hc HQ. apply wp_ret, HQ. unfold is_digit, between. by destruct (_ && _).
Qed.
Lemma wp_towlower n c w (Q : Z -> world -> Prop) :
  0 <= c < 4294967296 -> Q (to_lower c) w -> wp n (towlower c) w Q.
Proof.
  intros Hc HQ. unfold towlower. wp_if.
  - wp_steps. apply wp_tolower; [blia|]. wp_steps. rewrite u32_small; [done|].
    unfold to_lower. case_match; blia.
  - wp_steps. eqapply HQ. unfold to_lower, is_upper, between. case_match; blia.
Qed.
Lemma iswupper_wdecides : wdecides iswupper is_upper.
Proof.
  intros n c w Q Hc HQ. apply wp_bind, wp_towlower; [done|]. apply wp_ret, HQ.
  unfold to_lower. destruct (is_upper c); simpl; [|by rewrite Z.eqb_refl].
  by rewrite (proj2 (Z.eqb_neq (c + 32) c)) by lia.
Qed.

(** ** The string functions *)

Section correctness.
Implicit Types (n k : nat) (w : world) (p : Z) (s : list Z).

(** Folding the case of a [char] or of an [unsigned char] is the same test. *)
Lemma to_lower_s8 a b :
  is_byte a -> is_byte b -> (to_lower (s8 a) =? to_lower (s8 b)) = (to_lower a =? to_lower b).
Proof. unfold to_lower, is_upper, between, s8. intros. repeat case_match; blia. Qed.

Lemma to_lower_byte a : is_byte a -> is_byte (to_lower a).
Proof. unfold to_lower, is_upper, between. intros. case_match; blia. Qed.

Lemma to_lower_nonnull a : 0 < a < 256 -> 0 < to_lower a < 256.
Proof. unfold to_lower, is_upper, between. intros. case_match; blia. Qed.

(** The comparison at the end of both functions. *)
Lemma wp_case_diff n p q a b w (Q : Z -> world -> Prop) :
  w_mem w !! p = Some a -> w_mem w !! q = Some b -> is_byte a -> is_byte b ->
  Q (to_lower a - to_lower b) w ->
  wp n (case_diff p q) w Q.
Proof.
  intros Ha Hb Ra Rb HQ. unfold case_diff. wp_mem. apply wp_tolower; [lia|]. wp_mem.
  apply wp_tolower; [lia|]. wp_steps.
  pose proof (to_lower_byte a Ra). pose proof (to_lower_byte b Rb).
  by rewrite i32_small by lia.
Qed.

Lemma fold_head s a t :
  s ++ [0] = a :: t -> map to_lower s ++ [0] = to_lower a :: map to_lower t.
Proof. intros E. change [0] with (map to_lower [0]). by rewrite <-map_app, E. Qed.

Lemma wp_strcasecmp n p q s1 s2 w (Q : Z -> world -> Prop) :
  cstr (w_mem w) p s1 -> cstr (w_mem w) q s2 -> (length s1 < n)%nat ->
  Q (lex_diff (map to_lower s1 ++ [0]) (map to_lower s2 ++ [0])) w ->
  wp n (strcasecmp p q) w Q.
Proof.
  intros H1 H2 Hn HQ. unfold strcasecmp. wp_steps. apply wp_loop_k.
  revert Hn. generalize n at 1 3. intros k. revert k p q s2 H1 H2 HQ.
  induction s1 as [|a s1 IH]; intros [|k] p q s2 H1 H2 HQ Hk; simpl in Hk; try lia;
    wp_loop; destruct (cstr_head _ _ _ H2) as (b & t & E & Hb & Rb & Hcase).
  - apply cstr_nil in H1. wp_mem. change (s8 0 =? 0) with true. wp_steps.
    eapply wp_case_diff; [done..|]. apply fold_head in E. rewrite E in HQ. simpl in HQ.
    destruct (Z.eqb_spec 0 (to_lower b)) as [<-|]; exact HQ.
  - apply cstr_cons in H1 as (Ha & Ra & H1). wp_mem. rewrite s8_eqb0 by lia. wp_if.
    wp_mem. apply wp_tolower; [unfold s8; lia|]. wp_mem. apply wp_tolower; [unfold s8; lia|].
    rewrite to_lower_s8 by lia. apply fold_head in E as E'. rewrite E' in HQ. simpl in HQ.
    destruct (Z.eqb_spec (to_lower a) (to_lower b)) as [Eq|]; wp_steps.
    + pose proof (to_lower_nonnull a Ra).
      destruct Hcase as [[-> _]|(s' & -> & _ & H2')]; [change (to_lower 0) with 0 in Eq; lia|].
      simplify_eq/=. apply (IH _ _ _ s'); [done..| |lia].
      by rewrite map_app in HQ.
    + eapply wp_case_diff; [done|done|lia|done|exact HQ].
Qed.

Lemma wp_strncasecmp n p q len s1 s2 w (Q : Z -> world -> Prop) :
  cstr (w_mem w) p s1 -> cstr (w_mem w) q s2 -> (length s1 < n)%nat ->
  0 <= len < 4294967296 ->
  Q (lex_diff_n len (map to_lower s1) (map to_lower s2)) w ->
  wp n (strncasecmp p q len) w Q.
Proof.
  intros H1 H2 Hn Hlen HQ. unfold strncasecmp. wp_if.
  { wp_steps. by replace len with 0 in HQ by blia. }
  wp_steps. apply wp_loop_k.
  assert (Hl : 1 <= len) by blia. clear E.
  revert Hn. generalize n at 1 3. intros k. revert k p q len s2 H1 H2 HQ Hlen Hl.
  induction s1 as [|a s1 IH]; intros [|k] p q len s2 H1 H2 HQ Hlen Hl Hk; simpl in Hk;
    try lia; wp_loop; destruct (cstr_head _ _ _ H2) as (b & t & E & Hb & Rb & Hcase);
    apply fold_head in E as E'; wp_if; rewrite u32_small by lia.
  - apply cstr_nil in H1. wp_mem. apply wp_tolower; [done|]. wp_mem.
    apply wp_tolower; [unfold s8; lia|].
    rewrite to_lower_s8 by lia. destruct (Z.eqb_spec (to_lower 0) (to_lower b)) as [Eq|Ne].
    + assert (Hstop : Q 0 w).
      { eqapply HQ. unfold lex_diff_n. rewrite E'. simpl. 
        destruct (Z.to_nat len); simpl; [done|].
        change (to_lower 0) with 0 in Eq. rewrite <-Eq, Z.eqb_refl. by rewrite take_nil. }
      wp_steps. wp_if; wp_mem; [|change (s8 0 =? 0) with true; wp_steps];
        (eapply wp_case_diff; [done..|]); rewrite <-Eq; exact Hstop.
    + wp_steps. eapply wp_case_diff; [done..|].
      eqapply HQ. by eapply (lex_diff_n_head _ 0).
  - apply cstr_cons in H1 as (Ha & Ra & H1). wp_mem. apply wp_tolower; [unfold s8; lia|].
    wp_mem. apply wp_tolower; [unfold s8; lia|]. rewrite to_lower_s8 by lia.
    destruct (Z.eqb_spec (to_lower a) (to_lower b)) as [Eq|Ne].
    + pose proof (to_lower_nonnull a Ra).
      destruct Hcase as [[-> _]|(s' & -> & ? & H2')]; [change (to_lower 0) with 0 in Eq; lia|].
      simplify_eq/=. rewrite Eq in HQ. wp_steps. wp_if; wp_mem.
      * replace len with 1 in HQ by blia. rewrite lex_diff_n_1 in HQ.
        eapply wp_case_diff; [done|done|lia|lia|]. eqapply HQ. lia.
      * rewrite s8_eqb0 by lia. wp_if. wp_mem. rewrite s8_eqb0 by lia. wp_if. wp_steps.
        apply (IH _ _ _ _ s'); [done..| |lia|blia|lia].
        rewrite lex_diff_n_cons in HQ by blia. exact HQ.
    + wp_steps. eapply wp_case_diff; [done|done|lia|done|].
      eqapply HQ. by eapply (lex_diff_n_head _ (to_lower a)).
Qed.

(** A case-converting pass over a string. *)
Lemma wp_strcase n (cls : Z -> C Z) (conv : Z -> C Z) (P : Z -> bool) (f : Z -> Z) a s w
    (Q : unit -> world -> Prop) :
  decides cls P ->
  (forall n c w (Q : Z -> world -> Prop), -128 <= c < 256 -> Q (f c) w -> wp n (conv c) w Q) ->
  (forall c, is_byte c -> u8 (f (s8 c)) = f c) ->
  (forall c, is_byte c -> P (s8 c) = false -> f c = c) ->
  cstr (w_mem w) a s -> (length s < n)%nat ->
  Q tt (written a (map f s) w) ->
  wp n (loop (fun a =>
    c ← load8s a;
    if negb (c =? 0) then
      x ← load8s a; u ← cls x;
      (if negb (u =? 0) then (x ← load8s a; y ← conv x; store8 a y) else mret tt) ;;
      next (a + 1)
    else brk tt) a) w Q.
Proof.
  intros His Hconv Hf Hid Hs Hn HQ. apply wp_loop_k.
  revert Hn. generalize n at 1 3. intros k. revert k a w Hs HQ.
  induction s as [|b s IH]; intros [|k] a w Hs HQ Hk; simpl in Hk; try lia; wp_loop.
  - apply cstr_nil in Hs. wp_mem. change (s8 0 =? 0) with true. wp_steps.
    by rewrite written_nil in HQ.
  - apply cstr_cons in Hs as (Hb & Rb & Hs). wp_mem. rewrite s8_eqb0 by lia. wp_if. wp_mem.
    apply His; [unfold s8; lia|]. intros v ->. 
    assert (Hs' : cstr (w_mem (written a [f b] w)) (a + 1) s).
    { eapply cstr_frame; [exact Hs|]. intros c Hc. apply lookup_insert_ne. lia. }
    destruct (P (s8 b)) eqn:Ep; wp_mem.
    + apply Hconv; [unfold s8; lia|]. apply wp_store8; [by rewrite Hb|]. wp_steps.
      rewrite Hf by lia. apply IH; [exact Hs'| |lia].
      by rewrite <-(written_app a [f b] (map f s)) in HQ.
    + apply IH; [done| |lia]. simpl in HQ. rewrite <-(written_app a [f b] (map f s)) in HQ.
      rewrite (Hid b) in HQ by (done || lia).
      unfold written at 2 in HQ. rewrite (store_bytes_id _ [b]) in HQ; [|done].
      by rewrite set_mem_id in HQ.
Qed.

Lemma wp_strlwr n a s w (Q : Z -> world -> Prop) :
  cstr (w_mem w) a s -> (length s < n)%nat ->
  Q a (written a (map to_lower s) w) -> wp n (strlwr a) w Q.
Proof.
  intros Hs Hn HQ. unfold strlwr. wp_steps.
  eapply wp_strcase; [apply isupper_decides|intros; by apply wp_tolower| | |done|done|].
  - unfold to_lower, is_upper, between, u8, s8. intros. repeat case_match; blia.
  - unfold to_lower, is_upper, between, s8. intros. repeat case_match; blia.
  - by wp_steps.
Qed.

Lemma wp_strupr n a s w (Q : Z -> world -> Prop) :
  cstr (w_mem w) a s -> (length s < n)%nat ->
  Q a (written a (map to_upper s) w) -> wp n (strupr a) w Q.
Proof.
  intros Hs Hn HQ. unfold strupr. wp_steps.
  eapply wp_strcase; [apply islower_decides|intros; by apply wp_toupper| | |done|done|].
  - unfold to_upper, is_lower, between, u8, s8. intros. repeat case_match; blia.
  - unfold to_upper, is_lower, between, s8. intros. repeat case_match; blia.
  - by wp_steps.
Qed.
End correctness.
