(* ===== verification/TwoWay.v ===== *)
(** * Critical factorizations

    The combinatorics of words under the substring search of string/: maximal
    suffixes, the critical factorization they give, and why the shifts of the
    two-way search skip no occurrence.  A word is a function on the indices
    [0 .. n-1]. *)

From S2P Require Import Prelude.

(** ** Suffixes and periods *)

Section suffixes.
Context (f : Z -> Z) (n : Z).

(** The suffix at [i] is smaller than the one at [j]: [l] characters are the
    same, then it ends or has the smaller character. *)
Definition below (i j : Z) : Prop := exists l, 0 <= l /\ j + l < n /\
  (forall k, 0 <= k < l -> f (i + k) = f (j + k)) /\ (i + l = n \/ i + l < n /\ f (i + l) < f (j + l)).

Definition maximal (m : Z) : Prop := 0 <= m < n /\ forall i, 0 <= i < n -> i <> m -> below i m.

(** The word from [s] on repeats every [p] characters. *)
Definition period (s p : Z) : Prop := forall q, s + p <= q < n -> f q = f (q - p).

(** A repetition of [r] characters around [s]. *)
Definition repeats (s r : Z) : Prop := forall q, s <= q < s + r -> r <= q < n -> f q = f (q - r).

Lemma period_mult s p k m : 0 < p -> period s p -> 0 <= k -> s <= m -> m + k * p < n -> f (m + k * p) = f m.
Proof.
  intros Hp Hper Hk Hm. pattern k. apply natlike_ind; [|clear k Hk; intros k Hk IH Hn|done].
  - intros _. f_equal. lia.
  - rewrite <-IH by nia. rewrite Hper by nia. f_equal. lia.
Qed.

Lemma below_asym i j : 0 <= i < n -> 0 <= j < n -> below i j -> ~ below j i.
Proof.
  intros Hi Hj (l & Hl & Hb & He & Hd) (l' & Hl' & Hb' & He' & Hd').
  destruct (Z.lt_trichotomy l l') as [H|[<-|H]].
  - specialize (He' l ltac:(lia)). lia.
  - lia.
  - specialize (He l' ltac:(lia)). lia.
Qed.

Lemma below_trans i j k : below i j -> below j k -> below i k.
Proof.
  intros (l & Hl & Hb & He & Hd) (l' & Hl' & Hb' & He' & Hd').
  destruct (Z.lt_trichotomy l l') as [H|[<-|H]].
  - exists l. split_and!; [done|lia| |].
    + intros q Hq. rewrite He, He' by lia. done.
    + specialize (He' l ltac:(lia)). lia.
  - exists l. split_and!; [done|lia| |lia]. intros q Hq. rewrite He, He' by lia. done.
  - exists l'. split_and!; [done|lia| |].
    + intros q Hq. rewrite He, He' by lia. done.
    + specialize (He l' ltac:(lia)). lia.
Qed.

(** The first place where two suffixes differ. *)
Lemma mismatch i j k : exists l, 0 <= l <= Z.of_nat k /\
  (forall q, 0 <= q < l -> f (i + q) = f (j + q)) /\ (l = Z.of_nat k \/ f (i + l) <> f (j + l)).
Proof.
  induction k as [|k (l & Hl & He & Hd)].
  - exists 0. split_and!; [lia..|]. by left.
  - destruct Hd as [->|Hd]; [|exists l; split_and!; [lia..|done|by right]].
    destruct (Z.eq_dec (f (i + Z.of_nat k)) (f (j + Z.of_nat k))) as [E|E].
    + exists (Z.of_nat (S k)). split_and!; [lia..| |by left].
      intros q Hq. destruct (Z.eq_dec q (Z.of_nat k)) as [->|]; [done|apply He; lia].
    + exists (Z.of_nat k). split_and!; [lia..|done|by right].
Qed.

Lemma below_total i j : 0 <= i < n -> 0 <= j < n -> i <> j -> below i j \/ below j i.
Proof.
  intros Hi Hj Hne. destruct (mismatch i j (Z.to_nat (n - Z.max i j))) as (l & Hl & He & Hd).
  destruct (Z.lt_ge_cases (Z.max i j + l) n) as [Hin|Hend].
  - destruct Hd as [|Hd]; [lia|]. destruct (Z.lt_ge_cases (f (i + l)) (f (j + l))) as [H|H].
    + left. exists l. split_and!; [lia..|done|lia].
    + right. exists l. split_and!; [lia..| |lia]. intros q Hq. by rewrite He.
  - destruct (Z.lt_ge_cases i j) as [H|H].
    + right. exists l. split_and!; [lia..| |lia]. intros q Hq. by rewrite He.
    + left. exists l. split_and!; [lia..|done|lia].
Qed.

Lemma maximal_exists : 0 < n -> exists m, maximal m.
Proof.
  intros Hn. assert (H : forall k, Z.of_nat (S k) <= n -> exists m, 0 <= m <= Z.of_nat k /\
    forall i, 0 <= i <= Z.of_nat k -> i <> m -> below i m).
  { induction k as [|k IH]; intros Hk; [exists 0; split; [lia|intros; lia]|].
    destruct IH as (m & Hm & Hmax); [lia|].
    destruct (below_total m (Z.of_nat (S k))) as [H|H]; [lia..| |].
    - exists (Z.of_nat (S k)). split; [lia|]. intros i Hi Hne. destruct (Z.eq_dec i m) as [->|Hm']; [done|].
      eapply below_trans; [apply Hmax; lia|done].
    - exists m. split; [lia|]. intros i Hi Hne.
      destruct (Z.eq_dec i (Z.of_nat (S k))) as [->|]; [done|]. apply Hmax; lia. }
  destruct (H (Z.to_nat (n - 1))) as (m & Hm & Hmax); [lia|]. exists m. split; [lia|].
  intros i Hi Hne. apply Hmax; lia.
Qed.

Lemma maximal_above m i : maximal m -> 0 <= i < n -> ~ below m i.
Proof.
  intros [Hm Hmax] Hi H. destruct (Z.eq_dec i m) as [->|Hne].
  - by apply (below_asym m m Hm Hm).
  - by eapply below_asym; [| |exact H|apply Hmax].
Qed.

(** Two suffixes that agree up to the end of the later one. *)
Lemma below_prefix i j : 0 <= j < i -> i <= n -> (forall k, 0 <= k < n - i -> f (i + k) = f (j + k)) -> below i j.
Proof. intros Hj Hi He. exists (n - i). split_and!; [lia..|done|lia]. Qed.

(** *** The search for the maximal suffix *)

(** The maximal suffix starts after [ms] or beyond [j]; the part from [ms + 1] on
    that was read repeats a word of [p] characters whose proper suffixes are all
    smaller, and ends in [k - 1] characters of a repetition. *)
Record searching (ms j k p : Z) : Prop := {
  se_ms : -1 <= ms < j;
  se_k : 1 <= k <= p;
  se_end : j + k <= n;
  se_rep : exists e, 1 <= e /\ j = ms + e * p;
  se_period : forall q, ms + 1 + p <= q < j + k -> f q = f (q - p);
  se_lyndon : forall d, 0 < d < p -> exists l, 0 <= l < p - d /\
    (forall q, 0 <= q < l -> f (ms + 1 + d + q) = f (ms + 1 + q)) /\ f (ms + 1 + d + l) < f (ms + 1 + l);
  se_out : forall t, 0 <= t <= j -> t <> ms + 1 -> ~ maximal t;
}.

Lemma searching_start : 1 <= n -> searching (-1) 0 1 1.
Proof. intros Hn. split; try lia. exists 1. lia. Qed.

Section step.
Context {ms j k p : Z} (H : searching ms j k p) (Hn : j + k < n).

(** Periodicity, several repetitions at once. *)
Lemma searching_back e q : 0 <= e -> ms + 1 + e * p <= q < j + k -> f q = f (q - e * p).
Proof.
  intros He. revert q. pattern e. apply natlike_ind; [| |done].
  - intros q Hq. f_equal. lia.
  - intros x Hx IH q Hq. pose proof (se_k _ _ _ _ H).
    rewrite (se_period _ _ _ _ H) by nia. rewrite IH by nia. f_equal. lia.
Qed.

Lemma searching_equal : f (j + k) = f (ms + k) ->
  searching ms (if k =? p then j + p else j) (if k =? p then 1 else k + 1) p.
Proof.
  intros E. destruct (se_rep _ _ _ _ H) as (e & He & Hj).
  pose proof (se_ms _ _ _ _ H). pose proof (se_k _ _ _ _ H). assert (Hjp : ms + p <= j) by nia.
  assert (Hper : forall q, ms + 1 + p <= q < j + k + 1 -> f q = f (q - p)).
  { intros q Hq. destruct (Z.eq_dec q (j + k)) as [->|]; [|apply (se_period _ _ _ _ H); lia].
    rewrite E. destruct (Z.eq_dec e 1) as [->|].
    - f_equal. lia.
    - rewrite (searching_back (e - 1) (j + k - p)) by nia. f_equal. nia. }
  destruct (Z.eqb_spec k p) as [Hk|Hk].
  - split; [lia..| |by intros; apply Hper; lia|apply H|].
    { exists (e + 1). nia. }
    intros t Ht Hne Hmax. destruct (Z.le_gt_cases t j) as [|Htj]; [by apply (se_out _ _ _ _ H t ltac:(lia))|].
    destruct (Z.eq_dec t (j + 1)) as [->|Hne'].
    + destruct (Z.eq_dec (j + 1 + p) n) as [Hend|Hend].
      { apply (maximal_above _ (j + 1 - p) Hmax); [nia|]. apply below_prefix; [nia|lia|].
        intros q Hq. rewrite Hper by nia. f_equal. lia. }
      destruct (below_total (j + 1) (j + 1 + p)) as [Hb|Hb]; [lia..| |].
      * eapply (maximal_above _ _ Hmax); [|exact Hb]. lia.
      * eapply (maximal_above _ (j + 1 - p) Hmax); [nia|].
        destruct Hb as (l & Hl & Hb & He' & Hd). exists (p + l). split_and!; [lia..| |].
        -- intros q Hq. destruct (Z.lt_ge_cases q p) as [Hqp|Hqp].
           ++ rewrite (Hper (j + 1 + q)) by lia. f_equal. lia.
           ++ specialize (He' (q - p) ltac:(lia)).
              replace (j + 1 + p + (q - p)) with (j + 1 + q) in He' by lia. rewrite He'. f_equal. lia.
        -- replace (j + 1 + (p + l)) with (j + 1 + p + l) by lia.
           replace (j + 1 - p + (p + l)) with (j + 1 + l) by lia. done.
    + set (d := t - (j + 1)). destruct (se_lyndon _ _ _ _ H d) as (l & Hl & He' & Hd); [lia|].
      eapply (maximal_above t (ms + 1) Hmax); [lia|].
      assert (Hback : forall q, 0 <= q <= l -> f (t + q) = f (ms + 1 + d + q)).
      { intros q Hq. destruct (Z.eq_dec (t + q) (j + p)) as [E'|E'].
        - rewrite E'. rewrite <-Hk at 1. rewrite E. f_equal. lia.
        - rewrite (searching_back e) by nia. f_equal. lia. }
      exists l. split_and!; [lia..| |right; split; [lia|]].
      * intros q Hq. by rewrite Hback, He' by lia.
      * by rewrite Hback by lia.
  - split; [lia..| |by intros; apply Hper; lia|apply H|apply H]. by exists e.
Qed.

(** When the character read is smaller than the one that continues the
    repetition, all that was read takes the place of the repeated word. *)
Lemma searching_smaller_lyndon d : f (j + k) < f (ms + k) -> 0 < d < j + k - ms ->
  exists l, 0 <= l < j + k - ms - d /\
    (forall q, 0 <= q < l -> f (ms + 1 + d + q) = f (ms + 1 + q)) /\ f (ms + 1 + d + l) < f (ms + 1 + l).
Proof.
  intros E Hd. destruct (se_rep _ _ _ _ H) as (e & He & Hj).
  pose proof (se_ms _ _ _ _ H). pose proof (se_k _ _ _ _ H). assert (Hjp : ms + p <= j) by nia.
  pose proof (Z.div_mod d p ltac:(lia)) as Hdm. pose proof (Z.mod_pos_bound d p ltac:(lia)) as Hg.
  assert (Hx : 0 <= d / p) by (apply Z.div_pos; lia). revert Hdm Hg Hx. generalize (d / p) as x, (d mod p) as g.
  intros x g Hdm Hg Hx.
  assert (Hback : forall q, 0 <= q -> ms + 1 + d + q < j + k -> f (ms + 1 + d + q) = f (ms + 1 + g + q)).
  { intros q Hq Hb. rewrite (searching_back x) by nia. f_equal. lia. }
  destruct (Z.eq_dec g 0) as [Hg0|Hg0].
  - assert (1 <= x <= e) by nia. exists (j + k - ms - 1 - d). split_and!; [lia..| |].
    + intros q Hq. rewrite Hback by lia. f_equal. lia.
    + replace (ms + 1 + d + (j + k - ms - 1 - d)) with (j + k) by lia.
      replace (f (ms + 1 + (j + k - ms - 1 - d))) with (f (ms + k)); [done|].
      rewrite (searching_back (e - x) (ms + 1 + _)) by nia. f_equal. nia.
  - destruct (se_lyndon _ _ _ _ H g) as (l & Hl & He' & Hlt); [lia|].
    destruct (Z.lt_ge_cases (d + l) (j + k - ms - 1)) as [Hin|Hout].
    + exists l. split_and!; [lia..| |by rewrite Hback by lia]. intros q Hq. rewrite Hback by lia. by apply He'.
    + assert (Hx' : x = e) by nia. assert (Hgk : g + (j + k - ms - 1 - d) = k - 1) by nia.
      exists (j + k - ms - 1 - d). split_and!; [lia..| |].
      * intros q Hq. rewrite Hback by lia. apply He'. lia.
      * replace (ms + 1 + d + (j + k - ms - 1 - d)) with (j + k) by lia.
        destruct (Z.eq_dec l (j + k - ms - 1 - d)) as [->|].
        -- replace (ms + 1 + g + (j + k - ms - 1 - d)) with (ms + k) in Hlt by lia. lia.
        -- rewrite <-He' by lia. replace (ms + 1 + g + (j + k - ms - 1 - d)) with (ms + k) by lia. done.
Qed.

Lemma searching_smaller : f (j + k) < f (ms + k) -> searching ms (j + k) 1 (j + k - ms).
Proof.
  intros E. destruct (se_rep _ _ _ _ H) as (e & He & Hj).
  pose proof (se_ms _ _ _ _ H). pose proof (se_k _ _ _ _ H). assert (Hjp : ms + p <= j) by nia.
  split; [lia..| | | |].
  - exists 1. lia.
  - intros q Hq. lia.
  - intros d Hd. by apply searching_smaller_lyndon.
  - intros t Ht Hne Hmax. destruct (Z.le_gt_cases t j) as [|Htj]; [by apply (se_out _ _ _ _ H t ltac:(lia))|].
    destruct (searching_smaller_lyndon (t - (ms + 1)) E) as (l & Hl & Hq & Hlt); [lia|].
    replace (ms + 1 + (t - (ms + 1))) with t in Hq, Hlt by lia.
    apply (maximal_above t (ms + 1) Hmax); [lia|]. exists l. split_and!; [lia..|done|right; by split; [lia|]].
Qed.

Lemma searching_greater : f (ms + k) < f (j + k) -> searching j (j + 1) 1 1.
Proof.
  intros E. destruct (se_rep _ _ _ _ H) as (e & He & Hj).
  pose proof (se_ms _ _ _ _ H). pose proof (se_k _ _ _ _ H). assert (Hjp : ms + p <= j) by nia.
  split; [lia..| | | |].
  - exists 1. lia.
  - intros q Hq. lia.
  - intros d Hd. lia.
  - intros t Ht Hne Hmax. destruct (Z.eq_dec t (ms + 1)) as [->|Hms];
      [|by apply (se_out _ _ _ _ H t ltac:(lia))].
    apply (maximal_above _ (j + 1) Hmax); [lia|]. exists (k - 1). split_and!; [lia..| |right; split; [lia|]].
    + intros q Hq. rewrite (searching_back e (j + 1 + q)) by nia. f_equal. lia.
    + replace (ms + 1 + (k - 1)) with (ms + k) by lia. by replace (j + 1 + (k - 1)) with (j + k) by lia.
Qed.
End step.

(** The search at its end. *)
Lemma searching_done ms j k p : searching ms j k p -> j + k = n ->
  maximal (ms + 1) /\ 0 < p <= n - (ms + 1) /\ period (ms + 1) p /\
  forall d, 0 < d < p -> ~ period (ms + 1) d.
Proof.
  intros H Hn. destruct (se_rep _ _ _ _ H) as (e & He & Hj).
  pose proof (se_ms _ _ _ _ H). pose proof (se_k _ _ _ _ H). assert (Hjp : ms + p <= j) by nia.
  assert (Hper : period (ms + 1) p) by (intros q Hq; apply (se_period _ _ _ _ H); lia).
  split_and!; [|lia..|done|].
  - destruct maximal_exists as [m Hm]; [lia|].
    destruct (Z.eq_dec m (ms + 1)) as [<-|Hne]; [done|]. exfalso.
    destruct (Z.le_gt_cases m j) as [|Hmj]; [by apply (se_out _ _ _ _ H m ltac:(destruct Hm; lia))|].
    apply (maximal_above m (m - p) Hm); [destruct Hm; lia|]. destruct Hm as [Hm _].
    apply below_prefix; [lia|lia|]. intros q Hq. rewrite Hper by lia. f_equal. lia.
  - intros d Hd Hpd. destruct (se_lyndon _ _ _ _ H d) as (l & Hl & He' & Hlt); [done|].
    rewrite Hpd in Hlt by lia. replace (ms + 1 + d + l - d) with (ms + 1 + l) in Hlt by lia. lia.
Qed.
End suffixes.

(** ** The critical factorization *)

(** A repetition around the later of the two maximal suffixes, for an order and
    its reverse, is longer than the part before it and a period of the word. *)
Lemma critical (f g : Z -> Z) n s t r : (forall i, g i = - f i) ->
  maximal f n s -> maximal g n t -> t <= s -> 0 < r -> repeats f n s r -> s < r /\ period f n 0 r.
Proof.
  intros Hg Hs Ht Hts Hr Hrep.
  assert (Hsr : s < r).
  { destruct (Z.lt_ge_cases s r) as [|Hle]; [done|]. exfalso. destruct Hs as [Hs Hmax].
    destruct (Hmax (s - r)) as (l & Hl & Hb & He & Hd); [lia..|].
    destruct (Z.lt_ge_cases l r) as [Hlr|Hlr].
    - rewrite (Hrep (s + l)) in Hd by lia. replace (s + l - r) with (s - r + l) in Hd by lia. lia.
    - apply (maximal_above f n s (s + r)); [done|lia|]. exists (l - r). split_and!; [lia..| |right; split; [lia|]].
      + intros k Hk. specialize (He (k + r) ltac:(lia)).
        replace (s - r + (k + r)) with (s + k) in He by lia. rewrite He. f_equal. lia.
      + replace (s + r + (l - r)) with (s + l) by lia. replace (s + (l - r)) with (s - r + l) by lia. lia. }
  split; [done|]. intros q Hq. destruct (Z.lt_ge_cases q (s + r)) as [|Hqs]; [by apply Hrep; lia|].
  destruct Hs as [Hs Hmax]. destruct (Hmax (s + r)) as (l & Hl & Hb & He & Hd); [lia..|].
  destruct Hd as [Hd|[Hin Hd]].
  { specialize (He (q - (s + r)) ltac:(lia)). replace (s + r + (q - (s + r))) with q in He by lia.
    rewrite He. f_equal. lia. }
  exfalso. destruct Ht as [Ht Hmaxt]. destruct (Hmaxt (t + r)) as (l' & Hl' & Hb' & He' & Hd'); [lia..|].
  rewrite !Hg in Hd'. assert (Hback : forall k, 0 <= k < s - t -> f (t + r + k) = f (t + k)).
  { intros k Hk. rewrite Hrep by lia. f_equal. lia. }
  destruct (Z.lt_ge_cases l' (s - t)) as [Hlt|Hlt]; [specialize (Hback l' ltac:(lia)); lia|].
  assert (Heq : forall k, 0 <= k < l' - (s - t) -> f (s + r + k) = f (s + k)).
  { intros k Hk. specialize (He' (s - t + k) ltac:(lia)). rewrite !Hg in He'.
    replace (t + r + (s - t + k)) with (s + r + k) in He' by lia.
    replace (t + (s - t + k)) with (s + k) in He' by lia. lia. }
  replace (t + r + l') with (s + r + (l' - (s - t))) in Hd' by lia.
  replace (t + l') with (s + (l' - (s - t))) in Hd' by lia.
  destruct (Z.lt_trichotomy l (l' - (s - t))) as [Hc|[Hc|Hc]].
  - specialize (Heq l ltac:(lia)). lia.
  - rewrite <-Hc in Hd'. lia.
  - specialize (He (l' - (s - t)) ltac:(lia)). lia.
Qed.

(** What the search relies on: [s] is a critical position, and [p] the smallest
    period of the part from there on. *)
Record factorization (f : Z -> Z) (n s p : Z) : Prop := {
  fa_s : 0 <= s < n;
  fa_p : 0 < p <= n - s;
  fa_period : period f n s p;
  fa_least : forall d, 0 < d < p -> ~ period f n s d;
  fa_critical : forall r, 0 < r -> repeats f n s r -> s < r /\ period f n 0 r;
}.

Lemma factorization_of (f g : Z -> Z) n s t p : (forall i, g i = - f i) ->
  maximal f n s -> maximal g n t -> t <= s ->
  0 < p <= n - s -> period f n s p -> (forall d, 0 < d < p -> ~ period f n s d) -> factorization f n s p.
Proof.
  intros Hg Hs Ht Hts Hp Hper Hleast. split; [apply Hs|done..|].
  intros r Hr Hrep. by eapply critical.
Qed.

(** The order does not matter. *)
Lemma factorization_neg (f g : Z -> Z) n s p : (forall i, g i = - f i) ->
  factorization f n s p -> factorization g n s p.
Proof.
  intros Hg [Hs Hp Hper Hleast Hcrit].
  assert (E : forall a d, period f n a d <-> period g n a d).
  { intros a d. split; intros H q Hq; specialize (H q Hq); rewrite ?Hg in *; lia. }
  split; [done|done|by apply E|intros d Hd; rewrite <-E; by apply Hleast|].
  intros r Hr Hrep. rewrite <-E. apply Hcrit; [done|]. intros q Hq Hrq. specialize (Hrep q Hq Hrq).
  rewrite !Hg in Hrep. lia.
Qed.

(** ** Periods of a word and of its right half *)

Section word.
Context (x : Z -> Z) (n s p : Z) (F : factorization x n s p).

Lemma period_repeats q s' : 0 <= s' -> period x n 0 q -> repeats x n s' q.
Proof. intros Hs H k Hk Hq. apply H. lia. Qed.

Lemma period_sub a b q : a <= b -> period x n a q -> period x n b q.
Proof. intros Hab H k Hk. apply H. lia. Qed.

(** A period that fits in the right half is a multiple of [p], which then is a
    period of the whole word. *)
Lemma short_period r : 0 < r <= n - s -> period x n 0 r -> period x n 0 p.
Proof.
  intros Hr Hper. pose proof (fa_s _ _ _ _ F) as Hs. pose proof (fa_p _ _ _ _ F) as Hp.
  destruct (fa_critical _ _ _ _ F r) as [Hsr _]; [lia|by apply period_repeats; [lia|]|].
  pose proof (Z.div_mod r p ltac:(lia)) as Hdm. pose proof (Z.mod_pos_bound r p ltac:(lia)) as Hg.
  assert (Hk : 0 <= r / p) by (apply Z.div_pos; lia).
  revert Hdm Hg Hk. generalize (r / p) as k, (r mod p) as g. intros k g Hdm Hg Hk.
  assert (Hg0 : g = 0).
  { destruct (Z.eq_dec g 0) as [|Hne]; [done|]. exfalso.
    apply (fa_least _ _ _ _ F g); [lia|]. apply (period_sub 0); [lia|]. apply (fa_critical _ _ _ _ F); [lia|].
    intros q Hq Hqg. rewrite <-(period_mult x n s p k q) by (apply F || nia). rewrite Hper by nia. f_equal. lia. }
  intros q Hq. destruct (Z.lt_ge_cases q (s + p)) as [Hlt|Hge]; [|by apply (fa_period _ _ _ _ F); lia].
  assert (E : x (q - p) = x (q - p + r)) by (rewrite (Hper (q - p + r)) by lia; f_equal; lia). rewrite E.
  destruct (Z.lt_ge_cases q s) as [Hqs|Hqs].
  - assert (E' : x q = x (q + r)) by (rewrite (Hper (q + r)) by lia; f_equal; lia). rewrite E'.
    rewrite (fa_period _ _ _ _ F) by lia. f_equal. lia.
  - rewrite <-(period_mult x n s p (k - 1) q) by (apply F || nia). f_equal. nia.
Qed.

(** The test of the code: the left half is repeated [p] further. *)
Lemma period_test : period x n 0 p <-> forall k, 0 <= k < s -> x k = x (k + p).
Proof.
  pose proof (fa_p _ _ _ _ F) as Hp. split.
  - intros Hper k Hk. rewrite (Hper (k + p)) by lia. f_equal. lia.
  - intros H q Hq. destruct (Z.lt_ge_cases q (s + p)) as [|Hge]; [|by apply (fa_period _ _ _ _ F); lia].
    rewrite (H (q - p)) by lia. f_equal. lia.
Qed.
End word.

(** ** The shifts *)

Section shifts.
Context (x h : Z -> Z) (n s p : Z) (F : factorization x n s p).

Definition occurs (j : Z) : Prop := forall k, 0 <= k < n -> h (j + k) = x k.
Definition agrees (a b j : Z) : Prop := forall k, a <= k < b -> h (j + k) = x k.

Lemma occurs_repeats j i d : agrees s i j -> i <= n -> 0 < d -> (d <= i - s \/ i = n) ->
  occurs (j + d) -> repeats x n s d.
Proof.
  intros Ha Hi Hd Hle Ho q Hq Hqd. pose proof (fa_s _ _ _ _ F).
  rewrite <-Ha by lia. rewrite <-(Ho (q - d)) by lia. f_equal. lia.
Qed.

(** After a mismatch in the right half. *)
Lemma shift_right j i d : agrees s i j -> s <= i < n -> h (j + i) <> x i -> 0 < d <= i - s -> ~ occurs (j + d).
Proof.
  intros Ha Hi Hne Hd Ho. apply Hne.
  destruct (fa_critical _ _ _ _ F d) as [Hsd Hper]; [lia|by eapply occurs_repeats; [..|exact Ho]; [done|lia..]|].
  rewrite Hper by (pose proof (fa_s _ _ _ _ F); lia).
  rewrite <-(Ho (i - d)) by (pose proof (fa_s _ _ _ _ F); lia). f_equal. lia.
Qed.

(** After a match of the right half, when the word is periodic. *)
Lemma shift_periodic j d : agrees s n j -> 0 < d < p -> ~ occurs (j + d).
Proof.
  intros Ha Hd Ho. pose proof (fa_s _ _ _ _ F). apply (fa_least _ _ _ _ F d Hd), (period_sub x n 0); [lia|].
  apply (fa_critical _ _ _ _ F); [lia|]. by eapply occurs_repeats; [..|exact Ho]; [done|lia..].
Qed.

(** After a match of the right half, when the word is not periodic. *)
Lemma shift_distinct j d : ~ period x n 0 p -> agrees s n j -> 0 < d <= Z.max s (n - s) -> ~ occurs (j + d).
Proof.
  intros Hnp Ha Hd Ho. pose proof (fa_s _ _ _ _ F).
  destruct (fa_critical _ _ _ _ F d) as [Hsd Hper];
    [lia|by eapply occurs_repeats; [..|exact Ho]; [done|lia..]|].
  apply Hnp, (short_period x n s p F d); [lia|done].
Qed.

(** A periodic word moved by its period agrees again. *)
Lemma shift_memory j : period x n 0 p -> agrees s n j -> agrees 0 (n - p) (j + p).
Proof.
  intros Hper Ha k Hk. destruct (fa_critical _ _ _ _ F p) as [Hsp _];
    [pose proof (fa_p _ _ _ _ F); lia|by apply period_repeats; [pose proof (fa_s _ _ _ _ F); lia|]|].
  replace (j + p + k) with (j + (k + p)) by lia. rewrite Ha by lia. rewrite Hper by lia. f_equal. lia.
Qed.
End shifts.
