(* ===== verification/StrStr.v ===== *)
(** * Substring search: string/str-two-way.h, strstr.c, strcasestr.c, memmem.c

    The two-way search over the macros that the three files define before they
    include it, and the three functions in both their configurations. *)

From S2P Require Import Prelude CMonad Words Memory StrScan StrCmp Ctype.

(** ** string/str-two-way.h *)

(** The macros of the including file.  [AVAILABLE] may assign its second
    argument, and gives back what it is then. *)
Class macros := {
  CANON_ELEMENT : Z -> C Z;
  CMP_FUNC : Z -> Z -> Z -> C Z;
  AVAILABLE : Z -> Z -> Z -> Z -> C (bool * Z);
}.

Definition LONG_NEEDLE_THRESHOLD : Z := 32.
Definition SIZE_MAX : Z := 4294967295.
Definition MAX (a b : Z) : Z := if a <? b then b else a.

Section two_way.
Context `{macros}.

(** One of the two searches of [critical_factorization]; [smaller] is its
    comparison. *)
Definition maximal_suffix (smaller : Z -> Z -> bool) (needle needle_len : Z) : C (Z * Z) :=
  loop (fun '(max_suffix, j, k, p) =>
    if u32 (j + k) <? needle_len then
      a ← (x ← load8 (needle + u32 (j + k)); CANON_ELEMENT x);
      b ← (x ← load8 (needle + u32 (max_suffix + k)); CANON_ELEMENT x);
      if smaller a b then
        let j := u32 (j + k) in next (max_suffix, j, 1, u32 (j - max_suffix))
      else if a =? b then
        if negb (k =? p) then next (max_suffix, j, u32 (k + 1), p)
        else next (max_suffix, u32 (j + p), 1, p)
      else next (j, u32 (j + 1), 1, 1)
    else brk (max_suffix, p)) (SIZE_MAX, 0, 1, 1).

(** The index, and the period. *)
Definition critical_factorization (needle needle_len : Z) : C (Z * Z) :=
  '(max_suffix, period) ← maximal_suffix (fun a b => a <? b) needle needle_len;
  '(max_suffix_rev, p) ← maximal_suffix (fun a b => b <? a) needle needle_len;
  mret (if u32 (max_suffix_rev + 1) <? u32 (max_suffix + 1) then (u32 (max_suffix + 1), period)
        else (u32 (max_suffix_rev + 1), p)).

(** [CANON_ELEMENT (needle[i]) == CANON_ELEMENT (haystack[i + j])] *)
Definition same_element (haystack j needle i : Z) : C bool :=
  a ← (x ← load8 (needle + i); CANON_ELEMENT x);
  b ← (x ← load8 (haystack + u32 (i + j)); CANON_ELEMENT x);
  mret (a =? b).

(** [while (i < last && ..) ++i;] *)
Definition scan_right (haystack j needle last i : Z) : C Z :=
  loop (fun i =>
    if i <? last then
      same ← same_element haystack j needle i;
      if (same : bool) then next (u32 (i + 1)) else brk i
    else brk i) i.

(** [while (memory < i + 1 && ..) --i;] *)
Definition scan_left_from (haystack j needle memory i : Z) : C Z :=
  loop (fun i =>
    if memory <? u32 (i + 1) then
      same ← same_element haystack j needle i;
      if (same : bool) then next (u32 (i - 1)) else brk i
    else brk i) i.

(** [while (i != SIZE_MAX && ..) --i;] *)
Definition scan_left (haystack j needle i : Z) : C Z :=
  loop (fun i =>
    if negb (i =? SIZE_MAX) then
      same ← same_element haystack j needle i;
      if (same : bool) then next (u32 (i - 1)) else brk i
    else brk i) i.

(** The two branches of [two_way_short_needle]. *)
Definition short_periodic (haystack haystack_len needle needle_len suffix period : Z) : C Z :=
  loop (fun '(haystack_len, j, memory) =>
    '(available, haystack_len) ← AVAILABLE haystack haystack_len j needle_len;
    if (available : bool) then
      i ← scan_right haystack j needle needle_len (MAX suffix memory);
      if needle_len <=? i then
        i ← scan_left_from haystack j needle memory (u32 (suffix - 1));
        if u32 (i + 1) <? u32 (memory + 1) then brk (haystack + j) else
        next (haystack_len, u32 (j + period), u32 (needle_len - period))
      else next (haystack_len, u32 (j + u32 (u32 (i - suffix) + 1)), 0)
    else brk 0) (haystack_len, 0, 0).

Definition short_distinct (haystack haystack_len needle needle_len suffix : Z) : C Z :=
  let period := u32 (MAX suffix (u32 (needle_len - suffix)) + 1) in
  loop (fun '(haystack_len, j) =>
    '(available, haystack_len) ← AVAILABLE haystack haystack_len j needle_len;
    if (available : bool) then
      i ← scan_right haystack j needle needle_len suffix;
      if needle_len <=? i then
        i ← scan_left haystack j needle (u32 (suffix - 1));
        if i =? SIZE_MAX then brk (haystack + j) else
        next (haystack_len, u32 (j + period))
      else next (haystack_len, u32 (j + u32 (u32 (i - suffix) + 1)))
    else brk 0) (haystack_len, 0).

Definition two_way_short_needle (haystack haystack_len needle needle_len : Z) : C Z :=
  '(suffix, period) ← critical_factorization needle needle_len;
  d ← CMP_FUNC needle (needle + period) suffix;
  if d =? 0 then short_periodic haystack haystack_len needle needle_len suffix period
  else short_distinct haystack haystack_len needle needle_len suffix.

(** [shift_table], a local array of [1U << CHAR_BIT] elements. *)
Definition fill_shift_table (needle needle_len : Z) : C (list Z) :=
  table ← loop (fun '(i, table) =>
    if i <? 256 then next (u32 (i + 1), <[Z.to_nat i := needle_len]> table) else brk table)
    (0, replicate 256 0);
  loop (fun '(i, table) =>
    if i <? needle_len then
      c ← (x ← load8 (needle + i); CANON_ELEMENT x);
      next (u32 (i + 1), <[Z.to_nat c := u32 (u32 (needle_len - i) - 1)]> table)
    else brk table) (0, table).

(** [shift_table[CANON_ELEMENT (haystack[j + needle_len - 1])]] *)
Definition last_shift (table : list Z) (haystack j needle_len : Z) : C Z :=
  c ← (x ← load8 (haystack + u32 (u32 (j + needle_len) - 1)); CANON_ELEMENT x);
  match table !! Z.to_nat c with Some shift => mret shift | None => fault end.

(** The two branches of [two_way_long_needle]. *)
Definition long_periodic (table : list Z) (haystack haystack_len needle needle_len suffix period : Z) : C Z :=
  loop (fun '(haystack_len, j, memory) =>
    '(available, haystack_len) ← AVAILABLE haystack haystack_len j needle_len;
    if (available : bool) then
      shift ← last_shift table haystack j needle_len;
      if 0 <? shift then
        let '(shift, memory) :=
          if negb (memory =? 0) && (shift <? period) then (u32 (needle_len - period), 0)
          else (shift, memory) in
        next (haystack_len, u32 (j + shift), memory)
      else
      i ← scan_right haystack j needle (u32 (needle_len - 1)) (MAX suffix memory);
      if u32 (needle_len - 1) <=? i then
        i ← scan_left_from haystack j needle memory (u32 (suffix - 1));
        if u32 (i + 1) <? u32 (memory + 1) then brk (haystack + j) else
        next (haystack_len, u32 (j + period), u32 (needle_len - period))
      else next (haystack_len, u32 (j + u32 (u32 (i - suffix) + 1)), 0)
    else brk 0) (haystack_len, 0, 0).

Definition long_distinct (table : list Z) (haystack haystack_len needle needle_len suffix : Z) : C Z :=
  let period := u32 (MAX suffix (u32 (needle_len - suffix)) + 1) in
  loop (fun '(haystack_len, j) =>
    '(available, haystack_len) ← AVAILABLE haystack haystack_len j needle_len;
    if (available : bool) then
      shift ← last_shift table haystack j needle_len;
      if 0 <? shift then next (haystack_len, u32 (j + shift)) else
      i ← scan_right haystack j needle (u32 (needle_len - 1)) suffix;
      if u32 (needle_len - 1) <=? i then
        i ← scan_left haystack j needle (u32 (suffix - 1));
        if i =? SIZE_MAX then brk (haystack + j) else
        next (haystack_len, u32 (j + period))
      else next (haystack_len, u32 (j + u32 (u32 (i - suffix) + 1)))
    else brk 0) (haystack_len, 0).

Definition two_way_long_needle (haystack haystack_len needle needle_len : Z) : C Z :=
  '(suffix, period) ← critical_factorization needle needle_len;
  table ← fill_shift_table needle needle_len;
  d ← CMP_FUNC needle (needle + period) suffix;
  if d =? 0 then long_periodic table haystack haystack_len needle needle_len suffix period
  else long_distinct table haystack haystack_len needle needle_len suffix.

(** The end of the three functions. *)
Definition two_way (haystack haystack_len needle needle_len : Z) : C Z :=
  if needle_len <? LONG_NEEDLE_THRESHOLD
  then two_way_short_needle haystack haystack_len needle needle_len
  else two_way_long_needle haystack haystack_len needle needle_len.
End two_way.

(** ** string/memmem.c *)

Section code.
Context {cfg : build}.

Definition memmem_macros : macros := {|
  CANON_ELEMENT c := mret c;
  CMP_FUNC := memcmp;
  AVAILABLE h h_l j n_l := mret (j <=? u32 (h_l - n_l), h_l);
|}.

Definition memmem (haystack_start haystack_len needle_start needle_len : Z) : C Z :=
  let haystack := haystack_start in
  let needle := needle_start in
  if needle_len =? 0 then mret haystack else
  if PREFER_SIZE_OVER_SPEED then
    loop (fun '(haystack, haystack_len) =>
      if needle_len <=? haystack_len then
        d ← memcmp haystack needle needle_len;
        if d =? 0 then brk haystack else next (haystack + 1, u32 (haystack_len - 1))
      else brk 0) (haystack, haystack_len)
  else
    if haystack_len <? needle_len then mret 0 else
    if needle_len <? LONG_NEEDLE_THRESHOLD then
      c ← load8 needle; haystack ← memchr haystack c haystack_len;
      if (haystack =? 0) || (needle_len =? 1) then mret haystack else
      let haystack_len := u32 (haystack_len - (haystack - haystack_start)) in
      if haystack_len <? needle_len then mret 0 else
      two_way_short_needle (H := memmem_macros) haystack haystack_len needle needle_len
    else two_way_long_needle (H := memmem_macros) haystack haystack_len needle needle_len.

(** ** string/strstr.c *)

(** The macro [AVAILABLE] of strstr.c and strcasestr.c. *)
Definition available_string (h h_l j n_l : Z) : C (bool * Z) :=
  e ← memchr (h + h_l) 0 (u32 (u32 (j + n_l) - h_l));
  if e =? 0 then let h_l := u32 (j + n_l) in mret (negb (h_l =? 0), h_l) else mret (false, h_l).

Definition strstr_macros : macros := {|
  CANON_ELEMENT c := mret c;
  CMP_FUNC := memcmp;
  AVAILABLE := available_string;
|}.

Definition strstr (searchee lookfor : Z) : C Z :=
  if PREFER_SIZE_OVER_SPEED then
    c ← load8s searchee;
    if c =? 0 then
      d ← load8s lookfor; mret (if negb (d =? 0) then 0 else searchee)
    else
    loop (fun searchee =>
      c ← load8s searchee;
      if negb (c =? 0) then
        found ← loop (fun i =>
          a ← load8s (lookfor + i);
          if a =? 0 then brk true else
          b ← load8s (searchee + i);
          if negb (a =? b) then brk false else next (u32 (i + 1))) 0;
        if (found : bool) then brk searchee else next (searchee + 1)
      else brk 0) searchee
  else
    '(haystack, needle, ok) ← loop (fun '(haystack, needle, ok) =>
      a ← load8s haystack;
      if a =? 0 then brk (haystack, needle, ok) else
      b ← load8s needle;
      if b =? 0 then brk (haystack, needle, ok) else
      next (haystack + 1, needle + 1, Z.land ok (Z.b2z (a =? b)))) (searchee, lookfor, 1);
    c ← load8s needle;
    if negb (c =? 0) then mret 0 else
    if negb (ok =? 0) then mret searchee else
    let needle_len := u32 (needle - lookfor) in
    d ← load8s lookfor;
    haystack ← strchr (searchee + 1) d;
    if (haystack =? 0) || (needle_len =? 1) then mret haystack else
    let haystack_len := if searchee + needle_len <? haystack then 1
      else u32 (needle_len + searchee - haystack) in
    two_way (H := strstr_macros) haystack haystack_len lookfor needle_len.

(** ** string/strcasestr.c *)

Definition strcasestr_macros : macros := {|
  CANON_ELEMENT := tolower;
  CMP_FUNC := strncasecmp;
  AVAILABLE := available_string;
|}.

Definition strcasestr (s find : Z) : C Z :=
  if PREFER_SIZE_OVER_SPEED then
    c ← load8s find;
    let find := find + 1 in
    if negb (c =? 0) then
      c ← (x ← tolower (u8 c); mret (s8 x));
      len ← strlen find;
      s ⇐ loop (fun s =>
        x ← loop (fun s =>
          sc ← load8s s;
          let s := s + 1 in
          if sc =? 0 then brk None else
          x ← tolower (u8 sc);
          if negb (s8 x =? c) then next s else brk (Some s)) s;
        match x with
        | None => brk (Return 0)
        | Some s => d ← strncasecmp s find len; if negb (d =? 0) then next s else brk (Fall s)
        end) s;
      mret (s - 1)
    else mret s
  else
    '(haystack, needle, ok) ← loop (fun '(haystack, needle, ok) =>
      a ← load8s haystack;
      if a =? 0 then brk (haystack, needle, ok) else
      b ← load8s needle;
      if b =? 0 then brk (haystack, needle, ok) else
      x ← (c ← load8 haystack; tolower c);
      y ← (c ← load8 needle; tolower c);
      next (haystack + 1, needle + 1, Z.land ok (Z.b2z (x =? y)))) (s, find, 1);
    c ← load8s needle;
    if negb (c =? 0) then mret 0 else
    if negb (ok =? 0) then mret s else
    let needle_len := u32 (needle - find) in
    two_way (H := strcasestr_macros) (s + 1) (u32 (needle_len - 1)) find needle_len.
End code.
