(* ===== verification/StrStrSpec.v ===== *)
(** * The two-way search finds the first occurrence *)

From S2P Require Import Prelude CMonad Words Memory StrScan StrCmp Ctype TwoWay StrStr.

(** ** The specification *)

(** The index of the first occurrence of [X] in [H]. *)
Fixpoint find_sub (X H : list Z) : option nat :=
  if bool_decide (X `prefix_of` H) then Some O else
  match H with [] => None | _ :: H' => S <$> find_sub X H' end.

(** The place of the first occurrence, or null. *)
Definition found (p : Z) (X H : list Z) : Z :=
  match find_sub X H with Some i => p + Z.of_nat i | None => 0 end.

(** The character at an index. *)
Definition at_ (L : list Z) (i : Z) : Z := L !!! Z.to_nat i.

(** The lists as words. *)
Definition here (X H : list Z) (j : Z) : Prop :=
  0 <= j /\ j + zlen X <= zlen H /\ occurs (at_ X) (at_ H) (zlen X) j.

Lemma at_cons a L i : 0 <= i -> at_ (a :: L) (i + 1) = at_ L i.
Proof. intros Hi. unfold at_. by replace (Z.to_nat (i + 1)) with (S (Z.to_nat i)) by lia. Qed.

Lemma at_lookup L i : 0 <= i < zlen L -> L !! Z.to_nat i = Some (at_ L i).
Proof. intros Hi. apply list_lookup_lookup_total_lt. lia. Qed.

Lemma at_map f L i : 0 <= i < zlen L -> at_ (map f L) i = f (at_ L i).
Proof.
  intros Hi. unfold at_ at 1. apply list_lookup_total_correct.
  rewrite list_lookup_fmap, at_lookup by done. done.
Qed.

Lemma prefix_here X H : X `prefix_of` H <-> here X H 0.
Proof.
  split.
  - intros [t ->]. split_and!; [lia|rewrite length_app; lia|]. intros k Hk. unfold at_.
    rewrite lookup_total_app_l by lia. done.
  - intros (_ & Hle & Ho). exists (drop (length X) H).
    rewrite <-(take_drop (length X) H) at 1. f_equal. apply list_eq_same_length with (length X); [done|rewrite length_take; lia|].
    intros i a b Hi Ha Hb. specialize (Ho (Z.of_nat i) ltac:(lia)). unfold at_ in Ho.
    rewrite lookup_take_lt in Ha by lia.
    rewrite (list_lookup_total_correct H _ a), (list_lookup_total_correct X _ b) in Ho; [done| |];
      [rewrite <-Hb|rewrite <-Ha]; f_equal; lia.
Qed.

Lemma here_cons X a H j : 0 <= j -> here X (a :: H) (j + 1) <-> here X H j.
Proof.
  intros Hj. unfold here. assert (E : occurs (at_ X) (at_ (a :: H)) (zlen X) (j + 1) <->
    occurs (at_ X) (at_ H) (zlen X) j).
  { split; intros Ho k Hk; specialize (Ho k Hk).
    - rewrite <-Ho, <-(at_cons a) by lia. f_equal. lia.
    - rewrite <-Ho. replace (j + 1 + k) with (j + k + 1) by lia. apply at_cons. lia. }
  cbn [length]. rewrite E. split; intros (? & ? & ?); split_and!; [lia..|done|lia|lia|done].
Qed.

Lemma find_sub_Some X H j : here X H j -> (forall i, 0 <= i < j -> ~ here X H i) ->
  find_sub X H = Some (Z.to_nat j).
Proof.
  assert (E : here X H j -> 0 <= j) by (intros [? _]; done). revert j E.
  induction H as [|a H IH]; intros j E Hj Hno; cbn [find_sub].
  - destruct Hj as (Hj & Hle & _). cbn in Hle. destruct X; [|simpl in Hle; lia].
    rewrite bool_decide_true by by exists []. f_equal. lia.
  - specialize (E Hj). destruct (decide (X `prefix_of` a :: H)) as [Hp|Hp].
    + rewrite bool_decide_true by done. apply prefix_here in Hp.
      destruct (Z.eq_dec j 0) as [->|]; [done|]. by destruct (Hno 0 ltac:(lia)).
    + rewrite bool_decide_false by done. rewrite prefix_here in Hp.
      assert (j <> 0) by (intros ->; done). replace j with (j - 1 + 1) in Hj by lia.
      rewrite here_cons in Hj by lia. rewrite (IH (j - 1)); [simpl; f_equal; lia|lia|done|].
      intros i Hi Hh. apply (Hno (i + 1)); [lia|]. by rewrite here_cons by lia.
Qed.

Lemma find_sub_None X H : (forall i, ~ here X H i) -> find_sub X H = None.
Proof.
  induction H as [|a H IH]; intros Hno; cbn [find_sub].
  - rewrite bool_decide_false; [done|]. rewrite prefix_here. apply Hno.
  - rewrite bool_decide_false by (rewrite prefix_here; apply Hno). rewrite IH; [done|].
    intros i Hh. apply (Hno (i + 1)). by rewrite here_cons by apply Hh.
Qed.

(** A result of the search. *)
Lemma found_at p X H j : here X H j -> (forall i, 0 <= i < j -> ~ here X H i) -> found p X H = p + j.
Proof.
  intros Hj Hno. unfold found. rewrite (find_sub_Some X H j) by done. destruct Hj. lia.
Qed.
Lemma found_none p X H : (forall i, ~ here X H i) -> found p X H = 0.
Proof. intros Hno. unfold found. by rewrite find_sub_None. Qed.

Lemma found_prefix p X H : X `prefix_of` H -> found p X H = p.
Proof. intros HX. unfold found. destruct H; cbn [find_sub]; rewrite bool_decide_true by done; lia. Qed.

Lemma found_skip p X a H : ~ X `prefix_of` a :: H -> found p X (a :: H) = found (p + 1) X H.
Proof.
  intros HX. unfold found. cbn [find_sub]. rewrite bool_decide_false by done.
  destruct (find_sub X H); simpl; lia.
Qed.

Lemma found_short p X H : (length H < length X)%nat -> found p X H = 0.
Proof.
  intros Hlt. apply found_none. intros i (? & ? & _). lia.
Qed.

(** An occurrence starts at the first character of the needle. *)
Lemma found_first p c X H : found p (c :: X) H =
  match find_idx (fun b => b =? c) H with
  | Some k => found (p + Z.of_nat k) (c :: X) (drop k H)
  | None => 0
  end.
Proof.
  revert p. induction H as [|b H IH]; intros p; cbn [find_idx]; [by apply found_short; simpl; lia|].
  destruct (Z.eqb_spec b c) as [->|Hne]; [by rewrite Z.add_0_r|].
  rewrite found_skip by (intros [t E]; by simplify_eq/=). rewrite IH.
  destruct (find_idx _ H); simpl; [|done]. f_equal. lia.
Qed.

Lemma found_singleton p c H : found p [c] (c :: H) = p.
Proof. apply found_prefix. by exists H. Qed.

(** When the search of long needles is right: a needle without a border, or a
    text with no other characters than the needle's. *)
Definition searchable (X H : list Z) : Prop := zlen X < 32 \/
  (forall p, 0 < p < zlen X -> ~ period (at_ X) (zlen X) 0 p) \/ Forall (fun c => c ∈ X) H.

Lemma searchable_drop X H k : searchable X H -> searchable X (drop k H).
Proof. intros [?|[?|?]]; [by left|by right; left|right; right]. by apply Forall_drop. Qed.

(** ** The interface of the including files *)

(** What the search relies on of the macros: the needle [X] at [nd] and the text
    [H] at [hay], read through the conversion [canon] of characters.  [known j l]
    says that [l] is a value the length of the text may have when the search is
    at [j]. *)
Class matching (M : macros) (canon : Z -> Z) (w : world) (fuel : nat) (nd hay : Z) (X H : list Z) := {
  known : Z -> Z -> Prop;
  canon_byte c : is_byte c -> is_byte (canon c);
  wp_canon n c (Q : Z -> world -> Prop) : is_byte c -> Q (canon c) w -> wp n (CANON_ELEMENT c) w Q;
  wp_cmp n s p (Q : Z -> world -> Prop) : (fuel <= n)%nat -> 0 <= s -> 0 < p -> s + p <= zlen X ->
    (forall v, v = 0 <-> (forall k, 0 <= k < s -> canon (at_ X k) = canon (at_ X (k + p))) -> Q v w) ->
    wp n (CMP_FUNC nd (nd + p) s) w Q;
  wp_available n j l (Q : bool * Z -> world -> Prop) : (fuel <= n)%nat -> known j l ->
    0 <= j <= zlen H + zlen X ->
    (forall l', (j + zlen X <= zlen H -> forall j', j <= j' -> known j' l') ->
      Q (bool_decide (j + zlen X <= zlen H), l') w) ->
    wp n (AVAILABLE hay l j (zlen X)) w Q;
}.

Section two_way.
Context {M : macros} (canon : Z -> Z) (w : world) (fuel : nat) (nd hay : Z) (X H : list Z).
Context {L : matching M canon w fuel nd hay X H}.
Context (Hok : mem_ok (w_mem w)) (HX : bytes (w_mem w) nd X) (HH : bytes (w_mem w) hay H) (Hne : X <> []).
Implicit Types (n : nat).

Let x := at_ (map canon X).
Let h := at_ (map canon H).
Let nl := zlen X.

Lemma sizes : 0 < nl < 1073741824 /\ zlen H < 1073741824.
Proof.
  pose proof (mem_ok_range _ _ _ Hok HX Hne). unfold nl. destruct X as [|a X']; [done|]. split; [simpl in *; lia|].
  destruct H as [|b H']; [simpl; lia|]. pose proof (mem_ok_range _ _ _ Hok HH ltac:(done)). lia.
Qed.

Lemma element_byte p A i : bytes (w_mem w) p A -> 0 <= i < zlen A -> is_byte (at_ (map canon A) i).
Proof.
  intros HA Hi. rewrite at_map by done. apply canon_byte. apply mem_ok_bytes in HA; [|done].
  rewrite Forall_lookup in HA. eapply HA. by apply at_lookup.
Qed.

(** An element of one of the two arrays. *)
Lemma wp_element n p A i (Q : Z -> world -> Prop) :
  bytes (w_mem w) p A -> 0 <= i < zlen A -> Q (at_ (map canon A) i) w ->
  wp n (y ← load8 (p + i); CANON_ELEMENT y) w Q.
Proof.
  intros HA Hi HQ. wp_step. apply at_lookup in Hi as Hl.
  eapply wp_load8; [|apply wp_canon].
  - replace (p + i) with (p + Z.of_nat (Z.to_nat i)) by lia. by eapply bytes_lookup.
  - apply mem_ok_bytes in HA; [|done]. rewrite Forall_lookup in HA. by eapply HA.
  - rewrite at_map in HQ by done. exact HQ.
Qed.

(** *** The critical factorization *)

Lemma wp_maximal_suffix n smaller (f : Z -> Z) (Q : Z * Z -> world -> Prop) :
  (forall i j, smaller (x i) (x j) = (f i <? f j)) -> (forall i j, x i = x j <-> f i = f j) ->
  (2 * length X < n)%nat ->
  (forall ms p, -1 <= ms -> maximal f nl (ms + 1) -> 0 < p <= nl - (ms + 1) -> period f nl (ms + 1) p ->
    (forall d, 0 < d < p -> ~ period f nl (ms + 1) d) -> Q (u32 ms, p) w) ->
  wp n (maximal_suffix smaller nd nl) w Q.
Proof.
  intros Hsm Heq Hn HQ. destruct sizes as [Hnl _].
  set (I := fun (k : nat) '(ms', j, i, p) (w' : world) => w' = w /\ exists ms, ms' = u32 ms /\
    searching f nl ms j i p /\ 2 * nl - (ms + j + i) <= Z.of_nat k).
  eapply (wp_loop_inv I _ (2 * length X)); [|lia|].
  - split; [done|]. exists (-1). split_and!; [done|apply searching_start; lia|lia].
  - intros k [[[ms' j] i] p] w' (-> & ms & -> & Hse & Hk).
    pose proof (se_ms _ _ _ _ _ _ Hse). pose proof (se_k _ _ _ _ _ _ Hse).
    pose proof (se_end _ _ _ _ _ _ Hse). assert (Hp : p <= j - ms).
    { destruct (se_rep _ _ _ _ _ _ Hse) as (e & ? & ?). nia. }
    rewrite !(u32_small (j + i)) by lia. replace (u32 (u32 ms + i)) with (ms + i) by (unfold u32; lia).
    wp_if.
    + wp_step. eapply wp_element; [exact HX|lia|]. wp_step. eapply wp_element; [exact HX|lia|]. fold x.
      rewrite Hsm. destruct (Z.ltb_spec (f (j + i)) (f (ms + i))) as [Hlt|Hge].
      { wp_steps. replace (u32 (j + i - u32 ms)) with (j + i - ms) by (unfold u32; lia).
        exists (k - 1)%nat. split; [lia|]. split; [done|]. exists ms.
        split_and!; [done|apply (searching_smaller f nl Hse); [blia|done]|lia]. }
      destruct (Z.eqb_spec (x (j + i)) (x (ms + i))) as [E'|E'].
      * apply Heq in E'. pose proof (searching_equal f nl Hse ltac:(blia) E') as Hs'.
        destruct (Z.eqb_spec i p) as [->|Hip]; wp_steps; rewrite ?(u32_small (j + p)), ?(u32_small (i + 1)) by lia;
          exists (k - 1)%nat; (split; [blia|]); (split; [done|]); exists ms; (split; [done|]);
          (split; [done|blia]).
      * wp_steps. exists (k - 1)%nat. split; [|split; [done|]]; [|exists j].
        -- lia.
        -- rewrite !u32_small by lia. split_and!; [done| |lia].
           apply (searching_greater f nl Hse); [blia|]. rewrite Heq in E'. lia.
    + wp_steps. assert (j + i = nl) by blia.
      destruct (searching_done f nl _ _ _ _ Hse) as (? & ? & ? & ?); [done|]. apply HQ; [lia|done..].
Qed.

Lemma wp_critical_factorization n (Q : Z * Z -> world -> Prop) :
  (2 * length X < n)%nat -> (forall s p, factorization x nl s p -> Q (s, p) w) ->
  wp n (critical_factorization nd nl) w Q.
Proof.
  intros Hn HQ. destruct sizes as [Hnl _]. unfold critical_factorization.
  wp_step. apply (wp_maximal_suffix _ _ x); [done|done|done|]. intros ms p Hms Hmax Hp Hper Hleast.
  wp_step. apply (wp_maximal_suffix _ _ (fun i => - x i)); [intros; lia|intros; lia|done|].
  intros ms' p' Hms' Hmax' Hp' Hper' Hleast'. wp_step.
  pose proof (proj1 Hmax). pose proof (proj1 Hmax').
  replace (u32 (u32 ms + 1)) with (ms + 1) by (unfold u32; lia).
  replace (u32 (u32 ms' + 1)) with (ms' + 1) by (unfold u32; lia).
  destruct (Z.ltb_spec (ms' + 1) (ms + 1)); apply HQ.
  - eapply (factorization_of x (fun i => - x i)); [done|done|exact Hmax'|lia|done..].
  - apply (factorization_neg (fun i => - x i)); [intros; lia|].
    eapply (factorization_of _ x); [intros; lia|done|exact Hmax|lia|done..].
Qed.

(** *** The scans of a window *)

Section window.
Context (j : Z) (Hj : 0 <= j) (Hwin : j + nl <= zlen H).

Lemma wp_same_element n i (Q : bool -> world -> Prop) : 0 <= i < nl ->
  Q (h (j + i) =? x i) w -> wp n (same_element hay j nd i) w Q.
Proof.
  intros Hi HQ. destruct sizes as [_ HN]. unfold same_element. wp_step. eapply wp_element; [exact HX|exact Hi|].
  wp_step. rewrite u32_small by lia. eapply wp_element; [exact HH|lia|]. wp_step.
  eqapply HQ. rewrite Z.eqb_sym. unfold h. by rewrite (Z.add_comm j).
Qed.

Lemma wp_scan_right n last i (Q : Z -> world -> Prop) : 0 <= i <= last -> last <= nl -> (length X < n)%nat ->
  (forall i', i <= i' <= last -> agrees x h i i' j -> i' = last \/ h (j + i') <> x i' -> Q i' w) ->
  wp n (scan_right hay j nd last i) w Q.
Proof.
  intros Hi Hl Hn HQ. destruct sizes as [Hnl _].
  set (I := fun (k : nat) i' (w' : world) => w' = w /\ i <= i' <= last /\ agrees x h i i' j /\
    Z.of_nat k = last - i').
  eapply (wp_loop_inv I _ (Z.to_nat (last - i))); [|lia|].
  - split_and!; [done|lia..|intros q Hq; lia|lia].
  - intros k i' w' (-> & Hi' & Ha & Hk). wp_if; [|wp_steps; apply HQ; [done..|left; blia]].
    wp_step. apply wp_same_element; [blia|]. destruct (Z.eqb_spec (h (j + i')) (x i')) as [E'|E']; wp_steps.
    + rewrite u32_small by lia. exists (k - 1)%nat. split; [blia|]. split; [done|]. split; [blia|]. split; [|blia].
      intros q Hq. destruct (Z.eq_dec q i') as [->|]; [done|apply Ha; lia].
    + apply HQ; [done..|by right].
Qed.

(** The scan to the left stops at a mismatch, or where [memory] ends. *)
Lemma wp_scan_left_loop n (c : Z -> bool) memory s (Q : Z -> world -> Prop) :
  (forall i, -1 <= i < nl -> c (u32 i) = (memory <? i + 1)) ->
  0 <= memory -> 0 <= s < nl -> (length X < n)%nat ->
  (forall i', -1 <= i' < s -> agrees x h (i' + 1) s j ->
     i' < memory \/ memory <= i' /\ h (j + i') <> x i' -> Q (u32 i') w) ->
  wp n (loop (fun i => if c i then same ← same_element hay j nd i;
    if (same : bool) then next (u32 (i - 1)) else brk i else brk i) (u32 (s - 1))) w Q.
Proof.
  intros Hc Hm Hs Hn HQ. destruct sizes as [Hnl _].
  set (I := fun (k : nat) i' (w' : world) => w' = w /\ exists i, i' = u32 i /\ -1 <= i < s /\
    agrees x h (i + 1) s j /\ Z.of_nat k = i + 1).
  eapply (wp_loop_inv I _ (Z.to_nat s)); [|unfold nl in *; lia|].
  - split; [done|]. exists (s - 1). split_and!; [done|lia..|intros q Hq; lia|lia].
  - intros k i' w' (-> & i & -> & Hi & Ha & Hk). rewrite Hc by lia.
    wp_if; [|wp_steps; apply HQ; [done..|left; blia]].
    rewrite (u32_small i) by blia. wp_step. apply wp_same_element; [blia|].
    destruct (Z.eqb_spec (h (j + i)) (x i)) as [E'|E']; wp_steps.
    + exists (k - 1)%nat. split; [blia|]. split; [done|]. exists (i - 1).
      split; [done|]. split; [blia|]. split; [|blia].
      intros q Hq. destruct (Z.eq_dec q i) as [->|]; [done|apply Ha; lia].
    + rewrite <-(u32_small i) by blia. apply HQ; [done..|]. right. split; [blia|done].
Qed.

Lemma wp_scan_left_from n memory s (Q : Z -> world -> Prop) :
  0 <= memory -> 0 <= s < nl -> (length X < n)%nat ->
  (forall i', -1 <= i' < s -> agrees x h (i' + 1) s j ->
     i' < memory \/ memory <= i' /\ h (j + i') <> x i' -> Q (u32 i') w) ->
  wp n (scan_left_from hay j nd memory (u32 (s - 1))) w Q.
Proof.
  intros. destruct sizes. apply (wp_scan_left_loop _ (fun i => memory <? u32 (i + 1)) memory); [|done..].
  intros i Hi. replace (u32 (u32 i + 1)) with (i + 1) by (unfold u32; lia). done.
Qed.

Lemma wp_scan_left n s (Q : Z -> world -> Prop) : 0 <= s < nl -> (length X < n)%nat ->
  (forall i', -1 <= i' < s -> agrees x h (i' + 1) s j ->
     i' < 0 \/ 0 <= i' /\ h (j + i') <> x i' -> Q (u32 i') w) ->
  wp n (scan_left hay j nd (u32 (s - 1))) w Q.
Proof.
  intros. destruct sizes. apply (wp_scan_left_loop _ (fun i => negb (i =? SIZE_MAX)) 0); [|lia|done..].
  intros i Hi. unfold SIZE_MAX, u32. lia.
Qed.
End window.

(** *** The search *)

(** The search has moved to [j]. *)
Definition passed (j : Z) : Prop := 0 <= j <= zlen H + nl /\ forall i, 0 <= i < j -> ~ occurs x h nl i.

Lemma here_occurs i : here (map canon X) (map canon H) i <-> 0 <= i /\ i + nl <= zlen H /\ occurs x h nl i.
Proof. unfold here, nl. by rewrite !length_map. Qed.

Lemma passed_start : passed 0.
Proof. split; [unfold nl; lia|intros; lia]. Qed.

Lemma passed_move j d : passed j -> j + nl <= zlen H -> 0 < d <= nl + 1 ->
  ~ occurs x h nl j -> (forall e, 0 < e < d -> ~ occurs x h nl (j + e)) -> passed (j + d).
Proof.
  intros [Hj Hp] Hwin Hd Hno Hsk. destruct sizes as [Hnl _]. split; [lia|]. intros i Hi.
  destruct (Z.lt_trichotomy i j) as [Hlt|[->|Hgt]]; [by apply Hp; lia|done|].
  replace i with (j + (i - j)) by lia. apply Hsk. lia.
Qed.

Lemma passed_end j p : passed j -> zlen H < j + nl -> found p (map canon X) (map canon H) = 0.
Proof.
  intros [Hj Hp] Hend. apply found_none. intros i Hh. apply here_occurs in Hh as (? & ? & ?).
  apply (Hp i); [lia|done].
Qed.

Lemma passed_found j p : passed j -> j + nl <= zlen H -> occurs x h nl j ->
  found p (map canon X) (map canon H) = p + j.
Proof.
  intros [Hj Hp] Hwin Ho. apply found_at; [apply here_occurs; split_and!; [lia|done..]|].
  intros i Hi Hh. apply here_occurs in Hh as (? & ? & ?). by apply (Hp i Hi).
Qed.

Lemma agrees_app a b c j : agrees x h a b j -> agrees x h b c j -> agrees x h a c j.
Proof. intros H1 H2 k Hk. destruct (Z.lt_ge_cases k b); [apply H1|apply H2]; lia. Qed.

Lemma occurs_not j i : 0 <= i < nl -> h (j + i) <> x i -> ~ occurs x h nl j.
Proof. intros Hi Hd Ho. by apply Hd, Ho. Qed.

Section search.
Context (s p : Z) (F : factorization x nl s p).

(** A mismatch in the right half. *)
Lemma move_right j i : passed j -> j + nl <= zlen H -> s <= i < nl ->
  agrees x h s i j -> h (j + i) <> x i -> passed (j + (i - s + 1)).
Proof.
  intros Hp Hwin Hi Hri Hne'. pose proof (fa_s _ _ _ _ F).
  apply passed_move; [done|done|lia|apply (occurs_not j i); [lia|done]|].
  intros e He. apply (shift_right x h nl s p F j i); [done|lia|done|lia].
Qed.

(** *** The search for a needle that is not periodic *)

Section distinct.
Context (Hnp : ~ period x nl 0 p).

Lemma move_distinct j i : passed j -> j + nl <= zlen H -> agrees x h s nl j ->
  0 <= i < nl -> h (j + i) <> x i -> passed (j + (Z.max s (nl - s) + 1)).
Proof.
  intros Hp Hwin Hr Hi Hne'. pose proof (fa_s _ _ _ _ F).
  assert (Hs : 0 < s).
  { destruct (Z.eq_dec s 0) as [E|]; [|lia]. exfalso. apply Hnp, (period_test x nl s p F). intros; lia. }
  apply passed_move; [done|done|lia|by apply (occurs_not j i)|].
  intros e He. apply (shift_distinct x h nl s p F); [done|done|lia].
Qed.

Lemma wp_window_distinct n l j last (Q : (Z * Z) + Z -> world -> Prop) :
  passed j -> j + nl <= zlen H -> s <= last <= nl -> agrees x h last nl j -> (length X < n)%nat ->
  (occurs x h nl j -> Q (inr (hay + j)) w) -> (forall j', j < j' -> passed j' -> Q (inl (l, j')) w) ->
  wp n (i ← scan_right hay j nd last s;
    if last <=? i then
      i ← scan_left hay j nd (u32 (s - 1));
      if i =? SIZE_MAX then brk (hay + j) else
      next (l, u32 (j + u32 (MAX s (u32 (nl - s)) + 1)))
    else next (l, u32 (j + u32 (u32 (i - s) + 1)))) w Q.
Proof.
  intros Hp Hwin Hlast Hl Hn HF HN. destruct sizes as [Hnl HNb]. pose proof (fa_s _ _ _ _ F) as Hs.
  pose proof (proj1 Hp) as Hj. wp_step. apply wp_scan_right; [lia|done|lia|lia|done|]. intros i Hi Hri Hc.
  wp_if; [|wp_steps; rewrite (u32_small (i - s)), (u32_small (i - s + 1)), (u32_small (j + (i - s + 1))) by blia].
  - assert (Hr : agrees x h s nl j) by (apply (agrees_app s i nl); [done|]; by replace i with last by blia).
    wp_step. apply wp_scan_left; [lia|done|lia|done|]. intros i' Hi' Hle Hc'.
    replace (u32 i' =? SIZE_MAX) with (i' =? -1) by (unfold SIZE_MAX, u32; lia). wp_if; wp_steps.
    + apply HF, (agrees_app 0 s nl); [|done]. by replace 0 with (i' + 1) by blia.
    + destruct Hc' as [|[? Hne']]; [blia|]. rewrite (u32_small (nl - s)) by lia.
      assert (E' : MAX s (nl - s) = Z.max s (nl - s)) by (unfold MAX; destruct (Z.ltb_spec s (nl - s)); lia).
      rewrite E', (u32_small (_ + 1)), u32_small by lia.
      apply HN; [lia|]. by apply (move_distinct j i'); [..|lia|].
  - destruct Hc as [->|Hne']; [blia|]. apply HN; [lia|]. by apply move_right; [..|blia| |].
Qed.
End distinct.

(** *** The search for a periodic needle *)

Section periodic.
Context (Hper : period x nl 0 p).

(** A window whose first [memory] characters agree. *)
Definition memorized (j memory : Z) : Prop :=
  passed j /\ (memory = 0 \/ memory = nl - p) /\ agrees x h 0 memory j.

Lemma memorized_start : memorized 0 0.
Proof. split; [apply passed_start|split; [by left|intros q Hq; lia]]. Qed.

Lemma memorized_0 j : passed j -> memorized j 0.
Proof. intros Hp. split; [done|split; [by left|intros q Hq; lia]]. Qed.

Lemma move_left j i : passed j -> j + nl <= zlen H -> agrees x h s nl j ->
  0 <= i < nl -> h (j + i) <> x i -> memorized (j + p) (nl - p).
Proof.
  intros Hp Hwin Hr Hi Hne'. pose proof (fa_s _ _ _ _ F). pose proof (fa_p _ _ _ _ F).
  split; [|split; [by right|by apply (shift_memory x h nl s p F)]].
  apply passed_move; [done|done|lia|by apply (occurs_not j i)|].
  intros e He. apply (shift_periodic x h nl s p F); [done|lia].
Qed.

Lemma wp_window_periodic n l j memory last (Q : (Z * Z * Z) + Z -> world -> Prop) :
  memorized j memory -> j + nl <= zlen H -> s <= last <= nl -> memory <= last -> agrees x h last nl j ->
  (length X < n)%nat ->
  (occurs x h nl j -> Q (inr (hay + j)) w) ->
  (forall j' memory', j < j' -> memorized j' memory' -> Q (inl (l, j', memory')) w) ->
  wp n (i ← scan_right hay j nd last (MAX s memory);
    if last <=? i then
      i ← scan_left_from hay j nd memory (u32 (s - 1));
      if u32 (i + 1) <? u32 (memory + 1) then brk (hay + j) else
      next (l, u32 (j + p), u32 (nl - p))
    else next (l, u32 (j + u32 (u32 (i - s) + 1)), 0)) w Q.
Proof.
  intros (Hp & Hm & Ha) Hwin Hlast Hml Hl Hn HF HN. destruct sizes as [Hnl HNb].
  pose proof (fa_s _ _ _ _ F) as Hs. pose proof (fa_p _ _ _ _ F) as Hpp. pose proof (proj1 Hp) as Hj.
  assert (Hmax : MAX s memory = Z.max s memory) by (unfold MAX; destruct (Z.ltb_spec s memory); lia).
  wp_step. rewrite Hmax. apply wp_scan_right; [lia|done|lia|lia|done|]. intros i Hi Hri Hc.
  assert (Hsi : agrees x h s i j).
  { intros q Hq. destruct (Z.lt_ge_cases q memory); [apply Ha|apply Hri]; lia. }
  wp_if; [|wp_steps; rewrite (u32_small (i - s)), (u32_small (i - s + 1)), (u32_small (j + (i - s + 1))) by blia].
  - assert (Hr : agrees x h s nl j) by (apply (agrees_app s i nl); [done|]; by replace i with last by blia).
    wp_step. apply wp_scan_left_from; [lia|done|lia|lia|done|]. intros i' Hi' Hle Hc'.
    replace (u32 (u32 i' + 1)) with (i' + 1) by (unfold u32; lia). rewrite (u32_small (memory + 1)) by lia.
    wp_if; wp_steps.
    + apply HF, (agrees_app 0 s nl); [|done].
      intros q Hq. destruct (Z.lt_ge_cases q memory); [apply Ha|apply Hle]; blia.
    + destruct Hc' as [|[? Hne']]; [blia|]. rewrite !u32_small by lia.
      apply HN; [lia|]. by apply (move_left j i'); [..|lia|].
  - destruct Hc as [->|Hne']; [blia|]. apply HN; [lia|]. apply memorized_0. by apply move_right; [..|blia| |].
Qed.
End periodic.
End search.

(** The test of the periodicity. *)
Lemma period_zero s p v : factorization x nl s p ->
  (v = 0 <-> forall k, 0 <= k < s -> canon (at_ X k) = canon (at_ X (k + p))) <->
  (v = 0 <-> period x nl 0 p).
Proof.
  intros F. pose proof (fa_s _ _ _ _ F). pose proof (fa_p _ _ _ _ F). rewrite (period_test x nl s p F).
  assert (E : forall k, 0 <= k < s -> (x k = x (k + p) <-> canon (at_ X k) = canon (at_ X (k + p)))).
  { intros k Hk. unfold x. by rewrite !at_map by (unfold nl in *; lia). }
  assert (E' : (forall k, 0 <= k < s -> x k = x (k + p)) <->
    (forall k, 0 <= k < s -> canon (at_ X k) = canon (at_ X (k + p)))).
  { split; intros Hq k Hk; by apply E, Hq. }
  by rewrite E'.
Qed.

(** *** Short needles *)

Lemma wp_two_way_short n l (Q : Z -> world -> Prop) : (fuel <= n)%nat -> (2 * length X + length H + 2 < n)%nat ->
  known 0 l -> Q (found hay (map canon X) (map canon H)) w ->
  wp n (two_way_short_needle hay l nd nl) w Q.
Proof.
  intros Hf Hn Hl HQ. destruct sizes as [Hnl HN]. unfold two_way_short_needle.
  wp_step. apply wp_critical_factorization; [lia|]. intros s p F.
  pose proof (fa_s _ _ _ _ F). pose proof (fa_p _ _ _ _ F).
  wp_step. apply wp_cmp; [done|lia|lia|unfold nl in *; lia|]. intros v Hv. rewrite period_zero in Hv by done.
  destruct (Z.eqb_spec v 0) as [E|E]; rewrite Hv in E.
  - set (I := fun (k : nat) '(l', j, memory) (w' : world) => w' = w /\ known j l' /\ memorized p j memory /\
      zlen H + nl - j <= Z.of_nat k).
    eapply (wp_loop_inv I _ (length X + length H)); [|lia|].
    + split; [done|]. split; [done|]. split; [apply memorized_start|unfold nl; lia].
    + intros k [[l' j] memory] w' (-> & Hk & Hmem & Hkj). pose proof Hmem as ([Hj Hpj] & Hm & Ha).
      wp_step. apply wp_available; [done|done|done|]. fold nl. intros l2 Hl2. cbn beta iota zeta.
      destruct (decide (j + nl <= zlen H)) as [Hwin|Hend].
      2: { rewrite bool_decide_false by done. wp_steps. by rewrite (passed_end j) in HQ by (done || lia). }
      specialize (Hl2 Hwin). rewrite bool_decide_true by done. cbn beta iota.
      apply (wp_window_periodic s p F E); [done|done|lia|lia|intros q Hq; lia|lia| |].
      * intros Ho. by rewrite (passed_found j) in HQ.
      * intros j' memory' Hj' Hmem'. exists (k - 1)%nat. split; [lia|]. split; [done|].
        split; [apply Hl2; lia|]. split; [done|lia].
  - set (I := fun (k : nat) '(l', j) (w' : world) => w' = w /\ known j l' /\ passed j /\
      zlen H + nl - j <= Z.of_nat k).
    eapply (wp_loop_inv I _ (length X + length H)); [|lia|].
    + split; [done|]. split; [done|]. split; [apply passed_start|unfold nl; lia].
    + intros k [l' j] w' (-> & Hk & [Hj Hpj] & Hkj).
      wp_step. apply wp_available; [done|done|done|]. fold nl. intros l2 Hl2. cbn beta iota zeta.
      destruct (decide (j + nl <= zlen H)) as [Hwin|Hend].
      2: { rewrite bool_decide_false by done. wp_steps. by rewrite (passed_end j) in HQ by (done || lia). }
      specialize (Hl2 Hwin). rewrite bool_decide_true by done. cbn beta iota.
      apply (wp_window_distinct s p F E); [done|done|lia|intros q Hq; lia|lia| |].
      * intros Ho. by rewrite (passed_found j) in HQ.
      * intros j' Hj' Hmem'. exists (k - 1)%nat. split; [lia|]. split; [done|].
        split; [apply Hl2; lia|]. split; [done|lia].
Qed.

(** *** Long needles *)

(** The table gives the distance from the last occurrence of a character to the
    end of the needle, or the length of the needle. *)
Definition shifting (i : Z) (T : list Z) : Prop :=
  length T = 256%nat /\ forall c sh, T !! Z.to_nat c = Some sh -> is_byte c ->
    0 <= sh <= nl /\ (forall q, nl - sh <= q < i -> x q <> c) /\ (sh < nl -> x (nl - 1 - sh) = c) /\ nl - sh <= i.

Lemma wp_fill_shift_table n (Q : list Z -> world -> Prop) : (256 < n)%nat -> (length X < n)%nat ->
  (forall T, shifting nl T -> Q T w) -> wp n (fill_shift_table nd nl) w Q.
Proof.
  intros Hn HnX HQ. destruct sizes as [Hnl _]. unfold fill_shift_table. wp_step.
  set (I := fun (k : nat) '(i, T) (w' : world) => w' = w /\ length T = 256%nat /\ 0 <= i <= 256 /\
    (forall c, 0 <= c < i -> T !! Z.to_nat c = Some nl) /\ Z.of_nat k = 256 - i).
  eapply (wp_loop_inv I _ 256); [|lia|].
  { split; [done|]. split; [done|]. split; [lia|]. split; [intros; lia|lia]. }
  intros k [i T] w' (-> & HT & Hi & Hall & Hk). wp_if; wp_steps.
  { rewrite u32_small by lia. exists (k - 1)%nat. split; [blia|]. split; [done|].
    split; [by rewrite length_insert|]. split; [blia|]. split; [|blia].
    intros c Hc. destruct (Z.eq_dec c i) as [->|]; [apply list_lookup_insert_eq; blia|].
    rewrite list_lookup_insert_ne by lia. apply Hall. lia. }
  assert (Hi' : i = 256) by blia. subst i. clear I k Hk E.
  set (I := fun (k : nat) '(i, T) (w' : world) => w' = w /\ 0 <= i <= nl /\ shifting i T /\ Z.of_nat k = nl - i).
  eapply (wp_loop_inv I _ (length X)); [|lia|].
  { split; [done|]. split; [lia|]. split; [|lia]. split; [done|]. intros c sh Hc Hb.
    rewrite Hall in Hc by lia. simplify_eq. split; [lia|]. split; [intros; lia|]. split; lia. }
  intros k [i T'] w' (-> & Hi1 & [HT' Hsh] & Hk). wp_if; [|wp_steps; apply HQ; by replace nl with i by blia].
  wp_step. eapply wp_element; [exact HX|blia|]. wp_steps. rewrite !u32_small by (rewrite ?u32_small; blia).
  exists (k - 1)%nat. split; [blia|]. split; [done|]. split; [blia|]. split; [|blia].
  split; [by rewrite length_insert|]. intros c sh Hc Hb. fold x in Hc.
  assert (Hxi : is_byte (x i)) by (apply (element_byte nd); [done|blia]).
  destruct (Z.eq_dec c (x i)) as [->|Hne'].
  - rewrite list_lookup_insert_eq in Hc by lia. simplify_eq. split; [blia|]. split; [|split; [|lia]].
    + intros q Hq. lia.
    + intros _. f_equal. lia.
  - rewrite list_lookup_insert_ne in Hc by lia. destruct (Hsh c sh Hc Hb) as (? & Hno & ? & ?).
    split; [done|]. split; [|split; [done|lia]]. intros q Hq.
    destruct (Z.eq_dec q i) as [->|]; [congruence|apply Hno; lia].
Qed.

Lemma wp_last_shift n T j (Q : Z -> world -> Prop) : shifting nl T -> 0 <= j -> j + nl <= zlen H ->
  (forall sh, 0 <= sh <= nl -> (forall q, 0 <= q < sh -> x (nl - 1 - q) <> h (j + (nl - 1))) ->
    (sh < nl -> x (nl - 1 - sh) = h (j + (nl - 1))) -> Q sh w) ->
  wp n (last_shift T hay j nl) w Q.
Proof.
  intros [HT Hsh] Hj Hwin HQ. destruct sizes as [Hnl HN]. unfold last_shift.
  rewrite (u32_small (j + nl)), (u32_small (j + nl - 1)) by lia.
  wp_step. eapply wp_element; [exact HH|lia|]. fold h. assert (Hb : is_byte (h (j + nl - 1))) by (apply (element_byte hay); [done|lia]).
  destruct (lookup_lt_is_Some_2 T (Z.to_nat (h (j + nl - 1)))) as [sh E]; [lia|]. rewrite E. wp_step.
  destruct (Hsh _ _ E Hb) as (? & Hno & He & _). replace (j + nl - 1) with (j + (nl - 1)) in * by lia.
  apply HQ; [done| |done]. intros q Hq. apply Hno. lia.
Qed.

Section long.
Context (T : list Z) (HT : shifting nl T) (s p : Z) (F : factorization x nl s p).

(** The last character of the window does not match. *)
Lemma move_shift j sh : passed j -> j + nl <= zlen H -> 0 < sh <= nl ->
  (forall q, 0 <= q < sh -> x (nl - 1 - q) <> h (j + (nl - 1))) -> passed (j + sh).
Proof.
  intros Hp Hwin Hsh Hno. destruct sizes as [Hnl _]. apply passed_move; [done|done|lia| |].
  - apply (occurs_not j (nl - 1)); [lia|]. intros E. apply (Hno 0); [lia|]. rewrite E. f_equal. lia.
  - intros e He Ho. apply (Hno e); [lia|]. rewrite <-(Ho (nl - 1 - e)) by lia. f_equal. lia.
Qed.

(** The same when the first characters of a periodic needle agree: up to the
    end of these characters nothing is found. *)
Lemma move_period j : period x nl 0 p -> passed j -> j + nl <= zlen H -> p < nl -> agrees x h 0 (nl - p) j ->
  x (nl - 1) <> h (j + (nl - 1)) -> passed (j + (nl - p)).
Proof.
  intros Hper Hp Hwin Hpn Ha Hno. destruct sizes as [Hnl _]. pose proof (fa_p _ _ _ _ F).
  apply passed_move; [done|done|lia|apply (occurs_not j (nl - 1)); [lia|congruence]|].
  intros e He Ho. apply Hno. rewrite (Hper (nl - 1)) by lia. rewrite <-(Ha (nl - 1 - p)) by lia.
  replace (j + (nl - 1 - p)) with (j + e + (nl - 1 - p - e)) by lia. rewrite Ho by lia.
  replace (j + (nl - 1)) with (j + e + (nl - 1 - e)) by lia. rewrite Ho by lia.
  rewrite (Hper (nl - 1 - e)) by lia. f_equal. lia.
Qed.

Lemma wp_long_distinct n l (Q : Z -> world -> Prop) : ~ period x nl 0 p ->
  (fuel <= n)%nat -> (length X + length H + 2 < n)%nat ->
  known 0 l -> Q (found hay (map canon X) (map canon H)) w ->
  wp n (long_distinct T hay l nd nl s) w Q.
Proof.
  intros Hnp Hf Hn Hl HQ. destruct sizes as [Hnl HN]. pose proof (fa_s _ _ _ _ F).
  set (I := fun (k : nat) '(l', j) (w' : world) => w' = w /\ known j l' /\ passed j /\
    zlen H + nl - j <= Z.of_nat k).
  eapply (wp_loop_inv I _ (length X + length H)); [|lia|].
  - split; [done|]. split; [done|]. split; [apply passed_start|unfold nl; lia].
  - intros k [l' j] w' (-> & Hk & [Hj Hpj] & Hkj).
    wp_step. apply wp_available; [done|done|done|]. fold nl. intros l2 Hl2. cbn beta iota zeta.
    destruct (decide (j + nl <= zlen H)) as [Hwin|Hend].
    2: { rewrite bool_decide_false by done. wp_steps. by rewrite (passed_end j) in HQ by (done || lia). }
    specialize (Hl2 Hwin). rewrite bool_decide_true by done. cbn beta iota.
    assert (Hnext : forall j', j < j' -> passed j' -> exists k', (k' < k)%nat /\ I k' (l2, j') w).
    { intros j' Hj' Hp'. exists (k - 1)%nat. split; [lia|]. split; [done|].
      split; [apply Hl2; lia|]. split; [done|lia]. }
    wp_step. apply wp_last_shift; [done|lia|done|]. intros sh Hsh Hno He. wp_if.
    { wp_steps. rewrite u32_small by lia. apply Hnext; [blia|]. apply move_shift; [done|done|blia|done]. }
    rewrite (u32_small (nl - 1)) by lia. apply (wp_window_distinct s p F Hnp); [done|done|lia| |lia| |done].
    + intros q Hq. replace q with (nl - 1) by lia. symmetry. rewrite <-He by blia. f_equal. blia.
    + intros Ho. by rewrite (passed_found j) in HQ.
Qed.

Lemma wp_long_periodic n l (Q : Z -> world -> Prop) : period x nl 0 p ->
  (p < nl -> forall i, 0 <= i < zlen H -> exists q, 0 <= q < nl /\ x q = h i) ->
  (fuel <= n)%nat -> (length X + length H + 2 < n)%nat ->
  known 0 l -> Q (found hay (map canon X) (map canon H)) w ->
  wp n (long_periodic T hay l nd nl s p) w Q.
Proof.
  intros Hper Hin Hf Hn Hl HQ. destruct sizes as [Hnl HN]. pose proof (fa_s _ _ _ _ F). pose proof (fa_p _ _ _ _ F).
  set (I := fun (k : nat) '(l', j, memory) (w' : world) => w' = w /\ known j l' /\ memorized p j memory /\
    zlen H + nl - j <= Z.of_nat k).
  eapply (wp_loop_inv I _ (length X + length H)); [|lia|].
  - split; [done|]. split; [done|]. split; [apply memorized_start|unfold nl; lia].
  - intros k [[l' j] memory] w' (-> & Hk & Hmem & Hkj). pose proof Hmem as ([Hj Hpj] & Hm & Ha).
    wp_step. apply wp_available; [done|done|done|]. fold nl. intros l2 Hl2. cbn beta iota zeta.
    destruct (decide (j + nl <= zlen H)) as [Hwin|Hend].
    2: { rewrite bool_decide_false by done. wp_steps. by rewrite (passed_end j) in HQ by (done || lia). }
    specialize (Hl2 Hwin). rewrite bool_decide_true by done. cbn beta iota.
    assert (Hnext : forall j' m', j < j' -> memorized p j' m' -> exists k', (k' < k)%nat /\ I k' (l2, j', m') w).
    { intros j' m' Hj' Hp'. exists (k - 1)%nat. split; [lia|]. split; [done|].
      split; [apply Hl2; lia|]. split; [done|destruct Hp' as [[? _] _]; lia]. }
    wp_step. apply wp_last_shift; [done|lia|done|]. intros sh Hsh Hno He. wp_if.
    + wp_steps. destruct (Z.eqb_spec memory 0) as [->|Hm0]; cbn beta iota zeta delta [negb andb]; wp_steps.
      { rewrite u32_small by lia. apply Hnext; [blia|]. apply memorized_0, move_shift; [done|done|blia|done]. }
      assert (Hpn : p < nl) by lia. destruct (Hin Hpn (j + (nl - 1))) as (q & Hq & Eq); [lia|].
      assert (Hshp : sh < p). (* the character occurs in the last period *)
      { destruct (Z.lt_ge_cases sh p) as [|Hge]; [done|]. exfalso.
        pose proof (Z.div_mod (nl - 1 - q) p ltac:(lia)) as Hdm.
        pose proof (Z.mod_pos_bound (nl - 1 - q) p ltac:(lia)).
        apply (Hno ((nl - 1 - q) mod p)); [lia|]. rewrite <-Eq.
        rewrite <-(period_mult x nl 0 p ((nl - 1 - q) / p) q) by (done || nia || (apply Z.div_pos; lia)).
        f_equal. lia. }
      rewrite (proj2 (Z.ltb_lt sh p)) by done. wp_steps. rewrite !u32_small by (rewrite ?u32_small; lia).
      apply Hnext; [lia|]. apply memorized_0, move_period; [done|done|done|done| |].
      * destruct Hm as [|E']; [done|]. by rewrite <-E'.
      * replace (nl - 1) with (nl - 1 - 0) at 1 by lia. apply Hno. blia.
    + rewrite (u32_small (nl - 1)) by lia.
      apply (wp_window_periodic s p F Hper); [done|done|lia|lia| |lia| |done].
      * intros q Hq. replace q with (nl - 1) by lia. symmetry. rewrite <-He by blia. f_equal. blia.
      * intros Ho. by rewrite (passed_found j) in HQ.
Qed.
End long.

(** *** Needles of any length *)

Lemma wp_two_way_long n l (Q : Z -> world -> Prop) : (fuel <= n)%nat -> (256 < n)%nat ->
  (2 * length X + length H + 2 < n)%nat -> 32 <= nl -> searchable (map canon X) (map canon H) ->
  known 0 l -> Q (found hay (map canon X) (map canon H)) w ->
  wp n (two_way_long_needle hay l nd nl) w Q.
Proof.
  intros Hf Hn256 Hn Hlong Hs Hl HQ. destruct sizes as [Hnl HN]. unfold two_way_long_needle.
  wp_step. apply wp_critical_factorization; [lia|]. intros s p F.
  pose proof (fa_s _ _ _ _ F). pose proof (fa_p _ _ _ _ F).
  wp_step. apply wp_fill_shift_table; [done|lia|]. intros T HT.
  wp_step. apply wp_cmp; [done|lia|lia|unfold nl in *; lia|]. intros v Hv. rewrite period_zero in Hv by done.
  destruct (Z.eqb_spec v 0) as [E|E]; rewrite Hv in E.
  - apply (wp_long_periodic T HT s p F); [done| |done|lia|done..].
    intros Hpn i Hi. unfold searchable in Hs. rewrite !length_map in Hs.
    destruct Hs as [|[Hs|Hs]]; [unfold nl in *; lia|by destruct (Hs p ltac:(unfold nl in *; lia))|].
    rewrite Forall_lookup in Hs. unfold h.
    assert (Hin := Hs (Z.to_nat i) _ (at_lookup (map canon H) i ltac:(rewrite length_map; lia))).
    apply list_elem_of_lookup in Hin as [q Hq]. pose proof (lookup_lt_Some _ _ _ Hq) as Hlt.
    rewrite length_map in Hlt. exists (Z.of_nat q). split; [unfold nl; lia|].
    unfold x. apply list_lookup_total_correct. by rewrite Nat2Z.id.
  - apply (wp_long_distinct T HT s p F); [done|done|lia|done..].
Qed.

Lemma wp_two_way n l (Q : Z -> world -> Prop) : (fuel <= n)%nat -> (256 < n)%nat ->
  (2 * length X + length H + 2 < n)%nat -> searchable (map canon X) (map canon H) ->
  known 0 l -> Q (found hay (map canon X) (map canon H)) w ->
  wp n (two_way hay l nd nl) w Q.
Proof.
  intros Hf Hn256 Hn Hs Hl HQ. unfold two_way, LONG_NEEDLE_THRESHOLD. wp_if.
  - by apply wp_two_way_short.
  - apply wp_two_way_long; [done..|blia|done|done|done].
Qed.
End two_way.
