(* ===== verification/StrSearch.v ===== *)
(** * The functions of substring search

    The macros of memmem.c, strstr.c and strcasestr.c satisfy the interface of
    the two-way search; the functions, in both configurations, find the first
    occurrence. *)

From S2P Require Import Prelude CMonad Words Memory StrScan StrCmp Ctype TwoWay StrStr StrStrSpec.

(** ** Comparisons of parts of the needle *)

Lemma lex_diff_zero l1 l2 : length l1 = length l2 -> (lex_diff l1 l2 = 0 <-> l1 = l2).
Proof.
  revert l2. induction l1 as [|a l1 IH]; intros [|b l2] Hl; simplify_eq/=; [done|].
  destruct (Z.eqb_spec a b) as [->|]; [|split; [lia|congruence]].
  rewrite IH by done. split; [by intros ->|by intros [= ->]].
Qed.

Lemma take_at s A B : 0 <= s <= zlen A -> s <= zlen B ->
  take (Z.to_nat s) A = take (Z.to_nat s) B <-> forall k, 0 <= k < s -> at_ A k = at_ B k.
Proof.
  intros HA HB. split.
  - intros E k Hk. unfold at_. rewrite <-(lookup_total_take_lt A (Z.to_nat s)), E by lia.
    by rewrite lookup_total_take_lt by lia.
  - intros H. apply list_eq_same_length with (Z.to_nat s); [rewrite length_take; lia..|].
    intros i a b Hi Ha Hb. rewrite lookup_take_lt in Ha, Hb by lia.
    specialize (H (Z.of_nat i) ltac:(lia)). unfold at_ in H. rewrite Nat2Z.id in H.
    by rewrite (list_lookup_total_correct _ _ _ Ha), (list_lookup_total_correct _ _ _ Hb) in H.
Qed.

Lemma at_drop k A i : 0 <= i -> at_ (drop k A) i = at_ A (i + Z.of_nat k).
Proof. intros Hi. unfold at_. rewrite lookup_total_drop. f_equal. lia. Qed.

(** The two parts of the needle that the search compares. *)
Lemma parts_equal s p A : 0 <= s -> 0 < p -> s + p <= zlen A ->
  take (Z.to_nat s) A = take (Z.to_nat s) (drop (Z.to_nat p) A) <->
  forall k, 0 <= k < s -> at_ A k = at_ A (k + p).
Proof.
  intros Hs Hp Hle. rewrite take_at by (rewrite ?length_drop; lia).
  split; intros H k Hk; specialize (H k Hk).
  - rewrite H, at_drop by lia. f_equal. lia.
  - rewrite at_drop by lia. rewrite H. f_equal. lia.
Qed.

Section code.
Context {cfg : build}.
Implicit Types (w : world) (n : nat).

Lemma wp_memcmp_parts n w p q A s (Q : Z -> world -> Prop) :
  mem_ok (w_mem w) -> bytes (w_mem w) p A -> (length A < n)%nat -> 0 <= s -> 0 < q -> s + q <= zlen A ->
  (forall v, v = 0 <-> (forall k, 0 <= k < s -> at_ A k = at_ A (k + q)) -> Q v w) ->
  wp n (memcmp p (p + q) s) w Q.
Proof.
  intros Hm HA Hn Hs Hq Hle HQ. assert (Hl : zlen (take (Z.to_nat s) A) = s) by (rewrite length_take; lia).
  rewrite <-Hl at 1. apply (wp_memcmp _ _ _ _ (take (Z.to_nat s) (drop (Z.to_nat q) A))); [done|..].
  - rewrite <-(take_drop (Z.to_nat s) A) in HA. by apply bytes_app in HA as [? _].
  - rewrite <-(take_drop (Z.to_nat q) A) in HA. apply bytes_app in HA as [_ HA].
    rewrite length_take_le in HA by lia. rewrite Z2Nat.id in HA by lia.
    rewrite <-(take_drop (Z.to_nat s) (drop _ A)) in HA. by apply bytes_app in HA as [? _].
  - rewrite !length_take, length_drop. lia.
  - rewrite length_take. lia.
  - apply HQ. rewrite lex_diff_zero by (rewrite !length_take, length_drop; lia). by apply parts_equal.
Qed.

(** ** memmem *)

Definition memmem_matching w nd hay X H :
  mem_ok (w_mem w) -> bytes (w_mem w) nd X -> (length X <= length H)%nat -> zlen H < 1073741824 ->
  matching memmem_macros id w (S (length X)) nd hay X H.
Proof.
  intros Hm HX Hle HH. refine {| known j l := l = zlen H |}.
  - done.
  - intros n c Q _ HQ. by apply wp_ret.
  - intros n s p Q Hn Hs Hp Hsp HQ. by apply (wp_memcmp_parts _ _ _ _ X).
  - intros n j l Q _ -> Hj HQ. apply wp_ret. rewrite u32_small by lia.
    replace (j <=? zlen H - zlen X) with (bool_decide (j + zlen X <= zlen H)).
    + by apply HQ.
    + symmetry. apply Bool.eq_true_iff_eq. rewrite bool_decide_eq_true. lia.
Defined.

Lemma wp_memmem_small n w hay nd X H (Q : Z -> world -> Prop) :
  mem_ok (w_mem w) -> bytes (w_mem w) hay H -> bytes (w_mem w) nd X -> X <> [] ->
  (length X + length H + 1 < n)%nat -> Q (found hay X H) w ->
  wp n (loop (fun '(haystack, haystack_len) =>
      if zlen X <=? haystack_len then
        d ← memcmp haystack nd (zlen X);
        if d =? 0 then brk haystack else next (haystack + 1, u32 (haystack_len - 1))
      else brk 0) (hay, zlen H)) w Q.
Proof.
  intros Hm HH HX Hne Hn HQ. apply wp_loop_k. assert (Hk : (length H < n)%nat) by lia. revert Hk.
  assert (Hb : zlen H < 1073741824).
  { destruct H; [simpl; lia|]. apply mem_ok_range in HH; [lia|done..]. }
  generalize n at 1 3. intros k. revert k hay HH HQ Hn Hb.
  induction H as [|a H IH]; intros [|k] hay HH HQ Hn Hb Hk; simpl in Hk; try lia; wp_loop; wp_if.
  - destruct X; [done|cbn in E; blia].
  - wp_steps. by rewrite found_short in HQ by (destruct X; [done|simpl; lia]).
  - assert (Hle : (length X <= length (a :: H))%nat) by blia.
    assert (Hl : length (take (length X) (a :: H)) = length X) by (rewrite length_take; lia).
    wp_step. rewrite <-Hl at 1. apply (wp_memcmp _ _ _ (take (length X) (a :: H)) X); [done| |done|done|lia|].
    + rewrite <-(take_drop (length X) (a :: H)) in HH. by apply bytes_app in HH as [? _].
    + assert (Heq : lex_diff (take (length X) (a :: H)) X = 0 <-> X `prefix_of` a :: H).
      { rewrite lex_diff_zero by done. split.
        - intros EX. exists (drop (length X) (a :: H)). rewrite <-EX at 1. by rewrite take_drop.
        - intros [t ->]. by rewrite take_app_length. }
      destruct (Z.eqb_spec (lex_diff (take (length X) (a :: H)) X) 0) as [Ed|Ed]; wp_steps.
      * rewrite Heq in Ed. by rewrite found_prefix in HQ.
      * rewrite Heq in Ed. rewrite found_skip in HQ by done. simpl in Hn. destruct HH as [_ HH].
        rewrite u32_pred_len by lia. simpl in Hb. by apply IH; [..|lia|lia|lia].
  - wp_steps. rewrite found_short in HQ; [done|blia].
Qed.

(** The search of memmem at the first character of the needle. *)
Lemma drop_find P H k : find_idx P H = Some k -> exists b, P b = true /\ drop k H = b :: drop (S k) H /\ (k < length H)%nat.
Proof.
  revert k. induction H as [|a H IH]; intros k; cbn [find_idx]; [done|]. destruct (P a) eqn:E.
  - intros [= <-]. exists a. split; [done|]. split; [by rewrite drop_0|simpl; lia].
  - destruct (find_idx P H) as [i|]; [|done]. intros [= <-]. destruct (IH i eq_refl) as (b & Hb & Ed & Hl).
    exists b. split; [done|]. split; [exact Ed|simpl; lia].
Qed.

Lemma wp_memmem n w hay nd X H (Q : Z -> world -> Prop) :
  mem_ok (w_mem w) -> bytes (w_mem w) hay H -> bytes (w_mem w) nd X ->
  (256 < n)%nat -> (2 * length X + length H + 2 < n)%nat -> searchable X H ->
  Q (found hay X H) w -> wp n (memmem hay (zlen H) nd (zlen X)) w Q.
Proof.
  intros Hm HH HX Hn256 Hn Hs HQ. unfold memmem.
  wp_if; [wp_steps; destruct X; [|simpl in *; blia]; rewrite found_prefix in HQ; [done|by exists H]|].
  assert (Hne : X <> []) by (intros ->; simpl in *; blia).
  destruct PREFER_SIZE_OVER_SPEED; [apply wp_memmem_small; [done..|lia|done]|].
  wp_if; [wp_steps; rewrite found_short in HQ; [done|blia]|].
  assert (HHb : zlen H < 1073741824).
  { destruct H; [simpl; lia|]. apply mem_ok_range in HH; [lia|done..]. }
  unfold LONG_NEEDLE_THRESHOLD. wp_if.
  - destruct X as [|c X']; [done|]. rename Hne into Hne'. pose proof HX as [Hc _]. wp_mem.
    eapply wp_memchr; [done..|lia|]. destruct (mem_ok_cell _ _ _ Hm Hc) as [Hcb _].
    rewrite u8_small by done. rewrite found_first in HQ. unfold find_ptr.
    destruct (find_idx (fun b => b =? c) H) as [k|] eqn:Ek; [|by wp_steps].
    destruct (drop_find _ _ _ Ek) as (b & Hb & Ed & Hkl). apply Z.eqb_eq in Hb as ->.
    pose proof (bytes_app (w_mem w) hay (take k H) (drop k H)) as Hsplit. rewrite take_drop in Hsplit.
    apply Hsplit in HH as [_ HH']. rewrite length_take_le in HH' by lia. clear Hsplit.
    assert (Hpos : 0 < hay + Z.of_nat k).
    { apply mem_ok_range in HH'; [lia|done|by rewrite Ed]. }
    rewrite (proj2 (Z.eqb_neq (hay + Z.of_nat k) 0)) by lia. cbn [orb]. wp_if.
    + wp_steps. destruct X'; [|simpl in *; blia]. rewrite Ed, found_singleton in HQ. done.
    + assert (Hl : zlen (drop k H) = zlen H - Z.of_nat k) by (rewrite length_drop; lia).
      replace (u32 (zlen H - (hay + Z.of_nat k - hay))) with (zlen (drop k H)) by (rewrite u32_small; lia).
      wp_if; [wp_steps; rewrite found_short in HQ; [done|blia]|].
      apply (wp_two_way_short (M := memmem_macros) id w _ nd (hay + Z.of_nat k) (c :: X') (drop k H)
        (L := memmem_matching w nd (hay + Z.of_nat k) (c :: X') (drop k H) Hm HX ltac:(blia) ltac:(lia)));
        [done..|lia|simpl in *; lia|done|by rewrite !list_fmap_id].
  - apply (wp_two_way_long (M := memmem_macros) id w _ nd hay X H (L := memmem_matching w nd hay X H Hm HX ltac:(blia) HHb));
      [done..|lia|done|lia|blia|by rewrite !list_fmap_id|done|by rewrite !list_fmap_id].
Qed.

(** ** Strings *)

Lemma find_none (P : Z -> bool) l : Forall (fun b => P b = false) l -> find_idx P l = None.
Proof. induction 1 as [|b l Hb _ IH]; [done|]. simpl. by rewrite Hb, IH. Qed.

Lemma find_app_none P l1 l2 : find_idx P l1 = None ->
  find_idx P (l1 ++ l2) = (fun k => length l1 + k)%nat <$> find_idx P l2.
Proof.
  induction l1 as [|b l1 IH]; simpl; [by destruct (find_idx P l2)|]. destruct (P b); [done|].
  destruct (find_idx P l1); [done|]. intros _. rewrite IH by done. by destruct (find_idx P l2).
Qed.

Lemma find_null H : Forall (fun b => 0 < b < 256) H -> find_idx (fun b => b =? 0) H = None.
Proof. intros HH. apply find_none. eapply Forall_impl; [exact HH|]. intros b Hb. cbn in Hb. apply Z.eqb_neq. lia. Qed.

(** The terminator is not the first character of a needle. *)
Lemma find_body a H : a <> 0 -> find_idx (fun b => b =? a) (H ++ [0]) = find_idx (fun b => b =? a) H.
Proof.
  intros Ha. induction H as [|b H IH]; simpl.
  - by rewrite (proj2 (Z.eqb_neq 0 a)) by lia.
  - by rewrite IH.
Qed.

(** The length of the text that is known grows, up to the end of the string. *)
Lemma wp_available_string n w hay H nl j hl (Q : bool * Z -> world -> Prop) :
  mem_ok (w_mem w) -> cstr (w_mem w) hay H -> (length H + 2 < n)%nat -> 0 < nl < 1073741824 ->
  0 <= j <= zlen H + nl -> 0 <= hl <= zlen H -> hl <= j + nl ->
  (forall hl', (j + nl <= zlen H -> hl' = j + nl) -> Q (bool_decide (j + nl <= zlen H), hl') w) ->
  wp n (available_string hay hl j nl) w Q.
Proof.
  intros Hm HH Hn Hnl Hj Hhl Hle HQ. unfold available_string.
  pose proof (mem_ok_range _ _ _ Hm (cstr_bytes _ _ _ HH) ltac:(by destruct H)) as Hr.
  rewrite length_app in Hr. cbn [length] in Hr.
  rewrite (u32_small (j + nl)), (u32_small (j + nl - hl)) by lia.
  pose proof (cstr_drop (w_mem w) hay H (Z.to_nat hl) ltac:(lia) HH) as Hd. rewrite Z2Nat.id in Hd by lia.
  set (D := drop (Z.to_nat hl) H) in *. assert (HD : zlen D = zlen H - hl) by (unfold D; rewrite length_drop; lia).
  wp_step. destruct (decide (j + nl <= zlen H)) as [Hin|Hout].
  - apply (wp_memchr_within _ _ (take (Z.to_nat (j + nl - hl)) D)); [done| |rewrite length_take; lia| |].
    + apply cstr_body in Hd. rewrite <-(take_drop (Z.to_nat (j + nl - hl)) D) in Hd. by apply bytes_app in Hd as [? _].
    + split; [lia|left]. rewrite length_take. lia.
    + unfold find_ptr. change (u8 0) with 0. rewrite find_null by apply Forall_take, Hd.
      change (0 =? 0) with true. wp_steps. rewrite (proj2 (Z.eqb_neq (j + nl) 0)) by lia.
      rewrite (bool_decide_true _ Hin) in HQ. by apply HQ.
  - apply (wp_memchr_within _ _ (D ++ [0])); [done|by apply cstr_bytes|rewrite length_app; simpl; lia| |].
    + split; [lia|right]. split; [change (u8 0) with 0; apply elem_of_app; right; by left|].
      rewrite length_app. simpl. lia.
    + unfold find_ptr. change (u8 0) with 0. rewrite find_app_none by apply find_null, Hd. simpl.
      rewrite (proj2 (Z.eqb_neq _ 0)) by lia. wp_steps. rewrite (bool_decide_false _ Hout) in HQ. by apply HQ.
Qed.

(** A folded comparison of two parts of the needle. *)
Lemma wp_strncasecmp_parts n w p q A s (Q : Z -> world -> Prop) :
  cstr (w_mem w) p A -> (length A < n)%nat -> zlen A < 1073741824 -> 0 <= s -> 0 < q -> s + q <= zlen A ->
  (forall v, v = 0 <-> (forall k, 0 <= k < s -> to_lower (at_ A k) = to_lower (at_ A (k + q))) -> Q v w) ->
  wp n (strncasecmp p (p + q) s) w Q.
Proof.
  intros HA Hn Hb Hs Hq Hle HQ. pose proof (cstr_drop (w_mem w) p A (Z.to_nat q) ltac:(lia) HA) as Hd.
  rewrite Z2Nat.id in Hd by lia. eapply wp_strncasecmp; [exact HA|exact Hd|done|lia|]. apply HQ.
  unfold lex_diff_n. rewrite !take_app_le by (rewrite length_map, ?length_drop; lia).
  rewrite lex_diff_zero by (rewrite !length_take, !length_map, length_drop; lia).
  rewrite <-skipn_map, parts_equal by (rewrite ?length_map; lia).
  split; intros H k Hk; specialize (H k Hk); by rewrite !at_map in * by lia.
Qed.

Definition string_known (H : list Z) (nl j l : Z) : Prop := 0 <= l <= zlen H /\ l <= j + nl.

Definition strstr_matching w nd hay X H (Hm : mem_ok (w_mem w)) (HX : cstr (w_mem w) nd X)
    (HH : cstr (w_mem w) hay H) (Hne : X <> []) :
  matching strstr_macros id w (length X + length H + 3) nd hay X H.
Proof.
  assert (Hb : 0 < zlen X < 1073741824).
  { pose proof (mem_ok_range _ _ _ Hm (cstr_body _ _ _ HX) Hne). destruct X; [done|simpl in *; lia]. }
  refine {| known := string_known H (zlen X) |}.
  - done.
  - intros n c Q _ HQ. by apply wp_ret.
  - intros n s p Q Hn Hs Hp Hsp HQ. apply (wp_memcmp_parts _ _ _ _ X); [done|by apply cstr_body|lia|done..].
  - intros n j l Q Hn [Hl Hle] Hj HQ. apply (wp_available_string _ _ _ H); [done|done|lia|done..|].
    intros hl' Hhl. apply HQ. intros Hin j' Hj'. rewrite (Hhl Hin). split; lia.
Defined.

Definition strcasestr_matching w nd hay X H (Hm : mem_ok (w_mem w)) (HX : cstr (w_mem w) nd X)
    (HH : cstr (w_mem w) hay H) (Hne : X <> []) :
  matching strcasestr_macros to_lower w (length X + length H + 3) nd hay X H.
Proof.
  assert (Hb : 0 < zlen X < 1073741824).
  { pose proof (mem_ok_range _ _ _ Hm (cstr_body _ _ _ HX) Hne). destruct X; [done|simpl in *; lia]. }
  refine {| known := string_known H (zlen X) |}.
  - intros c. apply to_lower_byte.
  - intros n c Q Hc HQ. apply wp_tolower; [lia|done].
  - intros n s p Q Hn Hs Hp Hsp HQ. apply (wp_strncasecmp_parts _ _ _ _ X); [done|lia|lia|done..].
  - intros n j l Q Hn [Hl Hle] Hj HQ. apply (wp_available_string _ _ _ H); [done|done|lia|done..|].
    intros hl' Hhl. apply HQ. intros Hin j' Hj'. rewrite (Hhl Hin). split; lia.
Defined.

(** *** The length of the needle, and whether the text starts with it *)

(** What the first loop of strstr and strcasestr ends with. *)
Definition measured w (p q : Z) (ok : bool) (X H : list Z) (Q : Z * Z * Z -> world -> Prop) : Prop :=
  ((length H < length X)%nat -> forall p' q' ok' c, w_mem w !! q' = Some c -> 0 < c < 256 -> Q (p', q', ok') w) /\
  ((length X <= length H)%nat ->
    Q (p + zlen X, q + zlen X, Z.b2z (ok && bool_decide (X `prefix_of` H))) w).

Lemma measured_nil w p q ok H Q : measured w p q ok [] H Q -> Q (p, q, Z.b2z ok) w.
Proof.
  intros [_ HQ]. specialize (HQ ltac:(simpl; lia)). rewrite bool_decide_true, andb_true_r in HQ by by exists H.
  by rewrite !Z.add_0_r in HQ.
Qed.

Lemma measured_cons w p q ok a X b H Q : measured w p q ok (a :: X) (b :: H) Q ->
  measured w (p + 1) (q + 1) (ok && (b =? a)) X H Q.
Proof.
  intros [H1 H2]. split; intros Hl.
  - apply H1. simpl. lia.
  - specialize (H2 ltac:(simpl; lia)). cbn [length] in H2.
    replace (p + 1 + zlen X) with (p + Z.of_nat (S (length X))) by lia.
    replace (q + 1 + zlen X) with (q + Z.of_nat (S (length X))) by lia.
    eqapply H2. f_equal. f_equal. rewrite <-andb_assoc. f_equal. apply Bool.eq_true_iff_eq.
    rewrite andb_true_iff, !bool_decide_eq_true. split.
    + intros Hp. pose proof (prefix_cons_inv_1 _ _ _ _ Hp) as ->. apply prefix_cons_inv_2 in Hp. split; [by apply Z.eqb_eq|done].
    + intros [->%Z.eqb_eq Hp]. by apply prefix_cons.
Qed.

Lemma land_b2z a b : Z.land (Z.b2z a) (Z.b2z b) = Z.b2z (a && b).
Proof. by destruct a, b. Qed.

Lemma wp_measure n k w p q ok X H (Q : Z * Z * Z -> world -> Prop) :
  cstr (w_mem w) p H -> cstr (w_mem w) q X -> (length H < k)%nat -> measured w p q ok X H Q ->
  wp n (loop_k k (fun '(haystack, needle, ok) =>
      a ← load8s haystack;
      if a =? 0 then brk (haystack, needle, ok) else
      b ← load8s needle;
      if b =? 0 then brk (haystack, needle, ok) else
      next (haystack + 1, needle + 1, Z.land ok (Z.b2z (a =? b)))) (p, q, Z.b2z ok)) w Q.
Proof.
  intros HH HX Hk HQ. revert k p q ok X HH HX Hk HQ.
  induction H as [|b H IH]; intros [|k] p q ok X HH HX Hk HQ; simpl in Hk; try lia; wp_loop.
  - apply cstr_nil in HH. wp_mem. change (s8 0 =? 0) with true. wp_steps.
    destruct X as [|a X]; [by apply measured_nil in HQ|].
    apply cstr_cons in HX as (Ha & Ra & _). destruct HQ as [HQ _]. by apply (HQ ltac:(simpl; lia) _ _ _ a).
  - apply cstr_cons in HH as (Hb & Rb & HH). wp_mem. rewrite s8_eqb0 by lia. wp_if.
    destruct X as [|a X].
    + apply cstr_nil in HX. wp_mem. change (s8 0 =? 0) with true. wp_steps. by apply measured_nil in HQ.
    + apply cstr_cons in HX as (Ha & Ra & HX). wp_mem. rewrite s8_eqb0, s8_eqb by lia. wp_if. wp_steps.
      rewrite land_b2z. apply (IH _ _ _ _ X); [done|done|lia|]. by apply measured_cons.
Qed.

Lemma wp_measure_case n k w p q ok X H (Q : Z * Z * Z -> world -> Prop) :
  cstr (w_mem w) p H -> cstr (w_mem w) q X -> (length H < k)%nat ->
  measured w p q ok (map to_lower X) (map to_lower H) Q ->
  wp n (loop_k k (fun '(haystack, needle, ok) =>
      a ← load8s haystack;
      if a =? 0 then brk (haystack, needle, ok) else
      b ← load8s needle;
      if b =? 0 then brk (haystack, needle, ok) else
      x ← (c ← load8 haystack; tolower c);
      y ← (c ← load8 needle; tolower c);
      next (haystack + 1, needle + 1, Z.land ok (Z.b2z (x =? y)))) (p, q, Z.b2z ok)) w Q.
Proof.
  intros HH HX Hk HQ. revert k p q ok X HH HX Hk HQ.
  induction H as [|b H IH]; intros [|k] p q ok X HH HX Hk HQ; simpl in Hk; try lia; wp_loop.
  - apply cstr_nil in HH. wp_mem. change (s8 0 =? 0) with true. wp_steps.
    destruct X as [|a X]; [by apply measured_nil in HQ|].
    apply cstr_cons in HX as (Ha & Ra & _). destruct HQ as [HQ _]. by apply (HQ ltac:(simpl; lia) _ _ _ a).
  - apply cstr_cons in HH as (Hb & Rb & HH). wp_mem. rewrite s8_eqb0 by lia. wp_if.
    destruct X as [|a X].
    + apply cstr_nil in HX. wp_mem. change (s8 0 =? 0) with true. wp_steps. by apply measured_nil in HQ.
    + apply cstr_cons in HX as (Ha & Ra & HX). wp_mem. rewrite s8_eqb0 by lia. wp_if. wp_mem.
      apply wp_tolower; [lia|]. wp_mem. apply wp_tolower; [lia|]. wp_steps.
      rewrite land_b2z. apply (IH _ _ _ _ X); [done|done|lia|]. by apply measured_cons.
Qed.

(** ** strstr *)

(** The search of strstr.c for a small build. *)
Lemma wp_strstr_at n k w p q i X H (Q : bool -> world -> Prop) :
  cstr (w_mem w) (p + i) H -> cstr (w_mem w) (q + i) X -> 0 <= i -> i + zlen X < 4294967296 ->
  (length X < k)%nat -> Q (bool_decide (X `prefix_of` H)) w ->
  wp n (loop_k k (fun i =>
          a ← load8s (q + i);
          if a =? 0 then brk true else
          b ← load8s (p + i);
          if negb (a =? b) then brk false else next (u32 (i + 1))) i) w Q.
Proof.
  revert k i H. induction X as [|a X IH]; intros [|k] i H HH HX Hi Hb Hk HQ; simpl in Hk; try lia; wp_loop.
  - apply cstr_nil in HX. wp_mem. change (s8 0 =? 0) with true. wp_steps.
    by rewrite bool_decide_true in HQ by by exists H.
  - apply cstr_cons in HX as (Ha & Ra & HX). wp_mem. rewrite s8_eqb0 by lia. wp_if.
    destruct H as [|b H].
    + apply cstr_nil in HH. wp_mem. rewrite s8_eqb by lia. wp_if. wp_steps.
      rewrite bool_decide_false in HQ; [done|]. intros [t E']. by simplify_eq/=.
    + apply cstr_cons in HH as (Hb' & Rb & HH). wp_mem. rewrite s8_eqb by lia. wp_if; wp_steps.
      * rewrite bool_decide_false in HQ; [done|]. intros [t E']. simplify_eq/=. blia.
      * assert (a = b) as <- by blia. cbn [length] in Hb. rewrite u32_small by lia.
        apply (IH _ _ H); [by rewrite Z.add_assoc|by rewrite Z.add_assoc|lia..|].
        eqapply HQ. apply bool_decide_ext. split; [apply prefix_cons_inv_2|apply prefix_cons].
Qed.

Lemma wp_strstr_small n w p q X H (Q : Z -> world -> Prop) :
  mem_ok (w_mem w) -> cstr (w_mem w) p H -> cstr (w_mem w) q X -> X <> [] ->
  (length X + length H < n)%nat -> Q (found p X H) w ->
  wp n (loop (fun searchee =>
      c ← load8s searchee;
      if negb (c =? 0) then
        found ← loop (fun i =>
          a ← load8s (q + i);
          if a =? 0 then brk true else
          b ← load8s (searchee + i);
          if negb (a =? b) then brk false else next (u32 (i + 1))) 0;
        if (found : bool) then brk searchee else next (searchee + 1)
      else brk 0) p) w Q.
Proof.
  intros Hm HH HX Hne Hn HQ. apply wp_loop_k. assert (Hk : (length H < n)%nat) by lia. revert Hk.
  pose proof (mem_ok_range _ _ _ Hm (cstr_body _ _ _ HX) Hne) as Hb.
  generalize n at 1 3. intros k. revert k p HH HQ Hn.
  induction H as [|b H IH]; intros [|k] p HH HQ Hn Hk; simpl in Hk; try lia; wp_loop.
  - apply cstr_nil in HH. wp_mem. change (s8 0 =? 0) with true. wp_steps.
    by rewrite found_short in HQ by (destruct X; [done|simpl; lia]).
  - pose proof HH as (Hb' & Rb & HH')%cstr_cons. wp_mem. rewrite s8_eqb0 by lia. wp_if. wp_step.
    apply wp_loop_k, (wp_strstr_at _ _ _ _ _ _ X (b :: H)); rewrite ?Z.add_0_r; [done|done|lia..|].
    destruct (decide (X `prefix_of` b :: H)) as [Hp|Hp].
    + rewrite bool_decide_true by done. wp_steps. by rewrite found_prefix in HQ.
    + rewrite bool_decide_false by done. wp_steps. simpl in Hn. apply IH; [done| |lia|lia].
      by rewrite found_skip in HQ.
Qed.

(** The search behind the first character, when the text does not start with
    the needle. *)
Lemma wp_strstr_rest n w p q X H (Q : Z -> world -> Prop) :
  mem_ok (w_mem w) -> cstr (w_mem w) p H -> cstr (w_mem w) q X ->
  (256 < n)%nat -> (2 * length X + length H + 5 < n)%nat -> searchable X H ->
  (length X <= length H)%nat -> ~ X `prefix_of` H -> Q (found p X H) w ->
  wp n (d ← load8s q;
    haystack ← strchr (p + 1) d;
    if (haystack =? 0) || (u32 (q + zlen X - q) =? 1) then mret haystack else
    two_way (H := strstr_macros) haystack
      (if p + u32 (q + zlen X - q) <? haystack then 1 else u32 (u32 (q + zlen X - q) + p - haystack))
      q (u32 (q + zlen X - q))) w Q.
Proof.
  intros Hm HH HX Hn256 Hn Hs Hle Hp HQ.
  destruct X as [|a X]; [by destruct Hp; exists H|]. destruct H as [|b H]; [simpl in Hle; lia|].
  pose proof HX as (Ha & Ra & HX')%cstr_cons. pose proof HH as (Hb & Rb & HH')%cstr_cons.
  wp_mem. apply (wp_strchr _ _ H); [done|done|simpl in Hn; lia|]. rewrite u8_s8 by lia.
  rewrite found_skip, found_first in HQ by done.
  unfold find_ptr. rewrite find_body by lia. destruct (find_idx _ H) as [k|] eqn:Ek; [|by wp_steps].
  destruct (drop_find _ _ _ Ek) as (b' & Hb' & Ed & Hkl). apply Z.eqb_eq in Hb' as ->.
  pose proof (cstr_drop (w_mem w) (p + 1) H k ltac:(lia) HH') as Hd.
  pose proof (mem_ok_range _ _ _ Hm (cstr_body _ _ _ HX) ltac:(done)) as HXr.
  pose proof (mem_ok_range _ _ _ Hm (cstr_body _ _ _ HH) ltac:(done)) as HHr. cbn [length] in HXr, HHr.
  rewrite (proj2 (Z.eqb_neq (p + 1 + Z.of_nat k) 0)) by lia. cbn [orb].
  replace (u32 (q + zlen (a :: X) - q)) with (zlen (a :: X)) by (rewrite u32_small; simpl; lia).
  wp_if.
  { wp_steps. destruct X; [|simpl in *; blia]. by rewrite Ed, found_singleton in HQ. }
  apply (wp_two_way (M := strstr_macros) id w _ q (p + 1 + Z.of_nat k) (a :: X) (drop k H)
    (L := strstr_matching w q (p + 1 + Z.of_nat k) (a :: X) (drop k H) Hm HX Hd ltac:(done))).
  - done.
  - by apply cstr_body.
  - by apply cstr_body.
  - done.
  - rewrite length_drop. simpl in Hn |- *. lia.
  - done.
  - rewrite length_drop. simpl in Hn |- *. lia.
  - rewrite !list_fmap_id. apply (searchable_drop _ (b :: H) (S k)) in Hs. exact Hs.
  - assert (Hl : zlen (drop k H) = zlen H - Z.of_nat k) by (rewrite length_drop; lia).
    cbn [length] in Hle |- *.
    match goal with |- known _ ?l => change (string_known (drop k H) (zlen (a :: X)) 0 l) end.
    unfold string_known. cbn [length].
    destruct (Z.ltb_spec (p + Z.of_nat (S (length X))) (p + 1 + Z.of_nat k)); [split; lia|].
    rewrite u32_small by lia. split; lia.
  - by rewrite !list_fmap_id.
Qed.

Lemma wp_strstr n w p q X H (Q : Z -> world -> Prop) :
  mem_ok (w_mem w) -> cstr (w_mem w) p H -> cstr (w_mem w) q X ->
  (256 < n)%nat -> (2 * length X + length H + 5 < n)%nat -> searchable X H ->
  Q (found p X H) w -> wp n (strstr p q) w Q.
Proof.
  intros Hm HH HX Hn256 Hn Hs HQ. unfold strstr. destruct PREFER_SIZE_OVER_SPEED.
  - destruct (cstr_head _ _ _ HH) as (b & t & E & Hb & Rb & Hcase). wp_mem. rewrite s8_eqb0 by done.
    destruct Hcase as [[-> ->]|(H' & -> & ? & _)].
    + change (0 =? 0) with true. destruct (cstr_head _ _ _ HX) as (a & u & E' & Ha & Ra & Hcase').
      wp_mem. rewrite s8_eqb0 by done. destruct Hcase' as [[-> ->]|(X' & -> & ? & _)].
      * wp_steps. by rewrite found_prefix in HQ by by exists [].
      * rewrite (proj2 (Z.eqb_neq a 0)) by lia. wp_steps. by rewrite found_short in HQ by (simpl; lia).
    + wp_if. destruct X as [|a X].
      * apply wp_loop_k. destruct n as [|n]; [lia|]. wp_loop. pose proof HH as (Hb' & _)%cstr_cons.
        apply cstr_nil in HX. wp_mem. rewrite s8_eqb0 by lia. wp_if. wp_step. apply wp_loop_k. wp_loop.
        rewrite (Z.add_0_r q). wp_mem. change (s8 0 =? 0) with true. wp_steps.
        by rewrite found_prefix in HQ by by exists (b :: H').
      * apply (wp_strstr_small _ _ _ _ (a :: X) (b :: H')); [done..|lia|done].
  - wp_step. apply wp_loop_k, (wp_measure _ _ _ _ _ true X H); [done|done|lia|]. split.
    + intros Hlt p' q' ok' c Hc Rc. wp_mem. rewrite s8_eqb0 by lia. wp_if. wp_steps.
      by rewrite found_short in HQ.
    + intros Hle. rewrite andb_true_l. pose proof (cstr_end _ _ _ HX) as Hz. wp_mem. change (s8 0 =? 0) with true. wp_steps.
      destruct (decide (X `prefix_of` H)) as [Hp|Hp].
      { rewrite bool_decide_true by done. cbn. wp_steps. by rewrite found_prefix in HQ. }
      rewrite bool_decide_false by done. cbn [Z.b2z]. change (negb (0 =? 0)) with false.
      cbn beta iota zeta. by apply (wp_strstr_rest _ _ _ _ X H).
Qed.

(** ** strcasestr *)

(** A bounded comparison with a whole string. *)
Lemma lex_diff_n_prefix A X : Forall (fun b => 0 < b < 256) X ->
  lex_diff_n (zlen X) A X = 0 <-> X `prefix_of` A.
Proof.
  unfold lex_diff_n. rewrite Nat2Z.id, (take_app_le X) by lia. rewrite (take_ge X) by lia. intros HX. revert A.
  induction HX as [|x X Hx _ IH]; intros [|a A]; simpl.
  - split; [by exists []|done].
  - split; [by exists (a :: A)|done].
  - rewrite (proj2 (Z.eqb_neq 0 x)) by lia. split; [lia|]. intros [t E]. done.
  - destruct (Z.eqb_spec a x) as [->|Hne].
    + rewrite IH. split; [apply prefix_cons|apply prefix_cons_inv_2].
    + split; [lia|]. intros Hp. by apply prefix_cons_inv_1 in Hp as ->.
Qed.

(** The search for the first character. *)
Lemma wp_skip_char n k w p a H (Q : option Z -> world -> Prop) : 0 < a < 256 ->
  cstr (w_mem w) p H -> (length H < k)%nat ->
  Q (match find_idx (fun b => b =? to_lower a) (map to_lower H) with
     | Some i => Some (p + Z.of_nat i + 1) | None => None end) w ->
  wp n (loop_k k (fun s =>
          sc ← load8s s;
          let s := s + 1 in
          if sc =? 0 then brk None else
          x ← tolower (u8 sc);
          if negb (s8 x =? s8 (to_lower a)) then next s else brk (Some s)) p) w Q.
Proof.
  intros Ra HH Hk HQ. revert k p HH Hk HQ.
  induction H as [|b H IH]; intros [|k] p HH Hk HQ; simpl in Hk; try lia; wp_loop.
  - apply cstr_nil in HH. wp_mem. change (s8 0 =? 0) with true. by wp_steps.
  - apply cstr_cons in HH as (Hb & Rb & HH). wp_mem. rewrite s8_eqb0 by lia. wp_if. rewrite u8_s8 by lia.
    wp_step. apply wp_tolower; [lia|]. pose proof (to_lower_byte a ltac:(lia)). pose proof (to_lower_byte b ltac:(lia)).
    rewrite s8_eqb by done. cbn [map find_idx] in HQ. destruct (to_lower b =? to_lower a); wp_steps.
    + by rewrite Z.add_0_r in HQ.
    + apply IH; [done|lia|]. destruct (find_idx _ (map to_lower H)); [|exact HQ].
      eqapply HQ. simpl. f_equal. lia.
Qed.

Lemma wp_strcasestr_small n w p q a X H (Q : Z -> world -> Prop) :
  mem_ok (w_mem w) -> cstr (w_mem w) p H -> cstr (w_mem w) q X -> 0 < a < 256 ->
  (2 * length H < n)%nat -> Q (found p (map to_lower (a :: X)) (map to_lower H)) w ->
  wp n (s ⇐ loop (fun s =>
        x ← loop (fun s =>
          sc ← load8s s;
          let s := s + 1 in
          if sc =? 0 then brk None else
          x ← tolower (u8 sc);
          if negb (s8 x =? s8 (to_lower a)) then next s else brk (Some s)) s;
        match x with
        | None => brk (Return 0)
        | Some s => d ← strncasecmp s q (zlen X); if negb (d =? 0) then next s else brk (Fall s)
        end) p;
      mret (s - 1)) w Q.
Proof.
  intros Hm HH HX Ra Hn HQ.
  assert (HXb : zlen X < 1073741824).
  { destruct X; [simpl; lia|]. apply cstr_body in HX. apply mem_ok_range in HX; [lia|done..]. }
  wp_step. apply wp_loop_k. assert (Hk : (length H < n)%nat) by lia. revert Hk.
  generalize n at 1 3. intros k. revert p H HH HQ Hn. induction k as [|k IH]; intros p H HH HQ Hn Hk; [lia|].
  wp_loop. wp_step. apply wp_loop_k, (wp_skip_char _ _ _ _ _ H); [done|done|lia|].
  cbn [map] in HQ. rewrite found_first in HQ.
  destruct (find_idx _ (map to_lower H)) as [i|] eqn:Ei; [|by wp_steps].
  destruct (drop_find _ _ _ Ei) as (b' & Hb' & Ed & Hil). rewrite length_map in Hil. apply Z.eqb_eq in Hb' as ->.
  pose proof (cstr_drop (w_mem w) p H (S i) ltac:(lia) HH) as Hd.
  replace (p + Z.of_nat (S i)) with (p + Z.of_nat i + 1) in Hd by lia.
  wp_step. apply (wp_strncasecmp _ _ _ _ (drop (S i) H) X); [done|done|rewrite length_drop; lia|lia|].
  assert (Hp : lex_diff_n (zlen X) (map to_lower (drop (S i) H)) (map to_lower X) = 0 <->
    map to_lower X `prefix_of` drop (S i) (map to_lower H)).
  { rewrite <-(length_map to_lower X), skipn_map. apply lex_diff_n_prefix, Forall_map.
    eapply Forall_impl; [apply HX|]. intros b. apply to_lower_nonnull. }
  destruct (Z.eqb_spec (lex_diff_n (zlen X) (map to_lower (drop (S i) H)) (map to_lower X)) 0) as [E|E];
    rewrite Hp in E; cbn [negb]; wp_steps.
  - rewrite found_prefix in HQ by (rewrite Ed; by apply prefix_cons). eqapply HQ. lia.
  - apply (IH _ (drop (S i) H)); [done| |rewrite length_drop; lia..].
    rewrite Ed, found_skip in HQ by (intros Hq; apply E; by apply prefix_cons_inv_2 in Hq).
    by rewrite <-skipn_map.
Qed.

Lemma wp_strcasestr n w p q X H (Q : Z -> world -> Prop) :
  mem_ok (w_mem w) -> cstr (w_mem w) p H -> cstr (w_mem w) q X ->
  (256 < n)%nat -> (2 * length X + 2 * length H + 5 < n)%nat ->
  searchable (map to_lower X) (map to_lower H) ->
  Q (found p (map to_lower X) (map to_lower H)) w -> wp n (strcasestr p q) w Q.
Proof.
  intros Hm HH HX Hn256 Hn Hs HQ. unfold strcasestr. destruct PREFER_SIZE_OVER_SPEED.
  - destruct X as [|a X].
    + apply cstr_nil in HX. wp_mem. change (s8 0 =? 0) with true. wp_steps.
      by rewrite found_prefix in HQ by by exists (map to_lower H).
    + apply cstr_cons in HX as (Ha & Ra & HX). wp_mem. rewrite s8_eqb0 by lia. wp_if.
      rewrite u8_s8 by lia. do 2 wp_step. apply wp_tolower; [lia|]. do 2 wp_step.
      apply (wp_strlen _ _ X); [done|done|simpl in Hn; lia|].
      apply (wp_strcasestr_small _ _ _ _ _ _ H); [done..|lia|done].
  - wp_step. apply wp_loop_k, (wp_measure_case _ _ _ _ _ true X H); [done|done|lia|]. split.
    + intros Hlt p' q' ok' c Hc Rc. wp_mem. rewrite s8_eqb0 by lia. wp_if. wp_steps.
      by rewrite found_short in HQ.
    + intros Hle. rewrite andb_true_l, !length_map in *. pose proof (cstr_end _ _ _ HX) as Hz.
      wp_mem. change (s8 0 =? 0) with true. wp_steps.
      destruct (decide (map to_lower X `prefix_of` map to_lower H)) as [Hp|Hp].
      { rewrite bool_decide_true by done. cbn. wp_steps. by rewrite found_prefix in HQ. }
      rewrite bool_decide_false by done. cbn [Z.b2z]. change (negb (0 =? 0)) with false. cbn beta iota zeta.
      destruct X as [|a X]; [by destruct Hp; exists (map to_lower H)|].
      destruct H as [|b H]; [simpl in Hle; lia|]. pose proof HH as (Hb & Rb & HH')%cstr_cons.
      pose proof (mem_ok_range _ _ _ Hm (cstr_body _ _ _ HX) ltac:(done)) as HXr. cbn [length] in HXr.
      replace (u32 (q + zlen (a :: X) - q)) with (zlen (a :: X)) by (rewrite u32_small; simpl; lia).
      cbn [map] in HQ. rewrite found_skip in HQ by exact Hp.
      apply (wp_two_way (M := strcasestr_macros) to_lower w _ q (p + 1) (a :: X) H
        (L := strcasestr_matching w q (p + 1) (a :: X) H Hm HX HH' ltac:(done)));
        [done|by apply cstr_body|by apply cstr_body|done|simpl in *; lia|done|simpl in *; lia|
         exact (searchable_drop _ (map to_lower (b :: H)) 1 Hs)| |done].
      change (string_known H (zlen (a :: X)) 0 (u32 (zlen (a :: X) - 1))).
      unfold string_known. cbn [length] in *. rewrite u32_small by lia. lia.
Qed.
End code.
