(* ===== verification/Strtol.v ===== *)
(** * Number parsing: stdlib/strtol.c, strtoul.c, strtoll_r.c, strtoull_r.c,
    and their wide-character versions wcstol.c ... wcstoull_r.c

    The eight parsers are one piece of C text at two character types and four
    result types.  Their common body is written once, over the interface
    [charsrc] of what it needs from its characters and over the limits of the
    result type; [narrow] and [wide] implement the interface. *)

From S2P Require Import Prelude CMonad Words Memory Ctype.

(** ** What the parsers use of their input characters *)

Class charsrc := CharSrc {
  rd : Z -> C Z;              (* [*s] *)
  csz : Z;                    (* [sizeof( *s)] *)
  c_isspace : Z -> C Z;
  c_isdigit : Z -> C Z;
  c_isalpha : Z -> C Z;
  c_isupper : Z -> C Z;
}.

(** [const char *] with the macros of <ctype.h>. *)
Definition narrow : charsrc := CharSrc load8s 1 isspace isdigit isalpha isupper.

(** [const wchar_t *] with the functions of <wctype.h>; the [int] argument is
    converted to [wint_t]. *)
Definition wide : charsrc := CharSrc
  (fun p => x ← load32 p; mret (i32 x)) 4
  (fun c => iswspace (u32 c)) (fun c => iswdigit (u32 c))
  (fun c => iswalpha (u32 c)) (fun c => iswupper (u32 c)).

Definition ERANGE : Z := 34.

(** The result types: conversion to the type of [acc], the initial [cutoff],
    and the result on overflow. *)
Record restype := ResType {
  acc_wrap : Z -> Z;
  limit : bool -> Z;     (* by [neg] *)
  over : bool -> Z;
}.

Definition LONG_MAX : Z := 2147483647.
Definition LONG_MIN : Z := -2147483648.
Definition ULONG_MAX : Z := 4294967295.
Definition LONG_LONG_MAX : Z := 9223372036854775807.
Definition LONG_LONG_MIN : Z := -9223372036854775808.
Definition ULONG_LONG_MAX : Z := 18446744073709551615.

Definition t_long : restype := ResType u32
  (fun neg => if neg then u32 (- u32 LONG_MIN) else u32 LONG_MAX)
  (fun neg => if neg then u32 LONG_MIN else u32 LONG_MAX).
Definition t_ulong : restype := ResType u32 (fun _ => ULONG_MAX) (fun _ => ULONG_MAX).
Definition t_llong : restype := ResType u64
  (fun neg => if neg then u64 (- u64 LONG_LONG_MIN) else u64 LONG_LONG_MAX)
  (fun neg => if neg then u64 LONG_LONG_MIN else u64 LONG_LONG_MAX).
Definition t_ullong : restype :=
  ResType u64 (fun _ => ULONG_LONG_MAX) (fun _ => ULONG_LONG_MAX).

Section code.
Context {src : charsrc} (t : restype).

(** [do { c = *s++; } while (isspace(c));] *)
Definition skip_space (s : Z) : C (Z * Z) :=
  loop (fun s =>
    c ← rd s;
    sp ← c_isspace c;
    if negb (sp =? 0) then next (s + csz) else brk (c, s + csz)) s.

(** [if (isdigit(c)) c -= '0'; else if (isalpha(c)) c -= isupper(c) ?
    'A' - 10 : 'a' - 10; else break;] *)
Definition digit_of (c : Z) : C (option Z) :=
  d ← c_isdigit c;
  if negb (d =? 0) then mret (Some (c - 48)) else
  a ← c_isalpha c;
  if negb (a =? 0) then
    u ← c_isupper c;
    mret (Some (c - (if negb (u =? 0) then 65 - 10 else 97 - 10)))
  else mret None.

(** One iteration of the digit loop. *)
Definition digit_step (base cutoff cutlim : Z) : Z * Z * Z * Z -> C (Z * Z * Z * Z + Z * Z * Z) :=
  fun '(acc, any, c, s) =>
    d ← digit_of c;
    match d with
    | None => brk (acc, any, s)
    | Some c =>
        if base <=? c then brk (acc, any, s) else
        let '(acc, any) :=
          if (any <? 0) || (cutoff <? acc) || ((acc =? cutoff) && (cutlim <? c))
          then (acc, -1)
          else (acc_wrap t (acc_wrap t (acc * base) + c), 1) in
        c ← rd s;
        next (acc, any, c, s + csz)
    end.

(** [for (acc = 0, any = 0;; c = *s++)]: [acc], [any] and [s] at its exit. *)
Definition scan_digits (base cutoff cutlim c s : Z) : C (Z * Z * Z) :=
  loop (digit_step base cutoff cutlim) (0, 0, c, s).

(** [if (c == '-') { neg = 1; c = *s++; } else if (c == '+') c = *s++;] *)
Definition scan_sign (c s : Z) : C (bool * Z * Z) :=
  if c =? 45 then c ← rd s; mret (true, c, s + csz)
  else if c =? 43 then c ← rd s; mret (false, c, s + csz)
  else mret (false, c, s).

(** The [0x] prefix, and the base when the argument is 0. *)
Definition scan_base (base c s : Z) : C (Z * Z * Z) :=
  hex ←
    (if ((base =? 0) || (base =? 16)) && (c =? 48) then
      x ← rd s;
      if x =? 120 then mret true else x ← rd s; mret (x =? 88)
     else mret false);
  '(c, s, base) ←
    (if (hex : bool) then c ← rd (s + csz); mret (c, s + 2 * csz, 16)
     else mret (c, s, base));
  mret (c, s, if base =? 0 then (if c =? 48 then 8 else 10) else base).

Definition strto (nptr endptr base : Z) : C Z :=
  '(c, s) ← skip_space nptr;
  '(neg, c, s) ← scan_sign c s;
  '(c, s, base) ← scan_base base c s;
  let cutoff := limit t neg in
  let cutlim := i32 (cutoff mod acc_wrap t base) in
  let cutoff := cutoff / acc_wrap t base in
  '(acc, any, s) ← scan_digits base cutoff cutlim c s;
  acc ←
    (if any <? 0 then put_errno ERANGE ;; mret (over t neg)
     else if (neg : bool) then mret (acc_wrap t (- acc)) else mret acc);
  (if negb (endptr =? 0)
   then store32 endptr (if negb (any =? 0) then s - csz else nptr)
   else mret tt) ;;
  mret acc.
End code.

(** ** The library's functions *)

Definition _strtol_r (nptr endptr base : Z) : C Z :=
  acc ← strto (src := narrow) t_long nptr endptr base; mret (i32 acc).
Definition _strtoul_r (nptr endptr base : Z) : C Z :=
  strto (src := narrow) t_ulong nptr endptr base.
Definition _strtoll_r (nptr endptr base : Z) : C Z :=
  acc ← strto (src := narrow) t_llong nptr endptr base; mret (i64 acc).
Definition _strtoull_r (nptr endptr base : Z) : C Z :=
  strto (src := narrow) t_ullong nptr endptr base.
Definition _wcstol_r (nptr endptr base : Z) : C Z :=
  acc ← strto (src := wide) t_long nptr endptr base; mret (i32 acc).
Definition _wcstoul_r (nptr endptr base : Z) : C Z :=
  strto (src := wide) t_ulong nptr endptr base.
Definition _wcstoll_r (nptr endptr base : Z) : C Z :=
  acc ← strto (src := wide) t_llong nptr endptr base; mret (i64 acc).
Definition _wcstoull_r (nptr endptr base : Z) : C Z :=
  strto (src := wide) t_ullong nptr endptr base.

(** [_REENT] is the structure of the world. *)
Definition strtol (s ptr base : Z) : C Z := _strtol_r s ptr base.
Definition strtoul (s ptr base : Z) : C Z := _strtoul_r s ptr base.
Definition strtoll (s ptr base : Z) : C Z := _strtoll_r s ptr base.
Definition strtoull (s ptr base : Z) : C Z := _strtoull_r s ptr base.
Definition wcstol (s ptr base : Z) : C Z := _wcstol_r s ptr base.
Definition wcstoul (s ptr base : Z) : C Z := _wcstoul_r s ptr base.
Definition wcstoll (s ptr base : Z) : C Z := _wcstoll_r s ptr base.
Definition wcstoull (s ptr base : Z) : C Z := _wcstoull_r s ptr base.
Definition atoi (s : Z) : C Z := x ← strtol s 0 10; mret (i32 x).
Definition atol (s : Z) : C Z := strtol s 0 10.
Definition atoll (s : Z) : C Z := strtoll s 0 10.

(** ** Specification

    The grammar, on the list of characters up to and including the null. *)

Fixpoint skip_spaces (l : list Z) : list Z :=
  match l with
  | c :: l' => if is_space c then skip_spaces l' else l
  | [] => []
  end.

Definition split_sign (l : list Z) : bool * list Z :=
  match l with
  | c :: l' => if c =? 45 then (true, l') else if c =? 43 then (false, l') else (false, l)
  | [] => (false, [])
  end.

Definition split_base (base : Z) (l : list Z) : Z * list Z :=
  match l with
  | c :: x :: l' =>
      if ((base =? 0) || (base =? 16)) && (c =? 48) && ((x =? 120) || (x =? 88))
      then (16, l')
      else ((if base =? 0 then if c =? 48 then 8 else 10 else base), l)
  | _ => ((if base =? 0 then 10 else base), l)
  end.

Definition digit_val (c : Z) : option Z :=
  if is_digit c then Some (c - 48)
  else if is_upper c then Some (c - 55)
  else if is_lower c then Some (c - 87)
  else None.

(** The longest prefix of digits of a base. *)
Fixpoint digits (base : Z) (l : list Z) : list Z :=
  match l with
  | c :: l' =>
      match digit_val c with
      | Some d => if d <? base then d :: digits base l' else []
      | None => []
      end
  | [] => []
  end.

Definition value (base v : Z) (ds : list Z) : Z :=
  fold_left (fun a d => a * base + d) ds v.

Record numeral := Numeral {
  n_neg : bool;
  n_base : Z;
  n_rest : list Z;      (* from the first digit on *)
  n_digits : list Z;
}.

Definition parse (base : Z) (l : list Z) : numeral :=
  let '(neg, l1) := split_sign (skip_spaces l) in
  let '(b, l2) := split_base base l1 in
  Numeral neg b l2 (digits b l2).

Definition n_value (x : numeral) : Z := value (n_base x) 0 (n_digits x).

(** The number of characters up to the end of the digits. *)
Definition consumed (base : Z) (l : list Z) : Z :=
  let x := parse base l in zlen l - zlen (n_rest x) + zlen (n_digits x).

(** The pointer stored in [*endptr]. *)
Definition end_ptr (sz nptr base : Z) (l : list Z) : Z :=
  match n_digits (parse base l) with
  | [] => nptr
  | _ => nptr + sz * consumed base l
  end.

(** What [strto] returns and leaves in memory. *)
Definition strto_value (t : restype) (x : numeral) : Z :=
  if limit t (n_neg x) <? n_value x then over t (n_neg x)
  else if n_neg x then acc_wrap t (- n_value x) else n_value x.

Definition strto_world (overflow : bool) (sz nptr endptr base : Z) (l : list Z) (w : world)
  : world :=
  let w1 := if overflow then set_reent (set_errno ERANGE (w_reent w)) w else w in
  if endptr =? 0 then w1
  else set_mem (store_bytes endptr (le_bytes (end_ptr sz nptr base l)) (w_mem w1)) w1.

Definition overflows (t : restype) (x : numeral) : bool := limit t (n_neg x) <? n_value x.

(** The number denoted, and its saturation to a signed type. *)
Definition signed_value (x : numeral) : Z := if n_neg x then - n_value x else n_value x.
Definition clamp (lo hi x : Z) : Z := Z.max lo (Z.min hi x).
Definition in_range (lo hi x : Z) : bool := (lo <=? x) && (x <=? hi).

(** ** Laws of the interface *)

Class charsrc_ok (src : charsrc) := {
  valid : Z -> Prop;
  reads : mem -> Z -> Z -> Prop;
  reads_valid m p c : reads m p c -> valid c;
  wp_rd n p c w (Q : Z -> world -> Prop) :
    reads (w_mem w) p c -> Q c w -> wp n (rd p) w Q;
  csz_pos : 0 < csz;
  isspace_ok n c w (Q : Z -> world -> Prop) : valid c ->
    (forall v, (v =? 0) = negb (is_space c) -> Q v w) -> wp n (c_isspace c) w Q;
  isdigit_ok n c w (Q : Z -> world -> Prop) : valid c ->
    (forall v, (v =? 0) = negb (is_digit c) -> Q v w) -> wp n (c_isdigit c) w Q;
  isalpha_ok n c w (Q : Z -> world -> Prop) : valid c ->
    (forall v, (v =? 0) = negb (is_alpha c) -> Q v w) -> wp n (c_isalpha c) w Q;
  isupper_ok n c w (Q : Z -> world -> Prop) : valid c ->
    (forall v, (v =? 0) = negb (is_upper c) -> Q v w) -> wp n (c_isupper c) w Q;
}.

(** Consecutive characters. *)
Fixpoint chars {src : charsrc} {Hsrc : charsrc_ok src} (m : mem) (p : Z) (l : list Z) : Prop :=
  match l with
  | [] => True
  | c :: l' => reads m p c /\ chars m (p + csz) l'
  end.

Class restype_ok (t : restype) := {
  wrap_small neg x : 0 <= x <= limit t neg -> acc_wrap t x = x;
  limit_large neg : 36 <= limit t neg;
}.

Section correctness.
Context {src : charsrc} {Hsrc : charsrc_ok src} (t : restype) {Ht : restype_ok t}.
Implicit Types (n k N : nat) (w : world) (e p q : Z) (l : list Z).

(** [l] is what is left, at [p], of a null-terminated text that ends at [e]. *)
Record text (w : world) (e : Z) (N : nat) (p : Z) (l : list Z) : Prop := {
  text_chars : chars (w_mem w) p l;
  text_end : p + csz * zlen l = e;
  text_null : last l = Some 0;
  text_len : (length l <= N)%nat;
}.

Lemma text_cons w e N p c l :
  text w e N p (c :: l) ->
  reads (w_mem w) p c /\ valid c /\ (c <> 0 -> text w e N (p + csz) l).
Proof.
  intros [[Hr Hc] He Hn Hl]. split_and!; [done|by eapply reads_valid|].
  intros Hc0. split; [done|simpl in *; lia| |simpl in *; lia].
  destruct l; [simpl in Hn; congruence|done].
Qed.

Lemma text_ne w e N p l : text w e N p l -> exists c l', l = c :: l'.
Proof. intros [_ _ Hn _]. destruct l; [done|eauto]. Qed.

(** Read the next character. *)
Lemma wp_next_char n e N p l w (Q : Z -> world -> Prop) :
  text w e N p l ->
  (forall c l', l = c :: l' -> text w e N p (c :: l') -> Q c w) ->
  wp n (rd p) w Q.
Proof.
  intros Ht' HQ. destruct (text_ne _ _ _ _ _ Ht') as (c & l' & ->).
  eapply wp_rd; [by destruct (text_cons _ _ _ _ _ _ Ht')|]. by eapply HQ.
Qed.

Lemma skip_spaces_cons c l :
  is_space c = true -> skip_spaces (c :: l) = skip_spaces l.
Proof. simpl. by intros ->. Qed.

Lemma wp_skip_space n e N p l w (Q : Z * Z -> world -> Prop) :
  text w e N p l -> (length l <= n)%nat ->
  (forall q c l', skip_spaces l = c :: l' -> text w e N q (c :: l') -> Q (c, q + csz) w) ->
  wp n (skip_space p) w Q.
Proof.
  intros Hl Hn HQ. apply wp_loop_k. revert Hn. generalize n at 1 3. intros k.
  revert k p Hl HQ. induction l as [|c l IH]; intros [|k] p Hl HQ Hk; simpl in Hk; try lia.
  1, 2: by destruct (text_ne _ _ _ _ _ Hl) as (? & ? & ?).
  apply text_cons in Hl as H'. destruct H' as (Hr & Hv & Htl).
  wp_loop. wp_step. eapply wp_rd; [exact Hr|]. wp_step.
  apply isspace_ok; [done|]. intros v ->. destruct (is_space c) eqn:Es; simpl; wp_steps.
  - apply IH; [|by rewrite skip_spaces_cons in HQ|lia].
    apply Htl. intros ->. discriminate.
  - eapply HQ; [|exact Hl]. simpl. by rewrite Es.
Qed.

Lemma wp_digit_of n c w (Q : option Z -> world -> Prop) :
  valid c -> Q (digit_val c) w -> wp n (digit_of c) w Q.
Proof.
  intros Hv HQ. unfold digit_of, digit_val in *. wp_step.
  apply isdigit_ok; [done|]. intros v ->. destruct (is_digit c); simpl; wp_steps; [done|].
  apply isalpha_ok; [done|]. intros v' ->. unfold is_alpha.
  destruct (is_upper c) eqn:Eu; simpl; wp_steps.
  - apply isupper_ok; [done|]. intros v'' ->. rewrite Eu. by wp_steps.
  - destruct (is_lower c); simpl; wp_steps; [|done].
    apply isupper_ok; [done|]. intros v'' ->. rewrite Eu. by wp_steps.
Qed.

Lemma digit_val_range c d : digit_val c = Some d -> 0 <= d < 36.
Proof.
  unfold digit_val, is_digit, is_upper, is_lower, between. intros H.
  repeat case_match; simplify_eq; blia.
Qed.

Lemma value_mono base v ds :
  1 <= base -> 0 <= v -> Forall (fun d => 0 <= d) ds -> v <= value base v ds.
Proof.
  intros Hb. revert v. induction ds as [|d ds IH]; intros v Hv Hd; [simpl; lia|].
  apply Forall_cons in Hd as [? ?]. simpl. etrans; [|apply IH; [nia|done]]. nia.
Qed.

Lemma digits_nonneg base l : Forall (fun d => 0 <= d) (digits base l).
Proof.
  induction l as [|c l IH]; simpl; [done|]. destruct (digit_val c) as [d|] eqn:E; [|done].
  apply digit_val_range in E. case_match; [|done]. constructor; [lia|done].
Qed.

(** The state of the digit loop that has read the value [v]. *)
Definition acc_ok (lim acc any v : Z) : Prop :=
  (any = -1 /\ lim < v) \/ ((any = 0 \/ any = 1) /\ acc = v /\ 0 <= v <= lim).

(** The overflow test of the source is exact. *)
Lemma cutoff_exact lim base acc d :
  0 <= acc <= lim -> 2 <= base -> 0 <= d < base ->
  ((lim / base <? acc) || ((acc =? lim / base) && (lim mod base <? d))) =
  (lim <? acc * base + d).
Proof.
  intros Ha Hb Hd. apply Bool.eq_iff_eq_true.
  rewrite orb_true_iff, andb_true_iff, !Z.ltb_lt, Z.eqb_eq.
  pose proof (Z.div_mod lim base ltac:(lia)). pose proof (Z.mod_pos_bound lim base ltac:(lia)).
  generalize dependent (lim / base). generalize dependent (lim mod base).
  intros r Hr q Eq. split; [intros [?|[? ?]]; nia|]. intros. 
  destruct (Z.lt_trichotomy q acc) as [|[|]]; [by left|right; nia|nia].
Qed.

Lemma digits_cons base c l :
  digits base (c :: l) =
  match digit_val c with
  | Some d => if base <=? d then [] else d :: digits base l
  | None => []
  end.
Proof. simpl. destruct (digit_val c) as [d|]; [|done]. rewrite Z.leb_antisym. by destruct (d <? base). Qed.

Lemma digits_length base l : (length (digits base l) <= length l)%nat.
Proof.
  induction l as [|c l IH]; [done|]. rewrite digits_cons.
  repeat case_match; simpl; lia.
Qed.

(** One digit preserves the invariant of the loop. *)
Lemma acc_step neg base acc any v d :
  2 <= base <= 36 -> 0 <= v -> acc_ok (limit t neg) acc any v -> 0 <= d < base ->
  let '(acc', any') :=
    if (any <? 0) || (limit t neg / base <? acc) ||
       ((acc =? limit t neg / base) && (limit t neg mod base <? d))
    then (acc, -1)
    else (acc_wrap t (acc_wrap t (acc * base) + d), 1) in
  acc_ok (limit t neg) acc' any' (v * base + d) /\ any' <> 0.
Proof.
  intros Hb Hv Hacc Hd. destruct Hacc as [[-> Hlt]|(Hany & -> & Hle)].
  - simpl. split; [left; split; [done|nia]|lia].
  - replace (any <? 0) with false by lia. simpl. rewrite cutoff_exact by lia.
    destruct (limit t neg <? v * base + d) eqn:E; (split; [|lia]).
    + left. split; [done|blia].
    + right. rewrite (wrap_small neg (v * base)) by (b2p; nia).
      rewrite (wrap_small neg) by (b2p; nia). split_and!; [by right|done|nia|blia].
Qed.

Lemma wp_digit_loop n k neg base e N c l p acc any v w (Q : Z * Z * Z -> world -> Prop) :
  2 <= base <= 36 -> 0 <= v -> acc_ok (limit t neg) acc any v ->
  text w e N p (c :: l) -> (length (c :: l) <= k)%nat ->
  (forall acc' any', acc_ok (limit t neg) acc' any' (value base v (digits base (c :: l))) ->
    (any' = 0 <-> any = 0 /\ digits base (c :: l) = []) ->
    Q (acc', any', p + csz * zlen (digits base (c :: l)) + csz) w) ->
  wp n (loop_k k (digit_step t base (limit t neg / base) (limit t neg mod base))
    (acc, any, c, p + csz)) w Q.
Proof.
  intros Hb. revert k c p acc any v.
  induction l as [|c' l IH]; intros [|k] c p acc any v Hv Hacc Hl Hk HQ; simpl in Hk; try lia;
    apply text_cons in Hl as H'; destruct H' as (_ & Hval & Htl);
    wp_loop; unfold digit_step at 1; wp_step; (apply wp_digit_of; [done|]); rewrite digits_cons in HQ.
  - assert (c = 0) as -> by (apply text_null in Hl; simpl in Hl; congruence).
    change (digit_val 0) with (@None Z). wp_steps. simpl in HQ. rewrite Z.mul_0_r, Z.add_0_r in HQ. apply HQ; naive_solver.
  - assert (Hstop : acc_ok (limit t neg) acc any (value base v []) ->
      (any = 0 <-> any = 0 /\ @nil Z = []) ->
      Q (acc, any, p + csz * zlen (@nil Z) + csz) w -> Q (acc, any, p + csz) w).
    { simpl. by rewrite Z.mul_0_r, Z.add_0_r. }
    destruct (digit_val c) as [d|] eqn:Ed; [|wp_steps; apply Hstop; naive_solver].
    assert (Hd := digit_val_range _ _ Ed).
    destruct (base <=? d) eqn:Ebd; [wp_steps; apply Hstop; naive_solver|]. clear Hstop.
    assert (Htxt : text w e N (p + csz) (c' :: l)) by (apply Htl; intros ->; discriminate).
    apply text_cons in Htxt as H'. destruct H' as (Hr & _ & _).
    pose proof (acc_step neg base acc any v d Hb Hv Hacc ltac:(blia)) as Hs.
    destruct (if _ : bool then _ else _) as [acc' any'] eqn:E. destruct Hs as [Hacc' Hany'].
    wp_step. eapply wp_rd; [exact Hr|]. wp_steps.
    apply (IH _ _ _ _ _ (v * base + d)); [nia|done|done|simpl; lia|].
    intros acc'' any'' Hacc'' Hany''.
    specialize (HQ acc'' any'' Hacc'' ltac:(naive_solver)).
    eqapply HQ. simpl. flia.
Qed.

(** The number ends the scan after its digits. *)
Lemma wp_scan_digits n neg base e N c l p w (Q : Z * Z * Z -> world -> Prop) :
  2 <= base <= 36 -> text w e N p (c :: l) -> (N <= n)%nat ->
  (forall acc any, acc_ok (limit t neg) acc any (value base 0 (digits base (c :: l))) ->
    (any = 0 <-> digits base (c :: l) = []) ->
    Q (acc, any, p + csz * zlen (digits base (c :: l)) + csz) w) ->
  wp n (scan_digits t base (limit t neg / base) (limit t neg mod base) c (p + csz)) w Q.
Proof.
  intros Hb Hl Hn HQ. assert (Hlim := limit_large neg). assert (Hlen := text_len _ _ _ _ _ Hl).
  apply wp_loop_k, (wp_digit_loop _ _ neg _ e N _ l _ _ _ 0); [done|lia| |done|lia|].
  - right. lia.
  - intros acc any Hacc Hany. apply HQ; [done|]. naive_solver.
Qed.

Lemma wp_scan_sign n e N q c l w (Q : bool * Z * Z -> world -> Prop) :
  text w e N q (c :: l) ->
  (forall neg q' c' l', split_sign (c :: l) = (neg, c' :: l') -> text w e N q' (c' :: l') ->
     Q (neg, c', q' + csz) w) ->
  wp n (scan_sign c (q + csz)) w Q.
Proof.
  intros Hl HQ. unfold scan_sign, split_sign in *.
  apply text_cons in Hl as H'. destruct H' as (_ & _ & Htl).
  destruct (Z.eqb_spec c 45) as [->|]; [|destruct (Z.eqb_spec c 43) as [->|]].
  - wp_steps. eapply wp_next_char; [by apply Htl|]. intros c' l' -> Hl'. wp_steps. eauto.
  - wp_steps. eapply wp_next_char; [by apply Htl|]. intros c' l' -> Hl'. wp_steps. eauto.
  - wp_steps. eauto.
Qed.

Lemma wp_scan_base n e N q c l base w (Q : Z * Z * Z -> world -> Prop) :
  text w e N q (c :: l) ->
  (forall b q' c' l', split_base base (c :: l) = (b, c' :: l') -> text w e N q' (c' :: l') ->
     Q (c', q' + csz, b) w) ->
  wp n (scan_base base c (q + csz)) w Q.
Proof.
  intros Hl HQ. unfold scan_base.
  assert (Hplain : forall x l1, l = x :: l1 ->
    ((base =? 0) || (base =? 16)) && (c =? 48) && ((x =? 120) || (x =? 88)) = false ->
    Q (c, q + csz, if base =? 0 then (if c =? 48 then 8 else 10) else base) w).
  { intros x l1 -> E. eapply HQ; [|exact Hl]. simpl. by rewrite E. }
  apply text_cons in Hl as H'. destruct H' as (_ & _ & Htl).
  destruct (((base =? 0) || (base =? 16)) && (c =? 48)) eqn:E; wp_steps.
  2: { destruct l as [|x l1]; [|by eapply Hplain].
    assert (c = 0) as -> by (apply text_null in Hl; simpl in Hl; congruence).
    eapply HQ; [|exact Hl]. simpl. done. }
  specialize (Htl ltac:(blia)).
  eapply wp_next_char; [exact Htl|]. intros x l1 -> Hl1.
  apply text_cons in Hl1 as H'. destruct H' as (Hr & _ & Htl1).
  assert (Hx : forall Q' : bool -> world -> Prop, Q' ((x =? 120) || (x =? 88)) w ->
    wp n (if x =? 120 then mret true else x ← rd (q + csz); mret (x =? 88)) w Q').
  { intros Q' HQ'. destruct (x =? 120); wp_steps; [done|].
    eapply wp_rd; [exact Hr|]. by wp_steps. }
  apply Hx. clear Hx. destruct ((x =? 120) || (x =? 88)) eqn:Ex; wp_steps.
  - eapply wp_next_char; [apply Htl1; intros ->; discriminate|].
    intros c' l' -> Hl'. wp_steps.
    replace (q + csz + 2 * csz) with (q + csz + csz + csz) by lia.
    eapply HQ; [|exact Hl']. simpl. by rewrite E, Ex.
  - by eapply Hplain.
Qed.

Lemma split_base_range base l b l' :
  base = 0 \/ 2 <= base <= 36 -> split_base base l = (b, l') -> 2 <= b <= 36.
Proof. unfold split_base. intros Hb E. repeat case_match; simplify_eq; blia. Qed.

(** The parsers read the numeral the grammar finds. *)
Lemma wp_strto n nptr endptr base l w (Q : Z -> world -> Prop) :
  base = 0 \/ 2 <= base <= 36 ->
  chars (w_mem w) nptr l -> last l = Some 0 -> (length l <= n)%nat ->
  0 <= nptr -> nptr + csz * zlen l < 4294967296 ->
  endptr = 0 \/ mapped (w_mem w) endptr 4 ->
  Q (strto_value t (parse base l))
    (strto_world (overflows t (parse base l)) csz nptr endptr base l w) ->
  wp n (strto t nptr endptr base) w Q.
Proof.
  intros Hb Hc Hlast Hn Hp0 Hp1 Hend HQ. unfold strto. wp_step.
  assert (Htext : text w (nptr + csz * zlen l) (length l) nptr l) by done.
  eapply wp_skip_space; [exact Htext|done|]. intros q c1 l1 E1 Ht1. wp_steps.
  eapply wp_scan_sign; [exact Ht1|]. intros neg q2 c2 l2 E2 Ht2. wp_steps.
  eapply wp_scan_base; [exact Ht2|]. intros b q3 c3 l3 E3 Ht3. wp_steps.
  assert (Hb3 := split_base_range _ _ _ _ Hb E3). assert (Hlim := limit_large neg).
  rewrite (wrap_small neg) by lia.
  rewrite i32_small by (pose proof (Z.mod_pos_bound (limit t neg) b); lia).
  eapply wp_scan_digits; [done|exact Ht3|done|]. intros acc any Hacc Hany.
  wp_steps.
  assert (Ep : parse base l = Numeral neg b (c3 :: l3) (digits b (c3 :: l3))).
  { unfold parse. by rewrite E1, E2, E3. }
  set (ds := digits b (c3 :: l3)) in *. set (V := value b 0 ds) in *.
  assert (Hov : (limit t neg <? V) = (any <? 0)).
  { destruct Hacc as [[-> ?]|(? & -> & ?)]; lia. }
  unfold strto_value, strto_world, overflows in HQ. rewrite Ep in HQ. unfold n_value in HQ. simpl in HQ.
  fold V in HQ. rewrite Hov in HQ.
  assert (Eend : (if negb (any =? 0) then q3 + csz * zlen ds + csz - csz else nptr) =
    end_ptr csz nptr base l /\ 0 <= end_ptr csz nptr base l < 4294967296).
  { unfold end_ptr, consumed. rewrite Ep. simpl n_digits. simpl n_rest.
    assert (He := text_end _ _ _ _ _ Ht3). assert (Hl3 := text_len _ _ _ _ _ Ht3).
    assert (Hds : (length ds <= length (c3 :: l3))%nat) by apply digits_length.
    pose proof csz_pos. fold ds.
    destruct ds as [|d ds'] eqn:Eds.
    - rewrite (proj2 Hany eq_refl). simpl. nia.
    - rewrite (proj2 (Z.eqb_neq any 0)) by (intros Ea; apply Hany in Ea; done).
      rewrite <-Eds in *. cbn [negb].
      assert (csz * zlen ds <= csz * zlen (c3 :: l3)) by (apply Z.mul_le_mono_nonneg_l; lia).
      assert (0 <= csz * zlen ds) by (apply Z.mul_nonneg_nonneg; lia).
      assert (csz * zlen (c3 :: l3) <= csz * zlen l) by (apply Z.mul_le_mono_nonneg_l; lia).
      rewrite Z.mul_add_distr_l, Z.mul_sub_distr_l. lia. }
  destruct Eend as [-> Hend2].
  assert (Hret : forall Q', Q' (strto_value t (parse base l))
      (if any <? 0 then set_reent (set_errno ERANGE (w_reent w)) w else w) ->
    wp n (if any <? 0 then put_errno ERANGE ;; mret (over t neg)
          else if neg then mret (acc_wrap t (- acc)) else mret acc) w Q').
  { unfold strto_value. rewrite Ep. unfold n_value. simpl. fold ds V. rewrite Hov.
    intros Q' HQ'. destruct (any <? 0) eqn:Ea; wp_steps; [done|].
    assert (acc = V) as -> by (destruct Hacc as [[-> ?]|(? & ? & ?)]; [blia|done]).
    by destruct neg; wp_steps. }
  apply Hret. clear Hret.
  unfold strto_value. rewrite Ep. unfold n_value. simpl. fold ds V. rewrite Hov.
  destruct (endptr =? 0) eqn:E0; wp_steps; [done|].
  apply wp_store32_le; [|done|].
  - destruct Hend as [->|Hend]; [done|]. by destruct (any <? 0).
  - wp_steps. exact HQ.
Qed.
End correctness.

(** ** The two character types *)

#[export] Instance narrow_ok : charsrc_ok narrow.
Proof.
  refine {| valid c := -128 <= c < 128;
    reads m p c := exists b, m !! p = Some b /\ is_byte b /\ c = s8 b |}.
  - intros m p c (b & _ & Hb & ->). unfold s8. lia.
  - intros n p c w Q (b & Hb & _ & ->) HQ. simpl. by eapply wp_load8s.
  - done.
  - intros n c w Q Hc HQ. apply isspace_decides; [lia|done].
  - intros n c w Q Hc HQ. apply isdigit_decides; [lia|done].
  - intros n c w Q Hc HQ. apply isalpha_decides; [lia|done].
  - intros n c w Q Hc HQ. apply isupper_decides; [lia|done].
Defined.

(** The class of a [wchar_t] survives its conversion to [wint_t]. *)
Lemma wide_class f (P : Z -> bool) :
  wdecides f P -> (forall c, 128 <= c -> P c = false) -> (forall c, c < 0 -> P c = false) ->
  forall n c w (Q : Z -> world -> Prop), -2147483648 <= c < 2147483648 ->
  (forall v, (v =? 0) = negb (P c) -> Q v w) -> wp n (f (u32 c)) w Q.
Proof.
  intros Hf Hhi Hlo n c w Q Hc HQ. apply Hf; [apply u32_range|]. intros v Hv. apply HQ.
  rewrite Hv. destruct (Z.lt_ge_cases c 0).
  - by rewrite (Hlo c), (Hhi (u32 c)) by (done || (unfold u32; lia)).
  - by rewrite u32_small by lia.
Qed.

#[export] Instance wide_ok : charsrc_ok wide.
Proof.
  refine {| valid c := -2147483648 <= c < 2147483648;
    reads m p c := exists x, bytes m p (le_bytes x) /\ 0 <= x < 4294967296 /\ c = i32 x |}.
  - intros m p c (x & _ & _ & ->). apply i32_range.
  - intros n p c w Q (x & Hx & Hr & ->) HQ. simpl. wp_step.
    eapply wp_load32_le; [done..|]. by wp_steps.
  - done.
  - apply wide_class; [apply iswspace_wdecides|unfold is_space, between; lia..].
  - apply wide_class; [apply iswdigit_wdecides|unfold is_digit, between; lia..].
  - apply wide_class; [apply iswalpha_wdecides|
      unfold is_alpha, is_upper, is_lower, between; lia..].
  - apply wide_class; [apply iswupper_wdecides|unfold is_upper, between; lia..].
Defined.

(** ** The four result types *)

#[export] Instance t_long_ok : restype_ok t_long.
Proof.
  split.
  - intros neg x Hx. apply u32_small. destruct neg; simpl in Hx;
      [change (u32 (- u32 LONG_MIN)) with 2147483648 in Hx
      |change (u32 LONG_MAX) with 2147483647 in Hx]; lia.
  - by intros [].
Qed.
#[export] Instance t_ulong_ok : restype_ok t_ulong.
Proof.
  split; [|by intros []]. intros neg x Hx. apply u32_small.
  unfold t_ulong, ULONG_MAX in Hx. simpl in Hx. lia.
Qed.
#[export] Instance t_llong_ok : restype_ok t_llong.
Proof.
  split.
  - intros neg x Hx. apply u64_small. destruct neg; simpl in Hx;
      [change (u64 (- u64 LONG_LONG_MIN)) with 9223372036854775808 in Hx
      |change (u64 LONG_LONG_MAX) with 9223372036854775807 in Hx]; lia.
  - by intros [].
Qed.
#[export] Instance t_ullong_ok : restype_ok t_ullong.
Proof.
  split; [|by intros []]. intros neg x Hx. apply u64_small.
  unfold t_ullong, ULONG_LONG_MAX in Hx. simpl in Hx. lia.
Qed.

Lemma n_value_nonneg base l : base = 0 \/ 2 <= base <= 36 -> 0 <= n_value (parse base l).
Proof.
  intros Hb. unfold n_value, parse. destruct (split_sign _) as [neg l1].
  destruct (split_base base l1) as [b l2] eqn:E. apply split_base_range in E; [|done]. simpl.
  apply value_mono; [lia|done|apply digits_nonneg].
Qed.

(** The signed results saturate. *)
Lemma t_long_value x :
  0 <= n_value x ->
  i32 (strto_value t_long x) = clamp LONG_MIN LONG_MAX (signed_value x) /\
  overflows t_long x = negb (in_range LONG_MIN LONG_MAX (signed_value x)).
Proof.
  unfold strto_value, overflows, signed_value, clamp, in_range. generalize (n_value x) as v. intros v Hv.
  cbn [limit over acc_wrap t_long]. destruct (n_neg x).
  - change (u32 (- u32 LONG_MIN)) with 2147483648. unfold LONG_MIN, LONG_MAX, i32, u32.
    destruct (Z.ltb_spec 2147483648 v); split; lia.
  - change (u32 LONG_MAX) with 2147483647. unfold LONG_MIN, LONG_MAX, i32, u32.
    destruct (Z.ltb_spec 2147483647 v); split; lia.
Qed.

Lemma t_llong_value x :
  0 <= n_value x ->
  i64 (strto_value t_llong x) = clamp LONG_LONG_MIN LONG_LONG_MAX (signed_value x) /\
  overflows t_llong x = negb (in_range LONG_LONG_MIN LONG_LONG_MAX (signed_value x)).
Proof.
  unfold strto_value, overflows, signed_value, clamp, in_range. generalize (n_value x) as v. intros v Hv.
  cbn [limit over acc_wrap t_llong]. destruct (n_neg x).
  - change (u64 (- u64 LONG_LONG_MIN)) with 9223372036854775808.
    unfold LONG_LONG_MIN, LONG_LONG_MAX, i64, u64.
    destruct (Z.ltb_spec 9223372036854775808 v); split; lia.
  - change (u64 LONG_LONG_MAX) with 9223372036854775807.
    unfold LONG_LONG_MIN, LONG_LONG_MAX, i64, u64.
    destruct (Z.ltb_spec 9223372036854775807 v); split; lia.
Qed.

(** The characters of a C string. *)
Lemma cstr_chars m p s : cstr m p s -> chars (src := narrow) m p (map s8 (s ++ [0])).
Proof.
  revert p. induction s as [|b s IH]; intros p.
  - intros H%cstr_nil. simpl. split; [|done]. by exists 0.
  - intros (Hb & Hr & Hs)%cstr_cons. simpl. split; [|by apply IH]. exists b. split_and!; [done|lia|lia|done].
Qed.
