(* ===== verification/Random.v ===== *)
(** * Integer division and random numbers: stdlib/div.c, ldiv.c, lldiv.c,
    abs.c, labs.c, llabs.c, rand.c, rand_r.c, rand48.c and its callers

    The floating-point results of drand48.c and erand48.c are not modelled;
    the state change they make is [__dorand48]. *)

From S2P Require Import Prelude CMonad Memory.

(** ** Division *)

(** [div], [ldiv] and [lldiv]: [/] and [%] truncate; division by zero traps. *)
Definition div (num denom : Z) : C (Z * Z) :=
  if denom =? 0 then fault else
  let quot := i32 (Z.quot num denom) in
  let rem := Z.rem num denom in
  if (0 <=? num) && (rem <? 0) then mret (i32 (quot + 1), i32 (rem - denom))
  else if (num <? 0) && (0 <? rem) then mret (i32 (quot - 1), i32 (rem + denom))
  else mret (quot, rem).

Definition ldiv (num denom : Z) : C (Z * Z) :=
  if denom =? 0 then fault else
  let quot := i32 (Z.quot num denom) in
  let rem := Z.rem num denom in
  if (0 <=? num) && (rem <? 0) then mret (i32 (quot + 1), i32 (rem - denom))
  else if (num <? 0) && (0 <? rem) then mret (i32 (quot - 1), i32 (rem + denom))
  else mret (quot, rem).

Definition lldiv (numer denom : Z) : C (Z * Z) :=
  if denom =? 0 then fault else
  let quot := i64 (Z.quot numer denom) in
  let rem := Z.rem numer denom in
  if (0 <=? numer) && (rem <? 0) then mret (i64 (quot + 1), i64 (rem - denom))
  else mret (quot, rem).

Definition abs (i : Z) : Z := if i <? 0 then i32 (- i) else i.
Definition labs (x : Z) : Z := if x <? 0 then i32 (- x) else x.
Definition llabs (j : Z) : Z := if j <? 0 then i64 (- j) else j.

(** ** rand *)

Definition RAND_MAX : Z := 0x7fffffff.

Definition srand (seed : Z) : C unit :=
  r ← get_reent; put_reent (set_rand_next (u64 seed) r).

Definition rand : C Z :=
  r ← get_reent;
  let x := u64 (_rand_next r * 6364136223846793005 + 1) in
  put_reent (set_rand_next x r) ;;
  mret (i32 (Z.land (Z.shiftr x 32) RAND_MAX)).

(** [rand_r]: Schrage's method for [16807 * s mod (2^31 - 1)]. *)
Definition rand_r (seed : Z) : C Z :=
  v ← load32 seed;
  let s := i32 v in
  let s := if s =? 0 then 0x12345987 else s in
  let k := Z.quot s 127773 in
  let s := i32 (i32 (16807 * i32 (s - i32 (k * 127773))) - i32 (2836 * k)) in
  let s := if s <? 0 then i32 (s + 2147483647) else s in
  store32 seed (u32 s) ;;
  mret (Z.land s RAND_MAX).

(** ** The 48-bit generators *)

Definition _RAND48_SEED_0 : Z := 0x330e.
Definition _RAND48_MULT_0 : Z := 0xe66d.
Definition _RAND48_MULT_1 : Z := 0xdeec.
Definition _RAND48_MULT_2 : Z := 0x0005.
Definition _RAND48_ADD : Z := 0x000b.

(** [__dorand48]: the new value of [xseed].  The products of [unsigned short]s
    in the last line are computed in [int]. *)
Definition __dorand48 (r : rand48) (xseed : ushort3) : ushort3 :=
  let '(m0, m1, m2) := _mult r in
  let '(x0, x1, x2) := xseed in
  let accu := u32 (u32 (m0 * x0) + _add r) in
  let temp0 := u16 accu in
  let accu := Z.shiftr accu 16 in
  let accu := u32 (accu + u32 (u32 (m0 * x1) + u32 (m1 * x0))) in
  let temp1 := u16 accu in
  let accu := Z.shiftr accu 16 in
  let accu := u32 (accu + u32 (i32 (i32 (i32 (m0 * x2) + i32 (m1 * x1)) + i32 (m2 * x0)))) in
  (temp0, temp1, u16 accu).

(** [_jrand48_r], [_nrand48_r]: the caller's seed array is updated. *)
Definition _jrand48_r (xseed : ushort3) : C (Z * ushort3) :=
  r ← get_reent;
  let xseed := __dorand48 (_r48 r) xseed in
  let '(x0, x1, x2) := xseed in
  mret (i32 (i32 (Z.shiftl x2 16) + x1), xseed).

Definition _nrand48_r (xseed : ushort3) : C (Z * ushort3) :=
  r ← get_reent;
  let xseed := __dorand48 (_r48 r) xseed in
  let '(x0, x1, x2) := xseed in
  mret (i32 (u32 (i32 (u32 (Z.shiftl x2 15)) + Z.shiftr x1 1)), xseed).

Definition put_seed48 (s : ushort3) : C unit :=
  r ← get_reent;
  put_reent (set_r48 (Rand48 s (_mult (_r48 r)) (_add (_r48 r))) r).

(** [_lrand48_r], [_mrand48_r]: the seed of the reentrancy structure. *)
Definition _lrand48_r : C Z :=
  r ← get_reent;
  let xseed := __dorand48 (_r48 r) (_seed (_r48 r)) in
  put_seed48 xseed ;;
  let '(x0, x1, x2) := xseed in
  mret (i32 (u32 (i32 (u32 (Z.shiftl x2 15)) + Z.shiftr x1 1))).

Definition _mrand48_r : C Z :=
  r ← get_reent;
  let xseed := __dorand48 (_r48 r) (_seed (_r48 r)) in
  put_seed48 xseed ;;
  let '(x0, x1, x2) := xseed in
  mret (i32 (i32 (Z.shiftl x2 16) + x1)).

Definition _srand48_r (seed : Z) : C unit :=
  r ← get_reent;
  put_reent (set_r48 (Rand48
    (_RAND48_SEED_0, u16 seed, u16 (Z.shiftr (u32 seed) 16))
    (_RAND48_MULT_0, _RAND48_MULT_1, _RAND48_MULT_2) _RAND48_ADD) r).

(** [_seed48_r] returns the old seed (its static array [sseed]). *)
Definition _seed48_r (xseed : ushort3) : C ushort3 :=
  r ← get_reent;
  let sseed := _seed (_r48 r) in
  put_reent (set_r48 (Rand48 xseed
    (_RAND48_MULT_0, _RAND48_MULT_1, _RAND48_MULT_2) _RAND48_ADD) r) ;;
  mret sseed.

Definition _lcong48_r (p : ushort3 * ushort3 * Z) : C unit :=
  r ← get_reent;
  let '(seed, mult, add) := p in
  put_reent (set_r48 (Rand48 seed mult add) r).

Definition jrand48 := _jrand48_r.
Definition nrand48 := _nrand48_r.
Definition lrand48 := _lrand48_r.
Definition mrand48 := _mrand48_r.
Definition srand48 := _srand48_r.
Definition seed48 := _seed48_r.
Definition lcong48 := _lcong48_r.

(** ** Correctness *)

(** The corrections of div.c never fire when division truncates. *)
Lemma wp_div n num denom w (Q : Z * Z -> world -> Prop) :
  -2147483648 <= num < 2147483648 -> -2147483648 <= denom < 2147483648 ->
  denom <> 0 -> ~ (num = -2147483648 /\ denom = -1) ->
  Q (Z.quot num denom, Z.rem num denom) w -> wp n (div num denom) w Q.
Proof.
  intros Hn Hd H0 Hov HQ. unfold div. rewrite (proj2 (Z.eqb_neq denom 0)) by done.
  assert (-2147483648 <= Z.quot num denom < 2147483648) as Hq.
  { pose proof (Z.quot_rem' num denom). pose proof (Z.rem_bound_abs num denom H0).
    assert (Z.abs (denom * Z.quot num denom) <= Z.abs num).
    { rewrite Z.abs_mul, <-(Z.quot_abs num denom H0). apply Z.mul_quot_le; lia. }
    rewrite Z.abs_mul in *. split; nia. }
  cbn zeta. rewrite (i32_small (Z.quot num denom)) by done.
  assert (0 <= num -> 0 <= Z.rem num denom) by (intros; by apply Z.rem_nonneg).
  assert (num <= 0 -> Z.rem num denom <= 0) by (intros; by apply Z.rem_nonpos).
  wp_if. wp_if. by wp_steps.
Qed.

(** Schrage's method computes the minimal standard generator. *)
Lemma schrage s :
  0 < s < 2147483647 ->
  let k := Z.quot s 127773 in
  let x := i32 (i32 (16807 * i32 (s - i32 (k * 127773))) - i32 (2836 * k)) in
  (if x <? 0 then i32 (x + 2147483647) else x) = (16807 * s) mod 2147483647.
Proof.
  intros Hs. cbv zeta. rewrite Z.quot_div_nonneg by lia.
  pose proof (Z.div_mod s 127773 ltac:(lia)) as E.
  pose proof (Z.mod_pos_bound s 127773 ltac:(lia)) as Hr.
  set (k := s / 127773) in *. set (r := s mod 127773) in *.
  assert (0 <= k <= 16807) by lia.
  rewrite (i32_small (k * 127773)), (i32_small (s - k * 127773)) by lia.
  replace (s - k * 127773) with r by lia.
  rewrite (i32_small (16807 * r)), (i32_small (2836 * k)), (i32_small (16807 * r - 2836 * k)) by lia.
  assert (Ex : 16807 * s = 16807 * r - 2836 * k + 2147483647 * k) by lia. rewrite Ex.
  destruct (Z.ltb_spec (16807 * r - 2836 * k) 0).
  - rewrite i32_small by lia. apply (Z.mod_unique _ _ (k - 1)); lia.
  - apply (Z.mod_unique _ _ k); [|lia]. left.
    assert (16807 * r - 2836 * k <= 16807 * 127772) by lia. lia.
Qed.

Lemma wp_rand_r n seed s w (Q : Z -> world -> Prop) :
  bytes (w_mem w) seed (le_bytes s) -> 0 < s < 2147483647 ->
  Q ((16807 * s) mod 2147483647)
    (set_mem (store_bytes seed (le_bytes ((16807 * s) mod 2147483647)) (w_mem w)) w) ->
  wp n (rand_r seed) w Q.
Proof.
  intros Hb Hs HQ. unfold rand_r. wp_step. eapply wp_load32_le; [done|lia|]. wp_steps.
  rewrite (i32_small s) by lia. rewrite (proj2 (Z.eqb_neq s 0)) by lia.
  rewrite schrage by done. rewrite u32_small by lia.
  apply wp_store32_le; [exact (bytes_mapped _ _ _ Hb)|lia|]. wp_steps.
  change RAND_MAX with (Z.ones 31). rewrite Z.land_ones by lia.
  rewrite (Z.mod_small _ (2 ^ 31)) by (change (2 ^ 31) with 2147483648; lia). exact HQ.
Qed.

(** ** The 48-bit generators *)

Definition ushort3_ok (x : ushort3) : Prop :=
  let '(a, b, c) := x in 0 <= a < 65536 /\ 0 <= b < 65536 /\ 0 <= c < 65536.
Definition ushort3_Z (x : ushort3) : Z := let '(a, b, c) := x in a + 65536 * b + 4294967296 * c.

(** The 16-bit pieces, with the carries the 32-bit accumulator loses, are the
    linear congruence modulo 2^48. *)
Lemma dorand48_Z r x :
  ushort3_ok (_mult r) -> ushort3_ok x -> 0 <= _add r < 65536 ->
  ushort3_Z (__dorand48 r x) = (ushort3_Z (_mult r) * ushort3_Z x + _add r) mod 281474976710656 /\
  ushort3_ok (__dorand48 r x).
Proof.
  intros Hm Hx Hc. unfold __dorand48. destruct (_mult r) as [[m0 m1] m2], x as [[x0 x1] x2].
  destruct Hm as (Hm0 & Hm1 & Hm2), Hx as (Hx0 & Hx1 & Hx2). revert Hc. generalize (_add r) as c.
  intros c Hc. cbv zeta. 
  assert (0 <= m0 * x0 <= 65535 * 65535) by nia.
  assert (0 <= m0 * x1 <= 65535 * 65535) by nia.
  assert (0 <= m1 * x0 <= 65535 * 65535) by nia.
  rewrite (u32_small (m0 * x0)), (u32_small (m0 * x0 + c)) by lia.
  rewrite (u32_small (m0 * x1)), (u32_small (m1 * x0)) by lia.
  rewrite !Z.shiftr_div_pow2 by lia. change (2 ^ 16) with 65536.
  set (a := m0 * x0 + c) in *. set (b := m0 * x1 + m1 * x0) in *.
  unfold ushort3_Z, ushort3_ok.
  assert (Hd : u16 (u32 (u32 (a / 65536 + u32 b) / 65536 +
     u32 (i32 (i32 (i32 (m0 * x2) + i32 (m1 * x1)) + i32 (m2 * x0))))) =
     u16 ((a / 65536 + b) / 65536 + (m0 * x2 + m1 * x1 + m2 * x0))).
  { generalize (m0 * x2) (m1 * x1) (m2 * x0). intros p q s. unfold u16, u32, i32. lia. }
  rewrite Hd. split; [|unfold u16; lia].
  replace ((m0 + 65536 * m1 + 4294967296 * m2) * (x0 + 65536 * x1 + 4294967296 * x2) + c)
    with (a + 65536 * b + 4294967296 * (m0 * x2 + m1 * x1 + m2 * x0) +
      281474976710656 * (m1 * x2 + m2 * x1 + 65536 * (m2 * x2))) by (unfold a, b; ring).
  generalize (m0 * x2 + m1 * x1 + m2 * x0) (m1 * x2 + m2 * x1 + 65536 * (m2 * x2)).
  clearbody a b. intros p q. unfold u16, u32. lia.
Qed.

(** The 48-bit state of the reentrancy structure. *)
Definition rand48_ok (r : rand48) : Prop :=
  ushort3_ok (_mult r) /\ ushort3_ok (_seed r) /\ 0 <= _add r < 65536.
Definition step48 (r : rand48) (x : Z) : Z :=
  (ushort3_Z (_mult r) * x + _add r) mod 281474976710656.

(** The triple of a 48-bit number. *)
Definition Z_ushort3 (x : Z) : ushort3 := (x mod 65536, x / 65536 mod 65536, x / 4294967296).

Lemma Z_ushort3_Z x : ushort3_ok x -> Z_ushort3 (ushort3_Z x) = x.
Proof.
  destruct x as [[a b] c]. unfold Z_ushort3, ushort3_Z, ushort3_ok. intros. f_equal; [f_equal|]; lia.
Qed.

Lemma dorand48_spec r x :
  ushort3_ok (_mult r) -> ushort3_ok x -> 0 <= _add r < 65536 ->
  __dorand48 r x = Z_ushort3 (step48 r (ushort3_Z x)) /\
  0 <= step48 r (ushort3_Z x) < 281474976710656.
Proof.
  intros Hm Hx Hc. destruct (dorand48_Z r x) as [E Hok]; [done..|].
  split; [|unfold step48; lia]. unfold step48. rewrite <-E. symmetry. by apply Z_ushort3_Z.
Qed.

(** The 31 high bits, and the 32 high bits as a signed number. *)
Lemma high31 x :
  0 <= x < 281474976710656 ->
  i32 (u32 (i32 (u32 (Z.shiftl (x / 4294967296) 15)) + Z.shiftr (x / 65536 mod 65536) 1)) =
  x / 131072.
Proof.
  intros Hx. rewrite Z.shiftl_mul_pow2, Z.shiftr_div_pow2 by lia.
  change (2 ^ 15) with 32768. change (2 ^ 1) with 2. unfold i32, u32. lia.
Qed.
Lemma high32 x :
  0 <= x < 281474976710656 ->
  i32 (i32 (Z.shiftl (x / 4294967296) 16) + x / 65536 mod 65536) = i32 (x / 65536).
Proof.
  intros Hx. rewrite Z.shiftl_mul_pow2 by lia. change (2 ^ 16) with 65536. unfold i32. lia.
Qed.

Lemma wp_lrand48 n w (Q : Z -> world -> Prop) :
  let r := _r48 (w_reent w) in
  let x := step48 r (ushort3_Z (_seed r)) in
  rand48_ok r ->
  Q (x / 131072)
    (set_reent (set_r48 (Rand48 (Z_ushort3 x) (_mult r) (_add r)) (w_reent w)) w) ->
  wp n lrand48 w Q.
Proof.
  cbv zeta. intros (Hm & Hs & Hc) HQ. unfold lrand48, _lrand48_r, put_seed48. wp_steps.
  destruct (dorand48_spec (_r48 (w_reent w)) (_seed (_r48 (w_reent w)))) as [-> Hr]; [done..|].
  simpl. wp_steps. rewrite high31 by done. exact HQ.
Qed.

Lemma wp_mrand48 n w (Q : Z -> world -> Prop) :
  let r := _r48 (w_reent w) in
  let x := step48 r (ushort3_Z (_seed r)) in
  rand48_ok r ->
  Q (i32 (x / 65536))
    (set_reent (set_r48 (Rand48 (Z_ushort3 x) (_mult r) (_add r)) (w_reent w)) w) ->
  wp n mrand48 w Q.
Proof.
  cbv zeta. intros (Hm & Hs & Hc) HQ. unfold mrand48, _mrand48_r, put_seed48. wp_steps.
  destruct (dorand48_spec (_r48 (w_reent w)) (_seed (_r48 (w_reent w)))) as [-> Hr]; [done..|].
  simpl. wp_steps. rewrite high32 by done. exact HQ.
Qed.

(** The state invariant is kept, and set by srand48. *)
Lemma rand48_ok_step r :
  rand48_ok r -> rand48_ok (Rand48 (__dorand48 r (_seed r)) (_mult r) (_add r)).
Proof. intros (Hm & Hs & Hc). split; [done|]. split; [by apply dorand48_Z|done]. Qed.
