(* ===== verification/Base64.v ===== *)
(** * Radix-64 text: stdlib/a64l.c and stdlib/l64a.c *)

From S2P Require Import Prelude CMonad Words Memory StrScan.

(** [static const char R64_ARRAY[]], with its null. *)
Definition R64_ARRAY : list Z :=
  [46; 47] ++ map (fun k => 48 + Z.of_nat k) (seq 0 10) ++
  map (fun k => 65 + Z.of_nat k) (seq 0 26) ++
  map (fun k => 97 + Z.of_nat k) (seq 0 26) ++ [0].

(** [_l64a_r]: the text is built in the buffer of the reentrancy structure. *)
Definition _l64a_r (value : Z) : C Z :=
  let tmp := Z.land (u32 value) 0xffffffff in
  r ← get_reent;
  let result := _l64a_buf r in
  loop (fun '(ptr, tmp, i) =>
    if i <? 6 then
      if tmp =? 0 then store8 ptr 0 ;; brk tt else
      let index := Z.land tmp (64 - 1) in
      match R64_ARRAY !! Z.to_nat index with
      | None => fault
      | Some c => store8 ptr c ;; next (ptr + 1, Z.shiftr tmp 6, i + 1)
      end
    else brk tt) (result, tmp, 0) ;;
  mret result.

Definition l64a (value : Z) : C Z := _l64a_r value.

Section code.
Context `{build}.

(** The digit of a character: the comparisons of the size-optimised build,
    the [switch] of the other. *)
Definition a64l_digit (ch : Z) : Z :=
  if PREFER_SIZE_OVER_SPEED then
    if 97 <=? ch then (ch - 97) + 38
    else if 65 <=? ch then (ch - 65) + 12
    else if 48 <=? ch then (ch - 48) + 2
    else if ch =? 47 then 1
    else 0
  else
    if ch =? 47 then 1
    else if (48 <=? ch) && (ch <=? 57) then (ch - 48) + 2
    else if (65 <=? ch) && (ch <=? 90) then (ch - 65) + 12
    else if (97 <=? ch) && (ch <=? 122) then (ch - 65) + 38
    else 0.

Definition a64l (input : Z) : C Z :=
  if input =? 0 then mret 0 else
  let ptr := input in
  ptr ← loop (fun '(ptr, i) =>
    if i <? 6 then
      c ← load8s ptr;
      next (if negb (c =? 0) then ptr + 1 else ptr, i + 1)
    else brk ptr) (ptr, 0);
  result ← loop (fun '(ptr, result) =>
    if input <? ptr then
      let ptr := ptr - 1 in
      ch ← load8s ptr;
      next (ptr, u32 (u32 (Z.shiftl result 6) + a64l_digit ch))
    else brk result) (ptr, 0);
  mret (i32 result).
End code.

(** ** Specification *)

(** The character of a radix-64 digit. *)
Definition r64 (d : Z) : Z :=
  if d <? 2 then d + 46 else if d <? 12 then d - 2 + 48
  else if d <? 38 then d - 12 + 65 else d - 38 + 97.

(** At most [k] digits, least significant first, up to the last nonzero one. *)
Fixpoint to64 (k : nat) (v : Z) : list Z :=
  match k with
  | O => []
  | S k' => if v =? 0 then [] else r64 (v mod 64) :: to64 k' (v / 64)
  end.

Definition from64 (digit : Z -> Z) (l : list Z) : Z :=
  fold_right (fun c acc => digit c + 64 * acc) 0 l.

Lemma R64_ARRAY_lookup d : 0 <= d < 64 -> R64_ARRAY !! Z.to_nat d = Some (r64 d).
Proof.
  intros Hd.
  assert (H := byte_enum (fun d => negb (d <? 64) ||
    bool_decide (R64_ARRAY !! Z.to_nat d = Some (r64 d))) d eq_refl ltac:(lia)).
  apply orb_true_iff in H as [H|H]; [blia|]. by apply bool_decide_eq_true in H.
Qed.

Lemma r64_range d : 0 <= d < 64 -> 46 <= r64 d <= 122.
Proof. unfold r64. intros. repeat case_match; blia. Qed.

Lemma to64_nonnull k v : 0 <= v -> Forall (fun c => 0 < c < 256) (to64 k v).
Proof.
  revert v. induction k as [|k IH]; intros v Hv; simpl; [done|]. case_match; [done|].
  constructor; [|apply IH; lia]. pose proof (r64_range (v mod 64)). lia.
Qed.

Lemma to64_length k v : (length (to64 k v) <= k)%nat.
Proof.
  revert v. induction k as [|k IH]; intros v; simpl; [done|]. case_match; simpl; [lia|].
  specialize (IH (v / 64)). lia.
Qed.

Section correctness.
Context {cfg : build}.
Implicit Types (n k : nat) (w : world) (p : Z) (s l : list Z).

(** The text in the buffer, terminated when it is shorter than six digits. *)
Definition l64a_text (k : nat) (v : Z) : list Z :=
  to64 k v ++ (if decide (length (to64 k v) < k)%nat then [0] else []).

Lemma wp_l64a_loop n j p tmp i k w (Q : unit -> world -> Prop) :
  0 <= tmp < 4294967296 -> i = 6 - Z.of_nat k -> (k < j)%nat ->
  mapped (w_mem w) p (Z.of_nat k) ->
  Q tt (set_mem (store_bytes p (l64a_text k tmp) (w_mem w)) w) ->
  wp n (loop_k j (fun '(ptr, tmp, i) =>
    if i <? 6 then
      if tmp =? 0 then store8 ptr 0 ;; brk tt else
      let index := Z.land tmp (64 - 1) in
      match R64_ARRAY !! Z.to_nat index with
      | None => fault
      | Some c => store8 ptr c ;; next (ptr + 1, Z.shiftr tmp 6, i + 1)
      end
    else brk tt) (p, tmp, i)) w Q.
Proof.
  revert p tmp i k w. induction j as [|j IH]; intros p tmp i k w Ht Hi Hj Hm HQ; [lia|].
  wp_loop. unfold l64a_text in HQ. destruct k as [|k]; wp_if.
  - wp_steps. simpl in HQ. by rewrite set_mem_id in HQ.
  - simpl to64 in HQ. wp_if; wp_steps.
    + apply wp_store8; [apply Hm; lia|]. wp_steps. by rewrite decide_True in HQ by (simpl; lia).
    + change (64 - 1) with (Z.ones 6). rewrite Z.land_ones by lia. change (2 ^ 6) with 64.
      rewrite R64_ARRAY_lookup by lia. pose proof (r64_range (tmp mod 64) ltac:(lia)). wp_steps.
      apply wp_store8; [apply Hm; lia|]. rewrite u8_small by lia. wp_steps.
      rewrite Z.shiftr_div_pow2 by lia. change (2 ^ 6) with 64.
      apply (IH _ _ _ k); [lia|lia|lia| |].
      { simpl. apply mapped_insert. eapply mapped_sub; [done|lia..]. }
      unfold l64a_text. simpl length in HQ.
      destruct (decide (length (to64 k (tmp / 64)) < k)%nat).
      * by rewrite decide_True in HQ by lia.
      * by rewrite decide_False in HQ by lia.
Qed.

Lemma wp_l64a n value w (Q : Z -> world -> Prop) :
  let buf := _l64a_buf (w_reent w) in
  mapped (w_mem w) buf 6 -> (6 < n)%nat ->
  Q buf (set_mem (store_bytes buf (l64a_text 6 (u32 value)) (w_mem w)) w) ->
  wp n (l64a value) w Q.
Proof.
  cbv zeta. intros Hm Hn HQ. unfold l64a, _l64a_r. wp_steps. apply wp_loop_k.
  pose proof (u32_range value).
  assert (E : Z.land (u32 value) 0xffffffff = u32 value).
  { change 0xffffffff with (Z.ones 32). rewrite Z.land_ones by lia.
    apply Z.mod_small. change (2 ^ 32) with 4294967296. lia. }
  rewrite E. apply (wp_l64a_loop _ _ _ _ _ 6); [lia|lia|done|done|]. by wp_steps.
Qed.

(** *** a64l *)

Lemma wp_a64l_end n j p s i k w (Q : Z -> world -> Prop) :
  cstr (w_mem w) p s -> i = 6 - Z.of_nat k -> (k < j)%nat ->
  Q (p + zlen (take k s)) w ->
  wp n (loop_k j (fun '(ptr, i) =>
    if i <? 6 then
      c ← load8s ptr;
      next (if negb (c =? 0) then ptr + 1 else ptr, i + 1)
    else brk ptr) (p, i)) w Q.
Proof.
  revert p s i k. induction j as [|j IH]; intros p s i k Hs Hi Hj HQ; [lia|]. wp_loop.
  destruct k as [|k]; wp_if.
  - wp_steps. eqapply HQ. simpl; lia.
  - destruct s as [|b s].
    + apply cstr_nil in Hs as Hb. wp_mem. change (s8 0 =? 0) with true. wp_steps.
      apply (IH _ [] _ k); [done|lia|lia|]. by rewrite take_nil in HQ |- *.
    + apply cstr_cons in Hs as (Hb & Hr & Hs). wp_mem. rewrite s8_eqb0 by lia.
      rewrite (proj2 (Z.eqb_neq b 0)) by lia. wp_steps.
      apply (IH _ s _ k); [done|lia|lia|]. eqapply HQ. simpl; lia.
Qed.

Lemma from64_snoc digit l c :
  from64 digit (l ++ [c]) = from64 digit l + 64 ^ zlen l * digit c.
Proof.
  induction l as [|b l IH]; [simpl; lia|]. cbn [app from64 fold_right length].
  fold (from64 digit (l ++ [c])) (from64 digit l). rewrite IH.
  rewrite Nat2Z.inj_succ, Z.pow_succ_r by lia. ring.
Qed.

Lemma u32_step r d m f :
  u32 (u32 (u32 (64 * r) + d) * m + f) = u32 (64 * r * m + (f + m * d)).
Proof.
  unfold u32. rewrite Zplus_mod_idemp_l.
  rewrite <-(Zplus_mod_idemp_l (_ * m)), Zmult_mod_idemp_l, Zplus_mod_idemp_l. f_equal. ring.
Qed.

Lemma wp_a64l_fold n j p l r w (Q : Z -> world -> Prop) :
  bytes (w_mem w) p l -> (length l < j)%nat ->
  Q (u32 (r * 64 ^ zlen l + from64 (fun c => a64l_digit (s8 c)) l)) w -> 
  0 <= r < 4294967296 ->
  wp n (loop_k j (fun '(ptr, result) =>
    if p <? ptr then
      let ptr := ptr - 1 in
      ch ← load8s ptr;
      next (ptr, u32 (u32 (Z.shiftl result 6) + a64l_digit ch))
    else brk result) (p + zlen l, r)) w Q.
Proof.
  revert j r. induction l as [|c l IH] using rev_ind; intros [|j] r Hb Hj HQ Hr;
    rewrite ?length_app in *; simpl in Hj; try lia; wp_loop.
  - wp_if. wp_steps. simpl in HQ. change (64 ^ Z.of_nat 0) with 1 in HQ.
    rewrite u32_small in HQ by lia. eqapply HQ. lia.
  - apply bytes_app in Hb as [Hb [Hc _]]. cbn [length] in *. wp_if.
    replace (p + Z.of_nat (length l + 1) - 1) with (p + zlen l) by lia.
    wp_mem. rewrite Z.shiftl_mul_pow2 by lia. change (2 ^ 6) with 64.
    apply IH; [done|lia| |apply u32_range]. eqapply HQ.
    rewrite from64_snoc, (Z.mul_comm r 64), u32_step.
    rewrite Nat2Z.inj_add, Z.pow_add_r by lia. change (64 ^ Z.of_nat 1) with 64.
    f_equal. ring.
Qed.

(** a64l reads at most six digits. *)
Lemma wp_a64l n input s w (Q : Z -> world -> Prop) :
  mem_ok (w_mem w) -> cstr (w_mem w) input s -> (6 < n)%nat ->
  Q (i32 (from64 (fun c => a64l_digit (s8 c)) (take 6 s))) w ->
  wp n (a64l input) w Q.
Proof.
  intros Hm Hs Hn HQ. unfold a64l.
  assert (0 < input).
  { destruct Hs as [Hs _]. apply mem_ok_range in Hs; [lia|done|by destruct s]. }
  rewrite (proj2 (Z.eqb_neq input 0)) by lia. wp_steps. apply wp_loop_k.
  eapply (wp_a64l_end _ _ _ s _ 6); [done|lia|done|]. wp_steps. apply wp_loop_k.
  apply wp_a64l_fold; [| | |lia].
  - apply cstr_body in Hs. rewrite <-(take_drop 6 s) in Hs. by apply bytes_app in Hs as [? _].
  - rewrite length_take. lia.
  - wp_steps. eqapply HQ. unfold i32, u32. lia.
Qed.
End correctness.

(** The base-64 digits of [v], least significant first. *)
Fixpoint digits64 (k : nat) (v : Z) : list Z :=
  match k with O => [] | S k' => v mod 64 :: digits64 k' (v / 64) end.

Lemma digits64_range k v : Forall (fun d => 0 <= d < 64) (digits64 k v).
Proof. revert v. induction k as [|k IH]; intros v; constructor; [lia|apply IH]. Qed.

(** A digit function that inverts the alphabet on the digits of [v] reads [v]
    back. *)
Lemma from64_to64 digit k v :
  Forall (fun d => digit (r64 d) = d) (digits64 k v) -> 0 <= v < 64 ^ Z.of_nat k ->
  from64 digit (to64 k v) = v.
Proof.
  revert v. induction k as [|k IH]; intros v; simpl.
  - change (64 ^ Z.of_nat 0) with 1. lia.
  - rewrite Nat2Z.inj_succ, Z.pow_succ_r by lia. intros [Hd Hr]%Forall_cons Hv.
    destruct (Z.eqb_spec v 0) as [->|]; [done|]. simpl.
    fold (from64 digit (to64 k (v / 64))). rewrite Hd, IH; [lia|done|].
    split; [lia|]. apply Z.div_lt_upper_bound; lia.
Qed.

(** The digit function of the size build inverts the whole alphabet; the other
    one the digits below 38, which are not lower case letters. *)
Lemma a64l_digit_r64 {cfg : build} d :
  0 <= d < 64 -> PREFER_SIZE_OVER_SPEED = true \/ d < 38 ->
  a64l_digit (s8 (r64 d)) = d.
Proof.
  intros Hd Hcase. assert (E : s8 (r64 d) = r64 d).
  { pose proof (r64_range d Hd). unfold s8. lia. }
  rewrite E. unfold a64l_digit, r64.
  destruct PREFER_SIZE_OVER_SPEED; repeat case_match; blia.
Qed.
