(* ===== verification/Time.v ===== *)
(** * Calendar time: time/mktm_r.c, gmtime_r.c, lcltime_r.c, mktime.c

    [struct tm] is a record that the functions take and return; the shared
    time zone data are the [tzinfo] of the world.  [long] and [time_t] have 32
    bits.  The text forms (asctime, strftime, strptime) and [tzset] are not
    modelled. *)

From S2P Require Import Prelude CMonad Random.

Record tm := Tm {
  tm_sec : Z; tm_min : Z; tm_hour : Z; tm_mday : Z; tm_mon : Z; tm_year : Z;
  tm_wday : Z; tm_yday : Z; tm_isdst : Z;
}.

Definition isleap (y : Z) : bool :=
  ((Z.rem y 4 =? 0) && negb (Z.rem y 100 =? 0)) || (Z.rem y 400 =? 0).

Definition mon_lengths (yleap : bool) : list Z :=
  if yleap then [31; 29; 31; 30; 31; 30; 31; 31; 30; 31; 30; 31]
  else [31; 28; 31; 30; 31; 30; 31; 31; 30; 31; 30; 31].

Definition year_lengths (yleap : bool) : Z := if yleap then 366 else 365.

(** [a[i]]: an index outside the array faults. *)
Definition aget (a : list Z) (i : Z) : C Z :=
  if i <? 0 then fault else
  match a !! Z.to_nat i with Some x => mret x | None => fault end.

(** ** __tzcalc_limits *)

(** The change-over day of a rule, in days since the epoch. *)
Definition tzcalc_day (year year_days : Z) (r : tzrule) : C Z :=
  if tz_ch r =? 74 then
    mret (year_days + tz_d r + Z.b2z (isleap year && (60 <=? tz_d r)))
  else if tz_ch r =? 68 then mret (year_days + tz_d r)
  else
    let ip := mon_lengths (isleap year) in
    '(days, j) ← loop (fun '(days, j) =>
      if j <? tz_m r then x ← aget ip (j - 1); next (days + x, j + 1)
      else brk (days, j)) (year_days, 1);
    let m_wday := Z.rem (4 + days) 7 in
    let wday_diff := tz_d r - m_wday in
    let wday_diff := if wday_diff <? 0 then wday_diff + 7 else wday_diff in
    let m_day := (tz_n r - 1) * 7 + wday_diff in
    m_day ← loop (fun m_day =>
      x ← aget ip (j - 1);
      if x <=? m_day then next (m_day - 7) else brk m_day) m_day;
    mret (days + m_day).

Definition set_change (c : Z) (r : tzrule) : tzrule :=
  TzRule (tz_ch r) (tz_m r) (tz_n r) (tz_d r) (tz_s r) c (tz_offset r).

(** The loop over the two rules is unrolled. *)
Definition __tzcalc_limits (year : Z) : C Z :=
  if year <? 1970 then mret 0 else
  tz ← get_tz;
  put_tz (TzInfo (_daylight tz) (__tznorth tz) year (__tzrule0 tz) (__tzrule1 tz)) ;;
  let years := year - 1970 in
  let year_days := years * 365 + Z.quot (years - 1 + 2) 4 - Z.quot (years - 1 + 70) 100 +
    Z.quot (years - 1 + 370) 400 in
  tz ← get_tz;
  days ← tzcalc_day year year_days (__tzrule0 tz);
  let r0 := set_change (i32 (days * 86400 + tz_s (__tzrule0 tz) + tz_offset (__tzrule0 tz)))
    (__tzrule0 tz) in
  put_tz (TzInfo (_daylight tz) (__tznorth tz) (__tzyear tz) r0 (__tzrule1 tz)) ;;
  tz ← get_tz;
  days ← tzcalc_day year year_days (__tzrule1 tz);
  let r1 := set_change (i32 (days * 86400 + tz_s (__tzrule1 tz) + tz_offset (__tzrule1 tz)))
    (__tzrule1 tz) in
  put_tz (TzInfo (_daylight tz) (__tznorth tz) (__tzyear tz) (__tzrule0 tz) r1) ;;
  tz ← get_tz;
  put_tz (TzInfo (_daylight tz)
    (Z.b2z (tz_change (__tzrule0 tz) <? tz_change (__tzrule1 tz)))
    (__tzyear tz) (__tzrule0 tz) (__tzrule1 tz)) ;;
  mret 1.

(** ** _mktm_r *)

(** Lines 103-111: [tm_isdst] when there are daylight rules. *)
Definition mktm_isdst (t y : Z) : C Z :=
  tz ← get_tz;
  ok ← (if y =? __tzyear tz then mret 1 else __tzcalc_limits y);
  if negb (ok =? 0) then
    tz ← get_tz;
    let c0 := tz_change (__tzrule0 tz) in
    let c1 := tz_change (__tzrule1 tz) in
    mret (Z.b2z (if negb (__tznorth tz =? 0) then (c0 <=? t) && (t <? c1)
                 else (c0 <=? t) || (t <? c1)))
  else mret (-1).

(** Lines 116-189: the offset is applied and carried through the fields. *)
Definition mktm_local (ip : list Z) (offset : Z) (res : tm) : C tm :=
  let hours := Z.quot offset 3600 in
  let offset := Z.rem offset 3600 in
  let mins := Z.quot offset 60 in
  let secs := Z.rem offset 60 in
  let sec := tm_sec res - secs in
  let min := tm_min res - mins in
  let hour := tm_hour res - hours in
  let '(min, sec) :=
    if 60 <=? sec then (min + 1, sec - 60)
    else if sec <? 0 then (min - 1, sec + 60) else (min, sec) in
  let '(hour, min) :=
    if 60 <=? min then (hour + 1, min - 60)
    else if min <? 0 then (hour - 1, min + 60) else (hour, min) in
  let mday := tm_mday res in
  let mon := tm_mon res in
  let year := tm_year res in
  let wday := tm_wday res in
  let yday := tm_yday res in
  if 24 <=? hour then
    let yday := yday + 1 in
    let wday := wday + 1 in
    let wday := if 6 <? wday then 0 else wday in
    let mday := mday + 1 in
    let hour := hour - 24 in
    len ← aget ip mon;
    if len <? mday then
      let mday := mday - len in
      let mon := mon + 1 in
      if mon =? 12 then mret (Tm sec min hour mday 0 (year + 1) wday 0 (tm_isdst res))
      else mret (Tm sec min hour mday mon year wday yday (tm_isdst res))
    else mret (Tm sec min hour mday mon year wday yday (tm_isdst res))
  else if hour <? 0 then
    let yday := yday - 1 in
    let wday := wday - 1 in
    let wday := if wday <? 0 then 6 else wday in
    let mday := mday - 1 in
    let hour := hour + 24 in
    if mday =? 0 then
      let mon := mon - 1 in
      let '(mon, year, yday) :=
        if mon <? 0 then (11, year - 1, 365 + Z.b2z (isleap (year - 1)))
        else (mon, year, yday) in
      len ← aget ip mon;
      mret (Tm sec min hour len mon year wday yday (tm_isdst res))
    else mret (Tm sec min hour mday mon year wday yday (tm_isdst res))
  else mret (Tm sec min hour mday mon year wday yday (tm_isdst res)).

Definition _mktm_r (t : Z) (is_gmtime : bool) : C tm :=
  let lcltime := t in
  let days := Z.quot lcltime 86400 in
  let rem := Z.rem lcltime 86400 in
  '(rem, days) ← loop (fun '(rem, days) =>
    if rem <? 0 then next (rem + 86400, days - 1) else brk (rem, days)) (rem, days);
  '(rem, days) ← loop (fun '(rem, days) =>
    if 86400 <=? rem then next (rem - 86400, days + 1) else brk (rem, days)) (rem, days);
  let hour := Z.quot rem 3600 in
  let rem := Z.rem rem 3600 in
  let min := Z.quot rem 60 in
  let sec := Z.rem rem 60 in
  let wday := Z.rem (4 + days) 7 in
  let wday := if wday <? 0 then wday + 7 else wday in
  let y := 1970 in
  '(y, days) ←
    (if 0 <=? days then
      loop (fun '(y, days) =>
        let yleap := isleap y in
        if days <? year_lengths yleap then brk (y, days)
        else next (y + 1, days - year_lengths yleap)) (y, days)
    else
      loop (fun '(y, days) =>
        let y := y - 1 in
        let yleap := isleap y in
        let days := days + year_lengths yleap in
        if days <? 0 then next (y, days) else brk (y, days)) (y, days));
  let yleap := isleap y in
  let year := y - 1900 in
  let yday := days in
  let ip := mon_lengths yleap in
  '(mon, days) ← loop (fun '(mon, days) =>
    x ← aget ip mon;
    if x <=? days then next (mon + 1, days - x) else brk (mon, days)) (0, days);
  let mday := days + 1 in
  if negb is_gmtime then
    tz ← get_tz;
    isdst ← (if negb (_daylight tz =? 0) then mktm_isdst t y else mret 0);
    tz ← get_tz;
    let offset := if isdst =? 1 then tz_offset (__tzrule1 tz) else tz_offset (__tzrule0 tz) in
    mktm_local ip offset (Tm sec min hour mday mon year wday yday isdst)
  else mret (Tm sec min hour mday mon year wday yday 0).

(** time/gmtime_r.c, time/lcltime_r.c *)
Definition gmtime_r (t : Z) : C tm := _mktm_r t true.
Definition localtime_r (t : Z) : C tm := _mktm_r t false.

(** ** mktime *)

Definition DAYS_IN_MONTH : list Z := [31; 28; 31; 30; 31; 30; 31; 31; 30; 31; 30; 31].
Definition _DAYS_IN_MONTH (days_in_feb x : Z) : C Z :=
  if x =? 1 then mret days_in_feb else aget DAYS_IN_MONTH x.
Definition _DAYS_BEFORE_MONTH : list Z :=
  [0; 31; 59; 90; 120; 151; 181; 212; 243; 273; 304; 334].
Definition _ISLEAP (y : Z) : bool :=
  (Z.rem y 4 =? 0) && (negb (Z.rem y 100 =? 0) || (Z.rem (y + 1900) 400 =? 0)).
Definition _DAYS_IN_YEAR (year : Z) : Z := if _ISLEAP year then 366 else 365.
Definition feb_days (year : Z) : Z := if _DAYS_IN_YEAR year =? 366 then 29 else 28.

(** [res = div (x, b); up += res.quot; if ((x = res.rem) < 0) { x += b; --up; }],
    when [out] holds. *)
Definition carry (out : bool) (b x up : Z) : C (Z * Z) :=
  if out then
    '(quot, rem) ← div x b;
    let up := i32 (up + quot) in
    if rem <? 0 then mret (rem + b, i32 (up - 1)) else mret (rem, up)
  else mret (x, up).

Definition validate_structure (t : tm) : C tm :=
  '(sec, min) ← carry ((tm_sec t <? 0) || (59 <? tm_sec t)) 60 (tm_sec t) (tm_min t);
  '(min, hour) ← carry ((min <? 0) || (59 <? min)) 60 min (tm_hour t);
  '(hour, mday) ← carry ((hour <? 0) || (23 <? hour)) 24 hour (tm_mday t);
  '(mon, year) ← carry (11 <? tm_mon t) 12 (tm_mon t) (tm_year t);
  let days_in_feb := feb_days year in
  '(mday, mon, year) ←
    (if mday <=? 0 then
      loop (fun '(mday, mon, year, days_in_feb) =>
        if mday <=? 0 then
          let mon := i32 (mon - 1) in
          let '(mon, year, days_in_feb) :=
            if mon =? -1 then (11, i32 (year - 1), feb_days (i32 (year - 1)))
            else (mon, year, days_in_feb) in
          x ← _DAYS_IN_MONTH days_in_feb mon;
          next (mday + x, mon, year, days_in_feb)
        else brk (mday, mon, year)) (mday, mon, year, days_in_feb)
    else
      loop (fun '(mday, mon, year, days_in_feb) =>
        x ← _DAYS_IN_MONTH days_in_feb mon;
        if x <? mday then
          x ← _DAYS_IN_MONTH days_in_feb mon;
          let mday := mday - x in
          let mon := mon + 1 in
          let '(mon, year, days_in_feb) :=
            if mon =? 12 then (0, i32 (year + 1), feb_days (i32 (year + 1)))
            else (mon, year, days_in_feb) in
          next (mday, mon, year, days_in_feb)
        else brk (mday, mon, year)) (mday, mon, year, days_in_feb));
  mret (Tm sec min hour mday mon year (tm_wday t) (tm_yday t) (tm_isdst t)).

(** Lines 211-252: the daylight correction of [isdst], the structure and the time. *)
Definition mktime_dst (t : tm) (tim tm_isdst0 isdst : Z) : C (tm * Z * Z) :=
  tz ← get_tz;
  let y := tm_year t + 1900 in
  ok ← (if y =? __tzyear tz then mret 1 else __tzcalc_limits y);
  if negb (ok =? 0) then
    tz ← get_tz;
    let startdst_dst := i32 (tz_change (__tzrule0 tz) - tz_offset (__tzrule1 tz)) in
    let startstd_dst := i32 (tz_change (__tzrule1 tz) - tz_offset (__tzrule1 tz)) in
    let startstd_std := i32 (tz_change (__tzrule1 tz) - tz_offset (__tzrule0 tz)) in
    if (startstd_std <=? tim) && (tim <? startstd_dst) then mret (t, tim, isdst)
    else
      let isdst := Z.b2z (if negb (__tznorth tz =? 0)
        then (startdst_dst <=? tim) && (tim <? startstd_std)
        else (startdst_dst <=? tim) || (tim <? startstd_std)) in
      if (0 <=? tm_isdst0) && (Z.lxor isdst tm_isdst0 =? 1) then
        let diff := i32 (tz_offset (__tzrule0 tz) - tz_offset (__tzrule1 tz)) in
        let diff := if isdst =? 0 then i32 (- diff) else diff in
        t ← validate_structure
          (Tm (i32 (tm_sec t + diff)) (tm_min t) (tm_hour t) (tm_mday t) (tm_mon t) (tm_year t)
             (tm_wday t) (tm_yday t) (tm_isdst t));
        mret (t, i32 (tim + diff), isdst)
      else mret (t, tim, isdst)
  else mret (t, tim, isdst).

Definition mktime (tim_p : tm) : C (Z * tm) :=
  t ← validate_structure tim_p;
  let tim := tm_sec t + tm_min t * 60 + tm_hour t * 3600 in
  let days := tm_mday t - 1 in
  before ← aget _DAYS_BEFORE_MONTH (tm_mon t);
  let days := days + before in
  let days :=
    if (1 <? tm_mon t) && (_DAYS_IN_YEAR (tm_year t) =? 366) then days + 1 else days in
  let t := Tm (tm_sec t) (tm_min t) (tm_hour t) (tm_mday t) (tm_mon t) (tm_year t)
    (tm_wday t) days (tm_isdst t) in
  if (10000 <? tm_year t) || (tm_year t <? -10000) then mret (-1, t) else
  days ←
    (if 70 <? tm_year t then
      loop (fun '(year, days) =>
        if year <? tm_year t then next (year + 1, days + _DAYS_IN_YEAR year)
        else brk days) (70, days)
    else if tm_year t <? 70 then
      '(year, days) ← loop (fun '(year, days) =>
        if tm_year t <? year then next (year - 1, days - _DAYS_IN_YEAR year)
        else brk (year, days)) (69, days);
      mret (days - _DAYS_IN_YEAR year)
    else mret days);
  let wday := Z.rem (days + 4) 7 in
  let wday := if wday <? 0 then wday + 7 else wday in
  let t := Tm (tm_sec t) (tm_min t) (tm_hour t) (tm_mday t) (tm_mon t) (tm_year t)
    wday (tm_yday t) (tm_isdst t) in
  let tim := i32 (tim + i32 (days * 86400)) in
  let tm_isdst0 := if 0 <? tm_isdst t then 1 else tm_isdst t in
  let isdst := tm_isdst0 in
  tz ← get_tz;
  '(t, tim, isdst) ←
    (if negb (_daylight tz =? 0) then mktime_dst t tim tm_isdst0 isdst
     else mret (t, tim, isdst));
  tz ← get_tz;
  let tim :=
    if isdst =? 1 then i32 (tim + tz_offset (__tzrule1 tz))
    else i32 (tim + tz_offset (__tzrule0 tz)) in
  mret (tim, Tm (tm_sec t) (tm_min t) (tm_hour t) (tm_mday t) (tm_mon t) (tm_year t)
    (tm_wday t) (tm_yday t) isdst).

(** ** The Gregorian calendar *)

(** Days from the epoch to the first of January of the year [y]. *)
Definition dby (y : Z) : Z :=
  365 * (y - 1970) + (y - 1) / 4 - (y - 1) / 100 + (y - 1) / 400 - 477.

Definition sum (l : list Z) : Z := fold_right Z.add 0 l.

(** Days from the first of January to the first of the month [mon]. *)
Definition dbm (leap : bool) (mon : Z) : Z := sum (take (Z.to_nat mon) (mon_lengths leap)).
Definition mon_len (leap : bool) (mon : Z) : Z := nth (Z.to_nat mon) (mon_lengths leap) 0.

(** The structure denotes a date and time, with consistent derived fields. *)
Record valid_tm (r : tm) : Prop := {
  vt_sec : 0 <= tm_sec r < 60;
  vt_min : 0 <= tm_min r < 60;
  vt_hour : 0 <= tm_hour r < 24;
  vt_mon : 0 <= tm_mon r < 12;
  vt_mday : 1 <= tm_mday r <= mon_len (isleap (tm_year r + 1900)) (tm_mon r);
  vt_yday : tm_yday r = dbm (isleap (tm_year r + 1900)) (tm_mon r) + tm_mday r - 1;
  vt_wday : tm_wday r = (4 + dby (tm_year r + 1900) + tm_yday r) mod 7;
}.

(** The number of seconds since the epoch. *)
Definition tm_time (r : tm) : Z :=
  (dby (tm_year r + 1900) + tm_yday r) * 86400 + tm_hour r * 3600 + tm_min r * 60 + tm_sec r.

Lemma rem_0_mod a b : b <> 0 -> (Z.rem a b =? 0) = (a mod b =? 0).
Proof.
  intros Hb. apply Bool.eq_iff_eq_true. rewrite !Z.eqb_eq.
  rewrite Z.rem_divide, Z.mod_divide by done. done.
Qed.

Lemma isleap_mod y :
  isleap y = ((y mod 4 =? 0) && negb (y mod 100 =? 0)) || (y mod 400 =? 0).
Proof. unfold isleap. by rewrite !rem_0_mod. Qed.

Lemma div_pred y k : 0 < k -> y / k = (y - 1) / k + (if y mod k =? 0 then 1 else 0).
Proof.
  intros Hk. pose proof (Z.div_mod y k ltac:(lia)). pose proof (Z.mod_pos_bound y k Hk).
  destruct (Z.eqb_spec (y mod k) 0).
  - assert (y / k - 1 = (y - 1) / k); [|lia].
    apply (Z.div_unique _ _ _ (k - 1)); lia.
  - rewrite Z.add_0_r. apply (Z.div_unique _ _ _ (y mod k - 1)); lia.
Qed.

Lemma dby_succ y : dby (y + 1) = dby y + year_lengths (isleap y).
Proof.
  unfold dby. replace (y + 1 - 1) with y by lia.
  rewrite (div_pred y 4), (div_pred y 100), (div_pred y 400) by lia.
  rewrite isleap_mod.
  assert (H1 : y mod 400 = 0 -> y mod 100 = 0) by lia.
  assert (H2 : y mod 100 = 0 -> y mod 4 = 0) by lia.
  destruct (Z.eqb_spec (y mod 4) 0), (Z.eqb_spec (y mod 100) 0), (Z.eqb_spec (y mod 400) 0);
    simpl; try tauto; lia.
Qed.

Lemma year_lengths_range b : 365 <= year_lengths b <= 366.
Proof. destruct b; simpl; lia. Qed.

Lemma dby_le y y' : y <= y' -> dby y <= dby y'.
Proof.
  intros H. assert (exists k, y' = y + Z.of_nat k) as [k ->].
  { exists (Z.to_nat (y' - y)). lia. }
  clear H. induction k as [|k IH].
  - replace (y + Z.of_nat 0) with y by lia. lia.
  - replace (y + Z.of_nat (S k)) with (y + Z.of_nat k + 1) by lia.
    rewrite dby_succ. pose proof (year_lengths_range (isleap (y + Z.of_nat k))). lia.
Qed.

(** The year of a day is determined. *)
Lemma dby_unique y y' D :
  dby y <= D < dby (y + 1) -> dby y' <= D < dby (y' + 1) -> y = y'.
Proof.
  intros H H'. destruct (Z.lt_trichotomy y y') as [?|[?|?]]; [|done|].
  - pose proof (dby_le (y + 1) y' ltac:(lia)). lia.
  - pose proof (dby_le (y' + 1) y ltac:(lia)). lia.
Qed.

Lemma dbm_facts leap m :
  0 <= m < 12 ->
  dbm leap (m + 1) = dbm leap m + mon_len leap m /\ 28 <= mon_len leap m <= 31 /\
  0 <= dbm leap m /\ dbm leap (m + 1) <= year_lengths leap.
Proof.
  intros Hm. assert (m = 0 \/ m = 1 \/ m = 2 \/ m = 3 \/ m = 4 \/ m = 5 \/ m = 6 \/ m = 7 \/
    m = 8 \/ m = 9 \/ m = 10 \/ m = 11) as Hcases by lia.
  destruct leap; repeat destruct Hcases as [->|Hcases]; try subst m;
    vm_compute; split_and!; congruence.
Qed.

Lemma dbm_le leap m m' : 0 <= m <= m' -> m' <= 12 -> dbm leap m <= dbm leap m'.
Proof.
  intros H Hk. assert (exists k, m' = m + Z.of_nat k) as [k ->].
  { exists (Z.to_nat (m' - m)). lia. }
  assert (0 <= m) by lia. clear H. induction k as [|k IH].
  - replace (m + Z.of_nat 0) with m by lia. lia.
  - replace (m + Z.of_nat (S k)) with (m + Z.of_nat k + 1) in * by lia.
    destruct (dbm_facts leap (m + Z.of_nat k) ltac:(lia)) as (-> & ? & _).
    specialize (IH ltac:(lia)). lia.
Qed.

Lemma valid_yday r :
  valid_tm r -> 0 <= tm_yday r < year_lengths (isleap (tm_year r + 1900)).
Proof.
  intros [_ _ _ Hm Hd Hy _].
  destruct (dbm_facts (isleap (tm_year r + 1900)) _ Hm) as (? & ? & ? & ?). lia.
Qed.

(** A time determines its structure, up to [tm_isdst]. *)
Lemma valid_tm_unique r r' :
  valid_tm r -> valid_tm r' -> tm_time r = tm_time r' -> tm_isdst r = tm_isdst r' -> r = r'.
Proof.
  intros V V' E Ei. unfold tm_time in E.
  assert (Hy := valid_yday _ V). assert (Hy' := valid_yday _ V').
  destruct V as [Hs Hmi Hh Hm Hd Hyd Hw], V' as [Hs' Hmi' Hh' Hm' Hd' Hyd' Hw'].
  destruct r as [s mi h d m y wd yd i], r' as [s' mi' h' d' m' y' wd' yd' i']; simpl in *.
  assert (dby (y + 1900) + yd = dby (y' + 1900) + yd') by lia.
  assert (y = y') as <-.
  { enough (y + 1900 = y' + 1900) by lia.
    apply (dby_unique _ _ (dby (y + 1900) + yd)); rewrite dby_succ; lia. }
  assert (yd = yd') as <- by lia. assert (h = h' /\ mi = mi' /\ s = s') as (<- & <- & <-) by lia.
  assert (m = m') as <-.
  { destruct (dbm_facts (isleap (y + 1900)) m Hm) as (E1 & _).
    destruct (dbm_facts (isleap (y + 1900)) m' Hm') as (E2 & _).
    destruct (Z.lt_trichotomy m m') as [?|[?|?]]; [|done|].
    - pose proof (dbm_le (isleap (y + 1900)) (m + 1) m' ltac:(lia) ltac:(lia)). lia.
    - pose proof (dbm_le (isleap (y + 1900)) (m' + 1) m ltac:(lia) ltac:(lia)). lia. }
  f_equal; congruence || lia.
Qed.

(** ** gmtime *)

Section gmtime.
Implicit Types (n k : nat) (w : world).

Lemma wp_aget n a i x w (Q : Z -> world -> Prop) :
  0 <= i -> a !! Z.to_nat i = Some x -> Q x w -> wp n (aget a i) w Q.
Proof.
  intros Hi Hx HQ. unfold aget. rewrite (proj2 (Z.ltb_ge i 0)), Hx by done. by apply wp_ret.
Qed.

Lemma wp_rem_days n t w (Q : Z * Z -> world -> Prop) :
  (1 < n)%nat -> Q (t mod 86400, t / 86400) w ->
  wp n (loop (fun '(rem, days) =>
    if rem <? 0 then next (rem + 86400, days - 1) else brk (rem, days))
    (Z.rem t 86400, Z.quot t 86400)) w Q.
Proof.
  intros Hn HQ. apply wp_loop_k. destruct n as [|[|n]]; [lia..|].
  assert (Z.quot t 86400 = t / 86400 /\ Z.rem t 86400 = t mod 86400 \/
    Z.quot t 86400 = t / 86400 + 1 /\ Z.rem t 86400 = t mod 86400 - 86400 /\ t mod 86400 <> 0)
    as [[-> ->]|(-> & -> & ?)] by (Z.to_euclidean_division_equations; lia).
  - wp_loop. wp_if. by wp_steps.
  - wp_loop. wp_if. wp_steps. wp_loop. wp_if. wp_steps. eqapply HQ. flia.
Qed.

(** The years up, from the day [d] of the year [y]. *)
Lemma wp_years_up n k y d w (Q : Z * Z -> world -> Prop) :
  0 <= d -> d < 365 * Z.of_nat k ->
  (forall y', dby y' <= dby y + d < dby (y' + 1) -> Q (y', dby y + d - dby y') w) ->
  wp n (loop_k k (fun '(y, days) =>
      let yleap := isleap y in
      if days <? year_lengths yleap then brk (y, days)
      else next (y + 1, days - year_lengths yleap)) (y, d)) w Q.
Proof.
  revert y d. induction k as [|k IH]; intros y d Hd Hk HQ; [lia|]. wp_loop.
  pose proof (dby_succ y). pose proof (year_lengths_range (isleap y)). wp_if; wp_steps.
  - eqapply (HQ y ltac:(blia)). flia.
  - apply IH; [blia|blia|]. intros y' Hy'. rewrite dby_succ in *.
    replace (dby y + year_lengths (isleap y) + (d - year_lengths (isleap y))) with
      (dby y + d) in * by lia. by apply HQ.
Qed.

(** The years down. *)
Lemma wp_years_down n k y d w (Q : Z * Z -> world -> Prop) :
  d < 0 -> - d <= 365 * Z.of_nat k ->
  (forall y', dby y' <= dby y + d < dby (y' + 1) -> Q (y', dby y + d - dby y') w) ->
  wp n (loop_k k (fun '(y, days) =>
      let y := y - 1 in
      let yleap := isleap y in
      let days := days + year_lengths yleap in
      if days <? 0 then next (y, days) else brk (y, days)) (y, d)) w Q.
Proof.
  revert y d. induction k as [|k IH]; intros y d Hd Hk HQ; [lia|]. wp_loop.
  pose proof (dby_succ (y - 1)) as E. pose proof (year_lengths_range (isleap (y - 1))).
  replace (y - 1 + 1) with y in E by lia. wp_if; wp_steps.
  - apply IH; [blia|blia|]. intros y' Hy'.
    replace (dby (y - 1) + (d + year_lengths (isleap (y - 1)))) with (dby y + d) in * by lia.
    by apply HQ.
  - replace (y - 1 + 1) with y in HQ by lia. 
    assert (Hb : dby (y - 1) <= dby y + d < dby (y - 1 + 1)).
    { replace (y - 1 + 1) with y by lia. blia. }
    eqapply (HQ (y - 1) Hb). flia.
Qed.

(** The month of a day of the year. *)
Lemma wp_month n k leap m d w (Q : Z * Z -> world -> Prop) :
  0 <= m -> 0 <= d -> dbm leap m + d < year_lengths leap -> m + Z.of_nat k >= 12 ->
  (forall m', 0 <= m' < 12 -> dbm leap m' <= dbm leap m + d < dbm leap (m' + 1) ->
     Q (m', dbm leap m + d - dbm leap m') w) ->
  wp n (loop_k k (fun '(mon, days) =>
    x ← aget (mon_lengths leap) mon;
    if x <=? days then next (mon + 1, days - x) else brk (mon, days)) (m, d)) w Q.
Proof.
  revert m d. induction k as [|k IH]; intros m d Hm Hd Hy Hk HQ.
  - exfalso. assert (E : dbm leap m = year_lengths leap); [|lia].
    unfold dbm. rewrite take_ge; [by destruct leap|].
    destruct leap; simpl length; lia.
  - assert (Hm' : m < 12).
    { destruct (Z.lt_ge_cases m 12); [done|]. exfalso.
      assert (E : dbm leap m = year_lengths leap); [|lia].
      unfold dbm. rewrite take_ge; [by destruct leap|]. destruct leap; simpl length; lia. }
    destruct (dbm_facts leap m ltac:(lia)) as (E & Hl & _).
    wp_loop. wp_step. apply (wp_aget _ _ _ (mon_len leap m)); [done| |].
    { unfold mon_len. rewrite nth_lookup.
      destruct (lookup_lt_is_Some_2 (mon_lengths leap) (Z.to_nat m)) as [x Hx];
        [destruct leap; simpl length; lia|]. by rewrite Hx. }
    wp_if; wp_steps.
    + apply IH; [lia|blia|rewrite E; blia|lia|]. rewrite E. intros m' H1 H2.
      replace (dbm leap m + mon_len leap m + (d - mon_len leap m)) with (dbm leap m + d) in *
        by lia. by apply HQ.
    + eqapply (HQ m ltac:(lia) ltac:(blia)). flia.
Qed.

(** The broken-down time before the time zone is applied. *)
Lemma wp_gmtime n t w (Q : tm -> world -> Prop) :
  -2147483648 <= t < 2147483648 -> (80 <= n)%nat ->
  (forall r, valid_tm r -> tm_time r = t -> tm_isdst r = 0 -> Q r w) ->
  wp n (gmtime_r t) w Q.
Proof.
  intros Ht Hn HQ. unfold gmtime_r, _mktm_r. wp_step.
  apply wp_rem_days; [lia|]. wp_steps. apply wp_loop_k. destruct n as [|n]; [lia|]. wp_loop.
  wp_if. wp_steps. remember (S n) as N eqn:EN. set (D := t / 86400).
  assert (-24856 <= D <= 24855) by (unfold D; lia).
  assert (Hyear : forall Q' : Z * Z -> world -> Prop,
    (forall y, dby y <= D < dby (y + 1) -> Q' (y, D - dby y) w) ->
    wp N (if 0 <=? D then
      loop (fun '(y, days) =>
        let yleap := isleap y in
        if days <? year_lengths yleap then brk (y, days)
        else next (y + 1, days - year_lengths yleap)) (1970, D)
      else
      loop (fun '(y, days) =>
        let y := y - 1 in
        let yleap := isleap y in
        let days := days + year_lengths yleap in
        if days <? 0 then next (y, days) else brk (y, days)) (1970, D)) w Q').
  { intros Q' HQ'. assert (E0 : dby 1970 + D = D) by done.
    wp_if; apply wp_loop_k; [apply wp_years_up|apply wp_years_down];
      try blia; rewrite E0; exact HQ'. }
  apply Hyear. clear Hyear. intros y Hy. wp_steps.
  rewrite dby_succ in Hy. set (leap := isleap y) in *.
  apply wp_loop_k, wp_month; [done|lia| |lia|].
  { change (dbm leap 0) with 0. lia. }
  change (dbm leap 0) with 0. rewrite Z.add_0_l. intros m Hm Hd. wp_steps.
  destruct (dbm_facts leap m Hm) as (Em & Hl & _).
  assert (Hrem : 0 <= t mod 86400 < 86400) by lia.
  rewrite !(Z.quot_div_nonneg (t mod 86400)), !(Z.rem_mod_nonneg (t mod 86400)) by lia.
  set (s := t mod 86400) in *.
  rewrite !(Z.quot_div_nonneg (s mod 3600)), !(Z.rem_mod_nonneg (s mod 3600)) by lia.
  assert (Ew : (if Z.rem (4 + D) 7 <? 0 then Z.rem (4 + D) 7 + 7 else Z.rem (4 + D) 7) =
    (4 + D) mod 7) by (destruct (Z.ltb_spec (Z.rem (4 + D) 7) 0);
      Z.to_euclidean_division_equations; lia). rewrite Ew. clear Ew.
  apply HQ; [|unfold tm_time; simpl; replace (y - 1900 + 1900) with y by lia; unfold s, D; lia|done].
  split; simpl; replace (y - 1900 + 1900) with y by lia; fold leap; try lia.
Qed.
End gmtime.

(** ** mktime *)

(** Days from the epoch to the first of the month number [12 * year + mon]. *)
Definition dbM (M : Z) : Z :=
  dby (M / 12 + 1900) + dbm (isleap (M / 12 + 1900)) (M mod 12).

(** The time a structure denotes when its fields may be out of range. *)
Definition tm_seconds (t : tm) : Z :=
  (dbM (12 * tm_year t + tm_mon t) + tm_mday t - 1) * 86400 +
  tm_hour t * 3600 + tm_min t * 60 + tm_sec t.

Lemma tm_seconds_eq t :
  tm_seconds t =
  (dbM (12 * tm_year t + tm_mon t) + tm_mday t - 1) * 86400 +
  tm_hour t * 3600 + tm_min t * 60 + tm_sec t.
Proof. reflexivity. Qed.

(** Bounds under which the [int] fields do not overflow while they are
    normalised, and the year stays within mktime's limits. *)
Record mktime_arg (t : tm) : Prop := {
  ma_sec : -1000000 <= tm_sec t <= 1000000;
  ma_min : -1000000 <= tm_min t <= 1000000;
  ma_hour : -1000000 <= tm_hour t <= 1000000;
  ma_mday : -1000000 <= tm_mday t <= 1000000;
  ma_mon : 0 <= tm_mon t <= 12000;
  ma_year : -5000 <= tm_year t <= 5000;
}.

Section mktime.
Implicit Types (n k : nat) (w : world).

Lemma ISLEAP_isleap y : _ISLEAP y = isleap (y + 1900).
Proof.
  unfold _ISLEAP. rewrite isleap_mod, !rem_0_mod by done.
  replace ((y + 1900) mod 4) with (y mod 4) by lia.
  replace ((y + 1900) mod 100) with (y mod 100) by lia.
  assert ((y + 1900) mod 400 = 0 -> y mod 100 = 0) by lia.
  assert ((y + 1900) mod 400 = 0 -> y mod 4 = 0) by lia.
  destruct (Z.eqb_spec (y mod 4) 0), (Z.eqb_spec (y mod 100) 0),
    (Z.eqb_spec ((y + 1900) mod 400) 0); simpl; tauto || lia.
Qed.

Lemma DAYS_IN_YEAR_len y : _DAYS_IN_YEAR y = year_lengths (isleap (y + 1900)).
Proof. unfold _DAYS_IN_YEAR. rewrite ISLEAP_isleap. done. Qed.

Lemma dbM_month y m : 0 <= m < 12 -> dbM (12 * y + m) = dby (y + 1900) + dbm (isleap (y + 1900)) m.
Proof.
  intros Hm. unfold dbM. replace ((12 * y + m) / 12) with y by lia.
  by replace ((12 * y + m) mod 12) with m by lia.
Qed.

Lemma dbM_succ y m :
  0 <= m < 12 -> dbM (12 * y + m + 1) = dbM (12 * y + m) + mon_len (isleap (y + 1900)) m.
Proof.
  intros Hm. rewrite dbM_month by done. destruct (dbm_facts (isleap (y + 1900)) m Hm) as (E & _).
  destruct (decide (m = 11)) as [->|].
  - replace (12 * y + 11 + 1) with (12 * (y + 1) + 0) by lia. rewrite dbM_month by lia.
    replace (y + 1 + 1900) with (y + 1900 + 1) by lia. rewrite dby_succ.
    change (dbm (isleap (y + 1900 + 1)) 0) with 0.
    assert (E' : dbm (isleap (y + 1900)) (11 + 1) = year_lengths (isleap (y + 1900)))
      by (by destruct (isleap (y + 1900))). lia.
  - replace (12 * y + m + 1) with (12 * y + (m + 1)) by lia. rewrite dbM_month by lia. lia.
Qed.

Lemma wp_DAYS_IN_MONTH n y m w (Q : Z -> world -> Prop) :
  0 <= m < 12 -> Q (mon_len (isleap (y + 1900)) m) w ->
  wp n (_DAYS_IN_MONTH (feb_days y) m) w Q.
Proof.
  intros Hm HQ. unfold _DAYS_IN_MONTH, feb_days. rewrite DAYS_IN_YEAR_len.
  destruct (Z.eqb_spec m 1) as [->|].
  - wp_steps. by destruct (isleap (y + 1900)).
  - eapply wp_aget; [lia| |exact HQ].
    assert (m = 0 \/ m = 2 \/ m = 3 \/ m = 4 \/ m = 5 \/ m = 6 \/ m = 7 \/
      m = 8 \/ m = 9 \/ m = 10 \/ m = 11) as Hcases by lia.
    destruct (isleap (y + 1900)); repeat destruct Hcases as [->|Hcases]; by subst.
Qed.

Lemma wp_carry n out b x up w (Q : Z * Z -> world -> Prop) :
  0 < b <= 60 -> -100000000 <= x <= 100000000 -> -100000000 <= up <= 100000000 ->
  (out = false -> 0 <= x < b) ->
  Q (x mod b, up + x / b) w -> wp n (carry out b x up) w Q.
Proof.
  intros Hb Hx Hup Hout HQ. unfold carry. destruct out; wp_steps.
  - apply wp_div; [lia..|]. wp_steps.
    pose proof (Z.quot_rem' x b). pose proof (Z.rem_bound_abs x b ltac:(lia)).
    assert (Hq : -100000000 <= Z.quot x b <= 100000000) by nia.
    rewrite !i32_small by (rewrite ?i32_small; lia).
    pose proof (Z.div_mod x b ltac:(lia)). pose proof (Z.mod_pos_bound x b ltac:(lia)).
    wp_if; wp_steps; eqapply HQ.
    + assert (x / b = Z.quot x b - 1) by nia. assert (x mod b = Z.rem x b + b) by nia.
      f_equal; lia.
    + assert (x / b = Z.quot x b) by (b2p; nia). assert (x mod b = Z.rem x b) by nia.
      f_equal; lia.
  - eqapply HQ. rewrite Z.mod_small, Z.div_small by auto. flia.
Qed.

(** The day is carried into the months before it. *)
Lemma wp_mday_down n k j d m y w (Q : Z * Z * Z -> world -> Prop) :
  0 <= m < 12 -> d <= mon_len (isleap (y + 1900)) m -> 0 < d + 28 * Z.of_nat j -> (j < k)%nat ->
  -1000000000 <= y - Z.of_nat j <= y -> y <= 1000000000 ->
  (forall d' m' y', 0 <= m' < 12 -> 1 <= d' <= mon_len (isleap (y' + 1900)) m' ->
     dbM (12 * y' + m') + d' = dbM (12 * y + m) + d -> Q (d', m', y') w) ->
  wp n (loop_k k (fun '(mday, mon, year, days_in_feb) =>
      if mday <=? 0 then
        let mon := i32 (mon - 1) in
        let '(mon, year, days_in_feb) :=
          if mon =? -1 then (11, i32 (year - 1), feb_days (i32 (year - 1)))
          else (mon, year, days_in_feb) in
        x ← _DAYS_IN_MONTH days_in_feb mon;
        next (mday + x, mon, year, days_in_feb)
      else brk (mday, mon, year)) (d, m, y, feb_days y)) w Q.
Proof.
  revert k d m y. induction j as [|j IH]; intros [|k] d m y Hm Hd Hj Hk Hy1 Hy2 HQ;
    try lia; wp_loop; wp_if.
  1, 3: wp_steps; apply HQ; blia.
  rewrite (i32_small (m - 1)) by lia. destruct (Z.eqb_spec (m - 1) (-1)) as [Em|Em].
  - rewrite i32_small by lia. wp_steps. apply wp_DAYS_IN_MONTH; [lia|]. wp_steps.
    destruct (dbm_facts (isleap (y - 1 + 1900)) 11 ltac:(lia)) as (_ & Hl & _).
    pose proof (dbM_succ (y - 1) 11 ltac:(lia)) as E'.
    replace (12 * (y - 1) + 11 + 1) with (12 * y + m) in E' by lia.
    apply IH; [lia|blia|lia|lia|lia|lia|]. intros d' m' y' ???. apply HQ; [done..|lia].
  - wp_steps. apply wp_DAYS_IN_MONTH; [lia|]. wp_steps.
    destruct (dbm_facts (isleap (y + 1900)) (m - 1) ltac:(lia)) as (_ & Hl & _).
    pose proof (dbM_succ y (m - 1) ltac:(lia)) as E'.
    replace (12 * y + (m - 1) + 1) with (12 * y + m) in E' by lia.
    apply IH; [lia|blia|lia|lia|lia|lia|]. intros d' m' y' ???. apply HQ; [done..|lia].
Qed.

(** The day is carried into the months after it. *)
Lemma wp_mday_up n k j d m y w (Q : Z * Z * Z -> world -> Prop) :
  0 <= m < 12 -> 1 <= d <= 28 * Z.of_nat j + 28 -> (j < k)%nat ->
  -1000000000 <= y -> y + Z.of_nat j <= 1000000000 ->
  (forall d' m' y', 0 <= m' < 12 -> 1 <= d' <= mon_len (isleap (y' + 1900)) m' ->
     dbM (12 * y' + m') + d' = dbM (12 * y + m) + d -> Q (d', m', y') w) ->
  wp n (loop_k k (fun '(mday, mon, year, days_in_feb) =>
      x ← _DAYS_IN_MONTH days_in_feb mon;
      if x <? mday then
        x ← _DAYS_IN_MONTH days_in_feb mon;
        let mday := mday - x in
        let mon := mon + 1 in
        let '(mon, year, days_in_feb) :=
          if mon =? 12 then (0, i32 (year + 1), feb_days (i32 (year + 1)))
          else (mon, year, days_in_feb) in
        next (mday, mon, year, days_in_feb)
      else brk (mday, mon, year)) (d, m, y, feb_days y)) w Q.
Proof.
  revert k d m y. induction j as [|j IH]; intros [|k] d m y Hm Hd Hk Hy1 Hy2 HQ;
    try lia; wp_loop; wp_step; (apply wp_DAYS_IN_MONTH; [done|]);
    destruct (dbm_facts (isleap (y + 1900)) m Hm) as (_ & Hl & _); wp_if.
  1, 3: wp_steps; apply HQ; blia.
  wp_step. apply wp_DAYS_IN_MONTH; [done|]. wp_steps. pose proof (dbM_succ y m Hm) as E'.
  destruct (Z.eqb_spec (m + 1) 12) as [Em|Em].
  - rewrite i32_small by lia. wp_steps.
    replace (12 * y + m + 1) with (12 * (y + 1) + 0) in E' by lia.
    apply IH; [lia|blia|lia|lia|lia|]. intros d' m' y' ???. apply HQ; [done..|lia].
  - wp_steps. replace (12 * y + m + 1) with (12 * y + (m + 1)) in E' by lia.
    apply IH; [lia|blia|lia|lia|lia|]. intros d' m' y' ???. apply HQ; [done..|lia].
Qed.

(** The fields validate_structure leaves are in range and denote the same time. *)
Definition normal_tm (r : tm) : Prop :=
  0 <= tm_sec r < 60 /\ 0 <= tm_min r < 60 /\ 0 <= tm_hour r < 24 /\
  0 <= tm_mon r < 12 /\ 1 <= tm_mday r <= mon_len (isleap (tm_year r + 1900)) (tm_mon r).

Lemma wp_validate n t w (Q : tm -> world -> Prop) :
  mktime_arg t -> 40000 < Z.of_nat n ->
  (forall r, normal_tm r -> tm_seconds r = tm_seconds t ->
     tm_wday r = tm_wday t -> tm_yday r = tm_yday t -> tm_isdst r = tm_isdst t -> Q r w) ->
  wp n (validate_structure t) w Q.
Proof.
  intros [Hs Hmi Hh Hd Hm Hy] Hn HQ. unfold validate_structure.
  wp_step. apply wp_carry; [lia..|blia|]. wp_steps.
  apply wp_carry; [lia..|blia|]. wp_steps.
  apply wp_carry; [lia..|blia|]. wp_steps.
  apply wp_carry; [lia..|blia|]. wp_steps.
  set (mi := tm_min t + tm_sec t / 60). set (h := tm_hour t + mi / 60).
  set (d := tm_mday t + h / 24). set (m := tm_mon t mod 12). set (y := tm_year t + tm_mon t / 12).
  assert (-1050000 <= d <= 1050000) by lia.
  assert (Hfin : forall d' m' y', 0 <= m' < 12 -> 1 <= d' <= mon_len (isleap (y' + 1900)) m' ->
    dbM (12 * y' + m') + d' = dbM (12 * y + m) + d ->
    Q (Tm (tm_sec t mod 60) (mi mod 60) (h mod 24) d' m' y' (tm_wday t) (tm_yday t) (tm_isdst t)) w).
  { intros d' m' y' Hm' Hd' E. apply HQ; try done.
    - unfold normal_tm; simpl. split_and!; lia.
    - unfold tm_seconds; simpl. replace (12 * tm_year t + tm_mon t) with (12 * y + m) by lia.
      unfold d, h, mi in *. lia. }
  wp_if; apply wp_loop_k.
  - apply (wp_mday_down _ _ (Z.to_nat 40000)); [lia| |lia|lia|lia|lia|].
    + destruct (dbm_facts (isleap (y + 1900)) m ltac:(lia)) as (_ & Hl & _). blia.
    + intros d' m' y' ???. wp_steps. by apply Hfin.
  - apply (wp_mday_up _ _ (Z.to_nat 40000)); [lia|blia|lia|lia|lia|].
    intros d' m' y' ???. wp_steps. by apply Hfin.
Qed.

Lemma wp_sum_years_up n k y Y d w (Q : Z -> world -> Prop) :
  y <= Y -> Y - y < Z.of_nat k -> Q (d + dby (Y + 1900) - dby (y + 1900)) w ->
  wp n (loop_k k (fun '(year, days) =>
      if year <? Y then next (year + 1, days + _DAYS_IN_YEAR year)
      else brk days) (y, d)) w Q.
Proof.
  revert y d. induction k as [|k IH]; intros y d Hy Hk HQ; [lia|]. wp_loop. wp_if; wp_steps.
  - apply IH; [blia|lia|]. rewrite DAYS_IN_YEAR_len.
    replace (y + 1 + 1900) with (y + 1900 + 1) by lia. rewrite dby_succ. eqapply HQ. lia.
  - replace Y with y in HQ by blia. eqapply HQ. lia.
Qed.

Lemma wp_sum_years_down n k y Y d w (Q : Z * Z -> world -> Prop) :
  Y <= y -> y - Y < Z.of_nat k -> Q (Y, d - (dby (y + 1900 + 1) - dby (Y + 1900 + 1))) w ->
  wp n (loop_k k (fun '(year, days) =>
      if Y <? year then next (year - 1, days - _DAYS_IN_YEAR year)
      else brk (year, days)) (y, d)) w Q.
Proof.
  revert y d. induction k as [|k IH]; intros y d Hy Hk HQ; [lia|]. wp_loop. wp_if; wp_steps.
  - apply IH; [blia|lia|]. rewrite DAYS_IN_YEAR_len, (dby_succ (y + 1900)) in *.
    replace (y - 1 + 1900 + 1) with (y + 1900) by lia. eqapply HQ. flia.
  - replace Y with y in * by blia. eqapply HQ. flia.
Qed.

Lemma wp_sum_years n Y d w (Q : Z -> world -> Prop) :
  -10000 <= Y <= 10000 -> 10100 < Z.of_nat n -> Q (d + dby (Y + 1900)) w ->
  wp n (if 70 <? Y then
      loop (fun '(year, days) =>
        if year <? Y then next (year + 1, days + _DAYS_IN_YEAR year)
        else brk days) (70, d)
    else if Y <? 70 then
      '(year, days) ← loop (fun '(year, days) =>
        if Y <? year then next (year - 1, days - _DAYS_IN_YEAR year)
        else brk (year, days)) (69, d);
      mret (days - _DAYS_IN_YEAR year)
    else mret d) w Q.
Proof.
  intros HY Hn HQ. wp_if; [|wp_if].
  - apply wp_loop_k, wp_sum_years_up; [blia|lia|]. eqapply HQ. change (dby (70 + 1900)) with 0. lia.
  - wp_steps. apply wp_loop_k, wp_sum_years_down; [blia|lia|]. wp_steps.
    rewrite DAYS_IN_YEAR_len. change (dby (69 + 1900 + 1)) with 0. rewrite dby_succ.
    eqapply HQ. lia.
  - wp_steps. replace Y with 70 in * by blia. eqapply HQ. change (dby (70 + 1900)) with 0. lia.
Qed.

(** Bounds on the days of far years. *)
Lemma dby_above y0 d y : dby y0 = d -> y0 <= y -> d <= dby y.
Proof. intros <-. apply dby_le. Qed.
Lemma dby_below y0 d y : dby y0 = d -> y <= y0 -> dby y <= d.
Proof. intros <-. apply dby_le. Qed.
Lemma dby_m3100 : dby (-3100) = -1851779.
Proof. vm_compute. done. Qed.
Lemma dby_7901 : dby 7901 = 2166253.
Proof. vm_compute. done. Qed.
Lemma dby_m8101 : dby (-8101) = -3678357.
Proof. vm_compute. done. Qed.
Lemma dby_11901 : dby 11901 = 3627223.
Proof. vm_compute. done. Qed.

(** A normal day lies in its year. *)
Lemma dbM_bounds y m :
  0 <= m < 12 -> dby (y + 1900) <= dbM (12 * y + m) <= dby (y + 1900) + 366.
Proof.
  intros Hm. rewrite dbM_month by done.
  destruct (dbm_facts (isleap (y + 1900)) m Hm) as (E1 & Hl & H0 & H1).
  pose proof (year_lengths_range (isleap (y + 1900))). lia.
Qed.

Lemma normal_days t r :
  mktime_arg t -> normal_tm r -> tm_seconds r = tm_seconds t ->
  -1120000 <= dbM (12 * tm_year r + tm_mon r) - dbM (12 * tm_year t + tm_mon t) <= 1120000.
Proof.
  intros [Hs Hmi Hh Hd Hm Hy] (Hs' & Hmi' & Hh' & Hm' & Hd') E. rewrite !tm_seconds_eq in E.
  destruct (dbm_facts (isleap (tm_year r + 1900)) (tm_mon r) Hm') as (_ & Hl & _ & _). lia.
Qed.

Lemma normal_year t r :
  mktime_arg t -> normal_tm r -> tm_seconds r = tm_seconds t -> -10000 <= tm_year r <= 10000.
Proof.
  intros Ht Hr E. assert (Hd := normal_days _ _ Ht Hr E).
  destruct Hr as (_ & _ & _ & Hm' & _). assert (Hb := dbM_bounds (tm_year r) _ Hm').
  assert (exists y m, 12 * tm_year t + tm_mon t = 12 * y + m /\ 0 <= m < 12 /\ -5000 <= y <= 6001)
    as (y & m & Ey & Hm0 & Hy0).
  { destruct Ht. exists (tm_year t + tm_mon t / 12), (tm_mon t mod 12). lia. }
  rewrite Ey in Hd. assert (Hb0 := dbM_bounds y m Hm0). clear E Ht Hm' Hm0 Ey.
  assert (-1851779 <= dby (y + 1900)) by (apply (dby_above _ _ _ dby_m3100); lia).
  assert (dby (y + 1900) <= 2166253) by (apply (dby_below _ _ _ dby_7901); lia).
  destruct (Z.lt_ge_cases (tm_year r) (-10000)).
  - assert (dby (tm_year r + 1900) <= -3678357) by (apply (dby_below _ _ _ dby_m8101); lia). lia.
  - destruct (Z.lt_ge_cases 10000 (tm_year r)); [|lia].
    assert (3627223 <= dby (tm_year r + 1900)) by (apply (dby_above _ _ _ dby_11901); lia). lia.
Qed.

Lemma days_before_month leap m :
  0 <= m < 12 ->
  exists before, _DAYS_BEFORE_MONTH !! Z.to_nat m = Some before /\
    dbm leap m = before + (if (1 <? m) && leap then 1 else 0).
Proof.
  intros Hm. assert (m = 0 \/ m = 1 \/ m = 2 \/ m = 3 \/ m = 4 \/ m = 5 \/ m = 6 \/ m = 7 \/
    m = 8 \/ m = 9 \/ m = 10 \/ m = 11) as Hcases by lia.
  destruct leap; repeat destruct Hcases as [->|Hcases]; try subst m;
    (eexists; split; [reflexivity|by vm_compute]).
Qed.

(** The day of the year, from the month table and the leap day. *)
Lemma wp_days_before n r w (Q : Z -> world -> Prop) :
  normal_tm r ->
  (forall before, 
    (if (1 <? tm_mon r) && (_DAYS_IN_YEAR (tm_year r) =? 366)
     then tm_mday r - 1 + before + 1 else tm_mday r - 1 + before) =
    dbm (isleap (tm_year r + 1900)) (tm_mon r) + tm_mday r - 1 -> Q before w) ->
  wp n (aget _DAYS_BEFORE_MONTH (tm_mon r)) w Q.
Proof.
  intros (_ & _ & _ & Hm & _) HQ.
  destruct (days_before_month (isleap (tm_year r + 1900)) _ Hm) as (before & Hx & E).
  eapply wp_aget; [lia|exact Hx|]. apply HQ. rewrite DAYS_IN_YEAR_len, E.
  destruct (isleap (tm_year r + 1900)); simpl; destruct (1 <? tm_mon r); simpl; lia.
Qed.

(** The zone in force when there are no daylight rules. *)
Definition mktime_offset (isdst : Z) (tz : tzinfo) : Z :=
  if 0 <? isdst then tz_offset (__tzrule1 tz) else tz_offset (__tzrule0 tz).

(** Without daylight rules, mktime computes the time its argument denotes,
    modulo 2^32, and replaces it with its normal form. *)
Lemma wp_mktime n t w (Q : Z * tm -> world -> Prop) :
  mktime_arg t -> 40000 < Z.of_nat n -> _daylight (w_tz w) = 0 ->
  (forall r, valid_tm r -> tm_time r = tm_seconds t ->
     tm_isdst r = (if 0 <? tm_isdst t then 1 else tm_isdst t) ->
     Q (i32 (tm_time r + mktime_offset (tm_isdst t) (w_tz w)), r) w) ->
  wp n (mktime t) w Q.
Proof.
  intros Ht Hn Hdst HQ. unfold mktime. wp_step. apply wp_validate; [done..|].
  intros r Hr Es Ew Ey Ei. assert (HY := normal_year _ _ Ht Hr Es). wp_step.
  apply wp_days_before; [done|]. intros before Hb. cbn zeta.
  cbn [tm_sec tm_min tm_hour tm_mday tm_mon tm_year tm_wday tm_yday tm_isdst].
  rewrite Hb. set (yday := dbm _ _ + _ - 1) in *.
  replace ((10000 <? tm_year r) || (tm_year r <? -10000)) with false by lia.
  wp_step. apply wp_sum_years; [done|lia|]. wp_steps. rewrite Hdst. simpl (negb _). wp_steps.
  set (D := yday + dby (tm_year r + 1900)).
  assert (Ewd : (if Z.rem (D + 4) 7 <? 0 then Z.rem (D + 4) 7 + 7 else Z.rem (D + 4) 7) =
    (4 + D) mod 7) by (destruct (Z.ltb_spec (Z.rem (D + 4) 7) 0);
      Z.to_euclidean_division_equations; lia).
  rewrite Ewd, Ei. clear Ewd. destruct Hr as (Hs & Hmi & Hh & Hm & Hd).
  set (r' := Tm _ _ _ _ _ _ _ _ _).
  assert (Hv : valid_tm r').
  { unfold r'. split; simpl; try lia. }
  assert (Et : tm_time r' = tm_seconds t).
  { rewrite <-Es. unfold tm_seconds. rewrite dbM_month by done. unfold tm_time, r', yday. simpl. lia. }
  specialize (HQ r' Hv Et eq_refl). eqapply HQ. f_equal.
  unfold mktime_offset.
  assert (Etim : i32 (tm_sec r + tm_min r * 60 + tm_hour r * 3600 + i32 (D * 86400)) = i32 (tm_time r')).
  { unfold tm_time, r'; simpl. unfold D, i32. lia. }
  rewrite Etim. destruct (0 <? tm_isdst t) eqn:E0.
  - change (1 =? 1) with true. unfold i32. cbn match. lia.
  - replace (tm_isdst t =? 1) with false by lia. unfold i32. lia.
Qed.
End mktime.

(** ** Daylight rules *)

Section tzcalc.
Implicit Types (n k : nat) (w : world).

(** The day count of __tzcalc_limits is the calendar's. *)
Lemma year_days_dby year :
  1970 <= year ->
  (year - 1970) * 365 + Z.quot (year - 1970 - 1 + 2) 4 - Z.quot (year - 1970 - 1 + 70) 100 +
    Z.quot (year - 1970 - 1 + 370) 400 = dby year.
Proof. intros H. rewrite !Z.quot_div_nonneg by lia. unfold dby. lia. Qed.

Lemma wp_tzcalc_month n k leap j m days w (Q : Z * Z -> world -> Prop) :
  1 <= j <= m -> m <= 12 -> m - j < Z.of_nat k ->
  Q (days + dbm leap (m - 1) - dbm leap (j - 1), m) w ->
  wp n (loop_k k (fun '(days, j) =>
    if j <? m then x ← aget (mon_lengths leap) (j - 1); next (days + x, j + 1)
    else brk (days, j)) (days, j)) w Q.
Proof.
  revert j days. induction k as [|k IH]; intros j days Hj Hm Hk HQ; [lia|]. wp_loop. wp_if.
  - destruct (dbm_facts leap (j - 1) ltac:(blia)) as (E' & _).
    replace (j - 1 + 1) with j in E' by lia. wp_step.
    apply (wp_aget _ _ _ (mon_len leap (j - 1))); [lia| |].
    { unfold mon_len. rewrite nth_lookup.
      destruct (lookup_lt_is_Some_2 (mon_lengths leap) (Z.to_nat (j - 1))) as [x Hx];
        [destruct leap; simpl length; blia|]. by rewrite Hx. }
    wp_steps. apply IH; [blia|lia|lia|]. replace (j + 1 - 1) with j by lia.
    eqapply HQ. flia.
  - wp_steps. replace m with j in * by blia. eqapply HQ. flia.
Qed.

(** [D] is the [r.n]-th day [r.d] of the week (0 is Sunday) of the month [r.m],
    or the last one when there are fewer. *)
Definition nth_weekday (year : Z) (r : tzrule) (D : Z) : Prop :=
  let leap := isleap year in
  let start := dby year + dbm leap (tz_m r - 1) in
  let len := mon_len leap (tz_m r - 1) in
  start <= D < start + len /\ (4 + D) mod 7 = tz_d r /\
  ((D - start) / 7 = tz_n r - 1 \/ (D - start) / 7 < tz_n r - 1 /\ start + len <= D + 7).

(** A rule of the form Mm.n.d. *)
Definition m_rule (r : tzrule) : Prop :=
  tz_ch r = 77 /\ 1 <= tz_m r <= 12 /\ 1 <= tz_n r <= 5 /\ 0 <= tz_d r <= 6.

Lemma wp_tzcalc_week n k leap m q w (Q : Z -> world -> Prop) :
  0 <= m < 12 -> 0 <= q -> q < 7 * Z.of_nat k ->
  (forall x, 0 <= x < mon_len leap m -> x mod 7 = q mod 7 ->
    x = q \/ x < q /\ mon_len leap m <= x + 7 -> Q x w) ->
  wp n (loop_k k (fun m_day =>
    x ← aget (mon_lengths leap) m;
    if x <=? m_day then next (m_day - 7) else brk m_day) q) w Q.
Proof.
  revert q. induction k as [|k IH]; intros q Hm Hq Hk HQ; [lia|].
  destruct (dbm_facts leap m Hm) as (_ & Hl & _). wp_loop. wp_step.
  apply (wp_aget _ _ _ (mon_len leap m)); [lia| |].
  { unfold mon_len. rewrite nth_lookup.
    destruct (lookup_lt_is_Some_2 (mon_lengths leap) (Z.to_nat m)) as [x Hx];
      [destruct leap; simpl length; lia|]. by rewrite Hx. }
  wp_if; wp_steps.
  - apply IH; [done|blia|lia|]. intros x Hx E' Hor. apply HQ; [done|rewrite E'; lia|].
    right. blia.
  - apply HQ; [blia|done|by left].
Qed.

Lemma wp_tzcalc_day n year r w (Q : Z -> world -> Prop) :
  1970 <= year -> m_rule r -> (12 < n)%nat ->
  (forall D, nth_weekday year r D -> Q D w) ->
  wp n (tzcalc_day year (dby year) r) w Q.
Proof.
  intros Hy (Hch & Hm & Hn & Hd) Hfuel HQ. unfold tzcalc_day. rewrite Hch.
  change (77 =? 74) with false. change (77 =? 68) with false. wp_steps.
  apply wp_loop_k, wp_tzcalc_month; [lia|lia|lia|]. wp_steps.
  change (dbm (isleap year) (1 - 1)) with 0. rewrite Z.sub_0_r.
  set (start := dby year + dbm (isleap year) (tz_m r - 1)).
  assert (0 <= start).
  { pose proof (dby_le 1970 year Hy). change (dby 1970) with 0 in *.
    destruct (dbm_facts (isleap year) (tz_m r - 1) ltac:(lia)) as (_ & _ & ? & _). lia. }
  rewrite Z.rem_mod_nonneg by lia. set (wd := (4 + start) mod 7).
  set (diff := if tz_d r - wd <? 0 then tz_d r - wd + 7 else tz_d r - wd).
  assert (Hdiff : 0 <= diff < 7 /\ (4 + start + diff) mod 7 = tz_d r).
  { unfold diff, wd. destruct (Z.ltb_spec (tz_d r - (4 + start) mod 7) 0); lia. }
  clearbody diff. apply wp_loop_k, wp_tzcalc_week; [lia|lia|lia|]. intros x Hx Em Hor. wp_steps.
  apply HQ. unfold nth_weekday. fold start. split; [lia|]. split; [lia|].
  replace (start + x - start) with x by lia. destruct Hor as [->|[? ?]]; [left; lia|].
  destruct (Z.eq_dec (x / 7) (tz_n r - 1)); [by left|right]. lia.
Qed.

(** Both rules: the change-over times in GMT, and the hemisphere. *)
Lemma wp_tzcalc_limits n year w (Q : Z -> world -> Prop) :
  1970 <= year -> m_rule (__tzrule0 (w_tz w)) -> m_rule (__tzrule1 (w_tz w)) -> (12 < n)%nat ->
  (forall D0 D1,
    nth_weekday year (__tzrule0 (w_tz w)) D0 -> nth_weekday year (__tzrule1 (w_tz w)) D1 ->
    let c r D := i32 (D * 86400 + tz_s r + tz_offset r) in
    let r0 := __tzrule0 (w_tz w) in
    let r1 := __tzrule1 (w_tz w) in
    Q 1 (set_tz (TzInfo (_daylight (w_tz w)) (Z.b2z (c r0 D0 <? c r1 D1)) year
      (set_change (c r0 D0) r0) (set_change (c r1 D1) r1)) w)) ->
  wp n (__tzcalc_limits year) w Q.
Proof.
  intros Hy H0 H1 Hn HQ. unfold __tzcalc_limits.
  rewrite (proj2 (Z.ltb_ge year 1970)) by lia. wp_steps.
  rewrite year_days_dby by done. apply wp_tzcalc_day; [done..|]. intros D0 HD0. wp_steps.
  apply wp_tzcalc_day; [done..|]. intros D1 HD1. wp_steps. by apply (HQ D0 D1).
Qed.

(** The day POSIX gives a rule Jn: n counts from 1, and never the leap day. *)
Definition posix_julian_day (year d : Z) : Z :=
  dby year + (d - 1) + (if isleap year && (60 <=? d) then 1 else 0).
End tzcalc.
