(* ===== verification/Concrete.v ===== *)
(** * Concrete memories and worlds

    The predicates on memory are decidable: this file holds the instances,
    with a constructor of small memories, so that the theorems can be applied
    to concrete inputs by evaluation. *)

From S2P Require Import Prelude CMonad Words Memory StrScan MemCopy StrCopy.

#[global] Instance bytes_dec m p l : Decision (bytes m p l).
Proof.
  revert p. induction l as [|b l IH]; intros p; simpl; [left; exact I|].
  specialize (IH (p + 1)). apply and_dec; [apply option_eq_dec|exact IH].
Defined.

#[global] Instance cstr_dec m p s : Decision (cstr m p s).
Proof. unfold cstr. apply _. Defined.

(** The addresses [p], [p + 1], .. of a range. *)
Fixpoint range (p : Z) (k : nat) : list Z :=
  match k with O => [] | S k' => p :: range (p + 1) k' end.

Lemma elem_of_range p k a : a ∈ range p k <-> p <= a < p + Z.of_nat k.
Proof.
  revert p. induction k as [|k IH]; intros p; simpl.
  - rewrite elem_of_nil. lia.
  - rewrite elem_of_cons, IH. lia.
Qed.

Lemma mapped_range m p n :
  mapped m p n <-> Forall (fun a => is_Some (m !! a)) (range p (Z.to_nat n)).
Proof.
  unfold mapped. rewrite Forall_forall. split; intros H a.
  - rewrite elem_of_range. intros. apply H. lia.
  - intros. apply H, elem_of_range. lia.
Qed.

#[global] Instance mapped_dec m p n : Decision (mapped m p n).
Proof.
  destruct (decide (Forall (fun a => is_Some (m !! a)) (range p (Z.to_nat n)))) as [H|H];
    [left|right]; by rewrite mapped_range.
Defined.

#[global] Instance forward_dec d s n : Decision (forward d s n).
Proof. unfold forward. apply _. Defined.

#[global] Instance disjoint_ranges_dec p n q k : Decision (disjoint_ranges p n q k).
Proof. unfold disjoint_ranges. apply _. Defined.

(** ** Sample worlds

    [blank p k] maps [k] zero bytes from [p] on; a sample memory writes its
    data there. *)
Definition blank (p : Z) (k : nat) : mem := store_bytes p (replicate k 0) ∅.

Definition reent0 : reent :=
  Reent 0 0 0 1 (Rand48 (0x330e, 0xabcd, 0x1234) (0xe66d, 0xdeec, 0x0005) 0x000b).
Definition tz0 : tzinfo :=
  TzInfo 0 0 0 (TzRule 74 0 0 0 0 0 0) (TzRule 74 0 0 0 0 0 0).
Definition world_of (m : mem) : world := World m reent0 tz0 ∅.

(** The two configurations of the string functions. *)
Definition speed : build := {| PREFER_SIZE_OVER_SPEED := false |}.
Definition size : build := {| PREFER_SIZE_OVER_SPEED := true |}.

(** [decided] proves a decidable statement about a closed memory. *)
Ltac decided := apply (bool_decide_unpack _); vm_compute; exact I.
Ltac concrete := first [decided | lia | discriminate | reflexivity].
