(* ===== verification/Blocks.v ===== *)
(** * Blocks of words

    The state of Heap with its words grouped into blocks: arrays and structures,
    apart from each other.  The room that the allocator has left is counted, since
    some clients do not expect it to fail. *)

From S2P Require Import Prelude CMonad Words Memory StrScan MemCopy Heap.

(** A block is its address and its words. *)
Definition block : Type := Z * list Z.
Definition flat (Os : list block) : list cell := concat (map (fun o => words o.1 o.2) Os).

(** Membership in a list built of known parts. *)
Ltac in_list := lazymatch goal with
  | |- _ ∈ _ ++ _ => rewrite elem_of_app; first [left; solve [in_list] | right; in_list]
  | |- _ ∈ _ :: _ => rewrite elem_of_cons; first [left; reflexivity | right; in_list]
  | |- _ => eassumption
  end.

(** Permutations of lists built of known parts: [front] takes a part out. *)
Class front {X : Type} (part l l' : list X) : Prop := front_perm : l ≡ₚ part ++ l'.

Section front.
Context {X : Type}.
Implicit Types (x y : X) (p l : list X).

#[export] Instance front_all p : front p p [] | 0.
Proof. unfold front. by rewrite app_nil_r. Qed.
#[export] Instance front_app_here p l : front p (p ++ l) l | 0.
Proof. by unfold front. Qed.
#[export] Instance front_cons_here x l : front [x] (x :: l) l | 0.
Proof. by unfold front. Qed.
#[export] Instance front_app_left p l1 l1' l2 : front p l1 l1' -> front p (l1 ++ l2) (l1' ++ l2) | 1.
Proof. unfold front. intros ->. by rewrite app_assoc. Qed.
#[export] Instance front_app_right p l1 l2 l2' : front p l2 l2' -> front p (l1 ++ l2) (l1 ++ l2') | 2.
Proof. unfold front. intros ->. by rewrite Permutation_app_swap_app. Qed.
#[export] Instance front_cons p y l l' : front p l l' -> front p (y :: l) (y :: l') | 2.
Proof. unfold front. intros ->. apply Permutation_middle. Qed.

Lemma perm_cons x l r r' : front [x] r r' -> l ≡ₚ r' -> x :: l ≡ₚ r.
Proof. unfold front. by intros -> ->. Qed.
Lemma perm_app p l r r' : front p r r' -> l ≡ₚ r' -> p ++ l ≡ₚ r.
Proof. unfold front. by intros -> ->. Qed.
Lemma perm_end p r r' : front p r r' -> r' = [] -> p ≡ₚ r.
Proof. unfold front. intros -> ->. by rewrite app_nil_r. Qed.
End front.

Ltac perm := rewrite <-?app_assoc; cbn [app]; repeat lazymatch goal with
  | |- ?l ≡ₚ ?l => reflexivity
  | |- _ :: _ ≡ₚ _ => eapply perm_cons; [apply _|]; cbn [app]
  | |- _ ++ _ ≡ₚ _ => eapply perm_app; [apply _|]; cbn [app]
  | |- _ ≡ₚ _ => eapply perm_end; [apply _|reflexivity]
  end.

#[export] Instance flat_proper : Proper (Permutation ==> Permutation) flat.
Proof.
  intros Os Os' HP. unfold flat. induction HP as [|o Os Os' HP IH|o1 o2 Os|Os1 Os2 Os3 _ IH1 _ IH2]; cbn [map concat].
  - done.
  - by rewrite IH.
  - rewrite !app_assoc. apply Permutation_app; [apply Permutation_app_comm|done].
  - by rewrite IH1, IH2.
Qed.

Lemma flat_cons o Os : flat (o :: Os) = words o.1 o.2 ++ flat Os.
Proof. done. Qed.

(** The bytes of the words of a block. *)
Definition le_words (vs : list Z) : list Z := concat (map le_bytes vs).
Abbreviation is_word v := (0 <= v < 4294967296).

Lemma le_words_length vs : length (le_words vs) = (4 * length vs)%nat.
Proof. induction vs as [|v vs IH]; [done|]. unfold le_words in *. cbn [map concat]. rewrite length_app, IH. cbn. lia. Qed.

Lemma words_bytes m p vs : Forall (holds m) (words p vs) <->
  bytes m p (le_words vs) /\ Forall (fun v => is_word v) vs.
Proof.
  revert p. induction vs as [|v vs IH]; intros p; cbn [words]; [by rewrite !Forall_nil|].
  unfold le_words in *. cbn [map concat]. rewrite !Forall_cons, IH, bytes_app. unfold holds. cbn [fst snd].
  change (zlen (le_bytes v)) with 4. tauto.
Qed.

(** ** An allocator that knows its room *)

(** [calloc] clears the block; it succeeds when there is room for the [cost] of the
    block, which is its size and what the allocator adds to it. *)
Class zeroing {malloc free} (A : allocator malloc free) (calloc : Z -> Z -> C Z) := {
  room : mem -> Z;
  cost : Z -> Z;
  cost_pos size : 0 <= cost size;
  cost_mono s1 s2 : s1 <= s2 -> cost s1 <= cost s2;
  room_write B m p l : heap B m -> client_range arena B p (zlen l) -> room (store_bytes p l m) = room m;
  wp_calloc n B k size w (Q : Z -> world -> Prop) :
    (alloc_fuel <= n)%nat -> mem_ok (w_mem w) -> heap B (w_mem w) -> 0 < k * size < 2147483648 ->
    (forall w', mem_ok (w_mem w') -> kept arena B (w_mem w) (w_mem w') -> heap B (w_mem w') ->
      room (w_mem w') = room (w_mem w) -> room (w_mem w) < cost (k * size) -> Q 0 w') ->
    (forall q w', mem_ok (w_mem w') -> kept arena B (w_mem w) (w_mem w') -> B !! q = None ->
      heap (<[q := k * size]> B) (w_mem w') -> bytes (w_mem w') q (replicate (Z.to_nat (k * size)) 0) ->
      room (w_mem w) - cost (k * size) <= room (w_mem w') -> Q q w') ->
    wp n (calloc k size) w Q;
}.

Section blocks.
Context {malloc free} {A : allocator malloc free} {calloc} {Z_ : zeroing A calloc}.
Implicit Types (B : gmap Z Z) (w : world) (K : list (Z * list Z)) (Os : list block) (c : Z).

(** The blocks [Os] of the client, the data [K] that is only read, and room [c]. *)
Definition owns w K Os c : Prop := exists B, state B w K (flat Os) /\ c <= room (w_mem w).

#[export] Instance owns_proper w K : Proper (Permutation ==> eq ==> iff) (owns w K).
Proof.
  intros Os Os' HP c ? <-. unfold owns. split; intros (B & H & Hc); exists B; (split; [|done]).
  - by rewrite <-HP.
  - by rewrite HP.
Qed.

Lemma owns_perm w K Os Os' c : owns w K Os c -> Os ≡ₚ Os' -> owns w K Os' c.
Proof. by intros H <-. Qed.

Lemma owns_weaken w K Os c c' : owns w K Os c -> c' <= c -> owns w K Os c'.
Proof. intros (B & H & Hc) Hle. exists B. split; [done|lia]. Qed.

Lemma block_perm p vs Os : (p, vs) ∈ Os -> exists Os', Os ≡ₚ (p, vs) :: Os'.
Proof. intros (i & Hi)%list_elem_of_lookup. exists (delete i Os). by apply delete_Permutation. Qed.

Lemma owns_words w K Os c p vs : owns w K Os c -> (p, vs) ∈ Os ->
  Forall (fun v => is_word v) vs /\ bytes (w_mem w) p (le_words vs) /\ mem_ok (w_mem w).
Proof.
  intros (B & H & _) (Os' & HP)%block_perm. rewrite HP, flat_cons in H.
  destruct (st_cells _ _ _ _ H) as [Hh _]. apply Forall_app in Hh as [Hh _].
  apply words_bytes in Hh as [H1 H2]. split_and!; [done..|apply H].
Qed.

Lemma owns_range w K Os c p vs : owns w K Os c -> (p, vs) ∈ Os -> vs <> [] ->
  0 < p /\ p + 4 * zlen vs <= 1073741824.
Proof.
  intros H Hin Hne. destruct (owns_words _ _ _ _ _ _ H Hin) as (_ & Hb & Hm).
  apply mem_ok_range in Hb; [|done|].
  - rewrite le_words_length in Hb. lia.
  - intros E. apply (f_equal length) in E. rewrite le_words_length in E. destruct vs; [done|]. cbn in E. lia.
Qed.

Lemma wp_block_load w K Os c p l1 v l2 a n (Q : Z -> world -> Prop) :
  owns w K Os c -> (p, l1 ++ v :: l2) ∈ Os -> a = p + 4 * zlen l1 -> Q v w -> wp n (load32 a) w Q.
Proof.
  intros (B & H & _) (Os' & HP)%block_perm -> HQ. rewrite HP, flat_cons in H.
  eapply wp_state_load; [exact H| |exact HQ]. cbn [fst snd]. rewrite words_app. cbn [words]. set_solver.
Qed.

Lemma wp_block_store w K Os c p l1 v l2 v' a n (Q : unit -> world -> Prop) :
  owns w K ((p, l1 ++ v :: l2) :: Os) c -> a = p + 4 * zlen l1 -> is_word v' ->
  (forall w', owns w' K ((p, l1 ++ v' :: l2) :: Os) c -> Q tt w') -> wp n (store32 a v') w Q.
Proof.
  intros (B & H & Hc) -> Hv HQ. rewrite flat_cons in H. cbn [fst snd] in H.
  assert (HP : forall u, words p (l1 ++ u :: l2) ++ flat Os ≡ₚ
    (p + 4 * zlen l1, u) :: words p l1 ++ words (p + 4 * zlen l1 + 4) l2 ++ flat Os).
  { intros u. rewrite words_app. cbn [words]. rewrite <-app_assoc. cbn [app]. symmetry. apply Permutation_middle. }
  rewrite HP in H. destruct (state_stored _ _ _ _ _ _ _ H Hv) as (Hm & Hcl & H').
  apply wp_store32_le; [done|done|]. apply HQ. exists B. rewrite flat_cons. cbn [fst snd]. rewrite HP.
  split; [done|]. cbn [set_mem w_mem]. by rewrite (room_write B) by (apply H || done).
Qed.

(** The same by index. *)
Lemma wp_block_load_at w K Os c p vs i v a n (Q : Z -> world -> Prop) :
  owns w K Os c -> (p, vs) ∈ Os -> vs !! i = Some v -> a = p + 4 * Z.of_nat i -> Q v w ->
  wp n (load32 a) w Q.
Proof.
  intros H Hin Hi Ha HQ. pose proof (lookup_lt_Some _ _ _ Hi) as Hlt.
  apply take_drop_middle in Hi. rewrite <-Hi in Hin.
  eapply wp_block_load; [exact H|exact Hin| |exact HQ]. rewrite length_take_le by lia. done.
Qed.

Lemma wp_block_store_at w K Os c p vs i v' a n (Q : unit -> world -> Prop) :
  owns w K ((p, vs) :: Os) c -> (i < length vs)%nat -> a = p + 4 * Z.of_nat i -> is_word v' ->
  (forall w', owns w' K ((p, <[i := v']> vs) :: Os) c -> Q tt w') -> wp n (store32 a v') w Q.
Proof.
  intros H Hi Ha Hv HQ. destruct (lookup_lt_is_Some_2 vs i Hi) as [v Hv0].
  rewrite <-(take_drop_middle vs i v) in H by done.
  eapply wp_block_store; [exact H| |done|]; [rewrite length_take_le by lia; done|].
  intros w' H'. apply HQ. by rewrite insert_take_drop by done.
Qed.

(** Storing a run of words. *)
Lemma owns_stored w K Os c p vs vs' : owns w K ((p, vs) :: Os) c -> length vs' = length vs ->
  Forall (fun v => is_word v) vs' -> owns (written p (le_words vs') w) K ((p, vs') :: Os) c.
Proof.
  assert (Hpre : forall pre, owns w K ((p, pre ++ vs) :: Os) c -> length vs' = length vs ->
    Forall (fun v => is_word v) vs' ->
    owns (written (p + 4 * zlen pre) (le_words vs') w) K ((p, pre ++ vs') :: Os) c).
  2:{ intros H Hl Hv. specialize (Hpre [] H Hl Hv). cbn [app length] in Hpre.
      by replace (p + 4 * Z.of_nat 0) with p in Hpre by lia. }
  revert w vs. induction vs' as [|v' vs' IH]; intros w [|v vs] pre H Hl Hvs'; try done.
  - unfold written. cbn. by rewrite set_mem_id.
  - apply Forall_cons in Hvs' as [Hv Hvs']. destruct H as (B & H & Hc). cbn [length] in Hl.
    rewrite flat_cons in H. cbn [fst snd] in H.
    assert (HP : forall u, words p (pre ++ u :: vs) ++ flat Os ≡ₚ
      (p + 4 * zlen pre, u) :: words p pre ++ words (p + 4 * zlen pre + 4) vs ++ flat Os).
    { intros u. rewrite words_app. cbn [words]. rewrite <-app_assoc. cbn [app]. symmetry. apply Permutation_middle. }
    rewrite HP in H. destruct (state_stored _ _ _ _ _ _ _ H Hv) as (Hm & Hcl & H').
    change (le_words (v' :: vs')) with (le_bytes v' ++ le_words vs'). rewrite <-written_app.
    replace (pre ++ v' :: vs') with ((pre ++ [v']) ++ vs') by (by rewrite <-app_assoc).
    replace (p + 4 * zlen pre + zlen (le_bytes v')) with (p + 4 * zlen (pre ++ [v']))
      by (rewrite length_app; cbn [length le_bytes]; lia).
    apply (IH _ vs); [|lia|done]. exists B. rewrite flat_cons. cbn [fst snd].
    replace ((pre ++ [v']) ++ vs) with (pre ++ v' :: vs) by (by rewrite <-app_assoc).
    rewrite HP. split; [done|]. unfold written. cbn [set_mem w_mem]. by rewrite (room_write B) by (apply H || done).
Qed.

(** Splitting a block. *)
Lemma owns_split w K Os c p vs1 vs2 :
  owns w K ((p, vs1 ++ vs2) :: Os) c <-> owns w K ((p, vs1) :: (p + 4 * zlen vs1, vs2) :: Os) c.
Proof.
  unfold owns. rewrite !flat_cons. cbn [fst snd]. by rewrite words_app, <-app_assoc.
Qed.

(** Copying words from one block to another. *)
Lemma wp_block_copy `{BC : build} w K Os c p q l1 vs l2 m1 us m2 d s k n (Q : Z -> world -> Prop) :
  owns w K ((p, m1 ++ us ++ m2) :: Os) c -> (q, l1 ++ vs ++ l2) ∈ Os -> length us = length vs ->
  d = p + 4 * zlen m1 -> s = q + 4 * zlen l1 -> k = 4 * zlen vs -> (4 * length vs < n)%nat ->
  (forall w', owns w' K ((p, m1 ++ vs ++ m2) :: Os) c -> Q d w') ->
  wp n (memcpy d s k) w Q.
Proof.
  intros H Hin Hl -> -> -> Hn HQ.
  assert (Hin' : (q, l1 ++ vs ++ l2) ∈ (p, m1 ++ us ++ m2) :: Os) by (by right).
  destruct (owns_words _ _ _ _ _ _ H Hin') as (Hw & Hb & Hm).
  apply Forall_app in Hw as [_ [Hw _]%Forall_app].
  unfold le_words in Hb. rewrite !map_app, !concat_app in Hb. fold (le_words l1) (le_words vs) (le_words l2) in Hb.
  apply bytes_app in Hb as [_ [Hb _]%bytes_app]. rewrite le_words_length in Hb.
  assert (H1 : owns w K ((p + 4 * zlen m1, us) :: (p + 4 * zlen m1 + 4 * zlen us, m2) :: (p, m1) :: Os) c).
  { apply owns_split in H. rewrite Permutation_swap in H. by apply owns_split in H. }
  assert (Hus : (p + 4 * zlen m1, us) ∈ (p + 4 * zlen m1, us) :: (p + 4 * zlen m1 + 4 * zlen us, m2) :: (p, m1) :: Os) by left.
  destruct (owns_words _ _ _ _ _ _ H1 Hus) as (_ & Hbu & _). apply bytes_mapped in Hbu.
  rewrite le_words_length in Hbu.
  replace (4 * zlen vs) with (zlen (le_words vs)) by (rewrite le_words_length; lia).
  destruct (decide (vs = [])) as [->|Hne].
  { destruct us; [|done]. apply wp_memcpy; [split; [done..|intros a Ha; cbn in Ha; lia|unfold forward; cbn; lia]|cbn; lia|].
    unfold written. cbn. rewrite set_mem_id. by apply HQ. }
  apply wp_memcpy; [split; [done| | |]| |].
  - eqapply Hb. lia.
  - rewrite le_words_length. eapply mapped_sub; [exact Hbu|lia..].
  - assert (Hd : disjoint_ranges (p + 4 * zlen m1) (4 * zlen us) (q + 4 * zlen l1) (4 * zlen vs)).
    { destruct H1 as (B & H1 & _). rewrite flat_cons in H1. destruct (st_cells _ _ _ _ H1) as [_ Hs].
      cbn [fst snd] in Hs. apply separate_app in Hs as (_ & _ & Hs).
      assert (Hall : forall a b, a ∈ words (p + 4 * zlen m1) us -> b ∈ words (q + 4 * zlen l1) vs -> apart a b).
      { intros a b Ha Hb'. rewrite Forall_forall in Hs. specialize (Hs a Ha). rewrite Forall_forall in Hs. apply Hs.
        rewrite !flat_cons. rewrite !elem_of_app. right; right. unfold flat. apply list_elem_of_In, in_concat.
        exists (words q (l1 ++ vs ++ l2)). split.
        - apply list_elem_of_In. apply (list_elem_of_fmap_2 (fun o : block => words o.1 o.2) Os (q, _)). done.
        - apply list_elem_of_In. rewrite !words_app. set_solver. }
      unfold disjoint_ranges. destruct (decide (p + 4 * zlen m1 + 4 * zlen us <= q + 4 * zlen l1)) as [|N1]; [by left|].
      destruct (decide (q + 4 * zlen l1 + 4 * zlen vs <= p + 4 * zlen m1)) as [|N2]; [by right|]. exfalso.
      set (x := Z.max (p + 4 * zlen m1) (q + 4 * zlen l1)).
      destruct (words_cover (p + 4 * zlen m1) us x) as (a & Ha & Ha'); [unfold x; lia|].
      destruct (words_cover (q + 4 * zlen l1) vs x) as (b & Hb1 & Hb2); [unfold x; lia|].
      specialize (Hall a b Ha Hb1). unfold apart, disjoint_ranges in Hall. lia. }
    unfold forward, disjoint_ranges in *. rewrite le_words_length. lia.
  - rewrite le_words_length. lia.
  - apply HQ. apply owns_split. rewrite Permutation_swap. apply owns_split. rewrite Hl in H1.
    by apply (owns_stored _ _ _ _ _ us).
Qed.

(** Allocation. *)
Lemma wp_block_calloc w K Os c k size j n (Q : Z -> world -> Prop) :
  owns w K Os c -> (alloc_fuel <= n)%nat -> k * size = 4 * Z.of_nat j -> (0 < j)%nat -> 4 * Z.of_nat j < 2147483648 ->
  (forall w', owns w' K Os c -> c < cost (4 * Z.of_nat j) -> Q 0 w') ->
  (forall q w', q <> 0 -> owns w' K ((q, replicate j 0) :: Os) (c - cost (4 * Z.of_nat j)) -> Q q w') ->
  wp n (calloc k size) w Q.
Proof.
  intros (B & H & Hc) Hn Hk Hj Hlt H0 HQ. apply (wp_calloc n B); [done|apply H|apply H|lia|..]; rewrite Hk.
  - intros w' Hm Hkept Hh Hr Hlow. apply H0; [|lia]. exists B. split; [by eapply kept_state|lia].
  - intros q w' Hm Hkept HqB Hh Hz Hr.
    assert (Hvs : Forall (holds (w_mem w')) (words q (replicate j 0))).
    { apply words_bytes. split; [|by apply Forall_replicate]. eqapply Hz.
      clear. replace (Z.to_nat (4 * Z.of_nat j)) with (4 * j)%nat by lia.
      unfold le_words. induction j as [|j IH]; [done|]. cbn [replicate map concat]. rewrite <-IH.
      replace (4 * S j)%nat with (4 + 4 * j)%nat by lia. by rewrite replicate_add. }
    assert (Hl : zlen (replicate j 0) = Z.of_nat j) by (by rewrite length_replicate).
    apply HQ.
    + intros ->. assert (Hmap := block_mapped _ _ 0 (4 * Z.of_nat j) Hh (lookup_insert_eq _ _ _)).
      destruct (Hmap 0) as [b Hb]; [lia|]. apply (mem_ok_cell _ _ _ Hm) in Hb. lia.
    + exists (<[q := 4 * Z.of_nat j]> B). rewrite flat_cons. cbn [fst snd]. split; [|lia].
      rewrite <-Hl. eapply state_grow; [done|done|done|done|by rewrite Hl|done].
Qed.
End blocks.
