(* ===== verification/Mprec.v ===== *)
(** * Big integers: stdlib/mprec.c, and quorem of stdlib/dtoa.c

    A [_Bigint] (include/sys/reent.h) is a block of the memory: [_next], [_k],
    [_maxwds], [_sign] and [_wds] in the first five words, then [_maxwds] = 2^[_k]
    words of which the first [_wds] are the number, the least significant first
    ([Pack_32] is defined, [Unsigned_Shifts] is not).  A double is its two words. *)

From S2P Require Import Prelude CMonad Words Memory StrScan MemCopy.

Definition _next (p : Z) : Z := p.
Definition _k (p : Z) : Z := p + 4.
Definition _maxwds (p : Z) : Z := p + 8.
Definition _sign (p : Z) : Z := p + 12.
Definition _wds (p : Z) : Z := p + 16.
Definition _x (p : Z) : Z := p + 20.
Definition sizeof_Bigint : Z := 24.

(** Fields of type [int]. *)
Definition load_int (p : Z) : C Z := x ← load32 p; mret (i32 x).
Definition store_int (p x : Z) : C unit := store32 p (u32 x).

(** ** stdlib/mprec.h *)

(** The macro [Storeinc]: the new value of [a]. *)
Definition Storeinc (a b c : Z) : C Z :=
  store32 a (Z.lor (u32 (Z.shiftl b 16)) (Z.land c 0xffff)) ;; mret (a + 4).

Definition Exp_shift : Z := 20.
Definition Exp_msk1 : Z := 0x100000.
Definition Exp_mask : Z := 0x7ff00000.
Definition P : Z := 53.
Definition Bias : Z := 1023.
Definition Exp_1 : Z := 0x3ff00000.
Definition Ebits : Z := 11.
Definition Frac_mask : Z := 0xfffff.
Definition kshift : Z := 5.
Definition kmask : Z := 31.

Definition _Kmax : Z := 15.

Definition hi0bits (x : Z) : Z :=
  let '(k, x) := if Z.land x 0xffff0000 =? 0 then (16, u32 (Z.shiftl x 16)) else (0, x) in
  let '(k, x) := if Z.land x 0xff000000 =? 0 then (k + 8, u32 (Z.shiftl x 8)) else (k, x) in
  let '(k, x) := if Z.land x 0xf0000000 =? 0 then (k + 4, u32 (Z.shiftl x 4)) else (k, x) in
  let '(k, x) := if Z.land x 0xc0000000 =? 0 then (k + 2, u32 (Z.shiftl x 2)) else (k, x) in
  if Z.land x 0x80000000 =? 0
  then if Z.land x 0x40000000 =? 0 then 32 else k + 1
  else k.

(** The result, and the new value of [*y]. *)
Definition lo0bits (y : Z) : Z * Z :=
  let x := y in
  if negb (Z.land x 7 =? 0) then
    if negb (Z.land x 1 =? 0) then (0, y)
    else if negb (Z.land x 2 =? 0) then (1, Z.shiftr x 1)
    else (2, Z.shiftr x 2)
  else
    let '(k, x) := if Z.land x 0xffff =? 0 then (16, Z.shiftr x 16) else (0, x) in
    let '(k, x) := if Z.land x 0xff =? 0 then (k + 8, Z.shiftr x 8) else (k, x) in
    let '(k, x) := if Z.land x 0xf =? 0 then (k + 4, Z.shiftr x 4) else (k, x) in
    let '(k, x) := if Z.land x 0x3 =? 0 then (k + 2, Z.shiftr x 2) else (k, x) in
    if Z.land x 1 =? 0 then
      let '(k, x) := (k + 1, Z.shiftr x 1) in
      if x =? 0 then (32, y) else (k, x)
    else (k, x).

(** A unit in the last place of the double with the upper word [d0]. *)
Definition ulp (d0 : Z) : Z * Z :=
  let L := i32 (u32 (Z.land d0 Exp_mask - (P - 1) * Exp_msk1)) in
  if 0 <? L then (u32 L, 0)
  else
    let L := Z.shiftr (- L) Exp_shift in
    if L <? Exp_shift then (Z.shiftr 0x80000 L, 0)
    else
      let L := L - Exp_shift in
      (0, if 31 <=? L then 1 else u32 (i32 (Z.shiftl 1 (31 - L)))).

(** [_freelist] and [_p5s] are the addresses of these fields of [*ptr]. *)
Section mprec.
Context `{build} (calloc : Z -> Z -> C Z) (_freelist _p5s : Z).

(** The table of the free lists; [Return 0] when there is no memory for it. *)
Definition Balloc_table : C (flow unit Z) :=
  l ← load32 _freelist;
  if l =? 0 then
    l ← calloc 4 (_Kmax + 1);
    store32 _freelist l ;;
    l ← load32 _freelist;
    if l =? 0 then return_ 0 else fall tt
  else fall tt.

(** A block of the free list, or a new one. *)
Definition Balloc_block (k : Z) : C (flow Z Z) :=
  l ← load32 _freelist;
  rv ← load32 (l + 4 * k);
  if negb (rv =? 0) then
    next ← load32 (_next rv);
    l ← load32 _freelist;
    store32 (l + 4 * k) next ;;
    fall rv
  else
    let x := i32 (Z.shiftl 1 k) in
    rv ← calloc 1 (u32 (sizeof_Bigint + (x - 1) * 4));
    if rv =? 0 then return_ 0 else
    store_int (_k rv) k ;;
    store_int (_maxwds rv) x ;;
    fall rv.

Definition Balloc (k : Z) : C Z :=
  _ ⇐ Balloc_table;
  rv ⇐ Balloc_block k;
  store_int (_wds rv) 0 ;;
  store_int (_sign rv) 0 ;;
  mret rv.

Definition Bfree (v : Z) : C unit :=
  if v =? 0 then mret tt else
  l ← load32 _freelist; k ← load_int (_k v); h ← load32 (l + 4 * k);
  store32 (_next v) h ;;
  l ← load32 _freelist; k ← load_int (_k v);
  store32 (l + 4 * k) v.

Definition Bcopy (x y : Z) : C unit :=
  wds ← load_int (_wds y);
  memcpy (_sign x) (_sign y) (u32 (wds * 4 + 8)) ;; mret tt.

(** The loop of [multadd]: the carry out of the number. *)
Definition multadd_step (m wds : Z) (s : Z * Z * Z) : C (Z * Z * Z + Z) :=
  let '(x, a, i) := s in
  xi ← load32 x;
  let y := u32 (Z.land xi 0xffff * m + a) in
  let z := u32 (Z.shiftr xi 16 * m + Z.shiftr y 16) in
  let a := i32 (Z.shiftr z 16) in
  store32 x (u32 (u32 (Z.shiftl z 16) + Z.land y 0xffff)) ;;
  let i := i + 1 in
  if i <? wds then next (x + 4, a, i) else brk a.

Definition multadd (b m a : Z) : C Z :=
  wds ← load_int (_wds b);
  a ← loop (multadd_step m wds) (_x b, a, 0);
  if a =? 0 then mret b else
  maxwds ← load_int (_maxwds b);
  b ← (if maxwds <=? wds then
      k ← load_int (_k b);
      b1 ← Balloc (k + 1);
      Bcopy b1 b ;;
      Bfree b ;;
      mret b1
    else mret b);
  store32 (_x b + 4 * wds) (u32 a) ;;
  store_int (_wds b) (wds + 1) ;;
  mret b.

(** [b = multadd (ptr, b, 10, *s++ - '0')] *)
Definition s2b_digit (b s : Z) : C Z := c ← load8s s; multadd b 10 (c - 48).

Definition s2b (s nd0 nd y9 : Z) : C Z :=
  let x := Z.quot (nd + 8) 9 in
  '(k, _) ← loop (fun '(k, y) =>
    if y <? x then next (k + 1, i32 (Z.shiftl y 1)) else brk (k, y)) (0, 1);
  b ← Balloc k;
  store32 (_x b) y9 ;;
  store_int (_wds b) 1 ;;
  '(b, s, i) ← (if 9 <? nd0 then
      let s := s + 9 in
      '(b, s, i) ← loop (fun '(b, s, i) =>
        b ← s2b_digit b s;
        let i := i + 1 in
        if i <? nd0 then next (b, s + 1, i) else brk (b, s + 1, i)) (b, s, 9);
      mret (b, s + 1, i)
    else mret (b, s + 10, 9));
  '(b, _, _) ← loop (fun '(b, s, i) =>
    if i <? nd then b ← s2b_digit b s; next (b, s + 1, i + 1) else brk (b, s, i)) (b, s, i);
  mret b.

Definition i2b (i : Z) : C Z :=
  b ← Balloc 1;
  store32 (_x b) (u32 i) ;;
  store_int (_wds b) 1 ;;
  mret b.

(** ** Multiplication *)

(** One step of the loop for the low half of a word [y] of the multiplier. *)
Definition mult_low_step (xae y : Z) (s : Z * Z * Z) : C (Z * Z * Z + Z * Z) :=
  let '(x, xc, carry) := s in
  vx ← load32 x; vc ← load32 xc;
  let z := u32 (Z.land vx 0xffff * y + Z.land vc 0xffff + carry) in
  let carry := Z.shiftr z 16 in
  vx ← load32 x; vc ← load32 xc;
  let z2 := u32 (Z.shiftr vx 16 * y + Z.shiftr vc 16 + carry) in
  let x := x + 4 in
  let carry := Z.shiftr z2 16 in
  xc ← Storeinc xc z2 z;
  if x <? xae then next (x, xc, carry) else brk (xc, carry).

(** The same for the high half: the words of the product are shifted. *)
Definition mult_high_step (xae y : Z) (s : Z * Z * Z * Z) : C (Z * Z * Z * Z + Z * Z) :=
  let '(x, xc, carry, z2) := s in
  vx ← load32 x; vc ← load32 xc;
  let z := u32 (Z.land vx 0xffff * y + Z.shiftr vc 16 + carry) in
  let carry := Z.shiftr z 16 in
  xc ← Storeinc xc z z2;
  vx ← load32 x; vc ← load32 xc;
  let z2 := u32 (Z.shiftr vx 16 * y + Z.land vc 0xffff + carry) in
  let x := x + 4 in
  let carry := Z.shiftr z2 16 in
  if x <? xae then next (x, xc, carry, z2) else brk (xc, z2).

Definition mult_word (xa xae xb xc0 : Z) : C unit :=
  v ← load32 xb;
  let y := Z.land v 0xffff in
  (if negb (y =? 0) then
    '(xc, carry) ← loop (mult_low_step xae y) (xa, xc0, 0); store32 xc carry
   else mret tt) ;;
  v ← load32 xb;
  let y := Z.shiftr v 16 in
  if negb (y =? 0) then
    z2 ← load32 xc0;
    '(xc, z2) ← loop (mult_high_step xae y) (xa, xc0, 0, z2); store32 xc z2
  else mret tt.

(** [for (x = c->_x, xa = x + wc; x < xa; x++) *x = 0] *)
Definition clear_words (x xe : Z) : C unit :=
  loop (fun x => if x <? xe then store32 x 0 ;; next (x + 4) else brk tt) x.

(** The number of words without the leading zeros. *)
Definition trim_step (s : Z * Z) : C (Z * Z + Z) :=
  let '(xc, wc) := s in
  if 0 <? wc then
    let xc := xc - 4 in
    v ← load32 xc;
    if v =? 0 then next (xc, wc - 1) else brk wc
  else brk wc.

(** After the exchange: [b] is not the longer number. *)
Definition mult_ordered (a b : Z) : C Z :=
  k ← load_int (_k a);
  wa ← load_int (_wds a); wb ← load_int (_wds b);
  let wc := wa + wb in
  maxwds ← load_int (_maxwds a);
  let k := if maxwds <? wc then k + 1 else k in
  c ← Balloc k;
  clear_words (_x c) (_x c + 4 * wc) ;;
  let xa := _x a in
  let xae := xa + 4 * wa in
  let xb := _x b in
  let xbe := xb + 4 * wb in
  loop (fun '(xb, xc0) =>
    if xb <? xbe then mult_word xa xae xb xc0 ;; next (xb + 4, xc0 + 4)
    else brk tt) (xb, _x c) ;;
  wc ← loop trim_step (_x c + 4 * wc, wc);
  store_int (_wds c) wc ;;
  mret c.

Definition mult (a b : Z) : C Z :=
  wa ← load_int (_wds a); wb ← load_int (_wds b);
  let '(a, b) := if wa <? wb then (b, a) else (a, b) in
  mult_ordered a b.

(** ** Powers of five *)

Definition p05 : list Z := [5; 25; 125].

Definition pow5mult_step (s : Z * Z * Z) : C (Z * Z * Z + Z) :=
  let '(b, p5, k) := s in
  b ← (if negb (Z.land k 1 =? 0) then b1 ← mult b p5; Bfree b ;; mret b1 else mret b);
  let k := Z.shiftr k 1 in
  if k =? 0 then brk b else
  p51 ← load32 (_next p5);
  p51 ← (if p51 =? 0 then
      p51 ← mult p5 p5;
      store32 (_next p5) p51 ;;
      store32 (_next p51) 0 ;;
      mret p51
    else mret p51);
  next (b, p51, k).

Definition pow5mult (b k : Z) : C Z :=
  let i := Z.land k 3 in
  b ← (if negb (i =? 0) then
      match p05 !! Z.to_nat (i - 1) with Some m => multadd b m 0 | None => fault end
    else mret b);
  let k := Z.shiftr k 2 in
  if k =? 0 then mret b else
  p5 ← load32 _p5s;
  p5 ← (if p5 =? 0 then
      p5 ← i2b 625;
      store32 _p5s p5 ;;
      store32 (_next p5) 0 ;;
      mret p5
    else mret p5);
  loop pow5mult_step (b, p5, k).

(** ** Shifts, comparison and difference *)

Definition lshift_step (k k1 xe : Z) (s : Z * Z * Z) : C (Z * Z * Z + Z * Z) :=
  let '(x, x1, z) := s in
  v ← load32 x;
  store32 x1 (Z.lor (u32 (Z.shiftl v k)) z) ;;
  let x1 := x1 + 4 in
  v ← load32 x;
  let z := Z.shiftr v k1 in
  let x := x + 4 in
  if x <? xe then next (x, x1, z) else brk (x1, z).

Definition copy_step (xe : Z) (s : Z * Z) : C (Z * Z + unit) :=
  let '(x, x1) := s in
  v ← load32 x;
  store32 x1 v ;;
  let x := x + 4 in
  let x1 := x1 + 4 in
  if x <? xe then next (x, x1) else brk tt.

Definition lshift (b k : Z) : C Z :=
  let n := Z.shiftr k 5 in
  k1 ← load_int (_k b);
  wds ← load_int (_wds b);
  let n1 := n + wds + 1 in
  i ← load_int (_maxwds b);
  '(k1, _) ← loop (fun '(k1, i) =>
    if i <? n1 then next (k1 + 1, i32 (Z.shiftl i 1)) else brk (k1, i)) (k1, i);
  b1 ← Balloc k1;
  let x1 := _x b1 in
  clear_words x1 (x1 + 4 * n) ;;
  let x1 := x1 + 4 * n in
  let x := _x b in
  wds ← load_int (_wds b);
  let xe := x + 4 * wds in
  let k := Z.land k 0x1f in
  n1 ← (if negb (k =? 0) then
      let k1 := 32 - k in
      '(x1, z) ← loop (lshift_step k k1 xe) (x, x1, 0);
      store32 x1 z ;;
      mret (if negb (z =? 0) then n1 + 1 else n1)
    else loop (copy_step xe) (x, x1) ;; mret n1);
  store_int (_wds b1) (n1 - 1) ;;
  Bfree b ;;
  mret b1.

Definition cmp_step (xa0 : Z) (s : Z * Z) : C (Z * Z + Z) :=
  let '(xa, xb) := s in
  let xa := xa - 4 in
  let xb := xb - 4 in
  va ← load32 xa; vb ← load32 xb;
  if negb (va =? vb) then va ← load32 xa; vb ← load32 xb; brk (if va <? vb then -1 else 1) else
  if xa <=? xa0 then brk 0 else next (xa, xb).

Definition cmp (a b : Z) : C Z :=
  i ← load_int (_wds a);
  j ← load_int (_wds b);
  let i := i - j in
  if negb (i =? 0) then mret i else
  loop (cmp_step (_x a)) (_x a + 4 * j, _x b + 4 * j).

Definition diff_step (xbe : Z) (s : Z * Z * Z * Z) : C (Z * Z * Z * Z + Z * Z * Z) :=
  let '(xa, xb, xc, borrow) := s in
  va ← load32 xa; vb ← load32 xb;
  let y := i32 (Z.land va 0xffff - Z.land vb 0xffff + borrow) in
  let borrow := Z.shiftr y 16 in
  va ← load32 xa; vb ← load32 xb;
  let z := i32 (Z.shiftr va 16 - Z.shiftr vb 16 + borrow) in
  let borrow := Z.shiftr z 16 in
  xc ← Storeinc xc z y;
  let xa := xa + 4 in
  let xb := xb + 4 in
  if xb <? xbe then next (xa, xb, xc, borrow) else brk (xa, xc, borrow).

Definition diff_rest_step (xae : Z) (s : Z * Z * Z) : C (Z * Z * Z + Z) :=
  let '(xa, xc, borrow) := s in
  if xa <? xae then
    va ← load32 xa;
    let y := i32 (Z.land va 0xffff + borrow) in
    let borrow := Z.shiftr y 16 in
    va ← load32 xa;
    let z := i32 (Z.shiftr va 16 + borrow) in
    let borrow := Z.shiftr z 16 in
    xc ← Storeinc xc z y;
    next (xa + 4, xc, borrow)
  else brk xc.

(** [while (!*--xc) wa--] *)
Definition diff_trim_step (s : Z * Z) : C (Z * Z + Z) :=
  let '(xc, wa) := s in
  let xc := xc - 4 in
  v ← load32 xc;
  if v =? 0 then next (xc, wa - 1) else brk wa.

(** After the exchange: [a] is the greater number, [i] the sign. *)
Definition diff_ordered (a b i : Z) : C Z :=
  k ← load_int (_k a);
  c ← Balloc k;
  store_int (_sign c) i ;;
  wa ← load_int (_wds a);
  let xa := _x a in
  let xae := xa + 4 * wa in
  wb ← load_int (_wds b);
  let xb := _x b in
  let xbe := xb + 4 * wb in
  '(xa, xc, borrow) ← loop (diff_step xbe) (xa, xb, _x c, 0);
  xc ← loop (diff_rest_step xae) (xa, xc, borrow);
  wa ← loop diff_trim_step (xc, wa);
  store_int (_wds c) wa ;;
  mret c.

Definition diff (a b : Z) : C Z :=
  i ← cmp a b;
  if i =? 0 then
    c ← Balloc 0;
    store_int (_wds c) 1 ;;
    store32 (_x c) 0 ;;
    mret c
  else
  let '(a, b, i) := if i <? 0 then (b, a, 1) else (a, b, 0) in
  diff_ordered a b i.

(** ** stdlib/dtoa.c: a digit of the quotient *)

(** [b - q * S] for the digit [q]: [times x] is [x * q] in the first loop, and
    [x] in the second one, for which the digit is 1. *)
Definition quorem_step (times : Z -> Z) (sxe : Z) (s : Z * Z * Z * Z) : C (Z * Z * Z * Z + unit) :=
  let '(sx, bx, carry, borrow) := s in
  si ← load32 sx;
  let sx := sx + 4 in
  let ys := u32 (times (Z.land si 0xffff) + carry) in
  let zs := u32 (times (Z.shiftr si 16) + Z.shiftr ys 16) in
  let carry := Z.shiftr zs 16 in
  vb ← load32 bx;
  let y := i32 (Z.land vb 0xffff - Z.land ys 0xffff + borrow) in
  let borrow := Z.shiftr y 16 in
  vb ← load32 bx;
  let z := i32 (Z.shiftr vb 16 - Z.land zs 0xffff + borrow) in
  let borrow := Z.shiftr z 16 in
  bx ← Storeinc bx z y;
  if sx <=? sxe then next (sx, bx, carry, borrow) else brk tt.

(** [if (!*bxe) { while (--bxe > bx && !*bxe) --n; b->_wds = n; }]: the new [n]. *)
Definition quorem_trim (b bxe n : Z) : C Z :=
  v ← load32 bxe;
  if v =? 0 then
    let bx := _x b in
    n ← loop (fun '(bxe, n) =>
      let bxe := bxe - 4 in
      if bx <? bxe then
        v ← load32 bxe;
        if v =? 0 then next (bxe, n - 1) else brk n
      else brk n) (bxe, n);
    store_int (_wds b) n ;;
    mret n
  else mret n.

Definition quorem (b S : Z) : C Z :=
  n ← load_int (_wds S);
  wds ← load_int (_wds b);
  if wds <? n then mret 0 else
  let n := n - 1 in
  let sx := _x S in
  let sxe := sx + 4 * n in
  let bx := _x b in
  let bxe := bx + 4 * n in
  vb ← load32 bxe;
  vs ← load32 sxe;
  if u32 (vs + 1) =? 0 then fault else
  let q := vb / u32 (vs + 1) in
  n ← (if negb (q =? 0) then
      loop (quorem_step (fun x => x * q) sxe) (sx, bx, 0, 0) ;;
      quorem_trim b bxe n
    else mret n);
  c ← cmp b S;
  if 0 <=? c then
    let q := u32 (q + 1) in
    loop (quorem_step (fun x => x) sxe) (_x S, _x b, 0, 0) ;;
    quorem_trim b (_x b + 4 * n) n ;;
    mret (i32 q)
  else mret (i32 q).

(** ** Doubles as bits *)

(** The two words of the result, and [*e]. *)
Definition b2d (a : Z) : C (Z * Z * Z) :=
  let xa0 := _x a in
  wds ← load_int (_wds a);
  let xa := xa0 + 4 * wds in
  let word (xa : Z) : C (Z * Z) :=
    if xa0 <? xa then v ← load32 (xa - 4); mret (v, xa - 4) else mret (0, xa) in
  y ← load32 (xa - 4);
  let xa := xa - 4 in
  let k := hi0bits y in
  let e := 32 - k in
  if k <? Ebits then
    let d0 := Z.lor Exp_1 (Z.shiftr y (Ebits - k)) in
    '(w, xa) ← word xa;
    let d1 := Z.lor (u32 (Z.shiftl y (32 - Ebits + k))) (Z.shiftr w (Ebits - k)) in
    mret (d0, d1, e)
  else
    '(z, xa) ← word xa;
    let k := k - Ebits in
    if negb (k =? 0) then
      let d0 := Z.lor (Z.lor Exp_1 (u32 (Z.shiftl y k))) (Z.shiftr z (32 - k)) in
      '(y, xa) ← word xa;
      let d1 := Z.lor (u32 (Z.shiftl z k)) (Z.shiftr y (32 - k)) in
      mret (d0, d1, e)
    else mret (Z.lor Exp_1 y, z, e).

(** The number, [*e] and [*bits]. *)
Definition d2b (d0 d1 : Z) : C (Z * Z * Z) :=
  b ← Balloc 1;
  let x := _x b in
  let z := Z.land d0 Frac_mask in
  let d0 := Z.land d0 0x7fffffff in
  let de := i32 (Z.shiftr d0 Exp_shift) in
  let z := if negb (de =? 0) then Z.lor z Exp_msk1 else z in
  '(k, i) ← (if negb (d1 =? 0) then
      let '(k, y) := lo0bits d1 in
      z ← (if negb (k =? 0) then
          store32 x (Z.lor y (u32 (Z.shiftl z (32 - k)))) ;; mret (Z.shiftr z k)
        else store32 x y ;; mret z);
      store32 (x + 4) z ;;
      let i := if negb (z =? 0) then 2 else 1 in
      store_int (_wds b) i ;;
      mret (k, i)
    else
      let '(k, z) := lo0bits z in
      store32 x z ;;
      store_int (_wds b) 1 ;;
      mret (k + 32, 1));
  if negb (de =? 0) then mret (b, de - Bias - (P - 1) + k, P - k)
  else
    v ← load32 (x + 4 * (i - 1));
    mret (b, de - Bias - (P - 1) + 1 + k, 32 * i - hi0bits v).

(** ** Bits of a number *)

Definition any_on (b k : Z) : C Z :=
  let x := _x b in
  nwds ← load_int (_wds b);
  let n := Z.shiftr k kshift in
  n ⇐ (if nwds <? n then fall nwds
    else if (n <? nwds) && negb (Z.land k kmask =? 0) then
      let k := Z.land k kmask in
      x2 ← load32 (x + 4 * n);
      let x1 := u32 (Z.shiftl (Z.shiftr x2 k) k) in
      if negb (x1 =? x2) then return_ 1 else fall n
    else fall n);
  loop (fun p =>
    if x <? p then
      let p := p - 4 in
      v ← load32 p;
      if negb (v =? 0) then brk 1 else next p
    else brk 0) (x + 4 * n).

Definition copybits (c n b : Z) : C unit :=
  let ce := c + 4 * (Z.shiftr (n - 1) kshift + 1) in
  let x := _x b in
  wds ← load_int (_wds b);
  let xe := x + 4 * wds in
  c ← loop (fun '(c, x) =>
    if x <? xe then v ← load32 x; store32 c v ;; next (c + 4, x + 4) else brk c) (c, x);
  clear_words c ce.
End mprec.
