(* ===== verification/MprecSpec.v ===== *)
(** * Big integers: numbers, and the blocks that hold them

    The value of a list of words, the free lists of [Balloc], and the triples of
    the functions of Mprec. *)

From S2P Require Import Prelude CMonad Words Memory StrScan MemCopy Heap Blocks Mprec.

(** ** Numbers *)

Abbreviation word := 4294967296 (only parsing).

Fixpoint val (xs : list Z) : Z := match xs with [] => 0 | d :: xs' => d + word * val xs' end.

Abbreviation all_words xs := (Forall (fun v => is_word v) xs).

(** No leading zero words. *)
Definition normal (xs : list Z) : Prop := forall d, last xs = Some d -> d <> 0.

Lemma val_app xs ys : val (xs ++ ys) = val xs + word ^ zlen xs * val ys.
Proof.
  induction xs as [|d xs IH]; cbn [val app length]; [change (word ^ Z.of_nat 0) with 1; lia|].
  rewrite IH, Nat2Z.inj_succ, Z.pow_succ_r by lia. ring.
Qed.

Lemma val_range xs : all_words xs -> 0 <= val xs < word ^ zlen xs.
Proof.
  induction 1 as [|d xs Hd _ IH]; cbn [val length]; [change (word ^ Z.of_nat 0) with 1; lia|].
  rewrite Nat2Z.inj_succ, Z.pow_succ_r by lia. nia.
Qed.

Lemma val_zeros k : val (replicate k 0) = 0.
Proof. induction k as [|k IH]; [done|]. cbn [replicate val]. lia. Qed.

Lemma normal_low xs : all_words xs -> normal xs -> xs <> [] -> word ^ (zlen xs - 1) <= val xs.
Proof.
  intros Hw Hn Hne. destruct xs as [|d xs _] using rev_ind; [done|].
  apply Forall_app in Hw as [Hw Hd]. apply Forall_cons in Hd as [Hd _].
  rewrite val_app, length_app. cbn [val length]. pose proof (val_range xs Hw).
  assert (d <> 0) by (apply Hn; by rewrite last_snoc).
  replace (Z.of_nat (length xs + 1) - 1) with (zlen xs) by lia. nia.
Qed.

Lemma normal_of_val xs : all_words xs -> word ^ (zlen xs - 1) <= val xs -> normal xs.
Proof.
  intros Hw Hv d Hd. apply last_Some in Hd as [l ->]. apply Forall_app in Hw as [Hw _].
  rewrite val_app, length_app in Hv. cbn [val length] in Hv. pose proof (val_range l Hw).
  replace (Z.of_nat (length l + 1) - 1) with (zlen l) in Hv by lia. nia.
Qed.

(** Normal numbers with the same value have the same words. *)
Lemma val_len xs ys : all_words xs -> all_words ys -> normal ys -> (length xs < length ys)%nat -> val xs < val ys.
Proof.
  intros Hx Hy Hn Hl. pose proof (val_range xs Hx).
  assert (word ^ (zlen ys - 1) <= val ys) by (apply normal_low; [done..|intros ->; cbn in Hl; lia]).
  assert (word ^ zlen xs <= word ^ (zlen ys - 1)) by (apply Z.pow_le_mono_r; lia). lia.
Qed.

(** *** Half words *)

Lemma land_low x : Z.land x 0xffff = x mod 65536.
Proof. change 0xffff with (Z.ones 16). by rewrite Z.land_ones. Qed.
Lemma shr_half x : Z.shiftr x 16 = x / 65536.
Proof. by rewrite Z.shiftr_div_pow2. Qed.
Lemma shl_half x : Z.shiftl x 16 = x * 65536.
Proof. by rewrite Z.shiftl_mul_pow2. Qed.

(** [hi << 16 | lo] *)
Lemma half_words b c : Z.lor (u32 (Z.shiftl b 16)) (Z.land c 0xffff) = b mod 65536 * 65536 + c mod 65536.
Proof.
  rewrite land_low, shl_half. replace (u32 (b * 65536)) with (b mod 65536 * 65536) by (unfold u32; lia).
  change 65536 with (2 ^ 16). apply lor_disjoint; lia.
Qed.

Lemma half_words_range b c : is_word (b mod 65536 * 65536 + c mod 65536).
Proof. lia. Qed.

(** ** The blocks of numbers *)

(** A [_Bigint] with the words [xs] of the number and [ys] that are left. *)
Definition bobj (nx k s : Z) (xs ys : list Z) : list Z := [nx; k; 2 ^ k; s; zlen xs] ++ xs ++ ys.

Record bigint (k s : Z) (xs : list Z) (o : list Z) : Prop := {
  bi_class : 0 <= k <= _Kmax;
  bi_obj : exists nx ys, o = bobj nx k s xs ys /\ zlen xs + zlen ys = 2 ^ k;
}.

Lemma pow2_class k : 0 <= k <= 15 -> 1 <= 2 ^ k <= 32768.
Proof.
  intros Hk. change 1 with (2 ^ 0). change 32768 with (2 ^ 15).
  split; apply Z.pow_le_mono_r; lia.
Qed.

(** The free list of a class: blocks linked through [_next]. *)
Fixpoint chain (k h : Z) (c : list block) : Prop :=
  match c with
  | [] => h = 0
  | (p, o) :: c' => h = p /\ p <> 0 /\ exists nx s wds x,
      o = [nx; k; 2 ^ k; s; wds] ++ x /\ zlen x = 2 ^ k /\ chain k nx c'
  end.

Section mprec.
Context {malloc free} {A : allocator malloc free} {calloc} {Z_ : zeroing A calloc}.
Context {BC : build} {_freelist : Z}.
Implicit Types (w : world) (K : list (Z * list Z)) (Os P : list block) (c : Z) (xs ys : list Z).

(** What [Balloc] owns: the table of the free lists and their blocks, once it is
    set up. *)
Definition pool (b : bool) P : Prop :=
  if b then exists fl hs cs, fl <> 0 /\ length hs = 16%nat /\ length cs = 16%nat /\
    (forall k h l, hs !! k = Some h -> cs !! k = Some l -> chain (Z.of_nat k) h l) /\
    P = (_freelist, [fl]) :: (fl, hs) :: concat cs
  else P = [(_freelist, [0])].

(** The client has the blocks [Os], the data [K], and room [c]. *)
Definition mp (b : bool) w K Os c : Prop := exists P, pool b P /\ owns w K (Os ++ P) c.

(** The same with the heads of the free lists and their blocks. *)
Record mp_lists w K Os c (fl : Z) (hs : list Z) (cs : list (list block)) : Prop := {
  ml_table : fl <> 0;
  ml_heads : length hs = 16%nat;
  ml_lists : length cs = 16%nat;
  ml_chain : forall k h l, hs !! k = Some h -> cs !! k = Some l -> chain (Z.of_nat k) h l;
  ml_owns : owns w K (Os ++ (_freelist, [fl]) :: (fl, hs) :: concat cs) c;
}.

Lemma mp_listed w K Os c : mp true w K Os c <-> exists fl hs cs, mp_lists w K Os c fl hs cs.
Proof.
  split.
  - intros (P & (fl & hs & cs & H1 & H2 & H3 & H4 & ->) & H). by exists fl, hs, cs.
  - intros (fl & hs & cs & []). eexists. split; [|done]. by exists fl, hs, cs.
Qed.

#[export] Instance mp_proper b w K : Proper (Permutation ==> eq ==> iff) (mp b w K).
Proof.
  intros Os Os' HP c ? <-. unfold mp. split; intros (P & HPP & H); exists P; (split; [done|]).
  - by rewrite <-HP.
  - by rewrite HP.
Qed.

Lemma mp_perm b w K Os Os' c : mp b w K Os c -> Os ≡ₚ Os' -> mp b w K Os' c.
Proof. by intros H <-. Qed.

Lemma mp_weaken b w K Os c c' : mp b w K Os c -> c' <= c -> mp b w K Os c'.
Proof. intros (P & HP & H) Hle. exists P. split; [done|by eapply owns_weaken]. Qed.

Lemma wp_load b w K Os c p l1 v l2 a n (Q : Z -> world -> Prop) :
  mp b w K Os c -> (p, l1 ++ v :: l2) ∈ Os -> a = p + 4 * zlen l1 -> Q v w -> wp n (load32 a) w Q.
Proof. intros (P & _ & H) Hin. eapply wp_block_load; [exact H|apply elem_of_app; left; exact Hin]. Qed.

Lemma wp_load_int b w K Os c p l1 v l2 a n (Q : Z -> world -> Prop) :
  mp b w K Os c -> (p, l1 ++ v :: l2) ∈ Os -> a = p + 4 * zlen l1 -> 0 <= v < 2147483648 -> Q v w ->
  wp n (load_int a) w Q.
Proof.
  intros H Hin Ha Hv HQ. unfold load_int. wp_step. eapply wp_load; [done..|]. wp_step.
  by rewrite i32_small by lia.
Qed.

Lemma wp_store b w K Os c p l1 v l2 v' a n (Q : unit -> world -> Prop) :
  mp b w K ((p, l1 ++ v :: l2) :: Os) c -> a = p + 4 * zlen l1 -> is_word v' ->
  (forall w', mp b w' K ((p, l1 ++ v' :: l2) :: Os) c -> Q tt w') -> wp n (store32 a v') w Q.
Proof.
  intros (P & HP & H) Ha Hv HQ. eapply wp_block_store; [exact H|done|done|].
  intros w' H'. apply HQ. by exists P.
Qed.

Lemma wp_store_int b w K Os c p l1 v l2 v' a n (Q : unit -> world -> Prop) :
  mp b w K ((p, l1 ++ v :: l2) :: Os) c -> a = p + 4 * zlen l1 -> 0 <= v' < 2147483648 ->
  (forall w', mp b w' K ((p, l1 ++ v' :: l2) :: Os) c -> Q tt w') -> wp n (store_int a v') w Q.
Proof.
  intros H Ha Hv HQ. unfold store_int. rewrite u32_small by lia. eapply wp_store; [exact H|done|lia|done].
Qed.

Lemma mp_words b w K Os c p vs : mp b w K Os c -> (p, vs) ∈ Os -> all_words vs.
Proof. intros (P & _ & H) Hin. eapply owns_words; [exact H|apply elem_of_app; left; exact Hin]. Qed.

Lemma mp_range b w K Os c p vs : mp b w K Os c -> (p, vs) ∈ Os -> vs <> [] ->
  0 < p /\ p + 4 * zlen vs <= 1073741824.
Proof. intros (P & _ & H) Hin. eapply owns_range; [exact H|apply elem_of_app; left; exact Hin]. Qed.

(** ** Balloc and Bfree *)

Definition kcost (k : Z) : Z := cost (20 + 4 * 2 ^ k).
Definition bcost (b : bool) (k : Z) : Z := (if b then 0 else cost 64) + kcost k.

Lemma concat_insert (cs : list (list block)) k (c c' : list block) : cs !! k = Some c ->
  concat (<[k := c']> cs) ≡ₚ c' ++ concat (<[k := []]> cs).
Proof.
  revert k. induction cs as [|d cs IH]; intros [|k] Hk; cbn [concat insert list_insert] in *; [done..| |].
  - done.
  - rewrite (IH k) by done. rewrite !app_assoc. apply Permutation_app_tail, Permutation_app_comm.
Qed.

Lemma chain_class k h (c : list block) p o : chain k h c -> (p, o) ∈ c -> exists nx s wds x,
  o = [nx; k; 2 ^ k; s; wds] ++ x /\ zlen x = 2 ^ k.
Proof.
  revert h. induction c as [|[q o'] c IH]; intros h; [by intros _ ?%elem_of_nil|].
  intros (-> & _ & nx & s & wds & x & -> & Hx & Hc) [[= -> ->]|Hin]%elem_of_cons; [by exists nx, s, wds, x|eauto].
Qed.

(** Changing one free list. *)
Lemma pool_set_lists fl hs cs k h (c : list block) w K Os r : fl <> 0 -> length hs = 16%nat -> length cs = 16%nat ->
  (forall k h l, hs !! k = Some h -> cs !! k = Some l -> chain (Z.of_nat k) h l) ->
  (k < 16)%nat -> chain (Z.of_nat k) h c ->
  owns w K ((fl, <[k := h]> hs) :: (_freelist, [fl]) :: (c ++ Os) ++ concat (<[k := []]> cs)) r ->
  mp_lists w K Os r fl (<[k := h]> hs) (<[k := c]> cs).
Proof.
  intros Hfl Hhs Hcs Hch Hk Hc H. split; rewrite ?length_insert; try done.
  - intros j h' c' Hj Hj'. destruct (decide (j = k)) as [->|Hne].
    + rewrite list_lookup_insert_eq in Hj by lia. rewrite list_lookup_insert_eq in Hj' by lia. by simplify_eq.
    + rewrite list_lookup_insert_ne in Hj by done. rewrite list_lookup_insert_ne in Hj' by done. eauto.
  - destruct (lookup_lt_is_Some_2 cs k) as [c0 Hc0]; [lia|]. rewrite (concat_insert cs k c0 c) by done.
    eapply owns_proper; [|reflexivity|exact H].
    perm.
Qed.

Lemma pool_set fl hs cs k h (c : list block) w K Os r : fl <> 0 -> length hs = 16%nat -> length cs = 16%nat ->
  (forall k h l, hs !! k = Some h -> cs !! k = Some l -> chain (Z.of_nat k) h l) ->
  (k < 16)%nat -> chain (Z.of_nat k) h c ->
  owns w K ((fl, <[k := h]> hs) :: (_freelist, [fl]) :: (c ++ Os) ++ concat (<[k := []]> cs)) r ->
  mp true w K Os r.
Proof. intros. apply mp_listed. by do 3 eexists; eapply pool_set_lists. Qed.

(** The first call sets up the table. *)
Lemma wp_setup b w K Os c n (Q : flow unit Z -> world -> Prop) :
  mp b w K Os c -> (alloc_fuel <= n)%nat ->
  (forall b' w', mp b' w' K Os c -> c < (if b then 0 else cost 64) -> Q (Return 0) w') ->
  (forall w', mp true w' K Os (c - (if b then 0 else cost 64)) -> Q (Fall tt) w') ->
  wp n (Balloc_table calloc _freelist) w Q.
Proof.
  intros (P & HP & H) Hn H0 HQ. unfold Balloc_table. wp_step. destruct b.
  - pose proof HP as (fl & hs & cs & Hfl & _ & _ & _ & ->).
    eapply (wp_block_load _ _ _ _ _freelist [] fl []); [exact H|in_list|cbn; lia|].
    rewrite (proj2 (Z.eqb_neq fl 0)) by done. wp_steps. apply HQ. eapply mp_weaken; [by eexists|lia].
  - cbn in HP. subst P. eapply (wp_block_load _ _ _ _ _freelist [] 0 []); [exact H|in_list|cbn; lia|].
    change (0 =? 0) with true. wp_steps.
    eapply (wp_block_calloc _ _ _ _ _ _ 16); [exact H|done|done|lia|lia|..].
    + intros w1 H1 Hlow. wp_step.
      eapply (wp_block_store w1 _ Os _ _freelist [] 0 [] 0); [eapply owns_perm; [exact H1|perm]|cbn; lia|lia|].
      intros w2 H2. wp_step.
      eapply (wp_block_load _ _ _ _ _freelist [] 0 []); [exact H2|in_list|cbn; lia|].
      change (0 =? 0) with true. wp_steps. apply (H0 false); [|done]. exists [(_freelist, [0])]. split; [done|].
      eapply owns_perm; [exact H2|perm].
    + intros q w1 Hq H1. wp_step.
      assert (Hqr : is_word q).
      { destruct (owns_range _ _ _ _ q (replicate 16 0) H1) as [Hr1 Hr2]; [in_list|done|]. cbn in Hr2. lia. }
      eapply (wp_block_store w1 _ ((q, replicate 16 0) :: Os) _ _freelist [] 0 [] q);
        [eapply owns_perm; [exact H1|perm]|cbn; lia|done|]. intros w2 H2. wp_step.
      eapply (wp_block_load _ _ _ _ _freelist [] q []); [exact H2|in_list|cbn; lia|].
      rewrite (proj2 (Z.eqb_neq q 0)) by done. wp_steps. apply HQ.
      exists ((_freelist, [q]) :: (q, replicate 16 0) :: concat (replicate 16 [])). split.
      * exists q, (replicate 16 0), (replicate 16 []). split_and!; [done..| |done].
        intros k h l [-> _]%lookup_replicate_1 [-> _]%lookup_replicate_1. done.
      * eapply owns_perm; [exact H2|cbn [replicate concat app]; perm].
Qed.

(** A block of a free list; the allocator is not asked. *)
Lemma wp_take_listed calloc' w K Os c fl hs cs k q o ch n (Q : flow Z Z -> world -> Prop) :
  mp_lists w K Os c fl hs cs -> 0 <= k <= 15 -> cs !! Z.to_nat k = Some ((q, o) :: ch) ->
  (forall nx s wds x w', q <> 0 -> zlen x = 2 ^ k ->
    mp true w' K ((q, [nx; k; 2 ^ k; s; wds] ++ x) :: Os) c -> Q (Fall q) w') ->
  wp n (Balloc_block calloc' _freelist k) w Q.
Proof.
  intros [Hfl Hhs Hcs Hch H] Hk Hc HQ. set (i := Z.to_nat k) in *.
  destruct (lookup_lt_is_Some_2 hs i) as [h Hh]; [lia|].
  pose proof (Hch i h _ Hh Hc) as Hchain. replace (Z.of_nat i) with k in Hchain by lia.
  pose proof (concat_insert cs i _ ((q, o) :: ch) Hc) as Hcat. rewrite list_insert_id in Hcat by done.
  destruct Hchain as (-> & Hq & nx & s & wds & x & -> & Hx & Hchain).
  unfold Balloc_block. wp_step. eapply (wp_block_load _ _ _ _ _freelist [] fl []); [exact H|in_list|cbn; lia|]. wp_step.
  eapply (wp_block_load_at _ _ _ _ fl hs i); [exact H|in_list|done|lia|].
  rewrite (proj2 (Z.eqb_neq q 0)) by done. wp_steps.
  assert (Hin : (q, [nx; k; 2 ^ k; s; wds] ++ x) ∈ concat cs) by (rewrite Hcat; left).
  eapply (wp_block_load _ _ _ _ q []); [exact H|in_list|unfold _next; cbn; lia|]. wp_step.
  eapply (wp_block_load _ _ _ _ _freelist [] fl []); [exact H|in_list|cbn; lia|]. wp_step.
  assert (Hnx : is_word nx).
  { eapply owns_words in H as [Hw _]; [|apply elem_of_app; right; right; right; exact Hin].
    by apply Forall_cons in Hw as [Hw _]. }
  eapply (wp_block_store_at w K (Os ++ (_freelist, [fl]) :: concat cs) c fl hs i nx);
    [eapply owns_perm; [exact H|perm]|lia|lia|done|].
  intros w1 H1. wp_steps. apply (HQ nx s wds x); [done..|].
  eapply (pool_set fl hs cs i nx ch); [done..|lia|by replace (Z.of_nat i) with k by lia|].
  eapply owns_perm; [exact H1|]. rewrite Hcat. perm.
Qed.

(** A block of a free list, or from the allocator. *)
Lemma wp_take w K Os c k n (Q : flow Z Z -> world -> Prop) :
  mp true w K Os c -> (alloc_fuel <= n)%nat -> 0 <= k <= 15 ->
  (forall w', mp true w' K Os c -> c < kcost k -> Q (Return 0) w') ->
  (forall p nx s wds x w', p <> 0 -> zlen x = 2 ^ k ->
    mp true w' K ((p, [nx; k; 2 ^ k; s; wds] ++ x) :: Os) (c - kcost k) -> Q (Fall p) w') ->
  wp n (Balloc_block calloc _freelist k) w Q.
Proof.
  intros (P & (fl & hs & cs & Hfl & Hhs & Hcs & Hch & ->) & H) Hn Hk H0 HQ.
  pose proof (pow2_class k Hk) as Hpow. set (i := Z.to_nat k).
  destruct (lookup_lt_is_Some_2 hs i) as [h Hh]; [lia|]. destruct (lookup_lt_is_Some_2 cs i) as [ch Hc]; [lia|].
  pose proof (Hch i h ch Hh Hc) as Hchain. replace (Z.of_nat i) with k in Hchain by lia.
  pose proof (concat_insert cs i ch ch Hc) as Hcat. rewrite list_insert_id in Hcat by done.
  destruct ch as [|[q o] ch].
  - unfold Balloc_block. wp_step. eapply (wp_block_load _ _ _ _ _freelist [] fl []); [exact H|in_list|cbn; lia|]. wp_step.
    eapply (wp_block_load_at _ _ _ _ fl hs i); [exact H|in_list|done|lia|]. cbn in Hchain. subst h. change (0 =? 0) with true. cbn [negb].
    assert (Hone : i32 (Z.shiftl 1 k) = 2 ^ k) by (rewrite Z.shiftl_1_l, i32_small; lia). rewrite Hone. cbv zeta.
    wp_step. rewrite u32_small by (unfold sizeof_Bigint; lia). set (j := Z.to_nat (2 ^ k)).
    assert (Hj : 4 * Z.of_nat (5 + j) = 20 + 4 * 2 ^ k) by lia.
    eapply (wp_block_calloc _ _ _ _ _ _ (5 + j)); [exact H|done|unfold sizeof_Bigint; lia|lia|lia|..]; rewrite Hj.
    + intros w1 H1 Hlow. change (0 =? 0) with true. wp_steps. apply H0; [|done].
      eapply (pool_set fl hs cs i 0 []); [done..|lia|done|]. rewrite list_insert_id by done.
      eapply owns_perm; [exact H1|]. rewrite Hcat. perm.
    + intros p w1 Hp H1. rewrite (proj2 (Z.eqb_neq p 0)) by done. wp_steps.
      rewrite replicate_add in H1. change (replicate 5 0) with [0; 0; 0; 0; 0] in H1. cbn [app] in H1.
      unfold store_int. rewrite !u32_small by lia.
      eapply (wp_block_store _ _ _ _ p [0] 0 (0 :: 0 :: 0 :: replicate j 0)); [exact H1|unfold _k; cbn; lia|lia|].
      intros w2 H2. wp_step. cbn [app] in H2.
      eapply (wp_block_store _ _ _ _ p [0; k] 0 (0 :: 0 :: replicate j 0)); [exact H2|unfold _maxwds; cbn; lia|lia|].
      intros w3 H3. wp_step. apply (HQ _ 0 0 0 (replicate j 0)); [done|rewrite length_replicate; lia|].
      eapply (pool_set fl hs cs i 0 []); [done..|lia|done|]. rewrite list_insert_id by done.
      eapply owns_perm; [exact H3|]. rewrite Hcat. cbn [app]. perm.
  - eapply (wp_take_listed calloc w K Os c fl hs cs k q o ch); [by split|done|done|].
    intros nx s wds x w' Hq Hx Hw'. eapply HQ; [done..|]. eapply mp_weaken; [exact Hw'|].
    pose proof (cost_pos (20 + 4 * 2 ^ k)). unfold kcost. lia.
Qed.

Lemma wp_cleared w K Os c p nx k m s wds x n (Q : Z -> world -> Prop) :
  mp true w K ((p, [nx; k; m; s; wds] ++ x) :: Os) c ->
  (forall w', mp true w' K ((p, [nx; k; m; 0; 0] ++ x) :: Os) c -> Q p w') ->
  wp n (store_int (_wds p) 0 ;; store_int (_sign p) 0 ;; mret p) w Q.
Proof.
  intros H HQ. wp_step.
  eapply (wp_store_int _ _ _ _ _ p [nx; k; m; s] wds x); [exact H|unfold _wds; cbn; lia|lia|].
  intros w3 H3. wp_step.
  eapply (wp_store_int _ _ _ _ _ p [nx; k; m] s (0 :: x)); [exact H3|unfold _sign; cbn; lia|lia|].
  intros w4 H4. wp_step. by apply HQ.
Qed.

(** From a list with a block, whatever the allocator. *)
Lemma wp_Balloc_listed calloc' w K Os c fl hs cs k q o ch n (Q : Z -> world -> Prop) :
  mp_lists w K Os c fl hs cs -> 0 <= k <= 15 -> cs !! Z.to_nat k = Some ((q, o) :: ch) ->
  (forall nx x w', zlen x = 2 ^ k -> mp true w' K ((q, [nx; k; 2 ^ k; 0; 0] ++ x) :: Os) c -> Q q w') ->
  wp n (Balloc calloc' _freelist k) w Q.
Proof.
  intros H Hk Hc HQ. unfold Balloc, Balloc_table. wp_step. wp_step.
  eapply (wp_block_load _ _ _ _ _freelist [] fl []); [apply H|in_list|cbn; lia|].
  rewrite (proj2 (Z.eqb_neq fl 0)) by apply H. wp_steps.
  eapply wp_take_listed; [exact H|done|exact Hc|]. intros nx s wds x w' Hq Hx Hw'.
  eapply wp_cleared; [exact Hw'|]. intros w2 H2. by eapply HQ.
Qed.

Lemma wp_Balloc b w K Os c k n (Q : Z -> world -> Prop) :
  mp b w K Os c -> (alloc_fuel <= n)%nat -> 0 <= k <= 15 ->
  (forall b' w', mp b' w' K Os (c - bcost b k) -> c < bcost b k -> Q 0 w') ->
  (forall p nx x w', p <> 0 -> zlen x = 2 ^ k ->
    mp true w' K ((p, [nx; k; 2 ^ k; 0; 0] ++ x) :: Os) (c - bcost b k) -> Q p w') ->
  wp n (Balloc calloc _freelist k) w Q.
Proof.
  intros H Hn Hk H0 HQ. unfold Balloc.
  pose proof (pow2_class k Hk) as Hpow. assert (Hb : bcost b k = (if b then 0 else cost 64) + kcost k) by done.
  pose proof (cost_pos 64) as H64. pose proof (cost_pos (20 + 4 * 2 ^ k)) as Hck. fold (kcost k) in Hck.
  wp_step. eapply wp_setup; [exact H|done|..].
  { intros b' w1 H1 Hlow. apply (H0 b'); [eapply mp_weaken; [exact H1|]|]; destruct b; lia. }
  intros w1 H1. wp_step. eapply wp_take; [exact H1|done|done|..].
  { intros w2 H2 Hlow. apply (H0 true); [eapply mp_weaken; [exact H2|]|]; lia. }
  intros p nx s wds x w2 Hp Hx H2. eapply wp_cleared; [exact H2|].
  intros w3 H3. apply (HQ p nx x); [done..|]. eapply mp_weaken; [exact H3|lia].
Qed.

(** Freeing a number puts it at the head of its list. *)
Lemma wp_Bfree_listed w K Os c p k s xs o n (Q : unit -> world -> Prop) :
  mp true w K ((p, o) :: Os) c -> bigint k s xs o ->
  (forall w' fl hs cs o' ch, mp_lists w' K Os c fl hs cs -> cs !! Z.to_nat k = Some ((p, o') :: ch) -> Q tt w') -> wp n (Bfree _freelist p) w Q.
Proof.
  intros H [Hk (nx & ys & -> & Hl)] HQ.
  assert (Hp : 0 < p < 1073741824).
  { destruct (mp_range _ _ _ _ _ _ _ H (list_elem_of_here _ _)) as [Hp1 Hp2]; [done|].
    unfold bobj in Hp2. rewrite length_app in Hp2. cbn [length] in Hp2. lia. }
  destruct H as (P & (fl & hs & cs & Hfl & Hhs & Hcs & Hch & ->) & H). unfold _Kmax in Hk.
  pose proof (pow2_class k Hk) as Hpow. set (i := Z.to_nat k).
  destruct (lookup_lt_is_Some_2 hs i) as [h Hh]; [lia|]. destruct (lookup_lt_is_Some_2 cs i) as [ch Hc]; [lia|].
  pose proof (Hch i h ch Hh Hc) as Hchain. replace (Z.of_nat i) with k in Hchain by lia.
  pose proof (concat_insert cs i ch ch Hc) as Hcat. rewrite list_insert_id in Hcat by done.
  unfold Bfree, load_int. rewrite (proj2 (Z.eqb_neq p 0)) by lia. unfold bobj in H. cbn [app] in H.
  assert (Hhw : is_word h).
  { destruct (owns_words _ _ _ _ fl hs H) as [Hw _]; [in_list|].
    rewrite Forall_lookup in Hw. by apply (Hw i). }
  wp_step. eapply (wp_block_load _ _ _ _ _freelist [] fl []); [exact H|in_list|cbn; lia|]. wp_steps.
  eapply (wp_block_load _ _ _ _ p [nx] k); [exact H|in_list|unfold _k; cbn; lia|]. wp_steps.
  rewrite i32_small by lia.
  eapply (wp_block_load_at _ _ _ _ fl hs i); [exact H|in_list|done|lia|]. wp_steps.
  eapply (wp_block_store _ _ _ _ p [] nx); [exact H|unfold _next; cbn; lia|done|]. intros w1 H1. wp_steps.
  eapply (wp_block_load _ _ _ _ _freelist [] fl []); [exact H1|in_list|cbn; lia|]. wp_steps.
  eapply (wp_block_load _ _ _ _ p [h] k); [exact H1|in_list|unfold _k; cbn; lia|]. wp_steps.
  rewrite i32_small by lia. cbn [app] in H1.
  eapply (wp_block_store_at w1 K ((p, h :: k :: 2 ^ k :: s :: zlen xs :: xs ++ ys) :: Os ++ (_freelist, [fl]) :: concat cs)
    c fl hs i p); [eapply owns_perm; [exact H1|perm]|lia|lia|lia|].
  intros w2 H2. set (o := h :: k :: 2 ^ k :: s :: zlen xs :: xs ++ ys).
  eapply (HQ w2 fl (<[i := p]> hs) (<[i := (p, o) :: ch]> cs)); [|by rewrite list_lookup_insert_eq by lia].
  eapply (pool_set_lists fl hs cs i p ((p, o) :: ch)); [done..|lia| |].
  - replace (Z.of_nat i) with k by lia. cbn [chain]. split_and!; [done|lia|].
    exists h, s, (zlen xs), (xs ++ ys). rewrite length_app. split_and!; [done|lia|done].
  - eapply owns_perm; [exact H2|]. rewrite Hcat. perm.
Qed.

Lemma wp_Bfree w K Os c p k s xs o n (Q : unit -> world -> Prop) :
  mp true w K ((p, o) :: Os) c -> bigint k s xs o ->
  (forall w', mp true w' K Os c -> Q tt w') -> wp n (Bfree _freelist p) w Q.
Proof.
  intros H Ho HQ. eapply wp_Bfree_listed; [exact H|exact Ho|]. intros w' fl hs cs o' ch Hw' _.
  apply HQ, mp_listed. by exists fl, hs, cs.
Qed.

(** ** multadd *)

Lemma multadd_limb x m a : is_word x -> 0 <= m < 65536 -> 0 <= a < 65536 ->
  let y := u32 (Z.land x 0xffff * m + a) in
  let z := u32 (Z.shiftr x 16 * m + Z.shiftr y 16) in
  let a' := i32 (Z.shiftr z 16) in
  let d := u32 (u32 (Z.shiftl z 16) + Z.land y 0xffff) in
  is_word d /\ 0 <= a' < 65536 /\ d + word * a' = x * m + a.
Proof.
  intros Hx Hm Ha. cbv zeta. rewrite !land_low, !shr_half, !shl_half.
  set (lo := x mod 65536). set (hi := x / 65536).
  assert (Hlo : 0 <= lo < 65536) by (unfold lo; lia). assert (Hhi : 0 <= hi < 65536) by (unfold hi; lia).
  replace (x * m) with (lo * m + 65536 * (hi * m)) by (unfold lo, hi; lia).
  assert (Hp : 0 <= lo * m <= 65535 * 65535) by nia. assert (Hq : 0 <= hi * m <= 65535 * 65535) by nia.
  rewrite (u32_small (lo * m + a)) by lia. rewrite (u32_small (hi * m + _)) by lia.
  rewrite i32_small by lia. unfold u32. lia.
Qed.

Lemma wp_multadd_loop b K Os c p m wds xs ys n (Q : Z -> world -> Prop) :
  0 <= m < 65536 -> forall w pre a i k, xs <> [] -> 0 <= a < 65536 -> (length xs <= k)%nat ->
  wds = i + zlen xs -> mp b w K ((p, pre ++ xs ++ ys) :: Os) c ->
  (forall xs' a' w', length xs' = length xs -> 0 <= a' < 65536 -> 
    val xs' + word ^ zlen xs * a' = val xs * m + a -> mp b w' K ((p, pre ++ xs' ++ ys) :: Os) c -> Q a' w') ->
  wp n (loop_k k (multadd_step m wds) (p + 4 * zlen pre, a, i)) w Q.
Proof.
  intros Hm. induction xs as [|x xs IH]; [done|]. intros w pre a i k _ Ha Hk Hwds H HQ.
  assert (Hx : is_word x).
  { eapply mp_words in H; [|left]. apply Forall_app in H as [_ [H _]%Forall_app]. by apply Forall_cons in H as [H _]. }
  pose proof (multadd_limb x m a Hx Hm Ha) as Hlimb. cbv zeta in Hlimb.
  cbn [length] in Hk, Hwds. destruct k as [|k]; [lia|]. apply wp_loop_S. unfold multadd_step. wp_step.
  eapply wp_load; [exact H|left|done|]. cbv zeta.
  set (a' := i32 _) in *. set (d := u32 _) in Hlimb |- *. destruct Hlimb as (Hd & Ha' & Hv). wp_step.
  eapply (wp_store _ _ _ _ _ p pre x (xs ++ ys)); [exact H|done|done|]. intros w1 H1. cbv zeta.
  destruct xs as [|x' xs'].
  - rewrite (proj2 (Z.ltb_ge _ _)) by (cbn in Hwds; lia). wp_steps.
    apply (HQ [d]); [done|done| |done]. cbn [val length]. change (word ^ Z.of_nat 1) with word. lia.
  - rewrite (proj2 (Z.ltb_lt _ _)) by (cbn [length] in Hwds; lia). wp_steps.
    replace (p + 4 * zlen pre + 4) with (p + 4 * zlen (pre ++ [d])) by (rewrite length_app; cbn; lia).
    apply IH; [done|done|cbn [length] in *; lia|cbn [length] in *; lia|by rewrite <-app_assoc|].
    intros xs2 a2 w2 Hl Ha2 Hv2 H2. apply (HQ (d :: xs2)); [by f_equal/=|done| |by rewrite <-app_assoc in H2].
    cbn [val length] in *. rewrite Nat2Z.inj_succ, Z.pow_succ_r by lia. lia.
Qed.

Lemma bigint_len k s xs o : bigint k s xs o -> 0 <= k <= 15 /\ zlen xs <= 2 ^ k <= 32768.
Proof. intros [Hk (nx & ys & _ & Hl)]. unfold _Kmax in Hk. pose proof (pow2_class k Hk). lia. Qed.

Lemma wp_Bcopy b w K Os c p nx k x q nx' k' s xs ys n (Q : unit -> world -> Prop) :
  mp b w K ((p, [nx; k; 2 ^ k; 0; 0] ++ x) :: Os) c -> zlen x = 2 ^ k -> (q, bobj nx' k' s xs ys) ∈ Os ->
  0 <= k <= 15 -> zlen xs <= 2 ^ k -> (4 * length xs + 8 < n)%nat ->
  (forall w', mp b w' K ((p, bobj nx k s xs (drop (length xs) x)) :: Os) c -> Q tt w') ->
  wp n (Bcopy p q) w Q.
Proof.
  intros (P & HP & H) Hx Hin Hk Hl Hn HQ. pose proof (pow2_class k Hk) as Hpow.
  unfold Bcopy, load_int. wp_steps.
  eapply (wp_block_load _ _ _ _ q [nx'; k'; 2 ^ k'; s] (zlen xs) (xs ++ ys)); [exact H|unfold bobj in Hin; in_list|unfold _wds; cbn; lia|].
  wp_steps. rewrite i32_small by lia. rewrite u32_small by lia.
  eapply (wp_block_copy w K (Os ++ P) c p q [nx'; k'; 2 ^ k'] ([s; zlen xs] ++ xs) ys [nx; k; 2 ^ k]
    ([0; 0] ++ take (length xs) x) (drop (length xs) x)).
  - rewrite <-(take_drop (length xs) x) in H. exact H.
  - unfold bobj in Hin. in_list.
  - rewrite !length_app, length_take_le by lia. done.
  - unfold _sign. cbn. lia.
  - unfold _sign. cbn. lia.
  - rewrite length_app. cbn [length]. lia.
  - rewrite length_app. cbn [length]. lia.
  - intros w1 H1. wp_steps. apply HQ. exists P. split; [done|]. exact H1.
Qed.

Lemma wp_multadd w K Os c p k s xs o m a n (Q : Z -> world -> Prop) :
  mp true w K ((p, o) :: Os) c -> bigint k s xs o -> xs <> [] -> 0 <= m < 65536 -> 0 <= a < 65536 ->
  (alloc_fuel <= n)%nat -> (4 * length xs + 8 < n)%nat ->
  (2 ^ k = zlen xs -> word ^ zlen xs <= val xs * m + a -> k < 15 /\ kcost (k + 1) <= c) ->
  (forall p' k' xs' o' c' w', mp true w' K ((p', o') :: Os) c' -> bigint k' s xs' o' -> xs' <> [] ->
    val xs' = val xs * m + a -> (normal xs -> 0 < m -> normal xs') ->
    (k' = k /\ c' = c \/ 2 ^ k = zlen xs /\ word ^ zlen xs <= val xs * m + a /\ k' = k + 1 /\ c' = c - kcost k') ->
    Q p' w') ->
  wp n (multadd calloc _freelist p m a) w Q.
Proof.
  intros H Hbi Hne Hm Ha Hf Hn Hroom HQ. destruct (bigint_len _ _ _ _ Hbi) as [Hk Hlen].
  destruct Hbi as [_ (nx & ys & -> & Hl)]. unfold multadd. wp_step.
  assert (Hwo : all_words xs).
  { eapply mp_words in H; [|left]. unfold bobj in H. by apply Forall_app in H as [_ [H _]%Forall_app]. }
  eapply (wp_load_int _ _ _ _ _ p [nx; k; 2 ^ k; s] (zlen xs) (xs ++ ys)); [exact H|left|unfold _wds; cbn; lia|lia|].
  wp_step. apply wp_loop_k. unfold bobj in H.
  replace (_x p) with (p + 4 * zlen [nx; k; 2 ^ k; s; zlen xs]) by (unfold _x; cbn; lia).
  eapply (wp_multadd_loop _ _ _ _ _ _ _ xs ys); [done|done|done|lia|lia|exact H|].
  intros xs' a' w1 Hl' Ha' Hv H1.
  assert (Hwo' : all_words xs').
  { eapply mp_words in H1; [|left]. by apply Forall_app in H1 as [_ [H1 _]%Forall_app]. }
  destruct (Z.eqb_spec a' 0) as [->|Hne']; wp_steps.
  - apply (HQ p k xs' (bobj nx k s xs' ys) c); [by unfold bobj; rewrite Hl'| |by destruct xs, xs'|lia| |by left].
    + split; [unfold _Kmax; lia|]. exists nx, ys. split; [done|lia].
    + intros Hno Hm0. apply normal_of_val; [done|]. assert (Hlow := normal_low xs Hwo Hno Hne).
      pose proof (val_range xs Hwo). rewrite Hl'. nia.
  - assert (Hno : normal (xs' ++ [a'])) by (intros d; rewrite last_snoc; congruence).
    assert (Hval : val (xs' ++ [a']) = val xs * m + a).
    { rewrite val_app. cbn [val]. rewrite Hl'. lia. }
    eapply (wp_load_int _ _ _ _ _ p [nx; k] (2 ^ k)); [exact H1|left|unfold _maxwds; cbn; lia|lia|].
    rewrite <-Hl' in H1. fold (bobj nx k s xs' ys) in H1. rewrite <-Hl' in *.
    (* the word that is stored last *)
    assert (Hend : forall p1 nx1 k1 y ys1 c1 w2, 0 <= k1 <= 15 -> zlen xs' + zlen (y :: ys1) = 2 ^ k1 ->
      mp true w2 K ((p1, bobj nx1 k1 s xs' (y :: ys1)) :: Os) c1 ->
      (k1 = k /\ c1 = c \/ 2 ^ k = zlen xs' /\ word ^ zlen xs' <= val xs * m + a /\ k1 = k + 1 /\ c1 = c - kcost k1) ->
      wp n (store32 (_x p1 + 4 * zlen xs') (u32 a') ;; store_int (_wds p1) (zlen xs' + 1) ;; mret p1) w2 Q).
    { intros p1 nx1 k1 y ys1 c1 w2 Hk1 Hl1 H2 Hcase. pose proof (pow2_class k1 Hk1). wp_step.
      rewrite u32_small by lia. unfold bobj in H2. rewrite !app_assoc in H2.
      eapply (wp_store _ _ _ _ _ p1 _ y ys1); [exact H2| |lia|].
      { rewrite length_app. unfold _x. cbn [length]. lia. }
      intros w3 H3. wp_step. rewrite <-!app_assoc in H3.
      eapply (wp_store_int _ _ _ _ _ p1 [nx1; k1; 2 ^ k1; s] (zlen xs') (xs' ++ a' :: ys1));
        [exact H3|unfold _wds; cbn; lia|cbn [length] in Hl1; lia|].
      intros w4 H4. wp_step.
      eapply (HQ p1 k1 (xs' ++ [a']) (bobj nx1 k1 s (xs' ++ [a']) ys1) c1);
        [| |by destruct xs'|done|done|done].
      - unfold bobj. rewrite <-app_assoc, length_app. eqapply H4; [done..|].
        cbn [length app]. do 4 f_equal. repeat f_equal. lia.
      - split; [unfold _Kmax; lia|]. exists nx1, ys1. split; [done|]. rewrite length_app. cbn [length] in *. lia. }
    destruct ys as [|y ys].
    + cbn [length] in Hl. rewrite (proj2 (Z.leb_le _ _)) by lia. wp_steps.
      assert (Hcarry : word ^ zlen xs' <= val xs * m + a) by (pose proof (val_range xs' Hwo'); nia).
      destruct (Hroom ltac:(lia) Hcarry) as [Hk1 Hcost].
      eapply (wp_load_int _ _ _ _ _ p [nx] k); [exact H1|left|unfold _k; cbn; lia|lia|]. wp_step.
      eapply wp_Balloc; [exact H1|done|lia|intros b' w2 _ Hlow; unfold bcost in Hlow; lia|].
      intros p1 nx1 x1 w2 Hp1 Hx1 H2. wp_steps. unfold bcost in H2.
      assert (Hpow : 2 ^ (k + 1) = 2 * 2 ^ k) by (rewrite Z.pow_add_r; lia).
      eapply (wp_Bcopy _ _ _ _ _ p1 nx1 (k + 1) x1 p nx k s xs' []); [exact H2|done|left|lia|lia|lia|].
      intros w3 H3. wp_steps.
      eapply (wp_Bfree w3 K ((p1, bobj nx1 (k + 1) s xs' (drop (length xs') x1)) :: Os) _ p k s xs');
        [eapply mp_perm; [exact H3|perm]|split; [unfold _Kmax; lia|exists nx, []; split; [done|cbn; lia]]|].
      intros w4 H4. wp_step.
      assert (Hd : zlen (drop (length xs') x1) = 2 ^ (k + 1) - zlen xs') by (rewrite length_drop; lia).
      destruct (drop (length xs') x1) as [|y ys1]; [cbn in Hd; lia|].
      eapply Hend; [| |exact H4|]; [lia|cbn [length] in *; lia|]. right. split_and!; lia.
    + rewrite (proj2 (Z.leb_gt _ _)) by (cbn [length] in Hl; lia). wp_step. wp_step.
      eapply Hend; [done| |exact H1|by left]. cbn [length] in *. lia.
Qed.

(** ** s2b *)

Lemma mp_data b w K Os c s txt i ch : mp b w K Os c -> (s, txt) ∈ K -> txt !! i = Some ch ->
  w_mem w !! (s + Z.of_nat i) = Some ch.
Proof.
  intros (P & _ & B & H & _) Hin Hi. pose proof (st_data _ _ _ _ H) as Hd. rewrite Forall_forall in Hd.
  destruct (Hd _ Hin) as (_ & Hb & _). by eapply bytes_lookup.
Qed.

(** The number of the decimal digits [ds]. *)
Definition decimal (ds : list Z) : Z := fold_left (fun v d => 10 * v + d) ds 0.

Lemma decimal_snoc ds d : decimal (ds ++ [d]) = 10 * decimal ds + d.
Proof. unfold decimal. by rewrite fold_left_app. Qed.

Lemma decimal_range ds : Forall (fun d => 0 <= d <= 9) ds -> 0 <= decimal ds < 10 ^ zlen ds.
Proof.
  induction ds as [|d ds IH] using rev_ind; [done|]. intros [H1 [Hd _]%Forall_cons]%Forall_app.
  specialize (IH H1). rewrite decimal_snoc, length_app. cbn [length].
  replace (Z.of_nat (length ds + 1)) with (Z.succ (zlen ds)) by lia. rewrite Z.pow_succ_r by lia. lia.
Qed.

Lemma decimal_mono ds1 ds2 : Forall (fun d => 0 <= d <= 9) (ds1 ++ ds2) ->
  decimal ds1 <= decimal (ds1 ++ ds2) /\ decimal ds1 < 10 ^ zlen (ds1 ++ ds2).
Proof.
  intros H. assert (H1 : decimal ds1 <= decimal (ds1 ++ ds2)).
  { induction ds2 as [|d ds2 IH] using rev_ind; [by rewrite app_nil_r|]. rewrite app_assoc in H |- *.
    pose proof H as H'. apply Forall_app in H' as [H1 [Hd _]%Forall_cons]. rewrite decimal_snoc.
    specialize (IH H1). pose proof (decimal_range _ H1). lia. }
  pose proof (decimal_range _ H). lia.
Qed.

(** The text: the digits with a character between the first [nd0] and the others. *)
Record digits_text (txt ds : list Z) (nd0 : Z) : Prop := {
  dt_digits : Forall (fun d => 0 <= d <= 9) ds;
  dt_text i d : ds !! i = Some d ->
    txt !! (if Z.of_nat i <? nd0 then i else S i) = Some (48 + d);
}.

(** The block of the number so far, which is large enough for all the digits. *)
Record reading w K Os c p k xs (ds : list Z) (i : nat) : Prop := {
  rd_state : exists o, mp true w K ((p, o) :: Os) c /\ bigint k 0 xs o;
  rd_val : val xs = decimal (take i ds);
  rd_ne : xs <> [];
  rd_big : 10 ^ zlen ds <= word ^ (2 ^ k);
}.

Lemma wp_s2b_digit w K Os c p k xs ds i nd0 s txt d a n (Q : Z -> world -> Prop) :
  reading w K Os c p k xs ds i -> (s, txt) ∈ K -> digits_text txt ds nd0 -> ds !! i = Some d ->
  a = s + Z.of_nat (if Z.of_nat i <? nd0 then i else S i) ->
  (alloc_fuel <= n)%nat -> (4 * 2 ^ k + 8 < Z.of_nat n) ->
  (forall p' xs' w', reading w' K Os c p' k xs' ds (S i) -> (normal xs -> normal xs') -> Q p' w') ->
  wp n (s2b_digit calloc _freelist p a) w Q.
Proof.
  intros [(o & H & Hbi) Hv Hne Hbig] Htxt [Hds Ht] Hd -> Hf Hn HQ. destruct (bigint_len _ _ _ _ Hbi) as [Hk Hlen].
  assert (Hr : 0 <= d <= 9) by (rewrite Forall_lookup in Hds; eauto).
  unfold s2b_digit. wp_step. eapply wp_load8s; [eapply mp_data; [exact H|exact Htxt|by apply Ht]|].
  replace (s8 (48 + d) - 48) with d by (unfold s8; lia).
  assert (Hnew : val xs * 10 + d = decimal (take (S i) ds)).
  { rewrite (take_S_r _ _ _ Hd), decimal_snoc. lia. }
  assert (Hfit : 2 ^ k = zlen xs -> word ^ zlen xs <= val xs * 10 + d -> False).
  { intros E Hle. rewrite Hnew in Hle. rewrite <-E in Hle. rewrite <-(take_drop (S i) ds) in Hds.
    apply decimal_mono in Hds as [_ Hlt]. rewrite take_drop in Hlt. lia. }
  eapply wp_multadd; [exact H|exact Hbi|done|lia|lia|done|lia|intros E Hle; by destruct (Hfit E Hle)|].
  intros p' k' xs' o' c' w' H' Hbi' Hne' Hv' Hno [[-> ->]|(E & Hle & _)]; [|by destruct (Hfit E Hle)].
  apply (HQ p' xs'); [split; [by exists o'|lia|done|done]|]. intros Hnx. by apply Hno; [|lia].
Qed.

Lemma wp_s2b_loop1 K Os c k s txt ds nd0 (G : Prop) n (Q : Z * Z * Z -> world -> Prop) :
  (s, txt) ∈ K -> digits_text txt ds nd0 -> (alloc_fuel <= n)%nat -> (4 * 2 ^ k + 8 < Z.of_nat n) ->
  nd0 <= zlen ds ->
  forall j w p xs i, reading w K Os c p k xs ds i -> (G -> normal xs) -> Z.of_nat i < nd0 -> (Z.to_nat nd0 - i <= j)%nat ->
  (forall p' xs' w', reading w' K Os c p' k xs' ds (Z.to_nat nd0) -> (G -> normal xs') -> Q (p', s + nd0, nd0) w') ->
  wp n (loop_k j (fun '(b, s, i) =>
        b ← s2b_digit calloc _freelist b s;
        let i := i + 1 in
        if i <? nd0 then next (b, s + 1, i) else brk (b, s + 1, i)) (p, s + Z.of_nat i, Z.of_nat i)) w Q.
Proof.
  intros Htxt Hdt Hf Hn Hnd j. induction j as [|j IH]; intros w p xs i H Hno Hi Hj HQ; [lia|].
  apply wp_loop_S. wp_step. destruct (lookup_lt_is_Some_2 ds i) as [d Hd]; [lia|].
  eapply wp_s2b_digit; [exact H|done|done|exact Hd| |done|done|].
  { by rewrite (proj2 (Z.ltb_lt (Z.of_nat i) nd0)) by lia. }
  intros p' xs' w' H' Hno'. cbv zeta. replace (Z.of_nat i + 1) with (Z.of_nat (S i)) by lia.
  replace (s + Z.of_nat i + 1) with (s + Z.of_nat (S i)) by lia.
  destruct (Z.ltb_spec (Z.of_nat (S i)) nd0); wp_steps.
  - eapply IH; [exact H'|auto|lia|lia|done].
  - replace (Z.of_nat (S i)) with nd0 by lia. apply (HQ p' xs'); [|auto].
    by replace (Z.to_nat nd0) with (S i) by lia.
Qed.

Lemma wp_s2b_loop2 K Os c k s txt ds nd0 (G : Prop) n (Q : Z * Z * Z -> world -> Prop) :
  (s, txt) ∈ K -> digits_text txt ds nd0 -> (alloc_fuel <= n)%nat -> (4 * 2 ^ k + 8 < Z.of_nat n) ->
  forall j w p xs i, reading w K Os c p k xs ds i -> (G -> normal xs) -> nd0 <= Z.of_nat i -> (length ds - i < j)%nat ->
  (forall p' xs' w' r, reading w' K Os c p' k xs' ds (Nat.max i (length ds)) -> (G -> normal xs') -> Q (p', r.1, r.2) w') ->
  wp n (loop_k j (fun '(b, s, i) =>
    if i <? zlen ds then b ← s2b_digit calloc _freelist b s; next (b, s + 1, i + 1) else brk (b, s, i))
    (p, s + Z.of_nat (S i), Z.of_nat i)) w Q.
Proof.
  intros Htxt Hdt Hf Hn j. induction j as [|j IH]; intros w p xs i H Hno Hi Hj HQ; [lia|].
  apply wp_loop_S. destruct (Z.ltb_spec (Z.of_nat i) (zlen ds)); wp_steps.
  - destruct (lookup_lt_is_Some_2 ds i) as [d Hd]; [lia|].
    eapply wp_s2b_digit; [exact H|done|done|exact Hd| |done|done|].
    { by rewrite (proj2 (Z.ltb_ge (Z.of_nat i) nd0)) by lia. }
    intros p' xs' w' H' Hno'. wp_steps. replace (Z.of_nat i + 1) with (Z.of_nat (S i)) by lia.
    replace (s + Z.of_nat (S i) + 1) with (s + Z.of_nat (S (S i))) by lia.
    eapply IH; [exact H'|auto|lia|lia|]. intros p2 xs2 w2 r H2. apply (HQ p2 xs2 w2 r).
    by replace (Nat.max i (length ds)) with (Nat.max (S i) (length ds)) by lia.
  - apply (HQ p xs w (_, _)); [|done]. by replace (Nat.max i (length ds)) with i by lia.
Qed.

(** The smallest class with room for [x] words. *)
Lemma wp_class x n w (Q : Z * Z -> world -> Prop) : 1 <= x <= 32768 ->
  forall j k, 0 <= k <= Z.log2_up x -> (Z.to_nat (Z.log2_up x - k) < j)%nat ->
  Q (Z.log2_up x, 2 ^ Z.log2_up x) w ->
  wp n (loop_k j (fun '(k, y) =>
    if y <? x then next (k + 1, i32 (Z.shiftl y 1)) else brk (k, y)) (k, 2 ^ k)) w Q.
Proof.
  intros Hx. pose proof (Z.log2_up_le_mono x 32768 ltac:(lia)) as Hlog. change (Z.log2_up 32768) with 15 in Hlog.
  induction j as [|j IH]; intros k Hk Hj HQ; [lia|]. apply wp_loop_S.
  destruct (Z.ltb_spec (2 ^ k) x) as [Hlt|Hge]; wp_steps.
  - assert (Hlt' : k < Z.log2_up x) by (apply Z.log2_up_lt_pow2; lia).
    rewrite Z.shiftl_mul_pow2, <-Z.pow_add_r by lia. pose proof (pow2_class (k + 1) ltac:(lia)).
    rewrite i32_small by lia. apply IH; [lia|lia|done].
  - assert (Hle : Z.log2_up x <= k) by (apply Z.log2_up_le_pow2; lia). by replace k with (Z.log2_up x) by lia.
Qed.

Lemma wp_s2b b w K Os c s txt ds nd0 nd y9 n (Q : Z -> world -> Prop) :
  mp b w K Os c -> (s, txt) ∈ K -> digits_text txt ds nd0 -> nd = zlen ds -> 0 < nd -> nd0 <= nd ->
  nd <= 294912 -> y9 = decimal (take 9 ds) ->
  let k := Z.log2_up ((nd + 8) / 9) in
  (alloc_fuel <= n)%nat -> 4 * 2 ^ k + 8 < Z.of_nat n -> nd < Z.of_nat n -> bcost b k <= c ->
  (forall p xs o w', mp true w' K ((p, o) :: Os) (c - bcost b k) -> bigint k 0 xs o -> xs <> [] ->
    val xs = decimal ds -> (y9 <> 0 -> normal xs) -> Q p w') ->
  wp n (s2b calloc _freelist s nd0 nd y9) w Q.
Proof.
  intros H Htxt Hdt -> Hnd Hnd0 Hmax Hy9 k Hf Hn Hn' Hcost HQ. unfold s2b. cbv zeta.
  set (x := (zlen ds + 8) / 9) in *. rewrite Z.quot_div_nonneg by lia. fold x.
  assert (Hx : 1 <= x <= 32768) by (unfold x; lia).
  pose proof (Z.log2_up_nonneg x) as Hk0. pose proof (Z.log2_up_le_mono x 32768 ltac:(lia)) as Hlog.
  change (Z.log2_up 32768) with 15 in Hlog. fold k in Hk0, Hlog. pose proof (pow2_class k ltac:(lia)) as Hpow.
  wp_step. apply wp_loop_k. apply (wp_class x n w _ Hx n 0); fold k; [lia|pose proof (Z.pow_gt_lin_r 2 k); lia|]. wp_steps.
  eapply wp_Balloc; [exact H|done|lia|intros; lia|]. intros p nx x0 w1 Hp Hx0 H1. wp_steps.
  pose proof (dt_digits _ _ _ Hdt) as Hds. pose proof Hds as Hds9. rewrite <-(take_drop 9 ds) in Hds9.
  apply Forall_app in Hds9 as [Hds9 _]. pose proof (decimal_range _ Hds9) as Hr9. rewrite <-Hy9 in Hr9.
  assert (Hy : 0 <= y9 < 1000000000).
  { assert (10 ^ zlen (take 9 ds) <= 10 ^ 9); [|lia]. apply Z.pow_le_mono_r; rewrite ?length_take; lia. }
  destruct x0 as [|d0 x0]; [cbn in Hx0; lia|].
  eapply (wp_store _ _ _ _ _ p [nx; k; 2 ^ k; 0; 0] d0 x0); [exact H1|unfold _x; cbn; lia|lia|].
  intros w2 H2. wp_steps.
  eapply (wp_store_int _ _ _ _ _ p [nx; k; 2 ^ k; 0] 0 (y9 :: x0)); [exact H2|unfold _wds; cbn; lia|lia|].
  intros w3 H3. wp_steps.
  assert (Hrd : reading w3 K Os (c - bcost b k) p k [y9] ds 9).
  { split; [|cbn [val]; lia|done|].
    - exists (bobj nx k 0 [y9] x0). split; [exact H3|]. split; [unfold _Kmax; lia|]. exists nx, x0.
      split; [done|cbn [length] in *; lia].
    - trans ((10 ^ 9) ^ x); [rewrite <-Z.pow_mul_r by lia; apply Z.pow_le_mono_r; unfold x; lia|].
      trans (word ^ x); [apply Z.pow_le_mono_l; lia|apply Z.pow_le_mono_r; [lia|]].
      apply Z.log2_up_le_pow2; unfold k; lia. }
  assert (Hend : forall p' xs w' i, reading w' K Os (c - bcost b k) p' k xs ds i -> (length ds <= i)%nat ->
    (y9 <> 0 -> normal xs) -> Q p' w').
  { intros p' xs w' i [(o & H' & Hbi) Hv Hne _] Hi Hno. rewrite take_ge in Hv by lia. by eapply HQ. }
  assert (Hn9 : y9 <> 0 -> normal [y9]) by (by intros Hy0 d [= <-]).
  assert (Hrest : forall p' xs w' i a j, reading w' K Os (c - bcost b k) p' k xs ds i -> (y9 <> 0 -> normal xs) ->
    nd0 <= Z.of_nat i -> a = s + Z.of_nat (S i) -> j = Z.of_nat i ->
    wp n (loop (fun '(b, s, i) =>
        if i <? zlen ds then b ← s2b_digit calloc _freelist b s; next (b, s + 1, i + 1) else brk (b, s, i))
        (p', a, j)) w' (fun a w' => wp n (let '(b, _, _) := a in mret b) w' Q)).
  { intros p' xs w' i a j Hr Hno Hi -> ->. apply wp_loop_k.
    eapply wp_s2b_loop2; [exact Htxt|exact Hdt|done|done|exact Hr|exact Hno|done|lia|].
    intros p2 xs2 w4 [r1 r2] Hr2 Hno2. wp_steps. eapply Hend; [exact Hr2|lia|done]. }
  destruct (Z.ltb_spec 9 nd0) as [H9|H9]; cbv zeta; wp_steps.
  - apply wp_loop_k. change (p, s + 9, 9) with (p, s + Z.of_nat 9, Z.of_nat 9).
    eapply (wp_s2b_loop1 _ _ _ _ _ _ _ _ (y9 <> 0)); [exact Htxt|exact Hdt|done|done|lia|exact Hrd|done|lia|lia|].
    intros p' xs w4 Hr Hno. wp_steps. eapply Hrest; [exact Hr|done|lia|lia|lia].
  - eapply Hrest; [exact Hrd|done|lia|lia|lia].
Qed.
Lemma zlen_snoc {X} (l : list X) x : zlen (l ++ [x]) = zlen l + 1.
Proof. rewrite length_app. cbn [length]. lia. Qed.

Lemma all_words_in b w K Os c p l1 xs l2 : mp b w K Os c -> (p, l1 ++ xs ++ l2) ∈ Os -> all_words xs.
Proof. intros H Hin. eapply mp_words in H; [|exact Hin]. by apply Forall_app in H as [_ [H _]%Forall_app]. Qed.

End mprec.
