(* ===== verification/MprecMult.v ===== *)
(** * Big integers: multiplication and powers of five *)

From S2P Require Import Prelude CMonad Words Memory StrScan MemCopy Heap Blocks Mprec MprecSpec.

Section mprec.
Context {malloc free} {A : allocator malloc free} {calloc} {Z_ : zeroing A calloc}.
Context {BC : build} {_freelist : Z} (_p5s : Z).
Implicit Types (w : world) (K : list (Z * list Z)) (Os P : list block) (c : Z) (xs ys : list Z).
#[local] Abbreviation mp := (mp (_freelist := _freelist)).

(** ** mult *)

(** A word of the multiplicand times half a word. *)
Lemma mult_low_limb x v y carry : is_word x -> is_word v -> 0 <= y < 65536 -> 0 <= carry < 65536 ->
  let z := u32 (Z.land x 0xffff * y + Z.land v 0xffff + carry) in
  let z2 := u32 (Z.shiftr x 16 * y + Z.shiftr v 16 + Z.shiftr z 16) in
  let d := Z.lor (u32 (Z.shiftl z2 16)) (Z.land z 0xffff) in
  is_word d /\ 0 <= Z.shiftr z2 16 < 65536 /\ d + word * Z.shiftr z2 16 = x * y + v + carry.
Proof.
  intros Hx Hv Hy Hc. cbv zeta. rewrite half_words, !land_low, !shr_half.
  set (lo := x mod 65536). set (hi := x / 65536).
  assert (Hlo : 0 <= lo < 65536) by (unfold lo; lia). assert (Hhi : 0 <= hi < 65536) by (unfold hi; lia).
  replace (x * y) with (lo * y + 65536 * (hi * y)) by (unfold lo, hi; lia).
  assert (Hp : 0 <= lo * y <= 65535 * 65535) by nia. assert (Hq : 0 <= hi * y <= 65535 * 65535) by nia.
  rewrite (u32_small (lo * y + _ + _)) by lia. rewrite (u32_small (hi * y + _ + _)) by lia. lia.
Qed.

Lemma mult_high_limb x v v' y carry z2 : is_word x -> is_word v -> is_word v' -> 0 <= y < 65536 ->
  0 <= carry < 65536 ->
  let z := u32 (Z.land x 0xffff * y + Z.shiftr v 16 + carry) in
  let z2' := u32 (Z.shiftr x 16 * y + Z.land v' 0xffff + Z.shiftr z 16) in
  let d := Z.lor (u32 (Z.shiftl z 16)) (Z.land z2 0xffff) in
  is_word d /\ is_word z2' /\ 0 <= Z.shiftr z2' 16 < 65536 /\
  d + word * z2' = z2 mod 65536 + 65536 * (v / 65536 + carry) + word * (v' mod 65536) + 65536 * (x * y).
Proof.
  intros Hx Hv Hv' Hy Hc. cbv zeta. rewrite half_words, !land_low, !shr_half.
  set (lo := x mod 65536). set (hi := x / 65536).
  assert (Hlo : 0 <= lo < 65536) by (unfold lo; lia). assert (Hhi : 0 <= hi < 65536) by (unfold hi; lia).
  replace (x * y) with (lo * y + 65536 * (hi * y)) by (unfold lo, hi; lia).
  assert (Hp : 0 <= lo * y <= 65535 * 65535) by nia. assert (Hq : 0 <= hi * y <= 65535 * 65535) by nia.
  rewrite (u32_small (lo * y + _ + _)) by lia. rewrite (u32_small (hi * y + _ + _)) by lia. lia.
Qed.

Lemma wp_Storeinc b w K Os c p l1 v l2 a x y n (Q : Z -> world -> Prop) :
  mp b w K ((p, l1 ++ v :: l2) :: Os) c -> a = p + 4 * zlen l1 ->
  (forall w', mp b w' K ((p, l1 ++ Z.lor (u32 (Z.shiftl x 16)) (Z.land y 0xffff) :: l2) :: Os) c -> Q (a + 4) w') ->
  wp n (Storeinc a x y) w Q.
Proof.
  intros H Ha HQ. unfold Storeinc. wp_step.
  eapply wp_store; [exact H|exact Ha|rewrite half_words; apply half_words_range|].
  intros w' H'. wp_step. by apply HQ.
Qed.

Lemma wp_mult_low b K Os c p q y xae xs n (Q : Z * Z -> world -> Prop) :
  0 <= y < 65536 -> forall w cs pre post prea posta carry a k, xs <> [] -> length cs = length xs ->
  (q, prea ++ xs ++ posta) ∈ Os -> xae = q + 4 * (zlen prea + zlen xs) ->
  mp b w K ((p, pre ++ cs ++ post) :: Os) c -> 0 <= carry < 65536 -> (length xs <= k)%nat -> a = p + 4 * zlen pre ->
  (forall cs' carry' w', length cs' = length xs -> 0 <= carry' < 65536 ->
    val cs' + word ^ zlen xs * carry' = val xs * y + val cs + carry ->
    mp b w' K ((p, pre ++ cs' ++ post) :: Os) c -> Q (a + 4 * zlen xs, carry') w') ->
  wp n (loop_k k (mult_low_step xae y) (q + 4 * zlen prea, a, carry)) w Q.
Proof.
  intros Hy. induction xs as [|x xs IH]; [done|]. intros w [|v cs] pre post prea posta carry a k _ Hl Hin Hxae H Hc Hk -> HQ; [done|].
  assert (Hx : is_word x).
  { assert (Hw := all_words_in _ _ _ _ _ q prea (x :: xs) posta H ltac:(by right)). by apply Forall_cons in Hw as [? _]. }
  assert (Hv : is_word v).
  { assert (Hw := all_words_in _ _ _ _ _ p pre (v :: cs) post H ltac:(by left)). by apply Forall_cons in Hw as [? _]. }
  cbn [length] in Hk, Hl. destruct k as [|k]; [lia|]. apply wp_loop_S. unfold mult_low_step.
  assert (Hlx : forall (R : Z -> world -> Prop), R x w -> wp n (load32 (q + 4 * zlen prea)) w R).
  { intros R HR. eapply (wp_load _ _ _ _ _ q prea x (xs ++ posta)); [exact H|by right|done|done]. }
  assert (Hlv : forall (R : Z -> world -> Prop), R v w -> wp n (load32 (p + 4 * zlen pre)) w R).
  { intros R HR. eapply (wp_load _ _ _ _ _ p pre v (cs ++ post)); [exact H|by left|done|done]. }
  wp_step. apply Hlx. wp_step. apply Hlv. cbv zeta. wp_step. apply Hlx. wp_step. apply Hlv. cbv zeta. wp_step.
  pose proof (mult_low_limb x v y carry Hx Hv Hy Hc) as Hlimb. cbv zeta in Hlimb.
  eapply (wp_Storeinc _ _ _ _ _ p pre v (cs ++ post)); [exact H|done|]. intros w1 H1.
  set (z2 := u32 (Z.shiftr x 16 * y + _ + _)) in *. set (d := Z.lor _ _) in *. destruct Hlimb as (Hd & Hc' & Heq).
  destruct xs as [|x' xs'].
  - destruct cs; [|done]. rewrite (proj2 (Z.ltb_ge _ _)) by (cbn in Hxae; lia). wp_steps.
    eapply (HQ [d]); [done|done| |done]. cbn [val length]. change (word ^ Z.of_nat 1) with word. lia.
  - rewrite (proj2 (Z.ltb_lt _ _)) by (cbn [length] in Hxae; lia). wp_steps.
    replace (q + 4 * zlen prea + 4) with (q + 4 * zlen (prea ++ [x])) by (rewrite zlen_snoc; lia).
    eapply (IH _ cs (pre ++ [d]) post (prea ++ [x]) posta); [done|lia|by rewrite <-app_assoc| |by rewrite <-app_assoc|done|cbn [length] in *; lia| |].
    + rewrite zlen_snoc. cbn [length] in *. lia.
    + rewrite zlen_snoc. lia.
    + intros cs2 carry2 w2 Hl2 Hc2 Hv2 H2. rewrite <-app_assoc in H2.
      replace (p + 4 * zlen pre + 4 + 4 * zlen (x' :: xs')) with (p + 4 * zlen pre + 4 * zlen (x :: x' :: xs')) by (cbn [length]; lia).
      apply (HQ (d :: cs2)); [by f_equal/=|done| |done].
      cbn [val length] in *. rewrite Nat2Z.inj_succ, Z.pow_succ_r by lia. lia.
Qed.

Lemma wp_mult_high b K Os c p q y xae xs n (Q : Z * Z -> world -> Prop) :
  0 <= y < 65536 -> forall w v cs pre post prea posta carry z2 a k, xs <> [] -> length cs = length xs ->
  (q, prea ++ xs ++ posta) ∈ Os -> xae = q + 4 * (zlen prea + zlen xs) ->
  mp b w K ((p, pre ++ (v :: cs) ++ post) :: Os) c -> 0 <= carry < 65536 -> (length xs <= k)%nat ->
  (forall t, last cs = Some t -> t < 65536) -> a = p + 4 * zlen pre ->
  (forall cs' t z2' w', length cs' = length xs -> is_word z2' ->
    val cs' + word ^ zlen xs * z2' =
      z2 mod 65536 + 65536 * (v / 65536 + carry) + word * val cs + 65536 * (val xs * y) ->
    mp b w' K ((p, pre ++ cs' ++ t :: post) :: Os) c -> Q (a + 4 * zlen xs, z2') w') ->
  wp n (loop_k k (mult_high_step xae y) (q + 4 * zlen prea, a, carry, z2)) w Q.
Proof.
  intros Hy. induction xs as [|x xs IH]; [done|].
  intros w v [|v' cs] pre post prea posta carry z2 a k _ Hl Hin Hxae H Hc Hk Ht -> HQ; [done|].
  assert (Hx : is_word x).
  { assert (Hw := all_words_in _ _ _ _ _ q prea (x :: xs) posta H ltac:(by right)). by apply Forall_cons in Hw as [? _]. }
  assert (Hvv : is_word v /\ is_word v').
  { assert (Hw := all_words_in _ _ _ _ _ p pre (v :: v' :: cs) post H ltac:(by left)). by rewrite !Forall_cons in Hw; destruct_and!. }
  destruct Hvv as [Hv Hv']. cbn [length] in Hk, Hl. destruct k as [|k]; [lia|]. apply wp_loop_S. unfold mult_high_step.
  wp_step. eapply (wp_load _ _ _ _ _ q prea x (xs ++ posta)); [exact H|by right|done|]. wp_step.
  eapply (wp_load _ _ _ _ _ p pre v (v' :: cs ++ post)); [exact H|by left|done|]. cbv zeta. wp_step.
  pose proof (mult_high_limb x v v' y carry z2 Hx Hv Hv' Hy Hc) as Hlimb. cbv zeta in Hlimb.
  eapply (wp_Storeinc _ _ _ _ _ p pre v (v' :: cs ++ post)); [exact H|done|]. intros w1 H1.
  set (z := u32 (Z.land x _ * y + _ + _)) in *. set (d := Z.lor _ _) in *. wp_step.
  eapply (wp_load _ _ _ _ _ q prea x (xs ++ posta)); [exact H1|by right|done|]. wp_step.
  eapply (wp_load _ _ _ _ _ p (pre ++ [d]) v' (cs ++ post)); [exact H1|rewrite <-app_assoc; left|rewrite zlen_snoc; lia|].
  cbv zeta. set (z2' := u32 (Z.shiftr x 16 * y + _ + _)) in *. destruct Hlimb as (Hd & Hz2 & Hc' & Heq).
  destruct xs as [|x' xs'].
  - destruct cs; [|done]. rewrite (proj2 (Z.ltb_ge _ _)) by (cbn in Hxae; lia). wp_steps.
    assert (Hv'0 : v' < 65536) by (by apply Ht). replace (p + 4 * zlen pre + 4) with (p + 4 * zlen pre + 4 * zlen [x]) by done.
    eapply (HQ [d] v'); [done|done| |done]. cbn [val length]. change (word ^ Z.of_nat 1) with word. lia.
  - rewrite (proj2 (Z.ltb_lt _ _)) by (cbn [length] in Hxae; lia). wp_steps.
    replace (q + 4 * zlen prea + 4) with (q + 4 * zlen (prea ++ [x])) by (rewrite zlen_snoc; lia).
    eapply (IH _ v' cs (pre ++ [d]) post (prea ++ [x]) posta); [done|lia|by rewrite <-app_assoc| |by rewrite <-app_assoc|done|cbn [length] in *; lia| | |].
    + rewrite zlen_snoc. cbn [length] in *. lia.
    + intros t Hlast. apply Ht. destruct cs as [|v2 cs]; [done|]. by rewrite last_cons_cons.
    + rewrite zlen_snoc. lia.
    + intros cs2 t z3 w2 Hl2 Hz3 Hv2 H2. rewrite <-app_assoc in H2.
      replace (p + 4 * zlen pre + 4 + 4 * zlen (x' :: xs')) with (p + 4 * zlen pre + 4 * zlen (x :: x' :: xs')) by (cbn [length]; lia).
      apply (HQ (d :: cs2) t); [by f_equal/=|done| |done].
      cbn [val length] in *. rewrite Nat2Z.inj_succ, Z.pow_succ_r by lia. rewrite (shr_half z2') in Hv2. lia.
Qed.

(** One word of the multiplier is added in at its place. *)
Lemma wp_mult_word b w K Os c p q r pre cs post prea xs posta preb v postb n (Q : unit -> world -> Prop) :
  xs <> [] -> length cs = length xs -> (q, prea ++ xs ++ posta) ∈ Os -> (r, preb ++ v :: postb) ∈ Os ->
  mp b w K ((p, pre ++ (cs ++ [0]) ++ post) :: Os) c -> (length xs <= n)%nat ->
  (forall cs' w', length cs' = S (length xs) -> val cs' = val cs + v * val xs ->
    mp b w' K ((p, pre ++ cs' ++ post) :: Os) c -> Q tt w') ->
  wp n (mult_word (q + 4 * zlen prea) (q + 4 * (zlen prea + zlen xs)) (r + 4 * zlen preb) (p + 4 * zlen pre)) w Q.
Proof.
  intros Hne Hl Hq Hr H Hn HQ. unfold mult_word.
  assert (Hv : is_word v).
  { assert (Hw := mp_words _ _ _ _ _ r _ H ltac:(by right)). by apply Forall_app in Hw as [_ [Hw _]%Forall_cons]. }
  assert (Hload : forall w1 cs1 (R : Z -> world -> Prop), mp b w1 K ((p, pre ++ cs1 ++ post) :: Os) c -> R v w1 ->
    wp n (load32 (r + 4 * zlen preb)) w1 R).
  { intros w1 cs1 R H1 HR. eapply (wp_load _ _ _ _ _ r preb v postb); [exact H1|by right|done|done]. }
  wp_step. eapply Hload; [exact H|]. cbv zeta. rewrite land_low.
  assert (Hhigh : forall cs1 t w1, length cs1 = length xs -> 0 <= t < 65536 ->
    val (cs1 ++ [t]) = val cs + v mod 65536 * val xs -> mp b w1 K ((p, pre ++ (cs1 ++ [t]) ++ post) :: Os) c ->
    wp n (v ← load32 (r + 4 * zlen preb);
      let y := Z.shiftr v 16 in
      if negb (y =? 0) then
        z2 ← load32 (p + 4 * zlen pre);
        '(xc, z2) ← loop (mult_high_step (q + 4 * (zlen prea + zlen xs)) y) (q + 4 * zlen prea, p + 4 * zlen pre, 0, z2);
        store32 xc z2
      else mret tt) w1 Q).
  { intros cs1 t w1 Hl1 Ht Hv1 H1. wp_step. eapply Hload; [exact H1|]. cbv zeta. rewrite shr_half.
    assert (Hsum : val cs + v mod 65536 * val xs + 65536 * (v / 65536 * val xs) = val cs + v * val xs).
    { replace (v * val xs) with ((65536 * (v / 65536) + v mod 65536) * val xs) by (f_equal; lia). ring. }
    destruct (Z.eqb_spec (v / 65536) 0) as [E|E]; wp_steps.
    { eapply (HQ (cs1 ++ [t])); [rewrite length_app; cbn; lia| |exact H1]. lia. }
    destruct cs1 as [|c0 cs1]; [by destruct xs|].
    eapply (wp_load _ _ _ _ _ p pre c0 ((cs1 ++ [t]) ++ post)); [exact H1|by left|done|]. wp_steps. apply wp_loop_k.
    assert (Hc0 : is_word c0).
    { assert (Hw := all_words_in _ _ _ _ _ p pre ((c0 :: cs1) ++ [t]) post H1 ltac:(by left)).
      by apply Forall_app in Hw as [[Hw _]%Forall_cons _]. }
    eapply (wp_mult_high _ _ _ _ p q (v / 65536) _ xs n _ ltac:(lia) w1 c0 (cs1 ++ [t]) pre post prea posta);
      [done|rewrite length_app; cbn in *; lia|done|done|exact H1|lia|done| |done|].
    { rewrite last_snoc. intros t' [= <-]. lia. }
    intros cs2 t2 z2 w2 Hl2 Hz2 Hv2 H2. wp_steps. replace (p + 4 * zlen pre + 4 * zlen xs) with (p + 4 * zlen (pre ++ cs2))
      by (rewrite length_app; lia).
    eapply (wp_store _ _ _ _ _ p (pre ++ cs2) t2 post); [by rewrite <-app_assoc|done|done|].
    intros w3 H3. rewrite <-app_assoc in H3. apply (HQ (cs2 ++ [z2])); [rewrite length_app; cbn; lia| |by rewrite <-app_assoc].
    rewrite val_app. cbn [val]. rewrite Hl2. cbn [app val] in Hv1. rewrite <-Hsum, <-Hv1. lia. }
  wp_step. destruct (Z.eqb_spec (v mod 65536) 0) as [E|E]; cbn [negb]; wp_step.
  - apply (Hhigh cs 0); [done|lia| |done]. rewrite val_app. cbn [val]. lia.
  - apply wp_loop_k. eapply (wp_mult_low _ _ _ _ p q (v mod 65536) _ xs n _ ltac:(lia) w cs pre ([0] ++ post) prea posta);
      [done|done|done|done|by rewrite <-app_assoc in H|lia|done|done|].
    intros cs1 t w1 Hl1 Ht Hv1 H1. cbn beta iota. replace (p + 4 * zlen pre + 4 * zlen xs) with (p + 4 * zlen (pre ++ cs1))
      by (rewrite length_app; lia).
    eapply (wp_store _ _ _ _ _ p (pre ++ cs1) 0 post); [by rewrite <-app_assoc|done|lia|].
    intros w2 H2. apply (Hhigh cs1 t); [done|done| |by rewrite <-!app_assoc in *].
    rewrite val_app. cbn [val]. rewrite Hl1. lia.
Qed.

(** All the words of the multiplier. *)
Lemma wp_mult_loop b K Os c p q r prea xs posta bs n (Q : unit -> world -> Prop) :
  xs <> [] -> (q, prea ++ xs ++ posta) ∈ Os -> (length xs <= n)%nat ->
  forall w pre cs post preb postb xbe k, length cs = length xs -> (r, preb ++ bs ++ postb) ∈ Os ->
  xbe = r + 4 * (zlen preb + zlen bs) -> (length bs < k)%nat ->
  mp b w K ((p, pre ++ cs ++ replicate (length bs) 0 ++ post) :: Os) c ->
  (forall cs' w', length cs' = (length xs + length bs)%nat -> val cs' = val cs + val xs * val bs ->
    mp b w' K ((p, pre ++ cs' ++ post) :: Os) c -> Q tt w') ->
  wp n (loop_k k (fun '(xb, xc0) =>
    if xb <? xbe then mult_word (q + 4 * zlen prea) (q + 4 * (zlen prea + zlen xs)) xb xc0 ;; next (xb + 4, xc0 + 4)
    else brk tt) (r + 4 * zlen preb, p + 4 * zlen pre)) w Q.
Proof.
  intros Hne Hq Hn. induction bs as [|v bs IH]; intros w pre cs post preb postb xbe k Hl Hr -> Hk H HQ;
    (destruct k as [|k]; [lia|]); apply wp_loop_S.
  - rewrite (proj2 (Z.ltb_ge _ _)) by (cbn; lia). wp_steps. apply (HQ cs); [cbn; lia|cbn [val]; lia|done].
  - rewrite (proj2 (Z.ltb_lt _ _)) by (cbn; lia). wp_steps. cbn [length replicate] in *.
    eapply (wp_mult_word _ _ _ _ _ p q r pre cs (replicate (length bs) 0 ++ post) prea xs posta preb v (bs ++ postb));
      [done|done|done|done|by rewrite <-app_assoc|done|].
    intros [|d cs'] w1 Hl1 Hv1 H1; [done|]. wp_steps.
    replace (r + 4 * zlen preb + 4) with (r + 4 * zlen (preb ++ [v])) by (rewrite zlen_snoc; lia).
    replace (p + 4 * zlen pre + 4) with (p + 4 * zlen (pre ++ [d])) by (rewrite zlen_snoc; lia).
    eapply (IH _ _ cs' post _ postb); [cbn in Hl1; lia|by rewrite <-app_assoc|rewrite zlen_snoc; lia|lia|by rewrite <-app_assoc|].
    intros cs2 w2 Hl2 Hv2 H2. rewrite <-app_assoc in H2. apply (HQ (d :: cs2)); [cbn; lia| |done].
    cbn [val] in *. lia.
Qed.

(** Clearing words. *)
Lemma wp_clear_words b K Os c p old n (Q : unit -> world -> Prop) :
  (length old < n)%nat -> forall w pre post xe, xe = p + 4 * (zlen pre + zlen old) ->
  mp b w K ((p, pre ++ old ++ post) :: Os) c ->
  (forall w', mp b w' K ((p, pre ++ replicate (length old) 0 ++ post) :: Os) c -> Q tt w') ->
  wp n (clear_words (p + 4 * zlen pre) xe) w Q.
Proof.
  intros Hn w pre post xe -> H HQ. unfold clear_words. apply wp_loop_k. revert w pre H HQ. revert Hn. generalize n at 1 3 as k.
  induction old as [|v old IH]; intros k Hn w pre H HQ; (destruct k as [|k]; [lia|]); apply wp_loop_S.
  - rewrite (proj2 (Z.ltb_ge _ _)) by (cbn; lia). wp_steps. by apply HQ.
  - rewrite (proj2 (Z.ltb_lt _ _)) by (cbn; lia). wp_steps.
    eapply (wp_store _ _ _ _ _ p pre v (old ++ post)); [exact H|done|lia|]. intros w1 H1. wp_steps.
    replace (p + 4 * zlen pre + 4) with (p + 4 * zlen (pre ++ [0])) by (rewrite zlen_snoc; lia).
    replace (zlen pre + zlen (v :: old)) with (zlen (pre ++ [0]) + zlen old) by (rewrite zlen_snoc; cbn; lia).
    apply IH; [cbn in Hn; lia|by rewrite <-app_assoc|]. intros w2 H2. rewrite <-app_assoc in H2. by apply HQ.
Qed.

(** Leading zeros are not counted. *)
Lemma wp_trim b w K Os c p n (Q : Z -> world -> Prop) : forall cs pre post k,
  (p, pre ++ cs ++ post) ∈ Os -> mp b w K Os c -> (length cs < k)%nat ->
  (forall zs j, cs = zs ++ replicate j 0 -> normal zs -> Q (zlen zs) w) ->
  wp n (loop_k k trim_step (p + 4 * (zlen pre + zlen cs), zlen cs)) w Q.
Proof.
  induction cs as [|d cs IH] using rev_ind; intros pre post k Hin H Hk HQ; (destruct k as [|k]; [lia|]); apply wp_loop_S;
    unfold trim_step.
  - change (0 <? zlen _) with false. wp_steps. by apply (HQ [] 0%nat).
  - rewrite (proj2 (Z.ltb_lt _ _)) by (rewrite zlen_snoc; lia). cbv zeta. wp_step.
    eapply (wp_load _ _ _ _ _ p (pre ++ cs) d post); [exact H|by rewrite <-!app_assoc in *|rewrite zlen_snoc, length_app; lia|].
    destruct (Z.eqb_spec d 0) as [->|Hd]; wp_steps.
    + rewrite zlen_snoc.
      replace (p + 4 * (zlen pre + (zlen cs + 1)) - 4) with (p + 4 * (zlen pre + zlen cs)) by lia.
      replace (zlen cs + 1 - 1) with (zlen cs) by lia.
      apply (IH pre ([0] ++ post)); [by rewrite <-!app_assoc in *|done|rewrite length_app in Hk; cbn in Hk; lia|].
      intros zs j -> Hno. apply (HQ zs (S j)); [|done]. by rewrite replicate_S_end, app_assoc.
    + apply (HQ (cs ++ [d]) 0%nat); [by rewrite app_nil_r|]. intros d'. rewrite last_snoc. by intros [= <-].
Qed.

(** The class of a product. *)
Definition mult_class (k : Z) xs ys : Z := if 2 ^ k <? zlen xs + zlen ys then k + 1 else k.

Lemma wp_mult_ordered w K Os c p q ka sa xs oa kb sb ys ob n (Q : Z -> world -> Prop) :
  mp true w K Os c -> (p, oa) ∈ Os -> (q, ob) ∈ Os -> bigint ka sa xs oa -> bigint kb sb ys ob ->
  xs <> [] -> zlen ys <= zlen xs -> mult_class ka xs ys <= 15 -> kcost (mult_class ka xs ys) <= c ->
  (alloc_fuel <= n)%nat -> (length xs + length ys < n)%nat ->
  (forall r zs o w', mp true w' K ((r, o) :: Os) (c - kcost (mult_class ka xs ys)) ->
    bigint (mult_class ka xs ys) 0 zs o -> val zs = val xs * val ys -> normal zs -> Q r w') ->
  wp n (mult_ordered calloc _freelist p q) w Q.
Proof.
  intros H Hp Hq Ha Hb Hne Hle Hcl Hcost Hf Hn HQ.
  destruct (bigint_len _ _ _ _ Ha) as [Hka Hla]. destruct (bigint_len _ _ _ _ Hb) as [Hkb Hlb].
  destruct Ha as [_ (nxa & ya & -> & Hya)], Hb as [_ (nxb & yb & -> & Hyb)].
  unfold mult_ordered. wp_steps.
  eapply (wp_load_int _ _ _ _ _ p [nxa] ka); [exact H|exact Hp|unfold _k; cbn; lia|lia|]. wp_steps.
  eapply (wp_load_int _ _ _ _ _ p [nxa; ka; 2 ^ ka; sa] (zlen xs)); [exact H|exact Hp|unfold _wds; cbn; lia|lia|]. wp_steps.
  eapply (wp_load_int _ _ _ _ _ q [nxb; kb; 2 ^ kb; sb] (zlen ys)); [exact H|exact Hq|unfold _wds; cbn; lia|lia|]. wp_steps.
  eapply (wp_load_int _ _ _ _ _ p [nxa; ka] (2 ^ ka)); [exact H|exact Hp|unfold _maxwds; cbn; lia|lia|].
  fold (mult_class ka xs ys). set (k := mult_class ka xs ys) in *.
  assert (Hk : 0 <= k /\ zlen xs + zlen ys <= 2 ^ k).
  { unfold k, mult_class. destruct (Z.ltb_spec (2 ^ ka) (zlen xs + zlen ys)); [|lia].
    rewrite Z.pow_add_r by lia. lia. }
  pose proof (pow2_class k ltac:(lia)) as Hpow. wp_steps.
  eapply wp_Balloc; [exact H|done|lia|unfold bcost; lia|]. unfold bcost.
  intros r nx x w1 Hr Hx H1. wp_steps. set (m := (length xs + length ys)%nat).
  rewrite <-(take_drop m x) in H1. assert (Hm : length (take m x) = m) by (rewrite length_take; lia).
  set (hdr := [nx; k; 2 ^ k; 0; 0]) in *.
  assert (Hx0 : forall l, _x l = l + 4 * zlen hdr) by (intros l; unfold _x; cbn; lia). rewrite (Hx0 r).
  eapply (wp_clear_words _ _ _ _ r (take m x) n _ ltac:(lia) w1 hdr (drop m x)); [rewrite Hm; lia|exact H1|].
  rewrite Hm. intros w2 H2. wp_steps. apply wp_loop_k.
  assert (Hxp : _x p = p + 4 * zlen [nxa; ka; 2 ^ ka; sa; zlen xs]) by (unfold _x; cbn; lia).
  assert (Hxq : _x q = q + 4 * zlen [nxb; kb; 2 ^ kb; sb; zlen ys]) by (unfold _x; cbn; lia).
  rewrite Hxp, Hxq.
  replace (p + 4 * zlen [nxa; ka; 2 ^ ka; sa; zlen xs] + 4 * zlen xs)
    with (p + 4 * (zlen [nxa; ka; 2 ^ ka; sa; zlen xs] + zlen xs)) by lia.
  unfold m in H2. rewrite replicate_add, <-app_assoc in H2.
  eapply (wp_mult_loop _ _ Os _ r p q [nxa; ka; 2 ^ ka; sa; zlen xs] xs ya ys);
    [done|exact Hp|lia|by rewrite length_replicate|exact Hq|lia|lia|exact H2|].
  intros cs w3 Hcs Hval H3. rewrite val_zeros in Hval. wp_steps. apply wp_loop_k.
  replace (r + 4 * zlen hdr + 4 * (zlen xs + zlen ys)) with (r + 4 * (zlen hdr + zlen cs)) by lia.
  replace (zlen xs + zlen ys) with (zlen cs) by lia.
  eapply (wp_trim _ _ _ _ _ r _ _ cs hdr (drop m x)); [by left|exact H3|lia|].
  intros zs j -> Hno. rewrite length_app, length_replicate in Hcs. wp_steps. unfold hdr in H3.
  eapply (wp_store_int _ _ _ _ _ r [nx; k; 2 ^ k; 0] 0 ((zs ++ replicate j 0) ++ drop m x));
    [exact H3|unfold _wds; cbn; lia|lia|].
  intros w4 H4. wp_steps. eapply (HQ r zs (bobj nx k 0 zs (replicate j 0 ++ drop m x))).
  - rewrite <-app_assoc in H4. eapply mp_weaken; [exact H4|lia].
  - split; [unfold _Kmax; lia|]. exists nx, (replicate j 0 ++ drop m x).
    split; [done|]. rewrite length_app, length_replicate, length_drop. lia.
  - rewrite val_app, val_zeros in Hval. lia.
  - done.
Qed.

(** The longer number decides the class. *)
Definition product_class (ka : Z) xs (kb : Z) ys : Z :=
  if zlen xs <? zlen ys then mult_class kb ys xs else mult_class ka xs ys.

Lemma wp_mult w K Os c p q ka sa xs oa kb sb ys ob n (Q : Z -> world -> Prop) :
  mp true w K Os c -> (p, oa) ∈ Os -> (q, ob) ∈ Os -> bigint ka sa xs oa -> bigint kb sb ys ob ->
  xs <> [] -> product_class ka xs kb ys <= 15 -> kcost (product_class ka xs kb ys) <= c ->
  (alloc_fuel <= n)%nat -> (length xs + length ys < n)%nat ->
  (forall r zs o w', mp true w' K ((r, o) :: Os) (c - kcost (product_class ka xs kb ys)) ->
    bigint (product_class ka xs kb ys) 0 zs o -> val zs = val xs * val ys -> normal zs -> Q r w') ->
  wp n (mult calloc _freelist p q) w Q.
Proof.
  intros H Hp Hq Ha Hb Hne Hcl Hcost Hf Hn HQ. unfold mult.
  destruct (bigint_len _ _ _ _ Ha) as [Hka Hla]. destruct (bigint_len _ _ _ _ Hb) as [Hkb Hlb].
  pose proof Ha as [_ (nxa & ya & Ea & _)]. pose proof Hb as [_ (nxb & yb & Eb & _)]. wp_step.
  eapply (wp_load_int _ _ _ _ _ p [nxa; ka; 2 ^ ka; sa] (zlen xs)); [exact H|rewrite Ea in Hp; exact Hp|unfold _wds; cbn; lia|lia|]. wp_step.
  eapply (wp_load_int _ _ _ _ _ q [nxb; kb; 2 ^ kb; sb] (zlen ys)); [exact H|rewrite Eb in Hq; exact Hq|unfold _wds; cbn; lia|lia|].
  unfold product_class in *. destruct (Z.ltb_spec (zlen xs) (zlen ys)).
  - eapply (wp_mult_ordered _ _ _ _ q p kb sb ys ob ka sa xs oa); [done..| |lia|done|done|done|lia|].
    + intros ->. cbn in *. lia.
    + intros r zs o w' H' Hr Hv Hno. eapply HQ; [exact H'|done|lia|done].
  - by eapply (wp_mult_ordered _ _ _ _ p q ka sa xs oa kb sb ys ob).
Qed.

(** ** i2b and pow5mult *)

Lemma wp_i2b b w K Os c i n (Q : Z -> world -> Prop) :
  mp b w K Os c -> (alloc_fuel <= n)%nat -> bcost b 1 <= c -> is_word i ->
  (forall p o w', p <> 0 -> mp true w' K ((p, o) :: Os) (c - bcost b 1) -> bigint 1 0 [i] o -> Q p w') ->
  wp n (i2b calloc _freelist i) w Q.
Proof.
  intros H Hf Hc Hi HQ. unfold i2b. wp_step. eapply wp_Balloc; [exact H|done|lia|lia|].
  intros p nx x w1 Hp Hx H1. change (2 ^ 1) with 2 in *. destruct x as [|x0 [|x1 [|]]]; cbn [length] in Hx; try lia. wp_steps.
  rewrite u32_small by lia.
  eapply (wp_store _ _ _ _ _ p [nx; 1; 2; 0; 0] x0 [x1]); [exact H1|unfold _x; cbn; lia|done|]. intros w2 H2. wp_steps.
  eapply (wp_store_int _ _ _ _ _ p [nx; 1; 2; 0] 0 [i; x1]); [exact H2|unfold _wds; cbn; lia|lia|]. intros w3 H3. wp_steps.
  eapply HQ; [done|exact H3|]. split; [unfold _Kmax; lia|]. by exists nx, [x1].
Qed.

(** The cache: 5^e, 5^(2e), 5^(4e), .. *)
Fixpoint fives (e h : Z) (L : list block) : Prop :=
  match L with
  | [] => h = 0
  | (p, o) :: L' => h = p /\ p <> 0 /\ exists nx k xs ys, o = bobj nx k 0 xs ys /\ bigint k 0 xs o /\
      val xs = 5 ^ e /\ normal xs /\ 2 ^ k <= 2 * zlen xs + 2 /\ fives (2 * e) nx L'
  end.

Lemma normal_ne xs : 0 < val xs -> xs <> [].
Proof. by intros H ->. Qed.

(** A normal number below [word ^ W] has at most [W] words. *)
Lemma normal_words xs W : all_words xs -> normal xs -> 0 <= W -> val xs < word ^ W -> zlen xs <= W.
Proof.
  intros Hw Hn HW Hv. destruct (decide (xs = [])) as [->|Hne]; [cbn; lia|].
  assert (Hlow := normal_low xs Hw Hn Hne). destruct (Z.le_gt_cases (zlen xs) W); [done|].
  assert (word ^ W <= word ^ (zlen xs - 1)) by (apply Z.pow_le_mono_r; lia). lia.
Qed.

(** The words of the factors of such a number. *)
Lemma factor_words xs ys W : all_words xs -> all_words ys -> normal xs -> normal ys ->
  0 < val xs -> 0 < val ys -> 0 <= W -> val xs * val ys < word ^ W -> zlen xs + zlen ys <= W + 1.
Proof.
  intros Hx Hy Hnx Hny H0x H0y HW Hv.
  assert (Hlx := normal_low xs Hx Hnx (normal_ne _ H0x)). assert (Hly := normal_low ys Hy Hny (normal_ne _ H0y)).
  destruct (Z.le_gt_cases (zlen xs + zlen ys) (W + 1)) as [|Hgt]; [done|].
  assert (0 < zlen xs /\ 0 < zlen ys) by (destruct xs, ys; cbn in *; lia).
  assert (word ^ W <= word ^ ((zlen xs - 1) + (zlen ys - 1))) by (apply Z.pow_le_mono_r; lia).
  rewrite Z.pow_add_r in * by lia. nia.
Qed.

Lemma class_le k1 k2 : 2 ^ k1 <= 2 ^ k2 -> 0 <= k2 -> k1 <= k2.
Proof. intros H Hk. destruct (Z.le_gt_cases k1 k2) as [|Hgt]; [done|]. pose proof (Z.pow_lt_mono_r 2 k2 k1). lia. Qed.

Lemma product_class_le ka xs kb ys M W : 0 <= ka <= M -> 0 <= kb <= M -> zlen xs + zlen ys <= W + 1 ->
  2 * (W + 1) <= 2 ^ M -> 0 <= product_class ka xs kb ys <= M.
Proof.
  intros Ha Hb Hw HM. assert (Hcl : forall k us vs, 0 <= k <= M -> zlen us + zlen vs <= W + 1 -> 0 <= mult_class k us vs <= M).
  { intros k us vs Hk Huv. unfold mult_class. destruct (Z.ltb_spec (2 ^ k) (zlen us + zlen vs)); [|lia].
    assert (k + 1 <= M); [|lia]. apply class_le; [|lia]. rewrite Z.pow_add_r by lia. lia. }
  unfold product_class. destruct (zlen xs <? zlen ys); apply Hcl; lia.
Qed.

Lemma kcost_mono k1 k2 : 0 <= k1 <= k2 -> kcost (calloc := calloc) k1 <= kcost k2.
Proof. intros Hk. apply cost_mono. pose proof (Z.pow_le_mono_r 2 k1 k2). lia. Qed.
Lemma kcost_pos k : 0 <= kcost (calloc := calloc) k.
Proof. apply cost_pos. Qed.

(** The square of a cached power is one more. *)
Lemma square_class k xs zs : bigint k 0 xs zs -> forall us, all_words xs -> all_words us -> normal xs -> normal us -> 0 < val xs ->
  val us = val xs * val xs -> 2 ^ k <= 2 * zlen xs + 2 ->
  2 ^ (product_class k xs k xs) <= 2 * zlen us + 2.
Proof.
  intros Hb us Hx Hu Hnx Hnu H0 Hv Hk. destruct (bigint_len _ _ _ _ Hb) as [Hk0 _].
  assert (Hlx := normal_low xs Hx Hnx (normal_ne _ H0)). pose proof (val_range us Hu).
  assert (Hlen : 0 < zlen xs) by (destruct xs; cbn in *; lia).
  assert (Hle : 2 * zlen xs <= zlen us + 1).
  { destruct (Z.le_gt_cases (2 * zlen xs) (zlen us + 1)) as [|Hgt]; [done|].
    assert (word ^ zlen us <= word ^ ((zlen xs - 1) + (zlen xs - 1))) by (apply Z.pow_le_mono_r; lia).
    rewrite Z.pow_add_r in * by lia. nia. }
  unfold product_class, mult_class. destruct (_ <? _); destruct (Z.ltb_spec (2 ^ k) (zlen xs + zlen xs));
    rewrite ?Z.pow_add_r by lia; lia.
Qed.

(** The number so far, positive and without leading zeros. *)
Record factor (M : Z) xs (o : list Z) : Prop := {
  fa_class : exists k, bigint k 0 xs o /\ 0 <= k <= M;
  fa_normal : normal xs;
  fa_pos : 0 < val xs;
}.

Lemma bigint_all_words b w K Os c p k s xs o : mp b w K Os c -> (p, o) ∈ Os -> bigint k s xs o -> all_words xs.
Proof. intros H Hin [_ (nx & ys & -> & _)]. by eapply all_words_in. Qed.

Lemma bigint_class k k' s s' xs xs' o : bigint k s xs o -> bigint k' s' xs' o -> k = k'.
Proof. intros [_ (n1 & y1 & -> & _)] [_ (n2 & y2 & E & _)]. by injection E. Qed.

(** A product of two factors. *)
Lemma wp_mult_factor M W w K Os c p q xs oa ys ob n (Q : Z -> world -> Prop) :
  M <= 15 -> 2 * (W + 1) <= 2 ^ M -> 0 <= W -> (alloc_fuel <= n)%nat -> W + 1 < Z.of_nat n ->
  mp true w K Os c -> (p, oa) ∈ Os -> (q, ob) ∈ Os -> factor M xs oa -> factor M ys ob ->
  val xs * val ys < word ^ W -> kcost M <= c ->
  (forall r zs o w', mp true w' K ((r, o) :: Os) (c - kcost M) -> factor M zs o ->
    val zs = val xs * val ys ->
    (forall k, oa = ob -> xs = ys -> bigint k 0 xs oa -> 2 ^ k <= 2 * zlen xs + 2 ->
      exists k', bigint k' 0 zs o /\ 2 ^ k' <= 2 * zlen zs + 2) -> Q r w') ->
  wp n (mult calloc _freelist p q) w Q.
Proof.
  intros HM HW HW0 Hf Hn H Hp Hq [(ka & Ha & Hka) Hnx H0x] [(kb & Hb & Hkb) Hny H0y] Hv Hc HQ.
  assert (Hwx := bigint_all_words _ _ _ _ _ _ _ _ _ _ H Hp Ha). assert (Hwy := bigint_all_words _ _ _ _ _ _ _ _ _ _ H Hq Hb).
  assert (Hlen := factor_words xs ys W Hwx Hwy Hnx Hny H0x H0y HW0 Hv).
  assert (Hcl := product_class_le ka xs kb ys M W Hka Hkb Hlen HW). pose proof (kcost_mono _ _ Hcl) as Hkc.
  eapply (wp_mult _ _ _ _ p q); [exact H|exact Hp|exact Hq|exact Ha|exact Hb|by apply normal_ne|lia|lia|done|lia|].
  intros r zs o w' H' Hr Hvz Hnz. assert (Hwz := bigint_all_words _ _ _ _ _ _ _ _ _ _ H' (list_elem_of_here _ _) Hr).
  eapply HQ; [eapply mp_weaken; [exact H'|lia]| |done|].
  - split; [by eexists|done|nia].
  - intros k <- <- Hk Hk2. rewrite (bigint_class _ _ _ _ _ _ _ Ha Hk), (bigint_class _ _ _ _ _ _ _ Hb Hk) in Hr.
    eexists. split; [exact Hr|]. by eapply square_class.
Qed.

(** The loop over the bits of the exponent. *)
Lemma pow5_below a b v X : 0 <= a <= b -> 0 < v -> v * 5 ^ b < X -> 5 ^ a < X.
Proof.
  intros Hab Hv Hx. assert (5 ^ a <= 5 ^ b) by (apply Z.pow_le_mono_r; lia).
  assert (1 * 5 ^ b <= v * 5 ^ b) by (apply Z.mul_le_mono_nonneg_r; lia). lia.
Qed.

Lemma times_above e j k : 0 <= e -> j <= k -> e * j <= e * k.
Proof. intros. by apply Z.mul_le_mono_nonneg_l. Qed.

Lemma wp_pow5mult_loop M W n (Q : Z -> world -> Prop) :
  M <= 15 -> 2 * (W + 1) <= 2 ^ M -> 0 <= W -> (alloc_fuel <= n)%nat -> W + 1 < Z.of_nat n ->
  forall j w K Os c k p xs o e p5 o5 L, 0 < k -> (Z.to_nat (Z.log2 k) < j)%nat ->
  mp true w K ((p, o) :: ((p5, o5) :: L) ++ Os) c -> factor M xs o -> fives e p5 ((p5, o5) :: L) -> 0 < e ->
  val xs * 5 ^ (e * k) < word ^ W -> (2 * Z.log2 k + 1) * kcost M <= c ->
  (forall p' xs' o' o5' L' w', mp true w' K ((p', o') :: ((p5, o5') :: L') ++ Os) (c - (2 * Z.log2 k + 1) * kcost M) ->
    factor M xs' o' -> val xs' = val xs * 5 ^ (e * k) -> fives e p5 ((p5, o5') :: L') -> Q p' w') ->
  wp n (loop_k j (pow5mult_step calloc _freelist) (p, p5, k)) w Q.
Proof.
  intros HM HW HW0 Hf Hn j. induction j as [|j IH]; intros w K Os c k p xs o e p5 o5 L Hk Hj H Hfa Hfi He Hv Hc HQ; [lia|].
  pose proof (kcost_pos M) as HkM. pose proof (Z.log2_nonneg k) as Hlog.
  apply wp_loop_S. unfold pow5mult_step. cbv zeta.
  pose proof Hfi as (_ & Hp5 & nx5 & k5 & x5 & y5 & Eo5 & Hb5 & Hv5 & Hn5 & Hk5 & Hrest).
  assert (Hx0 : 0 < val xs) by apply Hfa. assert (H5e : 0 < 5 ^ e) by lia.
  assert (Hfa5 : factor M x5 o5).
  { split; [exists k5; split; [done|]|done|lia]. destruct (bigint_len _ _ _ _ Hb5) as [Hk50 _]. split; [lia|].
    assert (Hw5 : all_words x5) by (eapply (bigint_all_words _ _ _ _ _ p5); [exact H|cbn [app]; in_list|exact Hb5]).
    assert (Hz5 : zlen x5 <= W).
    { apply normal_words; [done..|]. rewrite Hv5. pose proof (times_above e 1 k). eapply pow5_below; [|exact Hx0|exact Hv]. lia. }
    assert (0 <= M) by (destruct (fa_class _ _ _ Hfa) as (? & _ & ?); lia). apply class_le; lia. }
  (* the product, for an odd exponent *)
  assert (Hbit : Z.land k 1 = k mod 2) by (change (Z.land k 1) with (Z.land k (Z.ones 1)); by rewrite Z.land_ones).
  assert (Hhalf : Z.shiftr k 1 = k / 2) by (by rewrite Z.shiftr_div_pow2).
  rewrite Hbit, Hhalf. wp_step.
  assert (Hmid : forall p1 xs1 o1 w1, mp true w1 K ((p1, o1) :: ((p5, o5) :: L) ++ Os) (c - kcost M) -> factor M xs1 o1 ->
    val xs1 = val xs * 5 ^ (e * (k mod 2)) ->
    wp n (let k := k / 2 in if k =? 0 then brk p1 else
      p51 ← load32 (_next p5);
      p51 ← (if p51 =? 0 then
          p51 ← mult calloc _freelist p5 p5;
          store32 (_next p5) p51 ;;
          store32 (_next p51) 0 ;;
          mret p51
        else mret p51);
      next (p1, p51, k)) w1 (fun x w' => match x with
        | inl s' => wp n (loop_k j (pow5mult_step calloc _freelist) s') w' Q | inr r => Q r w' end)).
  { intros p1 xs1 o1 w1 H1 Hfa1 Hv1. cbv zeta.
    assert (He1 : 0 <= e * (k mod 2) /\ 0 <= 2 * e * (k / 2)) by (split; apply Z.mul_nonneg_nonneg; lia).
    assert (Hsplit : val xs1 * 5 ^ (2 * e * (k / 2)) = val xs * 5 ^ (e * k)).
    { rewrite Hv1, <-Z.mul_assoc, <-Z.pow_add_r by lia. do 2 f_equal. nia. }
    destruct (Z.eqb_spec (k / 2) 0) as [E|E]; wp_steps.
    { apply (HQ p1 xs1 o1 o5 L); [eapply mp_weaken; [exact H1|lia]|done| |done].
      rewrite Hv1. do 2 f_equal. nia. }
    assert (Hlog2 : Z.log2 (k / 2) = Z.log2 k - 1).
    { rewrite <-Hhalf, Z.log2_shiftr by lia. assert (1 <= Z.log2 k) by (apply Z.log2_le_pow2; lia). lia. }
    pose proof (Z.log2_nonneg (k / 2)) as Hlog2'.
    assert (Hcost : (2 * Z.log2 (k / 2) + 1) * kcost M = (2 * Z.log2 k + 1) * kcost M - 2 * kcost M) by (rewrite Hlog2; ring).
    assert (Hcost0 : 0 <= (2 * Z.log2 (k / 2) + 1) * kcost M) by (apply Z.mul_nonneg_nonneg; lia).
    set (T' := (2 * Z.log2 (k / 2) + 1) * kcost M) in *. set (T := (2 * Z.log2 k + 1) * kcost M) in *.
    assert (Hnext : forall o5' p51 o51 L' w2, fives e p5 ((p5, o5') :: (p51, o51) :: L') ->
      mp true w2 K ((p1, o1) :: ((p51, o51) :: L') ++ (p5, o5') :: Os) (c - 2 * kcost M) ->
      wp n (loop_k j (pow5mult_step calloc _freelist) (p1, p51, k / 2)) w2 Q).
    { intros o5' p51 o51 L' w2 Hfi2 H2. pose proof Hfi2 as (_ & _ & nx2 & k2 & z2 & y2 & E2 & Hb2 & Hv2 & Hn2 & Hk2 & Hr2).
      pose proof Hr2 as (-> & Hp51 & _).
      eapply (IH w2 K ((p5, o5') :: Os) (c - 2 * kcost M) (k / 2) p1 xs1 o1 (2 * e) _ o51 L');
        [lia|lia|exact H2|done|exact Hr2|lia|by rewrite Hsplit|lia|].
      intros p' xs' o' o51' L2 w3 H3 Hfa3 Hv3 Hfi3. eapply (HQ p' xs' o' o5' ((p51, o51') :: L2)).
      - eapply mp_weaken; [eapply mp_perm; [exact H3|cbn [app]; perm]|lia].
      - done.
      - by rewrite Hv3.
      - split_and!; [done|done|]. exists p51, k2, z2, y2. done. }
    rewrite Eo5 in H1.
    eapply (wp_load _ _ _ _ _ p5 [] nx5); [exact H1|cbn [app]; in_list|unfold _next; cbn; lia|].
    rewrite <-Eo5 in H1. destruct L as [|[p51 o51] L].
    - cbn in Hrest. subst nx5. change (0 =? 0) with true. wp_steps.
      assert (H5sq : val x5 * val x5 < word ^ W).
      { rewrite Hv5, <-Z.pow_add_r by lia. pose proof (times_above e 2 k). eapply pow5_below; [|exact Hx0|exact Hv]. lia. }
      assert (HkM2 : kcost M <= c - kcost M) by lia.
      eapply (wp_mult_factor M W _ _ _ _ p5 p5 x5 o5 x5 o5); [exact HM|exact HW|exact HW0|exact Hf|exact Hn|exact H1|cbn [app]; in_list|cbn [app]; in_list|exact Hfa5|exact Hfa5|exact H5sq|exact HkM2|].
      intros r zs oz w2 H2 Hfaz Hvz Hsq. destruct (Hsq k5 eq_refl eq_refl Hb5 Hk5) as (kz & Hbz & Hkz). wp_steps.
      rewrite Eo5 in H2. 
      assert (Hr : 0 < r < 1073741824).
      { destruct (mp_range _ _ _ _ _ r oz H2) as [Hr1 Hr2]; [left| |].
        - destruct Hbz as [_ (? & ? & -> & _)]. done.
        - destruct Hbz as [_ (? & ? & -> & _)]. unfold bobj in Hr2. rewrite length_app in Hr2. cbn [length] in Hr2. lia. }
      eapply (wp_store _ w2 K ((r, oz) :: (p1, o1) :: Os) _ p5 [] 0 _ r); 
        [eapply mp_perm; [exact H2|cbn [app]; unfold bobj; perm]|unfold _next; cbn; lia|lia|].
      intros w3 H3. wp_steps. pose proof Hbz as [Hkz0 (nxz & yz & Eoz & Hyz)]. rewrite Eoz in H3.
      eapply (wp_store _ w3 K ((p5, bobj r k5 0 x5 y5) :: (p1, o1) :: Os) _ r [] nxz _ 0);
        [eapply mp_perm; [exact H3|unfold bobj; cbn [app]; perm]|unfold _next; cbn; lia|lia|].
      intros w4 H4. wp_steps. eapply (Hnext (bobj r k5 0 x5 y5) r (bobj 0 kz 0 zs yz) []).
      + split_and!; [done|done|]. exists r, k5, x5, y5. split_and!; [done| |done|done|done|].
        { destruct Hb5 as [? (n5 & y5' & E5 & Hy5)]. split; [done|]. exists r, y5. split; [done|].
          rewrite Eo5 in E5. injection E5 as _ E5. apply app_inv_head in E5. by subst y5'. }
        split_and!; [done|lia|]. exists 0, kz, zs, yz. split_and!; [done| | |apply Hfaz|done|done].
        { split; [done|]. by exists 0, yz. }
        rewrite Hvz, Hv5, <-Z.pow_add_r by lia. f_equal. lia.
      + eapply mp_weaken; [eapply mp_perm; [exact H4|cbn [app]; perm]|lia].
    - pose proof Hrest as (-> & Hp51 & _). rewrite (proj2 (Z.eqb_neq p51 0)) by done. wp_steps.
      eapply (Hnext o5 p51 o51 L); [exact Hfi|]. eapply mp_weaken; [eapply mp_perm; [exact H1|cbn [app]; perm]|lia]. }
  destruct (Z.eqb_spec (k mod 2) 0) as [E|E]; cbn [negb].
  - wp_step. apply (Hmid p xs o w); [eapply mp_weaken; [exact H|lia]|done|]. rewrite E, Z.mul_0_r. lia.
  - assert (Hc1 : kcost M <= c) by nia.
    assert (Hprod : val xs * val x5 < word ^ W).
    { rewrite Hv5. eapply Z.le_lt_trans; [|exact Hv]. apply Z.mul_le_mono_nonneg_l, Z.pow_le_mono_r; [lia..|].
      pose proof (times_above e 1 k). lia. }
    wp_step. eapply (wp_mult_factor M W _ _ _ _ p p5 xs o x5 o5);
      [exact HM|exact HW|exact HW0|exact Hf|exact Hn|exact H|left|cbn [app]; in_list|exact Hfa|exact Hfa5|exact Hprod|exact Hc1|].
    intros r zs oz w1 H1 Hfaz Hvz _. wp_step. destruct (fa_class _ _ _ Hfa) as (kb & Hb & _).
    eapply (wp_Bfree w1 K ((r, oz) :: ((p5, o5) :: L) ++ Os) _ p kb 0 xs o); [eapply mp_perm; [exact H1|cbn [app]; perm]|exact Hb|].
    intros w2 H2. wp_step. apply (Hmid r zs oz w2); [exact H2|done|].
    rewrite Hvz, Hv5. do 2 f_equal. assert (k mod 2 = 1) as -> by lia. lia.
Qed.

Lemma wp_pow5mult M W w K Os c p xs o h L k n (Q : Z -> world -> Prop) :
  M <= 15 -> 2 * (W + 1) <= 2 ^ M -> 0 <= W -> (alloc_fuel <= n)%nat -> 4 * (W + 1) + 8 < Z.of_nat n ->
  mp true w K ((p, o) :: (_p5s, [h]) :: L ++ Os) c -> factor M xs o -> fives 4 h L -> 0 <= k -> Z.log2 k < Z.of_nat n ->
  val xs * 5 ^ k < word ^ W -> (2 * Z.log2 k + 4) * kcost M <= c -> 1 <= M ->
  (forall p' xs' o' h' L' c' w', mp true w' K ((p', o') :: (_p5s, [h']) :: L' ++ Os) c' ->
    c - (2 * Z.log2 k + 4) * kcost M <= c' -> factor M xs' o' -> val xs' = val xs * 5 ^ k -> fives 4 h' L' -> Q p' w') ->
  wp n (pow5mult calloc _freelist _p5s p k) w Q.
Proof.
  intros HM HW HW0 Hf Hn H Hfa Hfi Hk Hnk Hv Hc HM1 HQ. unfold pow5mult. cbv zeta.
  pose proof (kcost_pos M) as HkM. pose proof (Z.log2_nonneg k) as Hlog.
  assert (Hlow : Z.land k 3 = k mod 4) by (change (Z.land k 3) with (Z.land k (Z.ones 2)); by rewrite Z.land_ones).
  assert (Hquart : Z.shiftr k 2 = k / 4) by (by rewrite Z.shiftr_div_pow2). rewrite Hlow, Hquart.
  assert (Hx0 : 0 < val xs) by apply Hfa. pose proof (fa_class _ _ _ Hfa) as (kb & Hb & Hkb).
  (* after the first factor *)
  assert (Hmain : forall p1 xs1 o1 w1, mp true w1 K ((p1, o1) :: (_p5s, [h]) :: L ++ Os) (c - kcost M) -> factor M xs1 o1 ->
    val xs1 = val xs * 5 ^ (k mod 4) ->
    wp n (if k / 4 =? 0 then mret p1 else
      p5 ← load32 _p5s;
      p5 ← (if p5 =? 0 then
          p5 ← i2b calloc _freelist 625;
          store32 _p5s p5 ;;
          store32 (_next p5) 0 ;;
          mret p5
        else mret p5);
      loop (pow5mult_step calloc _freelist) (p1, p5, k / 4)) w1 Q).
  { intros p1 xs1 o1 w1 H1 Hfa1 Hv1. assert (Hkk : k = k mod 4 + 4 * (k / 4)) by lia.
    assert (H5k : 5 ^ k = 5 ^ (k mod 4) * 5 ^ (4 * (k / 4))) by (rewrite <-Z.pow_add_r by lia; by f_equal).
    assert (HkT : 0 <= (2 * Z.log2 k + 3) * kcost M) by (apply Z.mul_nonneg_nonneg; lia).
    destruct (Z.eqb_spec (k / 4) 0) as [E|E]; wp_steps.
    { apply (HQ p1 xs1 o1 h L (c - kcost M)); [done|lia|done| |done]. rewrite H5k, E, Hv1. lia. }
    assert (Hlog4 : Z.log2 (k / 4) <= Z.log2 k) by (apply Z.log2_le_mono; lia). pose proof (Z.log2_nonneg (k / 4)).
    assert (HT : (2 * Z.log2 (k / 4) + 1) * kcost M <= (2 * Z.log2 k + 1) * kcost M) by (apply Z.mul_le_mono_nonneg_r; lia).
    assert (Hloop : forall h1 o5 L1 w2, fives 4 h1 ((h1, o5) :: L1) ->
      mp true w2 K ((p1, o1) :: ((h1, o5) :: L1) ++ (_p5s, [h1]) :: Os) (c - 2 * kcost M) ->
      wp n (loop (pow5mult_step calloc _freelist) (p1, h1, k / 4)) w2 Q).
    { intros h1 o5 L1 w2 Hfi1 H2. apply wp_loop_k.
      eapply (wp_pow5mult_loop M W n _ HM HW HW0 Hf ltac:(lia) n w2 K ((_p5s, [h1]) :: Os) _ (k / 4) p1 xs1 o1 4 h1 o5 L1);
        [lia|lia|exact H2|done|done|lia|by rewrite Hv1, <-Z.mul_assoc, <-H5k|lia|].
      intros p' xs' o' o5' L' w3 H3 Hfa3 Hv3 Hfi3.
      eapply (HQ p' xs' o' h1 ((h1, o5') :: L')); [eapply mp_perm; [exact H3|cbn [app]; perm]|lia|done| |done].
      by rewrite Hv3, Hv1, <-Z.mul_assoc, <-H5k. }
    eapply (wp_load _ _ _ _ _ _p5s [] h []); [exact H1|in_list|cbn; lia|]. destruct L as [|[h1 o5] L].
    - cbn in Hfi. subst h. change (0 =? 0) with true. wp_steps.
      assert (Hb1 : bcost true 1 <= kcost M) by (unfold bcost; pose proof (kcost_mono 1 M); lia).
      eapply wp_i2b; [exact H1|done|lia|lia|]. intros p5 o5 w2 Hp5 H2 Hb5. wp_steps. cbn [app] in H2.
      assert (Hr : 0 < p5 < 1073741824).
      { destruct (mp_range _ _ _ _ _ p5 o5 H2) as [Hr1 Hr2]; [left| |];
          destruct Hb5 as [_ (? & ? & -> & _)]; [done|]. cbn in Hr2. lia. }
      eapply (wp_store _ w2 K ((p5, o5) :: (p1, o1) :: Os) _ _p5s [] 0 [] p5);
        [eapply mp_perm; [exact H2|perm]|cbn; lia|lia|]. intros w3 H3. wp_steps.
      pose proof Hb5 as [Hb50 (nx & ys & Eo5 & Hys)]. rewrite Eo5 in H3.
      eapply (wp_store _ w3 K ((p1, o1) :: (_p5s, [p5]) :: Os) _ p5 [] nx _ 0);
        [eapply mp_perm; [exact H3|unfold bobj; cbn [app]; perm]|unfold _next; cbn; lia|lia|].
      intros w4 H4. wp_steps. apply (Hloop p5 (bobj 0 1 0 [625] ys) []).
      + split_and!; [done|done|]. exists 0, 1, [625], ys. split_and!; [done|split; [done|by exists 0, ys]|done| |cbn; lia|done].
        by intros d [= <-].
      + eapply mp_weaken; [eapply mp_perm; [exact H4|cbn [app]; perm]|lia].
    - pose proof Hfi as (-> & Hp5 & _). rewrite (proj2 (Z.eqb_neq h1 0)) by done. wp_steps.
      apply (Hloop h1 o5 L); [done|]. eapply mp_weaken; [eapply mp_perm; [exact H1|cbn [app]; perm]|lia]. }
  destruct (Z.eqb_spec (k mod 4) 0) as [E|E]; cbn [negb]; wp_step.
  - wp_step. apply (Hmain p xs o w); [eapply mp_weaken; [exact H|lia]|done|]. rewrite E. lia.
  - assert (Hm : exists m, p05 !! Z.to_nat (k mod 4 - 1) = Some m /\ m = 5 ^ (k mod 4) /\ 0 < m < 65536).
    { assert (k mod 4 = 1 \/ k mod 4 = 2 \/ k mod 4 = 3) as [->|[->| ->]] by lia; eexists; split; done. }
    destruct Hm as (m & -> & Em & Hm).
    assert (Hk1 : 1 <= k) by lia. assert (Hlen : zlen xs <= W).
    { assert (Hw := bigint_all_words _ _ _ _ _ _ _ _ _ _ H (list_elem_of_here _ _) Hb).
      apply normal_words; [done|apply Hfa|done|]. assert (0 < 5 ^ k) by lia. nia. }
    eapply wp_multadd; [exact H|exact Hb|by apply normal_ne|lia|lia|done|lia|..].
    + intros Hfull Hcarry. assert (Hpw : 5 ^ (k mod 4) <= 5 ^ k) by (apply Z.pow_le_mono_r; lia).
      assert (Hlt : word ^ zlen xs < word ^ W) by nia. apply Z.pow_lt_mono_r_iff in Hlt; [|lia|lia].
      assert (kb + 1 <= M) by (apply class_le; [rewrite Z.pow_add_r; lia|lia]).
      pose proof (kcost_mono (kb + 1) M). nia.
    + intros p1 k1 xs1 o1 c1 w1 H1 Hb1 Hne1 Hv1 Hno1 Hcase.
      assert (HkT : 0 <= (2 * Z.log2 k + 3) * kcost M) by (apply Z.mul_nonneg_nonneg; lia).
      assert (Hcl : k1 <= M /\ c - kcost M <= c1).
      { destruct Hcase as [[-> ->]|(Hfull & Hcarry & -> & ->)]; [lia|].
        assert (Hpw : 5 ^ (k mod 4) <= 5 ^ k) by (apply Z.pow_le_mono_r; lia).
        assert (Hlt : word ^ zlen xs < word ^ W) by nia. apply Z.pow_lt_mono_r_iff in Hlt; [|lia|lia].
        assert (kb + 1 <= M) by (apply class_le; [rewrite Z.pow_add_r; lia|lia]).
        pose proof (kcost_mono (kb + 1) M). lia. }
      destruct (bigint_len _ _ _ _ Hb1). apply (Hmain p1 xs1 o1 w1); [eapply mp_weaken; [exact H1|lia]| |lia].
      split; [exists k1; split; [done|lia]|apply Hno1; [apply Hfa|lia]|]. rewrite Hv1, Em. assert (0 < 5 ^ (k mod 4)) by lia. nia.
Qed.
End mprec.
