(* ===== verification/MprecDiff.v ===== *)
(** * Big integers: shifts, comparison, difference and the digits of a quotient *)

From S2P Require Import Prelude CMonad Words Memory StrScan MemCopy Heap Blocks Mprec MprecSpec MprecMult.

Section mprec.
Context {malloc free} {A : allocator malloc free} {calloc} {Z_ : zeroing A calloc}.
Context {BC : build} {_freelist : Z}.
Implicit Types (w : world) (K : list (Z * list Z)) (Os P : list block) (c : Z) (xs ys : list Z).
#[local] Abbreviation mp := (mp (_freelist := _freelist)).

(** Where the words of a number are. *)
Lemma x_addr p (l : list Z) : length l = 5%nat -> _x p = p + 4 * zlen l.
Proof. intros H. unfold _x. lia. Qed.

Lemma load_wds b w K Os c p k s xs o n (Q : Z -> world -> Prop) :
  mp b w K Os c -> (p, o) ∈ Os -> bigint k s xs o -> Q (zlen xs) w -> wp n (load_int (_wds p)) w Q.
Proof.
  intros H Hin Hb HQ. destruct (bigint_len _ _ _ _ Hb). destruct Hb as [_ (nx & ys & -> & _)].
  eapply (wp_load_int _ _ _ _ _ p [nx; k; 2 ^ k; s] (zlen xs)); [exact H|exact Hin|unfold _wds; cbn; lia|lia|done].
Qed.

Lemma load_k b w K Os c p k s xs o n (Q : Z -> world -> Prop) :
  mp b w K Os c -> (p, o) ∈ Os -> bigint k s xs o -> Q k w -> wp n (load_int (_k p)) w Q.
Proof.
  intros H Hin Hb HQ. destruct (bigint_len _ _ _ _ Hb). destruct Hb as [_ (nx & ys & -> & _)].
  eapply (wp_load_int _ _ _ _ _ p [nx] k); [exact H|exact Hin|unfold _k; cbn; lia|lia|done].
Qed.

Lemma load_maxwds b w K Os c p k s xs o n (Q : Z -> world -> Prop) :
  mp b w K Os c -> (p, o) ∈ Os -> bigint k s xs o -> Q (2 ^ k) w -> wp n (load_int (_maxwds p)) w Q.
Proof.
  intros H Hin Hb HQ. destruct (bigint_len _ _ _ _ Hb). destruct Hb as [_ (nx & ys & -> & _)].
  eapply (wp_load_int _ _ _ _ _ p [nx; k] (2 ^ k)); [exact H|exact Hin|unfold _maxwds; cbn; lia|lia|done].
Qed.

(** ** cmp *)

Lemma wp_cmp_loop b w K Os c p q prea xs posta preb ys postb n (Q : Z -> world -> Prop) :
  mp b w K Os c -> (p, prea ++ xs ++ posta) ∈ Os -> (q, preb ++ ys ++ postb) ∈ Os ->
  length xs = length ys -> xs <> [] -> all_words xs -> all_words ys ->
  (forall r, Z.sgn r = Z.sgn (val xs - val ys) -> Q r w) ->
  forall k, (length xs <= k)%nat ->
  wp n (loop_k k (cmp_step (p + 4 * zlen prea))
    (p + 4 * zlen prea + 4 * zlen xs, q + 4 * zlen preb + 4 * zlen ys)) w Q.
Proof.
  intros H. revert posta ys postb. induction xs as [|x xs IH] using rev_ind; [done|].
  intros posta ys postb Hp Hq Hl _ Hx Hy HQ k Hk. destruct ys as [|y ys _] using rev_ind; [rewrite length_app in Hl; cbn in Hl; lia|].
  rewrite !length_app in *. cbn [length] in *. destruct k as [|k]; [lia|]. apply wp_loop_S. unfold cmp_step. cbv zeta.
  rewrite <-app_assoc in Hp, Hq. apply Forall_app in Hx as [Hx [Hxw _]%Forall_cons], Hy as [Hy [Hyw _]%Forall_cons].
  assert (Hlx : forall (R : Z -> world -> Prop), R x w ->
    wp n (load32 (p + 4 * zlen prea + 4 * Z.of_nat (length xs + 1) - 4)) w R).
  { intros R HR. eapply (wp_load _ _ _ _ _ p (prea ++ xs) x posta); [exact H|by rewrite <-app_assoc|rewrite length_app; lia|done]. }
  assert (Hly : forall (R : Z -> world -> Prop), R y w ->
    wp n (load32 (q + 4 * zlen preb + 4 * Z.of_nat (length ys + 1) - 4)) w R).
  { intros R HR. eapply (wp_load _ _ _ _ _ q (preb ++ ys) y postb); [exact H|by rewrite <-app_assoc|rewrite length_app; lia|done]. }
  wp_step. apply Hlx. wp_step. apply Hly.
  assert (Hlen : length xs = length ys) by lia. pose proof (val_range xs Hx) as Hrx. pose proof (val_range ys Hy) as Hry.
  rewrite !val_app in HQ. cbn [val] in HQ. rewrite Hlen in HQ, Hk, Hlx, Hl, Hrx |- *. set (W := word ^ zlen ys) in *.
  destruct (Z.eqb_spec x y) as [<-|Hne]; cbn [negb].
  - destruct (Z.leb_spec (p + 4 * zlen prea + 4 * Z.of_nat (length ys + 1) - 4) (p + 4 * zlen prea)) as [Hend|Hgo]; wp_steps.
    + destruct xs, ys; cbn in Hend, Hlen; try lia. apply HQ. cbn. f_equal. lia.
    + replace (p + 4 * zlen prea + 4 * Z.of_nat (length ys + 1) - 4) with (p + 4 * zlen prea + 4 * zlen xs) by lia.
      replace (q + 4 * zlen preb + 4 * Z.of_nat (length ys + 1) - 4) with (q + 4 * zlen preb + 4 * zlen ys) by lia.
      eapply (IH ([x] ++ posta) ys ([x] ++ postb)); [done|done|done| |done|done| |lia].
      { intros ->. cbn in *. lia. }
      intros r Hr. apply HQ. rewrite Hr. f_equal. lia.
  - wp_step. apply Hlx. wp_step. apply Hly. wp_step. apply HQ.
    destruct (Z.ltb_spec x y) as [Hlt|Hge]; symmetry; [apply Z.sgn_neg; nia|apply Z.sgn_pos; nia].
Qed.

Lemma wp_bigcmp b w K Os c p q ka sa xs oa kb sb ys ob n (Q : Z -> world -> Prop) :
  mp b w K Os c -> (p, oa) ∈ Os -> (q, ob) ∈ Os -> bigint ka sa xs oa -> bigint kb sb ys ob ->
  xs <> [] \/ ys <> [] -> (length ys < n)%nat ->
  (forall r, (zlen xs <> zlen ys -> r = zlen xs - zlen ys) ->
    (zlen xs = zlen ys -> Z.sgn r = Z.sgn (val xs - val ys)) -> Q r w) ->
  wp n (cmp p q) w Q.
Proof.
  intros H Hp Hq Ha Hb Hne Hn HQ. unfold cmp. cbv zeta. wp_step.
  eapply load_wds; [exact H|exact Hp|exact Ha|]. wp_step. eapply load_wds; [exact H|exact Hq|exact Hb|].
  destruct (Z.eqb_spec (zlen xs - zlen ys) 0) as [E|E]; cbn [negb]; [|wp_steps; apply HQ; lia].
  pose proof (bigint_all_words _ _ _ _ _ _ _ _ _ _ H Hp Ha) as Hxw. pose proof (bigint_all_words _ _ _ _ _ _ _ _ _ _ H Hq Hb) as Hyw.
  destruct Ha as [_ (n1 & xa & -> & _)], Hb as [_ (n2 & ya & -> & _)].
  apply wp_loop_k. rewrite (x_addr p [n1; ka; 2 ^ ka; sa; zlen xs]), (x_addr q [n2; kb; 2 ^ kb; sb; zlen ys]) by done.
  destruct (decide (xs = [])) as [->|Hxs].
  { destruct ys; [by destruct Hne|]. cbn in E. lia. }
  replace (p + 4 * zlen [n1; ka; 2 ^ ka; sa; zlen xs] + 4 * zlen ys)
    with (p + 4 * zlen [n1; ka; 2 ^ ka; sa; zlen xs] + 4 * zlen xs) by lia.
  eapply wp_cmp_loop; [exact H|exact Hp|exact Hq|lia|done|done|done| |lia].
  intros r Hr. apply HQ; [lia|done].
Qed.

(** ** lshift *)

Lemma lshift_limb x k z : is_word x -> 0 < k < 32 -> 0 <= z < 2 ^ k ->
  let d := Z.lor (u32 (Z.shiftl x k)) z in
  is_word d /\ 0 <= Z.shiftr x (32 - k) < 2 ^ k /\ d + word * Z.shiftr x (32 - k) = x * 2 ^ k + z.
Proof.
  intros Hx Hk Hz. cbv zeta. rewrite Z.shiftl_mul_pow2, Z.shiftr_div_pow2 by lia.
  assert (Hw : word = 2 ^ (32 - k) * 2 ^ k) by (rewrite <-Z.pow_add_r by lia; by replace (32 - k + k) with 32 by lia).
  assert (Hp : 0 < 2 ^ k) by lia. assert (Hp' : 0 < 2 ^ (32 - k)) by lia.
  assert (Hu : u32 (x * 2 ^ k) = x mod 2 ^ (32 - k) * 2 ^ k) by (unfold u32; rewrite Hw; apply Z.mul_mod_distr_r; lia).
  assert (Hlor : Z.lor (u32 (x * 2 ^ k)) z = x mod 2 ^ (32 - k) * 2 ^ k + z).
  { rewrite Hu. apply lor_disjoint; lia. }
  rewrite Hlor. pose proof (Z.div_mod x (2 ^ (32 - k))) as Hdm. pose proof (Z.mod_pos_bound x (2 ^ (32 - k))) as Hmb.
  set (lo := x mod 2 ^ (32 - k)) in *. set (hi := x / 2 ^ (32 - k)) in *. 
  assert (Hhi : 0 <= hi < 2 ^ k).
  { unfold hi. split; [apply Z.div_pos; lia|]. apply Z.div_lt_upper_bound; [lia|]. rewrite <-Hw. lia. }
  split_and!; [nia|nia|lia|lia|]. rewrite Hdm by lia. rewrite Hw. ring.
Qed.

Lemma wp_lshift_loop b K Os c p q k xe xs n (Q : Z * Z -> world -> Prop) : 0 < k < 32 ->
  forall w old pre post prea posta z j, xs <> [] -> length old = length xs ->
  (q, prea ++ xs ++ posta) ∈ Os -> xe = q + 4 * (zlen prea + zlen xs) -> 0 <= z < 2 ^ k ->
  mp b w K ((p, pre ++ old ++ post) :: Os) c -> (length xs <= j)%nat ->
  (forall zs z' w', length zs = length xs -> 0 <= z' < 2 ^ k -> val zs + word ^ zlen xs * z' = val xs * 2 ^ k + z ->
    mp b w' K ((p, pre ++ zs ++ post) :: Os) c -> Q (p + 4 * (zlen pre + zlen xs), z') w') ->
  wp n (loop_k j (lshift_step k (32 - k) xe) (q + 4 * zlen prea, p + 4 * zlen pre, z)) w Q.
Proof.
  intros Hk. induction xs as [|x xs IH]; [done|]. intros w [|v old] pre post prea posta z j _ Hl Hin Hxe Hz H Hj HQ; [done|].
  assert (Hx : is_word x).
  { assert (Hw := all_words_in _ _ _ _ _ q prea (x :: xs) posta H ltac:(by right)). by apply Forall_cons in Hw as [? _]. }
  pose proof (lshift_limb x k z Hx Hk Hz) as (Hd & Hz' & Hv). cbv zeta in *.
  cbn [length] in Hj, Hl. destruct j as [|j]; [lia|]. apply wp_loop_S. unfold lshift_step. cbv zeta. wp_step.
  eapply (wp_load _ _ _ _ _ q prea x (xs ++ posta)); [exact H|by right|done|]. wp_step.
  eapply (wp_store _ _ _ _ _ p pre v (old ++ post)); [exact H|done|done|]. intros w1 H1. wp_step.
  eapply (wp_load _ _ _ _ _ q prea x (xs ++ posta)); [exact H1|by right|done|].
  set (d := Z.lor _ _) in *. set (z1 := Z.shiftr x (32 - k)) in *. destruct xs as [|x' xs'].
  - destruct old; [|done]. rewrite (proj2 (Z.ltb_ge _ _)) by (cbn in Hxe; lia). wp_steps.
    replace (p + 4 * zlen pre + 4) with (p + 4 * (zlen pre + zlen [x])) by (cbn; lia).
    eapply (HQ [d]); [done|done| |done]. cbn [val length]. change (word ^ Z.of_nat 1) with word. lia.
  - rewrite (proj2 (Z.ltb_lt _ _)) by (cbn [length] in Hxe; lia). wp_steps.
    replace (q + 4 * zlen prea + 4) with (q + 4 * zlen (prea ++ [x])) by (rewrite zlen_snoc; lia).
    replace (p + 4 * zlen pre + 4) with (p + 4 * zlen (pre ++ [d])) by (rewrite zlen_snoc; lia).
    eapply (IH _ old (pre ++ [d]) post (prea ++ [x]) posta); [done|lia|by rewrite <-app_assoc| |done|by rewrite <-app_assoc|cbn [length] in *; lia|].
    + rewrite zlen_snoc. cbn [length] in *. lia.
    + intros zs z2 w2 Hl2 Hz2 Hv2 H2. rewrite <-app_assoc in H2. rewrite zlen_snoc.
      replace (p + 4 * (zlen pre + 1 + zlen (x' :: xs'))) with (p + 4 * (zlen pre + zlen (x :: x' :: xs'))) by (cbn [length]; lia).
      apply (HQ (d :: zs)); [by f_equal/=|done| |done].
      cbn [val length] in *. rewrite Nat2Z.inj_succ, Z.pow_succ_r by lia. lia.
Qed.

Lemma wp_copy_loop b K Os c p q xe xs n (Q : unit -> world -> Prop) :
  forall w old pre post prea posta j, xs <> [] -> length old = length xs ->
  (q, prea ++ xs ++ posta) ∈ Os -> xe = q + 4 * (zlen prea + zlen xs) ->
  mp b w K ((p, pre ++ old ++ post) :: Os) c -> (length xs <= j)%nat ->
  (forall w', mp b w' K ((p, pre ++ xs ++ post) :: Os) c -> Q tt w') ->
  wp n (loop_k j (copy_step xe) (q + 4 * zlen prea, p + 4 * zlen pre)) w Q.
Proof.
  induction xs as [|x xs IH]; [done|]. intros w [|v old] pre post prea posta j _ Hl Hin Hxe H Hj HQ; [done|].
  assert (Hx : is_word x).
  { assert (Hw := all_words_in _ _ _ _ _ q prea (x :: xs) posta H ltac:(by right)). by apply Forall_cons in Hw as [? _]. }
  cbn [length] in Hj, Hl. destruct j as [|j]; [lia|]. apply wp_loop_S. unfold copy_step. cbv zeta. wp_step.
  eapply (wp_load _ _ _ _ _ q prea x (xs ++ posta)); [exact H|by right|done|]. wp_step.
  eapply (wp_store _ _ _ _ _ p pre v (old ++ post)); [exact H|done|done|]. intros w1 H1. destruct xs as [|x' xs'].
  - destruct old; [|done]. rewrite (proj2 (Z.ltb_ge _ _)) by (cbn in Hxe; lia). wp_steps. by apply HQ.
  - rewrite (proj2 (Z.ltb_lt _ _)) by (cbn [length] in Hxe; lia). wp_steps.
    replace (q + 4 * zlen prea + 4) with (q + 4 * zlen (prea ++ [x])) by (rewrite zlen_snoc; lia).
    replace (p + 4 * zlen pre + 4) with (p + 4 * zlen (pre ++ [x])) by (rewrite zlen_snoc; lia).
    eapply (IH _ old (pre ++ [x]) post (prea ++ [x]) posta); [done|lia|by rewrite <-app_assoc| |by rewrite <-app_assoc|cbn [length] in *; lia|].
    + rewrite zlen_snoc. cbn [length] in *. lia.
    + intros w2 H2. rewrite <-app_assoc in H2. by apply HQ.
Qed.

(** The class that [lshift] takes. *)
Definition shift_class (kb : Z) xs (k : Z) : Z := Z.max kb (Z.log2_up (k / 32 + zlen xs + 1)).

Lemma shift_class_room kb xs k : 0 <= kb <= 15 -> 0 <= k -> k / 32 + zlen xs + 1 <= 2 ^ shift_class kb xs k.
Proof.
  intros Hkb Hk. unfold shift_class.
  trans (2 ^ Z.log2_up (k / 32 + zlen xs + 1)); [apply Z.log2_up_le_pow2; lia|apply Z.pow_le_mono_r; lia].
Qed.

Lemma wp_lshift_class kb xs k n w (Q : Z * Z -> world -> Prop) : 0 <= kb <= 15 -> 0 <= k -> shift_class kb xs k <= 15 ->
  (15 < n)%nat -> (forall i, Q (shift_class kb xs k, i) w) ->
  wp n (loop (fun '(k1, i) =>
    if i <? k / 32 + zlen xs + 1 then next (k1 + 1, i32 (Z.shiftl i 1)) else brk (k1, i)) (kb, 2 ^ kb)) w Q.
Proof.
  intros Hkb Hk Hcl Hn HQ. apply wp_loop_k. unfold shift_class in *. set (x := k / 32 + zlen xs + 1) in *.
  pose proof (Z.log2_up_nonneg x). destruct (Z.le_gt_cases (Z.log2_up x) kb) as [Hle|Hgt].
  - rewrite Z.max_l in HQ by lia. destruct n as [|n]; [lia|]. apply wp_loop_S.
    rewrite (proj2 (Z.ltb_ge _ _)); [wp_steps; apply HQ|]. apply Z.log2_up_le_pow2; lia.
  - rewrite Z.max_r in HQ, Hcl by lia. apply wp_class; [|lia|lia|apply HQ].
    assert (x <= 2 ^ 15) by (apply Z.log2_up_le_pow2; lia). lia.
Qed.

Lemma normal_app_zeros j xs : normal xs -> xs <> [] -> normal (replicate j 0 ++ xs).
Proof.
  intros Hn Hne d Hd. destruct xs as [|x xs _] using rev_ind; [done|].
  rewrite app_assoc, last_snoc in Hd. apply Hn. by rewrite last_snoc.
Qed.

Lemma val_shift j xs : val (replicate j 0 ++ xs) = 2 ^ (32 * Z.of_nat j) * val xs.
Proof.
  rewrite val_app, val_zeros, length_replicate, Z.pow_mul_r by lia. change (2 ^ 32) with word. lia.
Qed.

Lemma wp_lshift w K Os c p kb s xs o k n (Q : Z -> world -> Prop) :
  mp true w K ((p, o) :: Os) c -> bigint kb s xs o -> xs <> [] -> 0 <= k ->
  shift_class kb xs k <= 15 -> kcost (shift_class kb xs k) <= c -> (alloc_fuel <= n)%nat ->
  2 ^ shift_class kb xs k < Z.of_nat n -> (15 < n)%nat ->
  (forall r zs o' w', mp true w' K ((r, o') :: Os) (c - kcost (shift_class kb xs k)) ->
    bigint (shift_class kb xs k) 0 zs o' -> val zs = val xs * 2 ^ k -> zs <> [] -> (normal xs -> normal zs) -> Q r w') ->
  wp n (lshift calloc _freelist p k) w Q.
Proof.
  intros H Hb Hne Hk Hcl Hcost Hf Hn Hn15 HQ. destruct (bigint_len _ _ _ _ Hb) as [Hkb Hlen].
  unfold lshift. cbv zeta. rewrite Z.shiftr_div_pow2 by lia. change (2 ^ 5) with 32. set (m := Z.to_nat (k / 32)).
  assert (Hx : all_words xs) by (eapply bigint_all_words; [exact H|left|exact Hb]).
  pose proof (shift_class_room kb xs k Hkb Hk) as Hroom. set (kc := shift_class kb xs k) in *.
  assert (Hkc : 0 <= kc <= 15) by (unfold kc, shift_class in *; lia). pose proof (pow2_class kc Hkc) as Hpow.
  wp_step. eapply load_k; [exact H|left|exact Hb|]. wp_step. eapply load_wds; [exact H|left|exact Hb|]. wp_step.
  eapply load_maxwds; [exact H|left|exact Hb|]. wp_step.
  apply wp_lshift_class; [done|done|done|done|]. intros i. fold kc. wp_steps.
  eapply wp_Balloc; [exact H|done|done|unfold bcost; lia|]. unfold bcost. intros r nx x w1 Hr Hx1 H1. wp_steps.
  set (hdr := [nx; kc; 2 ^ kc; 0; 0]) in *. rewrite (x_addr r hdr) by done.
  rewrite <-(take_drop m x) in H1. assert (Hm : length (take m x) = m) by (rewrite length_take; lia).
  eapply (wp_clear_words _ _ _ _ r (take m x) n _ ltac:(lia) w1 hdr (drop m x)); [lia|exact H1|].
  rewrite Hm. intros w2 H2. wp_steps. eapply load_wds; [exact H2|by right; left|exact Hb|]. wp_steps.
  pose proof Hb as [_ (nxb & yb & Eo & Hyb)].
  set (hb := [nxb; kb; 2 ^ kb; s; zlen xs]). rewrite (x_addr p hb) by done.
  assert (Hin : (p, hb ++ xs ++ yb) ∈ (p, o) :: Os) by (rewrite Eo; left).
  replace (r + 4 * zlen hdr + 4 * (k / 32)) with (r + 4 * zlen (hdr ++ replicate m 0))
    by (rewrite length_app, length_replicate; lia).
  pose (l := length xs). assert (Hl0 : (0 < l)%nat) by (unfold l; destruct xs; cbn; [done|lia]).
  assert (Hdr : (l + 1 <= length (drop m x))%nat) by (rewrite length_drop; lia).
  rewrite <-(take_drop l (drop m x)) in H2. set (old := take l (drop m x)) in *.
  assert (Hold : length old = l) by (unfold old; rewrite length_take; lia).
  destruct (drop l (drop m x)) as [|v post] eqn:Epost.
  { apply (f_equal length) in Epost. rewrite length_drop in Epost. cbn in Epost. lia. }
  assert (Hpost : zlen post = 2 ^ kc - Z.of_nat m - Z.of_nat l - 1).
  { apply (f_equal length) in Epost. rewrite !length_drop in Epost. cbn in Epost. lia. }
  assert (Hmod : Z.land k 0x1f = k mod 32) by (change (Z.land k 0x1f) with (Z.land k (Z.ones 5)); by rewrite Z.land_ones).
  rewrite Hmod. clear Hmod.
  assert (Hkk : 2 ^ k = 2 ^ (32 * Z.of_nat m) * 2 ^ (k mod 32)) by (rewrite <-Z.pow_add_r by lia; f_equal; lia).
  (* the words of the result and the rest of its block *)
  assert (Hend : forall zs post' w3, zlen zs + zlen post' = 2 ^ kc -> zs <> [] -> val zs = val xs * 2 ^ k -> (normal xs -> normal zs) ->
    mp true w3 K ((r, hdr ++ zs ++ post') :: (p, o) :: Os) (c - (0 + kcost kc)) ->
    wp n (store_int (_wds r) (zlen zs) ;; Bfree _freelist p ;; mret r) w3 Q).
  { intros zs post' w3 Hlz Hnz Hvz Hnoz H3. wp_step. unfold hdr in H3.
    eapply (wp_store_int _ _ _ _ _ r [nx; kc; 2 ^ kc; 0] 0 (zs ++ post')); [exact H3|unfold _wds; cbn; lia|lia|].
    intros w4 H4. wp_steps. eapply (wp_Bfree w4 K ((r, bobj nx kc 0 zs post') :: Os) _ p); [eapply mp_perm; [exact H4|unfold bobj; cbn [app]; perm]|exact Hb|].
    intros w5 H5. wp_steps. eapply (HQ r zs _ w5); [eapply mp_weaken; [exact H5|lia]| |done|done|done].
    split; [done|]. exists nx, post'. done. }
  destruct (Z.eqb_spec (k mod 32) 0) as [E|E]; cbn [negb]; wp_step.
  - apply wp_loop_k.
    eapply (wp_copy_loop _ _ ((p, o) :: Os) _ r p _ xs n _ w2 old (hdr ++ replicate m 0) (v :: post) hb yb);
      [done|done|exact Hin|lia|by rewrite <-app_assoc|lia|].
    intros w3 H3. wp_step. replace (k / 32 + zlen xs + 1 - 1) with (zlen (replicate m 0 ++ xs)) by (rewrite length_app, length_replicate; lia).
    rewrite <-app_assoc in H3. eapply (Hend _ (v :: post)).
    + rewrite length_app, length_replicate. cbn [length]. lia.
    + by destruct xs; [|destruct m].
    + rewrite val_shift, Hkk, E. lia.
    + intros. by apply normal_app_zeros.
    + by rewrite <-app_assoc.
  - apply wp_loop_k.
    eapply (wp_lshift_loop _ _ ((p, o) :: Os) _ r p (k mod 32) _ xs n _ ltac:(lia) w2 old (hdr ++ replicate m 0) (v :: post) hb yb);
      [done|done|exact Hin|lia|lia|by rewrite <-app_assoc|lia|].
    intros zs z w3 Hlz Hz Hvz H3. rewrite <-app_assoc in H3.
    assert (Hvzs : val (replicate m 0 ++ zs ++ [z]) = val xs * 2 ^ k).
    { rewrite val_shift, val_app. cbn [val]. rewrite Hlz, Hkk. lia. }
    replace (r + 4 * (zlen (hdr ++ replicate m 0) + zlen xs)) with (r + 4 * zlen (hdr ++ replicate m 0 ++ zs))
      by (rewrite !length_app; lia).
    wp_steps. eapply (wp_store _ _ _ _ _ r (hdr ++ replicate m 0 ++ zs) v post); [by rewrite <-!app_assoc|done| |].
    { assert (2 ^ (k mod 32) <= 2 ^ 31) by (apply Z.pow_le_mono_r; lia). lia. }
    intros w4 H4. wp_step. rewrite <-!app_assoc in H4. destruct (Z.eqb_spec z 0) as [->|Hz0]; cbn [negb].
    + replace (k / 32 + zlen xs + 1 - 1) with (zlen (replicate m 0 ++ zs)) by (rewrite length_app, length_replicate; lia).
      assert (Hv2 : val (replicate m 0 ++ zs) = val xs * 2 ^ k).
      { rewrite <-Hvzs, !val_shift, val_app. cbn [val]. lia. }
      apply (Hend _ (0 :: post)); [..|by rewrite <-app_assoc].
      * rewrite length_app, length_replicate. cbn [length]. lia.
      * destruct zs; [cbn in Hlz; lia|]. by destruct m.
      * done.
      * intros Hno. apply normal_of_val.
        { eapply (all_words_in _ _ _ _ _ r hdr _ (0 :: post)); [exact H4|rewrite <-app_assoc; left]. }
        rewrite Hv2, length_app, length_replicate, Hkk. assert (Hlow := normal_low xs Hx Hno Hne).
        replace (Z.of_nat (m + length zs) - 1) with (Z.of_nat m + (zlen xs - 1)) by lia.
        rewrite Z.pow_add_r, Z.pow_mul_r by lia. change (2 ^ 32) with word.
        assert (0 < word ^ Z.of_nat m) by lia. assert (1 <= 2 ^ (k mod 32)) by lia. pose proof (val_range xs Hx).
        rewrite (Z.mul_comm (val xs)), <-Z.mul_assoc. apply Z.mul_le_mono_nonneg_l; nia.
    + replace (k / 32 + zlen xs + 1 + 1 - 1) with (zlen (replicate m 0 ++ zs ++ [z])) by (rewrite !length_app, length_replicate; cbn; lia).
      apply (Hend _ post); [..|by rewrite <-!app_assoc].
      * rewrite !length_app, length_replicate. cbn [length]. lia.
      * destruct zs; [cbn in Hlz; lia|]. by destruct m.
      * done.
      * intros _ d. rewrite app_assoc, last_snoc. by intros [= <-].
Qed.
End mprec.
