(* ===== verification/MprecQuot.v ===== *)
(** * Big integers: difference, and the digits of a quotient *)

From S2P Require Import Prelude CMonad Words Memory StrScan MemCopy Heap Blocks Mprec MprecSpec MprecMult MprecDiff.

Section mprec.
Context {malloc free} {A : allocator malloc free} {calloc} {Z_ : zeroing A calloc}.
Context {BC : build} {_freelist : Z}.
Implicit Types (w : world) (K : list (Z * list Z)) (Os P : list block) (c : Z) (xs ys zs : list Z).
#[local] Abbreviation mp := (mp (_freelist := _freelist)).

(** A word minus the word of the halves [lb] and [hb]. *)
Lemma sub_limb a lb hb borrow y z : is_word a -> 0 <= lb < 65536 -> 0 <= hb < 65536 -> -1 <= borrow <= 0 ->
  y = i32 (a mod 65536 - lb + borrow) -> z = i32 (a / 65536 - hb + Z.shiftr y 16) ->
  let d := Z.lor (u32 (Z.shiftl z 16)) (Z.land y 0xffff) in
  is_word d /\ -1 <= Z.shiftr z 16 <= 0 /\ d + word * Z.shiftr z 16 = a - (lb + 65536 * hb) + borrow.
Proof.
  intros Ha Hlb Hhb Hb -> ->. cbv zeta. rewrite half_words, !shr_half.
  rewrite (i32_small (a mod 65536 - lb + borrow)) by lia. rewrite i32_small by lia. lia.
Qed.

(** ** diff *)

Lemma wp_diff_loop b K Os c p q r xbe ys n (Q : Z * Z * Z -> world -> Prop) :
  forall w xs old pre post prea posta preb postb borrow j, ys <> [] -> length xs = length ys -> length old = length ys ->
  (q, prea ++ xs ++ posta) ∈ Os -> (r, preb ++ ys ++ postb) ∈ Os -> xbe = r + 4 * (zlen preb + zlen ys) ->
  -1 <= borrow <= 0 -> mp b w K ((p, pre ++ old ++ post) :: Os) c -> (length ys <= j)%nat ->
  (forall zs borrow' w', length zs = length ys -> -1 <= borrow' <= 0 ->
    val zs + word ^ zlen ys * borrow' = val xs - val ys + borrow -> mp b w' K ((p, pre ++ zs ++ post) :: Os) c ->
    Q (q + 4 * (zlen prea + zlen xs), p + 4 * (zlen pre + zlen zs), borrow') w') ->
  wp n (loop_k j (diff_step xbe) (q + 4 * zlen prea, r + 4 * zlen preb, p + 4 * zlen pre, borrow)) w Q.
Proof.
  induction ys as [|y ys IH]; [done|]. intros w [|x xs] [|v old] pre post prea posta preb postb borrow j _ Hlx Hlo Hin Hin2 Hxbe Hb H Hj HQ; [done..|].
  assert (Hx : is_word x).
  { assert (Hw := all_words_in _ _ _ _ _ q prea (x :: xs) posta H ltac:(by right)). by apply Forall_cons in Hw as [? _]. }
  assert (Hy : is_word y).
  { assert (Hw := all_words_in _ _ _ _ _ r preb (y :: ys) postb H ltac:(by right)). by apply Forall_cons in Hw as [? _]. }
  cbn [length] in Hj, Hlx, Hlo. destruct j as [|j]; [lia|]. apply wp_loop_S. unfold diff_step. cbv zeta. wp_step.
  assert (Hlx' : forall (R : Z -> world -> Prop), R x w -> wp n (load32 (q + 4 * zlen prea)) w R).
  { intros R HR. eapply (wp_load _ _ _ _ _ q prea x (xs ++ posta)); [exact H|by right|done|done]. }
  assert (Hly' : forall (R : Z -> world -> Prop), R y w -> wp n (load32 (r + 4 * zlen preb)) w R).
  { intros R HR. eapply (wp_load _ _ _ _ _ r preb y (ys ++ postb)); [exact H|by right|done|done]. }
  apply Hlx'. wp_step. apply Hly'. wp_step. apply Hlx'. wp_step. apply Hly'. wp_step.
  rewrite !land_low, !(shr_half x), !(shr_half y).
  set (d1 := i32 (x mod 65536 - _ + _)). set (d2 := i32 (x / 65536 - _ + _)).
  destruct (sub_limb x (y mod 65536) (y / 65536) borrow d1 d2) as (Hd & Hb' & Hv); [lia|lia|lia|lia|done|done|]. cbv zeta in *.
  eapply (wp_Storeinc _ _ _ _ _ p pre v (old ++ post)); [exact H|done|]. intros w1 H1.
  set (d := Z.lor _ _) in *. set (b1 := Z.shiftr d2 16) in *. destruct ys as [|y' ys'].
  - destruct old; [|done]. destruct xs; [|done]. rewrite (proj2 (Z.ltb_ge _ _)) by (cbn in Hxbe; lia). wp_steps.
    replace (q + 4 * zlen prea + 4) with (q + 4 * (zlen prea + zlen [x])) by (cbn; lia).
    replace (p + 4 * zlen pre + 4) with (p + 4 * (zlen pre + zlen [d])) by (cbn; lia).
    eapply (HQ [d]); [done|done| |done]. cbn [val length]. change (word ^ Z.of_nat 1) with word. lia.
  - rewrite (proj2 (Z.ltb_lt _ _)) by (cbn [length] in Hxbe; lia). wp_steps.
    replace (q + 4 * zlen prea + 4) with (q + 4 * zlen (prea ++ [x])) by (rewrite zlen_snoc; lia).
    replace (r + 4 * zlen preb + 4) with (r + 4 * zlen (preb ++ [y])) by (rewrite zlen_snoc; lia).
    replace (p + 4 * zlen pre + 4) with (p + 4 * zlen (pre ++ [d])) by (rewrite zlen_snoc; lia).
    eapply (IH _ xs old (pre ++ [d]) post (prea ++ [x]) posta (preb ++ [y]) postb);
      [done|lia|lia|by rewrite <-app_assoc|by rewrite <-app_assoc| |done|by rewrite <-app_assoc|cbn [length] in *; lia|].
    + rewrite zlen_snoc. cbn [length] in *. lia.
    + intros zs b2 w2 Hl2 Hb2 Hv2 H2. rewrite <-app_assoc in H2. rewrite !zlen_snoc.
      replace (q + 4 * (zlen prea + 1 + zlen xs)) with (q + 4 * (zlen prea + zlen (x :: xs))) by (cbn [length]; lia).
      replace (p + 4 * (zlen pre + 1 + zlen zs)) with (p + 4 * (zlen pre + zlen (d :: zs))) by (cbn [length]; lia).
      apply (HQ (d :: zs)); [by f_equal/=|done| |done].
      cbn [val length] in *. rewrite Nat2Z.inj_succ, Z.pow_succ_r by lia. lia.
Qed.

Lemma wp_diff_rest_loop b K Os c p q xae xs n (Q : Z -> world -> Prop) :
  forall w old pre post prea posta borrow j, length old = length xs ->
  (q, prea ++ xs ++ posta) ∈ Os -> xae = q + 4 * (zlen prea + zlen xs) ->
  -1 <= borrow <= 0 -> mp b w K ((p, pre ++ old ++ post) :: Os) c -> (length xs < j)%nat ->
  (forall zs borrow' w', length zs = length xs -> -1 <= borrow' <= 0 ->
    val zs + word ^ zlen xs * borrow' = val xs + borrow -> mp b w' K ((p, pre ++ zs ++ post) :: Os) c ->
    Q (p + 4 * (zlen pre + zlen zs)) w') ->
  wp n (loop_k j (diff_rest_step xae) (q + 4 * zlen prea, p + 4 * zlen pre, borrow)) w Q.
Proof.
  induction xs as [|x xs IH]; intros w [|v old] pre post prea posta borrow j Hl Hin Hxae Hb H Hj HQ; try done;
    (destruct j as [|j]; [lia|]); apply wp_loop_S; unfold diff_rest_step; cbv zeta.
  - rewrite (proj2 (Z.ltb_ge _ _)) by (cbn in Hxae; lia). wp_steps.
    replace (p + 4 * zlen pre) with (p + 4 * (zlen pre + zlen ([] : list Z))) by (cbn; lia).
    apply (HQ [] borrow); [done|done|cbn [val length]; change (word ^ Z.of_nat 0) with 1; lia|done].
  - assert (Hx : is_word x).
    { assert (Hw := all_words_in _ _ _ _ _ q prea (x :: xs) posta H ltac:(by right)). by apply Forall_cons in Hw as [? _]. }
    cbn [length] in Hj, Hl. rewrite (proj2 (Z.ltb_lt _ _)) by (cbn [length] in Hxae; lia). wp_step.
    assert (Hlx' : forall (R : Z -> world -> Prop), R x w -> wp n (load32 (q + 4 * zlen prea)) w R).
    { intros R HR. eapply (wp_load _ _ _ _ _ q prea x (xs ++ posta)); [exact H|by right|done|done]. }
    apply Hlx'. wp_step. apply Hlx'. wp_step. rewrite !land_low, !(shr_half x).
    set (d1 := i32 (x mod 65536 + _)). set (d2 := i32 (x / 65536 + _)).
    destruct (sub_limb x 0 0 borrow d1 d2) as (Hd & Hb' & Hv); [lia|lia|lia|lia|unfold d1; f_equal; lia|unfold d2; f_equal; lia|]. cbv zeta in *.
    eapply (wp_Storeinc _ _ _ _ _ p pre v (old ++ post)); [exact H|done|]. intros w1 H1. wp_steps.
    set (d := Z.lor _ _) in *. set (b1 := Z.shiftr d2 16) in *.
    replace (q + 4 * zlen prea + 4) with (q + 4 * zlen (prea ++ [x])) by (rewrite zlen_snoc; lia).
    replace (p + 4 * zlen pre + 4) with (p + 4 * zlen (pre ++ [d])) by (rewrite zlen_snoc; lia).
    eapply (IH _ old (pre ++ [d]) post (prea ++ [x]) posta);
      [lia|by rewrite <-app_assoc| |done|by rewrite <-app_assoc|lia|].
    + rewrite zlen_snoc. cbn [length] in *. lia.
    + intros zs b2 w2 Hl2 Hb2 Hv2 H2. rewrite <-app_assoc in H2. rewrite zlen_snoc.
      replace (p + 4 * (zlen pre + 1 + zlen zs)) with (p + 4 * (zlen pre + zlen (d :: zs))) by (cbn [length]; lia).
      apply (HQ (d :: zs) b2); [by f_equal/=|done| |done].
      cbn [val length] in *. rewrite Nat2Z.inj_succ, Z.pow_succ_r by lia. lia.
Qed.

Lemma wp_diff_trim b w K Os c p n (Q : Z -> world -> Prop) : forall cs pre post k,
  (p, pre ++ cs ++ post) ∈ Os -> mp b w K Os c -> (length cs <= k)%nat -> val cs <> 0 ->
  (forall zs j, cs = zs ++ replicate j 0 -> normal zs -> zs <> [] -> Q (zlen zs) w) ->
  wp n (loop_k k diff_trim_step (p + 4 * (zlen pre + zlen cs), zlen cs)) w Q.
Proof.
  induction cs as [|d cs IH] using rev_ind; [done|]. intros pre post k Hin H Hk Hv HQ.
  rewrite length_app in Hk. cbn in Hk. destruct k as [|k]; [lia|]. apply wp_loop_S. unfold diff_trim_step. cbv zeta. wp_step.
  eapply (wp_load _ _ _ _ _ p (pre ++ cs) d post); [exact H|by rewrite <-!app_assoc in *|rewrite zlen_snoc, length_app; lia|].
  destruct (Z.eqb_spec d 0) as [->|Hd]; wp_steps.
  - rewrite zlen_snoc.
    replace (p + 4 * (zlen pre + (zlen cs + 1)) - 4) with (p + 4 * (zlen pre + zlen cs)) by lia.
    replace (zlen cs + 1 - 1) with (zlen cs) by lia.
    apply (IH pre ([0] ++ post)); [by rewrite <-!app_assoc in *|done|lia| |].
    + intros E. apply Hv. rewrite val_app, E. cbn [val]. lia.
    + intros zs j -> Hno. apply (HQ zs (S j)); [|done]. by rewrite replicate_S_end, app_assoc.
  - apply (HQ (cs ++ [d]) 0%nat); [by rewrite app_nil_r| |by destruct cs]. intros d'. rewrite last_snoc. by intros [= <-].
Qed.

Lemma wp_diff_ordered w K Os c p q ka sa xs oa kb sb ys ob i n (Q : Z -> world -> Prop) :
  mp true w K Os c -> (p, oa) ∈ Os -> (q, ob) ∈ Os -> bigint ka sa xs oa -> bigint kb sb ys ob ->
  ys <> [] -> zlen ys <= zlen xs -> val ys < val xs -> 0 <= i <= 1 -> kcost ka <= c ->
  (alloc_fuel <= n)%nat -> (length xs < n)%nat ->
  (forall r zs o w', mp true w' K ((r, o) :: Os) (c - kcost ka) -> bigint ka i zs o ->
    val zs = val xs - val ys -> normal zs -> zs <> [] -> Q r w') ->
  wp n (diff_ordered calloc _freelist p q i) w Q.
Proof.
  intros H Hp Hq Ha Hb Hne Hle Hlt Hi Hcost Hf Hn HQ. destruct (bigint_len _ _ _ _ Ha) as [Hka Hla].
  unfold diff_ordered. wp_step. eapply load_k; [exact H|exact Hp|exact Ha|]. wp_step.
  eapply wp_Balloc; [exact H|done|done|unfold bcost; lia|]. unfold bcost. intros r nx x w1 Hr Hx H1. wp_step.
  eapply (wp_store_int _ _ _ _ _ r [nx; ka; 2 ^ ka] 0 (0 :: x)); [exact H1|unfold _sign; cbn; lia|lia|].
  intros w2 H2. wp_step. eapply load_wds; [exact H2|by right; exact Hp|exact Ha|]. cbv zeta. wp_step.
  eapply load_wds; [exact H2|by right; exact Hq|exact Hb|]. wp_step.
  destruct Ha as [Hka' (nxa & ya & -> & Hya)], Hb as [Hkb' (nxb & yb & -> & Hyb)].
  set (hdr := [nx; ka; 2 ^ ka; i; 0]) in *. change ([nx; ka; 2 ^ ka] ++ i :: 0 :: x) with (hdr ++ x) in H2.
  pose (ha := [nxa; ka; 2 ^ ka; sa; zlen xs]). pose (hb := [nxb; kb; 2 ^ kb; sb; zlen ys]).
  rewrite (x_addr r hdr), (x_addr p ha), (x_addr q hb) by done. apply wp_loop_k.
  pose (l := length ys). pose (m := length xs).
  rewrite <-(take_drop m x) in H2. rewrite <-(take_drop l (take m x)), <-app_assoc in H2.
  assert (Hx12 : xs = take l xs ++ drop l xs) by (by rewrite take_drop).
  set (x1 := take l xs) in *. set (x2 := drop l xs) in *.
  assert (Hl1 : length x1 = l) by (unfold x1; rewrite length_take; lia).
  assert (Hl2 : (length x2 = m - l)%nat) by (unfold x2; by rewrite length_drop).
  assert (Hin : (p, ha ++ x1 ++ x2 ++ ya) ∈ Os).
  { unfold bobj in Hp. replace (x1 ++ x2 ++ ya) with (xs ++ ya); [exact Hp|]. by rewrite app_assoc, <-Hx12. }
  eapply (wp_diff_loop _ _ _ _ r p q _ ys n _ w2 x1 (take l (take m x)) hdr _ ha _ hb yb);
    [done|done|rewrite !length_take; lia|exact Hin|exact Hq|lia|lia|exact H2|lia|].
  intros z1 b1 w3 Hz1 Hb1 Hv1 H3. wp_steps. apply wp_loop_k.
  replace (p + 4 * (zlen ha + zlen x1)) with (p + 4 * zlen (ha ++ x1)) by (rewrite length_app; lia).
  replace (r + 4 * (zlen hdr + zlen z1)) with (r + 4 * zlen (hdr ++ z1)) by (rewrite length_app; lia).
  eapply (wp_diff_rest_loop _ _ _ _ r p _ x2 n _ w3 (drop l (take m x)) (hdr ++ z1) (drop m x) (ha ++ x1) ya);
    [rewrite length_drop, length_take; lia|by rewrite <-app_assoc| |done|by rewrite <-app_assoc|lia|].
  { rewrite length_app. lia. }
  intros z2 b2 w4 Hz2 Hb2 Hv2 H4. wp_steps. apply wp_loop_k. rewrite <-app_assoc in H4.
  replace (r + 4 * (zlen (hdr ++ z1) + zlen z2)) with (r + 4 * (zlen hdr + zlen (z1 ++ z2))) by (rewrite !length_app; lia).
  replace (zlen xs) with (zlen (z1 ++ z2)) by (rewrite length_app; lia).
  assert (Hw : all_words (z1 ++ z2)).
  { eapply (all_words_in _ _ _ _ _ r hdr _ (drop m x)); [exact H4|rewrite <-app_assoc; left]. }
  assert (Hv : val (z1 ++ z2) = val xs - val ys).
  { pose proof (val_range _ Hw) as Hrange. rewrite length_app in Hrange.
    assert (Hxs : val xs = val x1 + word ^ zlen x1 * val x2) by (rewrite Hx12 at 1; apply val_app).
    fold l in Hz1, Hv1. rewrite val_app in *. rewrite Hz1, Hl1 in *.
    rewrite Hz2, Nat2Z.inj_add, Z.pow_add_r in Hrange by lia. set (B1 := word ^ Z.of_nat l) in *. set (B2 := word ^ zlen x2) in *.
    assert (Hsum : val z1 + B1 * val z2 + B1 * B2 * b2 = val xs - val ys).
    { rewrite Hxs. replace (val z1) with (val x1 - val ys - B1 * b1) by lia.
      replace (val x2) with (val z2 + B2 * b2 - b1) by lia. ring. }
    set (B := B1 * B2) in *. assert (b2 = 0 \/ b2 = -1) as [->| ->] by lia; lia. }
  eapply (wp_diff_trim _ _ _ _ _ r _ _ (z1 ++ z2) hdr (drop m x)); [rewrite <-app_assoc; left|exact H4|rewrite length_app; lia|lia|].
  intros zs j Ezs Hno Hnz. wp_steps. rewrite (app_assoc z1 z2), Ezs in H4. unfold hdr in H4.
  assert (Hlen : zlen zs + Z.of_nat j = zlen xs).
  { apply (f_equal length) in Ezs. rewrite !length_app, length_replicate in Ezs. lia. }
  eapply (wp_store_int _ _ _ _ _ r [nx; ka; 2 ^ ka; i] 0 ((zs ++ replicate j 0) ++ drop m x)); [exact H4|unfold _wds; cbn; lia|lia|].
  intros w5 H5. wp_steps. rewrite <-app_assoc in H5.
  eapply (HQ r zs (bobj nx ka i zs (replicate j 0 ++ drop m x))); [eapply mp_weaken; [exact H5|lia]| | |done|done].
  - split; [done|]. exists nx, (replicate j 0 ++ drop m x). split; [done|]. rewrite length_app, length_replicate, length_drop. lia.
  - rewrite <-Hv, Ezs, val_app, val_zeros. lia.
Qed.

Lemma wp_cmp_normal b w K Os c p q ka sa xs oa kb sb ys ob n (Q : Z -> world -> Prop) :
  mp b w K Os c -> (p, oa) ∈ Os -> (q, ob) ∈ Os -> bigint ka sa xs oa -> bigint kb sb ys ob ->
  normal xs -> normal ys -> xs <> [] \/ ys <> [] -> (length ys < n)%nat ->
  (forall r, Z.sgn r = Z.sgn (val xs - val ys) -> Q r w) -> wp n (cmp p q) w Q.
Proof.
  intros H Hp Hq Ha Hb Hnx Hny Hne Hn HQ.
  assert (Hwx := bigint_all_words _ _ _ _ _ _ _ _ _ _ H Hp Ha). assert (Hwy := bigint_all_words _ _ _ _ _ _ _ _ _ _ H Hq Hb).
  eapply (wp_bigcmp _ _ _ _ _ p q); [done..|]. intros r Hr1 Hr2. apply HQ.
  destruct (Z.lt_trichotomy (zlen xs) (zlen ys)) as [Hlt|[E|Hgt]]; [|by apply Hr2|].
  - rewrite Hr1 by lia. pose proof (val_len xs ys Hwx Hwy Hny). rewrite !Z.sgn_neg by lia. done.
  - rewrite Hr1 by lia. pose proof (val_len ys xs Hwy Hwx Hnx). rewrite !Z.sgn_pos by lia. done.
Qed.

Lemma wp_diff w K Os c p q ka sa xs oa kb sb ys ob n (Q : Z -> world -> Prop) :
  mp true w K Os c -> (p, oa) ∈ Os -> (q, ob) ∈ Os -> bigint ka sa xs oa -> bigint kb sb ys ob ->
  normal xs -> normal ys -> xs <> [] -> ys <> [] -> kcost (Z.max ka kb) <= c ->
  (alloc_fuel <= n)%nat -> (length xs < n)%nat -> (length ys < n)%nat ->
  (forall r k zs o w', mp true w' K ((r, o) :: Os) (c - kcost (Z.max ka kb)) ->
    bigint k (if val xs <? val ys then 1 else 0) zs o ->
    val zs = Z.abs (val xs - val ys) -> zs <> [] -> (val xs <> val ys -> normal zs) -> Q r w') ->
  wp n (diff calloc _freelist p q) w Q.
Proof.
  intros H Hp Hq Ha Hb Hnx Hny Hnex Hney Hcost Hf Hn1 Hn2 HQ.
  destruct (bigint_len _ _ _ _ Ha) as [Hka _]. destruct (bigint_len _ _ _ _ Hb) as [Hkb _].
  assert (Hwx := bigint_all_words _ _ _ _ _ _ _ _ _ _ H Hp Ha). assert (Hwy := bigint_all_words _ _ _ _ _ _ _ _ _ _ H Hq Hb).
  pose proof (kcost_mono (calloc := calloc) ka (Z.max ka kb)) as Hca. pose proof (kcost_mono (calloc := calloc) kb (Z.max ka kb)) as Hcb.
  pose proof (kcost_mono (calloc := calloc) 0 (Z.max ka kb)) as Hc0.
  unfold diff. wp_step. eapply (wp_cmp_normal _ _ _ _ _ p q); [exact H|done..|by left|done|]. intros r Hr.
  destruct (Z.eqb_spec r 0) as [->|Hr0].
  - assert (Heq : val xs = val ys) by lia. wp_step.
    eapply wp_Balloc; [exact H|done|lia|unfold bcost; lia|]. unfold bcost. intros r nx x w1 _ Hx H1.
    destruct x as [|v [|]]; cbn in Hx; try lia. wp_steps.
    eapply (wp_store_int _ _ _ _ _ r [nx; 0; 2 ^ 0; 0] 0 [v]); [exact H1|unfold _wds; cbn; lia|lia|]. intros w2 H2. wp_steps.
    eapply (wp_store _ _ _ _ _ r [nx; 0; 2 ^ 0; 0; 1] v []); [exact H2|unfold _x; cbn; lia|lia|]. intros w3 H3. wp_steps.
    eapply (HQ r 0 [0]); [eapply mp_weaken; [exact H3|lia]| |cbn; lia|done|lia].
    rewrite (proj2 (Z.ltb_ge _ _)) by lia. split; [unfold _Kmax; lia|]. by exists nx, [].
  - destruct (Z.ltb_spec r 0) as [Hneg|Hpos].
    + assert (Hlt : val xs < val ys) by lia. rewrite (proj2 (Z.ltb_lt (val xs) _)) in HQ by lia.
      eapply (wp_diff_ordered _ _ _ _ q p); [exact H|done|done|exact Hb|exact Ha|done| |lia|lia|lia|done|done|].
      { destruct (Z.le_gt_cases (zlen xs) (zlen ys)) as [|Hgt]; [done|]. pose proof (val_len ys xs Hwy Hwx Hnx). lia. }
      intros r' zs o w' H' Hz Hv Hno Hne. eapply HQ; [eapply mp_weaken; [exact H'|lia]|exact Hz|lia|done|done].
    + assert (Hlt : val ys < val xs) by lia. rewrite (proj2 (Z.ltb_ge (val xs) _)) in HQ by lia.
      eapply (wp_diff_ordered _ _ _ _ p q); [exact H|done|done|exact Ha|exact Hb|done| |lia|lia|lia|done|done|].
      { destruct (Z.le_gt_cases (zlen ys) (zlen xs)) as [|Hgt]; [done|]. pose proof (val_len xs ys Hwx Hwy Hny). lia. }
      intros r' zs o w' H' Hz Hv Hno Hne. eapply HQ; [eapply mp_weaken; [exact H'|lia]|exact Hz|lia|done|done].
Qed.

(** ** quorem *)

Lemma wp_quorem_loop b K Os c p q sxe times t ss n (Q : unit -> world -> Prop) :
  (forall x, times x = x * t) -> 0 <= t < 65536 ->
  forall w xs pre post prea posta carry borrow j, ss <> [] -> length xs = length ss ->
  (q, prea ++ ss ++ posta) ∈ Os -> sxe = q + 4 * (zlen prea + zlen ss - 1) ->
  0 <= carry < 65536 -> -1 <= borrow <= 0 ->
  mp b w K ((p, pre ++ xs ++ post) :: Os) c -> (length ss <= j)%nat ->
  (forall zs carry' borrow' w', length zs = length ss ->
    0 <= carry' < 65536 -> -1 <= borrow' <= 0 ->
    val zs + word ^ zlen ss * (borrow' - carry') = val xs - val ss * t - carry + borrow ->
    mp b w' K ((p, pre ++ zs ++ post) :: Os) c -> Q tt w') ->
  wp n (loop_k j (quorem_step times sxe) (q + 4 * zlen prea, p + 4 * zlen pre, carry, borrow)) w Q.
Proof.
  intros Htimes Ht. induction ss as [|s ss IH]; [done|].
  intros w [|x xs] pre post prea posta carry borrow j _ Hl Hin Hsxe Hc Hb H Hj HQ; [done|].
  assert (Hs : is_word s).
  { assert (Hw := all_words_in _ _ _ _ _ q prea (s :: ss) posta H ltac:(by right)). by apply Forall_cons in Hw as [? _]. }
  assert (Hx : is_word x).
  { assert (Hw := all_words_in _ _ _ _ _ p pre (x :: xs) post H ltac:(by left)). by apply Forall_cons in Hw as [? _]. }
  cbn [length] in Hj, Hl. destruct j as [|j]; [lia|]. apply wp_loop_S. unfold quorem_step. cbv zeta. wp_step.
  eapply (wp_load _ _ _ _ _ q prea s (ss ++ posta)); [exact H|by right|done|]. wp_step.
  assert (Hlx : forall (R : Z -> world -> Prop), R x w -> wp n (load32 (p + 4 * zlen pre)) w R).
  { intros R HR. eapply (wp_load _ _ _ _ _ p pre x (xs ++ post)); [exact H|by left|done|done]. }
  apply Hlx. wp_step. apply Hlx. wp_step. rewrite !Htimes, !land_low, !(shr_half x), !(shr_half s).
  pose proof (multadd_limb s t carry Hs Ht Hc) as Hlimb. cbv zeta in Hlimb. rewrite !land_low, !(shr_half s) in Hlimb.
  set (ys := u32 (s mod 65536 * t + carry)) in *. set (zs := u32 (s / 65536 * t + Z.shiftr ys 16)) in *.
  assert (Hzs : is_word zs) by apply u32_range. assert (Hys : is_word ys) by apply u32_range.
  assert (Hcarry : i32 (Z.shiftr zs 16) = Z.shiftr zs 16) by (rewrite shr_half, i32_small; lia). rewrite Hcarry in Hlimb.
  assert (Hlow : u32 (u32 (Z.shiftl zs 16) + ys mod 65536) = ys mod 65536 + 65536 * (zs mod 65536)).
  { rewrite shl_half. unfold u32. lia. }
  rewrite Hlow in Hlimb. destruct Hlimb as (_ & Hc' & Hprod).
  set (d1 := i32 (x mod 65536 - _ + _)). set (d2 := i32 (x / 65536 - _ + _)).
  destruct (sub_limb x (ys mod 65536) (zs mod 65536) borrow d1 d2) as (Hd & Hb' & Hv); [lia|lia|lia|lia|done|done|]. cbv zeta in *.
  eapply (wp_Storeinc _ _ _ _ _ p pre x (xs ++ post)); [exact H|done|]. intros w1 H1.
  set (d := Z.lor _ _) in *. set (b1 := Z.shiftr d2 16) in *. set (c1 := Z.shiftr zs 16) in *. destruct ss as [|s' ss'].
  - destruct xs; [|done]. rewrite (proj2 (Z.leb_gt _ _)) by (cbn in Hsxe; lia). wp_steps.
    eapply (HQ [d] c1 b1); [done|done|done| |done]. cbn [val length]. change (word ^ Z.of_nat 1) with word. lia.
  - rewrite (proj2 (Z.leb_le _ _)) by (cbn [length] in Hsxe; lia). wp_steps.
    replace (q + 4 * zlen prea + 4) with (q + 4 * zlen (prea ++ [s])) by (rewrite zlen_snoc; lia).
    replace (p + 4 * zlen pre + 4) with (p + 4 * zlen (pre ++ [d])) by (rewrite zlen_snoc; lia).
    eapply (IH _ xs (pre ++ [d]) post (prea ++ [s]) posta);
      [done|lia|by rewrite <-app_assoc| |done|done|by rewrite <-app_assoc|cbn [length] in *; lia|].
    + rewrite zlen_snoc. cbn [length] in *. lia.
    + intros zs2 c2 b2 w2 Hl2 Hc2 Hb2 Hv2 H2. rewrite <-app_assoc in H2.
      apply (HQ (d :: zs2) c2 b2); [by f_equal/=|done|done| |done].
      cbn [val length] in *. rewrite Nat2Z.inj_succ, Z.pow_succ_r by lia. lia.
Qed.

(** A number whose words of value zero are not counted, but the last. *)
Definition tight xs : Prop := val xs <> 0 -> normal xs.

Lemma wp_quorem_trim_loop b w K Os c p n (Q : Z -> world -> Prop) : forall cs pre post k,
  (p, pre ++ cs ++ post) ∈ Os -> mp b w K Os c -> (length cs < k)%nat ->
  (forall zs j, cs = zs ++ replicate j 0 -> tight zs -> Q (zlen zs) w) ->
  wp n (loop_k k (fun '(bxe, n) =>
      let bxe := bxe - 4 in
      if p + 4 * zlen pre <? bxe then
        v ← load32 bxe;
        if v =? 0 then next (bxe, n - 1) else brk n
      else brk n) (p + 4 * (zlen pre + zlen cs), zlen cs)) w Q.
Proof.
  induction cs as [|d cs IH] using rev_ind; intros pre post k Hin H Hk HQ; (destruct k as [|k]; [lia|]); apply wp_loop_S; cbv zeta.
  - rewrite (proj2 (Z.ltb_ge _ _)) by (cbn; lia). wp_steps. by apply (HQ [] 0%nat).
  - rewrite length_app in Hk. cbn in Hk.
    destruct (Z.ltb_spec (p + 4 * zlen pre) (p + 4 * (zlen pre + zlen (cs ++ [d])) - 4)) as [Hlt|Hge].
    + wp_step. eapply (wp_load _ _ _ _ _ p (pre ++ cs) d post); [exact H|by rewrite <-!app_assoc in *|rewrite zlen_snoc, length_app; lia|].
      destruct (Z.eqb_spec d 0) as [->|Hd]; wp_steps.
      * rewrite zlen_snoc.
        replace (p + 4 * (zlen pre + (zlen cs + 1)) - 4) with (p + 4 * (zlen pre + zlen cs)) by lia.
        replace (zlen cs + 1 - 1) with (zlen cs) by lia.
        apply (IH pre ([0] ++ post)); [by rewrite <-!app_assoc in *|done|lia|].
        intros zs j -> Hno. apply (HQ zs (S j)); [|done]. by rewrite replicate_S_end, app_assoc.
      * apply (HQ (cs ++ [d]) 0%nat); [by rewrite app_nil_r|]. intros _ d'. rewrite last_snoc. by intros [= <-].
    + destruct cs; [|rewrite zlen_snoc in Hge; cbn in Hge; lia]. wp_steps. apply (HQ [d] 0%nat); [done|].
      intros Hv d' [= <-]. cbn in Hv. lia.
Qed.

Lemma wp_quorem_trim b w K Os c p nx k s ds t ys n (Q : Z -> world -> Prop) :
  mp b w K ((p, bobj nx k s (ds ++ [t]) ys) :: Os) c -> zlen ds + 1 <= 32768 -> (length ds < n)%nat ->
  (forall zs j n' w', ds ++ [t] = zs ++ replicate j 0 -> tight zs -> (j = 0%nat -> n' = zlen ds) ->
    mp b w' K ((p, bobj nx k s zs (replicate j 0 ++ ys)) :: Os) c -> Q n' w') ->
  wp n (quorem_trim p (_x p + 4 * zlen ds) (zlen ds)) w Q.
Proof.
  intros H Hlen Hn HQ. unfold quorem_trim. wp_step. unfold bobj in H.
  set (hdr := [nx; k; 2 ^ k; s; zlen (ds ++ [t])]) in *. rewrite (x_addr p hdr) by done.
  eapply (wp_load _ _ _ _ _ p (hdr ++ ds) t ys); [exact H|rewrite <-(app_assoc hdr ds); cbn [app]; rewrite <-(app_assoc ds [t]); left|rewrite length_app; lia|].
  destruct (Z.eqb_spec t 0) as [->|Ht].
  - cbv zeta. wp_steps. apply wp_loop_k. replace (p + 4 * zlen hdr + 4 * zlen ds) with (p + 4 * (zlen hdr + zlen ds)) by lia.
    eapply (wp_quorem_trim_loop _ _ _ _ _ p _ _ ds hdr ([0] ++ ys)); [rewrite (app_assoc ds); left|exact H|done|].
    intros zs j Ez Hz. wp_steps. unfold hdr in H.
    eapply (wp_store_int _ _ _ _ _ p [nx; k; 2 ^ k; s] _ ((ds ++ [0]) ++ ys)); [exact H|unfold _wds; cbn; lia| |].
    { apply (f_equal length) in Ez. rewrite length_app, length_replicate in Ez. lia. }
    intros w1 H1. wp_steps. apply (HQ zs (S j)); [by rewrite Ez, replicate_S_end, app_assoc|done|done|].
    rewrite Ez, <-app_assoc in H1. rewrite replicate_S_end. unfold bobj. rewrite <-!app_assoc in *. exact H1.
  - wp_steps. apply (HQ (ds ++ [t]) 0%nat); [by rewrite app_nil_r| |done|exact H].
    intros _ d. rewrite last_snoc. by intros [= <-].
Qed.

(** The estimate of a digit by the first words is at most one too small. *)
Lemma quorem_estimate B lx tx ls ts q : 0 < B -> 0 <= lx < B -> 0 <= ls < B -> 0 <= tx -> 10 <= ts ->
  lx + B * tx < 10 * (ls + B * ts) -> q = tx / (ts + 1) ->
  0 <= q <= 9 /\ 0 <= lx + B * tx - q * (ls + B * ts) < 2 * (ls + B * ts).
Proof.
  intros HB Hlx Hls Htx Hts Hlt ->. pose proof (Z.div_mod tx (ts + 1) ltac:(lia)) as Hdm.
  pose proof (Z.mod_pos_bound tx (ts + 1) ltac:(lia)) as Hm. set (q := tx / (ts + 1)) in *. set (m := tx mod (ts + 1)) in *.
  assert (Hq0 : 0 <= q) by (apply Z.div_pos; lia).
  assert (Etx : B * tx = q * B + q * (B * ts) + B * m) by (rewrite Hdm; ring).
  assert (H1 : 0 <= B * m <= B * ts) by (split; [apply Z.mul_nonneg_nonneg|apply Z.mul_le_mono_nonneg_l]; lia).
  assert (H2 : 0 <= q * ls <= q * B) by (split; [apply Z.mul_nonneg_nonneg|apply Z.mul_le_mono_nonneg_l]; lia).
  assert (H3 : 10 * B <= B * ts) by (rewrite (Z.mul_comm B); apply Z.mul_le_mono_nonneg_r; lia).
  set (b := B * ts) in *. set (bm := B * m) in *.
  assert (Hq9 : q <= 9).
  { destruct (Z.le_gt_cases q 9) as [|Hgt]; [done|].
    assert (10 * (B + b) <= q * (B + b)) by (apply Z.mul_le_mono_nonneg_r; lia). lia. }
  assert (H4 : q * B <= 9 * B) by (apply Z.mul_le_mono_nonneg_r; lia). set (qb := q * b) in *. set (ql := q * ls) in *.
  set (qB := q * B) in *. replace (q * (ls + b)) with (ql + qb) by (unfold ql, qb; ring). lia.
Qed.

Lemma quotient_unique a b q : 0 < b -> 0 <= a - q * b < b -> a / b = q /\ a mod b = a - q * b.
Proof.
  intros Hb Hr. assert (a / b = q) as <- by (symmetry; apply (Z.div_unique a b q (a - q * b)); lia).
  split; [done|]. rewrite Z.mod_eq by lia. lia.
Qed.

(** One subtraction of a multiple of the divisor, and the trimming after it. *)
Lemma wp_quorem_sub b w K Os c p q nx k s xs ys ks t ss os times m n (Q : Z -> world -> Prop) :
  mp b w K ((p, bobj nx k s xs ys) :: Os) c -> (q, os) ∈ Os -> bigint ks t ss os ->
  ss <> [] -> length xs = length ss -> zlen xs <= 32768 ->
  (forall x, times x = x * m) -> 0 <= m < 65536 -> 0 <= val xs - m * val ss -> (length ss < n)%nat ->
  (forall zs j n' w', mp b w' K ((p, bobj nx k s zs (replicate j 0 ++ ys)) :: Os) c -> zlen zs + Z.of_nat j = zlen ss ->
    tight zs -> val zs = val xs - m * val ss -> (j = 0%nat -> n' = zlen ss - 1) -> Q n' w') ->
  wp n (loop (quorem_step times (_x q + 4 * (zlen ss - 1))) (_x q, _x p, 0, 0) ;;
        quorem_trim p (_x p + 4 * (zlen ss - 1)) (zlen ss - 1)) w Q.
Proof.
  intros H Hq [Hks (nxs & ys' & -> & Hys')] Hne Hlen Hbig Htimes Hm Hge Hn HQ. wp_step. apply wp_loop_k.
  pose (hdr := [nx; k; 2 ^ k; s; zlen xs]). pose (hs := [nxs; ks; 2 ^ ks; t; zlen ss]).
  rewrite (x_addr q hs), (x_addr p hdr) by done.
  eapply (wp_quorem_loop _ _ _ _ p q _ times m ss n _ Htimes Hm w xs hdr ys hs ys'); [done|done|exact Hq|lia|lia|lia|exact H|lia|].
  intros zs c1 b1 w1 Hlz Hc1 Hb1 Hv H1.
  assert (Hw : all_words zs) by (eapply (all_words_in _ _ _ _ _ p hdr zs ys); [exact H1|left]).
  assert (Hv' : val zs = val xs - m * val ss).
  { pose proof (val_range zs Hw) as Hr. rewrite Hlz in Hr. set (B := word ^ zlen ss) in *.
    assert (val zs + B * (b1 - c1) = val xs - m * val ss) as Hv2 by lia.
    assert (b1 = 0 /\ c1 = 0) as [ -> -> ]; [|lia].
    assert (Hwx : all_words xs) by (eapply (all_words_in _ _ _ _ _ p hdr xs ys); [exact H|left]).
    pose proof (val_range xs Hwx) as Hrx. rewrite Hlen in Hrx. fold B in Hrx.
    assert (Hws : 0 <= val ss).
    { apply val_range. eapply (all_words_in _ _ _ _ _ q hs ss ys'); [exact H|right; exact Hq]. }
    assert (0 <= m * val ss) by nia. assert (b1 - c1 = 0); [|lia].
    destruct (Z.lt_trichotomy (b1 - c1) 0) as [|[|]]; [|done|lia].
    assert (B * (b1 - c1) <= B * (-1)) by (apply Z.mul_le_mono_nonneg_l; lia). lia. }
  wp_steps. destruct zs as [|tz zs _] using rev_ind; [destruct ss; cbn in Hlz; [done|lia]|].
  rewrite length_app in Hlz. cbn in Hlz. replace (zlen ss - 1) with (zlen zs) by lia.
  eapply (wp_quorem_trim _ _ _ _ _ p nx k s zs tz ys); [unfold bobj; rewrite zlen_snoc|lia|lia|].
  { replace (zlen zs + 1) with (zlen xs) by lia. exact H1. }
  intros zs' j n' w' Ez Htight Hj H'. eapply (HQ zs' j); [exact H'| |done| |].
  - apply (f_equal length) in Ez. rewrite !length_app, length_replicate in Ez. cbn in Ez. lia.
  - rewrite <-Hv', Ez, val_app, val_zeros. lia.
  - intros ->. rewrite Hj by done. lia.
Qed.

(** The rest of [quorem] once [q] times the divisor is off: one more subtraction when the estimate was short. *)
Lemma wp_quorem_correct b w K Os c p q nx k s xs ys ks t ss os d n' n (Q : Z -> world -> Prop) :
  mp b w K ((p, bobj nx k s xs ys) :: Os) c -> (q, os) ∈ Os -> bigint ks t ss os -> 0 <= k <= _Kmax -> zlen xs + zlen ys = 2 ^ k ->
  tight xs -> normal ss -> ss <> [] -> zlen xs <= zlen ss -> (zlen xs = zlen ss -> n' = zlen ss - 1) ->
  0 <= d <= 9 -> 0 <= val xs < 2 * val ss -> (length ss < n)%nat ->
  (forall zs o' w' r, mp b w' K ((p, o') :: Os) c -> bigint k s zs o' -> tight zs -> 0 <= val zs < val ss ->
    val zs + r * val ss = val xs + d * val ss -> Q r w') ->
  wp n (c ← cmp p q;
    if 0 <=? c then
      loop (quorem_step (fun x => x) (_x q + 4 * (zlen ss - 1))) (_x q, _x p, 0, 0) ;;
      quorem_trim p (_x p + 4 * n') n' ;;
      mret (i32 (u32 (d + 1)))
    else mret (i32 d)) w Q.
Proof.
  intros H Hq Hbs Hk Hys Htight Hns Hne Hle Hn' Hd Hv Hn HQ. pose proof (pow2_class k Hk) as H2k. unfold _Kmax in Hk.
  assert (Hb : bigint k s xs (bobj nx k s xs ys)) by (split; [done|by exists nx, ys]).
  assert (Hwx := bigint_all_words _ _ _ _ _ _ _ _ _ _ H (list_elem_of_here _ _) Hb).
  assert (Hws := bigint_all_words _ _ _ _ _ _ _ _ _ _ H (list_elem_of_further _ _ _ Hq) Hbs).
  wp_step. eapply (wp_bigcmp _ _ _ _ _ p q); [exact H|left|right; exact Hq|exact Hb|exact Hbs|by right|done|].
  intros r Hr1 Hr2. destruct (Z.eq_dec (zlen xs) (zlen ss)) as [E|E].
  - specialize (Hr2 E). rewrite (Hn' E). destruct (Z.leb_spec 0 r) as [Hr|Hr].
    + apply wp_bind_assoc, wp_bind.
      eapply (wp_quorem_sub _ _ _ _ _ p q nx k s xs ys ks t ss os _ 1);
        [exact H|exact Hq|exact Hbs|done|lia|lia|intros; lia|lia|lia|done|].
      intros zs j n1 w1 H1 Hj Hz Hvz _. wp_steps. rewrite (u32_small (d + 1)), i32_small by lia.
      eapply (HQ zs); [exact H1| |done|lia|lia]. split; [done|]. eexists _, _. split; [done|]. rewrite length_app, length_replicate. lia.
    + wp_steps. rewrite i32_small by lia. eapply (HQ xs); [exact H|exact Hb|done|lia|lia].
  - rewrite Hr1 by done. rewrite (proj2 (Z.leb_gt _ _)) by lia. pose proof (val_len xs ss Hwx Hws Hns ltac:(lia)).
    wp_steps. rewrite i32_small by lia. eapply (HQ xs); [exact H|exact Hb|done|lia|lia].
Qed.

Lemma wp_quorem b w K Os c p q k s xs o ks t ss os n (Q : Z -> world -> Prop) :
  mp b w K ((p, o) :: Os) c -> (q, os) ∈ Os -> bigint k s xs o -> bigint ks t ss os ->
  normal xs -> normal ss -> ss <> [] -> zlen xs <= zlen ss -> (forall d, last ss = Some d -> 10 <= d < 4294967295) ->
  val xs < 10 * val ss -> (length ss < n)%nat ->
  (forall zs o' w', mp b w' K ((p, o') :: Os) c -> bigint k s zs o' -> tight zs -> val zs = val xs mod val ss ->
    Q (val xs / val ss) w') ->
  wp n (quorem p q) w Q.
Proof.
  intros H Hq Hb Hbs Hnx Hns Hne Hle Htop Hlt Hn HQ.
  assert (Hwx := bigint_all_words _ _ _ _ _ _ _ _ _ _ H (list_elem_of_here _ _) Hb).
  assert (Hws := bigint_all_words _ _ _ _ _ _ _ _ _ _ H (list_elem_of_further _ _ _ Hq) Hbs).
  destruct (bigint_len _ _ _ _ Hb) as [Hk Hlx]. pose proof (val_range xs Hwx) as Hrx.
  unfold quorem. wp_step. eapply load_wds; [exact H|by right|exact Hbs|]. wp_step. eapply load_wds; [exact H|left|exact Hb|].
  destruct (Z.ltb_spec (zlen xs) (zlen ss)) as [Hshort|Hsame].
  { assert (Hv := val_len xs ss Hwx Hws Hns ltac:(lia)). wp_steps.
    rewrite <-(Z.div_small (val xs) (val ss)) by lia. eapply HQ; [exact H|exact Hb|by intros _|]. rewrite Z.mod_small; lia. }
  destruct ss as [|ts sl _] using rev_ind; [done|]. destruct xs as [|tx xl _] using rev_ind; [rewrite length_app in Hsame; cbn in Hsame; lia|].
  specialize (Htop ts (last_snoc _ _)). destruct Hb as [Hk' (nx & ys & -> & Hys)]. pose proof Hbs as [Hks (nxs & ys' & -> & Hys')].
  set (ss := sl ++ [ts]) in *. set (xs := xl ++ [tx]) in *. assert (Hlen : length xs = length ss) by lia.
  assert (Hlx' : zlen xl = zlen ss - 1) by (unfold xs in Hlen; rewrite length_app in Hlen; cbn in Hlen; lia).
  assert (Hls' : zlen sl = zlen ss - 1) by (unfold ss; rewrite length_app; cbn; lia).
  pose (hdr := [nx; k; 2 ^ k; s; zlen xs]). pose (hs := [nxs; ks; 2 ^ ks; t; zlen ss]).
  cbv zeta. wp_step.
  eapply (wp_load _ _ _ _ _ p (hdr ++ xl) tx ys); [exact H|rewrite <-(app_assoc hdr xl); cbn [app]; unfold bobj, xs; rewrite <-(app_assoc xl [tx]); left|unfold _x; rewrite length_app; cbn; lia|].
  wp_step. eapply (wp_load _ _ _ _ _ q (hs ++ sl) ts ys'); [exact H|right; rewrite <-(app_assoc hs sl); cbn [app]; unfold bobj, ss in Hq; rewrite <-(app_assoc sl [ts]) in Hq; exact Hq|unfold _x; rewrite length_app; cbn; lia|].
  apply Forall_app in Hwx as [Hwxl Hwtx]. apply Forall_app in Hws as [Hwsl _]. apply Forall_cons in Hwtx as [Hwtx _].
  rewrite (u32_small (ts + 1)) by lia. rewrite (proj2 (Z.eqb_neq (ts + 1) 0)) by lia.
  pose proof (val_range xl Hwxl) as Hrl. pose proof (val_range sl Hwsl) as Hsl. rewrite Hlx' in Hrl. rewrite Hls' in Hsl.
  assert (Evx : val xs = val xl + word ^ (zlen ss - 1) * tx) by (unfold xs; rewrite val_app, Hlx'; cbn [val]; lia).
  assert (Evs : val ss = val sl + word ^ (zlen ss - 1) * ts) by (rewrite <-Hls'; unfold ss; rewrite val_app; cbn [val]; lia).
  set (B := word ^ (zlen ss - 1)) in *.
  destruct (quorem_estimate B (val xl) tx (val sl) ts (tx / (ts + 1))) as [Hq9 Hrem]; [lia|lia|lia|lia|lia|lia|done|].
  set (d := tx / (ts + 1)) in *. rewrite <-Evx, <-Evs in Hrem.
  assert (Hfin : forall r zs, 0 <= val zs < val ss -> val zs + r * val ss = val xs ->
    r = val xs / val ss /\ val zs = val xs mod val ss).
  { intros r zs Hz Hr. destruct (quotient_unique (val xs) (val ss) r); lia. }
  destruct (Z.eqb_spec d 0) as [Ed|Ed]; cbn [negb].
  - wp_step. wp_step. rewrite Ed in *.
    eapply (wp_quorem_correct _ _ _ _ _ p q nx k s xs ys ks t ss _ 0); [exact H|exact Hq|exact Hbs|done|done|by intros _|done|done|lia|done|lia|lia|done|].
    intros zs o' w' r H' Hb' Ht' Hz Hr. destruct (Hfin r zs) as [-> Ez]; [done|lia|]. by eapply HQ.
  - wp_step. eapply (wp_quorem_sub _ _ _ _ _ p q nx k s xs ys ks t ss _ _ d);
      [exact H|exact Hq|exact Hbs|done|done|lia|done|lia|lia|lia|].
    intros zs j n1 w1 H1 Hj Hz Hvz Hn1. cbv beta.
    eapply (wp_quorem_correct _ _ _ _ _ p q nx k s zs _ ks t ss _ d);
      [exact H1|exact Hq|exact Hbs|done| |exact Hz|done|done|lia| |done| |done|].
    + rewrite length_app, length_replicate. lia.
    + intros E. apply Hn1. lia.
    + rewrite Hvz. lia.
    + intros zs' o' w' r H' Hb' Ht' Hz' Hr. destruct (Hfin r zs') as [-> Ez]; [done|lia|]. by eapply HQ.
Qed.
End mprec.
