(* ===== verification/MprecBits.v ===== *)
(** * Big integers: leading and trailing zeros, and the conversion of doubles

    A double is its two words, the sign, exponent and 20 bits of the mantissa in
    the first. *)

From S2P Require Import Prelude CMonad Words Memory StrScan MemCopy Heap Blocks Mprec MprecSpec MprecMult MprecDiff.

(** ** Masks as inequalities *)

(** A number has none of the bits of [mask], which are those from [i] on. *)
Lemma high_bits W x i mask : 0 <= x < 2 ^ W -> 0 <= i -> 0 <= W -> mask = Z.ldiff (Z.ones W) (Z.ones i) ->
  (Z.land x mask =? 0) = (x <? 2 ^ i).
Proof.
  intros Hx Hi HW ->. assert (E : Z.land x (Z.ldiff (Z.ones W) (Z.ones i)) = x / 2 ^ i * 2 ^ i).
  { replace (Z.land x (Z.ldiff (Z.ones W) (Z.ones i))) with (Z.ldiff (Z.land x (Z.ones W)) (Z.ones i)).
    - rewrite Z.ldiff_ones_r, Z.shiftl_mul_pow2, Z.shiftr_div_pow2, Z.land_ones by lia.
      by rewrite (Z.mod_small x) by lia.
    - apply Z.bits_inj'. intros j _. by rewrite Z.land_spec, !Z.ldiff_spec, Z.land_spec, andb_assoc. }
  rewrite E. assert (0 < 2 ^ i) by lia. destruct (Z.ltb_spec x (2 ^ i)) as [Hlt|Hge].
  - rewrite Z.div_small by lia. done.
  - apply Z.eqb_neq. assert (1 <= x / 2 ^ i) by (apply Z.div_le_lower_bound; lia). nia.
Qed.

Lemma low_bits x i mask : 0 <= i -> mask = Z.ones i -> (Z.land x mask =? 0) = (x mod 2 ^ i =? 0).
Proof. intros Hi ->. by rewrite Z.land_ones. Qed.

Lemma two_parts a b y r : 0 <= y < a -> 0 <= r < b -> 0 <= y + a * r < a * b.
Proof.
  intros Hy Hr. assert (0 <= a * r) by (apply Z.mul_nonneg_nonneg; lia).
  assert (a * (r + 1) <= a * b) by (apply Z.mul_le_mono_nonneg_l; lia). lia.
Qed.

(** ** hi0bits: the zeros above the first bit *)

(** A step of the binary search: the first bit is among the [2 * j] upper ones. *)
Lemma hi_step x k y j mask : x * 2 ^ k = y -> 0 <= k -> 0 < j -> k + 2 * j <= 32 -> 2 ^ (32 - 2 * j) <= y < word ->
  mask = Z.ldiff (Z.ones 32) (Z.ones (32 - j)) ->
  exists k' y', (if Z.land y mask =? 0 then (k + j, u32 (Z.shiftl y j)) else (k, y)) = (k', y') /\
    x * 2 ^ k' = y' /\ 0 <= k' /\ k' + j <= 32 /\ 2 ^ (32 - j) <= y' < word.
Proof.
  intros Hxy Hk Hj Hkj Hy Hmask. change word with (2 ^ 32) in *.
  assert (0 <= y) by (pose proof (Z.pow_nonneg 2 (32 - 2 * j)); lia).
  rewrite (high_bits 32 y (32 - j)) by (done || lia). destruct (Z.ltb_spec y (2 ^ (32 - j))).
  - assert (Hlow : 2 ^ (32 - 2 * j) * 2 ^ j = 2 ^ (32 - j)) by (rewrite <-Z.pow_add_r by lia; f_equal; lia).
    assert (Hup : 2 ^ (32 - j) * 2 ^ j = 2 ^ 32) by (rewrite <-Z.pow_add_r by lia; f_equal; lia).
    assert (0 < 2 ^ j) by lia. assert (Hb : 2 ^ (32 - j) <= y * 2 ^ j < 2 ^ 32) by nia.
    exists (k + j), (y * 2 ^ j). rewrite Z.shiftl_mul_pow2 by lia. rewrite u32_small by (change word with (2 ^ 32); nia).
    split_and!; [done| |lia..]. rewrite Z.pow_add_r by lia. rewrite <-Hxy. ring.
  - exists k, y. split_and!; [done..|lia|lia|lia].
Qed.

Lemma hi0bits_range x : 0 < x < word -> 0 <= hi0bits x <= 31 /\ 2 ^ 31 <= x * 2 ^ hi0bits x < 2 ^ 32.
Proof.
  intros Hx. unfold hi0bits.
  destruct (hi_step x 0 x 16 0xffff0000) as (k1 & y1 & E1 & ?); [rewrite Z.mul_1_r; done|lia|lia|lia|split; [change (2 ^ (32 - 2 * 16)) with 1|]; lia|done|].
  change (0 + 16) with 16 in E1. rewrite E1. destruct_and!.
  destruct (hi_step x k1 y1 8 0xff000000) as (k2 & y2 & -> & ?); [done|lia..|done|]. destruct_and!.
  destruct (hi_step x k2 y2 4 0xf0000000) as (k3 & y3 & -> & ?); [done|lia..|done|]. destruct_and!.
  destruct (hi_step x k3 y3 2 0xc0000000) as (k4 & y4 & -> & ?); [done|lia..|done|]. destruct_and!.
  rewrite (high_bits 32 y4 31) by (done || lia). destruct (Z.ltb_spec y4 (2 ^ 31)).
  - change (2 ^ (32 - 2)) with (2 ^ 30) in *. rewrite (high_bits 31 y4 30) by (done || lia).
    rewrite (proj2 (Z.ltb_ge y4 _)) by lia. rewrite Z.pow_add_r by lia. lia.
  - replace (x * 2 ^ k4) with y4 by done. change (2 ^ 32) with word. split; [|lia].
    destruct (Z.eq_dec k4 32) as [->|]; [|lia]. lia.
Qed.

Lemma hi0bits_0 : hi0bits 0 = 32.
Proof. reflexivity. Qed.

(** ** lo0bits: the zeros below the last bit, shifted out *)

Lemma lo_step x k y j mask : y * 2 ^ k = x -> 0 <= k -> 0 < j -> 0 <= y -> y mod 2 ^ (2 * j) <> 0 -> mask = Z.ones j ->
  exists k' y', (if Z.land y mask =? 0 then (k + j, Z.shiftr y j) else (k, y)) = (k', y') /\
    y' * 2 ^ k' = x /\ 0 <= k' <= k + j /\ y' mod 2 ^ j <> 0 /\ 0 <= y' <= y.
Proof.
  intros Hxy Hk Hj H0 Hy Hmask. assert (Hp : 0 < 2 ^ j) by lia.
  rewrite (low_bits y j) by (done || lia). destruct (Z.eqb_spec (y mod 2 ^ j) 0) as [E|E].
  - apply Z.mod_divide in E as [q ->]; [|lia]. exists (k + j), q.
    rewrite Z.shiftr_div_pow2, Z.div_mul, Z.pow_add_r by lia. split_and!; [done|rewrite <-Hxy; ring|lia|lia| |lia|nia].
    intros [r ->]%Z.mod_divide; [|lia]. apply Hy.
    replace (r * 2 ^ j * 2 ^ j) with (r * 2 ^ (2 * j)); [apply Z_mod_mult|].
    replace (2 * j) with (j + j) by lia. rewrite Z.pow_add_r by lia. ring.
  - exists k, y. split_and!; [done..|lia|lia|done|lia|lia].
Qed.

Lemma lo0bits_odd x : 0 < x < word -> exists k y, lo0bits x = (k, y) /\ x = y * 2 ^ k /\ y mod 2 = 1 /\ 0 <= k <= 31.
Proof.
  intros Hx. unfold lo0bits. rewrite (low_bits x 3), (low_bits x 1) by (done || lia).
  change (2 ^ 3) with 8. change (2 ^ 1) with 2.
  destruct (Z.eqb_spec (x mod 8) 0) as [E|E]; cbn [negb].
  - destruct (lo_step x 0 x 16 0xffff) as (k1 & y1 & E1 & ?); [lia|lia|lia|lia| |done|].
    { change (2 ^ (2 * 16)) with word. rewrite Z.mod_small; lia. }
    change (0 + 16) with 16 in E1. rewrite E1. destruct_and!.
    destruct (lo_step x k1 y1 8 0xff) as (k2 & y2 & -> & ?); [done|lia..|done|done|]. destruct_and!.
    destruct (lo_step x k2 y2 4 0xf) as (k3 & y3 & -> & ?); [done|lia..|done|done|]. destruct_and!.
    destruct (lo_step x k3 y3 2 0x3) as (k4 & y4 & -> & ?); [done|lia..|done|done|]. destruct_and!.
    rewrite (low_bits y4 1) by (done || lia). change (2 ^ 1) with 2 in *. change (2 ^ 2) with 4 in *.
    destruct (Z.eqb_spec (y4 mod 2) 0) as [Ev|Ev].
    + rewrite Z.shiftr_div_pow2 by lia. change (2 ^ 1) with 2. rewrite (proj2 (Z.eqb_neq (y4 / 2) 0)) by lia.
      exists (k4 + 1), (y4 / 2). rewrite Z.pow_add_r by lia. split_and!; [done| |lia..].
      replace x with (y4 * 2 ^ k4) by done. replace y4 with (2 * (y4 / 2)) at 1 by lia. ring.
    + exists k4, y4. split_and!; [done|done|lia..].
  - destruct (Z.eqb_spec (x mod 2) 0) as [E1|E1]; cbn [negb].
    + assert (E2 : (Z.land x 2 =? 0) = (x mod 4 <? 2)).
      { change (x mod 4 <? 2) with (x mod 4 <? 2 ^ 1). rewrite <-(high_bits 2 (x mod 4) 1 2) by (reflexivity || lia). change 4 with (2 ^ 2). rewrite <-Z.land_ones by lia.
        by rewrite <-Z.land_assoc. }
      rewrite E2. destruct (Z.ltb_spec (x mod 4) 2); cbn [negb].
      * exists 2, (x / 4). rewrite Z.shiftr_div_pow2 by lia. change (2 ^ 2) with 4. split_and!; [done|lia..].
      * exists 1, (x / 2). rewrite Z.shiftr_div_pow2 by lia. change (2 ^ 1) with 2. split_and!; [done|lia..].
    + exists 0, x. split_and!; [done|lia..].
Qed.

(** The first 53 bits of a mantissa without its trailing zeros are the mantissa. *)
Lemma top_bits v k m L M : 0 <= k -> 1 <= L -> v * 2 ^ k = m -> 2 ^ 52 <= m < 2 ^ 53 -> 2 ^ (L - 1) <= v < 2 ^ L ->
  M * 2 ^ L <= v * 2 ^ 53 < (M + 1) * 2 ^ L -> M = m.
Proof.
  intros Hk HL <- Hm Hv HM.
  assert (Hlo : 2 ^ (L - 1 + k) <= v * 2 ^ k) by (rewrite Z.pow_add_r by lia; nia).
  assert (Hhi : v * 2 ^ k < 2 ^ (L + k)) by (rewrite Z.pow_add_r by lia; nia).
  assert (L - 1 + k < 53) by (apply (Z.pow_lt_mono_r_iff 2); lia). assert (52 < L + k) by (apply (Z.pow_lt_mono_r_iff 2); lia).
  assert (E : 2 ^ 53 = 2 ^ k * 2 ^ L) by (rewrite <-Z.pow_add_r by lia; f_equal; lia). rewrite E in HM.
  assert (0 < 2 ^ L) by lia. set (B := 2 ^ L) in *. set (D := 2 ^ k) in *. nia.
Qed.

Section mprec.
Context {malloc free} {A : allocator malloc free} {calloc} {Z_ : zeroing A calloc}.
Context {BC : build} {_freelist : Z}.
Implicit Types (w : world) (K : list (Z * list Z)) (Os : list block) (c : Z) (xs ys zs : list Z).
#[local] Abbreviation mp := (mp (_freelist := _freelist)).

(** ** d2b *)

(** The mantissa of a double, with its hidden bit, and its exponent. *)
Definition mantissa (d0 d1 : Z) : Z :=
  d0 mod 2 ^ 20 * word + d1 + (if d0 / 2 ^ 20 mod 2 ^ 11 =? 0 then 0 else 2 ^ 52).
Definition exponent (d0 : Z) : Z := Z.max (d0 / 2 ^ 20 mod 2 ^ 11) 1 - 1075.

(** The exponent field. *)
Lemma exp_field d0 : is_word d0 -> Z.land d0 Exp_mask = d0 / 2 ^ 20 mod 2 ^ 11 * 2 ^ 20.
Proof.
  intros Hd. unfold Exp_mask. change 0x7ff00000 with (Z.ldiff (Z.ones 31) (Z.ones 20)).
  replace (Z.land d0 (Z.ldiff (Z.ones 31) (Z.ones 20))) with (Z.ldiff (Z.land d0 (Z.ones 31)) (Z.ones 20)).
  - rewrite Z.ldiff_ones_r, Z.shiftl_mul_pow2, Z.shiftr_div_pow2, Z.land_ones by lia.
    change (2 ^ 31) with 2147483648. change (2 ^ 20) with 1048576. change (2 ^ 11) with 2048. lia.
  - apply Z.bits_inj'. intros j _. by rewrite Z.land_spec, !Z.ldiff_spec, Z.land_spec, andb_assoc.
Qed.

(** A unit in the last place is a power of two: of the doubles [e * 2 ^ 20] with the
    smallest exponents first. *)
Definition ulp_right (e : Z) : Prop := let '(u0, u1) := ulp (e * 2 ^ 20) in
  is_word u0 /\ is_word u1 /\ exponent u0 <= Z.max e 1 - 1075 /\ mantissa u0 u1 = 2 ^ (Z.max e 1 - 1075 - exponent u0).

#[global] Instance ulp_right_dec e : Decision (ulp_right e).
Proof. unfold ulp_right. destruct (ulp (e * 2 ^ 20)). apply _. Defined.

Lemma ulp_subnormal e : 0 <= e <= 52 -> ulp_right e.
Proof.
  intros He. assert (H : Forall ulp_right (map Z.of_nat (seq 0 53))) by (apply (bool_decide_unpack _); vm_compute; exact I).
  rewrite Forall_forall in H. apply H, list_elem_of_fmap. exists (Z.to_nat e). rewrite elem_of_seq. lia.
Qed.

Lemma ulp_normal e : 52 < e < 2048 -> ulp_right e.
Proof.
  intros He. assert (Hw : is_word (e * 2 ^ 20)) by (change (2 ^ 20) with 1048576; lia).
  unfold ulp_right, ulp. rewrite (exp_field _ Hw), Z.div_mul, (Z.mod_small e) by (done || (change (2 ^ 11) with 2048; lia)).
  unfold P, Exp_msk1. change (2 ^ 20) with 1048576. rewrite u32_small, i32_small by lia. rewrite (proj2 (Z.ltb_lt _ _)) by lia.
  rewrite u32_small by lia. unfold exponent, mantissa. change (2 ^ 20) with 1048576. change (2 ^ 11) with 2048.
  replace ((e * 1048576 - (53 - 1) * 1048576) / 1048576) with (e - 52) by lia. rewrite (Z.mod_small (e - 52)) by lia.
  replace ((e * 1048576 - (53 - 1) * 1048576) mod 1048576) with 0 by lia. rewrite (proj2 (Z.eqb_neq _ _)) by lia.
  split_and!; try lia. replace (Z.max e 1 - 1075 - (Z.max (e - 52) 1 - 1075)) with 52 by lia. done.
Qed.

Lemma ulp_value d0 : is_word d0 -> let '(u0, u1) := ulp d0 in is_word u0 /\ is_word u1 /\
  exponent u0 <= exponent d0 /\ mantissa u0 u1 = 2 ^ (exponent d0 - exponent u0).
Proof.
  intros Hd. set (e := d0 / 2 ^ 20 mod 2 ^ 11).
  assert (He : 0 <= e < 2048) by (unfold e; change (2 ^ 11) with 2048; lia).
  assert (E : ulp d0 = ulp (e * 2 ^ 20)).
  { unfold ulp. rewrite (exp_field d0 Hd), (exp_field (e * 2 ^ 20)) by (change (2 ^ 20) with 1048576; lia).
    by rewrite Z.div_mul, (Z.mod_small e) by (done || (change (2 ^ 11) with 2048; lia)). }
  rewrite E. change (exponent d0) with (Z.max e 1 - 1075).
  destruct (Z.le_gt_cases e 52); [apply ulp_subnormal|apply ulp_normal]; lia.
Qed.

(** The bits of a number that ends in a word other than zero. *)
Lemma number_bits xs v : all_words xs -> 0 < v < word ->
  2 ^ (32 * (zlen xs + 1) - hi0bits v - 1) <= val (xs ++ [v]) < 2 ^ (32 * (zlen xs + 1) - hi0bits v).
Proof.
  intros Hw Hv. destruct (hi0bits_range v Hv) as [Hh Hr]. set (h := hi0bits v) in *.
  pose proof (val_range xs Hw) as Hx. rewrite val_app. cbn [val].
  assert (Hpow : word ^ zlen xs = 2 ^ (32 * zlen xs)) by (rewrite Z.pow_mul_r by lia; done). rewrite Hpow in *.
  replace (32 * (zlen xs + 1) - h - 1) with (32 * zlen xs + (31 - h)) by lia.
  replace (32 * (zlen xs + 1) - h) with (32 * zlen xs + (32 - h)) by lia. rewrite !Z.pow_add_r by lia.
  assert (H31 : 2 ^ (31 - h) * 2 ^ h = 2 ^ 31) by (rewrite <-Z.pow_add_r by lia; f_equal; lia).
  assert (H32 : 2 ^ (32 - h) * 2 ^ h = 2 ^ 32) by (rewrite <-Z.pow_add_r by lia; f_equal; lia).
  assert (0 < 2 ^ h) by lia. rewrite <-H31, <-H32 in Hr.
  assert (Hlo : 2 ^ (31 - h) <= v) by (apply (Z.mul_le_mono_pos_r _ _ (2 ^ h)); lia).
  assert (Hup : v < 2 ^ (32 - h)) by (apply (Z.mul_lt_mono_pos_r (2 ^ h)); lia).
  set (B := 2 ^ (32 * zlen xs)) in *. assert (B * 2 ^ (31 - h) <= B * v) by (apply Z.mul_le_mono_nonneg_l; lia).
  assert (B * (v + 1) <= B * 2 ^ (32 - h)) by (apply Z.mul_le_mono_nonneg_l; lia). lia.
Qed.

Lemma mantissa_parts d0 d1 : is_word d0 -> is_word d1 ->
  let de := i32 (Z.shiftr (Z.land d0 0x7fffffff) Exp_shift) in
  let z := Z.land d0 Frac_mask in
  let z := if negb (de =? 0) then Z.lor z Exp_msk1 else z in
  0 <= de < 2048 /\ 0 <= z < 2 ^ 21 /\ mantissa d0 d1 = z * word + d1 /\
  (de <> 0 -> 2 ^ 52 <= mantissa d0 d1 < 2 ^ 53 /\ exponent d0 = de - 1075) /\ (de = 0 -> exponent d0 = -1074).
Proof.
  intros H0 H1. cbv zeta. unfold Frac_mask, Exp_shift, Exp_msk1, mantissa, exponent.
  change 0xfffff with (Z.ones 20). change 0x7fffffff with (Z.ones 31). rewrite !Z.land_ones, Z.shiftr_div_pow2 by lia.
  change (2 ^ 31) with 2147483648. change (2 ^ 20) with 1048576. change (2 ^ 11) with 2048. change (2 ^ 52) with 4503599627370496.
  change (2 ^ 53) with 9007199254740992. change (2 ^ 21) with 2097152.
  rewrite i32_small by lia. replace (d0 mod 2147483648 / 1048576) with (d0 / 1048576 mod 2048) by lia.
  destruct (Z.eqb_spec (d0 / 1048576 mod 2048) 0) as [E|E]; cbn [negb].
  - lia.
  - assert (Ez : Z.lor (d0 mod 1048576) 1048576 = 1048576 + d0 mod 1048576).
    { rewrite Z.lor_comm. apply (lor_disjoint 1 (d0 mod 1048576) 20); [lia|change (2 ^ 20) with 1048576; lia]. }
    rewrite Ez. lia.
Qed.

Lemma normal_mantissa d0 d1 : is_word d0 -> is_word d1 -> d0 / 2 ^ 20 mod 2 ^ 11 <> 0 ->
  2 ^ 52 <= mantissa d0 d1 < 2 ^ 53 /\ mantissa d0 d1 = (d0 mod 2 ^ 20 + 2 ^ 20) * word + d1.
Proof.
  intros H0 H1 Hde. unfold mantissa. rewrite (proj2 (Z.eqb_neq _ _)) by done.
  change (2 ^ 53) with 9007199254740992. change (2 ^ 52) with 4503599627370496. change (2 ^ 20) with 1048576. lia.
Qed.

(** [lo << (32 - k) | hi]: the low words of a number shifted right by [k] bits. *)
Lemma shift_words z y' k : 0 < k <= 31 -> 0 <= y' < 2 ^ (32 - k) ->
  let x0 := Z.lor y' (u32 (Z.shiftl z (32 - k))) in
  is_word x0 /\ x0 = y' + z mod 2 ^ k * 2 ^ (32 - k).
Proof.
  intros Hk Hy. cbv zeta. rewrite Z.shiftl_mul_pow2 by lia.
  assert (Hs : 2 ^ (32 - k) * 2 ^ k = word) by (rewrite <-Z.pow_add_r by lia; replace (32 - k + k) with 32 by lia; done).
  assert (Hu : u32 (z * 2 ^ (32 - k)) = z mod 2 ^ k * 2 ^ (32 - k)).
  { unfold u32. rewrite <-Hs at 1. rewrite (Z.mul_comm z), Z.mul_mod_distr_l by lia. lia. }
  rewrite Hu, Z.lor_comm, lor_disjoint by lia. split; [|lia].
  pose proof (Z.mod_pos_bound z (2 ^ k) ltac:(lia)). set (a := 2 ^ (32 - k)) in *. set (r := z mod 2 ^ k) in *.
  pose proof (two_parts a (2 ^ k) y' r). lia.
Qed.

Lemma shifted_bits v k a : 0 <= a -> 0 <= k -> 0 < v -> 2 ^ a <= v * 2 ^ k < 2 ^ (a + 1) ->
  2 ^ (a - k) <= v < 2 ^ (a + 1 - k).
Proof.
  intros Ha Hk Hv H. destruct (Z.le_gt_cases k a) as [Hle|Hgt].
  - replace a with (a - k + k) in H at 1 by lia. replace (a + 1) with (a + 1 - k + k) in H by lia.
    rewrite !Z.pow_add_r in H by lia. assert (0 < 2 ^ k) by lia. nia.
  - assert (2 ^ (a + 1) <= 2 ^ k) by (apply Z.pow_le_mono_r; lia). assert (1 * 2 ^ k <= v * 2 ^ k) by (apply Z.mul_le_mono_nonneg_r; lia). lia.
Qed.

(** The words of the mantissa without its trailing zeros, in the block. *)
Record scaled zs (k m : Z) : Prop := {
  sc_val : val zs * 2 ^ k = m;
  sc_odd : val zs mod 2 = 1;
  sc_normal : normal zs;
  sc_low : 0 <= k;
}.

Lemma wp_d2b b w K Os c d0 d1 n (Q : Z * Z * Z -> world -> Prop) :
  mp b w K Os c -> (alloc_fuel <= n)%nat -> bcost b 1 <= c -> is_word d0 -> is_word d1 -> mantissa d0 d1 <> 0 ->
  (forall p zs o k bits w', mp true w' K ((p, o) :: Os) (c - bcost b 1) -> bigint 1 0 zs o ->
    scaled zs k (mantissa d0 d1) -> 2 ^ (bits - 1) <= val zs < 2 ^ bits -> Q (p, exponent d0 + k, bits) w') ->
  wp n (d2b calloc _freelist d0 d1) w Q.
Proof.
  intros H Hf Hc H0 H1 Hm HQ. destruct (mantissa_parts d0 d1 H0 H1) as (Hde & Hz & Em & Hnorm & Hsub). unfold d2b. wp_step.
  eapply wp_Balloc; [exact H|done|lia|intros; lia|]. intros p nx x w1 Hp Hx Hmp. cbv zeta in *.
  destruct x as [|x0 [|x1 [|]]]; cbn [length] in Hx; try lia.
  set (de := i32 (Z.shiftr (Z.land d0 _) _)) in *. set (z := if negb (de =? 0) then _ else _) in *.
  assert (Htail : forall zs ys k w2, zlen zs + zlen ys = 2 -> scaled zs k (mantissa d0 d1) -> zs <> [] ->
    mp true w2 K ((p, bobj nx 1 0 zs ys) :: Os) (c - bcost b 1) ->
    wp n (if negb (de =? 0) then mret (p, de - Bias - (P - 1) + k, P - k)
      else v ← load32 (_x p + 4 * (zlen zs - 1)); mret (p, de - Bias - (P - 1) + 1 + k, 32 * zlen zs - hi0bits v)) w2 Q).
  { intros zs ys k w2 Hlen Hsc Hne H2. pose proof Hsc as [Hv Hodd Hno Hk].
    assert (Hbig : bigint 1 0 zs (bobj nx 1 0 zs ys)) by (split; [done|by exists nx, ys]).
    destruct (Z.eqb_spec de 0) as [Ed|Ed]; cbn [negb].
    - destruct zs as [|v zs _] using rev_ind; [done|]. rewrite zlen_snoc.
      assert (Hw := bigint_all_words _ _ _ _ _ p 1 0 _ _ H2 (list_elem_of_here _ _) Hbig).
      apply Forall_app in Hw as [Hwz [Hwv _]%Forall_cons].
      wp_step. eapply (wp_load _ _ _ _ _ p ([nx; 1; 2 ^ 1; 0; zlen (zs ++ [v])] ++ zs) v ys);
        [exact H2|unfold bobj; rewrite <-(app_assoc zs [v]); left|unfold _x; rewrite length_app; cbn; lia|]. wp_step.
      replace (de - Bias - (P - 1) + 1 + k) with (exponent d0 + k) by (rewrite (Hsub Ed); unfold Bias, P; lia).
      eapply HQ; [exact H2|done|done|]. apply number_bits; [done|].
      assert (v <> 0) by (apply Hno; by rewrite last_snoc). lia.
    - wp_step. destruct (Hnorm Ed) as [Hr He].
      replace (de - Bias - (P - 1) + k) with (exponent d0 + k) by (rewrite He; unfold Bias, P; lia).
      eapply HQ; [exact H2|done|done|]. unfold P. rewrite <-Hv in Hr.
      replace (53 - k - 1) with (52 - k) by lia. apply (shifted_bits (val zs) k 52); [lia|done|lia|done]. }
  destruct (Z.eqb_spec d1 0) as [E1|E1]; cbn [negb].
  - assert (0 < z < word) as Hzw by (change (2 ^ 21) with 2097152 in Hz; lia).
    destruct (lo0bits_odd z Hzw) as (k & y & -> & Ez & Hodd & Hk). cbv beta iota.
    assert (Hy : 0 < y <= z) by (assert (1 <= 2 ^ k) by lia; nia).
    wp_step. wp_step. eapply (wp_store _ _ _ _ _ p [nx; 1; 2 ^ 1; 0; 0] x0 [x1]); [exact Hmp|unfold _x; cbn; lia|lia|].
    intros w2 H2. wp_step.
    eapply (wp_store_int _ _ _ _ _ p [nx; 1; 2 ^ 1; 0] 0 [y; x1]); [exact H2|unfold _wds; cbn; lia|lia|].
    intros w3 H3. wp_steps. apply (Htail [y] [x1] (k + 32)); [done| |done|exact H3].
    split; [|cbn; lia|intros v [= <-]; lia|lia].
    rewrite Em, E1, Ez, Z.pow_add_r by lia. change (2 ^ 32) with word. cbn [val]. ring.
  - destruct (lo0bits_odd d1 ltac:(lia)) as (k & y & -> & Ey & Hodd & Hk). cbv beta iota.
    assert (Hs : 2 ^ (32 - k) * 2 ^ k = word) by (rewrite <-Z.pow_add_r by lia; replace (32 - k + k) with 32 by lia; done).
    assert (Hk0 : 0 < 2 ^ k) by lia. assert (Hy0 : 0 < y) by (apply (Z.mul_lt_mono_pos_r (2 ^ k)); lia).
    assert (Hy : 0 < y < 2 ^ (32 - k)) by (split; [done|apply (Z.mul_lt_mono_pos_r (2 ^ k)); lia]).
    assert (Hyw : y * 1 <= y * 2 ^ k) by (apply Z.mul_le_mono_nonneg_l; lia).
    set (x0' := y + z mod 2 ^ k * 2 ^ (32 - k)). set (z' := z / 2 ^ k).
    pose proof (Z.mod_pos_bound z (2 ^ k) Hk0) as Hzm. pose proof (Z.div_mod z (2 ^ k) ltac:(lia)) as Hzd. fold z' in Hzd.
    assert (Hx0 : 0 < x0' < word).
    { pose proof (two_parts (2 ^ (32 - k)) (2 ^ k) y (z mod 2 ^ k)). unfold x0'.
      assert (0 <= z mod 2 ^ k * 2 ^ (32 - k)) by (apply Z.mul_nonneg_nonneg; lia). lia. }
    assert (Hz' : 0 <= z' < 2 ^ 21).
    { unfold z'. split; [apply Z.div_pos; lia|]. assert (z / 2 ^ k <= z); [|lia].
      apply Z.div_le_upper_bound; [done|]. assert (1 * z <= 2 ^ k * z) by (apply Z.mul_le_mono_nonneg_r; lia). lia. }
    change (2 ^ 21) with 2097152 in Hz'.
    assert (Hval : (x0' + word * z') * 2 ^ k = mantissa d0 d1).
    { rewrite Em, Hzd, Ey. unfold x0'. rewrite <-Hs. ring. }
    assert (Hxodd : x0' mod 2 = 1).
    { unfold x0'. replace (32 - k) with (Z.succ (31 - k)) by lia. rewrite Z.pow_succ_r by lia.
      replace (y + _) with (y + z mod 2 ^ k * 2 ^ (31 - k) * 2) by ring. by rewrite Z_mod_plus_full. }
    assert (Hfirst : forall Q1 : Z -> world -> Prop,
      (forall w2, mp true w2 K ((p, [nx; 1; 2 ^ 1; 0; 0] ++ [x0'; x1]) :: Os) (c - bcost b 1) -> Q1 z' w2) ->
      wp n (if negb (k =? 0) then store32 (_x p) (Z.lor y (u32 (Z.shiftl z (32 - k)))) ;; mret (Z.shiftr z k)
        else store32 (_x p) y ;; mret z) w1 Q1).
    { intros Q1 HQ1. destruct (Z.eqb_spec k 0) as [->|Hk1]; cbn [negb]; wp_step.
      - assert (Ex : x0' = y) by (unfold x0'; change (2 ^ 0) with 1; rewrite Z.mod_1_r; lia).
        assert (Ezz : z' = z) by (unfold z'; change (2 ^ 0) with 1; apply Z.div_1_r). rewrite Ex, Ezz in HQ1.
        eapply (wp_store _ _ _ _ _ p [nx; 1; 2 ^ 1; 0; 0] x0 [x1]); [exact Hmp|unfold _x; cbn; lia|lia|].
        intros w2 H2. wp_steps. by apply HQ1.
      - destruct (shift_words z y k) as [Hw Ew]; [lia|lia|]. rewrite Ew. fold x0'. rewrite Z.shiftr_div_pow2 by lia. fold z'.
        eapply (wp_store _ _ _ _ _ p [nx; 1; 2 ^ 1; 0; 0] x0 [x1]); [exact Hmp|unfold _x; cbn; lia|lia|].
        intros w2 H2. wp_steps. by apply HQ1. }
    wp_step. wp_step. apply Hfirst. intros w2 H2. wp_step.
    eapply (wp_store _ _ _ _ _ p ([nx; 1; 2 ^ 1; 0; 0] ++ [x0']) x1 []); [exact H2|unfold _x; cbn; lia|lia|]. intros w3 H3.
    wp_step. set (i := if negb (z' =? 0) then 2 else 1).
    assert (Hi : i = 1 \/ i = 2) by (unfold i; destruct (z' =? 0); cbn; lia).
    eapply (wp_store_int _ _ _ _ _ p [nx; 1; 2 ^ 1; 0] 0 [x0'; z']); [exact H3|unfold _wds; cbn; lia|lia|].
    intros w4 H4. wp_steps. unfold i in *. destruct (Z.eqb_spec z' 0) as [Ez|Ez]; cbn [negb] in *.
    + apply (Htail [x0'] [z'] k); [done| |done|exact H4]. rewrite Ez in *. split; [|cbn [val]|intros v [= <-]; lia|lia].
      * rewrite <-Hval. cbn [val]. ring.
      * rewrite <-Hxodd. f_equal. lia.
    + apply (Htail [x0'; z'] [] k); [done| |done|exact H4]. split; [|cbn [val]|intros v [= <-]; lia|lia].
      * rewrite <-Hval. cbn [val]. ring.
      * rewrite <-Hxodd. replace (x0' + word * (z' + word * 0)) with (x0' + z' * 2147483648 * 2) by lia. by rewrite Z_mod_plus_full.
Qed.

(** ** b2d *)

(** Two words shifted right together. *)
Lemma shift_pair hi lo r : is_word hi -> is_word lo -> 0 < r < 32 ->
  let d := Z.lor (u32 (Z.shiftl hi (32 - r))) (Z.shiftr lo r) in
  is_word d /\ hi / 2 ^ r * word + d = (hi * word + lo) / 2 ^ r.
Proof.
  intros Hhi Hlo Hr. cbv zeta. rewrite Z.shiftl_mul_pow2, Z.shiftr_div_pow2 by lia.
  assert (Hs : 2 ^ (32 - r) * 2 ^ r = word) by (rewrite <-Z.pow_add_r by lia; replace (32 - r + r) with 32 by lia; done).
  assert (Hu : u32 (hi * 2 ^ (32 - r)) = hi mod 2 ^ r * 2 ^ (32 - r)).
  { unfold u32. rewrite <-Hs at 1. rewrite (Z.mul_comm hi), Z.mul_mod_distr_l by lia. lia. }
  assert (Hl : 0 <= lo / 2 ^ r < 2 ^ (32 - r)) by (split; [apply Z.div_pos; lia|apply Z.div_lt_upper_bound; lia]).
  rewrite Hu, lor_disjoint by lia. pose proof (Z.mod_pos_bound hi (2 ^ r) ltac:(lia)) as Hm.
  pose proof (Z.div_mod hi (2 ^ r) ltac:(lia)) as Hd. set (a := 2 ^ (32 - r)) in *. set (b := 2 ^ r) in *.
  split; [pose proof (two_parts a b (lo / b) (hi mod b)); lia|]. replace (hi * word + lo) with (lo + hi * a * b) by (rewrite <-Hs; ring). rewrite Z.div_add by lia.
  replace (hi * a) with ((b * (hi / b) + hi mod b) * a) by (rewrite <-Hd; done). rewrite <-Hs. ring.
Qed.

(** The exponent bits of a double in [1, 2). *)
Lemma exp_part x : 2 ^ 20 <= x < 2 ^ 21 -> Z.lor Exp_1 x = 0x3fe00000 + x.
Proof.
  change (2 ^ 20) with 1048576. change (2 ^ 21) with 2097152. intros Hx.
  replace x with (1 * 2 ^ 20 + (x - 1048576)) at 1 by (change (2 ^ 20) with 1048576; lia).
  rewrite <-(lor_disjoint 1 (x - 1048576) 20) by (change (2 ^ 20) with 1048576; lia).
  rewrite Z.lor_assoc. change (Z.lor Exp_1 (1 * 2 ^ 20)) with (1023 * 2 ^ 20).
  rewrite lor_disjoint by (change (2 ^ 20) with 1048576; lia). change (2 ^ 20) with 1048576. lia.
Qed.

(** The first bits [M] of a number, from its first three words [T]. *)
Record leading xs (T : Z) : Prop := {
  ld_low : T * word ^ zlen xs <= val xs * 2 ^ 96;
  ld_high : val xs * 2 ^ 96 < (T + 1) * word ^ zlen xs;
}.

Lemma leading_bits xs T h M : leading xs T -> 0 <= h <= 31 -> M = T / 2 ^ (43 - h) ->
  32 <= 32 * zlen xs -> M * 2 ^ (32 * zlen xs - h) <= val xs * 2 ^ 53 < (M + 1) * 2 ^ (32 * zlen xs - h).
Proof.
  intros [Hlo Hhi] Hh -> Hn. pose proof (Z.div_mod T (2 ^ (43 - h)) ltac:(lia)) as Hd.
  pose proof (Z.mod_pos_bound T (2 ^ (43 - h)) ltac:(lia)) as Hm. set (M := T / 2 ^ (43 - h)) in *.
  assert (Hb : 2 ^ 43 * 2 ^ (32 * zlen xs - h) = 2 ^ (43 - h) * word ^ zlen xs).
  { change word with (2 ^ 32). rewrite <-Z.pow_mul_r, <-!Z.pow_add_r by lia. f_equal. lia. }
  change (2 ^ 96) with (2 ^ 53 * 2 ^ 43) in *. set (a := 2 ^ (43 - h)) in *. set (B := word ^ zlen xs) in *.
  set (D := 2 ^ (32 * zlen xs - h)) in *. set (v := val xs * 2 ^ 53) in *.
  assert (0 < B) by (unfold B; lia). assert (0 < 2 ^ 43) by lia.
  assert (H1 : M * a * B <= T * B) by (apply Z.mul_le_mono_nonneg_r; lia).
  assert (H2 : (T + 1) * B <= (M + 1) * a * B) by (apply Z.mul_le_mono_nonneg_r; lia).
  rewrite Z.mul_assoc in Hlo, Hhi. fold v in Hlo, Hhi.
  split; [apply (Z.mul_le_mono_pos_l _ _ (2 ^ 43)); [done|]|apply (Z.mul_lt_mono_pos_l (2 ^ 43)); [done|]].
  - replace (2 ^ 43 * (M * D)) with (M * (2 ^ 43 * D)) by ring. rewrite Hb. lia.
  - replace (2 ^ 43 * ((M + 1) * D)) with ((M + 1) * (2 ^ 43 * D)) by ring. rewrite Hb. lia.
Qed.

Lemma leading_words l (z z2 y : Z) : all_words l -> leading (l ++ [z2; z; y]) ((y * word + z) * word + z2).
Proof.
  intros Hl. pose proof (val_range l Hl) as Hr.
  assert (El : word ^ zlen (l ++ [z2; z; y]) = word ^ zlen l * 2 ^ 96).
  { rewrite length_app, Nat2Z.inj_add, Z.pow_add_r by lia. done. }
  split; rewrite El, val_app; cbn [val]; set (B := word ^ zlen l) in *; lia.
Qed.

(** The words that are missing count as zero. *)
Lemma leading_pad j xs T : leading (replicate j 0 ++ xs) T -> leading xs T.
Proof.
  intros [Hlo Hhi]. rewrite val_app, val_zeros, length_app, length_replicate, Nat2Z.inj_add, Z.pow_add_r in * by lia.
  assert (0 < word ^ Z.of_nat j) by lia. set (B := word ^ Z.of_nat j) in *. set (D := word ^ zlen xs) in *.
  split; [apply (Z.mul_le_mono_pos_l _ _ B)|apply (Z.mul_lt_mono_pos_l B)]; lia.
Qed.

(** The last word of [l], or zero when there is none. *)
Definition lower l v l' : Prop := l = l' ++ [v] \/ l = [] /\ l' = [] /\ v = 0.

Lemma lower_ex l : exists v l', lower l v l'.
Proof. destruct l as [|v l' _] using rev_ind; [by exists 0, []; right|by exists v, l'; left]. Qed.

Lemma lower_all l v l' : lower l v l' -> all_words l -> is_word v /\ all_words l'.
Proof. intros [ -> |(-> & -> & ->)]; [|split; [lia|done]]. by intros [H [Hv _]%Forall_cons]%Forall_app. Qed.

Lemma leading_lower l z l' z2 l2 y : lower l z l' -> lower l' z2 l2 -> all_words l2 ->
  leading (l ++ [y]) ((y * word + z) * word + z2).
Proof.
  intros [ -> |(-> & El & ->)] [E|(E & -> & ->)] Hw; subst.
  - rewrite <-!app_assoc. by apply leading_words.
  - by apply (leading_pad 1), (leading_words []).
  - by destruct l2.
  - by apply (leading_pad 2), (leading_words []).
Qed.

(** A word of the number, or zero when there is none. *)
Lemma wp_lower_word b w K Os c p hdr l rest n (Q : Z * Z -> world -> Prop) :
  mp b w K Os c -> (p, hdr ++ l ++ rest) ∈ Os -> length hdr = 5%nat ->
  (forall v l', lower l v l' -> Q (v, _x p + 4 * zlen l') w) ->
  wp n (if _x p <? _x p + 4 * zlen l then v ← load32 (_x p + 4 * zlen l - 4); mret (v, _x p + 4 * zlen l - 4)
    else mret (0, _x p + 4 * zlen l)) w Q.
Proof.
  intros H Hin Hhdr HQ. destruct l as [|v l' _] using rev_ind.
  - rewrite (proj2 (Z.ltb_ge _ _)) by (cbn; lia). wp_step. apply HQ. by right.
  - rewrite zlen_snoc, (proj2 (Z.ltb_lt _ _)) by lia. wp_step.
    rewrite <-(app_assoc l'), app_assoc in Hin.
    eapply (wp_load _ _ _ _ _ p (hdr ++ l') v rest); [exact H|exact Hin|unfold _x; rewrite length_app; lia|]. wp_step.
    replace (_x p + 4 * (zlen l' + 1) - 4) with (_x p + 4 * zlen l') by lia. apply HQ. by left.
Qed.

(** The two words of the double with the mantissa [M]. *)
Definition double_words (d0 d1 M : Z) : Prop :=
  is_word d0 /\ is_word d1 /\ d0 * word + d1 = 0x3fe00000 * word + M.

Lemma b2d_low y z h : 2 ^ 31 <= y * 2 ^ h < 2 ^ 32 -> is_word y -> is_word z -> 0 <= h < 11 ->
  double_words (Z.lor Exp_1 (Z.shiftr y (11 - h)))
    (Z.lor (u32 (Z.shiftl y (32 - 11 + h))) (Z.shiftr z (11 - h))) ((y * word + z) / 2 ^ (11 - h)).
Proof.
  intros Hy Hyw Hz Hh. set (r := 11 - h). replace (32 - 11 + h) with (32 - r) by lia.
  destruct (shift_pair y z r) as [Hd E]; [done|done|lia|]. cbv zeta in *. set (d := Z.lor (u32 _) _) in *.
  rewrite Z.shiftr_div_pow2 by lia.
  assert (Hb : 2 ^ 20 <= y / 2 ^ r < 2 ^ 21).
  { assert (Hp : 2 ^ r * 2 ^ h = 2 ^ 11) by (rewrite <-Z.pow_add_r by lia; f_equal; lia).
    assert (0 < 2 ^ h) by lia.
    split; [apply Z.div_le_lower_bound|apply Z.div_lt_upper_bound]; [lia| |lia|];
      [apply (Z.mul_le_mono_pos_r _ _ (2 ^ h))|apply (Z.mul_lt_mono_pos_r (2 ^ h))]; try done.
    - replace (2 ^ r * 2 ^ 20 * 2 ^ h) with (2 ^ r * 2 ^ h * 2 ^ 20) by ring. rewrite Hp. lia.
    - replace (2 ^ r * 2 ^ 21 * 2 ^ h) with (2 ^ r * 2 ^ h * 2 ^ 21) by ring. rewrite Hp. lia. }
  rewrite exp_part by done. change (2 ^ 20) with 1048576 in Hb. change (2 ^ 21) with 2097152 in Hb. split_and!; lia.
Qed.

Lemma b2d_high y z z2 h : 2 ^ 31 <= y * 2 ^ h < 2 ^ 32 -> is_word y -> is_word z -> is_word z2 -> 11 < h <= 31 ->
  double_words (Z.lor (Z.lor Exp_1 (u32 (Z.shiftl y (h - 11)))) (Z.shiftr z (32 - (h - 11))))
    (Z.lor (u32 (Z.shiftl z (h - 11))) (Z.shiftr z2 (32 - (h - 11))))
    (((y * word + z) * word + z2) / 2 ^ (43 - h)).
Proof.
  intros Hy Hyw Hz Hz2 Hh. set (r := 43 - h). replace (32 - (h - 11)) with r by lia. replace (h - 11) with (32 - r) by lia.
  destruct (shift_pair z z2 r) as [Hd E]; [done|done|lia|]. cbv zeta in *. set (d := Z.lor (u32 (Z.shiftl z _)) _) in *.
  rewrite Z.shiftr_div_pow2, Z.shiftl_mul_pow2 by lia.
  assert (Hyr : 2 ^ 20 <= y * 2 ^ (32 - r) < 2 ^ 21).
  { assert (Hp : 2 ^ h = 2 ^ (32 - r) * 2 ^ 11) by (rewrite <-Z.pow_add_r by lia; f_equal; lia). rewrite Hp in Hy. lia. }
  assert (Hs : 2 ^ (32 - r) * 2 ^ r = word) by (rewrite <-Z.pow_add_r by lia; replace (32 - r + r) with 32 by lia; done).
  assert (Hzr : 0 <= z / 2 ^ r < 2 ^ (32 - r)) by (split; [apply Z.div_pos; lia|apply Z.div_lt_upper_bound; lia]).
  rewrite u32_small by (change (2 ^ 21) with 2097152 in Hyr; lia). rewrite <-Z.lor_assoc, lor_disjoint by lia.
  assert (Hb : 2 ^ 20 <= y * 2 ^ (32 - r) + z / 2 ^ r < 2 ^ 21).
  { split; [lia|]. assert (Hr21 : 2 ^ 21 = 2 ^ (r - 11) * 2 ^ (32 - r)) by (rewrite <-Z.pow_add_r by lia; f_equal; lia).
    rewrite Hr21 in *.
    assert (Hy1 : y < 2 ^ (r - 11)) by (apply (Z.mul_lt_mono_pos_r (2 ^ (32 - r))); lia).
    assert ((y + 1) * 2 ^ (32 - r) <= 2 ^ (r - 11) * 2 ^ (32 - r)) by (apply Z.mul_le_mono_nonneg_r; lia). lia. }
  rewrite exp_part by done. replace ((y * word + z) * word + z2) with (z * word + z2 + y * word * 2 ^ (32 - r) * 2 ^ r) by (rewrite <-Hs; ring).
  rewrite Z.div_add by lia. rewrite <-E. change (2 ^ 20) with 1048576 in Hb. change (2 ^ 21) with 2097152 in Hb. split_and!; lia.
Qed.

Lemma b2d_even y z : 2 ^ 31 <= y * 2 ^ 11 < 2 ^ 32 -> is_word y -> is_word z ->
  double_words (Z.lor Exp_1 y) z (y * word + z).
Proof.
  change (2 ^ 31) with 2147483648. change (2 ^ 11) with 2048. change (2 ^ 32) with word. intros Hy Hyw Hz.
  rewrite exp_part by (change (2 ^ 20) with 1048576; change (2 ^ 21) with 2097152; lia). split_and!; lia.
Qed.

Lemma wp_b2d b w K Os c p k s xs o n (Q : Z * Z * Z -> world -> Prop) :
  mp b w K Os c -> (p, o) ∈ Os -> bigint k s xs o -> xs <> [] -> normal xs ->
  (forall d0 d1 e M, 1 <= e <= 32 -> double_words d0 d1 M ->
    2 ^ (32 * (zlen xs - 1) + e - 1) <= val xs < 2 ^ (32 * (zlen xs - 1) + e) ->
    M * 2 ^ (32 * (zlen xs - 1) + e) <= val xs * 2 ^ 53 < (M + 1) * 2 ^ (32 * (zlen xs - 1) + e) ->
    Q (d0, d1, e) w) ->
  wp n (b2d p) w Q.
Proof.
  intros H Hp Hb Hne Hno HQ. assert (Hw := bigint_all_words _ _ _ _ _ _ _ _ _ _ H Hp Hb). unfold b2d. cbv zeta.
  wp_step. eapply load_wds; [exact H|exact Hp|exact Hb|]. pose proof Hb as [Hk (nx & ys & -> & Hys)].
  destruct xs as [|y l _] using rev_ind; [done|]. pose (hdr := [nx; k; 2 ^ k; s; zlen (l ++ [y])]).
  pose proof Hw as [Hwl [Hy _]%Forall_cons]%Forall_app. assert (Hy0 : y <> 0) by (apply Hno; by rewrite last_snoc).
  destruct (hi0bits_range y ltac:(lia)) as [Hh Hr]. set (h := hi0bits y) in *.
  assert (Hin : (p, (hdr ++ l) ++ y :: ys) ∈ Os).
  { unfold bobj in Hp. rewrite <-app_assoc. rewrite <-(app_assoc l [y]) in Hp. exact Hp. }
  rewrite zlen_snoc. wp_step. eapply (wp_load _ _ _ _ _ p (hdr ++ l) y ys); [exact H|exact Hin|unfold _x; rewrite length_app; cbn; lia|].
  replace (_x p + 4 * (zlen l + 1) - 4) with (_x p + 4 * zlen l) by lia.
  assert (Hfin : forall d0 d1 M T, leading (l ++ [y]) T -> M = T / 2 ^ (43 - h) -> double_words d0 d1 M -> Q (d0, d1, 32 - h) w).
  { intros d0 d1 M T HT HM Hd. rewrite zlen_snoc in HQ.
    apply (HQ d0 d1 (32 - h) M); [lia|done|..].
    { replace (32 * (zlen l + 1 - 1) + (32 - h)) with (32 * (zlen l + 1) - h) by lia. apply number_bits; [done|lia]. }
    pose proof (leading_bits _ _ _ _ HT Hh HM) as Hb2. rewrite zlen_snoc in Hb2.
    replace (32 * (zlen l + 1 - 1) + (32 - h)) with (32 * (zlen l + 1) - h) by lia. apply Hb2. lia. }
  rewrite <-app_assoc in Hin.
  assert (Hleft : forall z l' z2 l2, lower l z l' -> lower l' z2 l2 -> is_word z /\ is_word z2 /\
    leading (l ++ [y]) ((y * word + z) * word + z2) /\
    (y * word + z) / 2 ^ (11 - h) = ((y * word + z) * word + z2) / word / 2 ^ (11 - h)).
  { intros z l' z2 l2 H1 H2. destruct (lower_all _ _ _ H1 Hwl) as [Hz Hl']. destruct (lower_all _ _ _ H2 Hl') as [Hz2 Hl2].
    do 2 (split; [done|]). split; [by eapply leading_lower|]. f_equal. lia. }
  fold h. unfold Ebits. destruct (Z.ltb_spec h 11) as [H11|H11]; cbv zeta iota; wp_step;
    (eapply (wp_lower_word _ _ _ _ _ p hdr l (y :: ys)); [exact H|exact Hin|done|]); intros z l' Hl.
  - destruct (lower_ex l') as (z2 & l2 & Hl2). destruct (Hleft _ _ _ _ Hl Hl2) as (Hz & Hz2 & HT & HM). wp_steps.
    eapply Hfin; [exact HT| |apply b2d_low; (done || lia)]. rewrite HM, Z.div_div by lia. f_equal.
    change word with (2 ^ 32). rewrite <-Z.pow_add_r by lia. f_equal. lia.
  - destruct (Z.eqb_spec (h - 11) 0) as [Eh|Eh]; cbn [negb].
    + destruct (lower_ex l') as (z2 & l2 & Hl2). destruct (Hleft _ _ _ _ Hl Hl2) as (Hz & Hz2 & HT & HM). wp_steps.
      eapply Hfin; [exact HT| |apply b2d_even; [by replace 11 with h by lia|done|done]].
      replace (43 - h) with 32 by lia. change (2 ^ 32) with word. lia.
    + wp_step.
      eapply (wp_lower_word _ _ _ _ _ p hdr l' (drop (length l') (l ++ y :: ys))); [exact H| |done|].
      { replace (l' ++ drop (length l') (l ++ y :: ys)) with (l ++ y :: ys); [exact Hin|].
        destruct Hl as [ -> |(-> & -> & ->)]; [|done]. by rewrite <-!app_assoc, drop_app_length. }
      intros z2 l2 Hl2. destruct (Hleft _ _ _ _ Hl Hl2) as (Hz & Hz2 & HT & _). wp_steps.
      eapply Hfin; [exact HT|reflexivity|]. apply b2d_high; [done..|lia].
Qed.

(** ** any_on: whether a bit below the [k]-th is set *)

Lemma wp_any_on_loop b w K Os c p hdr n (Q : Z -> world -> Prop) : length hdr = 5%nat -> mp b w K Os c -> 
  forall l rest j, (p, hdr ++ l ++ rest) ∈ Os -> (length l < j)%nat -> Q (if val l =? 0 then 0 else 1) w ->
  wp n (loop_k j (fun q =>
    if _x p <? q then
      let q := q - 4 in
      v ← load32 q;
      if negb (v =? 0) then brk 1 else next q
    else brk 0) (_x p + 4 * zlen l)) w Q.
Proof.
  intros Hhdr H. induction l as [|v l IH] using rev_ind; intros rest j Hin Hj HQ; (destruct j as [|j]; [lia|]); apply wp_loop_S.
  - rewrite (proj2 (Z.ltb_ge _ _)) by (cbn; lia). by wp_steps.
  - assert (Hw := all_words_in _ _ _ _ _ p hdr _ _ H Hin). apply Forall_app in Hw as [Hwl [Hv _]%Forall_cons].
    pose proof (val_range l Hwl) as Hr. rewrite val_app in HQ. cbn [val] in HQ.
    rewrite length_app in Hj. cbn in Hj. rewrite zlen_snoc, (proj2 (Z.ltb_lt _ _)) by lia. cbv zeta. wp_step.
    rewrite <-(app_assoc l) in Hin. eapply (wp_load _ _ _ _ _ p (hdr ++ l) v rest);
      [exact H|by rewrite <-app_assoc|unfold _x; rewrite length_app; lia|].
    destruct (Z.eqb_spec v 0) as [->|Hv0]; cbn [negb]; wp_step.
    + replace (_x p + 4 * (zlen l + 1) - 4) with (_x p + 4 * zlen l) by lia.
      apply (IH ([0] ++ rest)); [exact Hin|lia|]. by rewrite Z.mul_0_r, Z.add_0_r in HQ.
    + assert (0 < word ^ zlen l * (v + word * 0)) by nia. by rewrite (proj2 (Z.eqb_neq _ 0)) in HQ by lia.
Qed.

(** The low bits of a number, when [k] is within its [i]-th word. *)
Lemma low_bits_split l v rest k : all_words l -> 0 <= k < 32 ->
  val (l ++ v :: rest) mod 2 ^ (32 * zlen l + k) = val l + word ^ zlen l * (v mod 2 ^ k).
Proof.
  intros Hl Hk. pose proof (val_range l Hl) as Hr. rewrite val_app. cbn [val].
  assert (Hpow : word ^ zlen l = 2 ^ (32 * zlen l)) by (rewrite Z.pow_mul_r by lia; done). rewrite Hpow in *.
  rewrite Z.pow_add_r by lia. set (B := 2 ^ (32 * zlen l)) in *. set (D := 2 ^ k) in *. assert (0 < D) by (unfold D; lia).
  assert (Hwd : word = 2 ^ (32 - k) * D) by (unfold D; rewrite <-Z.pow_add_r by lia; replace (32 - k + k) with 32 by lia; done).
  pose proof (Z.div_mod v D ltac:(lia)) as Hd. pose proof (Z.mod_pos_bound v D ltac:(lia)) as Hm.
  symmetry. apply (Z.mod_unique _ _ (v / D + 2 ^ (32 - k) * val rest)); [left; by apply two_parts|].
  rewrite Hwd. rewrite Hd at 1. ring.
Qed.

Lemma wp_any_on b w K Os c p kb s xs o k n (Q : Z -> world -> Prop) :
  mp b w K Os c -> (p, o) ∈ Os -> bigint kb s xs o -> 0 <= k -> (length xs < n)%nat ->
  Q (if val xs mod 2 ^ k =? 0 then 0 else 1) w -> wp n (any_on p k) w Q.
Proof.
  intros H Hp Hb Hk Hn HQ. assert (Hw := bigint_all_words _ _ _ _ _ _ _ _ _ _ H Hp Hb). unfold any_on, kshift, kmask. cbv zeta.
  wp_step. eapply load_wds; [exact H|exact Hp|exact Hb|]. pose proof Hb as [Hkb (nx & ys & -> & Hys)].
  pose (hdr := [nx; kb; 2 ^ kb; s; zlen xs]). assert (Hin : (p, hdr ++ xs ++ ys) ∈ Os) by exact Hp.
  change 31 with (Z.ones 5). rewrite Z.shiftr_div_pow2, Z.land_ones by lia. change (2 ^ 5) with 32.
  pose proof (val_range xs Hw) as Hr. assert (Hpow : word ^ zlen xs = 2 ^ (32 * zlen xs)) by (rewrite Z.pow_mul_r by lia; done).
  wp_step. destruct (Z.le_gt_cases (zlen xs) (k / 32)) as [Hbig|Hlow].
  - assert (Hsame : (if zlen xs <? k / 32 then zlen xs else k / 32) = zlen xs) by (destruct (Z.ltb_spec (zlen xs) (k / 32)); lia).
    assert (Hmod : val xs mod 2 ^ k = val xs).
    { apply Z.mod_small. split; [lia|]. assert (2 ^ (32 * zlen xs) <= 2 ^ k) by (apply Z.pow_le_mono_r; lia). lia. }
    rewrite Hmod in HQ. replace (k / 32 <? zlen xs) with false by (symmetry; by apply Z.ltb_ge). cbn [andb].
    destruct (Z.ltb_spec (zlen xs) (k / 32)); wp_step; apply wp_loop_k;
      [|replace (k / 32) with (zlen xs) by lia]; (eapply (wp_any_on_loop _ _ _ _ _ p hdr); [done|exact H|exact Hin|done|exact HQ]).
  - rewrite (proj2 (Z.ltb_ge _ _)) by lia. rewrite (proj2 (Z.ltb_lt _ _)) by lia. cbn [andb].
    destruct (lookup_lt_is_Some_2 xs (Z.to_nat (k / 32))) as [v Hv]; [lia|].
    assert (Hxs := take_drop_middle xs _ _ Hv). set (l := take (Z.to_nat (k / 32)) xs) in *. set (rest := drop _ xs) in *.
    assert (Hl : zlen l = k / 32) by (unfold l; rewrite length_take; lia).
    rewrite <-Hxs in Hw, Hin, HQ. apply Forall_app in Hw as [Hwl [Hvw _]%Forall_cons].
    replace k with (32 * zlen l + k mod 32) in HQ by lia. rewrite low_bits_split in HQ by (done || lia).
    pose proof (val_range l Hwl) as Hrl. rewrite <-Hl. rewrite <-(app_assoc l) in Hin. cbn [app] in Hin.
    assert (Hrun : Q (if val l =? 0 then 0 else 1) w -> wp n (loop_k n (fun q =>
      if _x p <? q then let q := q - 4 in v ← load32 q; if negb (v =? 0) then brk 1 else next q else brk 0) (_x p + 4 * zlen l)) w Q).
    { apply (wp_any_on_loop _ _ _ _ _ p hdr n Q ltac:(done) H l (v :: rest ++ ys)); [exact Hin|].
      unfold l. rewrite length_take. lia. }
    destruct (Z.eqb_spec (k mod 32) 0) as [E0|E0]; cbn [negb].
    + wp_step. apply wp_loop_k, Hrun. by rewrite E0, Z.mod_1_r, Z.mul_0_r, Z.add_0_r in HQ.
    + wp_step. eapply (wp_load _ _ _ _ _ p (hdr ++ l) v (rest ++ ys)); [exact H|by rewrite <-app_assoc|unfold _x; rewrite length_app; cbn; lia|].
      pose proof (Z.div_mod v (2 ^ (k mod 32)) ltac:(lia)) as Hd. pose proof (Z.mod_pos_bound v (2 ^ (k mod 32)) ltac:(lia)) as Hm.
      rewrite Z.shiftl_mul_pow2, Z.shiftr_div_pow2 by lia. set (D := 2 ^ (k mod 32)) in *. 
      assert (0 <= v / D) by (apply Z.div_pos; lia). rewrite u32_small by lia.
      destruct (Z.eqb_spec (v / D * D) v) as [Ev|Ev]; cbn [negb]; wp_step.
      * apply wp_loop_k, Hrun. replace (v mod D) with 0 in HQ by lia. by rewrite Z.mul_0_r, Z.add_0_r in HQ.
      * assert (0 < word ^ zlen l * (v mod D)) by (apply Z.mul_pos_pos; lia). by rewrite (proj2 (Z.eqb_neq _ 0)) in HQ by lia.
Qed.

(** ** copybits *)

Lemma wp_copybits_loop b K Os c p q xs n (Q : Z -> world -> Prop) :
  forall w old pre post prea posta j, length old = length xs -> (q, prea ++ xs ++ posta) ∈ Os ->
  mp b w K ((p, pre ++ old ++ post) :: Os) c -> (length xs < j)%nat ->
  (forall w', mp b w' K ((p, pre ++ xs ++ post) :: Os) c -> Q (p + 4 * (zlen pre + zlen xs)) w') ->
  wp n (loop_k j (fun '(c, x) =>
    if x <? q + 4 * (zlen prea + zlen xs) then v ← load32 x; store32 c v ;; next (c + 4, x + 4) else brk c)
    (p + 4 * zlen pre, q + 4 * zlen prea)) w Q.
Proof.
  induction xs as [|v xs IH]; intros w [|u old] pre post prea posta j Hl Hin H Hj HQ; try done;
    (destruct j as [|j]; [lia|]); apply wp_loop_S.
  - rewrite (proj2 (Z.ltb_ge _ _)) by (cbn; lia). wp_step.
    replace (p + 4 * zlen pre) with (p + 4 * (zlen pre + zlen ([] : list Z))) by (cbn; lia). by apply HQ.
  - cbn [length] in *. rewrite (proj2 (Z.ltb_lt _ _)) by lia. wp_step.
    eapply (wp_load _ _ _ _ _ q prea v (xs ++ posta)); [exact H|by right|done|]. wp_step.
    assert (Hv : is_word v).
    { assert (Hw := all_words_in _ _ _ _ _ q prea (v :: xs) posta H ltac:(by right)). by apply Forall_cons in Hw as [? _]. }
    eapply (wp_store _ _ _ _ _ p pre u (old ++ post)); [exact H|done|done|]. intros w1 H1. wp_steps.
    replace (p + 4 * zlen pre + 4) with (p + 4 * zlen (pre ++ [v])) by (rewrite zlen_snoc; lia).
    replace (q + 4 * zlen prea + 4) with (q + 4 * zlen (prea ++ [v])) by (rewrite zlen_snoc; lia).
    replace (zlen prea + Z.of_nat (S (length xs))) with (zlen (prea ++ [v]) + zlen xs) by (rewrite zlen_snoc; lia).
    apply (IH w1 old (pre ++ [v]) post (prea ++ [v]) posta); [lia|by rewrite <-app_assoc|by rewrite <-app_assoc|lia|].
    intros w2 H2. rewrite <-app_assoc in H2. rewrite zlen_snoc.
    replace (zlen pre + 1 + zlen xs) with (zlen pre + Z.of_nat (S (length xs))) by lia. by apply HQ.
Qed.

Lemma wp_copybits b w K Os c cp old p kb s xs o nbits n (Q : unit -> world -> Prop) :
  mp b w K ((cp, old) :: Os) c -> (p, o) ∈ Os -> bigint kb s xs o -> zlen old = Z.shiftr (nbits - 1) 5 + 1 ->
  zlen xs <= zlen old -> (length old < n)%nat ->
  (forall w', mp b w' K ((cp, xs ++ replicate (length old - length xs) 0) :: Os) c -> Q tt w') ->
  wp n (copybits cp nbits p) w Q.
Proof.
  intros H Hp Hb Hold Hle Hn HQ. unfold copybits, kshift. cbv zeta. rewrite <-Hold.
  wp_step. eapply load_wds; [exact H|right; exact Hp|exact Hb|]. pose proof Hb as [Hkb (nx & ys & -> & Hys)].
  pose (hdr := [nx; kb; 2 ^ kb; s; zlen xs]). wp_step. apply wp_loop_k. rewrite (x_addr p hdr) by done.
  replace (p + 4 * zlen hdr + 4 * zlen xs) with (p + 4 * (zlen hdr + zlen xs)) by lia.
  rewrite <-(take_drop (length xs) old) in H.
  replace (cp, p + 4 * zlen hdr) with (cp + 4 * zlen ([] : list Z), p + 4 * zlen hdr) by (f_equal; cbn; lia).
  eapply (wp_copybits_loop _ _ _ _ cp p xs n _ w (take (length xs) old) [] (drop (length xs) old) hdr ys);
    [rewrite length_take; lia|exact Hp|exact H|lia|].
  intros w1 H1. replace (cp + 4 * (zlen ([] : list Z) + zlen xs)) with (cp + 4 * zlen xs) by (cbn; lia).
  eapply (wp_clear_words _ _ _ _ cp (drop (length xs) old) n); [rewrite length_drop; lia|rewrite length_drop; lia|by rewrite app_nil_r|].
  intros w2 H2. apply HQ. by rewrite length_drop, app_nil_r in H2.
Qed.
End mprec.
