(* ===== verification/Bump.v ===== *)
(** * A concrete allocator

    An instance of the interface of Heap, for the concrete inputs to which the
    theorems about allocating functions are applied. *)

From S2P Require Import Prelude CMonad Words Memory MemCopy Heap Blocks Concrete.

(** Successive blocks of the arena [2000, 2400), with the address of the next
    one in its first word; [free] does not reuse blocks. *)
Definition bump_malloc (size : Z) : C Z :=
  p ← load32 2000;
  if 2400 <? p + size then mret 0 else store32 2000 (p + size) ;; mret p.
Definition bump_free (p : Z) : C unit := mret tt.

Definition bump_arena (a : Z) : Prop := 2000 <= a < 2400.
Definition bump_next (m : mem) : Z :=
  le32 (m !!! 2000) (m !!! 2001) (m !!! 2002) (m !!! 2003).
Record bump_heap (B : gmap Z Z) (m : mem) : Prop := {
  bh_next : bytes m 2000 (le_bytes (bump_next m));
  bh_range : 2004 <= bump_next m <= 2400;
  bh_mapped : mapped m 2000 400;
  bh_blocks : map_Forall (fun b n => 2004 <= b /\ 0 < n /\ b + n <= bump_next m) B;
  bh_disjoint : map_Forall (fun b n => map_Forall (fun c k => b <> c -> disjoint_ranges b n c k) B) B;
}.

Lemma bump_next_eq m v : bytes m 2000 (le_bytes v) -> 0 <= v < 4294967296 -> bump_next m = v.
Proof.
  intros (H0 & H1 & H2 & H3 & _) Hv. unfold bump_next. change (2000 + 1) with 2001 in H1.
  change (2000 + 1 + 1) with 2002 in H2. change (2000 + 1 + 1 + 1) with 2003 in H3.
  rewrite !lookup_total_alt, H0, H1, H2, H3. by apply le32_byte_of.
Qed.

Lemma bump_outside B m a : bump_heap B m -> 2000 <= a < 2004 -> ~ client bump_arena B a.
Proof.
  intros H Ha [Hn|(b & n & Hb & Hab)]; [apply Hn; unfold bump_arena; lia|].
  apply (bh_blocks _ _ H) in Hb. lia.
Qed.

(** What [malloc] does, with the space that is left. *)
Lemma wp_bump_malloc n B size w (Q : Z -> world -> Prop) :
  mem_ok (w_mem w) -> bump_heap B (w_mem w) -> 0 < size ->
  (2400 < bump_next (w_mem w) + size -> Q 0 w) ->
  (forall w', mem_ok (w_mem w') -> w_io w' = w_io w -> kept bump_arena B (w_mem w) (w_mem w') ->
    B !! bump_next (w_mem w) = None -> bump_heap (<[bump_next (w_mem w) := size]> B) (w_mem w') ->
    bump_next (w_mem w') = bump_next (w_mem w) + size -> Q (bump_next (w_mem w)) w') ->
  wp n (bump_malloc size) w Q.
Proof.
  intros Hm H Hs H0 Hq. unfold bump_malloc.
  pose proof (bh_range _ _ H) as Hr. wp_step. eapply wp_load32_le; [apply H|lia|].
  destruct (Z.ltb_spec 2400 (bump_next (w_mem w) + size)) as [Hb|Hb]; wp_step; [by apply H0|].
  apply wp_store32_le; [eapply mapped_sub; [apply H|lia..]|lia|]. wp_step.
  set (q := bump_next (w_mem w)) in *. set (v := q + size) in *.
  set (m' := store_bytes 2000 (le_bytes v) (w_mem w)).
  assert (Hnext : bump_next m' = v) by (apply bump_next_eq; [apply bytes_store_same|lia]).
  assert (HqB : B !! q = None).
  { destruct (B !! q) as [k|] eqn:E; [|done]. apply (bh_blocks _ _ H) in E. cbn in E. fold q in E. lia. }
  apply Hq; cbn [set_mem w_mem]; [|done| |done| |exact Hnext].
  + apply mem_ok_store; [done|eapply mapped_sub; [apply H|cbn; lia..]|].
    unfold le_bytes. rewrite !Forall_cons. split_and!; [apply byte_of_range..|done].
  + intros a Ha. apply lookup_store_out. cbn [le_bytes length].
    destruct (decide (2000 <= a < 2004)) as [Hin|]; [|lia].
    by destruct (bump_outside B (w_mem w) a H Hin).
  + split; fold m'; rewrite ?Hnext.
    * apply bytes_store_same.
    * lia.
    * by apply mapped_store, H.
    * apply map_Forall_insert_2; [unfold v; lia|]. eapply map_Forall_impl; [apply H|].
      intros b k Hbk. cbn in Hbk. unfold v. fold q in Hbk. lia.
    * intros b k Hbk c j Hcj Hne. destruct H as [_ _ _ Hblk Hdis]. fold q in Hblk.
      apply lookup_insert_Some in Hbk as [[<- <-]|[Hb1 Hbk]];
        apply lookup_insert_Some in Hcj as [[<- <-]|[Hc1 Hcj]]; [done|..].
      -- apply Hblk in Hcj. unfold disjoint_ranges. lia.
      -- apply Hblk in Hbk. unfold disjoint_ranges. lia.
      -- by apply (Hdis b k Hbk c j Hcj).
Qed.

#[export] Instance bump_allocator : allocator bump_malloc bump_free.
Proof.
  refine {| arena := bump_arena; heap := bump_heap; alloc_fuel := 0 |}.
  - intros B m b n a H Hb Ha. apply (bh_blocks _ _ H) in Hb. cbn in Hb.
    pose proof (bh_range _ _ H). split; [unfold bump_arena; lia|]. apply (bh_mapped _ _ H). lia.
  - intros B m b n c k H Hb Hc Hne. by apply (bh_disjoint _ _ H b n Hb c k Hc).
  - intros B m p l H Hl.
    assert (Hk : forall a, 2000 <= a < 2004 -> store_bytes p l m !! a = m !! a).
    { intros a Ha. apply lookup_store_out. assert (Ho := bump_outside B m a H Ha).
      destruct (decide (a < p)); [lia|]. destruct (decide (p + zlen l <= a)); [lia|].
      exfalso. apply Ho, Hl. lia. }
    assert (Hn : bytes (store_bytes p l m) 2000 (le_bytes (bump_next m))).
    { eapply bytes_frame; [apply H|]. intros a Ha. apply Hk. cbn in Ha. lia. }
    assert (Hnext : bump_next (store_bytes p l m) = bump_next m).
    { apply bump_next_eq; [done|]. pose proof (bh_range _ _ H). lia. }
    destruct H. split; rewrite ?Hnext; try done. by apply mapped_store.
  - intros n B size w Q _ Hm H Hs H0 Hq. eapply wp_bump_malloc; [done|exact H|lia|by intros; apply H0|].
    intros w' ? ? ? ? ? _. by apply Hq.
  - intros n B q size w Q _ Hm H Hq HQ. apply wp_ret, HQ; [done|done|done|].
    destruct H. split; [done|done|done|by apply map_Forall_delete|].
    apply map_Forall_delete. eapply map_Forall_impl; [done|]. intros b n'.
    intros Hx. by apply map_Forall_delete.
Defined.

(** A block of [k * size] bytes, cleared. *)
Definition bump_calloc (k size : Z) : C Z :=
  p ← bump_malloc (k * size);
  if p =? 0 then mret 0
  else m ← get_mem; put_mem (store_bytes p (replicate (Z.to_nat (k * size)) 0) m) ;; mret p.

#[export] Instance bump_zeroing : zeroing bump_allocator bump_calloc.
Proof.
  refine {| room m := 2400 - bump_next m; cost s := Z.max 0 s |}.
  - lia.
  - lia.
  - intros B m p l H Hl. cbn in H. cbn [arena bump_allocator] in Hl. f_equal.
    apply bump_next_eq; [|pose proof (bh_range _ _ H); lia].
    eapply bytes_frame; [apply H|]. intros a Ha. apply lookup_store_out.
    assert (Ho := bump_outside B m a H ltac:(cbn in Ha; lia)).
    destruct (decide (a < p)); [lia|]. destruct (decide (p + zlen l <= a)); [lia|]. exfalso. apply Ho, Hl. lia.
  - intros n B k size w Q Hn Hm H Hs H0 HQ. unfold bump_calloc.
    set (sz := k * size) in *. wp_step. eapply wp_bump_malloc; [done|exact H|lia|..].
    { intros Hfull. change (0 =? 0) with true. wp_steps. apply H0; [done|done|done|done|lia]. }
    intros w1 Hm1 _ Hk1 Hnone H1 Hnext. set (q := bump_next (w_mem w)) in *.
    assert (Hr : 2004 <= q) by apply (bh_range _ _ H). rewrite (proj2 (Z.eqb_neq q 0)) by lia. wp_steps.
    set (zs := replicate (Z.to_nat sz) 0). assert (Hz : zlen zs = sz) by (unfold zs; rewrite length_replicate; lia).
    assert (Hcr : client_range bump_arena (<[q:=sz]> B) q (zlen zs)).
    { intros a Ha. right. exists q, sz. rewrite lookup_insert_eq. split; [done|lia]. }
    set (m2 := store_bytes q zs (w_mem w1)).
    assert (Hn2 : bump_next m2 = bump_next (w_mem w1)).
    { apply bump_next_eq; [|pose proof (bh_range _ _ H1); lia].
      eapply bytes_frame; [apply H1|]. intros a Ha. apply lookup_store_out. cbn in Ha. lia. }
    apply HQ; cbn [set_mem w_mem]; fold m2.
    + apply mem_ok_store; [done|rewrite Hz; eapply mapped_sub; [apply H1|pose proof (bh_range _ _ H1); lia..]|].
      apply Forall_replicate. lia.
    + intros a Ha. unfold m2. rewrite lookup_store_out; [by apply Hk1|].
      destruct (decide (q <= a < q + sz)) as [Hin|]; [|rewrite Hz; lia]. exfalso.
      destruct Ha as [Hout|(b & j & Hb & Hab)].
      * apply Hout. change (2000 <= a < 2400). pose proof (bh_range _ _ H1). lia.
      * apply (bh_blocks _ _ H) in Hb. cbn in Hb. fold q in Hb. lia.
    + done.
    + by apply (@heap_write _ _ bump_allocator (<[q:=sz]> B) (w_mem w1) q zs).
    + apply bytes_store_same.
    + rewrite Hn2, Hnext. lia.
Defined.

(** *** Decidability *)

#[global] Instance bump_client_dec B a : Decision (client bump_arena B a).
Proof.
  destruct (decide (2000 <= a < 2400)) as [Ha|Ha]; [|left; left; exact Ha].
  destruct (decide (Exists (fun bn : Z * Z => bn.1 <= a < bn.1 + bn.2) (map_to_list B))) as [H|H].
  - left. right. apply Exists_exists in H as ([b n] & Hin & Hb). exists b, n.
    by apply elem_of_map_to_list in Hin.
  - right. intros [Hn|(b & n & Hb & Hab)]; [by apply Hn|]. apply H, Exists_exists. exists (b, n).
    by rewrite elem_of_map_to_list.
Defined.

#[global] Instance bump_client_range_dec B p n : Decision (client_range bump_arena B p n).
Proof.
  destruct (decide (Forall (client bump_arena B) (range p (Z.to_nat n)))) as [H|H]; [left|right];
    rewrite Forall_forall in H.
  - intros a Ha. apply H, elem_of_range. lia.
  - intros Hc. apply H. intros a Ha%elem_of_range. apply Hc. lia.
Defined.

#[global] Instance bump_heap_dec B m : Decision (bump_heap B m).
Proof.
  destruct (decide (bytes m 2000 (le_bytes (bump_next m)) /\ 2004 <= bump_next m <= 2400 /\
    mapped m 2000 400 /\ map_Forall (fun b n => 2004 <= b /\ 0 < n /\ b + n <= bump_next m) B /\
    map_Forall (fun b n => map_Forall (fun c k => b <> c -> disjoint_ranges b n c k) B) B))
    as [H|H]; [left|right].
  - destruct_and!. by split.
  - intros []. apply H. split_and!; first [done|lia].
Defined.

#[global] Instance holds_dec m c : Decision (holds m c).
Proof. unfold holds. apply _. Defined.
#[global] Instance separate_dec L : Decision (separate L).
Proof.
  induction L as [|c L IH]; [left; exact I|]. cbn [separate]. unfold apart. apply and_dec; [apply _|exact IH].
Defined.

#[global] Instance bump_state_dec B w K L : Decision (state (A := bump_allocator) B w K L).
Proof.
  destruct (decide (mem_ok (w_mem w) /\ bump_heap B (w_mem w) /\
    (Forall (holds (w_mem w)) L /\ separate L) /\
    Forall (fun c => client_range bump_arena B c.1 4) L /\
    Forall (fun d => 0 < zlen d.2 /\ bytes (w_mem w) d.1 d.2 /\ client_range bump_arena B d.1 (zlen d.2) /\
      Forall (fun c => disjoint_ranges d.1 (zlen d.2) c.1 4) L) K)) as [H|H]; [left|right].
  - destruct H as (H1 & H2 & H3 & H4 & H5). by split.
  - intros [? ? [? ?] ? ?]. apply H. by split_and!.
Defined.
