(* ===== verification/MprecTheorems.v ===== *)
(** * Theorems of stdlib/mprec.c

    The arithmetic of the big integers of the floating point conversions: each
    operation, from a state where it owns its operands and there is room for its
    result, returns a number with the value it promises.  The witnesses use an
    allocator that takes successive blocks of a fixed arena. *)

From S2P Require Import Prelude CMonad Words Memory StrScan MemCopy Heap Blocks Concrete Bump Mprec MprecSpec MprecMult MprecDiff MprecQuot MprecBits.

Section theorems.
Context {malloc free} {A : allocator malloc free} {calloc} {Z_ : zeroing A calloc}.
Context {BC : build} {_freelist : Z}.
Implicit Types (w : world) (K : list (Z * list Z)) (Os : list block) (c : Z) (xs ys zs : list Z).
#[local] Abbreviation mp := (mp (_freelist := _freelist)).

(** C15: C: Balloc returns a block of the class asked for, apart from every block its
    caller owns, or NULL when the allocator has no room.  The block that Bfree took
    back last is the next one of its class, and the allocator is not asked for it: the
    statement holds for every calloc, also one that fails. *)
Theorem Balloc_correct b w K Os c k n :
  mp b w K Os c -> (alloc_fuel <= n)%nat -> 0 <= k <= _Kmax ->
  (exists p w', Balloc calloc _freelist k n w = Done p w' /\
    (p = 0 /\ c < bcost b k /\ (exists b', mp b' w' K Os (c - bcost b k)) \/
     p <> 0 /\ exists o, bigint k 0 [] o /\ mp true w' K ((p, o) :: Os) (c - bcost b k))) /\
  (forall calloc' q o s xs Os', b = true -> Os = (q, o) :: Os' -> bigint k s xs o ->
    exists w' o', (Bfree _freelist q ;; Balloc calloc' _freelist k) n w = Done q w' /\
      bigint k 0 [] o' /\ mp true w' K ((q, o') :: Os') c).
Proof.
  intros H Hn Hk. split.
  - apply wp_exists. eapply wp_Balloc; [done..| |].
    + intros b' w' H' Hlow. left. eauto.
    + intros p nx x w' Hp Hx H'. right. split; [done|]. exists (bobj nx k 0 [] x). split; [|exact H'].
      split; [done|]. exists nx, x. split; [done|]. cbn. lia.
  - intros calloc' q o s xs Os' -> -> Ho.
    assert (Hwp : wp n (Bfree _freelist q ;; Balloc calloc' _freelist k) w (fun p w' => p = q /\
      exists o', bigint k 0 [] o' /\ mp true w' K ((q, o') :: Os') c)).
    { wp_step. eapply wp_Bfree_listed; [exact H|exact Ho|]. intros w1 fl hs cs o1 ch H1 Hc.
      eapply wp_Balloc_listed; [exact H1|done|exact Hc|]. intros nx x w2 Hx H2. split; [done|].
      exists (bobj nx k 0 [] x). split; [|exact H2]. split; [done|]. exists nx, x. split; [done|]. cbn. lia. }
    apply wp_exists in Hwp as (p & w' & Hrun & -> & o' & Ho' & H'). eauto.
Qed.

(** C10: C: mult returns the product of two numbers: the values multiply exactly,
    whatever their order and lengths, and the result has no leading zero word. *)
Theorem mult_correct w K Os c p q ka sa xs oa kb sb ys ob n :
  mp true w K Os c -> (p, oa) ∈ Os -> (q, ob) ∈ Os -> bigint ka sa xs oa -> bigint kb sb ys ob ->
  xs <> [] -> product_class ka xs kb ys <= _Kmax -> kcost (product_class ka xs kb ys) <= c ->
  (alloc_fuel <= n)%nat -> (length xs + length ys < n)%nat ->
  exists r w', mult calloc _freelist p q n w = Done r w' /\ exists zs o,
    mp true w' K ((r, o) :: Os) (c - kcost (product_class ka xs kb ys)) /\
    bigint (product_class ka xs kb ys) 0 zs o /\ val zs = val xs * val ys /\ normal zs.
Proof. intros. apply wp_exists. eapply (wp_mult _ _ _ _ p q); eauto 10. Qed.

(** C: multadd replaces a number by the number times [m] plus [a], in its own
    block when the result fits there, and in a new one of the next class when a
    carry leaves the block. *)
Theorem multadd_correct w K Os c p k s xs o m a n :
  mp true w K ((p, o) :: Os) c -> bigint k s xs o -> xs <> [] -> 0 <= m < 65536 -> 0 <= a < 65536 ->
  (alloc_fuel <= n)%nat -> (4 * length xs + 8 < n)%nat ->
  (2 ^ k = zlen xs -> word ^ zlen xs <= val xs * m + a -> k < _Kmax /\ kcost (k + 1) <= c) ->
  exists p' w', multadd calloc _freelist p m a n w = Done p' w' /\ exists k' xs' o' c',
    mp true w' K ((p', o') :: Os) c' /\ bigint k' s xs' o' /\ val xs' = val xs * m + a /\
    (k' = k /\ c' = c \/ word ^ (2 ^ k) <= val xs * m + a /\ k' = k + 1 /\ c' = c - kcost k').
Proof.
  intros. apply wp_exists. eapply (wp_multadd _ _ _ _ p); [done..|].
  intros p' k' xs' o' c' w' H' Hb _ Hv _ [[-> ->]|(E & Hbig & -> & ->)]; rewrite ?E; eauto 12.
Qed.

(** C: s2b reads a decimal number: the digits of the text, with one character for
    the point after the first [nd0], whose first nine digits are already in
    [y9], become the number they denote. *)
Theorem s2b_correct b w K Os c s txt ds nd0 nd y9 n :
  mp b w K Os c -> (s, txt) ∈ K -> digits_text txt ds nd0 -> nd = zlen ds -> 0 < nd -> nd0 <= nd ->
  nd <= 294912 -> y9 = decimal (take 9 ds) ->
  let k := Z.log2_up ((nd + 8) / 9) in
  (alloc_fuel <= n)%nat -> 4 * 2 ^ k + 8 < Z.of_nat n -> nd < Z.of_nat n -> bcost b k <= c ->
  exists p w', s2b calloc _freelist s nd0 nd y9 n w = Done p w' /\ exists xs o,
    mp true w' K ((p, o) :: Os) (c - bcost b k) /\ bigint k 0 xs o /\ val xs = decimal ds.
Proof. intros. apply wp_exists. eapply (wp_s2b _ _ _ _ _ s txt ds); eauto 10. Qed.

(** C12: C: pow5mult multiplies by a power of five, by repeated squaring through the
    list of powers 5^4, 5^8, .. of the reentrancy structure, which it extends and
    leaves right for the next call. *)
Theorem pow5mult_correct M W w K Os c _p5s p xs o h L k n :
  M <= _Kmax -> 2 * (W + 1) <= 2 ^ M -> 0 <= W -> (alloc_fuel <= n)%nat -> 4 * (W + 1) + 8 < Z.of_nat n ->
  mp true w K ((p, o) :: (_p5s, [h]) :: L ++ Os) c -> factor M xs o -> fives 4 h L -> 0 <= k -> Z.log2 k < Z.of_nat n ->
  val xs * 5 ^ k < word ^ W -> (2 * Z.log2 k + 4) * kcost M <= c -> 1 <= M ->
  exists p' w', pow5mult calloc _freelist _p5s p k n w = Done p' w' /\ exists xs' o' h' L' c',
    mp true w' K ((p', o') :: (_p5s, [h']) :: L' ++ Os) c' /\ factor M xs' o' /\
    val xs' = val xs * 5 ^ k /\ fives 4 h' L' /\ c - (2 * Z.log2 k + 4) * kcost M <= c'.
Proof. intros. apply wp_exists. eapply (wp_pow5mult _p5s M W _ _ _ _ p); eauto 12. Qed.

(** C: lshift returns the number shifted left by [k] bits, and frees its operand. *)
Theorem lshift_correct w K Os c p kb s xs o k n :
  mp true w K ((p, o) :: Os) c -> bigint kb s xs o -> xs <> [] -> 0 <= k ->
  shift_class kb xs k <= _Kmax -> kcost (shift_class kb xs k) <= c -> (alloc_fuel <= n)%nat ->
  2 ^ shift_class kb xs k < Z.of_nat n -> (15 < n)%nat ->
  exists r w', lshift calloc _freelist p k n w = Done r w' /\ exists zs o',
    mp true w' K ((r, o') :: Os) (c - kcost (shift_class kb xs k)) /\
    bigint (shift_class kb xs k) 0 zs o' /\ val zs = val xs * 2 ^ k /\ (normal xs -> normal zs).
Proof. intros. apply wp_exists. eapply (wp_lshift _ _ _ _ p); eauto 10. Qed.

(** C: cmp orders numbers without leading zero words by their values. *)
Theorem cmp_correct b w K Os c p q ka sa xs oa kb sb ys ob n :
  mp b w K Os c -> (p, oa) ∈ Os -> (q, ob) ∈ Os -> bigint ka sa xs oa -> bigint kb sb ys ob ->
  normal xs -> normal ys -> xs <> [] \/ ys <> [] -> (length ys < n)%nat ->
  exists r, cmp p q n w = Done r w /\ Z.sgn r = Z.sgn (val xs - val ys).
Proof.
  intros. enough (exists r w', cmp p q n w = Done r w' /\ w' = w /\ Z.sgn r = Z.sgn (val xs - val ys))
    as (r & w' & E & -> & Hr) by eauto.
  apply wp_exists. eapply (wp_cmp_normal _ _ _ _ _ p q); eauto.
Qed.

(** C14: C: diff returns the absolute difference of two numbers, with the sign 1 when
    the first is the smaller one. *)
Theorem diff_correct w K Os c p q ka sa xs oa kb sb ys ob n :
  mp true w K Os c -> (p, oa) ∈ Os -> (q, ob) ∈ Os -> bigint ka sa xs oa -> bigint kb sb ys ob ->
  normal xs -> normal ys -> xs <> [] -> ys <> [] -> kcost (Z.max ka kb) <= c ->
  (alloc_fuel <= n)%nat -> (length xs < n)%nat -> (length ys < n)%nat ->
  exists r w', diff calloc _freelist p q n w = Done r w' /\ exists k zs o,
    mp true w' K ((r, o) :: Os) (c - kcost (Z.max ka kb)) /\
    bigint k (if val xs <? val ys then 1 else 0) zs o /\ val zs = Z.abs (val xs - val ys).
Proof. intros. apply wp_exists. eapply (wp_diff _ _ _ _ p q); eauto 10. Qed.

(** C11: C: quorem divides when the quotient is one digit, less than 10: it returns the
    quotient and leaves the remainder in place of the dividend.  The numbers have no
    leading zero words, the dividend is not longer than the divisor, and the first
    word of the divisor is at least 10 and less than 2^32 - 1 (dtoa shifts it to have
    four leading zero bits): otherwise the estimate by the first words can be wrong by
    more than the one subtraction that corrects it. *)
Theorem quorem_correct b w K Os c p q k s xs o ks t ss os n :
  mp b w K ((p, o) :: Os) c -> (q, os) ∈ Os -> bigint k s xs o -> bigint ks t ss os ->
  normal xs -> normal ss -> ss <> [] -> zlen xs <= zlen ss -> (forall d, last ss = Some d -> 10 <= d < 4294967295) ->
  val xs < 10 * val ss -> (length ss < n)%nat ->
  exists w', quorem p q n w = Done (val xs / val ss) w' /\ exists zs o',
    mp b w' K ((p, o') :: Os) c /\ bigint k s zs o' /\ val zs = val xs mod val ss.
Proof.
  intros. enough (exists d w', quorem p q n w = Done d w' /\ d = val xs / val ss /\ exists zs o',
    mp b w' K ((p, o') :: Os) c /\ bigint k s zs o' /\ val zs = val xs mod val ss)
    as (d & w' & E & -> & Hr) by eauto.
  apply wp_exists. eapply (wp_quorem _ _ _ _ _ p q); eauto 10.
Qed.

(** C: d2b takes a double apart: the number it returns, times two to the power it
    reports, is the double, for normal and subnormal ones; the number is odd, and
    the number of its bits is reported too. *)
Theorem d2b_correct b w K Os c d0 d1 n :
  mp b w K Os c -> (alloc_fuel <= n)%nat -> bcost b 1 <= c -> is_word d0 -> is_word d1 -> mantissa d0 d1 <> 0 ->
  exists r w', d2b calloc _freelist d0 d1 n w = Done r w' /\ exists p zs o k bits,
    r = (p, exponent d0 + k, bits) /\ mp true w' K ((p, o) :: Os) (c - bcost b 1) /\ bigint 1 0 zs o /\
    val zs * 2 ^ k = mantissa d0 d1 /\ val zs mod 2 = 1 /\ 2 ^ (bits - 1) <= val zs < 2 ^ bits.
Proof.
  intros. apply wp_exists. eapply wp_d2b; [done..|]. intros p zs o k bits w' H' Hb [Hv Hodd _ _] Hbits. eauto 12.
Qed.

(** C: b2d reads the first 53 bits of a number as a double in [1, 2), and the
    position of the first one. *)
Theorem b2d_correct b w K Os c p k s xs o n :
  mp b w K Os c -> (p, o) ∈ Os -> bigint k s xs o -> xs <> [] -> normal xs ->
  exists d0 d1 e, b2d p n w = Done (d0, d1, e) w /\ exists M, double_words d0 d1 M /\
    2 ^ (32 * (zlen xs - 1) + e - 1) <= val xs < 2 ^ (32 * (zlen xs - 1) + e) /\
    M * 2 ^ (32 * (zlen xs - 1) + e) <= val xs * 2 ^ 53 < (M + 1) * 2 ^ (32 * (zlen xs - 1) + e).
Proof.
  intros. enough (exists r w', b2d p n w = Done r w' /\ w' = w /\ exists d0 d1 e M, r = (d0, d1, e) /\ double_words d0 d1 M /\
    2 ^ (32 * (zlen xs - 1) + e - 1) <= val xs < 2 ^ (32 * (zlen xs - 1) + e) /\
    M * 2 ^ (32 * (zlen xs - 1) + e) <= val xs * 2 ^ 53 < (M + 1) * 2 ^ (32 * (zlen xs - 1) + e))
    as (r & w' & E & -> & d0 & d1 & e & M & -> & Hr) by (exists d0, d1, e; eauto).
  apply wp_exists. eapply (wp_b2d _ _ _ _ _ p); [done..|]. intros. eauto 12.
Qed.

(** C13: C: b2d after d2b gives back the mantissa of a normal double: the double scaled
    to [1, 2). *)
Theorem d2b_b2d b w K Os c d0 d1 n :
  mp b w K Os c -> (alloc_fuel <= n)%nat -> bcost b 1 <= c -> is_word d0 -> is_word d1 ->
  d0 / 2 ^ 20 mod 2 ^ 11 <> 0 ->
  exists p e bits w' e', d2b calloc _freelist d0 d1 n w = Done (p, e, bits) w' /\
    b2d p n w' = Done (Exp_1 + d0 mod 2 ^ 20, d1, e') w'.
Proof.
  intros H Hf Hc H0 H1 Hde.
  destruct (normal_mantissa d0 d1 H0 H1 Hde) as [Hm Em].
  assert (Hd : exists r w', d2b calloc _freelist d0 d1 n w = Done r w' /\ exists p zs o k bits, r = (p, exponent d0 + k, bits) /\
    mp true w' K ((p, o) :: Os) (c - bcost b 1) /\ bigint 1 0 zs o /\ scaled zs k (mantissa d0 d1)).
  { apply wp_exists. eapply wp_d2b; [done..|lia|]. eauto 12. }
  destruct Hd as (r & w' & E & p & zs & o & k & bits & -> & H' & Hb & [Hv Hodd Hno Hk]).
  assert (Hb2 : exists r w2, b2d p n w' = Done r w2 /\ w2 = w' /\ exists e, r = (Exp_1 + d0 mod 2 ^ 20, d1, e)).
  { apply wp_exists. eapply (wp_b2d _ _ _ _ _ p); [exact H'|left|exact Hb|by intros ->|done|].
    intros d0' d1' e M He Hw Hval HM. split; [done|]. exists e.
    assert (Hne : 1 <= zlen zs) by (destruct zs; [done|cbn [length]; lia]).
    assert (HMm : M = mantissa d0 d1) by (eapply (top_bits (val zs) k); [exact Hk| |exact Hv|done..]; lia).
    destruct Hw as (Hd0 & Hd1 & Hw). rewrite HMm, Em in Hw. unfold Exp_1. f_equal. f_equal; lia. }
  destruct Hb2 as (r2 & w2 & E2 & -> & e' & ->). eauto 8.
Qed.

(** C: ulp of a double is the weight of the last bit of its mantissa, a power of two,
    a subnormal double when it has to be. *)
Theorem ulp_correct d0 u0 u1 : is_word d0 -> ulp d0 = (u0, u1) ->
  is_word u0 /\ is_word u1 /\ exponent u0 <= exponent d0 /\ mantissa u0 u1 = 2 ^ (exponent d0 - exponent u0).
Proof. intros Hd E. pose proof (ulp_value d0 Hd) as H. by rewrite E in H. Qed.

(** C: any_on tells whether one of the low [k] bits of a number is set. *)
Theorem any_on_correct b w K Os c p kb s xs o k n :
  mp b w K Os c -> (p, o) ∈ Os -> bigint kb s xs o -> 0 <= k -> (length xs < n)%nat ->
  any_on p k n w = Done (if val xs mod 2 ^ k =? 0 then 0 else 1) w.
Proof. intros. apply wp_run. intros Q HQ. by eapply (wp_any_on _ _ _ _ _ p). Qed.

(** C: copybits writes a number to an array of words, zeros above it. *)
Theorem copybits_correct b w K Os c cp old p kb s xs o nbits n :
  mp b w K ((cp, old) :: Os) c -> (p, o) ∈ Os -> bigint kb s xs o -> zlen old = Z.shiftr (nbits - 1) 5 + 1 ->
  zlen xs <= zlen old -> (length old < n)%nat ->
  exists w', copybits cp nbits p n w = Done tt w' /\
    mp b w' K ((cp, xs ++ replicate (length old - length xs) 0) :: Os) c.
Proof.
  intros. enough (exists r w', copybits cp nbits p n w = Done r w' /\
    mp b w' K ((cp, xs ++ replicate (length old - length xs) 0) :: Os) c) as ([] & w' & E) by eauto.
  apply wp_exists. eapply (wp_copybits _ _ _ _ _ cp old p); eauto.
Qed.
End theorems.

(** ** Witnesses *)

#[local] Existing Instance speed.

(** The free lists are empty: their table is at 3004, its address at 3000. *)
Definition start (Os : list block) : list block := Os ++ [(3000, [3004]); (3004, replicate 16 0)].
Definition start_world (Os : list block) (K : list (Z * list Z)) : world :=
  world_of (foldr (fun d m => store_bytes d.1 d.2 m)
    (foldr (fun o m => store_bytes o.1 (le_words o.2) m) (store_bytes 2000 (le_bytes 2004) (blank 2000 400)) (start Os)) K).

Lemma mp_start Os K c : state (A := bump_allocator) ∅ (start_world Os K) K (flat (start Os)) ->
  c <= 2400 - bump_next (w_mem (start_world Os K)) ->
  mp (Z_ := bump_zeroing) (_freelist := 3000) true (start_world Os K) K Os c.
Proof.
  intros H Hc. exists [(3000, [3004]); (3004, replicate 16 0)]. split.
  - exists 3004, (replicate 16 0), (replicate 16 []). split_and!; [done..| |done].
    intros k h l [-> _]%lookup_replicate_1 [-> _]%lookup_replicate_1. done.
  - exists ∅. split; [exact H|exact Hc].
Defined.

Lemma bobj_bigint nx k s xs ys : 0 <= k <= _Kmax -> zlen xs + zlen ys = 2 ^ k -> bigint k s xs (bobj nx k s xs ys).
Proof. intros Hk Hl. split; [done|by exists nx, ys]. Defined.

Definition num_a : block := (3100, bobj 0 1 0 [17; 250] []).
Definition num_b : block := (3200, bobj 0 1 0 [4294967295; 100] []).
Definition num_c : block := (3300, bobj 0 0 0 [3] []).

#[local] Ltac start := apply mp_start; [decided|vm_compute; discriminate].
#[local] Ltac num := apply bobj_bigint; [vm_compute; split; discriminate|reflexivity].
#[local] Ltac small := first [discriminate | lia | vm_compute; lia | vm_compute; discriminate | vm_compute; split; discriminate].
#[local] Ltac top_word := intros d [= <-]; (discriminate || split; lia).

Lemma Balloc_correct_witness :
  (exists p w', Balloc bump_calloc 3000 1 100%nat (start_world [num_a] []) = Done p w' /\
    (p = 0 /\ 300 < bcost (Z_ := bump_zeroing) true 1 /\
      (exists b', mp (Z_ := bump_zeroing) (_freelist := 3000) b' w' [] [num_a] (300 - bcost (Z_ := bump_zeroing) true 1)) \/
     p <> 0 /\ exists o, bigint 1 0 [] o /\
      mp (Z_ := bump_zeroing) (_freelist := 3000) true w' [] [(p, o); num_a] (300 - bcost (Z_ := bump_zeroing) true 1))) /\
  (forall calloc' q o s xs Os', true = true -> [num_a] = (q, o) :: Os' -> bigint 1 s xs o ->
    exists w' o', (Bfree 3000 q ;; Balloc calloc' 3000 1) 100%nat (start_world [num_a] []) = Done q w' /\
      bigint 1 0 [] o' /\ mp (Z_ := bump_zeroing) (_freelist := 3000) true w' [] ((q, o') :: Os') 300).
Proof.
  apply (Balloc_correct (A := bump_allocator) true (start_world [num_a] []) [] [num_a] 300 1 100);
    [start|apply Nat.le_0_l|small].
Defined.

Lemma mult_correct_witness :
  exists r w', mult bump_calloc 3000 3100 3200 100%nat (start_world [num_a; num_b] []) = Done r w' /\ exists zs o,
    mp (Z_ := bump_zeroing) (_freelist := 3000) true w' [] [(r, o); num_a; num_b] (300 - kcost (Z_ := bump_zeroing) 2) /\
    bigint 2 0 zs o /\ val zs = val [17; 250] * val [4294967295; 100] /\ normal zs.
Proof.
  apply (mult_correct (A := bump_allocator) (start_world [num_a; num_b] []) [] [num_a; num_b] 300 3100 3200
    1 0 [17; 250] (snd num_a) 1 0 [4294967295; 100] (snd num_b) 100);
    [start|left|right; left|num|num|small..|apply Nat.le_0_l|cbn; lia].
Defined.

Lemma multadd_correct_witness :
  exists p' w', multadd bump_calloc 3000 3100 10 7 100%nat (start_world [num_a] []) = Done p' w' /\ exists k' xs' o' c',
    mp (Z_ := bump_zeroing) (_freelist := 3000) true w' [] [(p', o')] c' /\ bigint k' 0 xs' o' /\
    val xs' = val [17; 250] * 10 + 7 /\
    (k' = 1 /\ c' = 300 \/ word ^ (2 ^ 1) <= val [17; 250] * 10 + 7 /\ k' = 1 + 1 /\
      c' = 300 - kcost (Z_ := bump_zeroing) k').
Proof.
  apply (multadd_correct (A := bump_allocator) (start_world [num_a] []) [] [] 300 3100 1 0 [17; 250] (snd num_a) 10 7 100);
    [start|num|small..|apply Nat.le_0_l|cbn; lia|vm_compute; intros _ []; reflexivity].
Defined.

Lemma cmp_correct_witness :
  exists r, cmp 3100 3200 100%nat (start_world [num_a; num_b] []) = Done r (start_world [num_a; num_b] []) /\
    Z.sgn r = Z.sgn (val [17; 250] - val [4294967295; 100]).
Proof.
  apply (cmp_correct (A := bump_allocator) (Z_ := bump_zeroing) (_freelist := 3000) true (start_world [num_a; num_b] []) [] [num_a; num_b] 300
    3100 3200 1 0 [17; 250] (snd num_a) 1 0 [4294967295; 100] (snd num_b) 100);
    [start|left|right; left|num|num|top_word|top_word|left; discriminate|cbn; lia].
Defined.

Lemma diff_correct_witness :
  exists r w', diff bump_calloc 3000 3100 3200 100%nat (start_world [num_a; num_b] []) = Done r w' /\ exists k zs o,
    mp (Z_ := bump_zeroing) (_freelist := 3000) true w' [] [(r, o); num_a; num_b] (300 - kcost (Z_ := bump_zeroing) 1) /\
    bigint k (if val [17; 250] <? val [4294967295; 100] then 1 else 0) zs o /\
    val zs = Z.abs (val [17; 250] - val [4294967295; 100]).
Proof.
  apply (diff_correct (A := bump_allocator) (start_world [num_a; num_b] []) [] [num_a; num_b] 300
    3100 3200 1 0 [17; 250] (snd num_a) 1 0 [4294967295; 100] (snd num_b) 100);
    [start|left|right; left|num|num|top_word|top_word|discriminate|discriminate|small|apply Nat.le_0_l|cbn; lia..].
Defined.

Lemma lshift_correct_witness :
  exists r w', lshift bump_calloc 3000 3100 40 100%nat (start_world [num_a] []) = Done r w' /\ exists zs o',
    mp (Z_ := bump_zeroing) (_freelist := 3000) true w' [] [(r, o')] (300 - kcost (Z_ := bump_zeroing) 2) /\
    bigint 2 0 zs o' /\ val zs = val [17; 250] * 2 ^ 40 /\ (normal [17; 250] -> normal zs).
Proof.
  apply (lshift_correct (A := bump_allocator) (start_world [num_a] []) [] [] 300 3100 1 0 [17; 250] (snd num_a) 40 100);
    [start|num|small..|apply Nat.le_0_l|small|lia].
Defined.

Lemma quorem_correct_witness :
  exists w', quorem 3100 3200 100%nat (start_world [num_a; num_b] []) = Done (val [17; 250] / val [4294967295; 100]) w' /\
    exists zs o', mp (Z_ := bump_zeroing) (_freelist := 3000) true w' [] [(3100, o'); num_b] 300 /\
      bigint 1 0 zs o' /\ val zs = val [17; 250] mod val [4294967295; 100].
Proof.
  apply (quorem_correct (A := bump_allocator) true (start_world [num_a; num_b] []) [] [num_b] 300
    3100 3200 1 0 [17; 250] (snd num_a) 1 0 [4294967295; 100] (snd num_b) 100);
    [start|left|num|num|top_word|top_word|discriminate|small|intros d [= <-]; lia|small|cbn; lia].
Defined.

Lemma pow5mult_correct_witness :
  exists p' w', pow5mult bump_calloc 3000 3400 3300 5 100%nat (start_world [num_c; (3400, [0])] []) = Done p' w' /\
    exists xs' o' h' L' c', mp (Z_ := bump_zeroing) (_freelist := 3000) true w' [] ([(p', o'); (3400, [h'])] ++ L') c' /\
      factor 2 xs' o' /\ val xs' = val [3] * 5 ^ 5 /\ fives 4 h' L' /\
      390 - (2 * Z.log2 5 + 4) * kcost (Z_ := bump_zeroing) 2 <= c'.
Proof.
  enough (exists p' w', pow5mult bump_calloc 3000 3400 3300 5 100%nat (start_world [num_c; (3400, [0])] []) = Done p' w' /\
    exists xs' o' h' L' c', mp (Z_ := bump_zeroing) (_freelist := 3000) true w' [] ((p', o') :: (3400, [h']) :: L' ++ []) c' /\
      factor 2 xs' o' /\ val xs' = val [3] * 5 ^ 5 /\ fives 4 h' L' /\
      390 - (2 * Z.log2 5 + 4) * kcost (Z_ := bump_zeroing) 2 <= c') as (p' & w' & E & xs' & o' & h' & L' & c' & H).
  { exists p', w'. split; [exact E|]. exists xs', o', h', L', c'. by rewrite app_nil_r in H. }
  apply (pow5mult_correct (A := bump_allocator) (Z_ := bump_zeroing) 2 1 (start_world [num_c; (3400, [0])] []) [] [] 390 3400 3300
    [3] (snd num_c) 0 [] 5 100);
    [small|small|lia|apply Nat.le_0_l|lia|start| |reflexivity|lia|small..].
  split; [exists 0; split; [num|lia]|top_word|reflexivity].
Defined.

Definition s2b_text : list Z := [49; 50; 51; 52; 53; 54; 55; 56; 57; 48; 46; 49].
Definition s2b_digits : list Z := [1; 2; 3; 4; 5; 6; 7; 8; 9; 0; 1].

Lemma s2b_correct_witness :
  exists p w', s2b bump_calloc 3000 3500 10 11 123456789 100%nat (start_world [] [(3500, s2b_text)]) = Done p w' /\
    exists xs o, mp (Z_ := bump_zeroing) (_freelist := 3000) true w' [(3500, s2b_text)] [(p, o)]
      (300 - bcost (Z_ := bump_zeroing) true 1) /\ bigint 1 0 xs o /\ val xs = decimal s2b_digits.
Proof.
  apply (s2b_correct (A := bump_allocator) true (start_world [] [(3500, s2b_text)]) [(3500, s2b_text)] [] 300 3500 s2b_text
    s2b_digits 10 11 123456789 100); [start|left| |reflexivity|lia|lia|lia|reflexivity|apply Nat.le_0_l|vm_compute; reflexivity|lia|small].
  split; [decided|]. intros i d Hi. do 11 (destruct i as [|i]; [injection Hi as <-; reflexivity|]). discriminate.
Defined.

(** The double 3.14. *)
Lemma d2b_correct_witness :
  exists r w', d2b bump_calloc 3000 0x40091eb8 0x51eb851f 100%nat (start_world [num_a] []) = Done r w' /\ exists p zs o k bits,
    r = (p, exponent 0x40091eb8 + k, bits) /\
    mp (Z_ := bump_zeroing) (_freelist := 3000) true w' [] [(p, o); num_a] (300 - bcost (Z_ := bump_zeroing) true 1) /\
    bigint 1 0 zs o /\ val zs * 2 ^ k = mantissa 0x40091eb8 0x51eb851f /\ val zs mod 2 = 1 /\
    2 ^ (bits - 1) <= val zs < 2 ^ bits.
Proof.
  apply (d2b_correct (A := bump_allocator) true (start_world [num_a] []) [] [num_a] 300 0x40091eb8 0x51eb851f 100);
    [start|apply Nat.le_0_l|small|lia|lia|small].
Defined.

Lemma b2d_correct_witness :
  exists d0 d1 e, b2d 3100 100%nat (start_world [num_a] []) = Done (d0, d1, e) (start_world [num_a] []) /\
    exists M, double_words d0 d1 M /\
    2 ^ (32 * (2 - 1) + e - 1) <= val [17; 250] < 2 ^ (32 * (2 - 1) + e) /\
    M * 2 ^ (32 * (2 - 1) + e) <= val [17; 250] * 2 ^ 53 < (M + 1) * 2 ^ (32 * (2 - 1) + e).
Proof.
  apply (b2d_correct (A := bump_allocator) (Z_ := bump_zeroing) (_freelist := 3000) true (start_world [num_a] []) [] [num_a] 300
    3100 1 0 [17; 250] (snd num_a) 100); [start|left|num|discriminate|top_word].
Defined.

Lemma d2b_b2d_witness :
  exists p e bits w' e', d2b bump_calloc 3000 0x40091eb8 0x51eb851f 100%nat (start_world [num_a] []) = Done (p, e, bits) w' /\
    b2d p 100%nat w' = Done (Exp_1 + 0x40091eb8 mod 2 ^ 20, 0x51eb851f, e') w'.
Proof.
  apply (d2b_b2d (A := bump_allocator) true (start_world [num_a] []) [] [num_a] 300 0x40091eb8 0x51eb851f 100);
    [start|apply Nat.le_0_l|small|lia|lia|small].
Defined.

Lemma any_on_correct_witness :
  any_on 3100 37 100%nat (start_world [num_a] []) =
    Done (if val [17; 250] mod 2 ^ 37 =? 0 then 0 else 1) (start_world [num_a] []).
Proof.
  apply (any_on_correct (A := bump_allocator) (Z_ := bump_zeroing) (_freelist := 3000) true (start_world [num_a] []) [] [num_a] 300
    3100 1 0 [17; 250] (snd num_a) 37 100); [start|left|num|lia|cbn; lia].
Defined.

Lemma copybits_correct_witness :
  exists w', copybits 3400 70 3100 100%nat (start_world [(3400, [1; 2; 3]); num_a] []) = Done tt w' /\
    mp (Z_ := bump_zeroing) (_freelist := 3000) true w' [] [(3400, [17; 250; 0]); num_a] 300.
Proof.
  apply (copybits_correct (A := bump_allocator) (Z_ := bump_zeroing) (_freelist := 3000) true
    (start_world [(3400, [1; 2; 3]); num_a] []) [] [num_a] 300 3400 [1; 2; 3] 3100 1 0 [17; 250] (snd num_a) 70 100);
    [start|left|num|reflexivity|small|cbn; lia].
Defined.

Lemma ulp_correct_witness : is_word 0x36900000 /\ is_word 0 /\ exponent 0x36900000 <= exponent 0x39d00000 /\
  mantissa 0x36900000 0 = 2 ^ (exponent 0x39d00000 - exponent 0x36900000).
Proof. apply (ulp_correct 0x39d00000 0x36900000 0); [lia|reflexivity]. Defined.
