(* ===== verification/SearchTheorems.v ===== *)
(** * Theorems of search/

    [qsort] and [bsearch] for every comparison callback that is a total
    preorder on the elements, with the comparison of 32-bit integers as a
    concrete callback. *)

From Stdlib Require Import Permutation Sorted.
From S2P Require Import Prelude CMonad Words Memory StrScan MemCopy Compare Qsort QsortSpec Concrete.

Section theorems.
Context {E : nat} {cmp : Z -> Z -> C Z} {Hcmp : comparator cmp E}.

(** C2: qsort leaves in the array a permutation of its elements that is sorted by
    the callback, writes nothing else and terminates. *)
Theorem qsort_correct n a L w :
  (0 < E)%nat -> array E w a L -> (cmp_fuel <= n)%nat -> (E < n)%nat -> (length L < n)%nat ->
  (E * length L < n)%nat ->
  exists L', StronglySorted le L' /\ Permutation L' L /\
    qsort cmp a (zlen L) (Z.of_nat E) n w = Done tt (written a (concat L') w).
Proof.
  intros HE Ha Hf HEn HL Hn.
  assert (H : wp n (qsort cmp a (zlen L) (Z.of_nat E)) w (fun _ w' => exists L',
    StronglySorted le L' /\ Permutation L' L /\ w' = written a (concat L') w)).
  { apply (wp_qsort E HE cmp); eauto. }
  apply wp_exists in H as ([] & w' & Hrun & L' & HS & HP & ->). eauto.
Qed.

(** bsearch in a sorted array returns the address of an element that compares
    equal to the key exactly when there is one, and null otherwise; the memory
    is unchanged. *)
Theorem bsearch_correct n p key a L w :
  (0 < E)%nat -> array E w a L -> StronglySorted le L -> bytes (w_mem w) p key ->
  length key = E -> (cmp_fuel <= n)%nat -> (length L < n)%nat ->
  exists r, search_result E cmp key a L r /\
    bsearch cmp p a (zlen L) (Z.of_nat E) n w = Done r w.
Proof.
  intros HE Ha HS Hp Hk Hf Hn.
  assert (H : wp n (bsearch cmp p a (zlen L) (Z.of_nat E)) w (fun r w' =>
    search_result E cmp key a L r /\ w' = w)).
  { by apply (wp_bsearch E HE cmp n p key). }
  apply wp_exists in H as (r & w' & Hrun & Hr & ->). eauto.
Qed.
End theorems.

(** ** The comparison of 32-bit integers *)

Definition int_compare (p q : Z) : C Z :=
  x ← load32 p; y ← load32 q;
  mret (if i32 x <? i32 y then -1 else if i32 y <? i32 x then 1 else 0).

Definition int_val (x : list Z) : Z := i32 (le32 (nth 0 x 0) (nth 1 x 0) (nth 2 x 0) (nth 3 x 0)).

#[export] Instance int_comparator : comparator int_compare 4.
Proof.
  refine {| ord x y := int_val x - int_val y; cmp_fuel := 0 |}; [|lia|lia].
  intros n p q x y w Q _ Hm Hx Hy Hlx Hly HQ.
  pose proof (mem_ok_bytes _ _ _ Hm Hx) as Hbx. pose proof (mem_ok_bytes _ _ _ Hm Hy) as Hby.
  destruct x as [|x0 [|x1 [|x2 [|x3 [|]]]]]; try done.
  destruct y as [|y0 [|y1 [|y2 [|y3 [|]]]]]; try done.
  unfold int_compare. wp_step. eapply wp_load32; [done..|]. wp_step.
  eapply wp_load32; [done..|]. wp_step. apply HQ. unfold int_val. cbn [nth].
  destruct (Z.ltb_spec (i32 (le32 x0 x1 x2 x3)) (i32 (le32 y0 y1 y2 y3)));
    destruct (Z.ltb_spec (i32 (le32 y0 y1 y2 y3)) (i32 (le32 x0 x1 x2 x3))); lia.
Defined.

(** ** Witnesses *)

#[global] Instance array_dec w a L : Decision (array 4 w a L).
Proof.
  destruct (decide (mem_ok (w_mem w) /\ Forall (fun x => length x = 4%nat) L /\
    bytes (w_mem w) a (concat L))) as [(H1 & H2 & H3)|H]; [left; by split|right].
  intros [? ? ?]. by apply H.
Defined.

Definition numbers : list (list Z) := map le_bytes [5; 4294967295; 7; 5; 0; 65536; 3; 2; 9].
Definition numbers_w : world := world_of (store_bytes 1000 (concat numbers) (blank 996 80)).

Lemma qsort_correct_witness :
  exists L', StronglySorted le L' /\ Permutation L' numbers /\
    qsort int_compare 1000 9 4 100%nat numbers_w =
      Done tt (written 1000 (concat L') numbers_w).
Proof.
  apply (qsort_correct (E := 4) 100 1000 numbers numbers_w);
    [lia|decided|apply Nat.le_0_l|lia|vm_compute; lia..].
Defined.

Definition ordered : list (list Z) := map le_bytes [1; 4; 9; 16; 25].
Definition ordered_w : world :=
  world_of (store_bytes 1100 (le_bytes 16) (store_bytes 1000 (concat ordered) (blank 996 120))).

Lemma bsearch_correct_witness :
  exists r, search_result 4 int_compare (le_bytes 16) 1000 ordered r /\
    bsearch int_compare 1100 1000 5 4 100%nat ordered_w = Done r ordered_w.
Proof.
  apply (bsearch_correct (E := 4) 100 1100 (le_bytes 16) 1000 ordered ordered_w);
    [lia|decided| |decided|done|apply Nat.le_0_l|vm_compute; lia].
  repeat constructor; vm_compute; discriminate.
Defined.
