(* ===== verification/TreeTheorems.v ===== *)
(** * Theorems of the search trees

    For every comparison callback and every allocator that satisfy the
    interfaces; the witnesses use the comparison of 32-bit integers and an
    allocator that takes successive blocks of a fixed arena. *)

From Stdlib Require Import Sorted.
From S2P Require Import Prelude CMonad Words Memory MemCopy Compare Heap Tree TreeSpec Concrete Bump SearchTheorems.

Section theorems.
Context {E : nat} {cmp : Z -> Z -> C Z} {Hcmp : comparator cmp E}.
Context {malloc free} {A : allocator malloc free}.
Implicit Types (t : tree) (x : list Z).

(** An entry of the tree has the key, or none has. *)
Definition present x t (a : Z) : Prop := exists k y, (a, (k, y)) ∈ entries t /\ ord x y = 0.
Definition absent x t : Prop := Forall (fun e : entry => ord x e.2.2 <> 0) (entries t).

(** tfind returns the node whose key compares equal, or null when the tree has
    none; it changes nothing and terminates. *)
Theorem tfind_correct B w K vk x rp t F n :
  searching B w K vk x rp t F n -> (length (entries t) < n)%nat ->
  exists r, tfind cmp vk rp n w = Done r w /\ (present x t r \/ r = 0 /\ absent x t).
Proof.
  intros H Hn. assert (Hwp : wp n (tfind cmp vk rp) w (fun r w' =>
    w' = w /\ (present x t r \/ r = 0 /\ absent x t))).
  { eapply wp_tfind; [exact H|done|..]; unfold present; eauto 10. }
  apply wp_exists in Hwp as (r & w' & Hrun & -> & Hr). eauto.
Qed.

(** C17: tsearch returns the node of the key when there is one.  Otherwise it
    returns null, without memory, and the tree is as before; or a new node,
    which is a new block of the allocator: the tree stays ordered, its entries
    are the old ones, in the same nodes, with the new one inserted. *)
Theorem tsearch_correct B w K vk x rp t F n :
  searching B w K vk x rp t F n -> (length (entries t) < n)%nat -> (alloc_fuel <= n)%nat ->
  exists r w', tsearch cmp malloc vk rp n w = Done r w' /\
    (present x t r /\ w' = w \/
     absent x t /\
       (r = 0 /\ tree_at (E := E) B w' K rp t F \/
        B !! r = None /\ exists L1 L2 t', entries t = L1 ++ L2 /\
          entries t' = L1 ++ (r, (vk, x)) :: L2 /\
          tree_at (E := E) (<[r := sizeof_node]> B) w' K rp t' F)).
Proof.
  intros H Hn Hf. apply wp_exists. eapply wp_tsearch; [exact H|done|done|..]; unfold present, absent; eauto 15.
Qed.

(** C16: tdelete frees the node of the key and puts in its place, below the same
    parent, a subtree with the entries of its two subtrees in order: the tree stays
    ordered and its entries are the others, in the same nodes.  The result is the
    parent node of the deleted one, or for the root the address of the freed node;
    null, and nothing changes, when no entry has the key. *)
Theorem tdelete_correct B w K vk x rp t F n :
  searching B w K vk x rp t F n -> (length (entries t) < n)%nat -> (alloc_fuel <= n)%nat ->
  exists p w', tdelete cmp free vk rp n w = Done p w' /\
    ((exists c a k y l r s, t = plug c (Node a k y l r) /\ ord x y = 0 /\
        p = match c with [] => a | InLeft b _ _ _ :: _ | InRight b _ _ _ :: _ => b end /\
        entries s = entries l ++ entries r /\
        tree_at (E := E) (delete a B) w' K rp (plug c s) F) \/
     p = 0 /\ w' = w /\ absent x t).
Proof.
  intros H Hn Hf. apply wp_exists. eapply wp_tdelete; [exact H|done|done|..]; unfold absent; [|eauto].
  intros c a k y l r s w' Ht Hxy Hs Hw'. left. exists c, a, k, y, l, r, s. split_and!; [done|done| |done|done].
  unfold parent. rewrite Ht. by destruct c as [|[]].
Qed.

(** A node that tsearch returns is the one tfind returns afterwards. *)
Theorem tsearch_tfind B w K vk x rp t F n :
  searching B w K vk x rp t F n -> (S (length (entries t)) < n)%nat -> (alloc_fuel <= n)%nat ->
  exists r w', tsearch cmp malloc vk rp n w = Done r w' /\
    (r <> 0 -> tfind cmp vk rp n w' = Done r w').
Proof.
  intros H Hn Hf. apply wp_exists. destruct (sg_tree _ _ _ _ _ _ _ _ _ H) as [_ _ _ Ho _].
  eapply wp_tsearch; [exact H|lia|done|..].
  - intros a k y Ha Hxy _. apply wp_run. intros Q HQ. eapply wp_tfind; [exact H|lia|..].
    + intros a' k' y' Ha' Hxy'. assert (E1 := equal_unique x _ _ _ Ho Ha Ha' Hxy Hxy'). by injection E1 as ->.
    + intros Hn'. rewrite Forall_forall in Hn'. exfalso. by apply (Hn' _ Ha).
  - intros w' _ _ []; done.
  - intros q w' L1 L2 t' Hne _ He He' Ht' _. apply wp_run. intros Q HQ.
    assert (Hq : (q, (vk, x)) ∈ entries t') by (rewrite He'; apply elem_of_app; right; left).
    assert (Hxx : ord x x = 0) by (pose proof (ord_sym x x); lia).
    eapply wp_tfind; [exact (Build_searching _ _ _ vk x _ _ _ _ Ht' (sg_key _ _ _ _ _ _ _ _ _ H)
      (sg_len _ _ _ _ _ _ _ _ _ H) (sg_fuel _ _ _ _ _ _ _ _ _ H))| |..].
    + rewrite He', length_app. rewrite He, length_app in Hn. cbn [length]. lia.
    + intros a' k' y' Ha' Hxy'. assert (E1 := equal_unique x _ _ _ (ta_ordered _ _ _ _ _ _ Ht') Hq Ha' Hxx Hxy').
      by injection E1 as ->.
    + intros Hn'. rewrite Forall_forall in Hn'. exfalso. by apply (Hn' _ Hq).
Qed.

(** After tdelete tfind finds no node for the key. *)
Theorem tdelete_tfind B w K vk x rp t F n :
  searching B w K vk x rp t F n -> (length (entries t) < n)%nat -> (alloc_fuel <= n)%nat ->
  exists p w', tdelete cmp free vk rp n w = Done p w' /\ tfind cmp vk rp n w' = Done 0 w'.
Proof.
  intros H Hn Hf. apply wp_exists. destruct (sg_tree _ _ _ _ _ _ _ _ _ H) as [_ _ _ Ho _].
  eapply wp_tdelete; [exact H|done|done|..].
  - intros c a k y l r s w' Ht Hxy Hs Ht'. apply wp_run. intros Q HQ.
    set (L1 := before c ++ entries l). set (L2 := entries r ++ after c). set (t' := plug c s) in *.
    assert (He : entries t = L1 ++ (a, (k, y)) :: L2).
    { rewrite Ht, plug_entries. unfold L1, L2. cbn [entries]. by rewrite <-!app_assoc. }
    assert (He' : entries t' = L1 ++ L2).
    { unfold t', L1, L2. rewrite plug_entries, Hs. by rewrite <-!app_assoc. }
    assert (Hn' : absent x t').
    { apply Forall_forall. intros e Hin Hxe. rewrite He' in Hin. unfold TreeSpec.ordered in Ho. rewrite He in Ho.
      assert (E1 : (a, (k, y)) = e) by (eapply (equal_unique x); [exact Ho|set_solver|set_solver|done|done]).
      subst e. apply sorted_entries in Ho as (_ & [_ H2]%StronglySorted_inv & H1).
      assert (Hlt : entry_lt (a, (k, y)) (a, (k, y))).
      { rewrite Forall_forall in H1, H2. apply elem_of_app in Hin as [Hin|Hin]; [|by apply H2].
        apply H1 in Hin. by apply Forall_cons in Hin as [Hin _]. }
      unfold entry_lt in Hlt. cbn [snd] in Hlt. pose proof (ord_sym y y). lia. }
    eapply wp_tfind; [exact (Build_searching _ _ _ vk x _ _ _ _ Ht' (sg_key _ _ _ _ _ _ _ _ _ H)
      (sg_len _ _ _ _ _ _ _ _ _ H) (sg_fuel _ _ _ _ _ _ _ _ _ H))| |..].
    + rewrite He', length_app. rewrite He, length_app in Hn. cbn [length] in Hn. lia.
    + intros a' k' y' Ha' Hxy'. unfold absent in Hn'. rewrite Forall_forall in Hn'. exfalso. by apply (Hn' _ Ha').
    + done.
  - intros Hn'. apply wp_run. intros Q HQ. eapply wp_tfind; [exact H|done|..]; [|done].
    intros a' k' y' Ha' Hxy'. rewrite Forall_forall in Hn'. exfalso. by apply (Hn' _ Ha').
Qed.

(** C31: tdestroy calls the callback once with the key of each node, in postorder, and
    frees exactly the nodes, when the callback leaves the tree alone ([client_law]):
    the callback may free the key, allocate, and change the words, data and blocks of
    its client as [Cl] says. *)
Theorem tdestroy_frees free_action Cl N M w K t F n :
  client_law free_action n Cl (postorder t) -> Cl [] M K F -> N ##ₘ M ->
  state (N ∪ M) w K (body t ++ F) ->
  Forall (fun e : entry => N !! e.1 = Some sizeof_node) (entries t) ->
  (alloc_fuel <= n)%nat -> (height t <= n)%nat ->
  exists w' M' K' F', tdestroy free free_action (addr t) n w = Done tt w' /\
    Cl (postorder t) M' K' F' /\ free_nodes (entries t) N ##ₘ M' /\
    state (free_nodes (entries t) N ∪ M') w' K' F'.
Proof.
  intros Hact HC Hd H Hno Hf Hn. destruct t as [|a k x l r]; [by exists w, M, K, F|].
  assert (Hwp : wp n (destroy_recurse free free_action n (addr (Node a k x l r))) w (fun _ w' => exists M' K' F',
    Cl (postorder (Node a k x l r)) M' K' F' /\ free_nodes (entries (Node a k x l r)) N ##ₘ M' /\
    state (free_nodes (entries (Node a k x l r)) N ∪ M') w' K' F')).
  { eapply (wp_destroy free_action n Hf Cl _ Hact (Node a k x l r) [] [] N M w K [] F); [|done..|].
    - by rewrite app_nil_r.
    - intros M' K' F' w' HC' Hd' Hw'. by exists M', K', F'. }
  apply wp_exists in Hwp as ([] & w' & Hrun & M' & K' & F' & Hw'). exists w', M', K', F'. split; [|done].
  assert (Ha : (a, k) ∈ body (Node a k x l r) ++ F) by left.
  apply (state_cell _ _ _ _ _ _ H) in Ha. unfold tdestroy. cbn [addr] in *.
  by rewrite (proj2 (Z.eqb_neq a 0)) by lia.
Qed.
End theorems.

(** C32: twalk calls the action on the nodes in the documented order and at their
    levels, whatever the action does besides the words of the tree: with every
    effect, and also when it faults. *)
Theorem twalk_visits (action : Z -> VISIT -> Z -> C unit) t n w :
  (forall a v level w w', Forall (holds (w_mem w)) (body t) ->
    action a v level n w = Done tt w' -> Forall (holds (w_mem w')) (body t)) ->
  Forall (holds (w_mem w)) (body t) -> Forall (fun c : cell => c.1 <> 0) (body t) ->
  (height t <= n)%nat ->
  twalk action (addr t) n w = run_visits action (visits t 0) n w.
Proof.
  intros Hact Hw H0 Hn. unfold twalk.
  rewrite (addr_is_leaf (body t)) by done. destruct t as [|a k x l r]; [done|].
  cbn [is_leaf negb]. by apply (trecurse_visits action (body (Node a k x l r))).
Qed.

(** ** Witnesses *)

#[global] Instance entry_lt_dec : RelDecision (entry_lt (Hcmp := int_comparator)).
Proof. intros e f. unfold entry_lt. apply _. Defined.
#[global] Instance sorted_dec L : Decision (StronglySorted (entry_lt (Hcmp := int_comparator)) L).
Proof.
  induction L as [|e L IH]; [left; constructor|].
  destruct (decide (Forall (entry_lt e) L)) as [H|H]; [|right; by intros [_ ?]%StronglySorted_inv].
  destruct IH as [H'|H']; [left; by constructor|right; by intros [? _]%StronglySorted_inv].
Defined.

#[global] Instance bump_tree_dec B w K rp t F :
  Decision (tree_at (Hcmp := int_comparator) (A := bump_allocator) B w K rp t F).
Proof.
  destruct (decide (state B w K (tree_cells rp t ++ F) /\ Forall (fun d => d ∈ K) (data t) /\
    Forall (fun e : entry => length e.2.2 = 4%nat) (entries t) /\
    StronglySorted (entry_lt (Hcmp := int_comparator)) (entries t) /\
    Forall (fun e : entry => B !! e.1 = Some sizeof_node) (entries t))) as [H|H]; [left|right].
  - destruct H as (H1 & H2 & H3 & H4 & H5). split; [done| |done..].
    intros d Hd. rewrite Forall_forall in H2. by apply H2.
  - intros []. apply H. split_and!; [done| |done..]. rewrite Forall_forall. auto.
Defined.

(** The numbers 50, 30, 70 and 60 inserted in this order; 40 is at 1016. *)
Definition sample_tree : tree :=
  Node 2004 1000 (le_bytes 50) (Node 2016 1004 (le_bytes 30) Leaf Leaf)
    (Node 2028 1008 (le_bytes 70) (Node 2040 1012 (le_bytes 60) Leaf Leaf) Leaf).
Definition sample_blocks : gmap Z Z :=
  list_to_map [(2004, 12); (2016, 12); (2028, 12); (2040, 12)].
Definition sample_keys : list (Z * list Z) := (1016, le_bytes 40) :: data sample_tree.
Definition sample_w : world := world_of
  (foldr (fun '(p, v) => store_bytes p (le_bytes v))
    (foldr (fun '(p, x) => store_bytes p x)
      (store_bytes 2000 (le_bytes 2052) (store_bytes 2004 (replicate 396 0) (blank 996 60))) sample_keys)
    (tree_cells 1020 sample_tree)).

Lemma sample_searching vk x : (vk, x) ∈ sample_keys -> length x = 4%nat ->
  searching (Hcmp := int_comparator) (A := bump_allocator)
    sample_blocks sample_w sample_keys vk x 1020 sample_tree [] 100.
Proof. intros Hx Hl. split; [decided|done|done|apply Nat.le_0_l]. Qed.

Lemma tfind_correct_witness :
  exists r, tfind int_compare 1012 1020 100%nat sample_w = Done r sample_w /\
    (present (Hcmp := int_comparator) (le_bytes 60) sample_tree r \/
     r = 0 /\ absent (Hcmp := int_comparator) (le_bytes 60) sample_tree).
Proof.
  apply (tfind_correct (Hcmp := int_comparator) (A := bump_allocator)
    sample_blocks sample_w sample_keys 1012 (le_bytes 60) 1020 sample_tree [] 100);
    [apply sample_searching; [decided|done]|cbn; lia].
Defined.

Lemma tsearch_correct_witness :
  exists r w', tsearch int_compare bump_malloc 1016 1020 100%nat sample_w = Done r w' /\
    (present (Hcmp := int_comparator) (le_bytes 40) sample_tree r /\ w' = sample_w \/
     absent (Hcmp := int_comparator) (le_bytes 40) sample_tree /\
       (r = 0 /\ tree_at (Hcmp := int_comparator) (A := bump_allocator)
          sample_blocks w' sample_keys 1020 sample_tree [] \/
        sample_blocks !! r = None /\ exists L1 L2 t', entries sample_tree = L1 ++ L2 /\
          entries t' = L1 ++ (r, (1016, le_bytes 40)) :: L2 /\
          tree_at (Hcmp := int_comparator) (A := bump_allocator)
            (<[r := sizeof_node]> sample_blocks) w' sample_keys 1020 t' [])).
Proof.
  apply (tsearch_correct (Hcmp := int_comparator) (A := bump_allocator)
    sample_blocks sample_w sample_keys 1016 (le_bytes 40) 1020 sample_tree [] 100);
    [apply sample_searching; [decided|done]|cbn; lia|apply Nat.le_0_l].
Defined.

Lemma tdelete_correct_witness :
  exists p w', tdelete int_compare bump_free 1000 1020 100%nat sample_w = Done p w' /\
    ((exists c a k y l r s, sample_tree = plug c (Node a k y l r) /\
        ord (comparator := int_comparator) (le_bytes 50) y = 0 /\
        p = match c with [] => a | InLeft b _ _ _ :: _ | InRight b _ _ _ :: _ => b end /\
        entries s = entries l ++ entries r /\
        tree_at (Hcmp := int_comparator) (A := bump_allocator)
          (delete a sample_blocks) w' sample_keys 1020 (plug c s) []) \/
     p = 0 /\ w' = sample_w /\ absent (Hcmp := int_comparator) (le_bytes 50) sample_tree).
Proof.
  apply (tdelete_correct (Hcmp := int_comparator) (A := bump_allocator)
    sample_blocks sample_w sample_keys 1000 (le_bytes 50) 1020 sample_tree [] 100);
    [apply sample_searching; [decided|done]|cbn; lia|apply Nat.le_0_l].
Defined.

Lemma tsearch_tfind_witness :
  exists r w', tsearch int_compare bump_malloc 1016 1020 100%nat sample_w = Done r w' /\
    (r <> 0 -> tfind int_compare 1016 1020 100%nat w' = Done r w').
Proof.
  apply (tsearch_tfind (Hcmp := int_comparator) (A := bump_allocator)
    sample_blocks sample_w sample_keys 1016 (le_bytes 40) 1020 sample_tree [] 100);
    [apply sample_searching; [decided|done]|cbn; lia|apply Nat.le_0_l].
Defined.

Lemma tdelete_tfind_witness :
  exists p w', tdelete int_compare bump_free 1000 1020 100%nat sample_w = Done p w' /\
    tfind int_compare 1000 1020 100%nat w' = Done 0 w'.
Proof.
  apply (tdelete_tfind (Hcmp := int_comparator) (A := bump_allocator)
    sample_blocks sample_w sample_keys 1000 (le_bytes 50) 1020 sample_tree [] 100);
    [apply sample_searching; [decided|done]|cbn; lia|apply Nat.le_0_l].
Defined.

(** A callback that counts its calls in the word at 1020 and frees the key. *)
Definition free_key (k : Z) : C unit :=
  c ← load32 1020; store32 1020 (c + 1) ;; bump_free k.
Definition owned_tree : tree :=
  Node 2004 2040 (le_bytes 50) (Node 2016 2044 (le_bytes 30) Leaf Leaf) (Node 2028 2048 (le_bytes 70) Leaf Leaf).
Definition key_blocks (ks : list Z) : gmap Z Z := list_to_map (map (fun k => (k, 4)) ks).
Definition key_words (ks : list Z) : list cell := map (fun k => (k, 7)) ks.
Definition owned (done : list Z) (M : gmap Z Z) (K : list (Z * list Z)) (F : list cell) : Prop :=
  exists rest, postorder owned_tree = done ++ rest /\ M = key_blocks rest /\ K = [] /\
    F = (1020, zlen done) :: key_words rest.
Definition node_blocks : gmap Z Z := list_to_map [(2004, 12); (2016, 12); (2028, 12)].
Definition owned_w : world := world_of
  (foldr (fun '(p, v) => store_bytes p (le_bytes v))
    (store_bytes 2000 (le_bytes 2052) (store_bytes 2004 (replicate 396 0) (blank 996 60)))
    (body owned_tree ++ (1020, 0) :: key_words (postorder owned_tree))).

Lemma free_key_law n : client_law (A := bump_allocator) free_key n owned (postorder owned_tree).
Proof.
  intros done k rest N M w K L F Q Hk (rest' & E & -> & -> & ->) Hd H HQ.
  rewrite Hk in E. apply app_inv_head in E as <-. assert (Hlen : zlen done < 4).
  { apply (f_equal length) in Hk. rewrite length_app in Hk. cbn in Hk. lia. }
  assert (Hnd : NoDup (postorder owned_tree)) by decided. rewrite Hk in Hnd.
  apply NoDup_app in Hnd as (_ & _ & [Hk' _]%NoDup_cons).
  assert (Hnone : key_blocks rest !! k = None).
  { apply not_elem_of_list_to_map_1. by rewrite map_map, map_id. }
  assert (EM : key_blocks (k :: rest) = <[k := 4]> (key_blocks rest)) by done.
  assert (HM : key_blocks (k :: rest) !! k = Some 4) by (rewrite EM; apply lookup_insert_eq).
  assert (HN : N !! k = None) by (by eapply map_disjoint_Some_r).
  unfold free_key. wp_step. eapply wp_state_load; [exact H|apply elem_of_app; right; by left|]. wp_step.
  eapply (wp_state_store_in _ _ _ _ _ (zlen done) _ (L ++ key_words (k :: rest)));
    [exact H|by rewrite <-Permutation_middle|lia|]. clear w H. intros w H.
  eapply (wp_state_free (N ∪ key_blocks (k :: rest)) _ _ (L ++ (1020, zlen (done ++ [k])) :: key_words rest) k [7]);
    [|apply Nat.le_0_l|by rewrite lookup_union_r|].
  - eapply state_proper; [reflexivity| |exact H]. cbn [words key_words map app]. rewrite length_app. cbn [length].
    replace (Z.of_nat (length done + 1)) with (zlen done + 1) by lia. solve_Permutation.
  - intros w' Hw'. rewrite delete_union, (delete_id N) in Hw' by done.
    rewrite EM, delete_insert_id in Hw' by done. eapply HQ; [|by rewrite EM in Hd; apply map_disjoint_insert_r in Hd as [_ ?]|exact Hw'].
    exists rest. split_and!; [|done..]. by rewrite <-app_assoc.
Qed.

Lemma tdestroy_frees_witness :
  exists w' M' K' F', tdestroy bump_free free_key 2004 100%nat owned_w = Done tt w' /\
    owned (postorder owned_tree) M' K' F' /\ free_nodes (entries owned_tree) node_blocks ##ₘ M' /\
    state (A := bump_allocator) (free_nodes (entries owned_tree) node_blocks ∪ M') w' K' F'.
Proof.
  apply (tdestroy_frees (A := bump_allocator) free_key owned node_blocks (key_blocks (postorder owned_tree)) owned_w []
    owned_tree ((1020, 0) :: key_words (postorder owned_tree)) 100);
    [apply free_key_law| |decided|decided|decided|apply Nat.le_0_l|cbn; lia].
  exists (postorder owned_tree). by split_and!.
Defined.

Lemma twalk_visits_witness :
  twalk (fun a v level => put_errno (a + level)) 2004 100%nat sample_w =
  run_visits (fun a v level => put_errno (a + level)) (visits sample_tree 0) 100%nat sample_w.
Proof.
  apply (twalk_visits (fun a v level => put_errno (a + level)) sample_tree 100 sample_w);
    [|decided|decided|cbn; lia].
  intros a v level w w' H E. unfold put_errno in E. by injection E as <-.
Defined.
