(* ===== verification/HashTheorems.v ===== *)
(** * Theorems of the hash tables

    A sequence of searches behaves as a finite map from strings to entries,
    whatever the hash and the allocator do. *)

From S2P Require Import Prelude CMonad Words Memory StrScan StrCmp MemCopy Heap Hash HashSpec Concrete Bump.

(** ** The map *)

(** A call: the string of the key and its address, the data and the action. *)
Record request := Request { rq_str : list Z; rq_key : Z; rq_data : Z; rq_action : ACTION }.

(** What a call does to the map; its result is the address of the entry. *)
Inductive map_call (M : gmap (list Z) (Z * Z)) : request -> Z -> gmap (list Z) (Z * Z) -> Prop :=
| call_found s k x a p d : M !! s = Some (p, d) -> map_call M (Request s k x a) p M
| call_absent s k x : M !! s = None -> map_call M (Request s k x FIND) 0 M
| call_no_memory s k x : M !! s = None -> map_call M (Request s k x ENTER) 0 M
| call_entered s k x p : M !! s = None -> p <> 0 ->
    map_Forall (fun _ e => e.1 <> p) M -> map_call M (Request s k x ENTER) p (<[s := (p, x)]> M).

Inductive map_calls : gmap (list Z) (Z * Z) -> list request -> list Z -> gmap (list Z) (Z * Z) -> Prop :=
| calls_nil M : map_calls M [] [] M
| calls_cons M M1 M2 q qs p ps : map_call M q p M1 -> map_calls M1 qs ps M2 ->
    map_calls M (q :: qs) (p :: ps) M2.

(** The calls of the program, in this order. *)
Fixpoint searches {cfg : build} (malloc : Z -> C Z) (htab retval : Z) (qs : list request) : C (list Z) :=
  match qs with
  | [] => mret []
  | q :: qs =>
      p ← hsearch malloc htab retval (rq_key q) (rq_data q) (rq_action q);
      ps ← searches malloc htab retval qs;
      mret (p :: ps)
  end.

(** The calls with which a request is made. *)
Definition valid_request K (q : request) : Prop :=
  key_at K (rq_key q) (rq_str q) /\ 0 <= rq_data q < 4294967296.

Section theorems.
Context {cfg : build} {malloc free} {A : allocator malloc free}.
Implicit Types (B : gmap Z Z) (w : world) (K : list (Z * list Z)) (bs : list (list hentry)) (F : list cell).

Lemma contents_inv B w K htab T bs F s p d : table B w K htab T bs F ->
  contents bs !! s = Some (p, d) -> exists e, e ∈ concat bs /\ he_str e = s /\ p = ent (he_addr e).
Proof.
  intros H E. apply elem_of_list_to_map_2, list_elem_of_fmap in E as (e & [= -> -> ->] & He). eauto.
Qed.

(** One call of hsearch. *)
Lemma hsearch_call n B w K htab T bs r v F q (Q : Z -> world -> Prop) :
  table B w K htab T bs ((r, v) :: F) -> valid_request K q -> fits n bs (rq_str q) ->
  (forall p w' B' bs' v', table B' w' K htab T bs' ((r, v') :: F) -> map_call (contents bs) q p (contents bs') ->
    (exists es, concat bs' ≡ₚ es ++ concat bs /\ (length es <= 1)%nat /\
      forall e, e ∈ es -> he_str e = rq_str q) -> Q p w') ->
  wp n (hsearch malloc htab r (rq_key q) (rq_data q) (rq_action q)) w Q.
Proof.
  intros H [Hk Hd] Hn HQ. destruct q as [s ip x a]. cbn [rq_str rq_key rq_data rq_action] in *.
  assert (Hload : forall B' w' bs' v', table B' w' K htab T bs' ((r, v') :: F) -> Q v' w' -> wp n (load32 r) w' Q).
  { intros B' w' bs' v' [Hw' _ _ _ _] HQ'. eapply wp_state_load; [exact Hw'| |exact HQ'].
    apply elem_of_app. right. by left. }
  assert (Hnil : exists es, concat bs ≡ₚ es ++ concat bs /\ (length es <= 1)%nat /\
    forall e, e ∈ es -> he_str e = s).
  { exists []. split; [done|]. split; [cbn; lia|]. by intros e He%elem_of_nil. }
  unfold hsearch. wp_step. eapply wp_hsearch_r; [exact H|exact Hk|exact Hn|exact Hd|..].
  - intros e w' He <- Hw'. eapply Hload; [exact Hw'|]. eapply HQ; [exact Hw'| |exact Hnil].
    apply (call_found _ _ _ _ _ _ (he_data e)). apply contents_Some; [apply H|done].
  - intros w' Hno Hw'. eapply Hload; [exact Hw'|]. eapply HQ; [exact Hw'| |exact Hnil].
    apply contents_None in Hno. destruct a; by constructor.
  - intros q i b w' Hno -> Hq Hfresh Hi Hb Hw'. eapply Hload; [exact Hw'|]. eapply HQ; [exact Hw'| |].
    + destruct (contents_insert bs i b (HEntry q ip x s) Hi (ta_keys _ _ _ _ _ _ _ H) Hno) as [_ ->].
      cbn [he_str he_addr he_data]. apply call_entered; [by apply contents_None| |].
      * assert (Hin : HEntry q ip x s ∈ concat (<[i:=HEntry q ip x s :: b]> bs)) by (rewrite (buckets_insert _ _ _ _ Hi); by left).
        apply (entry_range _ _ _ _ _ _ _ _ Hw') in Hin. cbn in Hin. unfold ent. lia.
      * intros s' [p d] Hs'. destruct (contents_inv _ _ _ _ _ _ _ _ _ _ H Hs') as (e & He & _ & ->).
        apply Hfresh in He. unfold ent. cbn. lia.
    + exists [HEntry q ip x s]. split_and!; [by apply buckets_insert|cbn; lia|]. by intros e ->%list_elem_of_singleton.
Qed.

(** C28: Any sequence of calls of hsearch on a table terminates without a fault and
    does to the table what it does to a finite map from strings to entries: a
    key that is present gives its entry, whatever the action and the data; FIND
    of another key gives null; ENTER gives null, without memory, or a new entry
    that no other key has.  The table stays well-formed. *)
Theorem hsearch_refines_map B w K htab T bs r v F qs n :
  table B w K htab T bs ((r, v) :: F) -> Forall (valid_request K) qs ->
  (length (concat bs) + length qs < n)%nat -> (alloc_fuel <= n)%nat ->
  Forall (fun e => (length (he_str e) < n)%nat) (concat bs) ->
  Forall (fun q => (length (rq_str q) < n)%nat) qs ->
  exists ps w' B' bs' v', searches malloc htab r qs n w = Done ps w' /\
    table B' w' K htab T bs' ((r, v') :: F) /\ map_calls (contents bs) qs ps (contents bs').
Proof.
  intros H Hqs Hn Hf He Hs.
  assert (Hwp : wp n (searches malloc htab r qs) w (fun ps w' => exists B' bs' v',
    table B' w' K htab T bs' ((r, v') :: F) /\ map_calls (contents bs) qs ps (contents bs'))).
  { revert B w bs v H Hqs Hn He Hs. induction qs as [|q qs IH]; intros B w bs v H Hqs Hn He Hs.
    - exists B, bs, v. split; [done|constructor].
    - apply Forall_cons in Hqs as [Hq Hqs]. apply Forall_cons in Hs as [Hsq Hs]. cbn [searches length] in *. wp_step.
      eapply hsearch_call; [exact H|done|split; [lia|by apply Forall_forall|done|done]|].
      intros p w1 B1 bs1 v1 H1 Hc (es & HP & Hle & Hes). wp_step.
      eapply wp_mono; [apply (IH B1 w1 bs1 v1); [exact H1|done| | |done]|].
      + rewrite HP, length_app. lia.
      + rewrite HP, Forall_app. split; [|done]. apply Forall_forall. intros e Hin. by rewrite (Hes e Hin).
      + intros ps w2 (B2 & bs2 & v2 & H2 & Hcs). wp_step. exists B2, bs2, v2. split; [done|]. by econstructor. }
  apply wp_exists in Hwp as (ps & w' & Hrun & B' & bs' & v' & Hw' & Hc). eauto 10.
Qed.

(** C30: hcreate makes an empty table of a power of two of buckets, no less than
    asked for within the bounds; it fails with ENOMEM without memory, and with
    EINVAL, changing nothing, while there is a table. *)
Theorem hcreate_correct B w K htab t z F nel n :
  state B w K ((htable htab, t) :: (htablesize htab, z) :: F) -> 0 <= nel < 4294967296 ->
  (28 <= n)%nat -> (Z.to_nat (table_size nel) < n)%nat -> (alloc_fuel <= n)%nat ->
  exists res w', hcreate malloc htab nel n w = Done res w' /\
    (t <> 0 /\ res = 0 /\ w' = set_reent (set_errno EINVAL (w_reent w)) w \/
     t = 0 /\ res = 0 /\ _errno (w_reent w') = ENOMEM /\
       state B w' K ((htable htab, 0) :: (htablesize htab, table_size nel) :: F) \/
     t = 0 /\ res = 1 /\ exists T bs k, B !! T = None /\ contents bs = ∅ /\ concat bs = [] /\
       zlen bs = 2 ^ Z.of_nat k /\ (4 <= k <= 26)%nat /\ (nel <= zlen bs \/ k = 26%nat) /\
       (zlen bs < 2 * nel \/ k = 4%nat) /\ table (<[T := 4 * zlen bs]> B) w' K htab T bs F).
Proof.
  intros H Hnel Hf Hs Ha. apply wp_exists. eapply wp_hcreate_r; [exact H|done..| | |].
  - intros Ht. by left.
  - intros w' Ht Hw' He. right; left. by split_and!.
  - intros T w' Ht HT Hw'. right; right. split_and!; [done|done|].
    destruct (table_size_pow nel) as (k & Hk & E). set (bs := repeat [] (Z.to_nat (table_size nel))) in *.
    assert (Hlen : zlen bs = table_size nel).
    { unfold bs. rewrite repeat_length. pose proof (table_size_range nel). lia. }
    exists T, bs, k. rewrite Hlen. split_and!; [done|apply contents_empty| |done|lia..| | |done].
    + apply concat_empty.
    + apply (table_size_least nel k E).
    + apply (table_size_least nel k E).
Qed.

(** hdestroy frees the buckets, and the entries stay allocated; without a table
    nothing happens. *)
Theorem hdestroy_frees_buckets B w K htab T bs F n :
  table B w K htab T bs F -> (alloc_fuel <= n)%nat ->
  exists w', hdestroy free htab n w = Done tt w' /\
    state (delete T B) w' K ((htable htab, 0) :: (htablesize htab, zlen bs) :: chains bs ++ F).
Proof.
  intros H Hn. assert (Hwp : wp n (hdestroy free htab) w (fun _ w' =>
    state (delete T B) w' K ((htable htab, 0) :: (htablesize htab, zlen bs) :: chains bs ++ F))).
  { by eapply wp_hdestroy_r; [exact H|done|]. }
  apply wp_exists in Hwp as ([] & w' & Hrun & Hw'). eauto.
Qed.
End theorems.

(** The unrolled loop that the switch enters computes [h * 33 + b] over the
    bytes, from 0, modulo 2^32. *)
Theorem hash4_correct w p s n :
  bytes (w_mem w) p s -> zlen s < 1073741824 -> (length s < n)%nat ->
  hash4 p (zlen s) n w = Done (hash_of s) w.
Proof. intros. apply wp_run. intros Q HQ. by apply wp_hash4. Qed.

(** ** Witnesses *)

#[global] Instance key_at_dec K p s : Decision (key_at K p s).
Proof. unfold key_at. apply _. Defined.
#[global] Instance valid_request_dec K q : Decision (valid_request K q).
Proof. unfold valid_request. apply _. Defined.

(** The keys "ab", "cd" and "ef"; a table of 16 buckets with the first two. *)
Definition key_ab : list Z := [97; 98].
Definition key_cd : list Z := [99; 100].
Definition key_ef : list Z := [101; 102].
Definition sample_strings : list (Z * list Z) :=
  [(1000, key_ab ++ [0]); (1004, key_cd ++ [0]); (1008, key_ef ++ [0])].
Definition sample_entries : list hentry := [HEntry 2068 1000 7 key_ab; HEntry 2080 1004 8 key_cd].
Definition sample_buckets : list (list hentry) :=
  foldr (fun e bs => alter (cons e) (Z.to_nat (bucket_of (he_str e) bs)) bs) (repeat [] 16) sample_entries.
Definition hash_world (next : Z) (L : list cell) : world := world_of
  (foldr (fun '(p, v) => store_bytes p (le_bytes v))
    (foldr (fun '(p, x) => store_bytes p x)
      (store_bytes 2000 (le_bytes next) (store_bytes 2004 (replicate 396 0) (blank 996 60))) sample_strings) L).
Definition table_w : world := hash_world 2092 (table_cells 1040 2004 sample_buckets ++ [(1048, 0)]).
Definition table_blocks : gmap Z Z := list_to_map [(2004, 64); (2068, 12); (2080, 12)].

Lemma sample_table :
  table (A := bump_allocator) table_blocks table_w sample_strings 1040 2004 sample_buckets [(1048, 0)].
Proof.
  split; [decided|by exists 4%nat; split; [lia|]|done| |decided].
  assert (Hall : Forall (fun ib : nat * list hentry => Forall (fun e => key_at sample_strings (he_key e) (he_str e) /\
    bucket_of (he_str e) sample_buckets = Z.of_nat ib.1) ib.2) (imap pair sample_buckets)) by decided.
  intros i b e Hi He. rewrite Forall_forall in Hall. specialize (Hall (i, b)). cbn [fst snd] in Hall.
  rewrite Forall_forall in Hall. apply Hall; [|done].
  apply list_elem_of_lookup. exists i. by rewrite list_lookup_imap, Hi.
Defined.

(** "cd" is found, "ef" is entered and then found, and not entered again. *)
Lemma hsearch_refines_map_witness :
  let qs := [Request key_cd 1004 0 FIND; Request key_ef 1008 9 ENTER; Request key_ef 1008 0 FIND;
    Request key_ef 1008 5 ENTER] in
  exists ps w' B' bs' v', searches (cfg := speed) bump_malloc 1040 1048 qs 300%nat table_w = Done ps w' /\
    table (A := bump_allocator) B' w' sample_strings 1040 2004 bs' [(1048, v')] /\
    map_calls (contents sample_buckets) qs ps (contents bs').
Proof.
  apply (hsearch_refines_map (cfg := speed) (A := bump_allocator) table_blocks table_w sample_strings 1040 2004 sample_buckets 1048 0 []);
    [exact sample_table|decided|vm_compute; lia|apply Nat.le_0_l|decided|decided].
Defined.

Lemma hcreate_correct_witness :
  let w := hash_world 2004 [(1040, 0); (1044, 0)] in
  exists res w', hcreate bump_malloc 1040 10 100%nat w = Done res w' /\
    (0 <> 0 /\ res = 0 /\ w' = set_reent (set_errno EINVAL (w_reent w)) w \/
     0 = 0 /\ res = 0 /\ _errno (w_reent w') = ENOMEM /\
       state (A := bump_allocator) ∅ w' sample_strings [(htable 1040, 0); (htablesize 1040, table_size 10)] \/
     0 = 0 /\ res = 1 /\ exists T bs k, (∅ : gmap Z Z) !! T = None /\ contents bs = ∅ /\ concat bs = [] /\
       zlen bs = 2 ^ Z.of_nat k /\ (4 <= k <= 26)%nat /\ (10 <= zlen bs \/ k = 26%nat) /\
       (zlen bs < 2 * 10 \/ k = 4%nat) /\
       table (A := bump_allocator) (<[T := 4 * zlen bs]> ∅) w' sample_strings 1040 T bs []).
Proof.
  apply (hcreate_correct (A := bump_allocator) ∅ (hash_world 2004 [(1040, 0); (1044, 0)]) sample_strings 1040 0 0 [] 10 100);
    [decided|lia|lia|vm_compute; lia|apply Nat.le_0_l].
Defined.

Lemma hdestroy_frees_buckets_witness :
  exists w', hdestroy bump_free 1040 100%nat table_w = Done tt w' /\
    state (A := bump_allocator) (delete 2004 table_blocks) w' sample_strings
      ((htable 1040, 0) :: (htablesize 1040, zlen sample_buckets) :: chains sample_buckets ++ [(1048, 0)]).
Proof.
  apply (hdestroy_frees_buckets (A := bump_allocator) table_blocks table_w sample_strings 1040 2004 sample_buckets [(1048, 0)] 100);
    [exact sample_table|apply Nat.le_0_l].
Defined.

Lemma hash4_correct_witness :
  hash4 1000 (zlen key_ab) 100%nat table_w = Done (hash_of key_ab) table_w.
Proof. apply (hash4_correct table_w 1000 key_ab 100); [decided|done|cbn; lia]. Defined.
