(* ===== verification/ExitTheorems.v ===== *)
(** * Theorems of the exit handlers

    For every program whose handlers terminate ([handler_law]): they may change
    their own memory, allocate and register other handlers. *)

From S2P Require Import Prelude CMonad Words Memory MemCopy Heap Exit ExitSpec Concrete Bump.

Section theorems.
Context (_atexit _atexit0 : Z).
Context {malloc free} {A : allocator malloc free}.
Implicit Types (B : gmap Z Z) (w : world) (K : list (Z * list Z)) (F : list cell) (x y : table).
Abbreviation cells := (table_cells _atexit _atexit0).

(** The table as [__register_exitproc] and [__call_exitprocs] find it. *)
Record ready B w K x F : Prop := {
  re_state : state B w K (cells x ++ F);
  re_wf : well_formed x;
  re_head : x_head x = 0 \/ x_head x = _atexit0;
}.

Definition is_word (v : Z) : Prop := 0 <= v < 4294967296.

(** A registration puts the handler on top of the stack, with the arguments it is
    to be called with when its place was not used before; with 32 handlers it fails
    and the stack is as before. *)
Theorem register_correct B w K x F type fn arg d code n :
  ready B w K x F -> is_word fn -> is_word arg -> is_word d -> fn <> 0 ->
  (x_head x = 0 -> x_ind x = 0%nat) ->
  exists res w' x', __register_exitproc _atexit _atexit0 type fn arg d n w = Done res w' /\ ready B w' K x' F /\
    (res = -1 /\ x_ind x = 32%nat /\ handlers code x' = handlers code x \/
     res = 0 /\ (x_ind x < 32)%nat /\ handlers code x' = pushed _atexit0 code type fn arg d x :: handlers code x /\
     (Z.testbit (x_types x) (Z.of_nat (x_ind x)) = false -> Z.testbit (x_cxa x) (Z.of_nat (x_ind x)) = false ->
      h_args (pushed _atexit0 code type fn arg d x) =
        match type with __et_atexit => [] | __et_onexit => [code; arg] | __et_cxa => [arg] end)).
Proof.
  intros [Hw Hwf Hh] Hfn Harg Hd Hf0 Hempty.
  assert (H0 : 0 < _atexit0 < 1073741824).
  { eapply (state_cell _ _ _ _ _ (x_next x)); [exact Hw|]. right. by left. }
  assert (Hb : below code x (x_ind x) = handlers code x).
  { unfold handlers. destruct (Z.eqb_spec (x_head x) 0) as [E|]; [|done]. by rewrite Hempty. }
  assert (Hwp : wp n (__register_exitproc _atexit _atexit0 type fn arg d) w (fun res w' => exists x', ready B w' K x' F /\
    (res = -1 /\ x_ind x = 32%nat /\ handlers code x' = handlers code x \/
     res = 0 /\ (x_ind x < 32)%nat /\ x' = push _atexit0 type fn arg d x))).
  { eapply wp_register; [exact Hw|done..| |].
    - intros w' Hi Hw'. exists (set_head _atexit0 x). split; [split; [done|by destruct Hwf|by right]|left].
      split_and!; [done|done|]. unfold handlers. cbn. destruct Hh as [E|E]; [|rewrite E; destruct (_ =? 0); [done|by apply below_eq]]. rewrite Hempty in Hi by done. lia.
    - intros w' Hi Hw'. exists (push _atexit0 type fn arg d x). split; [split; [done|by apply wf_push|by right]|].
      right. by split_and!. }
  apply wp_exists in Hwp as (res & w' & Hrun & x' & Hr & Hx). exists res, w', x'. split_and!; [done..|].
  destruct Hx as [(-> & Hi & E)|(-> & Hi & ->)]; [by left|right]. split_and!; [done|done| |].
  - by rewrite handlers_push, Hb by (done || lia).
  - by apply pushed_fresh.
Qed.

Section run.
Context (_GLOBAL_REENT __cleanup : Z) (call : Z -> list Z -> C unit) (_exit : Z -> C unit).
Context {n : nat} {code : Z} {log : list handler -> list cell} {known : handler -> Prop}.
Context {registers : handler -> list handler -> Prop} {weight : handler -> nat}.
Context (Hlaw : handler_law _atexit _atexit0 call n code log known registers weight).

(** C6: exit calls the registered handlers, the last registered first, each once and
    with its arguments; the ones that a handler registers are called before the
    others.  None is left when the streams are closed and the process ends.  It
    terminates when a registered handler weighs less than the one that registered it. *)
Theorem exit_runs_handlers B w K x :
  ready B w K x (log []) -> Forall known (handlers code x) ->
  (33 <= n)%nat -> (sum_list_with weight (handlers code x) < n)%nat ->
  exists tr w1 B1 K1 x1, exit _GLOBAL_REENT _atexit __cleanup call _exit code n w =
      (f ← load32 __cleanup;
       (if negb (f =? 0) then f ← load32 __cleanup; call f [_GLOBAL_REENT] else mret tt) ;;
       _exit code) n w1 /\
    unwinds registers 0 (handlers code x) tr [] /\
    state B1 w1 K1 (cells x1 ++ log tr) /\ handlers code x1 = [].
Proof.
  intros [Hw Hwf Hh] Hk Hn Ht. assert (Hwp : wp n (__call_exitprocs _atexit call code 0) w (fun _ w1 =>
    exists tr B1 K1 x1, unwinds registers 0 (handlers code x) tr [] /\
      state B1 w1 K1 (cells x1 ++ log tr) /\ handlers code x1 = [])).
  { eapply (wp_call_exitprocs _ _ _ n code 0 log); [exact Hlaw|exact Hw|done|done|done|done|done|].
    intros tr x1 w1 B1 K1 Hw1 _ _ Hu Hall. assert (E : handlers code x1 = []).
    { destruct (handlers code x1) as [|h hs]; [done|]. by apply Forall_cons in Hall as [? _]. }
    rewrite E in Hu. exists tr, B1, K1, x1. by split_and!. }
  apply wp_exists in Hwp as ([] & w1 & Hrun & tr & B1 & K1 & x1 & Hu & Hw1 & E).
  exists tr, w1, B1, K1, x1. split_and!; [|done..]. unfold exit. unfold mbind at 1, C_bind at 1. by rewrite Hrun.
Qed.

(** C29: __cxa_finalize calls the handlers of one object, the last registered first,
    with those that they register for it, and keeps the handlers of the others; when
    the handlers register none, these are the ones of the object in the order of the
    stack. *)
Theorem finalize_calls_matching B w K x d :
  ready B w K x (log []) -> code = 0 -> d <> 0 -> Forall known (handlers code x) ->
  (33 <= n)%nat -> (sum_list_with weight (handlers code x) < n)%nat ->
  exists tr w1 B1 K1 x1, __cxa_finalize _atexit call d n w = Done tt w1 /\
    ready B1 w1 K1 x1 (log tr) /\
    unwinds registers d (handlers code x) tr (handlers code x1) /\
    Forall (fun h => h_dso h <> d) (handlers code x1) /\
    ((forall h new, h ∈ handlers code x -> registers h new -> new = []) ->
      tr = base.filter (fun h => matches d h = true) (handlers code x) /\
      handlers code x1 = base.filter (fun h => matches d h = false) (handlers code x)).
Proof.
  intros [Hw Hwf Hh] -> Hd Hk Hn Ht. assert (Hwp : wp n (__cxa_finalize _atexit call d) w (fun _ w1 =>
    exists tr B1 K1 x1, ready B1 w1 K1 x1 (log tr) /\ unwinds registers d (handlers 0 x) tr (handlers 0 x1) /\
      Forall (fun h => matches d h = false) (handlers 0 x1))).
  { eapply (wp_call_exitprocs _ _ _ n 0 d log); [exact Hlaw|exact Hw|done|done|done|done|done|].
    intros tr x1 w1 B1 K1 Hw1 Hwf1 Hh1 Hu Hall. exists tr, B1, K1, x1. by split_and!. }
  apply wp_exists in Hwp as ([] & w1 & Hrun & tr & B1 & K1 & x1 & Hr & Hu & Hall).
  exists tr, w1, B1, K1, x1. split_and!; [done..| |].
  - eapply Forall_impl; [exact Hall|]. intros h Hm E. unfold matches in Hm.
    by rewrite E, Z.eqb_refl, orb_true_r in Hm.
  - intros Hnone. by eapply unwinds_filter.
Qed.
End run.
End theorems.

(** ** Witnesses *)

(** Functions that record their address in a word of the program; the one at 5000
    registers another. *)
Definition last_fn (tr : list handler) : Z := match last tr with Some h => h_fn h | None => 0 end.
Definition sample_log (tr : list handler) : list cell := [(1404, 0); (1408, last_fn tr)].
Definition sample_call (fn : Z) (args : list Z) : C unit :=
  store32 1408 fn ;;
  if fn =? 5000 then _ ← atexit 1400 1000 5001; mret tt else mret tt.
Definition sample_known (h : handler) : Prop := is_word (h_fn h).
Definition sample_registers (h : handler) (new : list handler) : Prop :=
  new = [] \/ h_fn h = 5000 /\ exists h', new = [h'] /\ h_fn h' = 5001.
Definition sample_weight (h : handler) : nat := if h_fn h =? 5000 then 2%nat else 1%nat.

Lemma log_front (L : list cell) c1 c2 : L ++ [c1; c2] ≡ₚ c2 :: L ++ [c1].
Proof. change [c1; c2] with ([c1] ++ [c2]). rewrite app_assoc, (Permutation_app_comm _ [c2]). done. Qed.

Lemma sample_law n code :
  handler_law (A := bump_allocator) 1400 1000 sample_call n code sample_log sample_known sample_registers sample_weight.
Proof.
  split.
  - intros h new Hh [->|(E & h' & -> & E')].
    + split; [constructor|]. unfold sample_weight. cbn. destruct (_ =? _); lia.
    + split; [apply Forall_singleton; unfold sample_known, is_word; rewrite E'; lia|].
      simpl. unfold sample_weight. rewrite E, E'. simpl. lia.
  - intros tr x w B K h Hw Hwf Hh Hk. unfold sample_call. wp_step.
    eapply (wp_state_store_in _ _ _ _ _ (last_fn tr) _ (table_cells 1400 1000 x ++ [(1404, 0)]));
      [exact Hw|apply log_front|exact Hk|].
    clear w Hw. intros w Hw.
    assert (Hw' : state (A := bump_allocator) B w K (table_cells 1400 1000 x ++ sample_log (tr ++ [h]))).
    { unfold sample_log, last_fn. rewrite last_snoc. eapply state_proper; [reflexivity|apply log_front|exact Hw]. }
    destruct (Z.eqb_spec (h_fn h) 5000) as [E|E].
    + wp_step. eapply wp_register; [exact Hw'|done|by right|lia|lia|lia| |].
      * intros w1 _ Hw1. wp_step. exists B, K, [], x. split_and!; [|constructor|by left].
        replace (set_head 1000 x) with x in Hw1; [done|]. destruct x. cbn in Hh. by subst.
      * intros w1 Hi Hw1. wp_step. exists B, K, [pushed 1000 code __et_atexit 5001 0 0 x], (push 1000 __et_atexit 5001 0 0 x).
        split_and!; [done|apply pushes_more; [constructor|done|done]|]. right. split; [done|]. by eexists.
    + wp_step. exists B, K, [], x. split_and!; [done|constructor|by left].
Qed.

(** A function of [atexit], one of [on_exit] that registers another, and one of the
    object 9. *)
Definition sample_procs : table :=
  Table 1000 0 3 ([4000; 5000; 6000] ++ replicate 29 0) ([0; 7; 8] ++ replicate 29 0) ([0; 0; 9] ++ replicate 29 0) 6 4.
Definition exit_w : world := world_of
  (foldr (fun '(p, v) => store_bytes p (le_bytes v))
    (store_bytes 2000 (le_bytes 2004) (store_bytes 2004 (replicate 396 0) (blank 996 420)))
    (table_cells 1400 1000 sample_procs ++ sample_log [])).

Lemma sample_ready : ready (A := bump_allocator) 1400 1000 ∅ exit_w [] sample_procs (sample_log []).
Proof. split; [decided|by split; cbn; lia|by right]. Qed.

Lemma register_correct_witness :
  let x := sample_procs in
  exists res w' x', __register_exitproc 1400 1000 __et_onexit 7000 5 0 100%nat exit_w = Done res w' /\
    ready (A := bump_allocator) 1400 1000 ∅ w' [] x' (sample_log []) /\
    (res = -1 /\ x_ind x = 32%nat /\ handlers 1 x' = handlers 1 x \/
     res = 0 /\ (x_ind x < 32)%nat /\ handlers 1 x' = pushed 1000 1 __et_onexit 7000 5 0 x :: handlers 1 x /\
     (Z.testbit (x_types x) (Z.of_nat (x_ind x)) = false -> Z.testbit (x_cxa x) (Z.of_nat (x_ind x)) = false ->
      h_args (pushed 1000 1 __et_onexit 7000 5 0 x) = [1; 5])).
Proof.
  apply (register_correct (A := bump_allocator) 1400 1000 ∅ exit_w [] sample_procs (sample_log []) __et_onexit 7000 5 0 1 100);
    [exact sample_ready|unfold is_word; lia..|done].
Defined.

Lemma exit_runs_handlers_witness :
  exists tr w1 B1 K1 x1, exit 900 1400 1404 sample_call put_errno 3 100%nat exit_w =
      (f ← load32 1404;
       (if negb (f =? 0) then f ← load32 1404; sample_call f [900] else mret tt) ;;
       put_errno 3) 100%nat w1 /\
    unwinds sample_registers 0 (handlers 3 sample_procs) tr [] /\
    state (A := bump_allocator) B1 w1 K1 (table_cells 1400 1000 x1 ++ sample_log tr) /\ handlers 3 x1 = [].
Proof.
  apply (exit_runs_handlers (A := bump_allocator) 1400 1000 900 1404 sample_call put_errno (sample_law 100 3) ∅ exit_w []);
    [exact sample_ready| |lia|vm_compute; lia].
  repeat constructor; done.
Defined.

Lemma finalize_calls_matching_witness :
  exists tr w1 B1 K1 x1, __cxa_finalize 1400 sample_call 9 100%nat exit_w = Done tt w1 /\
    ready (A := bump_allocator) 1400 1000 B1 w1 K1 x1 (sample_log tr) /\
    unwinds sample_registers 9 (handlers 0 sample_procs) tr (handlers 0 x1) /\
    Forall (fun h => h_dso h <> 9) (handlers 0 x1) /\
    ((forall h new, h ∈ handlers 0 sample_procs -> sample_registers h new -> new = []) ->
      tr = base.filter (fun h => matches 9 h = true) (handlers 0 sample_procs) /\
      handlers 0 x1 = base.filter (fun h => matches 9 h = false) (handlers 0 sample_procs)).
Proof.
  apply (finalize_calls_matching (A := bump_allocator) 1400 1000 sample_call (sample_law 100 0) ∅ exit_w []);
    [exact sample_ready|done|lia| |lia|vm_compute; lia].
  repeat constructor; done.
Defined.
