(* ===== verification/StdioTheorems.v ===== *)
(** * Theorems of stdio/: output

    A stream is a refinement of its file: whatever the buffering, a program that
    writes to a stream and flushes it has written to the file what it would have
    written directly; on an error the file holds a prefix. *)

From S2P Require Import Prelude CMonad Words Memory StrScan MemCopy Heap Concrete Bump Stdio StdioSpec StdioOpen.

(** ** Programs that write to a stream *)

Inductive output :=
| Putc (c : Z)
| Fwrite (buf size count : Z)
| Fputs (s : Z)
| Fflush.

Section run.
Context {cfg : build}.
Context (_write : Z -> Z -> F Z) (seek : option (Z -> Z -> F Z)) (is_sseek : bool).
Context (malloc : Z -> C Z) (realloc : Z -> Z -> C Z) (free : Z -> C unit).
Context (fstat : Z -> C (Z * Z)) (isatty : Z -> C Z).

(** One call, and whether it succeeds. *)
Definition run_op (op : output) : F bool := fun fp =>
  match op with
  | Putc c =>
      '(r, fp) ← _putc_r _write seek is_sseek malloc free fstat isatty c fp;
      mret (negb (r =? EOF), fp)
  | Fwrite buf sz count =>
      '(r, fp) ← _fwrite_r _write seek is_sseek malloc realloc free fstat isatty buf sz count fp;
      mret (r =? count, fp)
  | Fputs s =>
      '(r, fp) ← _fputs_r _write seek is_sseek malloc realloc free fstat isatty s fp;
      mret (negb (r =? EOF), fp)
  | Fflush => '(r, fp) ← _fflush_r _write seek free fp; mret (r =? 0, fp)
  end.

(** The calls in order, up to the first that fails. *)
Fixpoint run (ops : list output) : F bool := fun fp =>
  match ops with
  | [] => mret (true, fp)
  | op :: ops => '(ok, fp) ← run_op op fp; if ok : bool then run ops fp else mret (false, fp)
  end.

(** A program that writes and then flushes. *)
Definition session (ops : list output) : F bool := fun fp =>
  '(ok, fp) ← run ops fp; if ok : bool then run_op Fflush fp else mret (false, fp).

(** [data] is the text of a call. *)
Definition says (fp : FILE) (m : mem) (op : output) (data : list Z) : Prop :=
  match op with
  | Putc c => data = [u8 c]
  | Fwrite buf sz count => region_at fp m (buf, data) /\ 0 <= sz /\ zlen data = count * sz
  | Fputs s => cstr m s data /\ disjoint_ranges (base fp) (StdioSpec.size fp) s (zlen data + 1)
  | Fflush => data = []
  end.
End run.

(** A triple as a statement on the run. *)
Lemma wp_exists_pair {A B} n (c : C (A * B)) w (P : A -> B -> world -> Prop) :
  wp n c w (fun '(a, b) w' => P a b w') -> exists a b w', c n w = Done (a, b) w' /\ P a b w'.
Proof. intros ([a b] & w' & E & H)%wp_exists. by exists a, b, w'. Qed.

Section refinement.
Context {cfg : build} {_write} {W : writer _write}.
Context (seek : option (Z -> Z -> F Z)) (is_sseek : bool).
Context (malloc : Z -> C Z) (realloc : Z -> Z -> C Z) (free : Z -> C unit).
Context (fstat : Z -> C (Z * Z)) (isatty : Z -> C Z).
Implicit Types (n : nat) (w : world) (fp : FILE) (m : mem) (pend data : list Z).

Lemma says_step fp w fp' w' op data : step fp w fp' w' -> says fp (w_mem w) op data ->
  says fp' (w_mem w') op data.
Proof.
  intros Hs. destruct op as [c|buf sz count|s|]; cbn [says]; [done| | |done].
  - intros [Hr ?]. split; [by eapply region_step|done].
  - destruct Hs as [Hb _ _ _ _ (l & Hl & _ & E) _]. rewrite Hb, E. intros [Hc Hd]. split; [|done].
    eapply cstr_frame; [exact Hc|]. intros a Ha. apply lookup_store_out. unfold disjoint_ranges in Hd. lia.
Qed.

Lemma wp_run_op n op data fp pend w (Q : bool * FILE -> world -> Prop) :
  (write_fuel <= n)%nat -> StdioSpec.size fp < Z.of_nat n -> (2 * length data + 1 < n)%nat ->
  mem_ok (w_mem w) -> writing fp (w_mem w) pend -> says fp (w_mem w) op data ->
  (forall fp' w', outcome_ok (file fp w ++ pend ++ data) fp w fp' w' -> Q (true, fp') w') ->
  (forall fp' w', outcome_err (file fp w ++ pend ++ data) fp w fp' w' -> Q (false, fp') w') ->
  wp n (run_op _write seek is_sseek malloc realloc free fstat isatty op fp) w Q.
Proof.
  intros Hn Hsz Hdn Hm Hw Hsay HT HF. destruct op as [c|buf sz count|s|]; cbn [run_op says] in *; wp_step.
  - subst data. eapply wp_putc; [done..|]. split; intros; wp_steps.
    + assert (Hu := u8_range c). rewrite (proj2 (Z.eqb_neq _ _)) by (unfold EOF; lia). by apply HT.
    + by apply HF.
  - destruct Hsay as (Hr & Hz & Hl). eapply wp_fwrite; [done..| |]; intros; wp_steps.
    + rewrite Z.eqb_refl. by apply HT.
    + rewrite (proj2 (Z.eqb_neq _ _)) by lia. by apply HF.
  - destruct Hsay as (Hc & Hd). eapply wp_fputs; [done..| |].
    + split; [by apply cstr_body|]. unfold disjoint_ranges in *. cbn. lia.
    + split; intros; wp_steps; [by apply HT|by apply HF].
  - subst data. rewrite app_nil_r in HT, HF. eapply wp_fflush; [done..|by apply Hw| |].
    + intros fp' w' Hs Hm' Hw' Hf. wp_steps. apply HT. split; [done|]. rewrite <-Hf, <-(app_nil_r (file fp' w')).
      by apply holding_writing; [rewrite Hm'|].
    + intros j fp' w' Hs Hm' Hw' He Hf. wp_steps. apply HF. split; [split; [done|]|done].
      exists (file fp' w' ++ []). split; [rewrite app_nil_r, Hf; apply prefix_app, prefix_take|].
      by apply holding_writing; [rewrite Hm'|].
Qed.

Lemma wp_run_ops n ops datas fp pend w (Q : bool * FILE -> world -> Prop) :
  (write_fuel <= n)%nat -> StdioSpec.size fp < Z.of_nat n -> (2 * length (concat datas) + 1 < n)%nat ->
  mem_ok (w_mem w) -> writing fp (w_mem w) pend -> Forall2 (says fp (w_mem w)) ops datas ->
  (forall fp' w', outcome_ok (file fp w ++ pend ++ concat datas) fp w fp' w' -> Q (true, fp') w') ->
  (forall fp' w', outcome_err (file fp w ++ pend ++ concat datas) fp w fp' w' -> Q (false, fp') w') ->
  wp n (run _write seek is_sseek malloc realloc free fstat isatty ops fp) w Q.
Proof.
  intros Hn. revert datas fp pend w.
  induction ops as [|op ops IH]; intros datas fp pend w Hsz Hdn Hm Hw Hsay HT HF.
  - apply Forall2_nil_inv_l in Hsay as ->. apply wp_ret, HT. rewrite app_nil_r.
    split; [by eapply step_buffered, Hw|by apply holding_writing].
  - apply Forall2_cons_inv_l in Hsay as (data & datas' & Hop & Hops & ->). cbn [run concat] in *.
    rewrite length_app in Hdn. wp_step. eapply (wp_run_op n op data); [done|done|lia|done..| |].
    + intros fp1 w1 [Hs (Hm1 & pend1 & Hw1 & Hf1)]. cbn beta iota.
      assert (Hf1' : file fp1 w1 ++ pend1 ++ concat datas' = file fp w ++ pend ++ data ++ concat datas').
      { by rewrite app_assoc, Hf1, <-!app_assoc. }
      eapply (IH datas' fp1 pend1); [by rewrite (step_bf _ _ _ _ Hs)|lia|done|done| | |]; rewrite ?Hf1'.
      * eapply Forall2_impl; [exact Hops|]. intros. by eapply says_step.
      * intros fp2 w2 [Hs2 Hh2]. apply HT. split; [by eapply step_trans|done].
      * intros fp2 w2 [[Hs2 Hl] He]. apply HF. split; [split; [by eapply step_trans|done]|done].
    + intros fp1 w1 [[Hs (s & Hp & Hh)] He]. wp_steps. apply HF. split; [split; [done|]|done].
      exists s. split; [|done]. etrans; [exact Hp|]. rewrite !app_assoc. by eexists.
Qed.

Abbreviation run_calls := (run _write seek is_sseek malloc realloc free fstat isatty).
Abbreviation run_session := (session _write seek is_sseek malloc realloc free fstat isatty).

(** C1: a stream refines its file.  In every mode of buffering and for every file
    that takes some of the bytes or fails, a program of putc, fwrite, fputs and
    fflush calls that is followed by fflush terminates; when no call fails, the
    file has what the calls say, in order, after what it had and what was pending;
    otherwise the error flag is set, and the file has a prefix of that. *)
Theorem stream_refines_file n ops datas fp pend w :
  (write_fuel <= n)%nat -> StdioSpec.size fp < Z.of_nat n -> (2 * length (concat datas) + 1 < n)%nat ->
  mem_ok (w_mem w) -> writing fp (w_mem w) pend -> Forall2 (says fp (w_mem w)) ops datas ->
  exists ok fp' w', run_session ops fp n w = Done (ok, fp') w' /\
    (exists pend', writing fp' (w_mem w') pend') /\
    file fp w `prefix_of` file fp' w' /\
    if ok : bool then file fp' w' = file fp w ++ pend ++ concat datas
    else flag fp' __SERR = true /\ file fp' w' `prefix_of` file fp w ++ pend ++ concat datas.
Proof.
  intros Hn Hsz Hdn Hm Hw Hsay. apply wp_exists_pair.
  unfold session. wp_step. eapply wp_run_ops; [done..| |].
  - intros fp1 w1 [Hs (Hm1 & pend1 & Hw1 & Hf1)]. cbn [run_op]. wp_step.
    eapply wp_fflush; [done|by rewrite (step_bf _ _ _ _ Hs)|done|by apply Hw1| |].
    + intros fp2 w2 Hs2 Hm2 Hw2 Hf2. wp_steps. split; [by eexists|]. split; [|by rewrite Hf2, Hf1].
      etrans; [apply Hs|apply Hs2].
    + intros j fp2 w2 Hs2 Hm2 Hw2 He Hf2. wp_steps. split; [by eexists|].
      split; [etrans; [apply Hs|apply Hs2]|]. split; [done|]. rewrite Hf2, <-Hf1.
      apply prefix_app, prefix_take.
  - intros fp1 w1 [[Hs (s & Hp & Hm1 & pend1 & Hw1 & Hf1)] He]. wp_steps.
    split; [by eexists|]. split; [apply Hs|]. split; [done|]. etrans; [|exact Hp]. rewrite <-Hf1. by eexists.
Qed.

(** C20: a line buffered stream keeps no complete line: after calls that succeed,
    what the file lacks of the text has no newline. *)
Theorem line_buffering n ops datas fp pend w fp' w' :
  (write_fuel <= n)%nat -> StdioSpec.size fp < Z.of_nat n -> (2 * length (concat datas) + 1 < n)%nat ->
  mem_ok (w_mem w) -> writing fp (w_mem w) pend -> Forall2 (says fp (w_mem w)) ops datas ->
  buffering fp = LineBuffered -> run_calls ops fp n w = Done (true, fp') w' ->
  exists rest, (10 ∉ rest) /\ file fp' w' ++ rest = file fp w ++ pend ++ concat datas.
Proof.
  intros Hn Hsz Hdn Hm Hw Hsay Hl E.
  assert (H : wp n (run_calls ops fp) w (fun '(ok, fp') w' => ok = true ->
    exists rest, (10 ∉ rest) /\ file fp' w' ++ rest = file fp w ++ pend ++ concat datas)).
  2: { apply wp_exists in H as (a & w1 & E1 & H). rewrite E in E1. injection E1 as <- <-. by apply H. }
  eapply wp_run_ops; [done..| |done].
  intros fp1 w1 [Hs (Hm1 & pend1 & Hw1 & Hf1)] _. exists pend1. split; [|done].
  assert (Hset := wr_settled _ _ _ Hw1). unfold settled in Hset.
  by rewrite (step_buffering _ _ _ _ Hs), Hl in Hset.
Qed.

(** C21: fwrite returns the number of elements it was given, and the stream holds
    them after what it held; or the file failed, the error flag is set, and it returns
    the number of whole elements among the [k] bytes it counts as written.  They are in
    the file; of an unbuffered stream they are all the bytes of the data that are in the
    file; otherwise the file may have more, at most a buffer, of what the flush that
    failed had written (see the finding on fvwrite.c). *)
Theorem fwrite_correct n buf data sz count fp pend w :
  (write_fuel <= n)%nat -> StdioSpec.size fp < Z.of_nat n -> (2 * length data + 1 < n)%nat ->
  mem_ok (w_mem w) -> writing fp (w_mem w) pend -> region_at fp (w_mem w) (buf, data) ->
  0 <= sz -> zlen data = count * sz ->
  exists r fp' w',
    _fwrite_r _write seek is_sseek malloc realloc free fstat isatty buf sz count fp n w = Done (r, fp') w' /\
    ((r = count /\ outcome_ok (file fp w ++ pend ++ data) fp w fp' w') \/
     (0 <= r < count /\ outcome_err (file fp w ++ pend ++ data) fp w fp' w' /\
      exists i k, file fp' w' = file fp w ++ take i (pend ++ data) /\ (i <= length (pend ++ data))%nat /\
        r = Z.of_nat k / sz /\ (k <= i - length pend)%nat /\
        Z.of_nat (i - length pend) <= Z.of_nat k + StdioSpec.size fp /\
        (buffering fp = Unbuffered -> k = (i - length pend)%nat))).
Proof.
  intros Hn Hsz Hdn Hm Hw Hr Hz Hl. apply wp_exists_pair.
  eapply wp_fwrite; [done..| |]; [by left|]. intros fp' w' k Herr Hk Hrange (i & Hi & Hil & Hk1 & Hk2 & Hk3).
  right. split; [done|]. split; [done|]. pose proof (wr_size _ _ _ (wr_buffered _ _ _ Hw)).
  exists i, k. split_and!; [done..|lia|lia|]. intros Hu. specialize (Hk3 Hu). lia.
Qed.

(** setvbuf with the caller's buffer writes what was pending, and leaves a
    stream with that buffer in the mode asked for (for [_IONBF] the stream's own
    byte); only a failing file loses some of what was pending. *)
Theorem setvbuf_correct n buf mode sz fp pend w :
  (write_fuel <= n)%nat -> StdioSpec.size fp < Z.of_nat n -> mem_ok (w_mem w) ->
  (fresh fp /\ pend = []) \/ (writing fp (w_mem w) pend /\ flag fp __SMBF = false) ->
  mode = _IOFBF \/ mode = _IOLBF \/ mode = _IONBF -> 0 < sz -> mapped (w_mem w) buf sz ->
  is_Some (w_mem w !! _nbuf fp) ->
  exists r fp' w', setvbuf _write seek malloc free buf mode sz fp n w = Done (r, fp') w' /\ r = 0 /\
    w_mem w' = w_mem w /\ rebuffered buf mode sz fp fp' (w_mem w') /\
    (file fp' w' = file fp w ++ pend \/
     (flag fp' __SERR = true /\ exists j, file fp' w' = file fp w ++ take j pend)).
Proof.
  intros Hn Hsz Hm Hfp Hmode Hz Hmap Hnb. apply wp_exists_pair.
  eapply wp_setvbuf; [done..|]. intros fp' w' Hm' Hre (j & Hj & Hor). split_and!; [done..|].
  destruct Hor as [H|H]; [by left|right]. eauto.
Qed.
End refinement.

(** ** The first write, and output to strings *)

Section setup.
Context {malloc : Z -> C Z} {free : Z -> C unit} {A : allocator malloc free}.
Context {fstat : Z -> C (Z * Z)} {isatty : Z -> C Z} {St : file_status fstat isatty}.
Context (is_sseek : bool).

(** the first write to a stream that is open for writing succeeds in setting it
    up: it gets a block of BUFSIZ bytes, or its own byte when there is no memory
    or it is not to be buffered, and is ready to write with nothing pending; the
    memory of the program and the files do not change.  The exception: a stream
    that has both flags, when it was to be line buffered and there is no memory. *)
Theorem first_write_correct n B fp w :
  (alloc_fuel <= n)%nat -> (status_fuel <= n)%nat -> mem_ok (w_mem w) -> heap B (w_mem w) ->
  fresh fp -> is_Some (w_mem w !! _nbuf fp) -> client arena B (_nbuf fp) ->
  exists cant fp' w', cantwrite is_sseek malloc free fstat isatty fp n w = Done (cant, fp') w' /\
    cant = false /\ mem_ok (w_mem w') /\ kept arena B (w_mem w) (w_mem w') /\ w_io w' = w_io w /\
    (exists B', heap B' (w_mem w') /\ got_buffer B fp fp' B') /\
    (writing fp' (w_mem w') [] \/ (flag fp' __SLBF = true /\ flag fp' __SNBF = true)).
Proof.
  intros Hn Hn' Hm Hh Hfr Hnb Hc. apply wp_exists_pair. eapply wp_cantwrite_fresh; [done..|].
  intros B' fp' w' Hm' Hh' Hk Hio Hf Hg Hw. split_and!; [done..| |done]. by exists B'.
Qed.
End setup.

Section strings.
Context {cfg : build}.
Context (_write : Z -> Z -> F Z) (seek : option (Z -> Z -> F Z)) (is_sseek : bool).
Context (malloc : Z -> C Z) (realloc : Z -> Z -> C Z) (free : Z -> C unit).
Context (fstat : Z -> C (Z * Z)) (isatty : Z -> C Z).

(** C22: output to a string of the caller (the streams of snprintf) stores what fits
    in the room that is left and nothing after it, and reports that everything was
    written. *)
Theorem string_output_bounded n p l fp w :
  flag fp __SWR = true -> flag fp __SSTR = true -> base fp <> 0 ->
  flag fp __SNBF = false -> flag fp __SLBF = false -> flag fp __SMBF = false -> flag fp __SOPT = false ->
  mem_ok (w_mem w) -> bytes (w_mem w) p l -> l <> [] -> 0 <= _w fp < 2147483648 ->
  let k := Z.min (_w fp) (zlen l) in
  mapped (w_mem w) (_p fp) k -> (length l + 1 < n)%nat ->
  __sfvwrite_r _write seek is_sseek malloc realloc free fstat isatty (Suio [(p, zlen l)] (zlen l)) fp n w =
    Done (0, 0, set_p (_p fp + k) (set_w (_w fp - k) fp)) (written (_p fp) (take (Z.to_nat k) l) w).
Proof.
  intros Ho Hs Hb Hn Hl Hm Ht Hok Hbytes Hne Hw k Hmap Hfuel.
  assert (Hlen := bytes_len _ _ _ Hok Hbytes). assert (0 < zlen l) by (destruct l; [done|cbn; lia]).
  assert (Ek : k = Z.min (_w fp) (zlen l)) by done. clearbody k.
  apply wp_run. intros Q HQ. unfold __sfvwrite_r. cbn [uio_resid uio_iov].
  rewrite (proj2 (Z.eqb_neq (zlen l) 0)) by lia. wp_step. unfold cantwrite.
  rewrite Ho, (proj2 (Z.eqb_neq (base fp) 0)) by done. wp_steps. rewrite Hn, Hl.
  destruct n as [|[|n]]; [lia..|]. apply wp_loop_k. wp_loop. unfold sfvwrite_loop at 1. wp_step.
  unfold GETIOV. apply wp_loop_k. wp_loop. change (0 =? 0) with true. wp_steps.
  wp_loop. rewrite (proj2 (Z.eqb_neq (zlen l) 0)) by lia. wp_steps.
  assert (Hflags : Z.land (_flags fp) (Z.lor __SMBF __SOPT) = 0).
  { unfold flag in Hm, Ht. apply negb_false_iff, Z.eqb_eq in Hm, Ht.
    by rewrite Z.land_lor_distr_r, Hm, Ht. }
  assert (Hk : (if zlen l <? u32 (_w fp) then i32 (zlen l) else _w fp) = k).
  { rewrite u32_small, i32_small by lia. destruct (Z.ltb_spec (zlen l) (_w fp)); lia. }
  assert (0 <= k <= zlen l /\ k <= _w fp) by lia. clear Ek.
  unfold part_full at 1. rewrite Hs. unfold part_string. rewrite Hflags. change (0 =? 0) with true.
  rewrite andb_false_r. wp_steps. rewrite Hk. unfold COPY. rewrite (u32_small k) by lia. wp_step.
  replace k with (zlen (take (Z.to_nat k) l)) at 1 by (rewrite length_take; lia).
  rewrite <-(take_drop (Z.to_nat k) l) in Hbytes. apply bytes_app in Hbytes as [Hbytes _].
  apply wp_memmove; [done..| |rewrite length_take; lia|].
  - by replace (zlen (take (Z.to_nat k) l)) with k by (rewrite length_take; lia).
  - wp_steps. rewrite (i32_small (zlen l)), (i32_small (_w fp - k)) by lia.
    replace (zlen l - zlen l) with 0 by lia. change (i32 0 =? 0) with true. wp_steps. exact HQ.
Qed.
End strings.

(** ** Concrete files *)

Fixpoint peek (m : mem) (p : Z) (k : nat) : option (list Z) :=
  match k with
  | O => Some []
  | Datatypes.S k => b ← m !! p; l ← peek m (p + 1) k; Some (b :: l)
  end.

Lemma peek_bytes m p l k : bytes m p l -> (k <= length l)%nat -> peek m p k = Some (take k l).
Proof.
  revert p l. induction k as [|k IH]; intros p [|b l] Hb Hk; cbn in *; try done; try lia.
  destruct Hb as [-> Hb]. cbn. rewrite (IH (p + 1) l) by (done || lia). done.
Qed.

(** Files of at most [cap] bytes, to which a call writes at most three. *)
Definition disk_write (cap fd p n : Z) : C Z := fun _ w =>
  let old := default [] (w_io w !! fd) in
  let k := Z.min (Z.min n 3) (cap - zlen old) in
  if k <=? 0 then Done (-1) w else
  match peek (w_mem w) p (Z.to_nat k) with
  | Some l => Done k (set_io (<[fd := old ++ l]> (w_io w)) w)
  | None => Fault
  end.
Definition disk_lseek (fd offset whence : Z) : C Z := mret 0.

#[export] Instance disk cap : descriptors (disk_write cap) disk_lseek.
Proof.
  refine {| contents fd i := default [] (i !! fd); system_fuel := 0 |}.
  - intros n fd p l w Q _ Hm Hl Hne H0 Hk. apply wp_exists. unfold disk_write.
    set (old := default [] (w_io w !! fd)). set (k := Z.min (Z.min (zlen l) 3) (cap - zlen old)).
    destruct (k <=? 0) eqn:E; b2p.
    + exists (-1), w. split; [done|]. by apply H0.
    + assert (Z.to_nat k <= length l)%nat by lia. rewrite (peek_bytes _ _ l) by done.
      do 2 eexists. split; [done|]. replace k with (Z.of_nat (Z.to_nat k)) at 1 by lia.
      apply Hk; [done|lia|]. cbn. rewrite lookup_insert_eq. done.
  - intros n fd offset whence w Q _ HQ. apply wp_ret. by apply HQ.
Defined.

(** A terminal, and the number of its device. *)
Definition tty_fstat (fd : Z) : C (Z * Z) := mret (0, S_IFCHR).
Definition tty_isatty (fd : Z) : C Z := mret 1.
#[export] Instance tty : file_status tty_fstat tty_isatty.
Proof.
  refine {| status_fuel := 0 |}.
  - intros n fd w Q _ HQ. apply wp_ret. by apply HQ.
  - intros n fd w Q _ HQ. apply wp_ret. by apply HQ.
Defined.

(** A stream of descriptor 1 with a buffer of 8 bytes at 1000 that holds "ab";
    "hello" and a newline at 1016. *)
Definition out_mem : mem :=
  store_bytes 1016 [104; 101; 108; 108; 111; 10; 0] (store_bytes 1000 [97; 98] (blank 1000 32)).
Definition out_world : world := world_of out_mem.
Definition out_file (flags w lbfsize : Z) : FILE :=
  File 1002 0 w flags 1 (Sbuf 1000 8) lbfsize (Sbuf 0 0) 0 0 0 1012 0 0 0.
Definition full_file : FILE := out_file __SWR 6 0.
Definition line_file : FILE := out_file (Z.lor __SWR __SLBF) (-2) (-8).

Lemma out_writing flags w lbfsize :
  (flags = __SWR /\ w = 6 /\ lbfsize = 0) \/ (flags = Z.lor __SWR __SLBF /\ w = -2 /\ lbfsize = -8) ->
  writing (out_file flags w lbfsize) out_mem [97; 98].
Proof.
  intros [(-> & -> & ->)|(-> & -> & ->)]; (split; [split|..]); try done; decided.
Qed.

Definition no_malloc (_ : Z) : C Z := mret 0.
Definition no_realloc (_ _ : Z) : C Z := mret 0.
Definition no_free (_ : Z) : C unit := mret tt.

Definition out_calls : list output := [Putc 33; Fwrite 1016 2 3; Fflush; Fputs 1016; Putc 10].
Definition out_texts : list (list Z) :=
  [[33]; [104; 101; 108; 108; 111; 10]; []; [104; 101; 108; 108; 111; 10]; [10]].

Lemma out_says flags w lbfsize : Forall2 (says (out_file flags w lbfsize) out_mem) out_calls out_texts.
Proof. repeat constructor; decided. Qed.

Abbreviation out_write := (__swrite (disk_write 100) disk_lseek).
Abbreviation out_writer := (__swrite_writer (disk 100)).
Abbreviation on_disk := (file (W := out_writer)).

Lemma stream_refines_file_witness :
  exists ok fp' w',
    session (cfg := speed) out_write None false no_malloc no_realloc no_free tty_fstat tty_isatty
      out_calls full_file 100%nat out_world = Done (ok, fp') w' /\
    (exists pend', writing fp' (w_mem w') pend') /\
    on_disk full_file out_world `prefix_of` on_disk fp' w' /\
    if ok : bool then on_disk fp' w' = on_disk full_file out_world ++ [97; 98] ++ concat out_texts
    else flag fp' __SERR = true /\
      on_disk fp' w' `prefix_of` on_disk full_file out_world ++ [97; 98] ++ concat out_texts.
Proof.
  apply (stream_refines_file (cfg := speed) (W := out_writer) None false no_malloc
    no_realloc no_free tty_fstat tty_isatty 100%nat out_calls out_texts full_file [97; 98] out_world);
    [apply le_0_n|concrete|cbn; lia|decided|by apply out_writing; left|apply out_says].
Defined.

Lemma line_buffering_witness :
  exists fp' w' rest,
    run (cfg := speed) out_write None false no_malloc no_realloc no_free tty_fstat tty_isatty
      [Putc 33; Fputs 1016; Putc 33] line_file 100%nat out_world = Done (true, fp') w' /\
    (10 ∉ rest) /\ on_disk fp' w' ++ rest =
      on_disk line_file out_world ++ [97; 98] ++ [33; 104; 101; 108; 108; 111; 10; 33].
Proof.
  assert (E : exists fp' w',
    run (cfg := speed) out_write None false no_malloc no_realloc no_free tty_fstat tty_isatty
      [Putc 33; Fputs 1016; Putc 33] line_file 100%nat out_world = Done (true, fp') w')
    by (do 2 eexists; vm_compute; reflexivity).
  destruct E as (fp' & w' & E). exists fp', w'.
  destruct (line_buffering (cfg := speed) (W := out_writer) None false no_malloc
    no_realloc no_free tty_fstat tty_isatty 100%nat [Putc 33; Fputs 1016; Putc 33]
    [[33]; [104; 101; 108; 108; 111; 10]; [33]] line_file [97; 98] out_world fp' w')
    as (rest & H1 & H2);
    [apply le_0_n|concrete|cbn; lia|decided|clear E; by apply out_writing; right|clear E; repeat constructor; decided|reflexivity|exact E|].
  exists rest. split; [exact E|]. split; [exact H1|exact H2].
Defined.

Lemma fwrite_correct_witness :
  exists r fp' w',
    _fwrite_r (H := speed) out_write None false no_malloc no_realloc no_free tty_fstat tty_isatty
      1016 2 3 full_file 100%nat out_world = Done (r, fp') w' /\
    ((r = 3 /\ outcome_ok (W := out_writer) (on_disk full_file out_world ++ [97; 98] ++
        [104; 101; 108; 108; 111; 10]) full_file out_world fp' w') \/
     (0 <= r < 3 /\ outcome_err (W := out_writer) (on_disk full_file out_world ++ [97; 98] ++
        [104; 101; 108; 108; 111; 10]) full_file out_world fp' w' /\
      exists i k, on_disk fp' w' = on_disk full_file out_world ++ take i ([97; 98] ++ [104; 101; 108; 108; 111; 10]) /\
        (i <= length ([97; 98] ++ [104; 101; 108; 108; 111; 10]))%nat /\ r = Z.of_nat k / 2 /\ (k <= i - length [97; 98]%Z)%nat /\
        Z.of_nat (i - length [97; 98]) <= Z.of_nat k + StdioSpec.size full_file /\
        (buffering full_file = Unbuffered -> k = (i - length [97; 98]%Z)%nat))).
Proof.
  apply (fwrite_correct (cfg := speed) (W := out_writer) None false no_malloc
    no_realloc no_free tty_fstat tty_isatty 100%nat 1016 [104; 101; 108; 108; 111; 10] 2 3 full_file
    [97; 98] out_world);
    [apply le_0_n|concrete|cbn; lia|decided|by apply out_writing; left|split; decided|lia|done].
Defined.

Lemma setvbuf_correct_witness :
  exists r fp' w', setvbuf out_write None no_malloc no_free 1024 _IOLBF 8 full_file 100%nat out_world =
      Done (r, fp') w' /\ r = 0 /\
    w_mem w' = out_mem /\ rebuffered 1024 _IOLBF 8 full_file fp' (w_mem w') /\
    (on_disk fp' w' = on_disk full_file out_world ++ [97; 98] \/
     (flag fp' __SERR = true /\ exists j, on_disk fp' w' = on_disk full_file out_world ++ take j [97; 98])).
Proof.
  apply (setvbuf_correct (W := out_writer) None no_malloc no_free 100%nat 1024 _IOLBF 8 full_file [97; 98]
    out_world); [apply le_0_n|concrete|decided|right; split; [by apply out_writing; left|done]|auto|lia|decided|].
  by eexists.
Defined.

(** The standard output of this build, before its first use. *)
Definition stdout_file : FILE := std (Z.lor __SWR __SLBF) 1 (out_file 0 0 0).
Definition stdout_world : world :=
  world_of (blank 1000 32 ∪ store_bytes 2000 (le_bytes 2004) (blank 2000 2000)).

Lemma first_write_correct_witness :
  exists cant fp' w', cantwrite false bump_malloc bump_free tty_fstat tty_isatty stdout_file 0%nat stdout_world =
      Done (cant, fp') w' /\
    cant = false /\ mem_ok (w_mem w') /\ kept bump_arena ∅ (w_mem stdout_world) (w_mem w') /\
    w_io w' = w_io stdout_world /\
    (exists B', bump_heap B' (w_mem w') /\ got_buffer ∅ stdout_file fp' B') /\
    (writing fp' (w_mem w') [] \/ (flag fp' __SLBF = true /\ flag fp' __SNBF = true)).
Proof.
  apply (first_write_correct (A := bump_allocator) (St := tty) false 0%nat ∅ stdout_file stdout_world);
    [apply le_0_n|apply le_0_n|decided|decided|by split|by eexists|decided].
Defined.

Lemma string_output_bounded_witness :
  let fp := out_file (Z.lor __SWR __SSTR) 3 0 in
  __sfvwrite_r (H := speed) out_write None false no_malloc no_realloc no_free tty_fstat tty_isatty
    (Suio [(1016, 6)] 6) fp 100%nat out_world =
    Done (0, 0, set_p (1002 + 3) (set_w (3 - 3) fp)) (written 1002 [104; 101; 108] out_world).
Proof.
  apply (string_output_bounded (cfg := speed) out_write None false no_malloc no_realloc no_free tty_fstat
    tty_isatty 100%nat 1016 [104; 101; 108; 108; 111; 10] (out_file (Z.lor __SWR __SSTR) 3 0) out_world);
    first [done|decided|cbn; lia].
Defined.
