(* ===== verification/StdioInTheorems.v ===== *)
(** * Theorems of stdio/: input

    What a program reads is the text of the file, in order and once, whatever the
    buffering; a character that is pushed back is read next.  Where the text ends
    the stream says so, and an error loses nothing. *)

From S2P Require Import Prelude CMonad Words Memory StrScan MemCopy Heap Concrete Bump Stdio StdioSpec StdioIn StdioInSpec StdioRead StdioExit StdioTheorems.

Section theorems.
Context {read} {R : reader read} {write} {W : writer write} {CH : channel}.
Context (seek : option (Z -> Z -> F Z)) (is_sseek : bool).
Context (malloc : Z -> C Z) (free : Z -> C unit).
Context (fstat : Z -> C (Z * Z)) (isatty : Z -> C Z).
Implicit Types (n : nat) (w : world) (fp g : FILE) (fps : list FILE) (m : mem) (s l : list Z).

#[local] Abbreviation getc := (_getc_r read write seek is_sseek malloc free fstat isatty).

(** C: getc yields the first character of what is to come, which is then what comes
    after it; or it yields EOF, nothing is lost, and the stream says why: the end of
    the file is only told where the text ends. *)
Theorem getc_correct n fp fps w s : enough n fps -> reading fp fps w s ->
  exists c fp' fps' w', getc fp fps n w = Done (c, fp', fps') w' /\ istep fp fps w fp' fps' w' /\
    ((exists s', s = c :: s' /\ is_byte c /\ reading fp' fps' w' s') \/
     (c = EOF /\ reading fp' fps' w' s /\ over s fp')).
Proof.
  intros Hn Hrd. assert (H : wp n (getc fp fps) w (fun '(c, fp', fps') w' => istep fp fps w fp' fps' w' /\
    ((exists s', s = c :: s' /\ is_byte c /\ reading fp' fps' w' s') \/
     (c = EOF /\ reading fp' fps' w' s /\ over s fp')))).
  { eapply wp_getc; [done..| |].
    - intros c s' fp' fps' w' -> Hc Hst Hrd'. split; [done|]. left. by exists s'.
    - intros fp' fps' w' Hst Hrd' Ho. split; [done|]. by right. }
  apply wp_exists in H as ([ [c fp'] fps'] & w' & E & H). by exists c, fp', fps', w'.
Qed.

(** A program that reads to the end: [acc] is what it has read. *)
Definition drain : list Z * FILE * list FILE -> C (list Z * FILE * list FILE) := loop (fun '(acc, fp, fps) =>
  '(c, fp, fps) ← getc fp fps;
  if c =? EOF then brk (acc, fp, fps) else next (acc ++ [c], fp, fps)).

(** C4: C: a program that reads with getc until EOF ends: it has read the whole of the
    file and what was in the buffers, in order, and the stream is at the end of the
    file; or there was an error, and it has the text up to there. *)
Theorem getc_drains n fp fps w s : enough n fps -> (length s < n)%nat -> reading fp fps w s ->
  exists l fp' fps' w', drain ([], fp, fps) n w = Done (l, fp', fps') w' /\
    exists s', s = l ++ s' /\ reading fp' fps' w' s' /\
      ((s' = [] /\ flag fp' __SEOF = true) \/ flag fp' __SERR = true).
Proof.
  intros Hn Hs Hrd.
  assert (H : wp n (drain ([], fp, fps)) w (fun '(l, fp', fps') w' =>
    exists s', s = l ++ s' /\ reading fp' fps' w' s' /\ over s' fp')).
  { unfold drain. eapply (wp_loop_inv (fun k '(l, fp, fps) w => exists s', s = l ++ s' /\ k = length s' /\
      enough n fps /\ reading fp fps w s')); [by exists s|done|].
    clear Hs Hrd Hn fp fps w. intros k [ [l fp] fps] w (s' & -> & -> & Hn & Hrd). wp_step.
    eapply wp_getc; [done..| |].
    - intros c s2 fp' fps' w' -> Hc [_ _ Hok] Hrd'. rewrite (proj2 (Z.eqb_neq _ _)) by (unfold EOF; lia). wp_steps.
      exists (length s2). split; [cbn; lia|]. exists s2. split_and!; [by rewrite <-app_assoc|done| |done].
      by eapply enough_okept.
    - intros fp' fps' w' _ Hrd' Ho. change (EOF =? EOF) with true. wp_steps. by exists s'. }
  apply wp_exists in H as ([ [l fp'] fps'] & w' & E & H). by exists l, fp', fps', w'.
Qed.

Section ungetc.
Context {cfg : build} (realloc : Z -> Z -> C Z).

#[local] Abbreviation ungetc := (_ungetc_r write seek malloc realloc free).

(** A program that pushes characters back, one after the other. *)
Fixpoint push_back (cs : list Z) : F (list Z) := fun fp =>
  match cs with
  | [] => mret ([], fp)
  | c :: cs => '(r, fp) ← ungetc c fp; '(rs, fp) ← push_back cs fp; mret (r :: rs, fp)
  end.

(** A program that reads [k] characters. *)
Fixpoint reread (k : nat) (fp : FILE) (fps : list FILE) : C (list Z * FILE * list FILE) :=
  match k with
  | O => mret ([], fp, fps)
  | S k => '(c, fp, fps) ← getc fp fps; '(cs, fp, fps) ← reread k fp fps; mret (c :: cs, fp, fps)
  end.

Lemma wp_push_back n cs fp fps w s (Q : list Z * FILE -> world -> Prop) :
  Forall (fun c => is_byte c) cs -> reading fp fps w s -> zlen cs <= room fp ->
  (forall fp' w', istep fp fps w fp' fps w' -> reading fp' fps w' (reverse cs ++ s) ->
    ((cs = [] -> flag fp __SEOF = false) -> flag fp' __SEOF = false) -> held fp' = held fp + zlen cs -> Q (cs, fp') w') ->
  wp n (push_back cs fp) w Q.
Proof.
  revert fp w s Q. induction cs as [|c cs IH]; intros fp w s Q Hcs Hrd Hroom HQ; cbn [push_back length] in *.
  - wp_steps. apply HQ; [apply istep_refl|done|by intros ->|lia].
  - apply Forall_cons in Hcs as [Hc Hcs]. wp_step. eapply wp_ungetc; [unfold EOF; lia|done|lia|].
    rewrite u8_small by done. intros fp1 w1 Hst Hrd1 [He Hh Hr]. wp_steps.
    eapply IH; [done..|lia|]. intros fp2 w2 Hst2 Hrd2 He2 Hh2. wp_steps. apply HQ.
    + by eapply istep_trans.
    + by rewrite reverse_cons, <-app_assoc.
    + intros _. by apply He2.
    + lia.
Qed.

Lemma wp_reread n l fp fps w s (Q : list Z * FILE * list FILE -> world -> Prop) :
  reading fp fps w (l ++ s) -> flag fp __SEOF = false -> zlen l <= held fp ->
  (forall fp', kept fp fp' -> reading fp' fps w s -> Q (l, fp', fps) w) ->
  wp n (reread (length l) fp fps) w Q.
Proof.
  revert fp Q. induction l as [|c l IH]; intros fp Q Hrd He Hh HQ; cbn [reread length] in *; [wp_steps; by apply HQ|].
  wp_step. eapply wp_getc_held; [done..|lia|]. intros c' s' fp1 [= <- <-] Hk Hrd1 He1 Hh1. wp_steps.
  apply IH; [done..|lia|]. intros fp2 Hk2 Hrd2. wp_steps. apply HQ; [by trans fp1|done].
Qed.

(** C8: C: characters that are pushed back are the next ones, the last of them first:
    ungetc yields each of them, getc yields them again, without a call to the system,
    and then what was to come comes; the end of the file that was told is forgotten.
    Three characters find room on a stream that has its buffer and none pushed back
    (fewer when some are). *)
Theorem ungetc_getc n cs fp fps w s :
  cs <> [] -> Forall (fun c => is_byte c) cs -> reading fp fps w s ->
  zlen cs <= (if HASUB fp then sizeof_ubuf - _r fp else 3) ->
  exists fp1 w1 fp2, push_back cs fp n w = Done (cs, fp1) w1 /\ flag fp1 __SEOF = false /\
    reading fp1 fps w1 (reverse cs ++ s) /\
    reread (length cs) fp1 fps n w1 = Done (reverse cs, fp2, fps) w1 /\ reading fp2 fps w1 s /\
    istep fp fps w fp2 fps w1.
Proof.
  intros Hne Hcs Hrd Hroom.
  assert (H : wp n (push_back cs fp) w (fun '(rs, fp1) w1 => rs = cs /\ istep fp fps w fp1 fps w1 /\
    reading fp1 fps w1 (reverse cs ++ s) /\ flag fp1 __SEOF = false /\ zlen (reverse cs) <= held fp1)).
  { eapply wp_push_back; [done..|]. intros fp1 w1 Hst Hrd1 He Hh. split_and!; try done; [by apply He|].
    rewrite length_reverse. pose proof (held_nonneg _ _ _ _ Hrd). lia. }
  apply wp_exists in H as ([rs fp1] & w1 & E & -> & Hst & Hrd1 & He & Hh).
  assert (H : wp n (reread (length (reverse cs)) fp1 fps) w1 (fun '(rs, fp2, fps2) w2 => rs = reverse cs /\
    fps2 = fps /\ w2 = w1 /\ kept fp1 fp2 /\ reading fp2 fps w1 s)).
  { by eapply wp_reread; [done..|]. }
  apply wp_exists in H as ([ [rs fp2] fps2] & w2 & E2 & -> & -> & -> & Hk & Hrd2). rewrite length_reverse in E2.
  exists fp1, w1, fp2. split_and!; try done. eapply istep_trans; [exact Hst|by apply istep_stream].
Qed.

End ungetc.

Section transfers.
Context {cfg : build}.

(** C7: C: fread stores the first bytes of what is to come at [buf], which the stream
    loses, and yields the number of elements it was asked for; or the file ended or
    failed, and it yields the number of whole elements among the bytes it stored.  An
    unbuffered stream, from which it reads directly, must not have characters pushed
    back. *)
Theorem fread_correct n buf sz count fp fps w s :
  enough n fps -> count * sz + 1 < Z.of_nat n -> reading fp fps w s -> 0 <= sz -> 0 <= count ->
  dest fp fps (w_mem w) buf (count * sz) ->
  (PREFER_SIZE_OVER_SPEED = false -> flag fp __SNBF = true -> HASUB fp = false) ->
  exists r fp' fps' w' j, _fread_r read write seek is_sseek malloc free fstat isatty buf sz count fp fps n w =
      Done (r, fp', fps') w' /\
    0 <= j <= count * sz /\ bytes (w_mem w') buf (take (Z.to_nat j) s) /\ j <= zlen s /\
    reading fp' fps' w' (drop (Z.to_nat j) s) /\
    (forall a, ~ own fp a -> ~ (buf <= a < buf + count * sz) -> w_mem w' !! a = w_mem w !! a) /\
    ((j = count * sz /\ r = if count * sz =? 0 then 0 else count) \/
     (j < count * sz /\ r = j / sz /\ over (drop (Z.to_nat j) s) fp')).
Proof.
  intros Hn Hkn Hrd Hsz Hc Hd Hdir.
  assert (H : wp n (_fread_r read write seek is_sseek malloc free fstat isatty buf sz count fp fps) w
    (fun '(r, fp', fps') w' => exists j, got buf (count * sz) fp fps w s j fp' fps' w' /\ fread_end sz count s j r fp')).
  { eapply wp_fread; [done..|]. intros j r fp' fps' w' Hg He. by exists j. }
  apply wp_exists in H as ([ [r fp'] fps'] & w' & E & j & [ [? ?] ? ? ? ? ? ?] & He). exists r, fp', fps', w', j.
  split_and!; try done; lia.
Qed.

(** C3: C: fgets stores the line that is to come, through its newline, with a null after
    it, as far as the buffer goes; where the file ends in the line or fails it stores
    what there is.  It yields NULL only where there is nothing at all.  Nothing is
    lost: what it does not store is still to come. *)
Theorem fgets_correct n buf sz fp fps w s :
  enough n fps -> sz + 1 < Z.of_nat n -> reading fp fps w s -> 2 <= sz -> dest fp fps (w_mem w) buf sz ->
  exists r fp' fps' w' j, _fgets_r read write seek is_sseek malloc free fstat isatty buf sz fp fps n w =
      Done (r, fp', fps') w' /\
    0 <= j < sz /\ j <= zlen s /\ reading fp' fps' w' (drop (Z.to_nat j) s) /\
    (forall a, ~ own fp a -> ~ (buf <= a < buf + sz) -> w_mem w' !! a = w_mem w !! a) /\
    ((r = buf /\ 0 < j /\ bytes (w_mem w') buf (take (Z.to_nat j) s ++ [0]) /\
      (10 ∉ take (Z.to_nat (j - 1)) s) /\
      (j = sz - 1 \/ s !! Z.to_nat (j - 1) = Some 10 \/ over (drop (Z.to_nat j) s) fp')) \/
     (r = 0 /\ j = 0 /\ over s fp')).
Proof.
  intros Hn Hszn Hrd Hsz Hd.
  assert (H : wp n (_fgets_r read write seek is_sseek malloc free fstat isatty buf sz fp fps) w
    (fun '(r, fp', fps') w' => exists j, got buf sz fp fps w s j fp' fps' w' /\ 0 <= j < sz /\
      ((r = buf /\ 0 < j /\ w_mem w' !! (buf + j) = Some 0 /\ (10 ∉ take (Z.to_nat (j - 1)) s) /\
        (j = sz - 1 \/ s !! Z.to_nat (j - 1) = Some 10 \/ over (drop (Z.to_nat j) s) fp')) \/
       (r = 0 /\ j = 0 /\ over s fp')))).
  { eapply wp_fgets; [done..| |].
    - intros j fp' fps' w' [Hg ? ? ? ?]. exists j. split_and!; [done|lia|lia|]. left. split_and!; try done; lia.
    - intros fp' fps' w' Hg Ho. exists 0. split_and!; [done|lia|lia|]. by right. }
  apply wp_exists in H as ([ [r fp'] fps'] & w' & E & j & [ [? Hjs] ? ? ? ? Hb ?] & Hj & He).
  exists r, fp', fps', w', j. split_and!; try done; [lia..|]. destruct He as [(-> & ? & Hz & ? & ?)|?]; [left|by right].
  split_and!; try done. apply bytes_app. split; [done|]. rewrite length_take_le by lia.
  replace (buf + Z.of_nat (Z.to_nat j)) with (buf + j) by lia. by split.
Qed.
End transfers.

(** The refill of a stream that is read from a terminal: the walk comes first. *)
Lemma refill_in_order n fp fps w s :
  enough n fps -> reading (set_r 0 fp) fps w s -> terminal fp ->
  flag fp __SEOF = false -> HASUB fp = false ->
  exists fp1 fps1 w1, __srefill_r read write seek is_sseek malloc free fstat isatty fp fps n w =
      refill_fill read fp1 fps1 n w1 /\
    remaining (_file fp) (w_io w1) = remaining (_file fp) (w_io w) /\ walked fps w fps1 w1.
Proof.
  intros Hn Hrd Ht He Hub. set (fp1 := set_r 0 (ORIENT fp)).
  assert (Ha : ialike (set_r 0 fp) fp1) by apply ialike_set_r, ialike_ORIENT.
  apply (ialike_reading _ _ _ _ _ Ha) in Hrd. pose proof (ialike_kept _ _ Ha) as Hk.
  destruct Hrd as [Hm (l1 & l2 & Hd & _) Ho]. pose proof (rdata_base_pos _ _ _ _ Hm Hd) as [Hb _].
  assert (Heof1 : flag fp1 __SEOF = false) by (rewrite (ialike_flag _ _ _ Ha); [done|in_flags]).
  assert (Hub1 : HASUB fp1 = false) by (unfold HASUB in *; by rewrite (ia_ub _ _ Ha)).
  assert (Ht1 : terminal fp1) by (unfold terminal in *; by rewrite (kept_slbf _ _ Hk), (kept_snbf _ _ Hk)).
  assert (Hwalk : wp n (refill_walk write seek free fp1 fps) w (fun '(fp2, fps1) w1 => fp2 = fp1 /\
    remaining (_file fp1) (w_io w1) = remaining (_file fp1) (w_io w) /\ walked fps w fps1 w1)).
  { apply wp_refill_walk; [done..|apply Hd|done|]. intros fps1 w1 _ _ Hr _ Hwk. split_and!; [done..|by apply Hwk]. }
  apply wp_exists in Hwalk as ([fp2 fps1] & w1 & E & -> & Hr & Hwk). exists fp1, fps1, w1.
  split_and!; [|by rewrite (ia_file _ _ Ha) in Hr|done].
  unfold __srefill_r. fold fp1. unfold refill_switch. rewrite Heof1, (rd_open _ _ _ _ Hd), Hub1. cbn [negb].
  unfold fall, refill_read, mbind, C_bind, mret, C_ret. cbv beta iota.
  rewrite (proj2 (Z.eqb_neq _ _)) by lia. by rewrite E.
Qed.

(** C9: C: before an unbuffered or line buffered stream, such as a terminal, is read, the
    line buffered output streams are flushed: at the point ([w1]) where the system is
    asked for input, none of it taken yet, what a program wrote, its prompt, is in the
    files (or their streams have an error); and it is there when the input was read,
    and nothing of the input is lost. *)
Theorem terminal_input_flushes n fp fps w s :
  enough n fps -> reading (set_r 0 fp) fps w s -> flag fp __SLBF || flag fp __SNBF = true ->
  flag fp __SEOF = false -> HASUB fp = false -> NoDup (_file <$> fps) ->
  exists fp1 fps1 w1 r fp' fps' w',
    __srefill_r read write seek is_sseek malloc free fstat isatty fp fps n w = refill_fill read fp1 fps1 n w1 /\
    remaining (_file fp) (w_io w1) = remaining (_file fp) (w_io w) /\
    Forall2 (fun g g' => forall pend, line_output g -> writing g (w_mem w) pend ->
      written_to (_file g) (w_io w1) = written_to (_file g) (w_io w) ++ pend \/ flag g' __SERR = true) fps fps1 /\
    refill_fill read fp1 fps1 n w1 = Done (r, fp', fps') w' /\ reading fp' fps' w' s /\
    Forall2 (fun g g' => forall pend, line_output g -> writing g (w_mem w) pend ->
      written_to (_file g) (w_io w') = written_to (_file g) (w_io w) ++ pend \/ flag g' __SERR = true) fps fps'.
Proof.
  intros Hn Hrd Ht He Hub Hnd.
  destruct (refill_in_order n fp fps w s) as (fp1 & fps1 & w1 & E1 & Hr & Hwk); [done..|].
  assert (H : wp n (__srefill_r read write seek is_sseek malloc free fstat isatty fp fps) w (fun '(r, fp', fps') w' =>
    reading fp' fps' w' s /\ Forall2 (fun g g' => sent g w g' w') fps fps')).
  { eapply wp_refill; [done..|]. intros r fp' fps' w' _ Hrd' _ _ Hs. split; [done|]. by apply Hs. }
  apply wp_exists in H as ([ [r fp'] fps'] & w' & E & Hrd' & Hs). exists fp1, fps1, w1, r, fp', fps', w'.
  split_and!; [done|done|by apply (wk_sent _ _ _ _ Hwk)|by rewrite <-E1|done..].
Qed.
End theorems.

(** ** The exit of a program *)

Section exit.
Context {read} {R : reader read} {write} {W : writer write} {CH : channel}.
Context {malloc free} {A : allocator malloc free}.
Context (seek : option (Z -> Z -> F Z)) (close : option (FILE -> C Z)) (Hclose : closes close).
Implicit Types (n : nat) (B : gmap Z Z) (w : world) (g : FILE) (fps : list FILE) (pend : list Z).

End exit.

(** ** Concrete files *)

(** Files from which a call reads at most three bytes. *)
Definition disk_read (fd p n : Z) : C Z := fun _ w =>
  let old := default [] (w_io w !! fd) in
  let k := Z.to_nat (Z.min n 3) in
  let l := u8 <$> take k old in
  Done (zlen l) (World (store_bytes p l (w_mem w)) (w_reent w) (w_tz w) (<[fd := drop k old]> (w_io w))).

#[export] Instance disk_source : source disk_read.
Proof.
  refine {| unread fd i := u8 <$> default [] (i !! fd); source_fuel := 0 |}.
  intros n fd p k w Q _ Hm Hk Hp He H0 Hl. apply wp_exists. unfold disk_read.
  set (old := default [] (w_io w !! fd)). set (j := Z.to_nat (Z.min k 3)). do 2 eexists. split; [done|].
  assert (Hj : (1 <= j)%nat) by lia. destruct old as [|b old'] eqn:E.
  - rewrite take_nil, drop_nil. apply H0; cbn; [done| |]; [by fold old; rewrite E|by rewrite lookup_insert_eq].
  - rewrite <-E. apply Hl.
    + rewrite E. by destruct j; [lia|].
    + rewrite length_fmap, length_take. lia.
    + apply Forall_fmap, Forall_true. intros x. apply u8_range.
    + done.
    + fold old. cbn. rewrite lookup_insert_eq. cbn. by rewrite <-fmap_app, take_drop.
Defined.

Abbreviation in_read := (__sread disk_read).
Abbreviation in_reader := (__sread_reader disk_source).

#[export] Instance disk_channel : channel (R := in_reader) (W := out_writer).
Proof.
  split.
  - intros n w p k fp r fp' w' E. unfold __swrite, disk_lseek, disk_write, mbind, C_bind, mret, C_ret in E.
    assert (Hw : forall fd i, fd <> _file fp -> elsewhere (R := in_reader) (W := out_writer) fd w (set_io (<[_file fp := i]> (w_io w)) w)).
    { intros fd i Hfd. split; cbn; by rewrite lookup_insert_ne. }
    destruct (flag fp __SAPP); cbv beta iota zeta in E; cbn [_file clear_flag set_flags] in E;
      (destruct (_ <=? 0); [injection E as <- <- <-; by split|]; destruct (peek _ _ _); [|discriminate];
       injection E as <- <- <-; split; [done|]; intros fd Hfd; by apply Hw).
  - intros n w p k fp r fp' w' E fd Hfd. unfold __sread, disk_read, mbind, C_bind, mret, C_ret in E.
    destruct (0 <=? _); injection E as <- <- <-; cbn; by rewrite lookup_insert_ne.
Qed.

(** A terminal of descriptor 0 with a buffer of 8 bytes at 1000 that holds "he" of
    "hello" and another line; the small buffer is at 1012.  A line buffered stream of
    descriptor 1 has a prompt in its buffer at 1040. *)
Definition in_mem : mem :=
  store_bytes 1040 [63; 32] (store_bytes 1000 [104; 101] (blank 1000 64)).
Definition in_world : world := World in_mem reent0 tz0 {[0 := [108; 108; 111; 10; 119; 111]]}.
Definition in_text : list Z := [104; 101; 108; 108; 111; 10; 119; 111].
Definition in_file (p r flags : Z) : FILE :=
  File p r 0 flags 0 (Sbuf 1000 8) 0 (Sbuf 0 0) 0 0 1012 1020 0 0 0.
Definition keyboard : FILE := in_file 1000 2 (Z.lor __SRD __SLBF).
Definition prompt : FILE :=
  File 1042 0 (-2) (Z.lor __SWR __SLBF) 1 (Sbuf 1040 8) (-8) (Sbuf 0 0) 0 0 1056 1060 0 0 0.

Lemma prompt_writing : writing prompt in_mem [63; 32].
Proof. split; [split|..]; try done; decided. Qed.

Lemma in_reading p r flags l : flags = __SRD \/ flags = Z.lor __SRD __SLBF ->
  (p = 1000 /\ r = 2 /\ l = in_text) \/ (p = 1002 /\ r = 0 /\ l = drop 2 in_text) ->
  reading (R := in_reader) (in_file p r flags) [prompt] in_world l.
Proof.
  intros Hf Hp. split; [decided| |].
  - destruct Hp as [(-> & -> & ->)|(-> & -> & ->)]; [exists [104; 101], []|exists [], []].
    + split_and!; [|done|by destruct Hf as [ -> | -> ] ]. split; try (by destruct Hf as [ -> | -> ]); decided.
    + split_and!; [|done|by destruct Hf as [ -> | -> ] ]. split; try (by destruct Hf as [ -> | -> ]); decided.
  - constructor; [|done]. intros _. split; [done|]. split; [exists [63; 32]; apply prompt_writing|].
    intros a Ha Hown. unfold own in Hown. cbn in Ha, Hown. unfold sizeof_ubuf in Hown. lia.
Qed.

Lemma in_enough n : (8 < n)%nat -> enough (R := in_reader) (W := out_writer) n [prompt].
Proof. intros Hn. split; [apply le_0_n|]. split; [apply le_0_n|]. constructor; [|done]. intros _. cbn. lia. Qed.

Lemma in_dest p r flags k : 0 <= k <= 8 -> dest (in_file p r flags) [prompt] in_mem 1024 k.
Proof.
  intros Hk. split.
  - eapply mapped_sub; [by assert (mapped in_mem 1024 8) by decided; eassumption|lia..].
  - intros a Ha [Hown|(g & Hg & _ & Hag)].
    + unfold own in Hown. cbn in Hown. unfold sizeof_ubuf in Hown. lia.
    + apply list_elem_of_singleton in Hg as ->. cbn in Hag. lia.
Qed.

Lemma getc_correct_witness :
  exists c fp' fps' w', _getc_r in_read out_write None false no_malloc no_free tty_fstat tty_isatty
      (in_file 1002 0 (Z.lor __SRD __SLBF)) [prompt] 100%nat in_world = Done (c, fp', fps') w' /\
    istep (in_file 1002 0 (Z.lor __SRD __SLBF)) [prompt] in_world fp' fps' w' /\
    ((exists s', drop 2 in_text = c :: s' /\ is_byte c /\ reading (R := in_reader) fp' fps' w' s') \/
     (c = EOF /\ reading (R := in_reader) fp' fps' w' (drop 2 in_text) /\ over (drop 2 in_text) fp')).
Proof.
  apply (getc_correct (R := in_reader) (W := out_writer) None false no_malloc no_free tty_fstat tty_isatty
    100%nat (in_file 1002 0 (Z.lor __SRD __SLBF)) [prompt] in_world (drop 2 in_text));
    [apply in_enough; lia|apply in_reading; auto].
Defined.

Lemma getc_drains_witness :
  exists l fp' fps' w', drain (read := in_read) (write := out_write) None false no_malloc no_free tty_fstat tty_isatty
      ([], keyboard, [prompt]) 100%nat in_world = Done (l, fp', fps') w' /\
    exists s', in_text = l ++ s' /\ reading (R := in_reader) fp' fps' w' s' /\
      ((s' = [] /\ flag fp' __SEOF = true) \/ flag fp' __SERR = true).
Proof.
  apply (getc_drains (R := in_reader) (W := out_writer) None false no_malloc no_free tty_fstat tty_isatty
    100%nat keyboard [prompt] in_world in_text);
    [apply in_enough; lia|cbn; lia|apply in_reading; auto].
Defined.

(** The [e] that was just read, and two others. *)
Lemma ungetc_getc_witness :
  exists fp1 w1 fp2, push_back (write := out_write) None no_malloc no_free (cfg := speed) no_realloc [101; 88; 89]
      (in_file 1002 0 __SRD) 100%nat in_world = Done ([101; 88; 89], fp1) w1 /\ flag fp1 __SEOF = false /\
    reading (R := in_reader) fp1 [prompt] w1 (reverse [101; 88; 89] ++ drop 2 in_text) /\
    reread (read := in_read) (write := out_write) None false no_malloc no_free tty_fstat tty_isatty
      3 fp1 [prompt] 100%nat w1 = Done (reverse [101; 88; 89], fp2, [prompt]) w1 /\
    reading (R := in_reader) fp2 [prompt] w1 (drop 2 in_text) /\
    istep (in_file 1002 0 __SRD) [prompt] in_world fp2 [prompt] w1.
Proof.
  apply (ungetc_getc (R := in_reader) (write := out_write) None false no_malloc no_free tty_fstat tty_isatty
    (cfg := speed) no_realloc 100%nat [101; 88; 89] (in_file 1002 0 __SRD) [prompt] in_world (drop 2 in_text));
    [done|by repeat constructor|apply in_reading; auto|done].
Defined.

Lemma fread_correct_witness :
  exists r fp' fps' w' j, _fread_r (H := speed) in_read out_write None false no_malloc no_free tty_fstat tty_isatty
      1024 3 2 keyboard [prompt] 100%nat in_world = Done (r, fp', fps') w' /\
    0 <= j <= 2 * 3 /\ bytes (w_mem w') 1024 (take (Z.to_nat j) in_text) /\ j <= zlen in_text /\
    reading (R := in_reader) fp' fps' w' (drop (Z.to_nat j) in_text) /\
    (forall a, ~ own keyboard a -> ~ (1024 <= a < 1024 + 2 * 3) -> w_mem w' !! a = w_mem in_world !! a) /\
    ((j = 2 * 3 /\ r = if 2 * 3 =? 0 then 0 else 2) \/
     (j < 2 * 3 /\ r = j / 3 /\ over (drop (Z.to_nat j) in_text) fp')).
Proof.
  apply (fread_correct (R := in_reader) (W := out_writer) None false no_malloc no_free tty_fstat tty_isatty
    (cfg := speed) 100%nat 1024 3 2 keyboard [prompt] in_world in_text);
    [apply in_enough; lia|lia|apply in_reading; auto|lia|lia|apply in_dest; lia|done].
Defined.

Lemma fgets_correct_witness :
  exists r fp' fps' w' j, _fgets_r (H := speed) in_read out_write None false no_malloc no_free tty_fstat tty_isatty
      1024 8 keyboard [prompt] 100%nat in_world = Done (r, fp', fps') w' /\
    0 <= j < 8 /\ j <= zlen in_text /\ reading (R := in_reader) fp' fps' w' (drop (Z.to_nat j) in_text) /\
    (forall a, ~ own keyboard a -> ~ (1024 <= a < 1024 + 8) -> w_mem w' !! a = w_mem in_world !! a) /\
    ((r = 1024 /\ 0 < j /\ bytes (w_mem w') 1024 (take (Z.to_nat j) in_text ++ [0]) /\
      (10 ∉ take (Z.to_nat (j - 1)) in_text) /\
      (j = 8 - 1 \/ in_text !! Z.to_nat (j - 1) = Some 10 \/ over (drop (Z.to_nat j) in_text) fp')) \/
     (r = 0 /\ j = 0 /\ over in_text fp')).
Proof.
  apply (fgets_correct (R := in_reader) (W := out_writer) None false no_malloc no_free tty_fstat tty_isatty
    (cfg := speed) 100%nat 1024 8 keyboard [prompt] in_world in_text);
    [apply in_enough; lia|lia|apply in_reading; auto|lia|apply in_dest; lia].
Defined.

Lemma terminal_input_flushes_witness :
  let fp := in_file 1002 0 (Z.lor __SRD __SLBF) in
  exists fp1 fps1 w1 r fp' fps' w',
    __srefill_r in_read out_write None false no_malloc no_free tty_fstat tty_isatty fp [prompt] 100%nat in_world =
      refill_fill in_read fp1 fps1 100%nat w1 /\
    remaining (reader := in_reader) (_file fp) (w_io w1) = remaining (reader := in_reader) (_file fp) (w_io in_world) /\
    Forall2 (fun g g' => forall pend, line_output g -> writing g (w_mem in_world) pend ->
      written_to (writer := out_writer) (_file g) (w_io w1) =
        written_to (writer := out_writer) (_file g) (w_io in_world) ++ pend \/ flag g' __SERR = true) [prompt] fps1 /\
    refill_fill in_read fp1 fps1 100%nat w1 = Done (r, fp', fps') w' /\
    reading (R := in_reader) fp' fps' w' (drop 2 in_text) /\
    Forall2 (fun g g' => forall pend, line_output g -> writing g (w_mem in_world) pend ->
      written_to (writer := out_writer) (_file g) (w_io w') =
        written_to (writer := out_writer) (_file g) (w_io in_world) ++ pend \/ flag g' __SERR = true) [prompt] fps'.
Proof.
  apply (terminal_input_flushes (R := in_reader) (W := out_writer) None false no_malloc no_free tty_fstat tty_isatty
    100%nat (in_file 1002 0 (Z.lor __SRD __SLBF)) [prompt] in_world (drop 2 in_text));
    [apply in_enough; lia|by apply in_reading; auto|done|done|done|apply NoDup_singleton].
Defined.




