(* ===== verification/IconvTheorems.v ===== *)
(** * Theorems of iconv/

    The converter of UTF-8 in both directions, and the conversion loop between
    any two of the built-in encodings. *)

From S2P Require Import Prelude CMonad Words Memory StrScan MemCopy Iconv Utf8 IconvSpec IconvText Concrete.

(** ** UTF-8 *)

(** C36: The UTF-8 reader takes a character exactly when the input begins with the
    encoding of one: no overlong form, surrogate or other variant is taken. *)
Theorem utf_8_reader_strict n data p l w :
  mem_ok (w_mem w) -> bytes (w_mem w) p l -> l <> [] ->
  exists d, utf_8_convert_to_ucs data p (zlen l) n w = Done (to_result p l d) w /\
    forall c k, d = DChar c k <->
      0 <= c /\ (k <= length l)%nat /\ utf8_encode c = Some (take k l).
Proof.
  intros Hm Hl Hne. exists (utf8_decode l). split.
  { apply wp_run. intros Q HQ. by apply wp_utf_8_convert_to_ucs. }
  intros c k. assert (Hb := mem_ok_bytes _ _ _ Hm Hl). split.
  - intros H. apply utf8_encode_decode in H as (He & Hk & Hc); [|done]. split_and!; [done|lia|done].
  - intros (Hc & Hk & He). rewrite <-(take_drop k l). rewrite (utf8_decode_encode c _ _ Hc He).
    by rewrite length_take, Nat.min_l.
Qed.

(** C37: The UTF-8 writer writes the encoding of a character that has one and fits,
    and the reader gives the character back. *)
Theorem utf_8_round_trip n data c p left o w :
  mem_ok (w_mem w) -> mapped (w_mem w) p left -> 0 <= c -> zlen o <= left < 4294967296 ->
  utf8_encode c = Some o ->
  let w' := written p o w in
  utf_8_convert_from_ucs data c p left n w = Done (zlen o, p + zlen o, left - zlen o) w' /\
  utf_8_convert_to_ucs data p (zlen o) n w' = Done (c, p + zlen o, 0) w'.
Proof.
  intros Hm Hp Hc Hleft He w'. assert (Hlt : c < 2147483648).
  { unfold utf8_encode in He. destruct (ucs_valid c) eqn:E; [|done]. by apply ucs_valid_range. }
  destruct (@encode_bytes _ utf_8_encoder tt c o tt) as [Hlen Hb];
    [cbn; by rewrite He|].
  split; apply wp_run; intros Q HQ.
  - apply wp_utf_8_convert_from_ucs; [done|lia|lia|]. rewrite He.
    by rewrite (proj2 (Z.ltb_ge left _)) by lia.
  - apply (wp_utf_8_convert_to_ucs n data p o).
    + apply mem_ok_store; [done|eapply mapped_sub; [exact Hp|lia..]|apply Hb; lia].
    + apply bytes_store_same.
    + intros E. rewrite E in Hlen. cbn in Hlen. lia.
    + rewrite <-(app_nil_r o), (utf8_decode_encode c o [] Hc He), app_nil_r.
      cbn [to_result]. by rewrite Z.sub_diag.
Qed.

(** ** The conversion loop *)

Section theorems.
Context {to_conv} {TO : decoder to_conv} {from_conv} {FROM : encoder from_conv}.
Implicit Types (l o cs : list Z) (left : Z).


(** C19: A call that fails on characters without an encoding (ICONV_FAIL_BIT, and not
    ICONV_DONT_SAVE_BIT, which discards the output) converts whole characters [cs] and
    writes exactly their text, whatever the input; it stops at the end of the input,
    where the space ends, at the beginning of a character, at an invalid sequence or at
    a character without an encoding, with the error number of each.  The rest of the
    input is left, except that a character without an encoding, for which nothing is
    written, is taken too (the [j] bytes; see the finding on ucsconv.c). *)
Theorem conversion_stops n flags outbuf1 d1 d2 s t p l q left w :
  Z.land flags ICONV_DONT_SAVE_BIT = 0 -> Z.land flags ICONV_FAIL_BIT <> 0 ->
  converting w d1 s d2 t p l q left -> (length l < n)%nat ->
  exists r cs s' rest j,
    ucs_based_conversion_convert (UcsConversion (ToUcs to_conv) d1 (FromUcs from_conv) d2)
      p (zlen l) q left flags outbuf1 n w =
    Done (conversion_result p l q left r) (conversion_end w d1 d2 q r) /\
    reads s l cs s' rest /\ encode_text t cs = Some (cv_out r, cv_from r) /\
    stop_reason s' (cv_from r) rest (left - zlen (cv_out r)) j (cv_err r) /\
    drop (cv_used r) l = drop j rest /\ (cv_used r <= length l)%nat /\ cv_res r = 0.
Proof.
  intros Hs Hf HC Hn. pose proof (mem_ok_bytes _ _ _ (cvt_ok _ _ _ _ _ _ _ _ _ HC) (cvt_in _ _ _ _ _ _ _ _ _ HC)).
  destruct (transcode_stops (length l) s t l left 0) as (cs & s' & rest & j & H'); [done..|].
  eexists _, cs, s', rest, j. split; [|exact H'].
  replace true with (negb (Z.land flags ICONV_FAIL_BIT =? 0)) by (by rewrite (proj2 (Z.eqb_neq _ 0))).
  apply wp_run. intros Q HQ. apply wp_loop_k. by eapply (wp_transcode (length l)).
Qed.
End theorems.

(** The text of characters that both encodings have is converted to their text
    in the target encoding, without substitutions, whatever the flags. *)
Theorem conversion_of_text {to_conv} {TO : decoder to_conv} {from1} {FROM1 : encoder from1}
    {K : codec to_conv from1} {from_conv} {FROM : encoder from_conv}
    n flags outbuf1 d1 d2 (s : dec_state) t1 t cs l t1' o t' p q left w :
  Z.land flags ICONV_DONT_SAVE_BIT = 0 -> Forall (fun c => 0 <= c) cs ->
  follows s t1 -> encode_text t1 cs = Some (l, t1') -> encode_text t cs = Some (o, t') ->
  converting w d1 s d2 t p l q left -> zlen o <= left -> (length l < n)%nat ->
  exists s', follows s' t1' /\
    ucs_based_conversion_convert (UcsConversion (ToUcs to_conv) d1 (FromUcs from_conv) d2)
      p (zlen l) q left flags outbuf1 n w =
    Done (0, (p + zlen l, 0, q + zlen o, left - zlen o))
      (written d1 (dec_data s') (written d2 (enc_data t') (written q o w))).
Proof.
  intros Hs Hcs Hf Hl Ho HC Hleft Hn.
  assert (Hb := mem_ok_bytes _ _ _ (cvt_ok _ _ _ _ _ _ _ _ _ HC) (cvt_in _ _ _ _ _ _ _ _ _ HC)).
  destruct (reads_text s t1 cs l t1' [] Hcs Hf Hl) as (s' & Hr & Hf'). rewrite app_nil_r in Hr.
  exists s'. split; [done|]. apply wp_run. intros Q HQ. apply wp_loop_k.
  eapply (wp_transcode (length l)); [done..|].
  erewrite reads_transcode by done. unfold conversion_result.
  cbn [cv_err cv_res cv_used cv_out]. by rewrite Z.sub_diag.
Qed.

(** ** Witnesses *)

#[global] Instance converting_dec {to_conv} {TO : decoder to_conv} {from_conv}
    {FROM : encoder from_conv} w d1 (s : dec_state) d2 (t : enc_state) p l q left :
  Decision (converting w d1 s d2 t p l q left).
Proof.
  destruct (decide (mem_ok (w_mem w) /\ bytes (w_mem w) d1 (dec_data s) /\
    bytes (w_mem w) d2 (enc_data t) /\ bytes (w_mem w) p l /\ mapped (w_mem w) q left /\
    (0 <= left < 4294967296) /\
    disjoint_ranges d1 (Z.of_nat dec_size) d2 (Z.of_nat enc_size) /\
    disjoint_ranges d1 (Z.of_nat dec_size) p (zlen l) /\
    disjoint_ranges d1 (Z.of_nat dec_size) q left /\
    disjoint_ranges d2 (Z.of_nat enc_size) p (zlen l) /\
    disjoint_ranges d2 (Z.of_nat enc_size) q left /\
    disjoint_ranges p (zlen l) q left)) as [H|H]; [left|right].
  - destruct_and!. by split.
  - intros []. apply H. split_and!; first [done|lia].
Defined.

(** "a", the euro sign, U+1F600 *)
Definition sample : list Z := [0x61; 0x20AC; 0x1F600].
Definition sample_utf_8 : list Z := [0x61; 0xE2; 0x82; 0xAC; 0xF0; 0x9F; 0x98; 0x80].
Definition sample_utf_16 : list Z := [0xFF; 0xFE; 0x61; 0x00; 0xAC; 0x20; 0x3D; 0xD8; 0x00; 0xDE].

(** The texts at 1000, data of converters at 900 and 904, 16 bytes of output at 1100. *)
Definition iconv_w (data l : list Z) : world :=
  world_of (store_bytes 904 data (store_bytes 1000 l (blank 900 300))).

Lemma utf_8_reader_strict_witness :
  let w := iconv_w [] sample_utf_8 in
  exists d, utf_8_convert_to_ucs 0 1001 7 1%nat w = Done (to_result 1001 (drop 1 sample_utf_8) d) w /\
    forall c k, d = DChar c k <->
      0 <= c /\ (k <= 7)%nat /\ utf8_encode c = Some (take k (drop 1 sample_utf_8)).
Proof.
  apply (utf_8_reader_strict 1 0 1001 (drop 1 sample_utf_8) (iconv_w [] sample_utf_8)); [decided..|done].
Defined.

Lemma utf_8_round_trip_witness :
  let w := iconv_w [] [] in
  let w' := written 1100 [0xE2; 0x82; 0xAC] w in
  utf_8_convert_from_ucs 0 0x20AC 1100 5 1%nat w = Done (3, 1103, 2) w' /\
  utf_8_convert_to_ucs 0 1100 3 1%nat w' = Done (0x20AC, 1103, 0) w'.
Proof.
  apply (utf_8_round_trip 1 0 0x20AC 1100 5 [0xE2; 0x82; 0xAC] (iconv_w [] []));
    [decided|decided|lia|cbn; lia|reflexivity].
Defined.


(** A truncated character after "a" and the euro sign. *)
Lemma conversion_stops_witness :
  let w := iconv_w (le_bytes 4) (take 6 sample_utf_8) in
  exists r cs s' rest j,
    ucs_based_conversion_convert (UcsConversion to_ucs_utf_8 0 from_ucs_utf_16 904)
      1000 6 1100 16 2 0 100%nat w =
    Done (conversion_result 1000 (take 6 sample_utf_8) 1100 16 r) 
    (conversion_end (TO := utf_8_decoder) (FROM := utf_16_encoder) w 0 904 1100 r) /\
    reads (TO := utf_8_decoder) tt (take 6 sample_utf_8) cs s' rest /\
    encode_text (FROM := utf_16_encoder) System cs = Some (cv_out r, cv_from r) /\
    stop_reason (TO := utf_8_decoder) (FROM := utf_16_encoder) s' (cv_from r) rest
      (16 - zlen (cv_out r)) j (cv_err r) /\
    drop (cv_used r) (take 6 sample_utf_8) = drop j rest /\ (cv_used r <= 6)%nat /\ cv_res r = 0.
Proof.
  apply (conversion_stops (TO := utf_8_decoder) (FROM := utf_16_encoder) 100 2 0 0 904 tt System
    1000 (take 6 sample_utf_8) 1100 16
    (iconv_w (le_bytes 4) (take 6 sample_utf_8))); [reflexivity|done|decided|cbn; lia].
Defined.

Lemma conversion_of_text_witness :
  let w := iconv_w (le_bytes 4) sample_utf_8 in
  exists s' : unit, s' = tt /\
    ucs_based_conversion_convert (UcsConversion to_ucs_utf_8 0 from_ucs_utf_16 904)
      1000 8 1100 16 0 0 100%nat w =
    Done (0, (1008, 0, 1110, 6))
      (written 0 [] (written 904 (le_bytes 12) (written 1100 sample_utf_16 w))).
Proof.
  apply (conversion_of_text (K := utf_8_codec) (FROM := utf_16_encoder) 100 0 0 0 904 tt tt System
    sample sample_utf_8 tt sample_utf_16 SystemWritten 1000 1100 16
    (iconv_w (le_bytes 4) sample_utf_8));
    [reflexivity|repeat constructor; vm_compute; discriminate|reflexivity|vm_compute; reflexivity|
     vm_compute; reflexivity|decided|vm_compute; discriminate|cbn; lia].
Defined.
