(* ===== verification/StringTheorems.v ===== *)
(** * Theorems of string/

    The correctness theorems of the string functions, for both configurations
    of the build: each function, run with a loop budget above the size of its
    data, returns the value and leaves the memory its documentation promises. *)

From S2P Require Import Prelude CMonad Words Memory StrScan StrCmp MemCopy StrCopy StrTok Ctype Concrete.

Lemma span_nonnull s :
  Forall (fun b => 0 < b < 256) s ->
  span_len (fun b => negb (b =? 0)) (s ++ [0]) = length s.
Proof.
  induction 1 as [|b s Hb _ IH]; [done|]. simpl.
  rewrite (proj2 (Z.eqb_neq b 0)) by lia. simpl. by rewrite IH.
Qed.

Lemma swapped_length l : length (swapped l) = length l.
Proof.
  enough (length (swapped l) = length l /\ forall x, length (swapped (x :: l)) = S (length l))
    by tauto.
  induction l as [|y l [IH1 IH2]]; [done|]. split; [apply IH2|].
  intros x. cbn [swapped length]. by rewrite IH1.
Qed.

Lemma swapped_swapped l : Nat.even (length l) = true -> swapped (swapped l) = l.
Proof.
  enough ((Nat.even (length l) = true -> swapped (swapped l) = l) /\
    forall x, Nat.even (S (length l)) = true -> swapped (swapped (x :: l)) = x :: l) by tauto.
  induction l as [|y l [IH1 IH2]]; [done|]. split; [apply IH2|].
  intros x He. cbn [swapped]. rewrite IH1; [done|exact He].
Qed.

Lemma swapped_bytes l :
  Forall (fun b => is_byte b) l -> Forall (fun b => is_byte b) (swapped l).
Proof.
  enough ((Forall (fun b => is_byte b) l -> Forall (fun b => is_byte b) (swapped l)) /\
    forall x, Forall (fun b => is_byte b) (x :: l) -> Forall (fun b => is_byte b) (swapped (x :: l)))
    by tauto.
  induction l as [|y l [IH1 IH2]].
  - split; [done|]. intros x _. repeat constructor; lia.
  - split; [apply IH2|]. intros x. rewrite !Forall_cons. cbn [swapped].
    rewrite !Forall_cons. intuition.
Qed.

Lemma copying_swapped w p l : copying w p p l -> copying (written p (swapped l) w) p p (swapped l).
Proof.
  intros [Hm Hs Hd Hf]. assert (Hl := swapped_length l).
  assert (Hb : Forall (fun b => is_byte b) (swapped l)).
  { apply swapped_bytes, (mem_ok_bytes _ _ _ Hm Hs). }
  split; cbn [written set_mem w_mem].
  - by apply mem_ok_store; rewrite ?Hl.
  - apply bytes_store_same.
  - rewrite Hl. by apply mapped_store.
  - by rewrite Hl.
Qed.

Section theorems.
Context {cfg : build}.
Implicit Types (n : nat) (w : world).

(** C33: the word test of the string functions is exact: DETECTNULL of a
    32-bit word is zero if and only if none of its four bytes is null (a borrow
    never makes it report a null that is not there). *)
Theorem DETECTNULL_exact x :
  0 <= x < 4294967296 ->
  (DETECTNULL x = 0 <->
   byte_of 0 x <> 0 /\ byte_of 1 x <> 0 /\ byte_of 2 x <> 0 /\ byte_of 3 x <> 0).
Proof.
  intros Hx. rewrite <-(le32_byte_of x Hx) at 1.
  apply DETECTNULL_spec; apply byte_of_range.
Qed.

(** C23: memmove copies the [len] bytes at [src] to [dst] and returns [dst],
    whatever the overlap of the two ranges, in both copy directions. *)
Theorem memmove_correct n dst src l w :
  mem_ok (w_mem w) -> bytes (w_mem w) src l -> mapped (w_mem w) dst (zlen l) ->
  (length l < n)%nat ->
  memmove dst src (zlen l) n w = Done dst (written dst l w).
Proof. intros. by_wp wp_memmove. Qed.

(** memcpy and mempcpy copy [len] bytes forward: the target may overlap
    the source when it starts below it; memcpy returns the target, mempcpy
    the address after the last byte written. *)
Theorem memcpy_correct n dst src l w :
  copying w dst src l -> (length l < n)%nat ->
  memcpy dst src (zlen l) n w = Done dst (written dst l w) /\
  mempcpy dst src (zlen l) n w = Done (dst + zlen l) (written dst l w).
Proof. intros. split; [by_wp wp_memcpy|by_wp wp_mempcpy]. Qed.

(** strlen is the length of the string, and strnlen the minimum of the
    bound and the length, on a buffer that ends at the bound or has a null. *)
Theorem strlen_correct n p s len w :
  mem_ok (w_mem w) -> cstr (w_mem w) p s -> 0 <= len < 4294967296 ->
  (S (length s) < n)%nat ->
  strlen p n w = Done (zlen s) w /\ strnlen p len n w = Done (Z.min len (zlen s)) w.
Proof.
  intros Hm Hs Hlen Hn. split.
  - apply wp_run. intros Q HQ. apply (wp_strlen _ _ s); [done..|lia|done].
  - apply wp_run. intros Q HQ.
    apply (wp_strnlen _ _ (s ++ [0])); [done|by apply cstr_bytes|done|..].
    + right. set_solver.
    + rewrite length_app; cbn [length]. lia.
    + eqapply HQ. by erewrite span_nonnull by apply Hs.
Qed.

(** strchr (and index) returns the first occurrence of [(char) i] in the
    string, its terminating null included, or NULL. *)
Theorem strchr_correct n p s i w :
  mem_ok (w_mem w) -> cstr (w_mem w) p s -> (length s + 4 < n)%nat ->
  strchr p i n w = Done (find_ptr p (fun b => b =? u8 i) (s ++ [0])) w.
Proof. intros. by_wp wp_strchr. Qed.

(** strrchr (and rindex) returns the last occurrence of [(char) i] in the
    string or NULL, when [i] is 0 or its low byte is not. *)
Theorem strrchr_correct n p s i w :
  mem_ok (w_mem w) -> cstr (w_mem w) p s -> (length s + 4 < n)%nat ->
  i = 0 \/ u8 i <> 0 ->
  strrchr p i n w = Done (rfind_ptr 0 p (fun b => b =? u8 i) (s ++ [0])) w.
Proof. intros. by_wp wp_strrchr. Qed.

(** memchr returns the first occurrence of [(unsigned char) c] in the
    first [len] bytes, or NULL. *)
Theorem memchr_correct n p l c w :
  mem_ok (w_mem w) -> bytes (w_mem w) p l -> (length l + 1 < n)%nat ->
  memchr p c (zlen l) n w = Done (find_ptr p (fun b => b =? u8 c) l) w.
Proof. intros. by_wp wp_memchr. Qed.

(** strspn and strcspn return the length of the longest prefix of the
    first string inside and outside the set of the second one; strpbrk the
    first character inside the set, or NULL. *)
Theorem strspn_correct n p q s set w :
  mem_ok (w_mem w) -> cstr (w_mem w) p s -> cstr (w_mem w) q set ->
  (length s < n)%nat -> (length set < n)%nat ->
  strspn p q n w = Done (Z.of_nat (span_len (in_set set) s)) w /\
  strcspn p q n w = Done (Z.of_nat (span_len (fun x => negb (in_set set x)) s)) w /\
  strpbrk p q n w = Done (find_ptr p (in_set set) s) w.
Proof. intros. split_and!; [by_wp wp_strspn|by_wp wp_strcspn|by_wp wp_strpbrk]. Qed.

(** strcmp returns the difference of the first characters (as unsigned
    char) at which the null-terminated strings differ, and 0 exactly on
    equal strings. *)
Theorem strcmp_correct n p q s1 s2 w :
  mem_ok (w_mem w) -> cstr (w_mem w) p s1 -> cstr (w_mem w) q s2 -> (length s1 < n)%nat ->
  strcmp p q n w = Done (lex_diff (s1 ++ [0]) (s2 ++ [0])) w /\
  (lex_diff (s1 ++ [0]) (s2 ++ [0]) = 0 <-> s1 = s2).
Proof.
  intros Hm H1 H2 Hn. split; [by_wp wp_strcmp|].
  apply lex_diff_0; [apply H1|apply H2].
Qed.

(** strncmp makes the same comparison on at most [len] characters. *)
Theorem strncmp_correct n p q len s1 s2 w :
  mem_ok (w_mem w) -> cstr (w_mem w) p s1 -> cstr (w_mem w) q s2 ->
  (length s1 < n)%nat -> 0 <= len < 4294967296 ->
  strncmp p q len n w = Done (lex_diff_n len s1 s2) w.
Proof. intros. by_wp wp_strncmp. Qed.

(** memcmp (and bcmp) returns the difference of the first bytes at which
    the two ranges differ, or 0. *)
Theorem memcmp_correct n p q l1 l2 w :
  mem_ok (w_mem w) -> bytes (w_mem w) p l1 -> bytes (w_mem w) q l2 ->
  length l1 = length l2 -> (length l1 < n)%nat ->
  memcmp p q (zlen l1) n w = Done (lex_diff l1 l2) w.
Proof. intros. by_wp wp_memcmp. Qed.

(** strcpy copies the string with its null and returns the target;
    stpcpy returns the address of the copied null. *)
Theorem strcpy_correct n dst src s w :
  scopying w dst src s -> (length s < n)%nat ->
  strcpy dst src n w = Done dst (written dst (s ++ [0]) w) /\
  stpcpy dst src n w = Done (dst + zlen s) (written dst (s ++ [0]) w).
Proof. intros. split; [by_wp wp_strcpy|by_wp wp_stpcpy]. Qed.

(** strncpy writes exactly [k] bytes: the first [k] characters of the
    string, padded with nulls; stpncpy writes the same and returns the address after the
    last character copied. *)
Theorem strncpy_correct n dst src s k w :
  ncopying w dst src s k -> (k < n)%nat ->
  let w' := written dst (s ++ replicate (k - length s) 0) w in
  strncpy dst src (Z.of_nat k) n w = Done dst w' /\
  stpncpy dst src (Z.of_nat k) n w = Done (dst + zlen s) w'.
Proof. intros. split; [by_wp wp_strncpy|by_wp wp_stpncpy]. Qed.

(** strcat appends the second string, with its null, to the first. *)
Theorem strcat_correct n s1 s2 d s w :
  cstr (w_mem w) s1 d -> scopying w (s1 + zlen d) s2 s ->
  (length d < n)%nat -> (length s < n)%nat ->
  strcat s1 s2 n w = Done s1 (written (s1 + zlen d) (s ++ [0]) w).
Proof. intros. by_wp wp_strcat. Qed.

(** strncat appends at most [k] characters of the second string and then
    always a null. *)
Theorem strncat_correct n s1 s2 d s k w :
  cstr (w_mem w) s1 d -> acopying w (s1 + zlen d) s2 s k -> Z.of_nat k < 4294967296 ->
  (length d < n)%nat -> (S (length s) < n)%nat ->
  strncat s1 s2 (Z.of_nat k) n w = Done s1 (written (s1 + zlen d) (s ++ [0]) w).
Proof. intros. by_wp wp_strncat. Qed.

(** strlcpy writes at most [siz] bytes, always null-terminated unless
    [siz] is 0, and returns the length of the string it tried to create. *)
Theorem strlcpy_correct n dst src s siz w :
  lcopying w dst src s siz -> Z.of_nat siz < 4294967296 -> (length s < n)%nat ->
  strlcpy dst src (Z.of_nat siz) n w =
  Done (zlen s) (written dst (match siz with O => [] | S k => take k s ++ [0] end) w).
Proof. intros. by_wp wp_strlcpy. Qed.

(** C39: strlcat never writes beyond [siz] bytes of the target, terminates it
    when there is room, and returns the length of the string it tried to
    create (of a target without null inside [siz]: [siz] plus the length of
    the source). *)
Theorem strlcat_correct n dst src d s siz w :
  mem_ok (w_mem w) -> bytes (w_mem w) dst d -> Forall (fun b => 0 < b < 256) d ->
  (length d <= siz)%nat ->
  ((length d < siz)%nat -> w_mem w !! (dst + zlen d) = Some 0) ->
  lcopying w (dst + zlen d) src s (siz - length d) ->
  Z.of_nat siz < 1073741824 -> (length d < n)%nat -> (length s < n)%nat ->
  strlcat dst src (Z.of_nat siz) n w =
  Done (zlen d + zlen s)
    (written (dst + zlen d)
      (match (siz - length d)%nat with O => [] | S k => take k s ++ [0] end) w).
Proof. intros. by_wp wp_strlcat. Qed.

(** memset fills the range with [(unsigned char) c] and returns its
    start; bzero fills it with nulls. *)
Theorem memset_correct n dst c k w :
  mem_ok (w_mem w) -> mapped (w_mem w) dst (Z.of_nat k) -> (k < n)%nat ->
  memset dst c (Z.of_nat k) n w = Done dst (written dst (replicate k (u8 c)) w) /\
  bzero dst (Z.of_nat k) n w = Done tt (written dst (replicate k 0) w).
Proof. intros. split; [by_wp wp_memset|by_wp wp_bzero]. Qed.

(** memccpy copies up to and including the first occurrence of the byte
    and returns the address after it, or copies everything and returns NULL;
    in the word-copying build for a byte below 128. *)
Theorem memccpy_correct n dst src c l w :
  copying w dst src l -> PREFER_SIZE_OVER_SPEED = true \/ u8 c < 128 ->
  (length l < n)%nat -> (4 < n)%nat ->
  memccpy dst src c (zlen l) n w =
  Done (through_end dst (u8 c) l) (written dst (through (u8 c) l) w).
Proof. intros. by_wp wp_memccpy. Qed.

(** swab exchanges the bytes of each pair (a last odd byte becomes 0);
    applied twice, in place, it restores a range of even length. *)
Theorem swab_involutive n p l w :
  copying w p p l -> Nat.even (length l) = true -> (length l < n)%nat ->
  exists w', swab p p (zlen l) n w = Done tt w' /\ swab p p (zlen l) n w' = Done tt w.
Proof.
  intros Hc He Hn. exists (written p (swapped l) w). split; [by_wp wp_swab|].
  assert (Hl := swapped_length l).
  assert (Hc' : copying (written p (swapped l) w) p p (swapped l)).
  { by apply copying_swapped. }
  apply wp_run. intros Q HQ. rewrite <-Hl.
  apply wp_swab with (l := swapped l); [done|lia|].
  rewrite swapped_swapped by done. unfold written in *. cbn [set_mem w_mem] in *.
  rewrite set_mem_set_mem. rewrite store_bytes_over by done.
  rewrite store_bytes_id, set_mem_id; [done|]. apply Hc.
Qed.

(** strcasecmp and strncasecmp compare the strings with their ASCII
    letters in lower case. *)
Theorem strcasecmp_correct n p q len s1 s2 w :
  cstr (w_mem w) p s1 -> cstr (w_mem w) q s2 -> (length s1 < n)%nat ->
  0 <= len < 4294967296 ->
  strcasecmp p q n w = Done (lex_diff (map to_lower s1 ++ [0]) (map to_lower s2 ++ [0])) w /\
  strncasecmp p q len n w = Done (lex_diff_n len (map to_lower s1) (map to_lower s2)) w.
Proof. intros. split; [by_wp wp_strcasecmp|by_wp wp_strncasecmp]. Qed.

(** strlwr and strupr convert the ASCII letters of the string in place. *)
Theorem strlwr_correct n p s w :
  cstr (w_mem w) p s -> (length s < n)%nat ->
  strlwr p n w = Done p (written p (map to_lower s) w) /\
  strupr p n w = Done p (written p (map to_upper s) w).
Proof. intros. split; [by_wp wp_strlwr|by_wp wp_strupr]. Qed.

(** C38: The documented sequence of calls of strtok_r (first with the string, then
    with a null pointer, until null is returned) terminates and returns the
    tokens of the string, in order, each as a null-terminated string at its
    place; only the string and the placeholder are written. *)
Theorem strtok_tokens n k p s d D lasts w :
  scanning w p s d D lasts -> disjoint_ranges d (zlen D + 1) p (zlen s + 1) ->
  disjoint_ranges d (zlen D + 1) lasts 4 ->
  (length D < n)%nat -> (length s < n)%nat -> (length s + 1 < k)%nat ->
  exists ts w', strtok_all k p d lasts n w = Done ts w' /\
    Forall2 (cstr (w_mem w')) ts (tokens D [] s) /\ frame p (zlen s + 1) lasts w w'.
Proof.
  intros Hsc Hd1 Hd2 HnD Hns Hk.
  assert (H : wp n (strtok_all k p d lasts) w (fun ts w' =>
    Forall2 (cstr (w_mem w')) ts (tokens D [] s) /\ frame p (zlen s + 1) lasts w w')).
  { apply (wp_strtok_all n k p p s d D lasts); auto. by left. }
  apply wp_exists in H as (ts & w' & Hrun & Hts & Hf). eauto.
Qed.

(** strsep cuts the string at its first delimiter: it returns the string,
    ends the field there and moves the pointer behind the delimiter, or to null
    when none is left; an empty string gives null. *)
Theorem strsep_correct n p s d D source_ptr w :
  scanning w p s d D source_ptr -> bytes (w_mem w) source_ptr (le_bytes p) ->
  (length D < n)%nat -> (length s < n)%nat ->
  strsep source_ptr d n w =
    Done (strsep_spec p s D source_ptr w).1 (strsep_spec p s D source_ptr w).2.
Proof. intros. by_wp wp_strsep. Qed.
End theorems.

(** ** The theorems at concrete inputs *)

(** "hello" at 1000, "help" at 1021 and "el" at 1030, in 64 mapped bytes. *)
Definition hello : list Z := [104; 101; 108; 108; 111].
Definition help : list Z := [104; 101; 108; 112].
Definition el : list Z := [101; 108].
Definition sample_mem : mem :=
  store_bytes 1000 (hello ++ [0]) (store_bytes 1021 (help ++ [0])
    (store_bytes 1030 (el ++ [0]) (blank 996 64))).
Definition sample : world := world_of sample_mem.

Lemma DETECTNULL_exact_witness :
  DETECTNULL 0x01800101 = 0 <->
  byte_of 0 0x01800101 <> 0 /\ byte_of 1 0x01800101 <> 0 /\
  byte_of 2 0x01800101 <> 0 /\ byte_of 3 0x01800101 <> 0.
Proof. apply (DETECTNULL_exact 0x01800101); lia. Defined.

Lemma memmove_correct_witness :
  memmove (H := speed) 1001 1000 5 100%nat sample = Done 1001 (written 1001 hello sample).
Proof. apply (memmove_correct (cfg := speed) 100 1001 1000 hello); concrete. Defined.

Lemma memcpy_correct_witness :
  memcpy (H := speed) 1008 1000 5 100%nat sample = Done 1008 (written 1008 hello sample) /\
  mempcpy (H := speed) 1008 1000 5 100%nat sample = Done 1013 (written 1008 hello sample).
Proof. apply (memcpy_correct (cfg := speed) 100 1008 1000 hello); [split|]; concrete. Defined.

Lemma strlen_correct_witness :
  strlen (H := speed) 1001 100%nat sample = Done 4 sample /\
  strnlen 1001 3 100%nat sample = Done 3 sample.
Proof. apply (strlen_correct (cfg := speed) 100 1001 (drop 1 hello) 3); concrete. Defined.

Lemma strchr_correct_witness : strchr (H := speed) 1000 108 100%nat sample = Done 1002 sample.
Proof. apply (strchr_correct (cfg := speed) 100 1000 hello 108); concrete. Defined.

Lemma strrchr_correct_witness : strrchr (H := speed) 1000 108 100%nat sample = Done 1003 sample.
Proof.
  apply (strrchr_correct (cfg := speed) 100 1000 hello 108); [concrete..|].
  right. discriminate.
Defined.

Lemma memchr_correct_witness : memchr (H := speed) 1000 111 5 100%nat sample = Done 1004 sample.
Proof. apply (memchr_correct (cfg := speed) 100 1000 hello 111); concrete. Defined.

Lemma strspn_correct_witness :
  strspn 1000 1030 100%nat sample = Done 0 sample /\
  strcspn 1000 1030 100%nat sample = Done 1 sample /\
  strpbrk 1000 1030 100%nat sample = Done 1001 sample.
Proof. apply (strspn_correct 100 1000 1030 hello el); concrete. Defined.

Lemma strcmp_correct_witness :
  strcmp (H := speed) 1000 1021 100%nat sample = Done (-4) sample /\ (-4 = 0 <-> hello = help).
Proof. apply (strcmp_correct (cfg := speed) 100 1000 1021 hello help); concrete. Defined.

Lemma strncmp_correct_witness : strncmp (H := speed) 1000 1021 3 100%nat sample = Done 0 sample.
Proof. apply (strncmp_correct (cfg := speed) 100 1000 1021 3 hello help); concrete. Defined.

Lemma memcmp_correct_witness : memcmp (H := speed) 1000 1021 4 100%nat sample = Done (-4) sample.
Proof.
  apply (memcmp_correct (cfg := speed) 100 1000 1021 (take 4 hello) help); concrete.
Defined.

Lemma strcpy_correct_witness :
  strcpy (H := speed) 1040 1000 100%nat sample =
    Done 1040 (written 1040 (hello ++ [0]) sample) /\
  stpcpy (H := speed) 1040 1000 100%nat sample =
    Done 1045 (written 1040 (hello ++ [0]) sample).
Proof.
  apply (strcpy_correct (cfg := speed) 100 1040 1000 hello);
    [split; [split|]|]; concrete.
Defined.

Lemma strncpy_correct_witness :
  strncpy (H := speed) 1040 1000 8 100%nat sample =
    Done 1040 (written 1040 (hello ++ [0; 0; 0]) sample) /\
  stpncpy (H := speed) 1040 1000 8 100%nat sample =
    Done 1045 (written 1040 (hello ++ [0; 0; 0]) sample).
Proof.
  apply (strncpy_correct (cfg := speed) 100 1040 1000 hello 8); [split|]; concrete.
Defined.

Lemma strcat_correct_witness :
  strcat (H := speed) 1000 1030 100%nat sample =
  Done 1000 (written 1005 (el ++ [0]) sample).
Proof.
  apply (strcat_correct (cfg := speed) 100 1000 1030 hello el);
    [|split; [split|]|..]; concrete.
Defined.

Lemma strncat_correct_witness :
  strncat (H := speed) 1000 1021 3 100%nat sample =
  Done 1000 (written 1005 (take 3 help ++ [0]) sample).
Proof.
  apply (strncat_correct (cfg := speed) 100 1000 1021 hello (take 3 help) 3);
    [|split|..]; concrete.
Defined.

Lemma strlcpy_correct_witness :
  strlcpy 1040 1000 4 100%nat sample = Done 5 (written 1040 (take 3 hello ++ [0]) sample).
Proof. apply (strlcpy_correct 100 1040 1000 hello 4); [split|..]; concrete. Defined.

Lemma strlcat_correct_witness :
  strlcat (H := speed) 1000 1021 8 100%nat sample = Done 9 (written 1005 (take 2 help ++ [0]) sample).
Proof.
  apply (strlcat_correct (cfg := speed) 100 1000 1021 hello help 8);
    [| | | |intros _|split|..]; concrete.
Defined.

Lemma memset_correct_witness :
  memset (H := speed) 1001 300 30 100%nat sample =
    Done 1001 (written 1001 (replicate 30 44) sample) /\
  bzero 1001 30 100%nat sample = Done tt (written 1001 (replicate 30 0) sample).
Proof. apply (memset_correct (cfg := speed) 100 1001 300 30); concrete. Defined.

Lemma memccpy_correct_witness :
  memccpy (H := speed) 1040 1000 108 5 100%nat sample =
  Done 1043 (written 1040 (take 3 hello) sample).
Proof.
  apply (memccpy_correct (cfg := speed) 100 1040 1000 108 hello);
    [split|right|..]; concrete.
Defined.

Lemma swab_involutive_witness :
  exists w', swab 1021 1021 4 100%nat sample = Done tt w' /\
    swab 1021 1021 4 100%nat w' = Done tt sample.
Proof. apply (swab_involutive 100 1021 help); [split|..]; concrete. Defined.

Lemma strcasecmp_correct_witness :
  strcasecmp 1000 1021 100%nat sample = Done (-4) sample /\
  strncasecmp 1000 1021 3 100%nat sample = Done 0 sample.
Proof. apply (strcasecmp_correct 100 1000 1021 3 hello help); concrete. Defined.

Lemma strlwr_correct_witness :
  strlwr 1000 100%nat sample = Done 1000 (written 1000 hello sample) /\
  strupr 1000 100%nat sample = Done 1000 (written 1000 [72; 69; 76; 76; 79] sample).
Proof. apply (strlwr_correct 100 1000 hello); concrete. Defined.

#[global] Instance scanning_dec w p s d D lasts : Decision (scanning w p s d D lasts).
Proof.
  destruct (decide (mem_ok (w_mem w) /\ cstr (w_mem w) p s /\ cstr (w_mem w) d D /\
    mapped (w_mem w) lasts 4 /\ disjoint_ranges lasts 4 p (zlen s + 1)))
    as [(H1 & H2 & H3 & H4 & H5)|H]; [left; by split|right].
  intros [? ? ? ? ?]. by apply H.
Defined.

(** ",a;;bc," at 1000 with the delimiters ",;" at 1020 and a placeholder at 1040. *)
Definition fields : list Z := [44; 97; 59; 59; 98; 99; 44].
Definition fields_w : world := world_of (store_bytes 1000 (fields ++ [0])
  (store_bytes 1020 [44; 59; 0] (store_bytes 1040 (le_bytes 1000) (blank 996 64)))).

Lemma strtok_tokens_witness :
  exists ts w', strtok_all 20 1000 1020 1040 100%nat fields_w = Done ts w' /\
    Forall2 (cstr (w_mem w')) ts (tokens [44; 59] [] fields) /\ frame 1000 8 1040 fields_w w'.
Proof. apply (strtok_tokens 100 20 1000 fields 1020 [44; 59] 1040 fields_w); concrete. Defined.

Lemma strsep_correct_witness :
  strsep 1040 1020 100%nat fields_w =
    Done (strsep_spec 1000 fields [44; 59] 1040 fields_w).1
      (strsep_spec 1000 fields [44; 59] 1040 fields_w).2.
Proof. apply (strsep_correct 100 1000 fields 1020 [44; 59] 1040 fields_w); concrete. Defined.
