(* ===== verification/SubstringTheorems.v ===== *)
(** * Theorems of substring search

    The two-way search against its specification, the first position at which
    the needle is a prefix of the rest of the text ([find_sub]). *)

From S2P Require Import Prelude CMonad Words Memory StrScan StrCmp Ctype TwoWay StrStr StrStrSpec StrSearch Concrete.

Section theorems.
Context {cfg : build}.
Implicit Types (n : nat) (w : world).

(** C27: The preparation of the two-way search computes a critical factorization of
    the needle: a position [s] and the smallest period [p] of the part from
    there on, such that every repetition around [s] is longer than the part
    before it and a period of the whole needle. *)
Theorem critical_factorization_correct n nd X w :
  mem_ok (w_mem w) -> bytes (w_mem w) nd X -> X <> [] -> (2 * length X < n)%nat ->
  exists s p, critical_factorization (H := memmem_macros) nd (zlen X) n w = Done (s, p) w /\
    factorization (at_ X) (zlen X) s p.
Proof.
  intros Hm HX Hne Hn.
  assert (H : wp n (critical_factorization (H := memmem_macros) nd (zlen X)) w
    (fun r w' => w' = w /\ factorization (at_ X) (zlen X) r.1 r.2)).
  { apply (wp_critical_factorization (M := memmem_macros) id w _ nd nd X X
      (L := memmem_matching w nd nd X X Hm HX (le_n _) ltac:(apply mem_ok_range in HX; [lia|done..]))); [done..|].
    intros s p F. rewrite list_fmap_id in F. done. }
  apply wp_exists in H as ([s p] & w' & Hrun & -> & F). eauto.
Qed.

(** C25: memmem, by the two-way algorithm or by comparing everywhere, returns the first
    place of the needle in the memory, or null.  For needles of 32 bytes or more
    the algorithm is right when no proper prefix of the needle is also its suffix,
    or when the text has no bytes but those of the needle; otherwise see the
    finding on str-two-way.h. *)
Theorem memmem_correct n hay nd X H w :
  mem_ok (w_mem w) -> bytes (w_mem w) hay H -> bytes (w_mem w) nd X ->
  (256 < n)%nat -> (2 * length X + length H + 2 < n)%nat -> searchable X H ->
  memmem hay (zlen H) nd (zlen X) n w = Done (found hay X H) w.
Proof. intros. by_wp wp_memmem. Qed.

(** C26: strstr returns the first place of the string [lookfor] in the string
    [searchee], or null, for a string [lookfor] of less than 32 bytes, or one of which no
    proper prefix is also its suffix, or when [searchee] has no bytes but those of
    [lookfor]; otherwise the two-way algorithm can return a place where the string is
    not (see the finding on str-two-way.h, two_way_stale_memory). *)
Theorem strstr_correct n p q X H w :
  mem_ok (w_mem w) -> cstr (w_mem w) p H -> cstr (w_mem w) q X ->
  (256 < n)%nat -> (2 * length X + length H + 5 < n)%nat -> searchable X H ->
  strstr p q n w = Done (found p X H) w.
Proof. intros. by_wp wp_strstr. Qed.

(** strcasestr does the same for the strings in lower case. *)
Theorem strcasestr_correct n p q X H w :
  mem_ok (w_mem w) -> cstr (w_mem w) p H -> cstr (w_mem w) q X ->
  (256 < n)%nat -> (2 * length X + 2 * length H + 5 < n)%nat ->
  searchable (map to_lower X) (map to_lower H) ->
  strcasestr p q n w = Done (found p (map to_lower X) (map to_lower H)) w.
Proof. intros. by_wp wp_strcasestr. Qed.
End theorems.

(** ** The theorems at concrete inputs *)

(** "banana abacabab" at 1000 and "abab" at 1024. *)
Definition text : list Z := [98; 97; 110; 97; 110; 97; 32; 97; 98; 97; 99; 97; 98; 97; 98].
Definition needle : list Z := [97; 98; 97; 98].
Definition upper_needle : list Z := [65; 66; 65; 66].
Definition search_world : world := world_of (store_bytes 1000 (text ++ [0])
  (store_bytes 1024 (needle ++ [0]) (store_bytes 1032 (upper_needle ++ [0]) (blank 1000 40)))).

Lemma critical_factorization_correct_witness :
  exists s p, critical_factorization (H := memmem_macros (cfg := speed)) 1024 4 300%nat search_world =
      Done (s, p) search_world /\ factorization (at_ needle) 4 s p.
Proof. apply (critical_factorization_correct (cfg := speed) 300 1024 needle); concrete. Defined.

Lemma memmem_correct_witness :
  memmem (cfg := speed) 1000 15 1024 4 300%nat search_world = Done 1011 search_world.
Proof. apply (memmem_correct (cfg := speed) 300 1000 1024 needle text); first [left; reflexivity|concrete]. Defined.

Lemma strstr_correct_witness :
  strstr (cfg := speed) 1000 1024 300%nat search_world = Done 1011 search_world.
Proof. apply (strstr_correct (cfg := speed) 300 1000 1024 needle text); first [left; reflexivity|concrete]. Defined.

Lemma strcasestr_correct_witness :
  strcasestr (cfg := speed) 1000 1032 300%nat search_world = Done 1011 search_world.
Proof. apply (strcasestr_correct (cfg := speed) 300 1000 1032 upper_needle text); first [left; reflexivity|concrete]. Defined.
