(* ===== verification/NumberTheorems.v ===== *)
(** * Theorems of stdlib/: text to number, number to text, pseudo-random numbers

    The conversions from text are characterised by the grammar of [parse]:
    white space, an optional sign, an optional base prefix, digits.  [text] is
    the converse, the shortest text of a number in a base. *)

From S2P Require Import Prelude CMonad Words Memory StrScan StrCmp MemCopy StrCopy Ctype Strtol Random Base64 Concrete.

(** The characters a narrow string presents to the conversion. *)
Definition schars (s : list Z) : list Z := map s8 (s ++ [0]).

(** The outcome of a conversion to the type with values [lo .. hi]. *)
Definition converted (lo hi sz nptr endptr base : Z) (l : list Z) (w : world) : outcome Z :=
  let v := signed_value (parse base l) in
  Done (clamp lo hi v) (strto_world (negb (in_range lo hi v)) sz nptr endptr base l w).

(** The same for the unsigned types: a magnitude above [hi] gives [hi], any
    other is negated in the type when there is a minus sign. *)
Definition uconverted (wrap : Z -> Z) (hi sz nptr endptr base : Z) (l : list Z) (w : world)
  : outcome Z :=
  let x := parse base l in
  Done (if hi <? n_value x then hi else wrap (signed_value x))
    (strto_world (hi <? n_value x) sz nptr endptr base l w).

(** The base and the pointers a conversion accepts. *)
Record strto_args {src : charsrc} {Hsrc : charsrc_ok src} (n : nat) (w : world)
    (nptr endptr base : Z) (l : list Z) : Prop := {
  sa_base : base = 0 \/ 2 <= base <= 36;
  sa_chars : chars (w_mem w) nptr l;
  sa_null : last l = Some 0;
  sa_fuel : (length l <= n)%nat;
  sa_ptr : 0 <= nptr /\ nptr + csz * zlen l < 4294967296;
  sa_end : endptr = 0 \/ mapped (w_mem w) endptr 4;
}.

Lemma wp_conv {src : charsrc} {Hsrc : charsrc_ok src} t {Ht : restype_ok t}
    n w nptr endptr base l (Q : Z -> world -> Prop) :
  strto_args n w nptr endptr base l ->
  Q (strto_value t (parse base l))
    (strto_world (overflows t (parse base l)) csz nptr endptr base l w) ->
  wp n (strto t nptr endptr base) w Q.
Proof. intros [] HQ. eapply wp_strto; naive_solver. Qed.

Section conv.
Context {src : charsrc} {Hsrc : charsrc_ok src}.
Context (n : nat) (w : world) (nptr endptr base : Z) (l : list Z).
Hypothesis Hargs : strto_args n w nptr endptr base l.

Lemma conv_nonneg : 0 <= n_value (parse base l).
Proof. apply n_value_nonneg, Hargs. Qed.

Lemma conv_long :
  (acc ← strto t_long nptr endptr base; mret (i32 acc)) n w =
  converted LONG_MIN LONG_MAX csz nptr endptr base l w.
Proof.
  apply wp_run. intros Q HQ. apply wp_bind, (wp_conv _ _ _ _ _ _ l); [done|]. apply wp_ret.
  destruct (t_long_value _ conv_nonneg) as [E1 E2]. by rewrite E1, E2.
Qed.

Lemma conv_llong :
  (acc ← strto t_llong nptr endptr base; mret (i64 acc)) n w =
  converted LONG_LONG_MIN LONG_LONG_MAX csz nptr endptr base l w.
Proof.
  apply wp_run. intros Q HQ. apply wp_bind, (wp_conv _ _ _ _ _ _ l); [done|]. apply wp_ret.
  destruct (t_llong_value _ conv_nonneg) as [E1 E2]. by rewrite E1, E2.
Qed.

Lemma conv_ulong :
  strto t_ulong nptr endptr base n w = uconverted u32 ULONG_MAX csz nptr endptr base l w.
Proof.
  apply wp_run. intros Q HQ. apply (wp_conv _ _ _ _ _ _ l); [done|]. eqapply HQ.
  unfold strto_value, signed_value; simpl. destruct (_ <? _) eqn:E; [done|].
  pose proof conv_nonneg. destruct (n_neg _); [done|]. apply u32_small.
  unfold ULONG_MAX in E. blia.
Qed.

Lemma conv_ullong :
  strto t_ullong nptr endptr base n w = uconverted u64 ULONG_LONG_MAX csz nptr endptr base l w.
Proof.
  apply wp_run. intros Q HQ. apply (wp_conv _ _ _ _ _ _ l); [done|]. eqapply HQ.
  unfold strto_value, signed_value; simpl. destruct (_ <? _) eqn:E; [done|].
  pose proof conv_nonneg. destruct (n_neg _); [done|]. apply u64_small.
  unfold ULONG_LONG_MAX in E. blia.
Qed.
End conv.

(** A conversion from the C string [s]. *)
Record str_args (n : nat) (w : world) (nptr endptr base : Z) (s : list Z) : Prop := {
  str_base : base = 0 \/ 2 <= base <= 36;
  str_mem : mem_ok (w_mem w);
  str_text : cstr (w_mem w) nptr s;
  str_fuel : (length s < n)%nat;
  str_end : endptr = 0 \/ mapped (w_mem w) endptr 4;
}.

Lemma str_args_ok n w nptr endptr base s :
  str_args n w nptr endptr base s ->
  strto_args (src := narrow) n w nptr endptr base (schars s).
Proof.
  intros [Hb Hm Hs Hn He]. unfold schars.
  assert (Hl : length (map s8 (s ++ [0])) = S (length s)).
  { rewrite length_map, length_app. simpl. lia. }
  split; [done|by apply cstr_chars| |by rewrite Hl| |done].
  - rewrite map_app. apply last_snoc.
  - rewrite Hl. change csz with 1.
    assert (Hr := mem_ok_range _ _ _ Hm (cstr_bytes _ _ _ Hs)).
    rewrite length_app in Hr. cbn [length] in Hr.
    enough (0 <= nptr /\ nptr + zlen s < 1073741824) by lia.
    destruct s; cbn [app length] in *; destruct Hr; try done; lia.
Qed.

(** ** The grammar of the documentation *)

(** A prefix 0x belongs to the subject when a hexadecimal digit follows. *)
Definition is_0x (base c x : Z) : bool :=
  ((base =? 0) || (base =? 16)) && (c =? 48) && ((x =? 120) || (x =? 88)).
Definition prefixed (base : Z) (l : list Z) : bool :=
  match l with
  | c :: x :: l' => is_0x base c x && negb (bool_decide (digits 16 l' = []))
  | _ => false
  end.

(** The longest beginning of the text that has the expected form. *)
Definition subject (base : Z) (l : list Z) : numeral :=
  let '(neg, l1) := split_sign (skip_spaces l) in
  if prefixed base l1 then Numeral neg 16 (drop 2 l1) (digits 16 (drop 2 l1))
  else
    let b := if base =? 0 then match l1 with c :: _ :: _ => if c =? 48 then 8 else 10 | _ => 10 end else base in
    Numeral neg b l1 (digits b l1).

(** 0x and no digit after it. *)
Definition bare_prefix (base : Z) (l : list Z) : bool :=
  match snd (split_sign (skip_spaces l)) with
  | c :: x :: l' => is_0x base c x && bool_decide (digits 16 l' = [])
  | _ => false
  end.

(** What strtol does with the string [s], by its documentation. *)
Definition documented (nptr endptr base : Z) (s : list Z) (w : world) : outcome Z :=
  let l := schars s in
  let x := subject base l in
  let v := signed_value x in
  let w1 := if in_range LONG_MIN LONG_MAX v then w else set_reent (set_errno ERANGE (w_reent w)) w in
  let past := match n_digits x with [] => nptr | ds => nptr + (zlen l - zlen (n_rest x) + zlen ds) end in
  Done (clamp LONG_MIN LONG_MAX v)
    (if endptr =? 0 then w1 else set_mem (store_bytes endptr (le_bytes past) (w_mem w1)) w1).

Lemma subject_parse base l : bare_prefix base l = false -> subject base l = parse base l.
Proof.
  unfold bare_prefix, subject, parse. destruct (split_sign (skip_spaces l)) as [neg l1]. cbn [snd].
  destruct l1 as [|c [|x l'] ]; [done..|]. cbn [prefixed split_base drop]. unfold is_0x.
  destruct (((base =? 0) || (base =? 16)) && (c =? 48) && ((x =? 120) || (x =? 88))); [|done].
  by destruct (bool_decide _).
Qed.

Lemma bare_prefix_ten l : bare_prefix 10 l = false.
Proof. unfold bare_prefix. by destruct (snd _) as [|? [|? ?] ]. Qed.

Lemma converted_documented nptr endptr base s w : bare_prefix base (schars s) = false ->
  converted LONG_MIN LONG_MAX 1 nptr endptr base (schars s) w = documented nptr endptr base s w.
Proof.
  intros Hb. unfold converted, documented, strto_world, end_ptr, consumed. rewrite subject_parse, Z.mul_1_l by done.
  by destruct (in_range _ _ _), (n_digits _).
Qed.

(** ** The text of a number in a base *)

Fixpoint radix (k : nat) (base v : Z) (acc : list Z) : list Z :=
  match k with
  | O => acc
  | S k' =>
      let acc := v mod base :: acc in
      if v / base =? 0 then acc else radix k' base (v / base) acc
  end.
Definition digit_char (d : Z) : Z := if d <? 10 then 48 + d else 87 + d.
Definition text (base v : Z) : list Z :=
  (if v <? 0 then [45] else []) ++ map digit_char (radix 64 base (Z.abs v) []).

Lemma radix_value k base v acc :
  2 <= base -> 0 <= v < base ^ Z.of_nat k ->
  value base 0 (radix k base v acc) = value base v acc.
Proof.
  intros Hb. revert v acc. induction k as [|k IH]; intros v acc Hv.
  - replace v with 0 by lia. done.
  - cbn [radix]. rewrite Nat2Z.inj_succ, Z.pow_succ_r in Hv by lia.
    destruct (Z.eqb_spec (v / base) 0) as [E|E].
    + unfold value. cbn [fold_left]. f_equal.
      pose proof (Z.div_mod v base ltac:(lia)). lia.
    + rewrite IH.
      * unfold value. cbn [fold_left]. f_equal.
        pose proof (Z.div_mod v base ltac:(lia)). lia.
      * split; [apply Z.div_pos; lia|]. apply Z.div_lt_upper_bound; lia.
Qed.

Lemma radix_digits k base v acc :
  2 <= base -> Forall (fun d => 0 <= d < base) acc ->
  Forall (fun d => 0 <= d < base) (radix k base v acc).
Proof.
  intros Hb. revert v acc. induction k as [|k IH]; intros v acc Ha; cbn [radix]; [done|].
  assert (Forall (fun d => 0 <= d < base) (v mod base :: acc)).
  { constructor; [|done]. apply Z.mod_pos_bound; lia. }
  destruct (_ =? _); auto.
Qed.

Lemma radix_ne k base v acc :
  exists d l, radix (S k) base v acc = d :: l.
Proof.
  revert v acc. induction k as [|k IH]; intros v acc; cbn [radix].
  - destruct (_ =? _); eauto.
  - destruct (_ =? _); [eauto|]. apply IH.
Qed.

Lemma digit_char_spec d :
  0 <= d < 36 ->
  s8 (digit_char d) = digit_char d /\ 48 <= digit_char d < 123 /\
  digit_val (digit_char d) = Some d.
Proof.
  intros Hd. split; [unfold digit_char, s8; destruct (d <? 10) eqn:E; blia|].
  unfold digit_val, digit_char, is_digit, is_upper, is_lower, between.
  destruct (d <? 10) eqn:E; split; b2p; try lia.
  - replace ((48 <=? 48 + d) && (48 + d <=? 57)) with true by lia. f_equal. lia.
  - replace ((48 <=? 87 + d) && (87 + d <=? 57)) with false by lia.
    replace ((65 <=? 87 + d) && (87 + d <=? 90)) with false by lia.
    replace ((97 <=? 87 + d) && (87 + d <=? 122)) with true by lia. f_equal. lia.
Qed.

Lemma digits_text base ds :
  2 <= base <= 36 -> Forall (fun d => 0 <= d < base) ds ->
  digits base (map digit_char ds ++ [0]) = ds.
Proof.
  intros Hb. induction 1 as [|d ds Hd _ IH]; [done|]. cbn [map app digits].
  destruct (digit_char_spec d ltac:(lia)) as (_ & _ & ->).
  rewrite (proj2 (Z.ltb_lt d base)) by lia. by rewrite IH.
Qed.

Lemma map_s8_digits base ds :
  2 <= base <= 36 -> Forall (fun d => 0 <= d < base) ds ->
  map s8 (map digit_char ds) = map digit_char ds.
Proof.
  intros Hb. induction 1 as [|d ds Hd _ IH]; [done|]. cbn [map]. rewrite IH.
  f_equal. apply digit_char_spec. lia.
Qed.

(** The digits of a text start neither with white space, a sign nor a base
    prefix. *)
Lemma parse_digits neg base ds l :
  2 <= base <= 36 -> Forall (fun d => 0 <= d < base) ds -> ds <> [] ->
  l = map digit_char ds ++ [0] ->
  parse base ((if neg : bool then [45] else []) ++ l) = Numeral neg base l ds.
Proof.
  intros Hb Hds Hne Hl. assert (E := digits_text base ds Hb Hds). rewrite <-Hl in E.
  destruct Hds as [|d ds Hd Hds]; [done|].
  destruct (digit_char_spec d ltac:(lia)) as (_ & Hc & _).
  assert (Hsp : is_space (digit_char d) = false).
  { unfold is_space, between. lia. }
  assert (Hbase : split_base base l = (base, l)).
  { rewrite Hl. cbn [map app].
    destruct (map digit_char ds ++ [0]) as [|x t] eqn:Et.
    { by destruct (map digit_char ds). }
    cbn [split_base].
    assert (Hx : (base =? 16) = false \/ x <> 120 /\ x <> 88).
    { destruct (Z.eqb_spec base 16) as [->|]; [right|by left].
      destruct Hds as [|d' ds Hd' _]; cbn [map app] in Et; injection Et as <- _; [lia|].
      unfold digit_char. destruct (d' <? 10) eqn:?; blia. }
    rewrite (proj2 (Z.eqb_neq base 0)) by lia. cbn [orb].
    destruct Hx as [->|[? ?]]; [done|].
    rewrite (proj2 (Z.eqb_neq x 120)), (proj2 (Z.eqb_neq x 88)) by done.
    by rewrite !andb_false_r. }
  assert (Hsign : split_sign l = (false, l)).
  { rewrite Hl. cbn [map app split_sign].
    rewrite (proj2 (Z.eqb_neq _ 45)), (proj2 (Z.eqb_neq _ 43)) by lia. done. }
  unfold parse. destruct neg; cbn [app].
  - change (skip_spaces (45 :: l)) with (45 :: l).
    change (split_sign (45 :: l)) with (true, l). cbn iota. by rewrite Hbase, E.
  - replace (skip_spaces l) with l; [|rewrite Hl; cbn [map app skip_spaces]; by rewrite Hsp].
    by rewrite Hsign, Hbase, E.
Qed.

Lemma parse_text base v :
  2 <= base <= 36 -> - 2 ^ 64 < v < 2 ^ 64 ->
  signed_value (parse base (schars (text base v))) = v.
Proof.
  intros Hb Hv. assert (Hd := radix_digits 64 base (Z.abs v) [] ltac:(lia) (Forall_nil_2 _)).
  unfold schars, text. rewrite !map_app. cbn [map]. change (s8 0) with 0.
  rewrite (map_s8_digits base) by done. rewrite <-app_assoc.
  replace (map s8 (if v <? 0 then [45] else [])) with (if v <? 0 then [45] else [])
    by by destruct (v <? 0).
  rewrite (parse_digits _ _ (radix 64 base (Z.abs v) [])); [|done..| |done].
  - unfold signed_value, n_value. cbn [n_neg n_base n_digits].
    rewrite radix_value; [|lia|].
    + unfold value. cbn [fold_left]. destruct (v <? 0) eqn:E; blia.
    + split; [lia|]. change (Z.of_nat 64) with 64.
      enough (2 ^ 64 <= base ^ 64) by lia. apply Z.pow_le_mono_l. lia.
  - destruct (radix_ne 63 base (Z.abs v) []) as (d & l & ->). done.
Qed.

(** ** The theorems *)

(** C24: strtol returns the value of the number the text denotes by its documentation,
    clamped to the range of long; errno becomes ERANGE exactly when the clamp changed
    it; the end pointer is stored unless null: after the last digit, or the start when
    there is no digit.  The text 0x without a hexadecimal digit after it is excluded in
    the bases 0 and 16: there the code departs from the documentation (see the finding
    on strtol.c).  atol and atoi are its decimal instances. *)
Theorem strtol_correct n w nptr endptr base s :
  str_args n w nptr endptr base s -> bare_prefix base (schars s) = false ->
  strtol nptr endptr base n w = documented nptr endptr base s w /\
  atol nptr n w = documented nptr 0 10 s w /\
  atoi nptr n w = documented nptr 0 10 s w.
Proof.
  intros Ha Hb. assert (H10 : str_args n w nptr 0 10 s) by (destruct Ha; split; auto; lia).
  rewrite <-!converted_documented by (done || apply bare_prefix_ten).
  assert (E := conv_long _ _ _ _ _ _ (str_args_ok _ _ _ _ _ _ H10)).
  split_and!; [exact (conv_long _ _ _ _ _ _ (str_args_ok _ _ _ _ _ _ Ha))|exact E|].
  apply wp_run. intros Q HQ. apply wp_bind, wp_exists. eexists _, _.
  split; [exact E|]. apply wp_ret. eqapply HQ. symmetry. apply i32_small.
  unfold clamp, LONG_MIN, LONG_MAX. lia.
Qed.

(** strtoll (and atoll) does the same for long long. *)
Theorem strtoll_correct n w nptr endptr base s :
  str_args n w nptr endptr base s ->
  strtoll nptr endptr base n w =
    converted LONG_LONG_MIN LONG_LONG_MAX 1 nptr endptr base (schars s) w /\
  atoll nptr n w = converted LONG_LONG_MIN LONG_LONG_MAX 1 nptr 0 10 (schars s) w.
Proof.
  intros Ha. assert (H10 : str_args n w nptr 0 10 s) by (destruct Ha; split; auto; lia).
  apply str_args_ok in Ha, H10.
  split; [exact (conv_llong _ _ _ _ _ _ Ha)|exact (conv_llong _ _ _ _ _ _ H10)].
Qed.

(** strtoul and strtoull return the magnitude, negated in the type after a
    minus sign; a magnitude above the maximum gives the maximum and ERANGE. *)
Theorem strtoul_correct n w nptr endptr base s :
  str_args n w nptr endptr base s ->
  strtoul nptr endptr base n w =
    uconverted u32 ULONG_MAX 1 nptr endptr base (schars s) w /\
  strtoull nptr endptr base n w =
    uconverted u64 ULONG_LONG_MAX 1 nptr endptr base (schars s) w.
Proof.
  intros Ha. apply str_args_ok in Ha.
  split; [exact (conv_ulong _ _ _ _ _ _ Ha)|exact (conv_ullong _ _ _ _ _ _ Ha)].
Qed.

(** the wide conversions wcstol, wcstoul, wcstoll and wcstoull have the
    outcomes of the narrow ones, on 32-bit characters: the end pointer advances
    by four bytes for each. *)
Theorem wcstol_correct n w nptr endptr base l :
  strto_args (src := wide) n w nptr endptr base l ->
  wcstol nptr endptr base n w = converted LONG_MIN LONG_MAX 4 nptr endptr base l w /\
  wcstoll nptr endptr base n w =
    converted LONG_LONG_MIN LONG_LONG_MAX 4 nptr endptr base l w /\
  wcstoul nptr endptr base n w = uconverted u32 ULONG_MAX 4 nptr endptr base l w /\
  wcstoull nptr endptr base n w = uconverted u64 ULONG_LONG_MAX 4 nptr endptr base l w.
Proof.
  intros Ha. split_and!; [exact (conv_long _ _ _ _ _ _ Ha)|exact (conv_llong _ _ _ _ _ _ Ha)|
    exact (conv_ulong _ _ _ _ _ _ Ha)|exact (conv_ullong _ _ _ _ _ _ Ha)].
Qed.

(** every long round-trips through its text in any base from 2 to 36:
    strtol returns it and touches neither errno nor memory; so does every
    long long through strtoll. *)
Theorem strtol_text n w nptr base v :
  2 <= base -> str_args n w nptr 0 base (text base v) ->
  LONG_LONG_MIN <= v <= LONG_LONG_MAX ->
  strtoll nptr 0 base n w = Done v w /\
  (LONG_MIN <= v <= LONG_MAX -> strtol nptr 0 base n w = Done v w).
Proof.
  intros Hb Ha Hv. assert (Hbase : 2 <= base <= 36) by (destruct (str_base _ _ _ _ _ _ Ha); lia).
  assert (E : signed_value (parse base (schars (text base v))) = v).
  { apply parse_text; [done|]. unfold LONG_LONG_MIN, LONG_LONG_MAX in Hv. lia. }
  apply str_args_ok in Ha. split.
  - etransitivity; [apply (conv_llong _ _ _ _ _ _ Ha)|]. unfold converted. rewrite E.
    unfold clamp, in_range, strto_world, LONG_LONG_MIN, LONG_LONG_MAX in *.
    rewrite (proj2 (Z.leb_le _ _)), (proj2 (Z.leb_le v _)) by lia. cbn. f_equal. lia.
  - intros Hl. etransitivity; [apply (conv_long _ _ _ _ _ _ Ha)|]. unfold converted. rewrite E.
    unfold clamp, in_range, strto_world, LONG_MIN, LONG_MAX in *.
    rewrite (proj2 (Z.leb_le _ _)), (proj2 (Z.leb_le v _)) by lia. cbn. f_equal. lia.
Qed.

(** the character class functions decide the ASCII classes on every
    argument they accept, EOF included: the table entry of each of the 384
    indices has exactly the bits of its classes. *)
Theorem ctype_classes :
  decides isalnum (fun c => is_alpha c || is_digit c) /\ decides isalpha is_alpha /\
  decides iscntrl is_cntrl /\ decides isdigit is_digit /\ decides isgraph is_graph /\
  decides islower is_lower /\ decides isprint (fun c => is_graph c || (c =? 32)) /\
  decides ispunct is_punct /\ decides isspace is_space /\ decides isupper is_upper /\
  decides isxdigit is_xdigit.
Proof. split_and!; apply class_decides; vm_compute; reflexivity. Qed.

(** reading the text l64a wrote gives back the 32-bit value, in the size
    build for every value, in the other build for every value without lower case
    letters in its text. *)
Theorem a64l_l64a {cfg : build} n w v :
  let buf := _l64a_buf (w_reent w) in
  mem_ok (w_mem w) -> mapped (w_mem w) buf 6 -> w_mem w !! (buf + 6) = Some 0 -> (6 < n)%nat ->
  PREFER_SIZE_OVER_SPEED = true \/ Forall (fun d => d < 38) (digits64 6 (u32 v)) ->
  exists w', l64a v n w = Done buf w' /\ a64l buf n w' = Done (i32 v) w'.
Proof.
  intros buf Hm Hmap H6 Hn Hd. set (t := to64 6 (u32 v)).
  assert (Hr : 0 <= u32 v < 64 ^ Z.of_nat 6) by (change (64 ^ Z.of_nat 6) with 68719476736; pose proof (u32_range v); lia).
  assert (Hlen : (length t <= 6)%nat) by apply to64_length.
  assert (Hnn : Forall (fun c => 0 < c < 256) t) by (apply to64_nonnull; lia).
  exists (set_mem (store_bytes buf (l64a_text 6 (u32 v)) (w_mem w)) w).
  split; [by_wp wp_l64a|].
  assert (Hx : zlen (l64a_text 6 (u32 v)) <= 6 /\
    Forall (fun b => is_byte b) (l64a_text 6 (u32 v))).
  { unfold l64a_text. fold t. rewrite length_app, Forall_app.
    split; [case_decide; cbn [length]; lia|].
    split; [eapply Forall_impl; [exact Hnn|]; cbn; lia|].
    case_decide; repeat constructor; lia. }
  apply wp_run. intros Q HQ. apply wp_a64l with (s := t); [| |done|].
  - apply mem_ok_store; [done| |apply Hx]. eapply mapped_sub; [done|lia|lia].
  - split; [|done]. cbn [set_mem w_mem]. unfold l64a_text. fold t. case_decide as Hl.
    + apply bytes_store_same.
    + rewrite app_nil_r. apply bytes_app. split; [apply bytes_store_same|].
      cbn [bytes]. split; [|done]. rewrite lookup_store_out by lia.
      rewrite <-H6. f_equal. lia.
  - rewrite take_ge by lia. eqapply HQ. unfold t. rewrite from64_to64; [|..|done].
    + unfold i32, u32. lia.
    + destruct Hd as [Hd|Hd].
      * eapply Forall_impl; [apply digits64_range|]. intros d ?. apply a64l_digit_r64; auto.
      * eapply Forall_impl; [by apply Forall_and; split; [apply digits64_range|]|].
        intros d [? ?]. apply a64l_digit_r64; auto.
Qed.

(** Multiplication by 16807 is injective modulo [2^31 - 1]. *)
Lemma minstd_nonzero s : 0 < s < 2147483647 -> (16807 * s) mod 2147483647 <> 0.
Proof.
  intros Hs H. apply Z.mod_divide in H; [|lia]. apply Z.gauss in H; [|done].
  apply Z.divide_pos_le in H; lia.
Qed.

(** rand_r is one step of the minimal standard generator, [16807 s mod
    (2^31 - 1)], computed without overflow by the decomposition of the source;
    the new state is stored and returned. *)
Theorem rand_r_minstd n w seed s :
  bytes (w_mem w) seed (le_bytes s) -> 0 < s < 2147483647 ->
  let s' := (16807 * s) mod 2147483647 in
  rand_r seed n w = Done s' (set_mem (store_bytes seed (le_bytes s') (w_mem w)) w) /\
  0 < s' < 2147483647.
Proof.
  intros Hb Hs s'. split; [by_wp wp_rand_r|].
  split; [|apply Z.mod_pos_bound; lia]. unfold s'.
  assert (H := minstd_nonzero s Hs). pose proof (Z.mod_pos_bound (16807 * s) 2147483647). lia.
Qed.

(** lrand48 and mrand48 step the 48-bit linear congruential generator of
    the reentrancy structure, [X' = (a X + c) mod 2^48] on its three 16-bit
    words, and return its high 31 and (signed) high 32 bits. *)
Theorem rand48_lcg n w :
  let r := _r48 (w_reent w) in
  let x := step48 r (ushort3_Z (_seed r)) in
  let w' := set_reent (set_r48 (Rand48 (Z_ushort3 x) (_mult r) (_add r)) (w_reent w)) w in
  rand48_ok r ->
  lrand48 n w = Done (x / 131072) w' /\ mrand48 n w = Done (i32 (x / 65536)) w'.
Proof. intros r x w' Hr. split; [by_wp wp_lrand48|by_wp wp_mrand48]. Qed.

(** ** The theorems at concrete inputs *)

(** " -0x1fg" at 1000 and "99999999999" at 1010, the l64a buffer at 1040, a
    seed at 1024 and wide "42" at 1060. *)
Definition hex_text : list Z := [32; 45; 48; 120; 49; 102; 103].
Definition big_text : list Z := replicate 11 57.
Definition number_mem : mem :=
  store_bytes 1000 (hex_text ++ [0]) (store_bytes 1010 (big_text ++ [0])
    (store_bytes 1024 (le_bytes 1) (store_bytes 1060 [52; 0; 0; 0; 50; 0; 0; 0]
      (blank 996 128)))).
Definition number_world : world :=
  World number_mem (Reent 0 1032 1040 1 (_r48 reent0)) tz0 ∅.

Lemma strtol_correct_witness :
  strtol 1000 1036 0 100%nat number_world = documented 1000 1036 0 hex_text number_world /\
  atol 1000 100%nat number_world = documented 1000 0 10 hex_text number_world /\
  atoi 1000 100%nat number_world = documented 1000 0 10 hex_text number_world.
Proof.
  apply strtol_correct; [split; [left; reflexivity|concrete..|right; concrete]|reflexivity].
Defined.

(** The conversion of "-0x1f" is -31 and ends at the "g". *)
Example strtol_hex :
  documented 1000 1036 0 hex_text number_world =
  Done (-31) (set_mem (store_bytes 1036 (le_bytes 1006) number_mem) number_world).
Proof. vm_compute. reflexivity. Qed.

Lemma strtoll_correct_witness :
  strtoll 1010 0 10 100%nat number_world =
    converted LONG_LONG_MIN LONG_LONG_MAX 1 1010 0 10 (schars big_text) number_world /\
  atoll 1010 100%nat number_world =
    converted LONG_LONG_MIN LONG_LONG_MAX 1 1010 0 10 (schars big_text) number_world.
Proof.
  apply strtoll_correct. split; [right; lia|concrete..|left; reflexivity].
Defined.

Lemma strtoul_correct_witness :
  strtoul 1010 1036 10 100%nat number_world =
    uconverted u32 ULONG_MAX 1 1010 1036 10 (schars big_text) number_world /\
  strtoull 1010 1036 10 100%nat number_world =
    uconverted u64 ULONG_LONG_MAX 1 1010 1036 10 (schars big_text) number_world.
Proof.
  apply strtoul_correct. split; [right; lia|concrete..|right; concrete].
Defined.

Lemma wcstol_correct_witness :
  wcstol 1060 1036 10 100%nat number_world =
    converted LONG_MIN LONG_MAX 4 1060 1036 10 [52; 50; 0] number_world /\
  wcstoll 1060 1036 10 100%nat number_world =
    converted LONG_LONG_MIN LONG_LONG_MAX 4 1060 1036 10 [52; 50; 0] number_world /\
  wcstoul 1060 1036 10 100%nat number_world =
    uconverted u32 ULONG_MAX 4 1060 1036 10 [52; 50; 0] number_world /\
  wcstoull 1060 1036 10 100%nat number_world =
    uconverted u64 ULONG_LONG_MAX 4 1060 1036 10 [52; 50; 0] number_world.
Proof.
  apply wcstol_correct. split; [right; lia| |reflexivity|cbn; lia|cbn; lia|right; concrete].
  refine (conj (ex_intro _ 52 _) (conj (ex_intro _ 50 _) (conj (ex_intro _ 0 _) I)));
    (split; [decided|split; [lia|reflexivity]]).
Defined.

Lemma strtol_text_witness :
  strtoll 1010 0 10 100%nat number_world = Done 99999999999 number_world /\
  (LONG_MIN <= 99999999999 <= LONG_MAX ->
   strtol 1010 0 10 100%nat number_world = Done 99999999999 number_world).
Proof.
  apply strtol_text; [lia| |unfold LONG_LONG_MIN, LONG_LONG_MAX; lia].
  split; [right; lia|concrete..|left; reflexivity].
Defined.

Lemma a64l_l64a_witness :
  exists w', l64a 1000000 100%nat number_world = Done 1040 w' /\
    a64l (H := size) 1040 100%nat w' = Done 1000000 w'.
Proof.
  apply (a64l_l64a (cfg := size) 100 number_world 1000000); [concrete..|]. left. reflexivity.
Defined.

Lemma rand_r_minstd_witness :
  rand_r 1024 100%nat number_world =
    Done 16807 (set_mem (store_bytes 1024 (le_bytes 16807) number_mem) number_world) /\
  0 < 16807 < 2147483647.
Proof. apply (rand_r_minstd 100 number_world 1024 1); concrete. Defined.

Lemma rand48_lcg_witness :
  let r := _r48 reent0 in
  let x := step48 r (ushort3_Z (_seed r)) in
  let w' := set_reent (set_r48 (Rand48 (Z_ushort3 x) (_mult r) (_add r)) reent0) (world_of ∅) in
  lrand48 100%nat (world_of ∅) = Done (x / 131072) w' /\
  mrand48 100%nat (world_of ∅) = Done (i32 (x / 65536)) w'.
Proof. apply (rand48_lcg 100 (world_of ∅)). vm_compute. intuition discriminate. Defined.
