(* ===== verification/TimeTheorems.v ===== *)
(** * Theorems of time/

    The calendar functions against the proleptic Gregorian calendar: [dby] and
    [dbm] count the days before a year and before a month, [valid_tm] is the
    broken-down time of an instant and [tm_time] its seconds since the epoch. *)

From S2P Require Import Prelude CMonad Words Memory StrScan Strtol Time Concrete.

Lemma valid_seconds r : valid_tm r -> tm_seconds r = tm_time r.
Proof.
  intros Hr. rewrite tm_seconds_eq. unfold tm_time.
  rewrite dbM_month by apply Hr. rewrite (vt_yday _ Hr). ring.
Qed.

Lemma dby_3000 : dby 3000 = 376200.
Proof. reflexivity. Qed.
Lemma dby_0 : dby 0 = -719528.
Proof. reflexivity. Qed.

Lemma valid_days r :
  valid_tm r -> -2147483648 <= tm_time r < 2147483648 ->
  -24857 <= dby (tm_year r + 1900) + tm_yday r <= 24855.
Proof. intros [] Ht. unfold tm_time in Ht. lia. Qed.

(** The broken-down time of a 32-bit instant is an argument mktime accepts. *)
Lemma valid_mktime_arg r :
  valid_tm r -> -2147483648 <= tm_time r < 2147483648 -> mktime_arg r.
Proof.
  intros Hr Ht. assert (Hd := valid_days r Hr Ht). pose proof (valid_yday _ Hr) as Hy.
  pose proof (year_lengths_range (isleap (tm_year r + 1900))) as Hl.
  assert (Hm := vt_mday _ Hr). pose proof (dbm_facts (isleap (tm_year r + 1900)) _ (vt_mon _ Hr)).
  assert (-5000 <= tm_year r <= 5000).
  { split; apply Z.nlt_ge; intros Hlt.
    - assert (H0 := dby_le (tm_year r + 1900) 0 ltac:(lia)). rewrite dby_0 in H0. lia.
    - assert (H0 := dby_le 3000 (tm_year r + 1900) ltac:(lia)). rewrite dby_3000 in H0. lia. }
  destruct Hr. split; lia.
Qed.

(** C34: gmtime_r inverts the calendar: for every 32-bit time, negative ones
    included, it returns the one valid broken-down time (fields in range, day of
    the year and of the week consistent with the date) whose seconds since the
    epoch are the argument. *)
Theorem gmtime_correct n t w :
  -2147483648 <= t < 2147483648 -> (80 <= n)%nat ->
  exists r, gmtime_r t n w = Done r w /\ valid_tm r /\ tm_time r = t /\ tm_isdst r = 0.
Proof.
  intros Ht Hn.
  assert (H : wp n (gmtime_r t) w (fun r w' =>
    w' = w /\ valid_tm r /\ tm_time r = t /\ tm_isdst r = 0)) by (apply wp_gmtime; auto).
  apply wp_exists in H as (r & w' & E & -> & ?). eauto.
Qed.

(** C40: without daylight saving, mktime normalises a broken-down time whose fields may
    be out of range to the valid one of the same instant, and returns its seconds plus
    the zone offset, when these are a 32-bit time (for others the result wraps: see
    the finding on mktime.c).  Seconds, minutes, hours and days may be anything up to a
    million either way, the month may be 0 to 12000 (not negative: see the other
    finding) and the year up to 5000 years before or after 1900. *)
Theorem mktime_correct n t w :
  mktime_arg t -> 40000 < Z.of_nat n -> _daylight (w_tz w) = 0 ->
  -2147483648 <= tm_seconds t + mktime_offset (tm_isdst t) (w_tz w) < 2147483648 ->
  exists r, mktime t n w = Done (tm_seconds t + mktime_offset (tm_isdst t) (w_tz w), r) w /\
    valid_tm r /\ tm_time r = tm_seconds t /\
    tm_isdst r = (if 0 <? tm_isdst t then 1 else tm_isdst t).
Proof.
  intros Ht Hn Hd Hr.
  assert (H : wp n (mktime t) w (fun x w' => w' = w /\ exists r,
    x = (tm_seconds t + mktime_offset (tm_isdst t) (w_tz w), r) /\
    valid_tm r /\ tm_time r = tm_seconds t /\
    tm_isdst r = (if 0 <? tm_isdst t then 1 else tm_isdst t))).
  { apply wp_mktime; [done..|]. intros r ? Et ?. rewrite Et, i32_small by lia. split; [done|]. by exists r. }
  apply wp_exists in H as (x & w' & E & -> & r & -> & ?). eauto.
Qed.

(** C35: in UTC, mktime is the inverse of gmtime_r on every 32-bit time: it
    returns the time and leaves the broken-down time unchanged. *)
Theorem mktime_gmtime n t w :
  -2147483648 <= t < 2147483648 -> 40000 < Z.of_nat n ->
  _daylight (w_tz w) = 0 -> tz_offset (__tzrule0 (w_tz w)) = 0 ->
  (r ← gmtime_r t; mktime r) n w = (r ← gmtime_r t; mret (t, r)) n w.
Proof.
  intros Ht Hn Hd Ho.
  assert (H : wp n (gmtime_r t) w (fun r w' =>
    w' = w /\ valid_tm r /\ tm_time r = t /\ tm_isdst r = 0)) by (apply wp_gmtime; auto; lia).
  apply wp_exists in H as (r & w' & E & -> & Hr & Hrt & Hdst).
  unfold mbind, C_bind. rewrite E. apply wp_run. intros Q HQ.
  apply wp_mktime; [|done..|].
  - apply valid_mktime_arg; [done|]. by rewrite Hrt.
  - intros r' Hr' Ht' Hdst'. rewrite valid_seconds in Ht' by done.
    rewrite Hdst in Hdst'. change (0 <? 0) with false in Hdst'. cbv iota in Hdst'.
    assert (r' = r) as -> by (apply valid_tm_unique; [done..|]; by rewrite Hdst, Hdst').
    rewrite Hdst. unfold mktime_offset. change (0 <? 0) with false. cbv iota. rewrite Ho, Hrt, i32_small by lia.
    eqapply HQ. f_equal. lia.
Qed.

(** for M rules, __tzcalc_limits finds the day of each change, the n-th (or
    last) given weekday of the month, by its closed formulas and its loops over
    months and weeks, and records the two changes and the hemisphere. *)
Theorem tzcalc_limits_correct n year w :
  let r0 := __tzrule0 (w_tz w) in
  let r1 := __tzrule1 (w_tz w) in
  let change r D := i32 (D * 86400 + tz_s r + tz_offset r) in
  1970 <= year -> m_rule r0 -> m_rule r1 -> (12 < n)%nat ->
  exists D0 D1, nth_weekday year r0 D0 /\ nth_weekday year r1 D1 /\
    __tzcalc_limits year n w = Done 1
      (set_tz (TzInfo (_daylight (w_tz w)) (Z.b2z (change r0 D0 <? change r1 D1)) year
        (set_change (change r0 D0) r0) (set_change (change r1 D1) r1)) w).
Proof.
  intros r0 r1 change Hy H0 H1 Hn.
  assert (H : wp n (__tzcalc_limits year) w (fun v w' => v = 1 /\ exists D0 D1,
    nth_weekday year r0 D0 /\ nth_weekday year r1 D1 /\
    w' = set_tz (TzInfo (_daylight (w_tz w)) (Z.b2z (change r0 D0 <? change r1 D1)) year
        (set_change (change r0 D0) r0) (set_change (change r1 D1) r1)) w)).
  { apply wp_tzcalc_limits; [done..|]. intros D0 D1 HD0 HD1. split; [done|]. eauto 8. }
  apply wp_exists in H as (v & w' & E & -> & D0 & D1 & ? & ? & ->). eauto 8.
Qed.

(** ** The theorems at concrete inputs *)

Lemma gmtime_correct_witness :
  exists r, gmtime_r (-1) 100%nat (world_of ∅) = Done r (world_of ∅) /\
    valid_tm r /\ tm_time r = -1 /\ tm_isdst r = 0.
Proof. apply (gmtime_correct 100 (-1)); lia. Defined.

(** 1 January 1970 with the 90th of February and -1 seconds. *)
Definition odd_date : tm := Tm (-1) 0 0 90 1 70 0 0 0.

Lemma mktime_correct_witness :
  exists r, mktime odd_date (Z.to_nat 50000) (world_of ∅) =
      Done (tm_seconds odd_date + 0, r) (world_of ∅) /\
    valid_tm r /\ tm_time r = tm_seconds odd_date /\ tm_isdst r = 0.
Proof.
  apply (mktime_correct (Z.to_nat 50000) odd_date (world_of ∅));
    [split; cbn; lia|lia|reflexivity|by vm_compute].
Defined.

Lemma mktime_gmtime_witness :
  (r ← gmtime_r 2147483647; mktime r) (Z.to_nat 50000) (world_of ∅) =
  (r ← gmtime_r 2147483647; mret (2147483647, r)) (Z.to_nat 50000) (world_of ∅).
Proof. apply (mktime_gmtime (Z.to_nat 50000) 2147483647 (world_of ∅)); [lia|lia|reflexivity..]. Defined.

(** The rules of the default zone EST5EDT: first Sunday of April to the last
    Sunday of October. *)
Definition us_zone : tzinfo :=
  TzInfo 1 1 0 (TzRule 77 4 1 0 7200 0 18000) (TzRule 77 10 5 0 7200 0 14400).
Definition us_world : world := World ∅ reent0 us_zone ∅.

Lemma tzcalc_limits_correct_witness :
  let r0 := __tzrule0 us_zone in
  let r1 := __tzrule1 us_zone in
  let change r D := i32 (D * 86400 + tz_s r + tz_offset r) in
  exists D0 D1, nth_weekday 2000 r0 D0 /\ nth_weekday 2000 r1 D1 /\
    __tzcalc_limits 2000 100%nat us_world = Done 1
      (set_tz (TzInfo 1 (Z.b2z (change r0 D0 <? change r1 D1)) 2000
        (set_change (change r0 D0) r0) (set_change (change r1 D1) r1)) us_world).
Proof.
  apply (tzcalc_limits_correct 100 2000 us_world); [lia| | |cbn; lia];
    (split; [reflexivity|cbn; lia]).
Defined.
