(* ===== verification/Findings.v ===== *)
(** * Deviations

    Inputs on which the code departs from its documentation, as evaluations of
    the definitions; the theorems of the other files exclude them by their
    hypotheses, or say what happens. *)

From S2P Require Import Prelude CMonad Words Memory Exit ExitSpec StrScan MemCopy StrCopy Ctype Strtol Base64 Time Iconv Concrete TwoWay StrStr StrStrSpec Bump Mprec MprecTheorems Stdio StdioTheorems StdioIn StdioInSpec StdioInTheorems.

(** strrchr with a nonzero [i] whose low byte is 0 searches past the
    terminating null: on a string at the end of the mapped memory it faults,
    where it should return the address of the null. *)
Theorem strrchr_overrun :
  strrchr (H := speed) 1000 256 100%nat
    (world_of (store_bytes 1000 [104; 105; 33; 0] ∅)) = Fault.
Proof. vm_compute. reflexivity. Qed.

(** memccpy in the word-copying build does not find a byte of 0x80 or more:
    the mask is built from a sign-extended [char].  It copies past the byte and
    returns NULL, where the size build stops after it. *)
Theorem memccpy_high_byte :
  let w := world_of (store_bytes 1000 [1; 200; 3; 4] (blank 1000 16)) in
  memccpy (H := speed) 1008 1000 200 4 100%nat w = Done 0 (written 1008 [1; 200; 3; 4] w) /\
  memccpy (H := size) 1008 1000 200 4 100%nat w = Done 1010 (written 1008 [1; 200] w).
Proof. split; vm_compute; reflexivity. Qed.

(** a64l of "a", the text l64a writes for 38, is 70 in the default build. *)
Theorem a64l_lower_case :
  let w := world_of (store_bytes 1000 [97; 0] (blank 1000 8)) in
  a64l (H := speed) 1000 100%nat w = Done 70 w /\ a64l (H := size) 1000 100%nat w = Done 38 w.
Proof. split; vm_compute; reflexivity. Qed.

(** localtime_r of an instant whose local date is 31 December, the UTC date
    being 1 January: the day of the year of 31 December 1969 is 365 instead of
    364. *)
Theorem localtime_new_year :
  let w := World ∅ reent0
    (TzInfo 0 1 1970 (TzRule 77 4 1 0 7200 0 18000) (TzRule 77 10 5 0 7200 0 14400)) ∅ in
  localtime_r 3600 100%nat w = Done (Tm 0 0 20 31 11 69 3 365 0) w.
Proof. vm_compute. reflexivity. Qed.

(** mktime of the first of January 2100, which a 32-bit time can not represent,
    returns the seconds modulo 2^32, a time in 1963, not -1. *)
Theorem mktime_unrepresentable :
  (r ← mktime (Tm 0 0 0 1 0 200 0 0 0); mret (fst r)) 1000%nat (world_of ∅) = Done (-192522496) (world_of ∅).
Proof. vm_compute. reflexivity. Qed.

(** mktime with a negative month, a value the standard lets it normalise, reads
    outside its table of month lengths. *)
Theorem mktime_negative_month :
  mktime (Tm 0 0 0 1 (-1) 70 0 0 0) 100%nat (world_of ∅) = Fault.
Proof. vm_compute. reflexivity. Qed.

(** A rule Jn designates the day after the n-th day of the year without leap
    days: 'J' is not adjusted to its origin 1. *)
Theorem julian_rule_late n year r w :
  tz_ch r = 74 ->
  tzcalc_day year (dby year) r n w = Done (posix_julian_day year (tz_d r) + 1) w.
Proof.
  intros Hr. unfold tzcalc_day. rewrite Hr. change (74 =? 74) with true. cbv iota.
  unfold posix_julian_day, mret, C_ret. f_equal.
  destruct (isleap year && (60 <=? tz_d r)); cbn; lia.
Qed.

(** On "0xg" with base 16 strtol finds no digit after the prefix and reports no
    conversion (the end pointer is the start), although the subject sequence of
    the documentation is "0". *)
Theorem strtol_bare_prefix :
  let w := world_of (store_bytes 1000 [48; 120; 103; 0] (blank 1000 16)) in
  strtol 1000 1008 16 100%nat w = Done 0 (written 1008 (le_bytes 1000) w).
Proof. vm_compute. reflexivity. Qed.

(** A conversion that substitutes loses a character when the substitute does
    not fit: U+1F600 has no encoding in UCS-2, one byte of space is left; the
    character is taken from the input, nothing is written and the call
    succeeds. *)
Theorem iconv_lost_character :
  let w := world_of (store_bytes 1000 [0xF0; 0x9F; 0x98; 0x80] (blank 1000 16)) in
  ucs_based_conversion_convert (UcsConversion to_ucs_utf_8 0 from_ucs_ucs_2_internal 0)
    1000 4 1008 1 0 0 100%nat w = Done (1, (1004, 0, 1008, 1)) w.
Proof. vm_compute. reflexivity. Qed.

(** A UTF-16 input that ends after its byte order mark is reported incomplete
    but the reader remembers the byte order; when the call is repeated with
    more input the mark is taken for the character U+FEFF. *)
Theorem iconv_mark_twice :
  let w := world_of (store_bytes 1000 [0xFF; 0xFE; 0x61; 0x00] (blank 900 130)) in
  match utf_16_convert_to_ucs 900 1000 2 100%nat w with
  | Done (r, p, l) w' =>
      r = ICONV_CES_BAD_SEQUENCE /\ p = 1000 /\ l = 2 /\
      utf_16_convert_to_ucs 900 1000 4 100%nat w' = Done (0xFEFF, 1002, 2) w' /\
      match utf_16_convert_to_ucs 900 1000 4 100%nat w with
      | Done (c, p, _) _ => c = 0x61 /\ p = 1004
      | _ => False
      end
  | _ => False
  end.
Proof. vm_compute. repeat split. Qed.

(** The conversion without a change of encoding reports that there is no space
    for an input that fits exactly, after converting it. *)
Theorem iconv_null_exact :
  let w := world_of (store_bytes 1000 [97; 98] (blank 1000 16)) in
  null_conversion_convert (H := speed) 1000 2 1008 2 0 100%nat w =
    Done (u32 (-1), (1002, 0, 1010, 0))
      (set_reent (set_errno E2BIG (w_reent w)) (written 1008 [97; 98] w)).
Proof. vm_compute. reflexivity. Qed.

(** ucs-4.c takes 0x7FFFFFFF, which its comment excludes. *)
Theorem ucs_4_largest :
  let w := world_of (store_bytes 1000 [0x7F; 0xFF; 0xFF; 0xFF] (blank 900 130)) in
  ucs_4_convert_to_ucs 900 1000 4 100%nat w = Done (0x7FFFFFFF, 1004, 0) w.
Proof. vm_compute. reflexivity. Qed.

(** With no memory for the buffer of the standard output, which this build opens
    line buffered, the stream is both line buffered and unbuffered: after its first
    character, putc leaves a character in the buffer of one byte while the next
    string is written directly, so putc ('a'), putc ('b'), fputs ("c"), fflush
    write "acb". *)
Theorem stdout_reordered :
  let w := world_of (store_bytes 1016 [99; 0] (blank 1000 32)) in
  match session (cfg := speed) (__swrite (disk_write 100) disk_lseek) None false no_malloc no_realloc
    no_free tty_fstat tty_isatty [Putc 97; Putc 98; Fputs 1016] stdout_file 100%nat w with
  | Done (ok, _) w' => ok = true /\ w_io w' !! 1 = Some [97; 99; 98]
  | _ => False
  end.
Proof. vm_compute. done. Qed.

(** fwrite to a file with space for five bytes, on a stream that holds "ab": the
    buffer is filled with six bytes of "1234567", the flush writes "ab123" and fails;
    three elements of one byte are in the file, and fwrite returns 0. *)
Theorem fwrite_uncounted :
  let w := world_of (store_bytes 1000 [97; 98] (store_bytes 1016 [49; 50; 51; 52; 53; 54; 55] (blank 1000 64))) in
  match _fwrite_r (H := speed) (__swrite (disk_write 5) disk_lseek) None false no_malloc no_realloc no_free
    tty_fstat tty_isatty 1016 1 7 full_file 100%nat w with
  | Done (r, _) w' => r = 0 /\ w_io w' !! 1 = Some [97; 98; 49; 50; 51]
  | _ => False
  end.
Proof. vm_compute. done. Qed.

(** A carry out of a full block when there is no memory for a larger one: multadd
    copies the number to address 0. *)
Theorem multadd_no_memory :
  multadd (H := speed) (fun _ _ => mret 0) 3000 3100 10 0 100%nat
    (start_world [(3100, [0; 0; 1; 0; 1; 4294967295])] []) = Fault.
Proof. vm_compute. reflexivity. Qed.

(** An unbuffered stream in which two characters were pushed back, the one that was
    read and another: fread of two yields the second and goes on in the file; the
    first, though ungetc took it, is lost. *)
Theorem fread_unbuffered_loses :
  let w := World (store_bytes 1020 [99] (blank 1000 64)) reent0 tz0 {[0 := [100; 101]]} in
  let fp := File 1021 0 0 (Z.lor __SRD __SNBF) 0 (Sbuf 1020 1) 0 (Sbuf 0 0) 0 0 1012 1020 0 0 0 in
  match ('(a, fp) ← _ungetc_r (H := speed) out_write None no_malloc no_realloc no_free 99 fp;
         '(b, fp) ← _ungetc_r (H := speed) out_write None no_malloc no_realloc no_free 120 fp;
         '(r, fp, _) ← _fread_r (H := speed) in_read out_write None false no_malloc no_free tty_fstat tty_isatty
           1040 1 2 fp [];
         mret (a, b, r)) 100%nat w with
  | Done (a, b, r) w' => (a, b, r) = (99, 120, 2) /\ bytes (w_mem w') 1040 [120; 100]
  | _ => False
  end.
Proof. vm_compute. done. Qed.

(** A periodic needle of 32 bytes, (ab)^16, in a text where the second window ends in
    a byte that is not in the needle: the search moves past that byte but still
    takes the first 30 bytes of the next window for compared, and memmem returns
    a place where the text has zeros. *)
Theorem two_way_stale_memory :
  let needle := concat (replicate 16 [97; 98]) in
  let text := [99; 98] ++ concat (replicate 15 [97; 98]) ++ [97; 100] ++ replicate 30 0 ++ [97; 98] in
  let w := world_of (store_bytes 1000 text (store_bytes 1100 needle (blank 1000 132))) in
  memmem (cfg := speed) 1000 (zlen text) 1100 (zlen needle) 300%nat w = Done 1034 w /\
  found 1000 needle text = 0.
Proof. vm_compute. done. Qed.

(** stdlib/__atexit.c: the type bits of a place are set and never cleared.  After the
    handler of an object was finalized, its place makes a function of [on_exit] look
    like one of [__cxa_atexit]: it is called with its argument alone, without the
    status. *)
Definition count_args (fn : Z) (args : list Z) : C unit := store32 1408 (zlen args).
Definition exit_table : world := world_of
  (foldr (fun '(p, v) => store_bytes p (le_bytes v)) (blank 996 420)
    (table_cells 1400 1000 (Table 0 0 0 (replicate 32 0) (replicate 32 0) (replicate 32 0) 0 0) ++ [(1404, 0); (1408, 9)])).

Theorem exit_stale_type :
  let run (before : C unit) := match (before ;; _ ← on_exit 1400 1000 7000 5;
    exit 900 1400 1404 count_args (fun _ => mret tt) 3 ;; load32 1408) 100%nat exit_table with
    | Done v _ => v | _ => -1 end in
  run (mret tt) = 2 /\ run (_ ← __cxa_atexit 1400 1000 6000 8 9; __cxa_finalize 1400 count_args 9) = 1.
Proof. by vm_compute. Qed.

(** stdlib/atexit.c says that there is no limit to the number of functions; without
    [_ATEXIT_DYNAMIC_ALLOC] the 33rd is refused. *)
Theorem atexit_limit :
  let fix many k := match k with O => mret 0 | S k => _ ← many k; atexit 1400 1000 7000 end in
  (exists w, many 32%nat 100%nat exit_table = Done 0 w) /\ exists w, many 33%nat 100%nat exit_table = Done (-1) w.
Proof. split; eexists; by vm_compute. Qed.
